(* ===== verification/_CoqProject ===== *)
-Q . S2P
Prelude.v
RustStr.v
RustFloat.v
Model.v
Segment.v
AppState.v
Lifecycle.v
Recovery.v
Exclusion.v
Civil.v
PauseStore.v
UrlNorm.v
DesktopActivity.v
Preview.v
EngineState.v
Engine.v
EngineInv.v
EngineFrame.v
EngineSteps.v
EngineDrive.v
EngineProps.v
Setup.v
Ingest.v
Transport.v
Coordinator.v
CoordinatorProps.v
CoordinatorWalk.v
CoordinatorQuarantine.v
CoordinatorDemo.v
JournalLink.v
SealedStore.v
StoreProps.v
LinkLoop.v
Admission.v
UpdateState.v
About.v
Launch.v
Custody.v
CustodyLogic.v
CustodySteps.v
CustodyOps.v
CustodyMoves.v
CustodyEnds.v
CustodyLoad.v
BrowserHub.v
BrowserRun.v
BrowserFlight.v
BrowserKeeps.v
BrowserProps.v
BrowserSessions.v
BrowserDemo.v
OwnerFs.v
Paired.v
PairedLogic.v
PairedSave.v
PairedHistory.v
Answer.v
PairedOpen.v
Retire.v
RetireLogic.v
RetireSteps.v
RetireProps.v
Handoff.v
HandoffLogic.v
HandoffSteps.v
HandoffProps.v
HandoffSystem.v
Migrate.v
MigrateLogic.v
MigrateProps.v
Token.v
OwnerDemo.v
MigrateDemo.v
Tray.v
Sample.v
JournalVersion.v
JournalVersionProps.v
Burst.v
RelayAccess.v
Draft.v
