(* ===== verification/Prelude.v ===== *)
(** * solstone-windows: a verification of the observer's decision core

    The program is a Windows desktop observer. Capture sources (screen, system
    audio, microphone, desktop activity) deliver media and events to one
    capture engine; the engine files them into clock-aligned segments, reports
    its health honestly, keeps the owner's pauses, and never records what the
    owner excluded. The Rust workspace puts the decisions in portable crates
    and the operating system behind traits; this library models the portable
    crates and takes each trait as a type class over an abstract world.

    ** Files, and the code each models (under src/crates/)

    - [Prelude]: machine integers at their width ([u64] as [Z] with wrapping
      and saturating operations written out), [Result], the state monad of
      [&mut self] code, its small program logic ([triple], [pres], [keeps]),
      list scans.
    - [RustStr], [RustFloat]: the parts of Rust's [str] and float types the
      code uses (bytes, trimming, decimal and hexadecimal text, lossy UTF-8;
      IEEE binary32/64 through the Standard Library's [SpecFloat]).
    - [Model]: observer-model/src/lib.rs and the data of setup.rs.
    - [Segment]: observer-segment/src/lib.rs, rotation arithmetic and the
      [SegmentFs] seam.
    - [AppState]: observer-state/src/lib.rs, the reducer and its specification
      as a function of the event history.
    - [Lifecycle]: observer-lifecycle/src/lib.rs, backoff and breaker.
    - [Recovery]: observer-recovery/src/lib.rs over the [RecoveryFs] seam.
    - [Exclusion]: observer-exclusion/src/lib.rs, rules, frame verdict,
      redaction of pixels.
    - [Civil]: observer-pl/src/civil.rs, calendar arithmetic.
    - [PauseStore]: capture-engine/src/pause_store.rs; the interface
      [PauseStoreLaws] is what the engine relies on, and the file store
      discharges it.
    - [UrlNorm]: [normalize_url] and the host check of
      observer-model/src/desktop_activity.rs, over the URL parser as a
      parameter.
    - [DesktopActivity]: the rest of that file and
      capture-engine/src/desktop_activity.rs, the activity scheduler.
    - [Preview]: audio level and thumbnail of capture-engine/src/lib.rs.
    - [EngineState], [Engine]: capture-engine/src/lib.rs, every method of
      [CaptureEngine] in the order of its statements. The engine's fields are
      the record [Engine W A]; the sources, encoder, segment filesystem, clock
      and pause store are the world [W], the setup authority is [A].
    - [EngineInv]: the standing invariant and that every method keeps it.
    - [EngineFrame]: which calls on the world an operation can make, as a
      frame rule proved once for every method.
    - [EngineSteps]: everything that can happen to an engine as a step
      relation, reachability.
    - [EngineDrive]: the frame rule applied to rotation, switches and pauses.
    - [EngineProps]: the theorems about the whole engine, on a concrete world.
    - [Setup]: observer-model/src/setup.rs, the saved choices, how they load,
      and [SetupAuthority], the instance of the interface [SetupAuth] that the
      engine is proved against; [shell_run] puts the requests of
      src-tauri/src/ipc.rs, the queue of source switches to the engine and the
      engine's notes in the shared authority together.
    - [Ingest]: observer-pl/src/ingest.rs, the multipart upload, the check of
      a receipt, the listing check and the custody proof.
    - [Transport]: the errors, refusal classes, acknowledgement file and
      directory names of pl-transport-win (lib.rs, ack.rs, sealed.rs, client.rs).
    - [Coordinator]: pl-transport-win/src/coordinator.rs, a whole pass of
      [UploadCoordinator] in the order of its statements, over the class
      [UploadWorld] (store, client, clocks, zone); every call on the world is
      recorded in a ghost log that the code never reads.
    - [CoordinatorProps], [CoordinatorWalk], [CoordinatorQuarantine]: what the
      log must contain before a deletion or a quarantine; [Walk] and
      [FullWalk] state once which invariants survive a pass.
      [CoordinatorDemo] runs passes on a concrete world.
    - [SealedStore]: [LocalSealedStore] of pl-transport-win/src/sealed.rs over
      a file system whose calls fail where a list of faults says. [StoreProps]
      makes it an instance of [UploadWorld] and runs the coordinator over it.
    - [JournalLink]: observer-model/src/journal_link.rs, the presenter.
    - [LinkLoop]: pl-transport-win/src/liveness.rs, the coordinator's check
      loop and [present_journal_link] of src-tauri/src/app.rs, as a timed step
      relation in which they interleave with uploads, with the publications of
      the health and with the readings of what was last published.
    - [Admission]: observer-update/src/admission.rs, which update packages are
      accepted, over the archive, XML, version and signature libraries.
    - [UpdateState]: observer-update/src/lib.rs, the reducer of update events,
      what is displayed and which controls are enabled.
    - [About]: observer-model/src/about.rs, the lines of the about block, the
      snapshot given to browsers and its validation, the form encoding.
    - [Launch]: observer-model/src/launch.rs and scheme.rs,
      browser-host/src/argv.rs and stores.rs: what a command line asks for, who
      owns the address scheme, which stores are offered.
    - [Custody]: browser-host/src/custody.rs, every method of [Store] over a
      file system whose calls fail, fail half way or are the last the process
      makes. [CustodyLogic] is its program logic, with an invariant that must
      hold at every call; [CustodySteps], [CustodyOps], [CustodyMoves],
      [CustodyEnds] and [CustodyLoad] prove it for the calls, the helpers, the
      methods that add text, those that end a period, and the load.
    - [BrowserHub]: browser-host/src/hub.rs and upload.rs, the hub, the turns
      of a session and the stretches of a delivery pass between two awaits.
      [BrowserRun] puts hub, store, sessions and passes together as one system
      that can stop anywhere; [BrowserFlight], [BrowserKeeps] and
      [BrowserProps] hold what is kept of it, [BrowserSessions] what browsers
      are told, [BrowserDemo] concrete runs.
    - [OwnerFs]: the directory of the owner's files, with calls that fail, are
      torn or are the last the process makes, what the journal was asked as a
      log, the staged write of credential.rs, and a program logic whose third
      condition holds where the process stops.
    - [Paired]: [PairedState] and everything that reads or changes it in
      pl-transport-win/src/credential.rs: wrapped secrets, the history of setup
      links, save, load, rejection intents, the guarded mutation.
      [PairedLogic], [PairedSave], [PairedHistory] and [PairedOpen] prove what
      reading, saving, the history and a fault-free run do. [Token] is the
      publication of a relay token on top of it.
    - [Answer]: pl-transport-win/src/answer.rs, the owner's answer file.
    - [Retire]: pl-transport-win/src/retirement.rs, rejecting a pairing and
      finishing an interrupted rejection at launch. [RetireLogic] has its
      stages, [RetireSteps] and [RetireProps] what a launch does to them.
    - [Handoff]: pl-transport-win/src/handoff.rs, the mailbox through which the
      setup program hands over a pairing link. [HandoffLogic], [HandoffSteps],
      [HandoffProps] follow one transaction, [HandoffSystem] puts it together
      with the pairing, its rejection and a sender that writes what it likes.
    - [Migrate]: pl-transport-win/src/migration.rs and the two commands of
      src-tauri/src/ipc.rs that drive it, the offer to replace another device.
      [MigrateLogic] is the machine it refines, [MigrateProps] the refinement.
    - [OwnerDemo], [MigrateDemo]: concrete files, codecs and runs of these.
    - [Tray]: observer-model/src/tray_status.rs and notice.rs, what the tray
      shows of a health payload and when the owner is notified.
    - [Sample]: observer-sample-timing/src/lib.rs, the times of video samples.
    - [JournalVersion]: pl-transport-win/src/journal_version.rs, the version
      and name of the journal that the windows show. [JournalVersionProps]
      runs it with answers in any order and failing calls on its file.
    - [Burst]: the relay fence of pl-transport-win/src/client.rs and the passes
      of work after a connection of post_connect.rs, with late completions;
      each stretch under the lock is a step.
    - [RelayAccess]: post_connect.rs, an answer about relay access on its way
      to the pairing file and the live client.
    - [Draft]: pl-transport-win/src/draft.rs, the files in which pair links
      opened on the desktop wait.

    ** What the theorems show

    - Honesty: [phase] is [Observing] exactly when it is earned, is a function
      of the event history, and the payload the engine publishes says so; a
      pending seal, failed write or unwritten row is always a reported fault.
    - Control: an owner's pause is held by the reducer, by the engine (no
      screen, audio or microphone starts) and across restarts (text round trip, durable
      file store, restored before start); desktop activity runs through it only
      where the owner keeps it on through pauses. A source that is switched off
      stays silent; an open breaker schedules no retry. Once the engine has
      handled the switches sent to it nothing runs that the setup file does not
      consent to, a switch turned off is never lost to a failed write, and a
      damaged file fails closed.
    - Privacy: frame verdicts fail closed, redaction is exact and complete, a
      row of desktop activity says no more than the rules and preferences of
      its time, nothing is recorded of windows while the rules cannot be read,
      stale address answers are ignored, and addresses carry no query.
    - Time: segments are the aligned windows of the clock, rotation ends in
      the present, boundaries tile an interval, the calendar is Gregorian and
      inverts, backoff follows its closed form.
    - Recovery accounts for every segment and touches nothing else; previews
      are in range and sampled from the frame.
    - Custody: a receipt is accepted exactly when it accounts for every file,
      custody is proved exactly when both listings hold every file, and an
      upload reads back; a media file is deleted only on evidence in the log
      (the journal's word for its digest, or the plain marker of an old
      version), a segment is set aside only after five refusals of its own, and over the
      real store, with any calls failing, captured media is never lost.
    - Connection: connected is earned, early evaluations change nothing under
      one cadence, silence settles on offline, a journal that answers soon
      enough for the health to be published stays connected, and checks are
      spaced.
    - Updates: the manifest a package is judged by is unambiguous, and the
      package selected is the newest authentic one; the state of an update is
      well formed and what is displayed is decided by the history.
    - Browsers: accepted page text stays on disk until it was delivered or
      discarded, over failures and stops at any call; no batch is accepted
      twice; a period being uploaded is not disturbed; sessions are bounded and
      know what their browser holds; only the listed command lines start a
      host; the snapshot browsers are given is always valid.
    - Pairing: a saved pairing loads back with its secrets wrapped on disk; a
      rejection is all or nothing, survives any number of interrupted launches
      and is carried out by the first undisturbed one, and touches nothing once
      it was overtaken; a relay token is in use only when it is on disk; the
      text of the owner's answer is canonical.
    - Relay: a grant leaves a client that dials the relay with access in the
      pairing file or as before; a revocation with a local address leaves the
      relay usable only where the clearing of the file was uncertain and is
      still to be retried, one without a local address brings it back
      ([revoked_relay_comes_back]); passes after a connection are bounded and
      late ones are ignored.
    - Display: a notification is given exactly when it is earned; the version
      shown is the one the bound journal told; video samples tile a segment.
    - Setup links: a link is accepted when it is fresh, and never twice,
      whatever the sender, the pairing and the failures do in between. A link
      that waits for the owner is kept until it is used or dismissed, unless
      its file cannot be read ([failed_read_loses_the_link]).
    - Replacement: the commands refine a machine in which one decision is open
      at a time, none is rewritten, and a confirmed one is final, until a new
      pairing puts its own record in place; what is sent are the bytes that
      were saved.

    ** Fuel, bounds, parameters

    [rotate_loop] takes the number of boundaries between the open segment and
    now, plus two, and [rotation_reaches_the_present] shows it is enough for a
    window length above zero. [unique_id_tries] is the source's own bound of
    100. [free_target] takes one step more than there are set-aside
    directories, and [aside_search_ends] shows that more change nothing;
    [squeeze] takes the length of its text. [drive] needs at most eight
    evaluations ([silence_settles_on_offline]). Every other recursion is
    structural. Integers are unbounded [Z] with
    the source's wrapping or saturation at each operation; range hypotheses
    ([in_u64]) are the Rust types. The URL parser, the hash of a title, JSONL
    serialisation, SHA-256, the JSON, XML and archive readers, version order,
    signature verification and every trait implementation that is not listed
    above are parameters.

    ** Not modelled

    Lock poisoning of the engine's own mutexes and delivery on the tokio
    channels (the shared cells are fields that other threads may change
    between two engine operations; events that arrive during a drain are
    drained next time); serde (the JSON codec of setup.json is a parameter with
    its round trip as the law); the tracing output, lock poisoning and awaiting-hold option of the
    upload coordinator; the pipe framing, relay and registry side of
    browser-host; pixel conversion, hotkeys and logs, which are pure and are
    next in line; the requests of post_connect.rs, its metadata publication and
    its endpoint refresh; the release tooling under xtask/; the network sessions, the pairing ceremony
    and its in-memory admission in pl-transport-win; and the Windows and
    web-view crates, which are bindings to systems outside the repository. *)
From stdpp Require Export prelude gmap strings.


(** ** Scope and machine integers

    Rust integers are modelled as [Z] kept at their width: [in_u64 n] is the
    type invariant of a [u64], and the operations below write out what the
    source does at the edge (wrapping in the release profile, which sets no
    [overflow-checks], or saturating where the source says so). *)

Declare Scope rust_scope.
Delimit Scope rust_scope with rust.

Definition u8_max : Z := 255.
Definition u16_max : Z := 65535.
Definition u32_max : Z := 4294967295.
Definition u64_max : Z := 18446744073709551615.
Definition i32_min : Z := -2147483648.
Definition i32_max : Z := 2147483647.
Definition i64_min : Z := -9223372036854775808.
Definition i64_max : Z := 9223372036854775807.

Definition in_u8 (n : Z) : Prop := (0 ≤ n ≤ u8_max)%Z.
Definition in_u32 (n : Z) : Prop := (0 ≤ n ≤ u32_max)%Z.
Definition in_u64 (n : Z) : Prop := (0 ≤ n ≤ u64_max)%Z.
Definition in_i32 (n : Z) : Prop := (i32_min ≤ n ≤ i32_max)%Z.
Definition in_i64 (n : Z) : Prop := (i64_min ≤ n ≤ i64_max)%Z.

(** [a + b], [a - b] and [a * b] on [u64] in the release profile. *)
Definition wrap_u64 (n : Z) : Z := (n mod 18446744073709551616)%Z.

(** [i64] arithmetic in the release profile: two's complement wrap-around. *)
Definition wrap_i64 (n : Z) : Z :=
  ((n + 9223372036854775808) mod 18446744073709551616 - 9223372036854775808)%Z.

(** [n as u32]: the low 32 bits. *)
Definition as_u32 (n : Z) : Z := (n mod 4294967296)%Z.

Definition sat_add_u64 (a b : Z) : Z := (Z.min (a + b) u64_max)%Z.
Definition sat_mul_u64 (a b : Z) : Z := (Z.min (a * b) u64_max)%Z.
Definition sat_add_u32 (a b : Z) : Z := (Z.min (a + b) u32_max)%Z.

(** [saturating_sub] on any unsigned width. *)
Definition sat_sub (a b : Z) : Z := (Z.max (a - b) 0)%Z.

(** [checked_add] and friends on [i64] and [usize] (64-bit targets). *)
Definition checked_i64 (n : Z) : option Z :=
  if decide (i64_min ≤ n ≤ i64_max)%Z then Some n else None.
Definition checked_usize (n : Z) : option Z :=
  if decide (0 ≤ n ≤ u64_max)%Z then Some n else None.

(** [clamp] of the standard library. *)
Definition clampZ (lo hi n : Z) : Z := Z.min hi (Z.max lo n).

Ltac unfold_width :=
  unfold in_u8, in_u32, in_u64, in_i32, in_i64, sat_add_u64, sat_mul_u64, sat_add_u32,
    sat_sub, clampZ, u8_max, u16_max, u32_max, u64_max, i32_min, i32_max, i64_min, i64_max in *.

(** Linear arithmetic at machine widths. *)
Ltac widths := unfold_width; lia.

Lemma wrap_u64_id n : in_u64 n → wrap_u64 n = n.
Proof. intros H. unfold wrap_u64. apply Z.mod_small. widths. Qed.

Lemma wrap_u64_range n : in_u64 (wrap_u64 n).
Proof. unfold wrap_u64. pose proof (Z.mod_pos_bound n 18446744073709551616). widths. Qed.

Lemma wrap_i64_id n : in_i64 n → wrap_i64 n = n.
Proof. intros H. unfold wrap_i64. rewrite Z.mod_small; widths. Qed.

Lemma wrap_u64_succ_ne n d : in_u64 n → (0 < d ≤ u64_max)%Z → wrap_u64 (n + d) ≠ n.
Proof.
  intros Hn Hd. unfold wrap_u64.
  destruct (decide (n + d ≤ u64_max)%Z).
  - rewrite Z.mod_small; widths.
  - replace (n + d)%Z with (n + d - 18446744073709551616 + 1 * 18446744073709551616)%Z by lia.
    rewrite Z_mod_plus_full, Z.mod_small; widths.
Qed.

Lemma sat_add_u64_range a b : in_u64 a → in_u64 b → in_u64 (sat_add_u64 a b).
Proof. widths. Qed.

Lemma sat_sub_range a b : in_u64 a → in_u64 b → in_u64 (sat_sub a b).
Proof. widths. Qed.

Create HintDb width discriminated.
#[export] Hint Resolve wrap_u64_id wrap_u64_range wrap_i64_id sat_add_u64_range sat_sub_range
  : width.

(** ** Results

    Rust's [Result]: an error path is a value. *)
Inductive result (A E : Type) : Type :=
| Ok (a : A)
| Err (e : E).
Arguments Ok {A E} _.
Arguments Err {A E} _.

Definition is_ok {A E} (r : result A E) : bool :=
  match r with Ok _ => true | Err _ => false end.

#[global] Instance result_eq_dec {A E} `{EqDecision A, EqDecision E} : EqDecision (result A E).
Proof. solve_decision. Defined.

(** ** The state monad of stateful code

    [&mut self] methods are functions [S → A * S]; stdpp's monad notation
    ([x ← m; k]) composes them in the order of the source's statements. *)
Definition M (S A : Type) : Type := S → A * S.

#[global] Instance state_ret {S} : MRet (M S) := λ A a s, (a, s).
#[global] Instance state_bind {S} : MBind (M S) :=
  λ A B f m s, let '(a, s') := m s in f a s'.

Definition gets {S A} (f : S → A) : M S A := λ s, (f s, s).
Definition modify {S} (f : S → S) : M S unit := λ s, (tt, f s).
Definition when {S} (b : bool) (m : M S unit) : M S unit := if b then m else mret tt.

(** [for x in xs { body }]. *)
Fixpoint for_each {S A} (xs : list A) (body : A → M S unit) : M S unit :=
  match xs with
  | [] => mret tt
  | x :: xs => body x ;; for_each xs body
  end.

(** ** A small program logic

    [triple P m Q]: from a state in [P], [m] returns a value and a state in
    [Q]. [pres I m]: the method keeps the invariant [I]. [keeps f m]: the
    method leaves the projection [f] of the state alone. *)
Definition triple {S A} (P : S → Prop) (m : M S A) (Q : A → S → Prop) : Prop :=
  ∀ s, P s → Q (m s).1 (m s).2.

Definition pres {S A} (I : S → Prop) (m : M S A) : Prop := ∀ s, I s → I (m s).2.

Definition keeps {S A B} (f : S → B) (m : M S A) : Prop := ∀ s, f (m s).2 = f s.

Section program_logic.
Context {S : Type}.

Lemma bind_run {A B} (m : M S A) (k : A → M S B) s : (m ≫= k) s = k (m s).1 (m s).2.
Proof. unfold mbind, state_bind. by destruct (m s). Qed.

Lemma triple_bind {A B} P Q R (m : M S A) (k : A → M S B) :
  triple P m Q → (∀ a, triple (Q a) (k a) R) → triple P (m ≫= k) R.
Proof. intros Hm Hk s Hs. rewrite bind_run. apply Hk, Hm, Hs. Qed.

Lemma triple_ret {A} (P : S → Prop) (a : A) (Q : A → S → Prop) :
  (∀ s, P s → Q a s) → triple P (mret a) Q.
Proof. intros H s Hs. apply H, Hs. Qed.

Lemma triple_weaken {A} (P P' : S → Prop) (m : M S A) (Q Q' : A → S → Prop) :
  triple P m Q → (∀ s, P' s → P s) → (∀ a s, Q a s → Q' a s) → triple P' m Q'.
Proof. intros H HP HQ s Hs. apply HQ, H, HP, Hs. Qed.

Lemma pres_ret {A} (I : S → Prop) (a : A) : pres I (mret a).
Proof. by intros s. Qed.

Lemma pres_gets {A} (I : S → Prop) (f : S → A) : pres I (gets f).
Proof. by intros s. Qed.

Lemma pres_modify (I : S → Prop) (f : S → S) : (∀ s, I s → I (f s)) → pres I (modify f).
Proof. intros H s. apply H. Qed.

Lemma pres_bind {A B} (I : S → Prop) (m : M S A) (k : A → M S B) :
  pres I m → (∀ a, pres I (k a)) → pres I (m ≫= k).
Proof. intros Hm Hk s Hs. rewrite bind_run. apply Hk, Hm, Hs. Qed.

Lemma triple_bind_pres {A B} (I : S → Prop) (m : M S A) (k : A → M S B) Q :
  pres I m → (∀ a, triple I (k a) Q) → triple I (m ≫= k) Q.
Proof. intros Hm. by apply (triple_bind I (λ _, I)). Qed.

Lemma pres_when (I : S → Prop) b (m : M S unit) : pres I m → pres I (when b m).
Proof. destruct b; [done|]. intros _. apply pres_ret. Qed.

Lemma pres_for_each {A} (I : S → Prop) (xs : list A) body :
  (∀ x, pres I (body x)) → pres I (for_each xs body).
Proof. intros H. induction xs; [apply pres_ret|]. by apply pres_bind. Qed.

Lemma for_each_app {A} (xs ys : list A) (body : A → M S unit) s :
  for_each (xs ++ ys) body s = for_each ys body (for_each xs body s).2.
Proof.
  revert s. induction xs as [|x xs IH]; intros s; [done|]. cbn [for_each app]. by rewrite !bind_run, IH.
Qed.

Lemma keeps_ret {A B} (f : S → B) (a : A) : keeps f (mret a).
Proof. by intros s. Qed.

Lemma keeps_gets {A B} (f : S → B) (g : S → A) : keeps f (gets g).
Proof. by intros s. Qed.

Lemma keeps_modify {B} (f : S → B) (g : S → S) : (∀ s, f (g s) = f s) → keeps f (modify g).
Proof. intros H s. apply H. Qed.

Lemma keeps_bind {A A' B} (f : S → B) (m : M S A) (k : A → M S A') :
  keeps f m → (∀ a, keeps f (k a)) → keeps f (m ≫= k).
Proof. intros Hm Hk s. rewrite bind_run. by rewrite (Hk _ _). Qed.

Lemma keeps_when {B} (f : S → B) b (m : M S unit) : keeps f m → keeps f (when b m).
Proof. destruct b; [done|]. intros _. apply keeps_ret. Qed.

Lemma keeps_for_each {A B} (f : S → B) (xs : list A) body :
  (∀ x, keeps f (body x)) → keeps f (for_each xs body).
Proof. intros H. induction xs; [apply keeps_ret|]. by apply keeps_bind. Qed.

Lemma pres_of_keeps {A B} (f : S → B) (I : B → Prop) (m : M S A) :
  keeps f m → pres (λ s, I (f s)) m.
Proof. intros H s. by rewrite H. Qed.
End program_logic.

Create HintDb pres discriminated.
Create HintDb keeps discriminated.
#[export] Hint Resolve pres_ret pres_gets : pres.
#[export] Hint Resolve keeps_ret keeps_gets : keeps.

(** Walk a monadic body: one rule per construct, [match] by cases, and the
    hint database for the methods it calls. *)
Ltac pres_step :=
  match goal with
  | |- pres _ (mbind _ _) => apply pres_bind; [|intros ?]
  | |- pres _ (when _ _) => apply pres_when
  | |- pres _ (for_each _ _) => apply pres_for_each; intros ?
  | |- pres _ (match ?x with _ => _ end) => destruct x
  | |- pres _ (let '_ := ?x in _) => destruct x
  | |- pres _ _ => solve [auto with pres]
  end.
Ltac pres_walk := repeat pres_step.

Ltac keeps_step :=
  match goal with
  | |- keeps _ (mbind _ _) => apply keeps_bind; [|intros ?]
  | |- keeps _ (when _ _) => apply keeps_when
  | |- keeps _ (for_each _ _) => apply keeps_for_each; intros ?
  | |- keeps _ (match ?x with _ => _ end) => destruct x
  | |- keeps _ (let '_ := ?x in _) => destruct x
  | |- keeps _ (modify _) => solve [apply keeps_modify; intros; reflexivity]
  | |- keeps _ _ => solve [auto with keeps]
  end.
Ltac keeps_walk := repeat keeps_step.

(** ** Lists *)

(** [iter().find(p)]. *)
Fixpoint find_first {A} (p : A → bool) (l : list A) : option A :=
  match l with
  | [] => None
  | x :: l => if p x then Some x else find_first p l
  end.

Lemma find_first_Some {A} (p : A → bool) l x :
  find_first p l = Some x → x ∈ l ∧ p x = true.
Proof.
  induction l as [|y l IH]; simpl; [done|].
  destruct (p y) eqn:Hy; [intros [= ->]; set_solver|].
  intros H. destruct (IH H). set_solver.
Qed.

Lemma find_first_None {A} (p : A → bool) l :
  find_first p l = None ↔ ∀ x, x ∈ l → p x = false.
Proof.
  induction l as [|y l IH]; simpl; [set_solver|].
  destruct (p y) eqn:Hy.
  - split; [done|]. intros H. specialize (H y). rewrite Hy in H. set_solver.
  - rewrite IH. set_solver.
Qed.

(** The first element of [l] whose key repeats an earlier one: the scan
    [for x in l { if !seen.insert(key(x)) { return Err(x) } }]. *)
Fixpoint first_repeat {A K} `{EqDecision K} (key : A → K) (seen : list K) (l : list A)
    : option A :=
  match l with
  | [] => None
  | x :: l => if decide (key x ∈ seen) then Some x else first_repeat key (key x :: seen) l
  end.

Lemma first_repeat_None {A K} `{EqDecision K} (key : A → K) seen l :
  first_repeat key seen l = None ↔
  NoDup (key <$> l) ∧ ∀ x, x ∈ l → key x ∉ seen.
Proof.
  revert seen. induction l as [|y l IH]; intros seen; simpl.
  { split; [intros _; split; [constructor|set_solver]|done]. }
  rewrite list.NoDup_cons. case_decide as Hy.
  { split; [done|]. intros [_ H]. exfalso. apply (H y); set_solver. }
  rewrite IH. split.
  - intros [Hnd Hs]. split; [split; [|done]|].
    + intros (z & Hz & Hzl)%list_elem_of_fmap. apply (Hs z Hzl). set_solver.
    + intros x [->|Hx]%elem_of_cons; [done|]. specialize (Hs x Hx). set_solver.
  - intros [[Hy' Hnd] Hs]. split; [done|]. intros x Hx.
    apply not_elem_of_cons. split; [|apply Hs; set_solver].
    intros Heq. apply Hy'. rewrite <-Heq. by apply list_elem_of_fmap_2.
Qed.

(** [for x in l { if let Some(e) = f(x) { return Err(e) } }]. *)
Fixpoint first_some {A E} (f : A → option E) (l : list A) : option E :=
  match l with
  | [] => None
  | x :: l => match f x with Some e => Some e | None => first_some f l end
  end.

Lemma first_some_None {A E} (f : A → option E) l :
  first_some f l = None ↔ ∀ x, x ∈ l → f x = None.
Proof.
  induction l as [|y l IH]; simpl; [set_solver|].
  destruct (f y) eqn:Hy; [split; [done|]; intros H; specialize (H y); rewrite Hy in H; set_solver|].
  rewrite IH. set_solver.
Qed.

(** Elements of a list with distinct keys are determined by their key. *)
Lemma NoDup_key_inj {A K} (key : A → K) l x y :
  NoDup (key <$> l) → x ∈ l → y ∈ l → key x = key y → x = y.
Proof.
  induction l as [|z l IH]; cbn; [set_solver|]. intros [Hz Hnd]%list.NoDup_cons Hx Hy Heq.
  apply elem_of_cons in Hx as [->|Hx], Hy as [->|Hy]; [done| | |by apply IH].
  - destruct Hz. rewrite Heq. by apply list_elem_of_fmap_2.
  - destruct Hz. rewrite <-Heq. by apply list_elem_of_fmap_2.
Qed.

(** A list without repetitions that is contained in one no longer than it is
    a reordering of it. *)
Lemma NoDup_Permutation_le {A} (l k : list A) :
  NoDup l → (∀ x, x ∈ l → x ∈ k) → length k ≤ length l → l ≡ₚ k.
Proof.
  intros Hnd Hsub Hlen. destruct (submseteq_Permutation l k) as [k' Hk].
  { by apply NoDup_submseteq. }
  assert (k' = []) as ->.
  { apply Permutation_length in Hk. rewrite length_app in Hk. destruct k'; [done|cbn in Hk; lia]. }
  by rewrite app_nil_r in Hk.
Qed.

(** ** Directory listings

    [std::fs::read_dir] lists each entry once, in an order of its own. *)
Class DirOrder : Type := {
  dir_list : ∀ {A : Type}, gmap string A → list (string * A);
  dir_list_spec : ∀ {A : Type} (m : gmap string A), dir_list m ≡ₚ map_to_list m
}.
