(* ===== verification/RustStr.v ===== *)
(** * Rust strings

    A Rust [str] is its UTF-8 byte sequence, here Rocq's [string] (a list of
    8-bit [ascii]). Equality, [contains], [starts_with] and [ends_with] of the
    source are byte-wise and so are these. [trim] removes the code points of
    the Unicode [White_Space] property, spelled in UTF-8. Decimal formatting
    and parsing of unsigned integers are those of [core::fmt] and
    [u64::from_str]. *)
From S2P Require Import Prelude.
From Stdlib Require Import Ascii String.

Open Scope string_scope.
Arguments String.append : simpl nomatch.

(** ** ASCII case *)

Definition byte_val (c : ascii) : Z := Z.of_N (N_of_ascii c).

Definition is_ascii_upper (c : ascii) : bool :=
  ((65 <=? byte_val c) && (byte_val c <=? 90))%Z.
Definition is_ascii_lower (c : ascii) : bool :=
  ((97 <=? byte_val c) && (byte_val c <=? 122))%Z.
Definition is_ascii_digit (c : ascii) : bool :=
  ((48 <=? byte_val c) && (byte_val c <=? 57))%Z.
Definition is_ascii_alphabetic (c : ascii) : bool := is_ascii_upper c || is_ascii_lower c.
Definition is_ascii_alphanumeric (c : ascii) : bool :=
  is_ascii_alphabetic c || is_ascii_digit c.

Definition ascii_of_Z (n : Z) : ascii := ascii_of_N (Z.to_N n).

Definition to_lower (c : ascii) : ascii :=
  if is_ascii_upper c then ascii_of_Z (byte_val c + 32) else c.

Fixpoint to_ascii_lowercase (s : string) : string :=
  match s with
  | EmptyString => EmptyString
  | String c s => String (to_lower c) (to_ascii_lowercase s)
  end.

Definition eq_ignore_ascii_case (a b : string) : bool :=
  String.eqb (to_ascii_lowercase a) (to_ascii_lowercase b).

Definition is_empty (s : string) : bool :=
  match s with EmptyString => true | _ => false end.

(** [bytes().all(p)]. *)
Fixpoint all_bytes (p : ascii → bool) (s : string) : bool :=
  match s with
  | EmptyString => true
  | String c s => p c && all_bytes p s
  end.

Lemma forall_ascii (P : ascii → Prop) :
  (∀ b0 b1 b2 b3 b4 b5 b6 b7, P (Ascii b0 b1 b2 b3 b4 b5 b6 b7)) → ∀ c, P c.
Proof. intros H []. apply H. Qed.

Lemma to_lower_idem c : to_lower (to_lower c) = to_lower c.
Proof.
  revert c. apply forall_ascii. intros [] [] [] [] [] [] [] []; reflexivity.
Qed.

Lemma to_ascii_lowercase_idem s :
  to_ascii_lowercase (to_ascii_lowercase s) = to_ascii_lowercase s.
Proof. induction s as [|c s IH]; simpl; [done|]. by rewrite to_lower_idem, IH. Qed.

Lemma eq_ignore_ascii_case_true a b :
  eq_ignore_ascii_case a b = true ↔ to_ascii_lowercase a = to_ascii_lowercase b.
Proof. apply String.eqb_eq. Qed.

Lemma is_empty_lower s : is_empty (to_ascii_lowercase s) = is_empty s.
Proof. by destruct s. Qed.

(** ** [String::from_utf8_lossy]

    Each maximal invalid subsequence becomes one U+FFFD, as in
    [core::str::Utf8Chunks]. *)

Definition replacement_char (rest : string) : string :=
  String (ascii_of_Z 239) (String (ascii_of_Z 191) (String (ascii_of_Z 189) rest)).

Definition byte_in (lo hi : Z) (c : ascii) : bool := ((lo <=? byte_val c) && (byte_val c <=? hi))%Z.

(** The range the byte after a 3- or 4-byte lead may take. *)
Definition second_byte_ok (lead second : ascii) : bool :=
  let b := byte_val lead in
  if (b =? 224)%Z then byte_in 160 191 second
  else if (b =? 237)%Z then byte_in 128 159 second
  else if (b =? 240)%Z then byte_in 144 191 second
  else if (b =? 244)%Z then byte_in 128 143 second
  else byte_in 128 191 second.

Fixpoint from_utf8_lossy (s : string) : string :=
  match s with
  | EmptyString => EmptyString
  | String a s1 =>
    if byte_in 0 127 a then String a (from_utf8_lossy s1)
    else if byte_in 194 223 a then
      match s1 with
      | String b s2 =>
        if byte_in 128 191 b then String a (String b (from_utf8_lossy s2))
        else replacement_char (from_utf8_lossy s1)
      | EmptyString => replacement_char EmptyString
      end
    else if byte_in 224 239 a then
      match s1 with
      | String b s2 =>
        if second_byte_ok a b then
          match s2 with
          | String c s3 =>
            if byte_in 128 191 c then String a (String b (String c (from_utf8_lossy s3)))
            else replacement_char (from_utf8_lossy s2)
          | EmptyString => replacement_char EmptyString
          end
        else replacement_char (from_utf8_lossy s1)
      | EmptyString => replacement_char EmptyString
      end
    else if byte_in 240 244 a then
      match s1 with
      | String b s2 =>
        if second_byte_ok a b then
          match s2 with
          | String c s3 =>
            if byte_in 128 191 c then
              match s3 with
              | String d s4 =>
                if byte_in 128 191 d
                then String a (String b (String c (String d (from_utf8_lossy s4))))
                else replacement_char (from_utf8_lossy s3)
              | EmptyString => replacement_char EmptyString
              end
            else replacement_char (from_utf8_lossy s2)
          | EmptyString => replacement_char EmptyString
          end
        else replacement_char (from_utf8_lossy s1)
      | EmptyString => replacement_char EmptyString
      end
    else replacement_char (from_utf8_lossy s1)
  end.

Lemma from_utf8_lossy_ascii s : all_bytes (byte_in 0 127) s = true → from_utf8_lossy s = s.
Proof.
  induction s as [|c s IH]; [done|]. cbn [all_bytes]. intros [Hc Hs]%andb_true_iff.
  cbn [from_utf8_lossy]. rewrite Hc, IH by done. done.
Qed.

(** ** Substrings *)

Fixpoint starts_with (pat s : string) : bool :=
  match pat, s with
  | EmptyString, _ => true
  | String a pat, String b s => Ascii.eqb a b && starts_with pat s
  | _, EmptyString => false
  end.

(** [s.contains(pat)]. *)
Fixpoint contains (s pat : string) : bool :=
  starts_with pat s ||
  match s with EmptyString => false | String _ s => contains s pat end.

Fixpoint ends_with (s pat : string) : bool :=
  String.eqb s pat ||
  match s with EmptyString => false | String _ s => ends_with s pat end.

(** [s.strip_prefix(pat)]. *)
Fixpoint strip_prefix (pat s : string) : option string :=
  match pat, s with
  | EmptyString, _ => Some s
  | String a pat, String b s => if Ascii.eqb a b then strip_prefix pat s else None
  | _, EmptyString => None
  end.

Lemma str_app_assoc a b c : (a +:+ b) +:+ c = a +:+ (b +:+ c).
Proof. induction a as [|x a IH]; simpl; [done|]. by f_equal. Qed.

Lemma str_app_nil_r a : a +:+ EmptyString = a.
Proof. induction a as [|x a IH]; simpl; [done|]. by f_equal. Qed.

Lemma starts_with_spec pat s : starts_with pat s = true ↔ ∃ r, s = pat +:+ r.
Proof.
  revert s. induction pat as [|a pat IH]; intros s; simpl.
  { split; [intros _; exists s; done|done]. }
  destruct s as [|b s]; [split; [done|by intros [r ?]]|].
  rewrite andb_true_iff, Ascii.eqb_eq, IH. split.
  - intros [-> [r ->]]. by exists r.
  - intros [r [= -> ->]]. eauto.
Qed.

Lemma contains_spec s pat : contains s pat = true ↔ ∃ l r, s = l +:+ (pat +:+ r).
Proof.
  induction s as [|c s IH]; cbn [contains]; rewrite orb_true_iff, starts_with_spec.
  - split.
    + intros [[r Hr]|?]; [|done]. by exists EmptyString, r.
    + intros (l & r & Hr). left. exists r. by destruct l.
  - rewrite IH. split.
    + intros [[r Hr]|(l & r & ->)]; [by exists EmptyString, r|]. by exists (String c l), r.
    + intros ([|c' l] & r & Hr); [left; by exists r|]. injection Hr as -> ->. right. eauto.
Qed.

Lemma ends_with_spec s pat : ends_with s pat = true ↔ ∃ l, s = l +:+ pat.
Proof.
  induction s as [|c s IH]; cbn [ends_with]; rewrite orb_true_iff, String.eqb_eq.
  - split.
    + intros [<-|?]; [|done]. by exists EmptyString.
    + intros [[|? l] Hl]; [by left|done].
  - rewrite IH. split.
    + intros [<-|[l ->]]; [by exists EmptyString|]. by exists (String c l).
    + intros [[|c' l] Hl]; [by left|]. injection Hl as -> ->. right. eauto.
Qed.

Lemma strip_prefix_inv pat s r : strip_prefix pat s = Some r → s = pat +:+ r.
Proof.
  revert s. induction pat as [|a pat IH]; intros s; cbn; [by intros [= ->]|].
  destruct s as [|b s]; [done|]. destruct (Ascii.eqb_spec a b) as [->|]; [|done].
  intros H. f_equal. by apply IH.
Qed.

Lemma strip_prefix_app pat s : strip_prefix pat (pat +:+ s) = Some s.
Proof. induction pat as [|a pat IH]; simpl; [done|]. by rewrite Ascii.eqb_refl. Qed.

(** ** Whitespace

    The code points with the Unicode [White_Space] property, as UTF-8. *)
Definition ws_bytes (l : list Z) : string := string_of_list_ascii (ascii_of_Z <$> l).

Definition whitespace_chars : list string :=
  Eval vm_compute in
  (ws_bytes <$>
   [[9]; [10]; [11]; [12]; [13]; [32]; [194; 133]; [194; 160]; [225; 154; 128];
    [226; 128; 128]; [226; 128; 129]; [226; 128; 130]; [226; 128; 131]; [226; 128; 132];
    [226; 128; 133]; [226; 128; 134]; [226; 128; 135]; [226; 128; 136]; [226; 128; 137];
    [226; 128; 138]; [226; 128; 168]; [226; 128; 169]; [226; 128; 175]; [226; 129; 159];
    [227; 128; 128]])%Z.

Fixpoint strip_any (pats : list string) (s : string) : option string :=
  match pats with
  | [] => None
  | p :: pats => match strip_prefix p s with Some r => Some r | None => strip_any pats s end
  end.

(** Drop whitespace characters from the front; [fuel] is the string's length. *)
Fixpoint trim_start_fuel (fuel : nat) (s : string) : string :=
  match fuel with
  | O => s
  | S fuel =>
    match strip_any whitespace_chars s with
    | Some r => trim_start_fuel fuel r
    | None => s
    end
  end.
Definition trim_start (s : string) : string := trim_start_fuel (String.length s) s.

Definition rev_string (s : string) : string :=
  string_of_list_ascii (List.rev (list_ascii_of_string s)).

Fixpoint trim_rev_fuel (fuel : nat) (s : string) : string :=
  match fuel with
  | O => s
  | S fuel =>
    match strip_any (rev_string <$> whitespace_chars) s with
    | Some r => trim_rev_fuel fuel r
    | None => s
    end
  end.
(** Drop whitespace characters from the back. *)
Definition trim_end (s : string) : string :=
  rev_string (trim_rev_fuel (String.length s) (rev_string s)).

Definition trim (s : string) : string := trim_end (trim_start s).

(** ** Decimal numbers *)

Definition digit_char (d : Z) : ascii := ascii_of_Z (48 + d).

Fixpoint dec_digits (fuel : nat) (n : Z) (acc : string) : string :=
  match fuel with
  | O => acc
  | S fuel =>
    let acc := String (digit_char (n mod 10)) acc in
    if (n <? 10)%Z then acc else dec_digits fuel (n / 10) acc
  end.
(** [format!("{n}")] for [0 ≤ n < 10^20], which covers [u64]. *)
Definition fmt_dec (n : Z) : string := dec_digits 20 n EmptyString.

(** A lower-case hexadecimal digit. *)
Definition hex_digit (d : Z) : ascii := if (d <? 10)%Z then ascii_of_Z (48 + d) else ascii_of_Z (87 + d).

Fixpoint str_repeat (k : nat) (c : ascii) (s : string) : string :=
  match k with O => s | S k => String c (str_repeat k c s) end.
(** [format!("{n:0w}")]. *)
Definition fmt_dec_pad (w : nat) (n : Z) : string :=
  let s := fmt_dec n in str_repeat (w - String.length s) "0"%char s.

Definition digit_val (c : ascii) : option Z :=
  if is_ascii_digit c then Some (byte_val c - 48)%Z else None.

(** The digit loop of [u64::from_str]: overflow and non-digits are errors. *)
Fixpoint parse_digits (acc : Z) (s : string) : option Z :=
  match s with
  | EmptyString => Some acc
  | String c s =>
    match digit_val c with
    | None => None
    | Some d =>
      let acc := (acc * 10 + d)%Z in
      if (acc <=? u64_max)%Z then parse_digits acc s else None
    end
  end.
(** [s.parse::<u64>()]: an optional [+], then at least one digit. *)
Definition parse_u64 (s : string) : option Z :=
  match s with
  | EmptyString => None
  | String c r =>
    if Ascii.eqb c "+"%char then
      match r with EmptyString => None | _ => parse_digits 0 r end
    else parse_digits 0 s
  end.

(** ** Lemmas on decimal numbers *)

Lemma byte_val_of_Z n : (0 ≤ n ≤ 255)%Z → byte_val (ascii_of_Z n) = n.
Proof.
  intros H. unfold byte_val, ascii_of_Z. rewrite N_ascii_embedding; [|lia].
  rewrite Z2N.id; lia.
Qed.

Lemma digit_val_char d : (0 ≤ d < 10)%Z → digit_val (digit_char d) = Some d.
Proof.
  intros H. unfold digit_val, is_ascii_digit, digit_char. rewrite !byte_val_of_Z by lia.
  destruct (Z.leb_spec 48 (48 + d)), (Z.leb_spec (48 + d) 57); simpl; try lia. f_equal. lia.
Qed.

Lemma parse_dec_digits fuel n acc :
  (0 ≤ n < 10 ^ Z.of_nat fuel)%Z → (n ≤ u64_max)%Z → (0 < fuel)%nat →
  parse_digits 0 (dec_digits fuel n acc) = parse_digits n acc.
Proof.
  revert n acc. induction fuel as [|fuel IH]; intros n acc Hn Hmax Hf; [lia|].
  pose proof (Z.mod_pos_bound n 10). cbn [dec_digits].
  destruct (Z.ltb_spec n 10).
  - cbn [parse_digits]. rewrite digit_val_char by lia. rewrite Z.mod_small by lia.
    destruct (Z.leb_spec (0 * 10 + n) u64_max); [f_equal|]; lia.
  - rewrite Nat2Z.inj_succ, Z.pow_succ_r in Hn by lia.
    assert (Hq : (1 ≤ n / 10)%Z) by (apply Z.div_le_lower_bound; lia).
    assert (Hlt : (n / 10 < 10 ^ Z.of_nat fuel)%Z) by (apply Z.div_lt_upper_bound; lia).
    pose proof (Z.div_mod n 10). rewrite IH; [|lia|lia|destruct fuel; simpl in *; lia].
    cbn [parse_digits]. rewrite digit_val_char by lia.
    replace (n / 10 * 10 + n mod 10)%Z with n by lia.
    by destruct (Z.leb_spec n u64_max); [|lia].
Qed.

(** Formatting keeps to ASCII digits. *)
Lemma dec_digits_all fuel n acc :
  (0 ≤ n)%Z → all_bytes is_ascii_digit acc = true →
  all_bytes is_ascii_digit (dec_digits fuel n acc) = true.
Proof.
  revert n acc. induction fuel as [|fuel IH]; intros n acc Hn Hacc; [done|].
  cbn [dec_digits]. pose proof (Z.mod_pos_bound n 10).
  assert (Hd : all_bytes is_ascii_digit (String (digit_char (n mod 10)) acc) = true).
  { cbn [all_bytes]. rewrite Hacc, andb_true_r.
    pose proof (digit_val_char (n mod 10)) as E. unfold digit_val in E.
    destruct (is_ascii_digit _); [done|]. specialize (E ltac:(lia)). done. }
  destruct (Z.ltb_spec n 10); [done|]. apply IH; [|done]. apply Z.div_pos; lia.
Qed.

Lemma dec_digits_ne fuel n acc : (0 < fuel)%nat → dec_digits fuel n acc ≠ EmptyString.
Proof.
  revert n acc. induction fuel as [|fuel IH]; intros n acc Hf; [lia|].
  cbn [dec_digits]. destruct (_ <? _)%Z; [done|].
  destruct fuel; [done|]. apply IH. lia.
Qed.

Lemma fmt_dec_digits n : (0 ≤ n)%Z → all_bytes is_ascii_digit (fmt_dec n) = true.
Proof. intros H. by apply dec_digits_all. Qed.

(** [u64::from_str] reads back what [format!] wrote. *)
Lemma parse_fmt_dec n : in_u64 n → parse_u64 (fmt_dec n) = Some n.
Proof.
  intros Hn. pose proof (fmt_dec_digits n) as Hd. pose proof (dec_digits_ne 20 n EmptyString) as Hne.
  assert (E : parse_digits 0 (fmt_dec n) = Some n).
  { unfold fmt_dec. rewrite parse_dec_digits; [done| |widths|lia]. split; [widths|].
    apply Z.le_lt_trans with u64_max; [widths|]. vm_compute. done. }
  unfold parse_u64. unfold fmt_dec in *. destruct (dec_digits _ _ _) as [|c s] eqn:Es; [by destruct Hne; [lia|]|].
  destruct (Ascii.eqb_spec c "+"%char) as [->|]; [|done].
  specialize (Hd ltac:(widths)). discriminate Hd.
Qed.

Lemma all_bytes_app p a b : all_bytes p (a +:+ b) = all_bytes p a && all_bytes p b.
Proof. induction a as [|c a IH]; simpl; [done|]. by rewrite IH, andb_assoc. Qed.

(** ** Reversal and trimming *)

Lemma list_ascii_app a b :
  list_ascii_of_string (a +:+ b) = (list_ascii_of_string a ++ list_ascii_of_string b)%list.
Proof. induction a as [|c a IH]; simpl; [done|]. by f_equal. Qed.

Lemma string_of_list_app l k :
  string_of_list_ascii (l ++ k) = string_of_list_ascii l +:+ string_of_list_ascii k.
Proof. induction l as [|c l IH]; simpl; [done|]. by f_equal. Qed.

Lemma rev_string_app a b : rev_string (a +:+ b) = rev_string b +:+ rev_string a.
Proof. unfold rev_string. by rewrite list_ascii_app, rev_app_distr, string_of_list_app. Qed.

Lemma rev_string_involutive s : rev_string (rev_string s) = s.
Proof.
  unfold rev_string. rewrite list_ascii_of_string_of_list_ascii, rev_involutive.
  apply string_of_list_ascii_of_string.
Qed.

(** A graphic ASCII byte is neither the first nor the last byte of a
    whitespace character. *)
Definition is_graphic (c : ascii) : bool := ((33 <=? byte_val c) && (byte_val c <=? 126))%Z.

Lemma strip_any_graphic c s :
  is_graphic c = true →
  strip_any whitespace_chars (String c s) = None ∧
  strip_any (rev_string <$> whitespace_chars) (String c s) = None.
Proof.
  revert c. refine (forall_ascii _ _).
  intros [] [] [] [] [] [] [] [] H; solve [discriminate H | split; reflexivity].
Qed.

Lemma is_graphic_digit c : is_ascii_digit c = true → is_graphic c = true.
Proof.
  unfold is_ascii_digit, is_graphic. rewrite !andb_true_iff, !Z.leb_le. lia.
Qed.

Lemma trim_start_graphic c s : is_graphic c = true → trim_start (String c s) = String c s.
Proof.
  intros H. unfold trim_start. cbn [String.length trim_start_fuel].
  by rewrite (proj1 (strip_any_graphic c s H)).
Qed.

(** Trimming a graphic-ended text that [writeln!] closed with a newline. *)
Lemma trim_end_newline s c :
  is_graphic c = true →
  trim_end (s +:+ String c (String "010"%char EmptyString)) = s +:+ String c EmptyString.
Proof.
  intros H.
  assert (E : rev_string (s +:+ String c (String "010"%char EmptyString)) =
              String "010"%char (String c (rev_string s))).
  { by rewrite rev_string_app. }
  assert (L : (2 ≤ String.length (s +:+ String c (String "010"%char EmptyString)))%nat).
  { clear E. induction s as [|x s IH]; [by cbn; lia|]. cbn. lia. }
  unfold trim_end. rewrite E.
  destruct (String.length _) as [|[|n]] eqn:En; [lia|lia|]. cbn [trim_rev_fuel].
  replace (strip_any (rev_string <$> whitespace_chars) (String "010" (String c (rev_string s))))
    with (Some (String c (rev_string s))) by reflexivity.
  rewrite (proj2 (strip_any_graphic c (rev_string s) H)).
  replace (String c (rev_string s)) with (rev_string (s +:+ String c EmptyString))
    by (by rewrite rev_string_app).
  apply rev_string_involutive.
Qed.

Lemma trim_end_graphic s c :
  is_graphic c = true → trim_end (s +:+ String c EmptyString) = s +:+ String c EmptyString.
Proof.
  intros H.
  assert (E : rev_string (s +:+ String c EmptyString) = String c (rev_string s))
    by (by rewrite rev_string_app).
  unfold trim_end. rewrite E.
  assert (F : ∀ n, trim_rev_fuel n (String c (rev_string s)) = String c (rev_string s)).
  { intros [|n]; [done|]. cbn [trim_rev_fuel].
    by rewrite (proj2 (strip_any_graphic c (rev_string s) H)). }
  rewrite F, <-E. apply rev_string_involutive.
Qed.

(** A non-empty string of digits ends in a digit. *)
Lemma digits_snoc s :
  s ≠ EmptyString → all_bytes is_ascii_digit s = true →
  ∃ r c, s = r +:+ String c EmptyString ∧ is_ascii_digit c = true.
Proof.
  induction s as [|c s IH]; [done|]. intros _ H. cbn [all_bytes] in H.
  apply andb_true_iff in H as [Hc Hs]. destruct s as [|c' s].
  - by exists EmptyString, c.
  - destruct IH as (r & d & -> & Hd); [done|done|]. by exists (String c r), d.
Qed.

(** ** Splitting at the first occurrence *)

(** [s.split_once(pat)]. *)
Fixpoint split_once (pat s : string) : option (string * string) :=
  match strip_prefix pat s with
  | Some r => Some (EmptyString, r)
  | None =>
    match s with
    | EmptyString => None
    | String c s => match split_once pat s with Some (l, r) => Some (String c l, r) | None => None end
    end
  end.

Definition lacks (c : ascii) (s : string) : bool := all_bytes (λ b, negb (Ascii.eqb b c)) s.

Lemma lacks_app c a b : lacks c (a +:+ b) = lacks c a && lacks c b.
Proof. apply all_bytes_app. Qed.

Lemma lacks_contains c t s : lacks c s = true → contains s (String c t) = false.
Proof.
  induction s as [|x s IH]; cbn; [done|]. intros [Hx Hs]%andb_true_iff.
  rewrite IH by done. destruct (Ascii.eqb_spec c x) as [->|]; [|done]. by rewrite Ascii.eqb_refl in Hx.
Qed.

(** A prefix without [c] lies wholly before the first [c]. *)
Lemma prefix_before_char c t r y z :
  lacks c t = true → t +:+ r = y +:+ String c z → ∃ r', y = t +:+ r'.
Proof.
  revert y. induction t as [|d t IH]; intros y; cbn; [by exists y|].
  intros [Hd Ht]%andb_true_iff Heq. destruct y as [|e y]; injection Heq as -> Heq.
  - by rewrite Ascii.eqb_refl in Hd.
  - destruct (IH y Ht Heq) as [r' ->]. by exists r'.
Qed.

(** A separator whose first character occurs in it once is found exactly
    where it was put after a text that does not contain it. *)
Lemma split_once_app c t s rest :
  lacks c t = true → contains s (String c t) = false →
  split_once (String c t) (s +:+ String c t +:+ rest) = Some (s, rest).
Proof.
  intros Ht. induction s as [|x s IH].
  - intros _. pose proof (strip_prefix_app (String c t) rest) as Hp. cbn in *. by rewrite Hp.
  - intros Hc. assert (Hs : contains s (String c t) = false).
    { cbn [contains] in Hc. by apply orb_false_iff in Hc as [_ ?]. }
    assert (Hn : strip_prefix (String c t) (String x (s +:+ String c t +:+ rest)) = None).
    { destruct (strip_prefix _ _) as [r|] eqn:Hp; [|done]. exfalso.
      apply strip_prefix_inv in Hp. cbn in Hp. injection Hp as -> Hp.
      destruct (prefix_before_char c t r s (t +:+ rest) Ht (eq_sym Hp)) as [r' ->].
      cbn in Hc. rewrite Ascii.eqb_refl in Hc. cbn in Hc.
      assert (starts_with t (t +:+ r') = true) as Hst by (apply starts_with_spec; eauto).
      by rewrite Hst in Hc. }
    change (String x s +:+ String c t +:+ rest) with (String x (s +:+ String c t +:+ rest)).
    cbn [split_once]. by rewrite Hn, (IH Hs).
Qed.
