(* ===== verification/RustFloat.v ===== *)
(** * Rust floats

    [f32] and [f64] are IEEE-754 binary32 and binary64, modelled by the
    Standard Library's executable [spec_float] (mantissa, exponent, sign, with
    infinities and NaN), so every operation computes and no axiom is used.
    [f_round] is [round] (half away from zero): its result is a NaN, an
    infinity or an integer, so it is given as such ([rounded]), and the casts
    [as u64] and [as i32] saturate and send NaN to 0, as the language says. *)
From S2P Require Import Prelude.
From Stdlib Require Import SpecFloat.

Definition f64 : Type := spec_float.
Definition f32 : Type := spec_float.

(** The nearest float of an integer: [n as f64], [n as f32]. *)
Definition f64_of_Z (n : Z) : f64 := binary_normalize 53 1024 n 0 false.
Definition f32_of_Z (n : Z) : f32 := binary_normalize 24 128 n 0 false.

Definition f32_mul (a b : f32) : f32 := SFmul 24 128 a b.
Definition f32_div (a b : f32) : f32 := SFdiv 24 128 a b.
Definition f32_add (a b : f32) : f32 := SFadd 24 128 a b.
Definition f32_sub (a b : f32) : f32 := SFsub 24 128 a b.
Definition f_lt (a b : spec_float) : bool := SFltb a b.
Definition f_eq (a b : spec_float) : bool := SFeqb a b.
Definition f_abs (a : spec_float) : spec_float := SFabs a.

(** [x.clamp(lo, hi)]: NaN stays NaN. *)
Definition f_clamp (lo hi x : spec_float) : spec_float :=
  let x := if f_lt x lo then lo else x in
  if f_lt hi x then hi else x.

(** [f32::from_bits]. *)
Definition f32_of_bits (bits : Z) : f32 :=
  let s := Z.testbit bits 31 in
  let e := Z.land (Z.shiftr bits 23) 255 in
  let m := Z.land bits 8388607 in
  if (e =? 255)%Z then if (m =? 0)%Z then S754_infinity s else S754_nan
  else if (e =? 0)%Z then
    match m with Zpos p => S754_finite s p (-149) | _ => S754_zero s end
  else
    match (m + 8388608)%Z with Zpos p => S754_finite s p (e - 150) | _ => S754_zero s end.

(** A float without fraction. *)
Inductive rounded : Type :=
| RNaN
| RInf (negative : bool)
| RInt (n : Z).

Definition with_sign (s : bool) (n : Z) : Z := if s then (- n)%Z else n.

(** [x.round()]. *)
Definition f_round (x : spec_float) : rounded :=
  match x with
  | S754_zero _ => RInt 0
  | S754_infinity s => RInf s
  | S754_nan => RNaN
  | S754_finite s m e =>
    if (0 <=? e)%Z then RInt (with_sign s (Zpos m * 2 ^ e))
    else RInt (with_sign s ((Zpos m + 2 ^ (- e - 1)) / 2 ^ (- e)))
  end.

(** [r.max(0.0)]: a NaN loses to the other operand. *)
Definition rounded_max0 (r : rounded) : rounded :=
  match r with
  | RNaN | RInf true => RInt 0
  | RInf false => RInf false
  | RInt n => RInt (Z.max n 0)
  end.

(** [r as u64] and [r as i32]. *)
Definition rounded_as (lo hi : Z) (r : rounded) : Z :=
  match r with
  | RNaN => 0
  | RInf true => lo
  | RInf false => hi
  | RInt n => clampZ lo hi n
  end.
Definition rounded_as_u64 : rounded → Z := rounded_as 0 u64_max.
Definition rounded_as_i32 : rounded → Z := rounded_as i32_min i32_max.

(** [x as i16] and the like: truncation toward zero, then saturation. *)
Definition f_trunc (x : spec_float) : rounded :=
  match x with
  | S754_zero _ => RInt 0
  | S754_infinity s => RInf s
  | S754_nan => RNaN
  | S754_finite s m e =>
    if (0 <=? e)%Z then RInt (with_sign s (Zpos m * 2 ^ e))
    else RInt (with_sign s (Zpos m / 2 ^ (- e)))
  end.

Lemma rounded_as_range lo hi r : (lo ≤ 0 ≤ hi)%Z → (lo ≤ rounded_as lo hi r ≤ hi)%Z.
Proof. intros H. destruct r as [|[]|n]; cbn [rounded_as]; widths. Qed.
