(* ===== verification/Model.v ===== *)
(** * The shared vocabulary (crates/observer-model/src/lib.rs)

    The data every component speaks: phases, sources and their reported
    states, media, segment keys, pairing and upload status, the setup snapshot
    (crates/observer-model/src/setup.rs) and the health payload, with their
    defaults, decidable equality and map keys. *)
From S2P Require Import Prelude RustStr RustFloat.
From Stdlib Require Import Ascii String.
Open Scope string_scope.

Inductive AppPhase : Type := Idle | Starting | Observing | Paused | Error.

Inductive SourceKind : Type := Screen | SystemAudio | Mic | DesktopActivity.

Inductive PauseReason : Type := Operator | SessionLocked | SystemSuspending.

Inductive ErrorReason : Type := EndpointLost | AccessDenied | WriteFailed | Unknown.

Inductive SourceState : Type :=
| Active
| Inactive
| NoInputDevice
| Faulted (reason : ErrorReason) (detail : string).

Record AudioFormat : Type := mkAudioFormat {
  sample_rate_hz : Z;
  channels : Z;
  bits_per_sample : Z;
  is_float : bool
}.

Record SourceReport : Type := mkSourceReport {
  report_kind : SourceKind;
  report_state : SourceState;
  report_device : option string
}.

(** A byte of media is a [u8], a [Z] in [0..255]. *)
Record CaptureChunk : Type := mkCaptureChunk {
  chunk_source : SourceKind;
  chunk_seq : Z;
  chunk_data : list Z;
  chunk_format : option AudioFormat;
  chunk_at_us : option Z
}.

Inductive ScreenPixelFormat : Type := Rgba8 | Bgra8.

Record ScreenFrame : Type := mkScreenFrame {
  frame_seq : Z;
  arrival_100ns : Z;
  frame_width : Z;
  frame_height : Z;
  pixel_format : ScreenPixelFormat;
  pixels : list Z
}.

Record ScreenPreviewFrame : Type := mkScreenPreviewFrame {
  preview_width : Z;
  preview_height : Z;
  preview_rgba : list Z
}.

Record PreviewSnapshot : Type := mkPreviewSnapshot {
  consumer_generation : Z;
  mic_level : option f32;
  system_audio_level : option f32;
  screen_frame : option ScreenPreviewFrame
}.

Record SegmentKey : Type := mkSegmentKey {
  boundary_epoch_secs : Z;
  index : Z
}.

Inductive EncoderErrorKind : Type :=
| OpenFailed | EncodeFailed | FinalizeFailed | InvalidFrameDimensions
| DeviceLost | Unavailable | WorkerStopped.

Record EncoderError : Type := mkEncoderError {
  encoder_error_kind : EncoderErrorKind;
  encoder_error_detail : string
}.

Record SourceError : Type := mkSourceError {
  source_error_reason : ErrorReason;
  source_error_detail : string
}.

Record EncoderHealth : Type := mkEncoderHealth {
  frames_consumed : Z;
  frames_dropped : Z;
  samples_written : Z;
  clamp_events : Z;
  encoder_last_error : option string
}.

Record ExclusionHealth : Type := mkExclusionHealth {
  rules_active : bool;
  frames_redacted : Z;
  exclusion_frames_dropped : Z
}.

Inductive PairingPhase : Type :=
| NotPaired | Pairing | AwaitingConfirmation | Paired | PairingFailed.

Inductive JournalOpenChoice : Type := Settings | Bridge.

Definition journal_open_choice (phase : PairingPhase) : JournalOpenChoice :=
  match phase with
  | AwaitingConfirmation => Settings
  | _ => Bridge
  end.

Inductive ViewRenderState : Type := Pending | Rendered.

Inductive View : Type := ViewSettings | ViewAbout.

Definition view_all : list View := [ViewSettings; ViewAbout].

Definition view_label (v : View) : string :=
  match v with ViewSettings => "settings" | ViewAbout => "about" end.

Definition view_parse (input : string) : option View :=
  find_first (λ v, String.eqb (view_label v) input) view_all.

Record MarkColor : Type := mkMarkColor { color_name : string; color_hex : string }.

Record MarkIconSpec : Type := mkMarkIconSpec {
  icon_name : string;
  icon_svg : string;
  icon_color : MarkColor;
  icon_rot : Z
}.

Record MarkRenderSpec : Type := mkMarkRenderSpec {
  icon1 : MarkIconSpec;
  icon2 : MarkIconSpec;
  words : string * string
}.

Record PairingState : Type := mkPairingState {
  pairing_phase : PairingPhase;
  journal_label : option string;
  pairing_detail : option string;
  pairing_mark : option MarkRenderSpec;
  pairing_binding : string;
  finish_connecting : bool;
  setup_browser_ready : bool
}.

Inductive TransportPath : Type := Direct | Relay.

Record UploadStatus : Type := mkUploadStatus {
  pending_segments : Z;
  uploaded_segments : Z;
  failed_segments : Z;
  quarantined_segments : Z;
  invalid_receipts : Z;
  segment_removed_segments : Z;
  listing_unproven_segments : Z;
  listing_refusals : Z;
  unknown_kept_segments : Z;
  last_uploaded_segment : option string;
  last_uploaded_server_segment : option string;
  upload_last_error : option string;
  last_successful_sync : option Z;
  recent_error_count : Z;
  last_error_reason : option string;
  last_upload_duration_ms : option Z;
  last_upload_bytes : option Z;
  last_upload_path : option TransportPath;
  last_upload_dial_attempts : option Z
}.

Record UnknownJournalSighting : Type := mkUnknownJournalSighting {
  sighting_address : option string;
  expected_mark : MarkRenderSpec;
  responding_mark : option MarkRenderSpec
}.

Inductive JournalLink : Type := Connected | Connecting | Offline.

Record SyncSnapshot : Type := mkSyncSnapshot {
  sync_pairing : PairingState;
  sync_upload : UploadStatus;
  journal_version : option string;
  journal_version_fresh : bool;
  journal_display_line : string;
  journal_base_line : string;
  journal_seen_at_epoch_secs : option Z;
  about_app_line : string;
  about_block : string;
  unknown_journals : list UnknownJournalSighting;
  journal_link : option JournalLink
}.

Record PauseSnapshot : Type := mkPauseSnapshot {
  pause_reason : PauseReason;
  seconds_remaining : option Z
}.

Record ListenerFaults : Type := mkListenerFaults {
  listener_health : option string;
  listener_control : option string
}.

Record StorageHealth : Type := mkStorageHealth { storage_detail : string }.

(** ** Setup data (crates/observer-model/src/setup.rs) *)

Inductive WizardStep : Type :=
| WizardMic | WizardSystemAudio | WizardScreen | WizardConnection | WizardDone.

Record LoginPreference : Type := mkLoginPreference { login_choice : option bool }.

Record DesktopActivityChoices : Type := mkDesktopActivityChoices {
  choice_allowed : option bool;
  choice_through_pause : option bool;
  choice_window_titles : option bool;
  choice_page_addresses : option bool
}.

Record FailedSourceWrite : Type := mkFailedSourceWrite {
  failed_kind : SourceKind;
  attempted : bool
}.

Record SetupSnapshot : Type := mkSetupSnapshot {
  sequence_enabled : bool;
  setup_mic : bool;
  setup_system_audio : bool;
  setup_screen : bool;
  setup_start_at_login : LoginPreference;
  setup_wizard : WizardStep;
  setup_notice_dismissed : bool;
  setup_desktop_activity : bool;
  setup_desktop_activity_allowed : bool;
  setup_desktop_activity_through_pause : bool;
  setup_desktop_activity_window_titles : bool;
  setup_desktop_activity_page_addresses : bool;
  through_pause_save_failed_flag : bool;
  window_titles_save_failed_flag : bool;
  page_addresses_save_failed_flag : bool;
  setup_failed_sources : list FailedSourceWrite;
  setup_wizard_save_failed : bool;
  setup_pending_wizard : option WizardStep;
  setup_notice_save_failed : bool;
  setup_login_apply_failed : bool;
  setup_read_failed_flag : bool;
  handoff_id : option string;
  handoff_revision : option Z;
  handoff_expired : bool;
  handoff_new_connection : bool;
  handoff_deferred : bool;
  mailbox_busy : bool;
  handoff_rejected : bool;
  native_handoff_rejected : bool;
  handoff_persist_failed : bool;
  has_deferred_link : bool;
  setup_desktop_activity_choices : DesktopActivityChoices
}.

(** ** The health payload *)

Record HealthDump : Type := mkHealthDump {
  app_state : AppPhase;
  dump_sources : list SourceReport;
  frame_rate : option Z;
  segment_dir : option string;
  segment_seconds_remaining : option Z;
  dump_engine_ready : bool;
  version : string;
  sync : SyncSnapshot;
  screen_encoder : option EncoderHealth;
  exclusions : option ExclusionHealth;
  storage : option StorageHealth;
  pause : option PauseSnapshot;
  views : gmap string ViewRenderState;
  pump_degraded : bool;
  listener_faults : ListenerFaults;
  dump_setup : SetupSnapshot
}.

(** ** Decidable equality *)

#[global] Instance AppPhase_eq_dec : EqDecision AppPhase.
Proof. solve_decision. Defined.
#[global] Instance SourceKind_eq_dec : EqDecision SourceKind.
Proof. solve_decision. Defined.
#[global] Instance PauseReason_eq_dec : EqDecision PauseReason.
Proof. solve_decision. Defined.
#[global] Instance ErrorReason_eq_dec : EqDecision ErrorReason.
Proof. solve_decision. Defined.
#[global] Instance SourceState_eq_dec : EqDecision SourceState.
Proof. solve_decision. Defined.
#[global] Instance SourceReport_eq_dec : EqDecision SourceReport.
Proof. solve_decision. Defined.
#[global] Instance SegmentKey_eq_dec : EqDecision SegmentKey.
Proof. solve_decision. Defined.
#[global] Instance EncoderHealth_eq_dec : EqDecision EncoderHealth.
Proof. solve_decision. Defined.
#[global] Instance ExclusionHealth_eq_dec : EqDecision ExclusionHealth.
Proof. solve_decision. Defined.
#[global] Instance PairingPhase_eq_dec : EqDecision PairingPhase.
Proof. solve_decision. Defined.
#[global] Instance ViewRenderState_eq_dec : EqDecision ViewRenderState.
Proof. solve_decision. Defined.
#[global] Instance MarkColor_eq_dec : EqDecision MarkColor.
Proof. solve_decision. Defined.
#[global] Instance MarkIconSpec_eq_dec : EqDecision MarkIconSpec.
Proof. solve_decision. Defined.
#[global] Instance MarkRenderSpec_eq_dec : EqDecision MarkRenderSpec.
Proof. solve_decision. Defined.
#[global] Instance PairingState_eq_dec : EqDecision PairingState.
Proof. solve_decision. Defined.
#[global] Instance TransportPath_eq_dec : EqDecision TransportPath.
Proof. solve_decision. Defined.
#[global] Instance UploadStatus_eq_dec : EqDecision UploadStatus.
Proof. solve_decision. Defined.
#[global] Instance UnknownJournalSighting_eq_dec : EqDecision UnknownJournalSighting.
Proof. solve_decision. Defined.
#[global] Instance JournalLink_eq_dec : EqDecision JournalLink.
Proof. solve_decision. Defined.
#[global] Instance SyncSnapshot_eq_dec : EqDecision SyncSnapshot.
Proof. solve_decision. Defined.
#[global] Instance PauseSnapshot_eq_dec : EqDecision PauseSnapshot.
Proof. solve_decision. Defined.
#[global] Instance ListenerFaults_eq_dec : EqDecision ListenerFaults.
Proof. solve_decision. Defined.
#[global] Instance StorageHealth_eq_dec : EqDecision StorageHealth.
Proof. solve_decision. Defined.
#[global] Instance WizardStep_eq_dec : EqDecision WizardStep.
Proof. solve_decision. Defined.
#[global] Instance LoginPreference_eq_dec : EqDecision LoginPreference.
Proof. solve_decision. Defined.
#[global] Instance DesktopActivityChoices_eq_dec : EqDecision DesktopActivityChoices.
Proof. solve_decision. Defined.
#[global] Instance FailedSourceWrite_eq_dec : EqDecision FailedSourceWrite.
Proof. solve_decision. Defined.
#[global] Instance SetupSnapshot_eq_dec : EqDecision SetupSnapshot.
Proof. solve_decision. Defined.
#[global] Instance HealthDump_eq_dec : EqDecision HealthDump.
Proof. solve_decision. Defined.

(** Map keys. *)
Definition SourceKind_encode (k : SourceKind) : positive :=
  match k with Screen => 1 | SystemAudio => 2 | Mic => 3 | DesktopActivity => 4 end%positive.
Definition SourceKind_decode (p : positive) : option SourceKind :=
  match p with
  | 1 => Some Screen | 2 => Some SystemAudio | 3 => Some Mic | 4 => Some DesktopActivity
  | _ => None
  end%positive.
#[global] Program Instance SourceKind_countable : Countable SourceKind :=
  {| encode := SourceKind_encode; decode := SourceKind_decode |}.
Next Obligation. by intros []. Qed.

#[global] Program Instance SegmentKey_countable : Countable SegmentKey :=
  inj_countable' (λ k, (boundary_epoch_secs k, index k)) (λ '(b, i), mkSegmentKey b i) _.
Next Obligation. by intros []. Qed.

(** The order [BTreeMap<SourceKind, _>] iterates in. *)
Definition source_kinds : list SourceKind := [Screen; SystemAudio; Mic; DesktopActivity].

(** ** Defaults *)

Definition DESKTOP_ACTIVITY_DEFAULT : bool := true.
Definition DESKTOP_ACTIVITY_THROUGH_PAUSE_DEFAULT : bool := false.
Definition DESKTOP_ACTIVITY_WINDOW_TITLES_DEFAULT : bool := true.
Definition DESKTOP_ACTIVITY_PAGE_ADDRESSES_DEFAULT : bool := true.
Definition SETUP_SEQUENCE_ENABLED : bool := true.

Definition desktop_activity_runs (allowed screen through_pause : bool) : bool :=
  allowed && (screen || through_pause).

Definition no_choices : DesktopActivityChoices := mkDesktopActivityChoices None None None None.

Definition default_setup_snapshot : SetupSnapshot :=
  mkSetupSnapshot SETUP_SEQUENCE_ENABLED false false false (mkLoginPreference (Some false)) WizardDone
    true false DESKTOP_ACTIVITY_DEFAULT DESKTOP_ACTIVITY_THROUGH_PAUSE_DEFAULT
    DESKTOP_ACTIVITY_WINDOW_TITLES_DEFAULT DESKTOP_ACTIVITY_PAGE_ADDRESSES_DEFAULT false false false
    [] false None false false false None None false false false false false false false false no_choices.

Definition unknown_journal_line : string := "journal unknown".

Definition default_upload_status : UploadStatus :=
  mkUploadStatus 0 0 0 0 0 0 0 0 0 None None None None 0 None None None None None.

Definition default_sync_snapshot : SyncSnapshot :=
  mkSyncSnapshot (mkPairingState NotPaired None None None EmptyString false false)
    default_upload_status None false unknown_journal_line unknown_journal_line None EmptyString
    unknown_journal_line [] None.

Definition default_preview : PreviewSnapshot := mkPreviewSnapshot 0 None None None.

Definition BREAKER_OPEN_MARKER : string := "[breaker-open] ".
