(* ===== verification/Segment.v ===== *)
(** * Clock-boundary rotation (crates/observer-segment/src/lib.rs)

    The pure rotation arithmetic and the [SegmentFs] seam through which the
    engine touches storage. All quantities are [u64] seconds. *)
From Stdlib Require Import String.
From S2P Require Import Prelude RustFloat Model.

Definition DEFAULT_SEGMENT_SECS : Z := 5 * 60.

(** [duration::resolve_len_secs]. *)
Definition resolve_len_secs (audio_secs video_secs : option f64) (period_secs : Z)
    (retained_activity : bool) : Z :=
  let max_period := Z.max period_secs 1 in
  if retained_activity then max_period
  else
    let raw := match audio_secs with
               | Some a => a
               | None => match video_secs with Some v => v | None => f64_of_Z period_secs end
               end in
    clampZ 1 max_period (rounded_as_u64 (rounded_max0 (f_round raw))).

Definition segment_for (now_epoch_secs period_secs : Z) : SegmentKey :=
  let period := Z.max period_secs 1 in
  let boundary := (now_epoch_secs / period * period)%Z in
  mkSegmentKey boundary (boundary / period).

Definition seconds_until_next_boundary (now_epoch_secs period_secs : Z) : Z :=
  let period := Z.max period_secs 1 in
  (period - now_epoch_secs mod period)%Z.

Definition should_rotate (current : SegmentKey) (now_epoch_secs period_secs : Z) : bool :=
  negb (bool_decide (segment_for now_epoch_secs period_secs = current)).

Definition is_live_segment (key : SegmentKey) (now_epoch_secs period_secs : Z) : bool :=
  bool_decide (key = segment_for now_epoch_secs period_secs).

(** The filesystem seam. [fs_debug] is the error's [Debug] rendering, which
    the engine keeps as the storage fault's detail. *)
Class SegmentFs (F : Type) : Type := {
  fs_error : Type;
  fs_debug : fs_error → string;
  existing_incomplete : SegmentKey → M F (result (option string) fs_error);
  open_incomplete : SegmentKey → M F (result string fs_error);
  write_chunk : SegmentKey → CaptureChunk → M F (result unit fs_error);
  append_activity : SegmentKey → string → string → Z → M F (result unit fs_error);
  fs_finalize : SegmentKey → option f64 → M F (result unit fs_error)
}.

(** ** Lemmas *)

(** [k] is the key of the aligned window that contains [now]. *)
Definition window_contains (k : SegmentKey) (period now : Z) : Prop :=
  boundary_epoch_secs k = (index k * period)%Z ∧
  (boundary_epoch_secs k ≤ now < boundary_epoch_secs k + period)%Z.

Lemma segment_for_window now p : window_contains (segment_for now p) (Z.max p 1) now.
Proof.
  unfold window_contains, segment_for; cbn.
  set (P := Z.max p 1). assert (0 < P)%Z by lia.
  rewrite Z.div_mul by lia. pose proof (Z.div_mod now P). pose proof (Z.mod_pos_bound now P). lia.
Qed.

Lemma window_unique k k' P now :
  window_contains k P now → window_contains k' P now → k = k'.
Proof.
  destruct k as [b i], k' as [b' i']. unfold window_contains; cbn.
  intros [-> ?] [-> ?]. assert (i = i') as -> by nia. done.
Qed.

Lemma segment_for_iff now p k :
  segment_for now p = k ↔ window_contains k (Z.max p 1) now.
Proof.
  split; [intros <-; apply segment_for_window|].
  intros H. eauto using window_unique, segment_for_window.
Qed.

Lemma should_rotate_false k now p :
  should_rotate k now p = false ↔ window_contains k (Z.max p 1) now.
Proof.
  unfold should_rotate. rewrite negb_false_iff, bool_decide_eq_true. apply segment_for_iff.
Qed.

Lemma should_rotate_true k now p :
  should_rotate k now p = true ↔ segment_for now p ≠ k.
Proof. unfold should_rotate. by rewrite negb_true_iff, bool_decide_eq_false. Qed.

Lemma segment_for_range now p :
  in_u64 now → in_u64 (boundary_epoch_secs (segment_for now p)) ∧ in_u64 (index (segment_for now p)).
Proof.
  intros Hn. pose proof (segment_for_window now p) as [Hb Hw].
  assert (Hi : (0 ≤ index (segment_for now p))%Z).
  { unfold segment_for; cbn. rewrite Z.div_mul by lia. apply Z.div_pos; widths. }
  revert Hb Hw. generalize (segment_for now p) Hi. intros [b i]; cbn. intros. unfold_width. nia.
Qed.

(** ** Properties *)

(** The segment an instant belongs to is the one aligned window of the
    clock that contains it: boundaries are multiples of the period, the instant
    lies in [boundary, boundary + period), the key is unique, and both fields
    stay in [u64]; the engine's rotation test is exactly "outside that
    window". *)
Theorem segment_for_is_the_aligned_window (now p : Z) (k : SegmentKey) (Hnow : in_u64 now) :
  (segment_for now p = k ↔
     boundary_epoch_secs k = (index k * Z.max p 1)%Z ∧
     (boundary_epoch_secs k ≤ now < boundary_epoch_secs k + Z.max p 1)%Z) ∧
  in_u64 (boundary_epoch_secs (segment_for now p)) ∧ in_u64 (index (segment_for now p)) ∧
  should_rotate (segment_for now p) now p = false ∧
  is_live_segment (segment_for now p) now p = true.
Proof.
  split; [apply segment_for_iff|]. destruct (segment_for_range now p Hnow) as [Hb Hi].
  split; [done|]. split; [done|]. split; [by apply should_rotate_false, segment_for_window|].
  unfold is_live_segment. by rewrite bool_decide_eq_true.
Qed.

Lemma segment_for_is_the_aligned_window_witness :
  in_u64 361 ∧ segment_for 361 300 = mkSegmentKey 300 1 ∧
  should_rotate (segment_for 361 300) 361 300 = false.
Proof.
  assert (H : in_u64 361) by widths. split; [done|].
  pose proof (segment_for_is_the_aligned_window 361 300 (mkSegmentKey 300 1) H) as (Hk & _ & _ & Hr & _).
  split; [apply Hk; cbn; lia|exact Hr].
Defined.

(** [seconds_until_next_boundary] counts down to the rotation: it is
    between 1 and the period, no rotation is due at any earlier second, and
    exactly then the window changes to the next index. *)
Theorem countdown_reaches_the_next_window (now p d : Z) :
  let r := seconds_until_next_boundary now p in
  let k := segment_for now p in
  (1 ≤ r ≤ Z.max p 1)%Z ∧
  segment_for (now + r) p = mkSegmentKey (boundary_epoch_secs k + Z.max p 1) (index k + 1) ∧
  ((0 ≤ d < r)%Z → should_rotate k (now + d) p = false) ∧
  should_rotate k (now + r) p = true.
Proof.
  intros r k. pose proof (segment_for_window now p) as [Hb Hw]. fold k in Hb, Hw.
  assert (Hr : (now + r = boundary_epoch_secs k + Z.max p 1)%Z).
  { subst r k. unfold seconds_until_next_boundary, segment_for; cbn.
    assert (HP : (Z.max p 1 ≠ 0)%Z) by lia. clear Hb Hw.
    generalize dependent (Z.max p 1). intros P HP. pose proof (Z.div_mod now P HP). lia. }
  clearbody r k. assert (Hnext : segment_for (now + r) p =
    mkSegmentKey (boundary_epoch_secs k + Z.max p 1) (index k + 1)).
  { apply segment_for_iff. split; cbn; [rewrite Hb; ring|lia]. }
  split; [lia|]. split; [done|]. split.
  - intros Hd. apply should_rotate_false. split; [done|lia].
  - apply should_rotate_true. rewrite Hnext. intros E. apply (f_equal index) in E. cbn in E. lia.
Qed.

Definition media_raw (audio video : option f64) (p : Z) : f64 :=
  match audio, video with
  | Some a, _ => a
  | None, Some v => v
  | None, None => f64_of_Z p
  end.

(** The LEN of a sealed segment is honest and in range: always between 1
    and the period (at least 1) whatever the media clocks report, NaN and
    infinities included; retained activity claims the whole period; otherwise
    it is the audio length when known, else the video end, else the period,
    rounded half away from zero and clamped. *)
Theorem resolve_len_secs_spec (audio video : option f64) (p : Z) (retained : bool) :
  (1 ≤ resolve_len_secs audio video p retained ≤ Z.max p 1)%Z ∧
  resolve_len_secs audio video p true = Z.max p 1 ∧
  (∀ n, f_round (media_raw audio video p) = RInt n → (n ≤ u64_max)%Z →
     resolve_len_secs audio video p false = Z.min (Z.max p 1) (Z.max 1 n)).
Proof.
  split; [|split].
  - unfold resolve_len_secs. destruct retained; widths.
  - done.
  - intros n Hn Hmax. unfold resolve_len_secs.
    replace (match audio with Some a => a | None =>
      match video with Some v => v | None => f64_of_Z p end end)
      with (media_raw audio video p) by (by destruct audio, video).
    rewrite Hn. cbn. widths.
Qed.
