(* ===== verification/AppState.v ===== *)
(** * The honest app-state reducer (crates/observer-state/src/lib.rs)

    [StateMachine] is the reducer's working memory, [reduce] folds one
    [AppEvent] into it, and the phase is computed from it and never stored.
    The second half gives the abstract specification: what each fact is as a
    function of the events received so far, and the theorem that the machine
    computes exactly that. *)
From Stdlib Require Import String.
From S2P Require Import Prelude Model.

Inductive AppEvent : Type :=
| RequestedStart
| RequestedPause (reason : PauseReason) (expires_at_epoch_secs : option Z)
| RequestedResume
| SystemResumed
| OwnerPauseExpired
| EngineReady
| SourceUpdated (report : SourceReport)
| SourceFaulted (kind : SourceKind)
| StorageFaultChanged (faulted : bool)
| SourceEnabled (kind : SourceKind) (enabled : bool).

Record OwnerPause : Type := mkOwnerPause { expires_at_epoch_secs : option Z }.

#[global] Instance OwnerPause_eq_dec : EqDecision OwnerPause.
Proof. solve_decision. Defined.

Record StateMachine : Type := mkStateMachine {
  engine_ready : bool;
  run_requested : bool;
  screen_enabled : bool;
  system_audio_enabled : bool;
  mic_enabled : bool;
  desktop_activity_enabled : bool;
  owner_pause : option OwnerPause;
  system_pause : option PauseReason;
  storage_faulted : bool;
  screen : option SourceState;
  system_audio : option SourceState;
  mic : option SourceState;
  desktop_activity : option SourceState
}.

(** [StateMachine::new], the derived [Default]. *)
Definition new_state : StateMachine :=
  mkStateMachine false false false false false false None None false None None None None.

Definition is_source_enabled (s : StateMachine) (kind : SourceKind) : bool :=
  match kind with
  | Screen => screen_enabled s
  | SystemAudio => system_audio_enabled s
  | Mic => mic_enabled s
  | DesktopActivity => desktop_activity_enabled s
  end.

Definition any_source_enabled (s : StateMachine) : bool :=
  screen_enabled s || system_audio_enabled s || mic_enabled s || desktop_activity_enabled s.

Definition is_faulted (opt : option SourceState) : bool :=
  match opt with
  | Some (Faulted reason _) => negb (bool_decide (reason = AccessDenied))
  | _ => false
  end.

Definition is_active (opt : option SourceState) : bool :=
  match opt with Some Active => true | _ => false end.

Definition is_pending (opt : option SourceState) : bool :=
  match opt with None | Some Inactive => true | _ => false end.

Definition any_enabled_faulted (s : StateMachine) : bool :=
  (screen_enabled s && is_faulted (screen s))
  || (system_audio_enabled s && is_faulted (system_audio s))
  || (mic_enabled s && is_faulted (mic s))
  || (desktop_activity_enabled s && is_faulted (desktop_activity s)).

Definition any_enabled_active (s : StateMachine) : bool :=
  (screen_enabled s && is_active (screen s))
  || (system_audio_enabled s && is_active (system_audio s))
  || (mic_enabled s && is_active (mic s))
  || (desktop_activity_enabled s && is_active (desktop_activity s)).

Definition any_enabled_pending (s : StateMachine) : bool :=
  (screen_enabled s && is_pending (screen s))
  || (system_audio_enabled s && is_pending (system_audio s))
  || (mic_enabled s && is_pending (mic s))
  || (desktop_activity_enabled s && is_pending (desktop_activity s)).

Definition phase (s : StateMachine) : AppPhase :=
  if bool_decide (is_Some (owner_pause s)) || bool_decide (is_Some (system_pause s)) then Paused
  else if negb (run_requested s) || negb (any_source_enabled s) then Idle
  else if negb (engine_ready s) then Starting
  else if storage_faulted s || any_enabled_faulted s then Error
  else if any_enabled_active s then Observing
  else if any_enabled_pending s then Starting
  else Idle.

Definition pause_snapshot (s : StateMachine) (now_epoch_secs : Z) : option PauseSnapshot :=
  match owner_pause s, system_pause s with
  | Some owner, _ =>
    Some (mkPauseSnapshot Operator
            ((λ exp, sat_sub exp now_epoch_secs) <$> expires_at_epoch_secs owner))
  | None, Some reason => Some (mkPauseSnapshot reason None)
  | None, None => None
  end.

Definition pause_due_to_expire (s : StateMachine) (now_epoch_secs : Z) : bool :=
  match owner_pause s ≫= expires_at_epoch_secs with
  | Some exp => (exp <=? now_epoch_secs)%Z
  | None => false
  end.

(** ** Field updates *)

Definition set_enabled (kind : SourceKind) (b : bool) (s : StateMachine) : StateMachine :=
  let '(mkStateMachine er rr se sae me de op sp sf sc sa mi da) := s in
  match kind with
  | Screen => mkStateMachine er rr b sae me de op sp sf sc sa mi da
  | SystemAudio => mkStateMachine er rr se b me de op sp sf sc sa mi da
  | Mic => mkStateMachine er rr se sae b de op sp sf sc sa mi da
  | DesktopActivity => mkStateMachine er rr se sae me b op sp sf sc sa mi da
  end.

Definition set_reported (kind : SourceKind) (st : SourceState) (s : StateMachine) : StateMachine :=
  let '(mkStateMachine er rr se sae me de op sp sf sc sa mi da) := s in
  match kind with
  | Screen => mkStateMachine er rr se sae me de op sp sf (Some st) sa mi da
  | SystemAudio => mkStateMachine er rr se sae me de op sp sf sc (Some st) mi da
  | Mic => mkStateMachine er rr se sae me de op sp sf sc sa (Some st) da
  | DesktopActivity => mkStateMachine er rr se sae me de op sp sf sc sa mi (Some st)
  end.

Definition set_pauses (op : option OwnerPause) (sp : option PauseReason) (s : StateMachine)
    : StateMachine :=
  let '(mkStateMachine er rr se sae me de _ _ sf sc sa mi da) := s in
  mkStateMachine er rr se sae me de op sp sf sc sa mi da.

Definition set_run_requested (s : StateMachine) : StateMachine :=
  let '(mkStateMachine er _ se sae me de op sp sf sc sa mi da) := s in
  mkStateMachine er true se sae me de op sp sf sc sa mi da.

Definition set_engine_ready (s : StateMachine) : StateMachine :=
  let '(mkStateMachine _ rr se sae me de op sp sf sc sa mi da) := s in
  mkStateMachine true rr se sae me de op sp sf sc sa mi da.

Definition set_storage_faulted (b : bool) (s : StateMachine) : StateMachine :=
  let '(mkStateMachine er rr se sae me de op sp _ sc sa mi da) := s in
  mkStateMachine er rr se sae me de op sp b sc sa mi da.

(** The state change of [reduce]. *)
Definition apply_event (event : AppEvent) (s : StateMachine) : StateMachine :=
  match event with
  | SourceEnabled kind enabled => set_enabled kind enabled s
  | RequestedStart => set_run_requested s
  | RequestedPause Operator exp => set_pauses (Some (mkOwnerPause exp)) (system_pause s) s
  | RequestedPause reason _ => set_pauses (owner_pause s) (Some reason) s
  | RequestedResume => set_pauses None None s
  | SystemResumed => set_pauses (owner_pause s) None s
  | OwnerPauseExpired => set_pauses None (system_pause s) s
  | EngineReady => set_engine_ready s
  | SourceUpdated report => set_reported (report_kind report) (report_state report) s
  | SourceFaulted kind => set_reported kind (Faulted Unknown "source faulted") s
  | StorageFaultChanged faulted => set_storage_faulted faulted s
  end.

Definition reduce (event : AppEvent) : M StateMachine AppPhase :=
  modify (apply_event event) ;; gets phase.

(** The machine after a sequence of events, oldest first. *)
Fixpoint run_events (s : StateMachine) (events : list AppEvent) : StateMachine :=
  match events with
  | [] => s
  | e :: events => run_events (reduce e s).2 events
  end.

(** ** The abstract specification

    Each fact as a function of the history alone (newest event first). *)

Definition reported (s : StateMachine) (kind : SourceKind) : option SourceState :=
  match kind with
  | Screen => screen s
  | SystemAudio => system_audio s
  | Mic => mic s
  | DesktopActivity => desktop_activity s
  end.

(** The last event of the history that [f] answers for. *)
Fixpoint last_answer {A} (f : AppEvent → option A) (hist : list AppEvent) : option A :=
  match hist with
  | [] => None
  | e :: hist => match f e with Some a => Some a | None => last_answer f hist end
  end.

(** What an event says of the owner's pause, of a system pause, of a source's
    report, of its switch, of storage. *)
Definition says_owner (e : AppEvent) : option (option OwnerPause) :=
  match e with
  | RequestedPause Operator exp => Some (Some (mkOwnerPause exp))
  | RequestedResume | OwnerPauseExpired => Some None
  | _ => None
  end.
Definition says_system (e : AppEvent) : option (option PauseReason) :=
  match e with
  | RequestedPause Operator _ => None
  | RequestedPause reason _ => Some (Some reason)
  | RequestedResume | SystemResumed => Some None
  | _ => None
  end.
Definition says_report (k : SourceKind) (e : AppEvent) : option SourceState :=
  match e with
  | SourceUpdated r => if decide (report_kind r = k) then Some (report_state r) else None
  | SourceFaulted k' => if decide (k' = k) then Some (Faulted Unknown "source faulted") else None
  | _ => None
  end.
Definition says_enabled (k : SourceKind) (e : AppEvent) : option bool :=
  match e with
  | SourceEnabled k' b => if decide (k' = k) then Some b else None
  | _ => None
  end.
Definition says_storage (e : AppEvent) : option bool :=
  match e with StorageFaultChanged b => Some b | _ => None end.
Definition says_ready (e : AppEvent) : option bool :=
  match e with EngineReady => Some true | _ => None end.
Definition says_run (e : AppEvent) : option bool :=
  match e with RequestedStart => Some true | _ => None end.

Definition abstracts (hist : list AppEvent) (s : StateMachine) : Prop :=
  owner_pause s = default None (last_answer says_owner hist) ∧
  system_pause s = default None (last_answer says_system hist) ∧
  storage_faulted s = default false (last_answer says_storage hist) ∧
  engine_ready s = default false (last_answer says_ready hist) ∧
  run_requested s = default false (last_answer says_run hist) ∧
  (∀ k, reported s k = last_answer (says_report k) hist) ∧
  (∀ k, is_source_enabled s k = default false (last_answer (says_enabled k) hist)).

(** ** Lemmas *)

Lemma reduce_run e s : reduce e s = (phase (apply_event e s), apply_event e s).
Proof. done. Qed.

Lemma abstracts_step hist s e : abstracts hist s → abstracts (e :: hist) (apply_event e s).
Proof.
  destruct s. unfold abstracts. intros (Ho & Hs & Hst & Hr & Hrun & Hrep & Hen).
  cbn [owner_pause system_pause storage_faulted engine_ready run_requested] in *.
  destruct e as [|[]| | | | |[[] ? ?]|[]| |[] ?]; cbn; repeat split; try done.
  all: intros k; (pose proof (Hrep k)); (pose proof (Hen k)); by destruct k.
Qed.

Lemma abstracts_run hist s events :
  abstracts hist s → abstracts (rev events ++ hist) (run_events s events).
Proof.
  revert hist s. induction events as [|e events IH]; intros hist s H; [done|].
  cbn [run_events rev]. rewrite reduce_run, <-app_assoc. by apply (IH (e :: hist)), abstracts_step.
Qed.

Lemma any_over_kinds (f : SourceKind → bool) :
  f Screen || f SystemAudio || f Mic || f DesktopActivity = true ↔ ∃ k, f k = true.
Proof.
  rewrite !orb_true_iff. split; [naive_solver|]. intros [[] ?]; auto.
Qed.

Lemma any_source_enabled_spec s :
  any_source_enabled s = true ↔ ∃ k, is_source_enabled s k = true.
Proof. apply (any_over_kinds (is_source_enabled s)). Qed.

Lemma any_enabled_spec (p : option SourceState → bool) s :
  (screen_enabled s && p (screen s)) || (system_audio_enabled s && p (system_audio s))
  || (mic_enabled s && p (mic s)) || (desktop_activity_enabled s && p (desktop_activity s)) = true
  ↔ ∃ k, is_source_enabled s k = true ∧ p (reported s k) = true.
Proof.
  rewrite (any_over_kinds (λ k, is_source_enabled s k && p (reported s k))).
  f_equiv. intros k. apply andb_true_iff.
Qed.

Lemma is_active_spec o : is_active o = true ↔ o = Some Active.
Proof. destruct o as [[]|]; split; intros; simplify_eq/=; done. Qed.

Lemma is_faulted_spec o :
  is_faulted o = true ↔ ∃ r d, o = Some (Faulted r d) ∧ r ≠ AccessDenied.
Proof.
  destruct o as [[| | |r d]|]; cbn; try naive_solver.
  rewrite negb_true_iff, bool_decide_eq_false. naive_solver.
Qed.

Lemma phase_paused_iff s : phase s = Paused ↔ is_Some (owner_pause s) ∨ is_Some (system_pause s).
Proof.
  unfold phase. destruct (owner_pause s), (system_pause s); cbn; [naive_solver eauto..|].
  split; [repeat case_match; done|]. by intros [[? ?]|[? ?]].
Qed.

Lemma phase_observing_flags s :
  phase s = Observing ↔
  owner_pause s = None ∧ system_pause s = None ∧ run_requested s = true ∧
  any_source_enabled s = true ∧ engine_ready s = true ∧ storage_faulted s = false ∧
  any_enabled_faulted s = false ∧ any_enabled_active s = true.
Proof.
  unfold phase. destruct (owner_pause s), (system_pause s); cbn; [naive_solver..|].
  destruct (run_requested s), (any_source_enabled s), (engine_ready s), (storage_faulted s),
    (any_enabled_faulted s), (any_enabled_active s); cbn; try (split; [done|intuition congruence]).
  - destruct (any_enabled_pending s); split; [done|intuition congruence|done|intuition congruence].
Qed.

Lemma no_enabled_fault_spec s :
  any_enabled_faulted s = false ↔
  ∀ k r d, is_source_enabled s k = true → reported s k = Some (Faulted r d) → r = AccessDenied.
Proof.
  pose proof (any_enabled_spec is_faulted s) as Hf. fold (any_enabled_faulted s) in Hf.
  rewrite <-not_true_iff_false, Hf. setoid_rewrite is_faulted_spec. split.
  - intros H k r d Hk Hr. destruct (decide (r = AccessDenied)) as [|Hne]; [done|].
    destruct H. eauto 8.
  - intros H (k & Hk & r & d & Hr & Hne). eauto.
Qed.

(** What [Observing] says, for the clients of the reducer. *)
Lemma observing_facts s :
  phase s = Observing →
  owner_pause s = None ∧ system_pause s = None ∧ run_requested s = true ∧
  engine_ready s = true ∧ storage_faulted s = false ∧
  (∀ k r d, is_source_enabled s k = true → reported s k = Some (Faulted r d) → r = AccessDenied) ∧
  (∃ k, is_source_enabled s k = true ∧ reported s k = Some Active).
Proof.
  rewrite phase_observing_flags. intros (? & ? & ? & ? & ? & ? & Hf & Ha).
  split_and!; try done; [by apply no_enabled_fault_spec|].
  apply (any_enabled_spec is_active s) in Ha as (k & Hk & Ha). exists k.
  split; [done|by apply is_active_spec].
Qed.

(** ** Properties *)

(** "Observing" is earned. The computed phase is [Observing] exactly when
    no pause of either kind is in effect, a run was requested, the engine is
    ready, storage is healthy, no enabled source is faulted for a reason other
    than a refused permission, and some enabled source reports [Active]. *)
Theorem observing_iff_earned (s : StateMachine) :
  phase s = Observing ↔
  owner_pause s = None ∧ system_pause s = None ∧ run_requested s = true ∧
  engine_ready s = true ∧ storage_faulted s = false ∧
  (∀ k r d, is_source_enabled s k = true → reported s k = Some (Faulted r d) → r = AccessDenied) ∧
  (∃ k, is_source_enabled s k = true ∧ reported s k = Some Active).
Proof.
  split; [apply observing_facts|]. intros (? & ? & ? & ? & ? & Hf & k & Hk & Hr).
  apply phase_observing_flags. split_and!; try done.
  - apply any_source_enabled_spec. eauto.
  - by apply no_enabled_fault_spec.
  - apply (any_enabled_spec is_active s). exists k. split; [done|by apply is_active_spec].
Qed.

(** The reducer refines its history. After any sequence of events from the
    initial state, each fact is what the last event that speaks of it said:
    the owner's pause is governed only by operator pauses, resumes and its own
    expiry, a system pause only by lock/suspend, wake and resumes, and a
    source's state and switch only by that source's own events. *)
Theorem reducer_refines_history (events : list AppEvent) :
  abstracts (rev events) (run_events new_state events).
Proof.
  rewrite <-(app_nil_r (rev events)). apply abstracts_run. repeat split.
  all: by intros [].
Qed.

(** The two pauses are held apart: whatever else happens, an owner's
    pause lasts until an owner resume, its expiry, or another owner pause, and
    the phase stays [Paused] meanwhile. In particular an unlock or wake
    ([SystemResumed]) never ends it. *)
Theorem owner_pause_is_held (s : StateMachine) (p : OwnerPause) (events : list AppEvent)
    (Hp : owner_pause s = Some p) (Hev : Forall (λ e, says_owner e = None) events) :
  owner_pause (run_events s events) = Some p ∧ phase (run_events s events) = Paused.
Proof.
  assert (H : owner_pause (run_events s events) = Some p).
  { revert s Hp. induction Hev as [|e events He _ IH]; intros s Hp; [done|].
    cbn [run_events]. apply IH. rewrite reduce_run; cbn. destruct s.
    destruct e as [|[]| | | | |[[] ? ?]|[]| |[] ?]; done. }
  split; [done|]. apply phase_paused_iff. left. rewrite H. eauto.
Qed.

Lemma owner_pause_is_held_witness :
  owner_pause (run_events (apply_event (RequestedPause Operator (Some 900%Z)) new_state)
    [RequestedStart; RequestedPause SessionLocked None; SystemResumed]) =
  Some (mkOwnerPause (Some 900%Z)).
Proof.
  apply (owner_pause_is_held (apply_event (RequestedPause Operator (Some 900%Z)) new_state)
    (mkOwnerPause (Some 900%Z))); [reflexivity|repeat constructor].
Defined.

(** The pause detail in the health payload is present exactly while the
    computed phase is [Paused]; it names the owner's pause first, counts down
    without going negative, and shows a countdown only for an owner's timed
    pause; a pause is due to expire exactly when that countdown is over. *)
Theorem pause_snapshot_honest (s : StateMachine) (now : Z) :
  (is_Some (pause_snapshot s now) ↔ phase s = Paused) ∧
  (∀ snap n, pause_snapshot s now = Some snap → seconds_remaining snap = Some n →
     pause_reason snap = Operator ∧ (0 ≤ n)%Z ∧
     (n = 0%Z ↔ pause_due_to_expire s now = true)) ∧
  (pause_due_to_expire s now = true → phase s = Paused).
Proof.
  rewrite phase_paused_iff. unfold pause_snapshot, pause_due_to_expire.
  destruct s as [? ? ? ? ? ? [[[e|]]|] [r|] ? ? ? ? ?]; cbn;
    (split; [split; naive_solver eauto|]); (split; [|naive_solver eauto]).
  all: intros snap n [= <-]; cbn; try done; intros [= <-]; (split; [done|]);
    rewrite Z.leb_le; widths.
Qed.
