(* ===== verification/Lifecycle.v ===== *)
(** * Restart policy (crates/observer-lifecycle/src/lib.rs)

    Exponential backoff with a circuit breaker, one instance per restartable
    source and one for storage. A [Duration] is its length in nanoseconds. *)
From S2P Require Import Prelude Model.

Definition Duration : Type := Z.
Definition from_secs (s : Z) : Duration := (s * 1000000000)%Z.
Definition as_secs (d : Duration) : Z := (d / 1000000000)%Z.
(** [Duration::MAX]: [u64::MAX] seconds and 999999999 nanoseconds. *)
Definition duration_max : Duration := (u64_max * 1000000000 + 999999999)%Z.
Definition duration_saturating_mul (d : Duration) (n : Z) : Duration := Z.min (d * n) duration_max.
Definition u32_saturating_pow (b e : Z) : Z := Z.min (b ^ e) u32_max.

Record BackoffConfig : Type := mkBackoffConfig {
  initial : Duration;
  max : Duration;
  multiplier : Z;
  breaker_threshold : Z
}.

Definition default_backoff : BackoffConfig := mkBackoffConfig (from_secs 1) (from_secs 60) 2 5.

Inductive BreakerState : Type := Closed | Open.

#[global] Instance BreakerState_eq_dec : EqDecision BreakerState.
Proof. solve_decision. Defined.

Inductive RetryDecision : Type := RetryAfter (delay : Duration) | GiveUp.

Record Lifecycle : Type := mkLifecycle {
  lc_config : BackoffConfig;
  consecutive_failures : Z;
  breaker : BreakerState
}.

Definition new_lifecycle (config : BackoffConfig) : Lifecycle := mkLifecycle config 0 Closed.

Definition on_success (lc : Lifecycle) : Lifecycle := mkLifecycle (lc_config lc) 0 Closed.

Definition current_backoff (lc : Lifecycle) : Duration :=
  let exp := sat_sub (consecutive_failures lc) 1 in
  let factor := u32_saturating_pow (multiplier (lc_config lc)) exp in
  let scaled := duration_saturating_mul (initial (lc_config lc)) (Z.max factor 1) in
  if (max (lc_config lc) <? scaled)%Z then max (lc_config lc) else scaled.

Definition on_failure (lc : Lifecycle) : RetryDecision * Lifecycle :=
  let n := sat_add_u32 (consecutive_failures lc) 1 in
  if (breaker_threshold (lc_config lc) <=? n)%Z then
    (GiveUp, mkLifecycle (lc_config lc) n Open)
  else
    let lc' := mkLifecycle (lc_config lc) n (breaker lc) in
    (RetryAfter (current_backoff lc'), lc').

(** [n] failures in a row: every decision, in order, and the state after. *)
Fixpoint fail_times (n : nat) (lc : Lifecycle) : list RetryDecision * Lifecycle :=
  match n with
  | O => ([], lc)
  | S n =>
    let '(d, lc') := on_failure lc in
    let '(ds, lc'') := fail_times n lc' in (d :: ds, lc'')
  end.

(** ** Invariant: an open breaker has counted its threshold *)

Definition config_ok (c : BackoffConfig) : Prop :=
  (0 ≤ initial c)%Z ∧ (0 ≤ max c ≤ duration_max)%Z ∧ in_u32 (multiplier c) ∧ in_u32 (breaker_threshold c).

Definition lifecycle_ok (lc : Lifecycle) : Prop :=
  in_u32 (consecutive_failures lc) ∧ in_u32 (breaker_threshold (lc_config lc)) ∧
  (breaker lc = Open → (breaker_threshold (lc_config lc) ≤ consecutive_failures lc)%Z).

Lemma lifecycle_ok_new c : in_u32 (breaker_threshold c) → lifecycle_ok (new_lifecycle c).
Proof. intros H. unfold lifecycle_ok, new_lifecycle; cbn. split; [widths|done]. Qed.

Lemma lifecycle_ok_success lc : lifecycle_ok lc → lifecycle_ok (on_success lc).
Proof. intros (_ & ? & _). unfold lifecycle_ok, on_success; cbn. split; [widths|done]. Qed.

(** The counter after a failure, without its width constants. *)
Lemma sat_succ_u32 k : in_u32 k → in_u32 (sat_add_u32 k 1) ∧ (k ≤ sat_add_u32 k 1)%Z.
Proof. widths. Qed.

Lemma lifecycle_ok_failure lc : lifecycle_ok lc → lifecycle_ok (on_failure lc).2.
Proof.
  intros (Hc & Ht & Ho). unfold on_failure, lifecycle_ok.
  destruct (sat_succ_u32 _ Hc) as [Hr Hle]. revert Hr Hle.
  generalize (sat_add_u32 (consecutive_failures lc) 1). intros n Hr Hle.
  destruct (Z.leb_spec (breaker_threshold (lc_config lc)) n); simpl; split_and!; try done.
  intros Hb. specialize (Ho Hb). lia.
Qed.

(** Once a failure makes the policy give up, only a success re-arms it. *)
Lemma on_failure_open lc :
  lifecycle_ok lc → breaker lc = Open → (on_failure lc).1 = GiveUp ∧ breaker (on_failure lc).2 = Open.
Proof.
  intros (Hc & Ht & Ho) Hb. specialize (Ho Hb). unfold on_failure.
  destruct (sat_succ_u32 _ Hc) as [_ Hle]. revert Hle.
  generalize (sat_add_u32 (consecutive_failures lc) 1). intros n Hle.
  destruct (Z.leb_spec (breaker_threshold (lc_config lc)) n); simpl; [done|lia].
Qed.

Lemma on_failure_decision lc d :
  (on_failure lc).1 = RetryAfter d → breaker (on_failure lc).2 = breaker lc.
Proof. unfold on_failure. by destruct (_ <=? _)%Z. Qed.

Lemma on_failure_giveup lc : (on_failure lc).1 = GiveUp → breaker (on_failure lc).2 = Open.
Proof. unfold on_failure. by destruct (_ <=? _)%Z. Qed.

Lemma on_failure_config lc : lc_config (on_failure lc).2 = lc_config lc.
Proof. unfold on_failure. by destruct (_ <=? _)%Z. Qed.

Lemma current_backoff_bound lc : (current_backoff lc ≤ max (lc_config lc))%Z.
Proof.
  unfold current_backoff. destruct (Z.ltb_spec (max (lc_config lc))
    (duration_saturating_mul (initial (lc_config lc))
       (Z.max (u32_saturating_pow (multiplier (lc_config lc)) (sat_sub (consecutive_failures lc) 1)) 1)));
    lia.
Qed.

(** What the [i]-th failure in a row (from 1) decides, in closed form. *)
Definition decision_at (c : BackoffConfig) (i : Z) : RetryDecision :=
  if (breaker_threshold c <=? i)%Z then GiveUp
  else RetryAfter (Z.min (max c) (initial c * Z.max 1 (Z.min (multiplier c ^ (i - 1)) u32_max))).

Lemma current_backoff_closed c i b :
  config_ok c → (1 ≤ i)%Z →
  current_backoff (mkLifecycle c i b) =
  Z.min (max c) (initial c * Z.max 1 (Z.min (multiplier c ^ (i - 1)) u32_max)).
Proof.
  intros (Hi & Hm & _) ?. unfold current_backoff; cbn.
  unfold sat_sub, u32_saturating_pow, duration_saturating_mul.
  replace (Z.max (i - 1) 0) with (i - 1)%Z by lia.
  generalize (multiplier c ^ (i - 1))%Z. intros f. rewrite (Z.max_comm _ 1).
  generalize (Z.max 1 (Z.min f u32_max)). intros g. generalize (initial c * g)%Z. intros s.
  destruct (Z.ltb_spec (max c) (Z.min s duration_max)); lia.
Qed.

Lemma on_failure_closed c k b :
  config_ok c → (0 ≤ k < u32_max)%Z →
  (on_failure (mkLifecycle c k b)).1 = decision_at c (k + 1) ∧
  ∃ b', (on_failure (mkLifecycle c k b)).2 = mkLifecycle c (k + 1) b'.
Proof.
  intros Hc Hk. unfold on_failure, decision_at; cbn.
  replace (sat_add_u32 k 1) with (k + 1)%Z by widths.
  destruct (_ <=? _)%Z; cbn; [by eauto|]. rewrite current_backoff_closed by (done || lia). eauto.
Qed.

Lemma fail_times_closed c n k b :
  config_ok c → (0 ≤ k)%Z → (k + Z.of_nat n ≤ u32_max)%Z →
  (fail_times n (mkLifecycle c k b)).1 = (λ i, decision_at c (k + Z.of_nat i)) <$> seq 1 n.
Proof.
  intros Hc. revert k b. induction n as [|n IH]; intros k b Hk Hn; [done|].
  cbn [fail_times]. destruct (on_failure_closed c k b) as [Hd [b' Hb']]; [done|lia|].
  destruct (on_failure _) as [d lc']; cbn in Hd, Hb'. subst.
  specialize (IH (k + 1)%Z b' ltac:(lia) ltac:(lia)).
  destruct (fail_times n _) as [ds lc'']; cbn in *. f_equal.
  rewrite IH, <-(fmap_S_seq 1 n), <-list_fmap_compose. apply list_fmap_ext. intros i x _; cbn.
  f_equal. lia.
Qed.

(** ** Properties *)

(** The whole retry schedule of a source that keeps failing: the [i]-th
    consecutive failure waits min(max, initial * multiplier^(i-1)) while [i]
    is below the breaker threshold and gives up from the threshold on, for
    every number of failures a [u32] counter can hold; the factor saturates at
    [u32::MAX] and is at least 1, and nothing overflows. *)
Theorem retry_schedule (c : BackoffConfig) (n : nat) (Hc : config_ok c)
    (Hn : (Z.of_nat n ≤ u32_max)%Z) :
  (fail_times n (new_lifecycle c)).1 = (λ i, decision_at c (Z.of_nat i)) <$> seq 1 n.
Proof. unfold new_lifecycle. by rewrite fail_times_closed by (done || lia). Qed.

Lemma retry_schedule_witness :
  (fail_times 6 (new_lifecycle default_backoff)).1 =
  [RetryAfter (from_secs 1); RetryAfter (from_secs 2); RetryAfter (from_secs 4);
   RetryAfter (from_secs 8); GiveUp; GiveUp].
Proof.
  rewrite (retry_schedule default_backoff 6); [reflexivity| |widths].
  unfold config_ok; cbn; unfold from_secs, duration_max; widths.
Defined.
