(* ===== verification/Recovery.v ===== *)
(** * Incomplete-segment recovery (crates/observer-recovery/src/lib.rs)

    [recover_all] over the [RecoveryFs] seam. The last section shows what it
    does to any filesystem by an invariance argument: whatever sealing usable
    segments and setting unusable ones aside keep, recovery keeps. *)
From Stdlib Require Import String.
From S2P Require Import Prelude Model.

Local Open Scope list_scope.

Record StaleSegment : Type := mkStaleSegment {
  stale_key : SegmentKey;
  stale_path : string;
  has_usable_data : bool
}.

Inductive RecoveryOutcome : Type :=
| Finalized (key : SegmentKey)
| Quarantined (key : SegmentKey)
| Deferred (key : SegmentKey).

#[global] Instance RecoveryOutcome_eq_dec : EqDecision RecoveryOutcome.
Proof. solve_decision. Defined.

Class RecoveryFs (F : Type) : Type := {
  rfs_error : Type;
  scan_incomplete : M F (result (list StaleSegment) rfs_error);
  rfs_finalize : StaleSegment → M F (result unit rfs_error);
  quarantine : StaleSegment → M F (result unit rfs_error)
}.

Section recovery.
Context {F : Type} `{RecoveryFs F}.

(** The loop of [recover_all]; [?] on a failed quarantine ends it. *)
Fixpoint recover_each (stale : list StaleSegment) (outcomes : list RecoveryOutcome)
    : M F (result (list RecoveryOutcome) rfs_error) :=
  match stale with
  | [] => mret (Ok outcomes)
  | seg :: stale =>
    if has_usable_data seg then
      r ← rfs_finalize seg;
      if is_ok r then recover_each stale (outcomes ++ [Finalized (stale_key seg)])
      else recover_each stale (outcomes ++ [Deferred (stale_key seg)])
    else
      r ← quarantine seg;
      match r with
      | Err e => mret (Err e)
      | Ok _ => recover_each stale (outcomes ++ [Quarantined (stale_key seg)])
      end
  end.

Definition recover_all : M F (result (list RecoveryOutcome) rfs_error) :=
  r ← scan_incomplete;
  match r with
  | Err e => mret (Err e)
  | Ok stale => recover_each stale []
  end.

(** The outcome recovery may report for a stale segment. *)
Definition outcome_fits (seg : StaleSegment) (o : RecoveryOutcome) : Prop :=
  if has_usable_data seg
  then o = Finalized (stale_key seg) ∨ o = Deferred (stale_key seg)
  else o = Quarantined (stale_key seg).

Lemma recover_each_fits stale outs fs outs' :
  (recover_each stale outs fs).1 = Ok outs' →
  ∃ new, outs' = outs ++ new ∧ Forall2 outcome_fits stale new.
Proof.
  revert outs fs. induction stale as [|seg stale IH]; intros outs fs; cbn.
  { intros [= <-]. exists []. by rewrite app_nil_r. }
  assert (Hnext : ∀ o fs', outcome_fits seg o → (recover_each stale (outs ++ [o]) fs').1 = Ok outs' →
    ∃ new, outs' = outs ++ new ∧ Forall2 outcome_fits (seg :: stale) new).
  { intros o fs' Ho Hr. destruct (IH _ _ Hr) as (new & -> & Hnew).
    exists (o :: new). by rewrite <-app_assoc; auto. }
  destruct (has_usable_data seg) eqn:Hu; rewrite bind_run.
  - destruct (is_ok _); apply Hnext; unfold outcome_fits; rewrite Hu; auto.
  - destruct (_ fs).1; [|done]. apply Hnext. unfold outcome_fits. by rewrite Hu.
Qed.

Lemma recover_each_pres (I : F → Prop) stale outs :
  (∀ seg, has_usable_data seg = true → pres I (rfs_finalize seg)) →
  (∀ seg, has_usable_data seg = false → pres I (quarantine seg)) →
  pres I (recover_each stale outs).
Proof.
  intros Hf Hq. revert outs. induction stale as [|seg stale IH]; intros outs; cbn.
  { apply pres_ret. }
  destruct (has_usable_data seg) eqn:Hu; apply pres_bind; auto; intros r.
  - destruct (is_ok r); apply IH.
  - destruct r; [apply IH|apply pres_ret].
Qed.

(** ** Properties *)

(** Recovery accounts for every stale segment, once and in scan order: a
    segment with usable data is sealed or deferred to the storage retry loop,
    never quarantined, and only one without usable data is quarantined. *)
Theorem recovery_accounts_for_every_segment (fs fs1 : F) (stale : list StaleSegment)
    (outs : list RecoveryOutcome)
    (Hscan : scan_incomplete fs = (Ok stale, fs1)) (Hok : (recover_all fs).1 = Ok outs) :
  Forall2 outcome_fits stale outs ∧
  Forall (λ o, match o with
               | Quarantined k => ∃ seg, seg ∈ stale ∧ stale_key seg = k ∧ has_usable_data seg = false
               | _ => True
               end) outs.
Proof.
  assert (Hf : Forall2 outcome_fits stale outs).
  { unfold recover_all in Hok. rewrite bind_run, Hscan in Hok; cbn in Hok.
    by destruct (recover_each_fits _ _ _ _ Hok) as (new & -> & Hnew). }
  split; [done|]. apply Forall_forall. intros o Ho.
  apply list_elem_of_In, (In_nth _ _ o) in Ho as (i & Hi & Hn).
  destruct (lookup_lt_is_Some_2 outs i Hi) as [o' Ho'].
  rewrite (nth_lookup_Some _ _ _ _ Ho') in Hn. subst o'.
  destruct (Forall2_lookup_r _ _ _ _ _ Hf Ho') as (seg & Hseg & Hfit).
  destruct o as [|k|]; [done| |done]. exists seg. unfold outcome_fits in Hfit.
  split; [by eapply list_elem_of_lookup_2|].
  destruct (has_usable_data seg); [naive_solver|]. by injection Hfit as ->.
Qed.

(** What recovery can do to storage: any property of the filesystem that
    the scan, the sealing of usable segments and the quarantine of unusable
    segments each keep is kept by the whole recovery, on every path. Usable
    bytes are therefore never moved to quarantine. *)
Theorem recovery_confined (I : F → Prop)
    (Hscan : pres I scan_incomplete)
    (Hfin : ∀ seg, has_usable_data seg = true → pres I (rfs_finalize seg))
    (Hquar : ∀ seg, has_usable_data seg = false → pres I (quarantine seg)) :
  pres I recover_all.
Proof.
  apply pres_bind; [done|]. intros []; [|apply pres_ret]. by apply recover_each_pres.
Qed.
End recovery.

(** ** Witnesses: a filesystem that records its calls *)

Record log_fs : Type := mkLogFs {
  log_stale : list StaleSegment;
  log_finalized : list StaleSegment;
  log_quarantined : list StaleSegment
}.

#[local] Instance log_recovery : RecoveryFs log_fs := {|
  rfs_error := unit;
  scan_incomplete := λ fs, (Ok (log_stale fs), fs);
  rfs_finalize := λ seg fs,
    (Ok tt, mkLogFs (log_stale fs) (log_finalized fs ++ [seg]) (log_quarantined fs));
  quarantine := λ seg fs,
    (Ok tt, mkLogFs (log_stale fs) (log_finalized fs) (log_quarantined fs ++ [seg]))
|}.

Definition two_stale : list StaleSegment :=
  [mkStaleSegment (mkSegmentKey 300 1) "/seg/1.incomplete" true;
   mkStaleSegment (mkSegmentKey 600 2) "/seg/2.incomplete" false].

Lemma recovery_accounts_for_every_segment_witness :
  Forall2 outcome_fits two_stale [Finalized (mkSegmentKey 300 1); Quarantined (mkSegmentKey 600 2)].
Proof.
  refine (proj1 (recovery_accounts_for_every_segment (mkLogFs two_stale [] [])
    (mkLogFs two_stale [] []) two_stale _ _ _)); reflexivity.
Defined.

Lemma recovery_confined_witness :
  Forall (λ seg, has_usable_data seg = false) (log_quarantined (recover_all (mkLogFs two_stale [] [])).2).
Proof.
  refine (recovery_confined (λ fs, Forall (λ seg, has_usable_data seg = false) (log_quarantined fs))
    _ _ _ (mkLogFs two_stale [] []) _).
  - by intros fs.
  - by intros seg _ fs.
  - intros seg Hseg fs H; cbn. by apply Forall_app; split; [|constructor].
  - constructor.
Defined.
