(* ===== verification/Exclusion.v ===== *)
(** * Capture exclusion (crates/observer-exclusion/src/lib.rs)

    The owner's exclusion rules, the fail-closed verdict for one frame and
    the redaction of a packed 4-byte-per-pixel buffer. *)
From Stdlib Require Import Ascii String.
From S2P Require Import Prelude RustStr Model.

Local Open Scope nat_scope.
Local Open Scope list_scope.

Record ExclusionRules : Type := mkExclusionRules {
  excluded_exes : list string;
  title_patterns : list string;
  exclude_private_browsing : bool
}.

#[global] Instance ExclusionRules_eq_dec : EqDecision ExclusionRules.
Proof. solve_decision. Defined.

Definition PASSWORD_MANAGER_EXES : list string :=
  ["1password.exe"; "bitwarden.exe"; "keepass.exe"; "keepassxc.exe";
   "keeperpasswordmanager.exe"; "lastpass for desktop.exe"; "protonpass.exe"].

Definition default_rules : ExclusionRules := mkExclusionRules PASSWORD_MANAGER_EXES [] true.

Definition list_is_empty {A} (l : list A) : bool := match l with [] => true | _ => false end.

Definition rules_is_active (r : ExclusionRules) : bool :=
  negb (list_is_empty (excluded_exes r)) || negb (list_is_empty (title_patterns r))
  || exclude_private_browsing r.

Definition dedupe_lower (values : list string) : list string :=
  foldl (λ out v,
    let v := to_ascii_lowercase (trim v) in
    if is_empty v || bool_decide (v ∈ out) then out else out ++ [v]) [] values.

Definition normalized (r : ExclusionRules) : ExclusionRules :=
  mkExclusionRules (dedupe_lower (excluded_exes r)) (dedupe_lower (title_patterns r))
    (exclude_private_browsing r).

Definition with_password_managers (r : ExclusionRules) : ExclusionRules :=
  normalized (mkExclusionRules (excluded_exes r ++ PASSWORD_MANAGER_EXES) (title_patterns r)
    (exclude_private_browsing r)).

Record Rect : Type := mkRect {
  rect_x : Z;
  rect_y : Z;
  rect_width : Z;
  rect_height : Z
}.

Record WindowInfo : Type := mkWindowInfo {
  window_exe_name : string;
  window_title : string;
  window_bounds : option Rect;
  identity_uncertain : bool
}.

Inductive ExclusionDecision : Type := Pass | Redact (rects : list Rect) | Drop.

(** U+200B, which Edge writes inside its own name, in UTF-8. *)
Definition zero_width_space : string := ws_bytes [226; 128; 139]%Z.

Definition private_title_suffix (exe_name : string) : option string :=
  if String.eqb exe_name "msedge.exe" then
    Some ("[inprivate] - microsoft" +:+ (zero_width_space +:+ " edge"))
  else if String.eqb exe_name "firefox.exe" then Some "mozilla firefox private browsing"
  else None.

Definition is_private_window (exe_name title : string) : bool :=
  match private_title_suffix (to_ascii_lowercase exe_name) with
  | None => false
  | Some suffix => ends_with (to_ascii_lowercase title) suffix
  end.

Definition exe_excluded (exe_name : string) (excluded : list string) : bool :=
  if is_empty exe_name then false
  else existsb (λ x, eq_ignore_ascii_case x exe_name) excluded.

Definition title_excluded (title : string) (patterns : list string) : bool :=
  if is_empty title || list_is_empty patterns then false
  else
    let title := to_ascii_lowercase title in
    existsb (λ p, negb (is_empty p) && contains title (to_ascii_lowercase p)) patterns.

Definition foreground_excluded (rules : ExclusionRules) (exe_name title : string) : bool :=
  exe_excluded exe_name (excluded_exes rules)
  || title_excluded title (title_patterns rules)
  || (exclude_private_browsing rules && is_private_window exe_name title).

Definition window_excluded (rules : ExclusionRules) (w : WindowInfo) : bool :=
  foreground_excluded rules (window_exe_name w) (window_title w).

(** The loop of [evaluate]: [None] is its early [return Drop]. *)
Fixpoint evaluate_windows (rules : ExclusionRules) (windows : list WindowInfo) (rects : list Rect)
    : option (list Rect) :=
  match windows with
  | [] => Some rects
  | w :: windows =>
    if identity_uncertain w then None
    else if window_excluded rules w then
      match window_bounds w with
      | Some rect => evaluate_windows rules windows (rects ++ [rect])
      | None => None
      end
    else evaluate_windows rules windows rects
  end.

Definition evaluate (rules : ExclusionRules) (windows : list WindowInfo) : ExclusionDecision :=
  if negb (rules_is_active rules) then Pass
  else match evaluate_windows rules windows [] with
       | None => Drop
       | Some [] => Pass
       | Some rects => Redact rects
       end.

(** The four stores into one pixel, behind the per-pixel bounds check. *)
Definition black_pixel (i : Z) (px : list Z) : list Z :=
  if (wrap_u64 (i + 4) <=? Z.of_nat (length px))%Z then
    <[Z.to_nat (wrap_u64 (i + 3)) := 255%Z]> (<[Z.to_nat (wrap_u64 (i + 2)) := 0%Z]>
      (<[Z.to_nat (wrap_u64 (i + 1)) := 0%Z]> (<[Z.to_nat i := 0%Z]> px)))
  else px.

Definition black_row (row x0 x1 : Z) (px : list Z) : list Z :=
  foldl (λ px x, black_pixel (wrap_u64 (row + wrap_u64 (x * 4))) px) px (seqZ x0 (x1 - x0)).

Definition redact_rect (width height : Z) (px : list Z) (rect : Rect) : list Z :=
  let stride := wrap_u64 (width * 4) in
  let x0 := Z.max (rect_x rect) 0 in
  let y0 := Z.max (rect_y rect) 0 in
  let x1 := clampZ 0 width (rect_x rect + rect_width rect) in
  let y1 := clampZ 0 height (rect_y rect + rect_height rect) in
  if ((x1 <=? x0) || (y1 <=? y0))%Z then px
  else foldl (λ px y, black_row (wrap_u64 (y * stride)) x0 x1 px) px (seqZ y0 (y1 - y0)).

Definition apply_redaction (px : list Z) (width height : Z) (_format : ScreenPixelFormat)
    (rects : list Rect) : list Z :=
  if ((width =? 0) || (height =? 0))%Z || list_is_empty rects then px
  else foldl (redact_rect width height) px rects.

(** ** Verdict lemmas *)

Lemma inactive_excludes_nothing rules exe title :
  rules_is_active rules = false → foreground_excluded rules exe title = false.
Proof.
  destruct rules as [[|] [|] []]; try done. intros _.
  unfold foreground_excluded, exe_excluded, title_excluded; cbn.
  by destruct (is_empty exe), (is_empty title).
Qed.

Definition blocks_frame (rules : ExclusionRules) (w : WindowInfo) : Prop :=
  identity_uncertain w = true ∨ (window_excluded rules w = true ∧ window_bounds w = None).

Lemma evaluate_windows_None rules ws rects :
  evaluate_windows rules ws rects = None ↔ Exists (blocks_frame rules) ws.
Proof.
  revert rects. induction ws as [|w ws IH]; intros rects; cbn.
  { by rewrite Exists_nil. }
  rewrite Exists_cons. unfold blocks_frame at 1.
  destruct (identity_uncertain w); [naive_solver|].
  destruct (window_excluded rules w); [|rewrite IH; naive_solver].
  destruct (window_bounds w); [rewrite IH|]; naive_solver.
Qed.

Lemma evaluate_windows_Some rules ws rects rects' :
  evaluate_windows rules ws rects = Some rects' →
  rects' = rects ++ omap (λ w, if window_excluded rules w then window_bounds w else None) ws ∧
  Forall (λ w, identity_uncertain w = false ∧
    (window_excluded rules w = true → is_Some (window_bounds w))) ws.
Proof.
  revert rects. induction ws as [|w ws IH]; intros rects; cbn.
  { intros [= ->]. by rewrite app_nil_r. }
  destruct (identity_uncertain w) eqn:Hu; [done|].
  destruct (window_excluded rules w) eqn:He.
  - destruct (window_bounds w) as [r|] eqn:Hb; [|done]. intros [-> HF]%IH.
    rewrite <-app_assoc. split; [done|]. constructor; [|done]. rewrite Hu, Hb; eauto.
  - intros [-> HF]%IH. split; [done|]. constructor; [|done]. by rewrite Hu, He.
Qed.

Lemma evaluate_redact rules ws rects :
  evaluate rules ws = Redact rects →
  (∀ w, w ∈ ws → identity_uncertain w = false ∧
     (window_excluded rules w = true → ∃ r, window_bounds w = Some r ∧ r ∈ rects)) ∧
  (∀ r, r ∈ rects → ∃ w, w ∈ ws ∧ window_excluded rules w = true ∧ window_bounds w = Some r).
Proof.
  unfold evaluate. destruct (negb _); [done|].
  destruct (evaluate_windows rules ws []) as [rects'|] eqn:Hev; [|done].
  intros H. assert (rects' = rects) as -> by (destruct rects'; congruence). clear H.
  apply evaluate_windows_Some in Hev as [Hr HF]. rewrite Forall_forall in HF. cbn in Hr. split.
  - intros w Hw. destruct (HF w Hw) as [Hu Hb]. split; [done|]. intros He.
    destruct (Hb He) as [r Hbr]. exists r. split; [done|].
    rewrite Hr. apply list_elem_of_omap. exists w. by rewrite He.
  - intros r. rewrite Hr, list_elem_of_omap. intros (w & Hw & He).
    exists w. destruct (window_excluded rules w); naive_solver.
Qed.

(** ** Pixel lemmas *)

(** The byte at [j] of a buffer in which the pixel at byte [i] is black. *)
Definition black_byte (c : nat) : Z := if decide (c = 3) then 255%Z else 0%Z.

Lemma length_black_pixel i px : length (black_pixel i px) = length px.
Proof. unfold black_pixel. case_match; [|done]. by rewrite !length_insert. Qed.

Lemma black_pixel_lookup (i : nat) px j :
  (Z.of_nat i + 4 ≤ u64_max)%Z →
  black_pixel (Z.of_nat i) px !! j =
  if decide (i ≤ j < i + 4 ∧ i + 4 ≤ length px) then Some (black_byte (j - i)) else px !! j.
Proof.
  intros Hi. unfold black_pixel, black_byte.
  rewrite !wrap_u64_id by widths.
  replace (Z.to_nat (Z.of_nat i + 3)) with (i + 3)%nat by lia.
  replace (Z.to_nat (Z.of_nat i + 2)) with (i + 2)%nat by lia.
  replace (Z.to_nat (Z.of_nat i + 1)) with (i + 1)%nat by lia. rewrite Nat2Z.id.
  destruct (Z.leb_spec (Z.of_nat i + 4) (Z.of_nat (length px))).
  - rewrite !list_lookup_insert, !length_insert.
    repeat case_decide; try lia; try done; f_equal; lia.
  - rewrite decide_False by lia. done.
Qed.

(** Every redaction is a sequence of blackened pixels, by pixel number. *)
Definition black_pixels (ps : list Z) (px : list Z) : list Z :=
  foldl (λ px p, black_pixel (4 * p) px) px ps.

Lemma black_pixels_app ps qs px : black_pixels (ps ++ qs) px = black_pixels qs (black_pixels ps px).
Proof. apply foldl_app. Qed.

Lemma black_pixels_concat {A} (f : A → list Z) (g : list Z → A → list Z) l px :
  (∀ px a, a ∈ l → g px a = black_pixels (f a) px) →
  foldl g px l = black_pixels (concat (f <$> l)) px.
Proof.
  revert px. induction l as [|a l IH]; intros px Hg; [done|].
  cbn [foldl fmap list_fmap concat]. rewrite black_pixels_app, <-Hg by set_solver. apply IH. set_solver.
Qed.

Lemma length_black_pixels ps px : length (black_pixels ps px) = length px.
Proof. revert px. induction ps as [|p ps IH]; intros px; [done|].
  etrans; [apply IH|]. apply length_black_pixel. Qed.

Lemma black_pixels_lookup ps px j :
  Forall (λ p, (0 ≤ p ∧ 4 * p + 4 ≤ u64_max)%Z) ps →
  black_pixels ps px !! j =
  if decide (Z.of_nat (j `div` 4) ∈ ps ∧ 4 * (j `div` 4) + 4 ≤ length px)
  then Some (black_byte (j `mod` 4)) else px !! j.
Proof.
  intros HF. revert px. induction HF as [|p ps Hp _ IH]; intros px; cbn [black_pixels foldl].
  { rewrite decide_False by set_solver. done. }
  fold (black_pixels ps (black_pixel (4 * p) px)). rewrite IH, length_black_pixel.
  replace (4 * p)%Z with (Z.of_nat (4 * Z.to_nat p)) by lia.
  rewrite black_pixel_lookup by lia.
  pose proof (Nat.div_mod_eq j 4) as Hj. pose proof (Nat.mod_upper_bound j 4 ltac:(lia)) as Hm.
  destruct (decide (Z.of_nat (j `div` 4) = p)) as [Hq|Hq].
  - repeat case_decide; try done; try (exfalso; set_solver by lia);
      try (f_equal; f_equal; lia); exfalso; naive_solver lia.
  - assert (¬ (4 * Z.to_nat p ≤ j < 4 * Z.to_nat p + 4)) by lia.
    repeat case_decide; try done; exfalso; set_solver.
Qed.

(** The pixel numbers of a clamped rectangle. *)
Definition row_pixels (w x0 x1 y : Z) : list Z := (λ x, y * w + x)%Z <$> seqZ x0 (x1 - x0).

Definition rect_pixels (w h : Z) (r : Rect) : list Z :=
  let x0 := Z.max (rect_x r) 0 in
  let y0 := Z.max (rect_y r) 0 in
  let x1 := clampZ 0 w (rect_x r + rect_width r) in
  let y1 := clampZ 0 h (rect_y r + rect_height r) in
  concat (row_pixels w x0 x1 <$> seqZ y0 (y1 - y0)).

(** Pixel [(x, y)] of the frame lies in the rectangle. *)
Definition in_rect (x y : Z) (r : Rect) : Prop :=
  (rect_x r ≤ x < rect_x r + rect_width r ∧ rect_y r ≤ y < rect_y r + rect_height r)%Z.

Lemma elem_of_rect_pixels w h r p :
  (0 < w)%Z → (0 < h)%Z →
  p ∈ rect_pixels w h r ↔ ∃ x y, p = (y * w + x)%Z ∧ (0 ≤ x < w ∧ 0 ≤ y < h)%Z ∧ in_rect x y r.
Proof.
  intros Hw Hh. unfold rect_pixels, row_pixels, in_rect. rewrite list_elem_of_In, in_concat.
  setoid_rewrite <-list_elem_of_In. split.
  - intros (row & (y & -> & Hy%elem_of_seqZ)%list_elem_of_fmap & (x & -> & Hx%elem_of_seqZ)%list_elem_of_fmap).
    exists x, y. unfold clampZ in *. lia.
  - intros (x & y & -> & Hxy & Hr). eexists. split.
    + apply list_elem_of_fmap. exists y. split; [done|]. apply elem_of_seqZ. unfold clampZ. lia.
    + apply list_elem_of_fmap. exists x. split; [done|]. apply elem_of_seqZ. unfold clampZ. lia.
Qed.

Lemma pixel_bound w h x y :
  (0 ≤ x < w → 0 ≤ y < h → 4 * (w * h) ≤ u64_max → 0 ≤ y * w + x ∧ 4 * (y * w + x) + 4 ≤ u64_max)%Z.
Proof. intros. assert (y * w + x < w * h)%Z by nia. nia. Qed.

Lemma black_row_pixels w h x0 x1 y px :
  (0 ≤ x0)%Z → (x1 ≤ w)%Z → (0 ≤ y < h)%Z → (4 * (w * h) ≤ u64_max)%Z →
  black_row (wrap_u64 (y * wrap_u64 (w * 4))) x0 x1 px = black_pixels (row_pixels w x0 x1 y) px.
Proof.
  intros Hx0 Hx1 Hy Hwh. unfold black_row, row_pixels, black_pixels. rewrite foldl_fmap.
  assert (Hxs : Forall (λ x, 0 ≤ x < w)%Z (seqZ x0 (x1 - x0))).
  { apply Forall_forall. intros x ?%elem_of_seqZ. lia. }
  revert px. induction Hxs as [|x xs Hx _ IH]; intros px; cbn [foldl]; [done|].
  rewrite IH. do 2 f_equal.
  destruct (pixel_bound w h x y) as [? ?]; [lia..|].
  assert (0 ≤ y * w)%Z by nia. assert (w * 4 ≤ u64_max)%Z by nia.
  rewrite (wrap_u64_id (w * 4)) by (unfold in_u64; lia).
  rewrite (wrap_u64_id (y * (w * 4))) by (unfold in_u64; lia).
  rewrite (wrap_u64_id (x * 4)) by (unfold in_u64; lia).
  rewrite wrap_u64_id by (unfold in_u64; lia). lia.
Qed.

Lemma redact_rect_pixels w h px r :
  (0 < w)%Z → (0 < h)%Z → (4 * (w * h) ≤ u64_max)%Z →
  redact_rect w h px r = black_pixels (rect_pixels w h r) px.
Proof.
  intros Hw Hh Hwh. unfold redact_rect. case_match eqn:Hempty.
  - replace (rect_pixels w h r) with (@nil Z); [done|]. symmetry.
    apply elem_of_nil_inv. intros p (x & y & -> & Hxy & Hr)%elem_of_rect_pixels; [|done..].
    unfold clampZ, in_rect in *. lia.
  - apply (black_pixels_concat (row_pixels w _ _)).
    intros px' y Hy%elem_of_seqZ. apply black_row_pixels with (h := h); unfold clampZ in *; lia.
Qed.

Lemma apply_redaction_pixels w h px fmt rects :
  (0 < w)%Z → (0 < h)%Z → (4 * (w * h) ≤ u64_max)%Z →
  apply_redaction px w h fmt rects = black_pixels (concat (rect_pixels w h <$> rects)) px.
Proof.
  intros Hw Hh Hwh. unfold apply_redaction.
  rewrite (proj2 (Z.eqb_neq w 0)), (proj2 (Z.eqb_neq h 0)) by lia. cbn [orb].
  destruct rects as [|r rects]; [done|]. cbn [list_is_empty].
  apply black_pixels_concat. intros px' a _. by apply redact_rect_pixels.
Qed.

(** Byte [j] belongs to a pixel of the frame that some rectangle covers. *)
Definition covered (w h : Z) (rects : list Rect) (j : nat) : Prop :=
  ∃ r x y, r ∈ rects ∧ Z.of_nat (j `div` 4) = (y * w + x)%Z ∧ (0 ≤ x < w ∧ 0 ≤ y < h)%Z ∧ in_rect x y r.

Lemma covered_pixels w h rects j :
  (0 < w)%Z → (0 < h)%Z →
  covered w h rects j ↔ Z.of_nat (j `div` 4) ∈ concat (rect_pixels w h <$> rects).
Proof.
  intros Hw Hh. rewrite list_elem_of_In, in_concat. setoid_rewrite <-list_elem_of_In.
  setoid_rewrite list_elem_of_fmap. split.
  - intros (r & x & y & Hr & Hj & Hxy & Hin). exists (rect_pixels w h r).
    split; [by exists r|]. apply elem_of_rect_pixels; eauto.
  - intros (ps & (r & -> & Hr) & (x & y & ?)%elem_of_rect_pixels); [|done..].
    exists r, x, y. naive_solver.
Qed.

Lemma redaction_lookup w h px fmt rects j :
  (0 < w)%Z → (0 < h)%Z → (4 * (w * h) ≤ u64_max)%Z →
  (covered w h rects j → 4 * (j `div` 4) + 4 ≤ length px →
     apply_redaction px w h fmt rects !! j = Some (black_byte (j `mod` 4))) ∧
  (¬ covered w h rects j → apply_redaction px w h fmt rects !! j = px !! j).
Proof.
  intros Hw Hh Hwh.
  assert (HF : Forall (λ p, (0 ≤ p ∧ 4 * p + 4 ≤ u64_max)%Z) (concat (rect_pixels w h <$> rects))).
  { apply Forall_forall. intros p Hp. rewrite list_elem_of_In, in_concat in Hp.
    destruct Hp as (ps & (r & -> & Hr)%list_elem_of_In%list_elem_of_fmap & Hps%list_elem_of_In).
    apply elem_of_rect_pixels in Hps as (x & y & -> & Hxy & _); [|done..].
    apply (pixel_bound w h); lia. }
  rewrite apply_redaction_pixels, black_pixels_lookup, covered_pixels by done.
  split; intros; case_decide; naive_solver.
Qed.

(** ** Normal form *)

Lemma dedupe_step_ok (out : list string) v :
  NoDup out → Forall (λ v, is_empty v = false ∧ to_ascii_lowercase v = v) out →
  let out' := let v := to_ascii_lowercase (trim v) in
              if is_empty v || bool_decide (v ∈ out) then out else out ++ [v] in
  NoDup out' ∧ Forall (λ v, is_empty v = false ∧ to_ascii_lowercase v = v) out' ∧
  (∀ u, u ∈ out → u ∈ out') ∧
  (is_empty (to_ascii_lowercase (trim v)) = false → to_ascii_lowercase (trim v) ∈ out').
Proof.
  intros Hnd HF; cbn. destruct (is_empty _) eqn:He; cbn; [done|].
  case_bool_decide as Hin; [done|]. split_and!; [|  |set_solver..].
  - apply NoDup_app. split; [done|]. split; [set_solver|]. apply NoDup_singleton.
  - apply Forall_app. split; [done|]. constructor; [|done]. by rewrite He, to_ascii_lowercase_idem.
Qed.

Lemma dedupe_lower_from values : ∀ out,
  NoDup out → Forall (λ v, is_empty v = false ∧ to_ascii_lowercase v = v) out →
  let out' := foldl (λ out v,
    let v := to_ascii_lowercase (trim v) in
    if is_empty v || bool_decide (v ∈ out) then out else out ++ [v]) out values in
  NoDup out' ∧ Forall (λ v, is_empty v = false ∧ to_ascii_lowercase v = v) out' ∧
  (∀ u, u ∈ out → u ∈ out') ∧
  (∀ v, v ∈ values → is_empty (to_ascii_lowercase (trim v)) = false →
     to_ascii_lowercase (trim v) ∈ out').
Proof.
  induction values as [|v values IH]; intros out Hnd HF; cbn [foldl].
  { split_and!; [done..|set_solver]. }
  destruct (dedupe_step_ok out v Hnd HF) as (Hnd' & HF' & Hkeep & Hv).
  destruct (IH _ Hnd' HF') as (? & ? & Hkeep' & Hvs). split_and!; [done..| |].
  - intros u Hu. by apply Hkeep', Hkeep.
  - intros u [->|Hu]%elem_of_cons He; [apply Hkeep', Hv, He|by apply Hvs].
Qed.

Lemma exe_excluded_member exe out :
  is_empty exe = false → to_ascii_lowercase exe ∈ out → exe_excluded exe out = true.
Proof.
  intros He Hin. unfold exe_excluded. rewrite He. apply existsb_exists.
  exists (to_ascii_lowercase exe). split; [by apply list_elem_of_In|].
  apply eq_ignore_ascii_case_true, to_ascii_lowercase_idem.
Qed.

(** ** Properties *)

(** C39. The frame verdict fails closed. A frame passes only when no window on
    it is excluded by the rules (and, while any rule is set, none is
    unreadable); it is redacted only when every window is identified and every
    excluded one has its bounds in the list, which holds nothing else; and it
    is dropped exactly when a rule is set and some window is unreadable, or
    excluded with unknown geometry. *)
Theorem evaluate_fail_closed (rules : ExclusionRules) (ws : list WindowInfo) :
  (evaluate rules ws = Pass →
     ∀ w, w ∈ ws → window_excluded rules w = false ∧
       (rules_is_active rules = true → identity_uncertain w = false)) ∧
  (∀ rects, evaluate rules ws = Redact rects →
     (∀ w, w ∈ ws → identity_uncertain w = false ∧
        (window_excluded rules w = true → ∃ r, window_bounds w = Some r ∧ r ∈ rects)) ∧
     (∀ r, r ∈ rects → ∃ w, w ∈ ws ∧ window_excluded rules w = true ∧ window_bounds w = Some r)) ∧
  (evaluate rules ws = Drop ↔
     rules_is_active rules = true ∧ ∃ w, w ∈ ws ∧ blocks_frame rules w).
Proof.
  unfold evaluate. destruct (rules_is_active rules) eqn:Hact; cbn [negb].
  2:{ split_and!; [|done|split; [done|by intros []]]. intros _ w _. split; [|done].
      by apply inactive_excludes_nothing. }
  destruct (evaluate_windows rules ws []) as [rects|] eqn:Hev.
  - apply evaluate_windows_Some in Hev as Hs. destruct Hs as [Hr HF].
    rewrite Forall_forall in HF. cbn in Hr. split_and!.
    + destruct rects; [|done]. intros _ w Hw. destruct (HF w Hw) as [Hu Hb]. split; [|done].
      destruct (window_excluded rules w) eqn:He; [|done]. destruct (Hb eq_refl) as [r Hbr].
      exfalso. apply (not_elem_of_nil r). rewrite Hr. apply list_elem_of_omap. exists w. by rewrite He.
    + intros rects' H. apply evaluate_redact. unfold evaluate. by rewrite Hact, Hev.
    + split; [by destruct rects|]. intros [_ (w & Hw & Hblk)].
      enough (Hn : evaluate_windows rules ws [] = None) by congruence.
      apply evaluate_windows_None, Exists_exists. eauto.
  - apply evaluate_windows_None, Exists_exists in Hev. by split_and!.
Qed.

(** C40. Redaction is complete and exact. When the verdict for a frame is
    [Redact], every pixel of the frame inside the bounds of any excluded window
    becomes opaque black, every byte outside the bounds of all excluded windows
    is untouched, and the buffer keeps its length; for any frame whose byte
    size fits [usize] and any buffer that holds the pixel. *)
Theorem excluded_pixels_never_survive (rules : ExclusionRules) (ws : list WindowInfo)
    (rects : list Rect) (w h : Z) (fmt : ScreenPixelFormat) (px : list Z)
    (Hev : evaluate rules ws = Redact rects)
    (Hw : (0 < w)%Z) (Hh : (0 < h)%Z) (Hsize : (4 * (w * h) ≤ u64_max)%Z) :
  let out := apply_redaction px w h fmt rects in
  let excluded_at x y := ∃ win r, win ∈ ws ∧ window_excluded rules win = true ∧
                           window_bounds win = Some r ∧ in_rect x y r in
  (∀ (x y c : nat), (Z.of_nat x < w)%Z → (Z.of_nat y < h)%Z → c < 4 →
     excluded_at (Z.of_nat x) (Z.of_nat y) →
     let p := 4 * (y * Z.to_nat w + x) in
     p + 4 ≤ length px → out !! (p + c) = Some (if decide (c = 3) then 255%Z else 0%Z)) ∧
  (∀ j, (∀ x y, (0 ≤ x < w)%Z → (0 ≤ y < h)%Z → Z.of_nat (j `div` 4) = (y * w + x)%Z →
           ¬ excluded_at x y) → out !! j = px !! j) ∧
  length out = length px.
Proof.
  intros out excluded_at. destruct (evaluate_redact _ _ _ Hev) as [Hall Honly]. split_and!.
  - intros x y c Hx Hy Hc (win & r & Hwin & Hex & Hb & Hin) p Hp.
    destruct (redaction_lookup w h px fmt rects (p + c)) as [Hcov _]; [done..|].
    assert (Hdiv : (p + c) `div` 4 = y * Z.to_nat w + x).
    { symmetry. apply (Nat.div_unique _ _ _ c); [done|]. unfold p. lia. }
    assert (Hmod : (p + c) `mod` 4 = c).
    { symmetry. apply (Nat.mod_unique _ _ (y * Z.to_nat w + x)); [done|]. unfold p. lia. }
    rewrite Hdiv, Hmod in Hcov. apply Hcov; [|unfold p in Hp; lia].
    destruct (proj2 (Hall win Hwin) Hex) as (r' & Hb' & Hr'). rewrite Hb in Hb'. injection Hb' as <-.
    exists r, (Z.of_nat x), (Z.of_nat y). rewrite Hdiv. split_and!; try done; lia.
  - intros j Hout. apply redaction_lookup; [done..|].
    intros (r & x & y & Hr & Hj & Hxy & Hin). destruct (Honly r Hr) as (win & ? & ? & ?).
    destruct (Hout x y); [lia..|]. by exists win, r.
  - unfold out. by rewrite apply_redaction_pixels, length_black_pixels.
Qed.

Lemma excluded_pixels_never_survive_witness :
  apply_redaction (replicate 16 9%Z) 2 2 Bgra8 [mkRect 1 (-1) 5 2] !! 7 = Some 255%Z.
Proof.
  refine (proj1 (excluded_pixels_never_survive default_rules
    [mkWindowInfo "KeePass.exe" "db" (Some (mkRect 1 (-1) 5 2)) false]
    [mkRect 1 (-1) 5 2] 2 2 Bgra8 (replicate 16 9%Z) _ _ _ _) 1 0 3 _ _ _ _ _).
  1: reflexivity. all: try lia. 1: widths.
  - exists (mkWindowInfo "KeePass.exe" "db" (Some (mkRect 1 (-1) 5 2)) false), (mkRect 1 (-1) 5 2).
    split; [by left|]. split; [reflexivity|]. split; [reflexivity|]. unfold in_rect; cbn; lia.
  - cbn; lia.
Defined.

(** Stored rules are canonical and password managers stay excluded: after
    [with_password_managers] both lists are duplicate-free, lower-case and
    without empty entries, every listed password manager is excluded in any
    letter case and under any title, and every exe the owner had excluded
    (trimmed) still is. *)
Theorem password_managers_always_excluded (rules : ExclusionRules) :
  let r := with_password_managers rules in
  NoDup (excluded_exes r) ∧ NoDup (title_patterns r) ∧
  Forall (λ v, is_empty v = false ∧ to_ascii_lowercase v = v) (excluded_exes r ++ title_patterns r) ∧
  (∀ exe title, to_ascii_lowercase exe ∈ PASSWORD_MANAGER_EXES → foreground_excluded r exe title = true) ∧
  (∀ e exe title, e ∈ excluded_exes rules → is_empty exe = false →
     to_ascii_lowercase (trim e) = to_ascii_lowercase exe → foreground_excluded r exe title = true).
Proof.
  intros r. unfold r, with_password_managers, normalized; cbn.
  destruct (dedupe_lower_from (excluded_exes rules ++ PASSWORD_MANAGER_EXES) [])
    as (Hnd & HF & _ & Hin); [constructor..|].
  destruct (dedupe_lower_from (title_patterns rules) []) as (Hnd' & HF' & _); [constructor..|].
  fold (dedupe_lower (excluded_exes rules ++ PASSWORD_MANAGER_EXES)) in *.
  fold (dedupe_lower (title_patterns rules)) in *.
  split_and!; [done..|by apply Forall_app| |]; intros.
  - unfold foreground_excluded; cbn. rewrite exe_excluded_member; [done|by destruct exe; set_solver|].
    assert (Hn : ∀ e, e ∈ PASSWORD_MANAGER_EXES →
      to_ascii_lowercase (trim e) = e ∧ is_empty (to_ascii_lowercase (trim e)) = false).
    { apply Forall_forall. by repeat constructor. }
    destruct (Hn _ H) as [He Hne]. rewrite <-He. apply Hin; [set_solver|done].
  - unfold foreground_excluded; cbn. rewrite exe_excluded_member; [done..|].
    rewrite <-H1. apply Hin; [set_solver|]. by rewrite H1, is_empty_lower.
Qed.
