(* ===== verification/Civil.v ===== *)
(** * Civil dates (crates/observer-pl/src/civil.rs)

    Epoch to calendar conversion by pure integer arithmetic, its inverse and
    the two key strings the journal validates. Rust's [/] on [i64] is
    truncated division, [Z.quot]; [i64] results are wrapped where the source's
    arithmetic can leave the width. The reference is the Gregorian calendar
    itself, one day at a time. *)
From Stdlib Require Import Ascii String.
From S2P Require Import Prelude RustStr.

Local Open Scope Z_scope.

Record Civil : Type := mkCivil {
  year : Z; month : Z; day : Z; hour : Z; minute : Z; second : Z
}.

#[global] Instance Civil_eq_dec : EqDecision Civil.
Proof. solve_decision. Defined.

Definition utc_parts (epoch_secs : Z) : Civil :=
  let days := epoch_secs / 86400 in
  let rem := epoch_secs mod 86400 in
  let hour := rem / 3600 in
  let minute := (rem mod 3600) / 60 in
  let second := rem mod 60 in
  let z := days + 719468 in
  let era := Z.quot (if 0 <=? z then z else z - 146096) 146097 in
  let doe := z - era * 146097 in
  let yoe := Z.quot (doe - Z.quot doe 1460 + Z.quot doe 36524 - Z.quot doe 146096) 365 in
  let y := yoe + era * 400 in
  let doy := doe - (365 * yoe + Z.quot yoe 4 - Z.quot yoe 100) in
  let mp := Z.quot (5 * doy + 2) 153 in
  let day := as_u32 (doy - Z.quot (153 * mp + 2) 5 + 1) in
  let month := as_u32 (if mp <? 10 then mp + 3 else mp - 9) in
  let year := if month <=? 2 then y + 1 else y in
  mkCivil year month day hour minute second.

Definition days_from_civil (year month day : Z) : Z :=
  let y := if month <=? 2 then wrap_i64 (year - 1) else year in
  let era := Z.quot (if 0 <=? y then y else wrap_i64 (y - 399)) 400 in
  let yoe := wrap_i64 (y - era * 400) in
  let mp := if 2 <? month then month - 3 else month + 9 in
  let doy := Z.quot (153 * mp + 2) 5 + day - 1 in
  let doe := wrap_i64 (yoe * 365 + Z.quot yoe 4 - Z.quot yoe 100 + doy) in
  wrap_i64 (era * 146097 + doe - 719468).

Definition epoch_from_local_parts (year month day hour minute second offset_secs : Z) : option Z :=
  if negb ((1 <=? month) && (month <=? 12)) || negb ((1 <=? day) && (day <=? 31)) then None
  else if (23 <? hour) || (59 <? minute) || (59 <? second) then None
  else
    let days := days_from_civil year month day in
    midnight ← checked_i64 (days * 86400);
    if midnight <? 0 then None
    else
      let c := utc_parts midnight in
      if negb (bool_decide ((Civil.year c, Civil.month c, Civil.day c) = (year, month, day))) then None
      else
        local ← checked_i64 (midnight + (hour * 3600 + minute * 60 + second));
        e ← checked_i64 (local - offset_secs);
        if e <? 0 then None else Some e.

(** [boundary as i64 + offset], then [as u64]. *)
Definition shifted (boundary_epoch_secs offset_secs : Z) : Z :=
  wrap_u64 (wrap_i64 (wrap_i64 boundary_epoch_secs + offset_secs)).

Definition day_string_local (boundary_epoch_secs offset_secs : Z) : string :=
  let c := utc_parts (shifted boundary_epoch_secs offset_secs) in
  fmt_dec_pad 4 (year c) +:+ (fmt_dec_pad 2 (month c) +:+ fmt_dec_pad 2 (day c)).

Definition segment_key_string_local (boundary_epoch_secs offset_secs len_secs : Z) : string :=
  let c := utc_parts (shifted boundary_epoch_secs offset_secs) in
  fmt_dec_pad 2 (hour c) +:+ (fmt_dec_pad 2 (minute c) +:+ (fmt_dec_pad 2 (second c) +:+
    ("_" +:+ fmt_dec len_secs))).

(** ** The Gregorian calendar *)

Definition leap (y : Z) : bool :=
  ((y mod 4 =? 0) && negb (y mod 100 =? 0)) || (y mod 400 =? 0).

Definition days_in_month (y m : Z) : Z :=
  if m =? 2 then (if leap y then 29 else 28)
  else if (m =? 4) || (m =? 6) || (m =? 9) || (m =? 11) then 30 else 31.

Definition valid_date (y m d : Z) : Prop := 1 <= m <= 12 /\ 1 <= d <= days_in_month y m.

Definition next_day (c : Z * Z * Z) : Z * Z * Z :=
  let '(y, m, d) := c in
  if d <? days_in_month y m then (y, m, d + 1)
  else if m <? 12 then (y, m + 1, 1)
  else (y + 1, 1, 1).

(** The date [n] days after 1970-01-01. *)
Fixpoint date_after (n : nat) : Z * Z * Z :=
  match n with
  | O => (1970, 1, 1)
  | S n => next_day (date_after n)
  end.

(** ** Arithmetic of the 400-year cycle *)

Definition yoe_of (doe : Z) : Z := (doe - doe / 1460 + doe / 36524 - doe / 146096) / 365.
Definition year_start (yoe : Z) : Z := 365 * yoe + yoe / 4 - yoe / 100.

Ltac div_lia := Z.to_euclidean_division_equations; lia.

Lemma yoe_of_range doe : 0 <= doe <= 146096 -> 0 <= yoe_of doe <= 399.
Proof. unfold yoe_of. intros. div_lia. Qed.

Lemma yoe_of_doy doe : 0 <= doe <= 146096 -> 0 <= doe - year_start (yoe_of doe) <= 365.
Proof. unfold yoe_of, year_start. intros. div_lia. Qed.

(** The length of the year that starts in March of year-of-era [yoe]. *)
Definition year_len (yoe : Z) : Z :=
  if ((yoe + 1) mod 4 =? 0) && (negb ((yoe + 1) mod 100 =? 0) || ((yoe + 1) mod 400 =? 0)) then 366 else 365.

Lemma yoe_of_inv yoe doy :
  0 <= yoe <= 399 -> 0 <= doy < year_len yoe -> yoe_of (year_start yoe + doy) = yoe.
Proof.
  unfold yoe_of, year_start, year_len. intros Hy Hd.
  destruct ((yoe + 1) mod 4 =? 0) eqn:H4, ((yoe + 1) mod 100 =? 0) eqn:H100,
    ((yoe + 1) mod 400 =? 0) eqn:H400; cbn in Hd; div_lia.
Qed.
Lemma yoe_of_len doe : 0 <= doe <= 146096 -> doe - year_start (yoe_of doe) < year_len (yoe_of doe).
Proof.
  unfold year_len. intros Hd. 
  destruct ((yoe_of doe + 1) mod 4 =? 0) eqn:H4, ((yoe_of doe + 1) mod 100 =? 0) eqn:H100,
    ((yoe_of doe + 1) mod 400 =? 0) eqn:H400; cbn; unfold yoe_of, year_start in *;  div_lia.
Qed.

(** The date of day [z], counted from 0000-03-01, in floor division. *)
Definition date_of (z : Z) : Z * Z * Z :=
  let era := z / 146097 in
  let doe := z - era * 146097 in
  let yoe := yoe_of doe in
  let doy := doe - year_start yoe in
  let mp := (5 * doy + 2) / 153 in
  let m := if mp <? 10 then mp + 3 else mp - 9 in
  (if m <=? 2 then yoe + era * 400 + 1 else yoe + era * 400, m, doy - (153 * mp + 2) / 5 + 1).

(** Its inverse, for years from 0 on. *)
Definition day_of (y m d : Z) : Z :=
  let y' := if m <=? 2 then y - 1 else y in
  let mp := if 2 <? m then m - 3 else m + 9 in
  y' / 400 * 146097 + (year_start (y' mod 400) + ((153 * mp + 2) / 5 + d - 1)).

(** The first of March of year [y]. *)
Definition march_first (y : Z) : Z := y / 400 * 146097 + year_start (y mod 400).

(** Days of a March-based year before its month [m]. *)
Definition month_offset (m : Z) : Z := (153 * (if 2 <? m then m - 3 else m + 9) + 2) / 5.

Lemma day_of_march y m d :
  day_of y m d = march_first (if m <=? 2 then y - 1 else y) + (month_offset m + d - 1).
Proof. unfold day_of, march_first, month_offset. lia. Qed.

Ltac eval_months :=
  repeat match goal with
  | |- context [month_offset ?k] =>
    let r := eval vm_compute in (month_offset k) in change (month_offset k) with r
  | |- context [?a <=? 2] => let r := eval vm_compute in (a <=? 2) in change (a <=? 2) with r
  end; cbv iota.

Lemma doe_range z : 0 <= z - z / 146097 * 146097 <= 146096.
Proof. div_lia. Qed.

Lemma month_of_doy doy :
  0 <= doy <= 365 ->
  let mp := (5 * doy + 2) / 153 in
  0 <= mp <= 11 /\ 1 <= doy - (153 * mp + 2) / 5 + 1 <= 31.
Proof. cbv zeta. intros. div_lia. Qed.

Lemma day_of_date_of z :
  let '(y, m, d) := date_of z in day_of y m d = z /\ 1 <= m <= 12 /\ 1 <= d <= 31.
Proof.
  unfold date_of, day_of. pose proof (doe_range z) as Hdoe.
  set (doe := z - z / 146097 * 146097) in *. set (era := z / 146097) in *.
  pose proof (yoe_of_range doe Hdoe) as Hyoe. pose proof (yoe_of_doy doe Hdoe) as Hdoy.
  set (yoe := yoe_of doe) in *. set (doy := doe - year_start yoe) in *.
  destruct (month_of_doy doy Hdoy) as [Hmp Hday].
  set (mp := (5 * doy + 2) / 153) in *.
  assert (Hera : (yoe + era * 400) / 400 = era) by (clearbody yoe era; clear - Hyoe; div_lia).
  assert (Hmod : (yoe + era * 400) mod 400 = yoe) by (clearbody yoe era; clear - Hyoe; div_lia).
  destruct (Z.ltb_spec mp 10).
  - rewrite (proj2 (Z.leb_gt (mp + 3) 2)), (proj2 (Z.ltb_lt 2 (mp + 3))) by lia.
    rewrite Hera, Hmod. replace (mp + 3 - 3) with mp by lia. lia.
  - rewrite (proj2 (Z.leb_le (mp - 9) 2)), (proj2 (Z.ltb_ge 2 (mp - 9))) by lia.
    replace (yoe + era * 400 + 1 - 1) with (yoe + era * 400) by lia.
    rewrite Hera, Hmod. replace (mp - 9 + 9) with mp by lia. lia.
Qed.

Lemma leap_year_len y : year_len (y mod 400) = if leap (y + 1) then 366 else 365.
Proof.
  unfold year_len, leap.
  replace ((y mod 400 + 1) mod 4) with ((y + 1) mod 4) by div_lia.
  replace ((y mod 400 + 1) mod 100) with ((y + 1) mod 100) by div_lia.
  replace ((y mod 400 + 1) mod 400) with ((y + 1) mod 400) by div_lia.
  destruct ((y + 1) mod 4 =? 0) eqn:H4, ((y + 1) mod 100 =? 0) eqn:H100,
    ((y + 1) mod 400 =? 0) eqn:H400; cbn; div_lia.
Qed.

(** A valid date is day [doy] of its March-based year, in month [mp]. *)
Lemma valid_date_doy y m d :
  valid_date y m d ->
  let y' := if m <=? 2 then y - 1 else y in
  let mp := if 2 <? m then m - 3 else m + 9 in
  let doy := (153 * mp + 2) / 5 + d - 1 in
  (5 * doy + 2) / 153 = mp /\ 0 <= doy < year_len (y' mod 400).
Proof.
  cbv zeta. intros [Hm Hd]. rewrite leap_year_len. unfold days_in_month in Hd.
  assert (m = 1 \/ m = 2 \/ m = 3 \/ m = 4 \/ m = 5 \/ m = 6 \/ m = 7 \/ m = 8 \/ m = 9 \/
          m = 10 \/ m = 11 \/ m = 12) as Hcase by lia.
  destruct Hcase as [->|[->|[->|[->|[->|[->|[->|[->|[->|[->|[->| ->]]]]]]]]]]];
    cbn -[Z.div Z.mul Z.add Z.sub leap] in Hd |- *; rewrite ?Z.sub_add;
    destruct (leap _); div_lia.
Qed.

Lemma date_of_day_of y m d : valid_date y m d -> date_of (day_of y m d) = (y, m, d).
Proof.
  intros Hv. pose proof (valid_date_doy y m d Hv) as Hdoy. cbv zeta in Hdoy.
  destruct Hv as [Hm _]. unfold day_of.
  set (y' := if m <=? 2 then y - 1 else y) in *. set (mp := if 2 <? m then m - 3 else m + 9) in *.
  set (doy := (153 * mp + 2) / 5 + d - 1) in *. destruct Hdoy as [Hmp Hlen].
  assert (Hyoe : 0 <= y' mod 400 <= 399) by (clearbody y'; clear; div_lia).
  assert (Hdoe : 0 <= year_start (y' mod 400) + doy <= 146096).
  { clear - Hyoe Hlen. clearbody doy. revert Hyoe Hlen. generalize (y' mod 400). intros yoe ? ?.
    unfold year_start, year_len in *. destruct ((yoe + 1) mod 4 =? 0) eqn:?, ((yoe + 1) mod 100 =? 0) eqn:?,
      ((yoe + 1) mod 400 =? 0) eqn:?; cbn in *; div_lia. }
  unfold date_of. set (doe := year_start (y' mod 400) + doy) in *.
  assert (Hera : (y' / 400 * 146097 + doe) / 146097 = y' / 400).
  { clearbody doe. clear - Hdoe. generalize (y' / 400). intros e. div_lia. }
  rewrite Hera. replace (y' / 400 * 146097 + doe - y' / 400 * 146097) with doe by lia.
  assert (Hy : yoe_of doe = y' mod 400) by (by apply yoe_of_inv).
  rewrite Hy. replace (doe - year_start (y' mod 400)) with doy by (unfold doe; lia). rewrite Hmp.
  replace (y' mod 400 + y' / 400 * 400) with y' by (clearbody y'; clear; div_lia).
  unfold doy, mp, y'. clear - Hm. destruct (Z.ltb_spec 2 m), (Z.leb_spec m 2); try lia.
  - rewrite (proj2 (Z.ltb_lt (m - 3) 10)), (proj2 (Z.leb_gt (m - 3 + 3) 2)) by lia.
    repeat f_equal; lia.
  - rewrite (proj2 (Z.ltb_ge (m + 9) 10)), (proj2 (Z.leb_le (m + 9 - 9) 2)) by lia.
    repeat f_equal; lia.
Qed.

Lemma days_in_month_range y m : 28 <= days_in_month y m <= 31.
Proof. unfold days_in_month. repeat case_match; lia. Qed.

Lemma next_day_valid y m d :
  valid_date y m d -> let '(y', m', d') := next_day (y, m, d) in valid_date y' m' d'.
Proof.
  intros [Hm Hd]. unfold next_day. destruct (Z.ltb_spec d (days_in_month y m)); [unfold valid_date; lia|].
  pose proof (days_in_month_range y (m + 1)). pose proof (days_in_month_range (y + 1) 1).
  destruct (Z.ltb_spec m 12); unfold valid_date; lia.
Qed.

Lemma march_first_step y : march_first y = march_first (y - 1) + if leap y then 366 else 365.
Proof.
  replace y with (y - 1 + 1) at 1 3 by lia. generalize (y - 1). clear y. intros y.
  unfold march_first, year_start, leap.
  destruct ((y + 1) mod 4 =? 0) eqn:H4, ((y + 1) mod 100 =? 0) eqn:H100,
    ((y + 1) mod 400 =? 0) eqn:H400; cbn; div_lia.
Qed.

Lemma day_of_next y m d :
  valid_date y m d ->
  let '(y', m', d') := next_day (y, m, d) in day_of y' m' d' = day_of y m d + 1.
Proof.
  intros [Hm Hd]. unfold next_day. destruct (Z.ltb_spec d (days_in_month y m)) as [Hlt|Hge].
  { rewrite !day_of_march. lia. }
  assert (Hlast : d = days_in_month y m) by lia. clear Hd Hge. subst d. unfold days_in_month.
  pose proof (march_first_step y) as Hstep.
  assert (m = 1 \/ m = 2 \/ m = 3 \/ m = 4 \/ m = 5 \/ m = 6 \/ m = 7 \/ m = 8 \/ m = 9 \/
          m = 10 \/ m = 11 \/ m = 12) as Hcase by lia.
  destruct Hcase as [->|[->|[->|[->|[->|[->|[->|[->|[->|[->|[->| ->]]]]]]]]]]];
    cbn -[day_of leap]; rewrite !day_of_march, ?Z.add_simpl_r; eval_months;
    destruct (leap y); lia.
Qed.

Lemma date_after_day n :
  let '(y, m, d) := date_after n in valid_date y m d /\ day_of y m d = 719468 + Z.of_nat n.
Proof.
  induction n as [|n IH]; [split; [unfold valid_date, days_in_month; cbn; lia|reflexivity]|].
  cbn [date_after]. destruct (date_after n) as [[y m] d]. destruct IH as [Hv Hday].
  pose proof (next_day_valid y m d Hv). pose proof (day_of_next y m d Hv).
  destruct (next_day (y, m, d)) as [[y' m'] d']. split; [done|]. lia.
Qed.

Lemma date_of_after n : date_of (719468 + Z.of_nat n) = date_after n.
Proof.
  pose proof (date_after_day n) as H. destruct (date_after n) as [[y m] d]. destruct H as [Hv <-].
  by apply date_of_day_of.
Qed.

(** ** The code computes [date_of] and [day_of] *)

Lemma as_u32_id n : 0 <= n <= 31 -> as_u32 n = n.
Proof. intros. unfold as_u32. apply Z.mod_small. lia. Qed.

Lemma utc_parts_date e :
  0 <= e ->
  utc_parts e =
  let '(y, m, d) := date_of (e / 86400 + 719468) in
  mkCivil y m d (e mod 86400 / 3600) (e mod 86400 mod 3600 / 60) (e mod 86400 mod 60).
Proof.
  intros He. unfold utc_parts, date_of. assert (Hz : 0 <= e / 86400) by (apply Z.div_pos; lia).
  set (z := e / 86400 + 719468). rewrite (proj2 (Z.leb_le 0 z)) by lia.
  rewrite (Z.quot_div_nonneg z) by lia. pose proof (doe_range z) as Hdoe.
  set (doe := z - z / 146097 * 146097) in *. set (era := z / 146097) in *.
  rewrite (Z.quot_div_nonneg doe 1460), (Z.quot_div_nonneg doe 36524), (Z.quot_div_nonneg doe 146096) by lia.
  rewrite (Z.quot_div_nonneg (doe - _ + _ - _) 365) by (try lia; clear - Hdoe; clearbody doe; div_lia).
  fold (yoe_of doe). pose proof (yoe_of_range doe Hdoe) as Hyoe. pose proof (yoe_of_doy doe Hdoe) as Hdoy.
  set (yoe := yoe_of doe) in *.
  rewrite (Z.quot_div_nonneg yoe 4), (Z.quot_div_nonneg yoe 100) by lia.
  fold (year_start yoe). set (doy := doe - year_start yoe) in *.
  rewrite (Z.quot_div_nonneg (5 * doy + 2)) by lia. destruct (month_of_doy doy Hdoy) as [Hmp Hd].
  set (mp := (5 * doy + 2) / 153) in *.
  rewrite (Z.quot_div_nonneg (153 * mp + 2)) by lia. rewrite (as_u32_id (doy - _ + 1)) by lia.
  rewrite as_u32_id by (destruct (Z.ltb_spec mp 10); lia). done.
Qed.

Lemma days_from_civil_day y m d :
  0 <= y <= 1000000000000 -> 1 <= m <= 12 -> 1 <= d <= 31 -> (1 <= y \/ 2 < m) ->
  days_from_civil y m d = day_of y m d - 719468.
Proof.
  intros Hy Hm Hd Hyear. unfold days_from_civil, day_of.
  assert (Hw : (if m <=? 2 then wrap_i64 (y - 1) else y) = (if m <=? 2 then y - 1 else y)).
  { destruct (m <=? 2); [apply wrap_i64_id; widths|done]. }
  rewrite Hw. clear Hw. set (y' := if m <=? 2 then y - 1 else y).
  assert (Hy' : 0 <= y' <= 1000000000000) by (unfold y'; destruct (Z.leb_spec m 2); lia).
  rewrite (proj2 (Z.leb_le 0 y')) by lia. rewrite (Z.quot_div_nonneg y') by lia.
  set (mp := if 2 <? m then m - 3 else m + 9).
  assert (Hmp : 0 <= mp <= 11) by (unfold mp; destruct (Z.ltb_spec 2 m); lia).
  clearbody y' mp. clear - Hy' Hmp Hd.
  rewrite (Z.quot_div_nonneg (153 * mp + 2)) by lia.
  replace (y' - y' / 400 * 400) with (y' mod 400) by div_lia.
  assert (Hyoe : 0 <= y' mod 400 <= 399) by div_lia.
  assert (Hera : 0 <= y' / 400 <= 1000000000000) by div_lia.
  revert Hyoe Hera. generalize (y' mod 400), (y' / 400). intros yoe era Hyoe Hera.
  rewrite (wrap_i64_id yoe) by widths.
  rewrite (Z.quot_div_nonneg yoe 4), (Z.quot_div_nonneg yoe 100) by lia.
  assert (Hb : 0 <= (153 * mp + 2) / 5 <= 400) by div_lia. revert Hb. generalize ((153 * mp + 2) / 5).
  intros k Hk. unfold year_start.
  assert (0 <= yoe / 4 <= 100) by div_lia. assert (0 <= yoe / 100 <= 4) by div_lia.
  rewrite (wrap_i64_id (yoe * 365 + _ - _ + _)) by widths. rewrite wrap_i64_id by widths. lia.
Qed.

(** ** Round trip *)

Lemma utc_parts_range e :
  0 <= e -> let c := utc_parts e in
  0 <= hour c <= 23 /\ 0 <= minute c <= 59 /\ 0 <= second c <= 59 /\
  hour c * 3600 + minute c * 60 + second c = e mod 86400.
Proof.
  intros He. rewrite utc_parts_date by done. destruct (date_of _) as [[y m] d]; cbv zeta; cbn. div_lia.
Qed.

(** Midnight of the same day has the same date. *)
#[local] Arguments utc_parts : simpl never.

Lemma utc_parts_midnight days sod :
  0 <= days -> 0 <= sod < 86400 ->
  utc_parts (days * 86400 + sod) =
  let c := utc_parts (days * 86400) in
  mkCivil (year c) (month c) (day c) (sod / 3600) (sod mod 3600 / 60) (sod mod 60).
Proof.
  intros Hd Hs. rewrite !utc_parts_date by lia.
  replace ((days * 86400 + sod) / 86400) with days by div_lia.
  replace (days * 86400 / 86400) with days by div_lia.
  replace ((days * 86400 + sod) mod 86400) with sod by div_lia.
  by destruct (date_of _) as [[y m] d].
Qed.

Lemma year_range z : 0 <= z <= 300000000000000 ->
  let '(y, m, d) := date_of z in 0 <= y <= 1000000000000 /\ (1 <= y \/ 2 < m).
Proof.
  intros Hz. unfold date_of. pose proof (doe_range z) as Hdoe.
  assert (Hera : 0 <= z / 146097 <= 2100000000) by div_lia.
  pose proof (yoe_of_range _ Hdoe). pose proof (yoe_of_doy _ Hdoe) as Hdoy.
  destruct (month_of_doy _ Hdoy) as [Hmp _].
  repeat match goal with |- context [if ?b then _ else _] => destruct b eqn:? end; lia.
Qed.

Lemma days_from_civil_parts days :
  0 <= days <= 200000000000000 ->
  let c := utc_parts (days * 86400) in
  days_from_civil (year c) (month c) (day c) = days /\ 1 <= month c <= 12 /\ 1 <= day c <= 31.
Proof.
  intros Hd. rewrite utc_parts_date by lia. replace (days * 86400 / 86400) with days by div_lia.
  pose proof (day_of_date_of (days + 719468)) as Hday.
  pose proof (year_range (days + 719468) ltac:(lia)) as Hyr.
  destruct (date_of (days + 719468)) as [[y m] d]. cbv zeta; cbn.
  destruct Hday as (Hz & Hm & Hdd). destruct Hyr as [Hy Hy1].
  rewrite days_from_civil_day by done. lia.
Qed.

Lemma checked_i64_Some n k : checked_i64 n = Some k <-> in_i64 n /\ k = n.
Proof. unfold checked_i64, in_i64. case_decide; naive_solver. Qed.

(** ** Properties *)

(** [utc_parts] is the Gregorian calendar: for every day and second of the
    day, the civil date is the one reached by counting days from 1970-01-01
    with the leap-year rule, and hour, minute and second are in range and add
    up to the second of the day. *)
Theorem utc_parts_is_gregorian (n : nat) (sod : Z) (Hs : 0 <= sod < 86400) :
  let c := utc_parts (Z.of_nat n * 86400 + sod) in
  (year c, month c, day c) = date_after n /\
  0 <= hour c <= 23 /\ 0 <= minute c <= 59 /\ 0 <= second c <= 59 /\
  hour c * 3600 + minute c * 60 + second c = sod.
Proof.
  pose proof (utc_parts_range (Z.of_nat n * 86400 + sod) ltac:(lia)) as Hr. cbv zeta in *.
  replace ((Z.of_nat n * 86400 + sod) mod 86400) with sod in Hr by (clear Hr; div_lia).
  split; [|tauto]. clear Hr. rewrite utc_parts_date by lia.
  replace ((Z.of_nat n * 86400 + sod) / 86400) with (Z.of_nat n) by div_lia.
  rewrite Z.add_comm, date_of_after. by destruct (date_after n) as [[y m] d].
Qed.

Lemma utc_parts_is_gregorian_witness :
  date_after 59 = (1970, 3, 1) /\ utc_parts (59 * 86400 + 3661) = mkCivil 1970 3 1 1 1 1.
Proof.
  pose proof (utc_parts_is_gregorian 59 3661 ltac:(lia)) as [H _].
  split; [rewrite <-H; reflexivity|reflexivity].
Defined.

(** [epoch_from_local_parts] is the exact inverse of the local calendar:
    it answers [Some e] exactly when [e] is an instant whose local wall clock
    at that offset shows the given date and time, with every quantity in
    [i64]; so no identity is made up from a date that does not exist, and
    every representable local instant has its epoch second. *)
Theorem epoch_from_local_parts_inverse (y m d h mi s off e : Z)
    (Hoff : in_i64 off) (Hh : 0 <= h) (Hmi : 0 <= mi) (Hs : 0 <= s) :
  epoch_from_local_parts y m d h mi s off = Some e <->
  0 <= e <= i64_max /\ 0 <= e + off <= i64_max /\ utc_parts (e + off) = mkCivil y m d h mi s.
Proof.
  unfold epoch_from_local_parts. split.
  - destruct (negb _ || negb _); [done|]. destruct (_ || _ || _) eqn:Hhms; [done|].
    apply orb_false_iff in Hhms as [[?%Z.ltb_ge ?%Z.ltb_ge]%orb_false_iff ?%Z.ltb_ge].
    destruct (checked_i64 (days_from_civil y m d * 86400)) as [mid|] eqn:Hmid; [|done]; cbn.
    apply checked_i64_Some in Hmid as [Hmid ->]. set (days := days_from_civil y m d) in *.
    destruct (Z.ltb_spec (days * 86400) 0); [done|]. case_bool_decide as Hdate; [|done]; cbn.
    destruct (checked_i64 (_ + _)) as [local|] eqn:Hl; [|done]; cbn.
    apply checked_i64_Some in Hl as [Hl ->].
    destruct (checked_i64 (_ - off)) as [e'|] eqn:He; [|done]; cbn.
    apply checked_i64_Some in He as [He ->].
    destruct (Z.ltb_spec (days * 86400 + (h * 3600 + mi * 60 + s) - off) 0); [done|].
    intros [= <-]. rewrite Z.sub_add. split; [unfold in_i64 in *; lia|]. split; [unfold in_i64 in *; lia|].
    rewrite utc_parts_midnight by lia. cbv zeta.
    destruct (utc_parts (days * 86400)) as [cy cm cd ch cmi cs]; cbn in Hdate |- *.
    injection Hdate as -> -> ->. f_equal; clear - H H0 H1 Hh Hmi Hs; div_lia.
  - intros (He & Heo & Hc).
    set (days := (e + off) / 86400). set (sod := (e + off) mod 86400).
    assert (Heq : e + off = days * 86400 + sod) by (unfold days, sod; clear; div_lia).
    assert (Hdays : 0 <= days <= 200000000000000) by (unfold days; clear - Heo; unfold i64_max in *; div_lia).
    assert (Hsod : 0 <= sod < 86400) by (unfold sod; clear; div_lia). clearbody days sod.
    destruct (days_from_civil_parts days Hdays) as (Hdfc & Hm & Hd).
    rewrite Heq, utc_parts_midnight in Hc by lia. cbv zeta in Hc.
    destruct (utc_parts (days * 86400)) as [cy cm cd ch cmi cs] eqn:Hu; cbn in Hc, Hdfc, Hm, Hd.
    injection Hc as -> -> -> Hh' Hmi' Hs'.
    assert (Hparts : h * 3600 + mi * 60 + s = sod /\ h <= 23 /\ mi <= 59 /\ s <= 59)
      by (clear - Hh' Hmi' Hs' Hsod; div_lia). clear Hh' Hmi' Hs'.
    rewrite !(proj2 (Z.leb_le _ _)), !(proj2 (Z.ltb_ge _ _)) by lia. cbn.
    rewrite Hdfc, (proj2 (checked_i64_Some _ _)) by (split; [unfold_width; lia|reflexivity]); cbn.
    rewrite (proj2 (Z.ltb_ge _ _)) by lia. rewrite Hu, bool_decide_true by done; cbn.
    rewrite (proj1 Hparts), <-Heq, (proj2 (checked_i64_Some _ _)) by (split; [unfold_width; lia|reflexivity]); cbn.
    rewrite Z.add_simpl_r, (proj2 (checked_i64_Some _ _)) by (split; [unfold_width; lia|reflexivity]); cbn.
    by rewrite (proj2 (Z.ltb_ge _ _)) by lia.
Qed.

Lemma epoch_from_local_parts_inverse_witness :
  epoch_from_local_parts 2024 2 29 23 59 59 (-25200) = Some 1709276399 /\
  epoch_from_local_parts 2023 2 29 23 59 59 (-25200) = None.
Proof.
  split; [|reflexivity].
  apply (epoch_from_local_parts_inverse 2024 2 29 23 59 59 (-25200) 1709276399); [widths|lia..|].
  split; [widths|]. split; [widths|reflexivity].
Defined.
