(* ===== verification/PauseStore.v ===== *)
(** * The held owner pause (crates/capture-engine/src/pause_store.rs)

    The text format of the pause file, its total decoder, and the file store
    over the filesystem calls it makes. The engine sees only the [PauseStore]
    class; [file_pause_store] is its implementation. *)
From Stdlib Require Import Ascii String.
From S2P Require Import Prelude RustStr.

Local Open Scope string_scope.

Inductive HeldPause : Type := UntilResumed | Until (deadline : Z).

#[global] Instance HeldPause_eq_dec : EqDecision HeldPause.
Proof. solve_decision. Defined.

(** What the engine relies on; [save] and [clear] report an error or not. *)
Class PauseStore (P : Type) : Type := {
  pause_load : P → option HeldPause;
  pause_save : HeldPause → M P (result unit unit);
  pause_clear : M P (result unit unit)
}.

Definition UNTIL_RESUMED : string := "until-resumed".
Definition UNTIL : string := "until ".
Definition newline : string := String (ascii_of_Z 10) EmptyString.

Definition encode_pause (pause : HeldPause) : string :=
  match pause with
  | UntilResumed => UNTIL_RESUMED +:+ newline
  | Until deadline => UNTIL +:+ (fmt_dec deadline +:+ newline)
  end.

Definition decode_pause (text : string) : HeldPause :=
  let line := trim text in
  if String.eqb line UNTIL_RESUMED then UntilResumed
  else match strip_prefix UNTIL line ≫= (λ n, parse_u64 (trim n)) with
       | Some deadline => Until deadline
       | None => UntilResumed
       end.

(** The filesystem calls of [FilePauseStore]; [write_synced] is
    [File::create], [write_all] and [sync_all] of one file. *)
Inductive io_error : Type := NotFound | OtherError.

Class PauseFiles (F : Type) : Type := {
  file_read : string → F → result string io_error;
  create_parent : string → M F (result unit io_error);
  write_synced : string → string → M F (result unit io_error);
  file_rename : string → string → M F (result unit io_error);
  file_remove : string → M F (result unit io_error)
}.

Section file_store.
Context {F : Type} `{PauseFiles F}.
(** [self.path] and [self.path.with_extension("tmp")]. *)
Context (path temporary : string).

Definition file_load (fs : F) : option HeldPause :=
  match file_read path fs with
  | Ok bytes => Some (decode_pause (from_utf8_lossy bytes))
  | Err NotFound => None
  | Err OtherError => Some UntilResumed
  end.

Definition file_save (pause : HeldPause) : M F (result unit io_error) :=
  r ← create_parent path;
  match r with
  | Err e => mret (Err e)
  | Ok _ =>
    r ← write_synced temporary (encode_pause pause);
    match r with
    | Err e => mret (Err e)
    | Ok _ => file_rename temporary path
    end
  end.

Definition file_clear : M F (result unit io_error) :=
  r ← file_remove path;
  mret (match r with Err NotFound => Ok tt | r => r end).

Definition forget_error (r : result unit io_error) : result unit unit :=
  match r with Ok _ => Ok tt | Err _ => Err tt end.

Definition file_pause_store : PauseStore F := {|
  pause_load := file_load;
  pause_save := λ p fs, let '(r, fs') := file_save p fs in (forget_error r, fs');
  pause_clear := λ fs, let '(r, fs') := file_clear fs in (forget_error r, fs')
|}.
End file_store.

(** ** The text format *)

Definition pause_in_range (p : HeldPause) : Prop :=
  match p with UntilResumed => True | Until d => in_u64 d end.

(** What a store promises the engine: a reported success is what is loaded. *)
Class PauseStoreLaws (P : Type) `{PauseStore P} : Prop := {
  save_then_load p w : pause_in_range p → (pause_save p w).1 = Ok tt → pause_load (pause_save p w).2 = Some p;
  clear_then_load w : (pause_clear w).1 = Ok tt → pause_load (pause_clear w).2 = None
}.

Lemma decode_encode_pause p : pause_in_range p → decode_pause (encode_pause p) = p.
Proof.
  destruct p as [|d]; intros Hd; [reflexivity|]. cbn in Hd.
  destruct (digits_snoc (fmt_dec d)) as (r & c & Hr & Hc);
    [by apply dec_digits_ne; lia|apply fmt_dec_digits; widths|].
  unfold decode_pause, encode_pause. rewrite Hr.
  assert (Htrim : trim (UNTIL +:+ ((r +:+ String c EmptyString) +:+ newline)) = UNTIL +:+ fmt_dec d).
  { unfold trim, UNTIL. cbn [String.append]. rewrite trim_start_graphic by reflexivity.
    rewrite Hr, str_app_assoc. cbn [String.append].
    exact (trim_end_newline ("until " +:+ r) c (is_graphic_digit _ Hc)). }
  rewrite Htrim. replace (String.eqb _ UNTIL_RESUMED) with false by reflexivity.
  rewrite strip_prefix_app; cbn [mbind option_bind].
  replace (trim (fmt_dec d)) with (fmt_dec d); [by rewrite parse_fmt_dec|].
  pose proof (fmt_dec_digits d ltac:(widths)) as Hall. unfold trim. symmetry.
  destruct (fmt_dec d) as [|a s] eqn:Hs; [by destruct r|].
  rewrite trim_start_graphic by (apply is_graphic_digit; cbn in Hall; by apply andb_true_iff in Hall as [? _]).
  rewrite Hr. by apply trim_end_graphic, is_graphic_digit.
Qed.

Lemma encode_pause_ascii p : pause_in_range p → all_bytes (byte_in 0 127) (encode_pause p) = true.
Proof.
  destruct p as [|d]; intros Hd; [reflexivity|]. cbn in Hd. unfold encode_pause.
  rewrite !all_bytes_app. apply andb_true_iff; split; [reflexivity|].
  apply andb_true_iff; split; [|reflexivity].
  pose proof (fmt_dec_digits d ltac:(widths)) as Hall. revert Hall. generalize (fmt_dec d).
  induction s as [|c s IH]; [done|]. cbn. intros [Hc Hs]%andb_true_iff. rewrite IH by done.
  rewrite andb_true_r. unfold is_ascii_digit, byte_in in *. lia.
Qed.

Lemma decode_until_inv text d :
  decode_pause text = Until d →
  ∃ n, trim text = UNTIL +:+ n ∧ parse_u64 (trim n) = Some d.
Proof.
  unfold decode_pause. destruct (String.eqb _ _); [done|].
  destruct (strip_prefix UNTIL (trim text)) as [n|] eqn:Hn; [|done]; cbn.
  destruct (parse_u64 (trim n)) as [k|] eqn:Hk; [|done]. intros [= ->].
  exists n. split; [exact (strip_prefix_inv UNTIL _ n Hn)|done].
Qed.

(** ** The file store *)

(** Documented behaviour of the calls: a call touches only the files it
    names, a written and synced file reads back, [rename] replaces the target
    atomically or not at all, and a removed file is gone. *)
Class PauseFilesLaws (F : Type) `{PauseFiles F} : Prop := {
  create_parent_reads p q fs : file_read q (create_parent p fs).2 = file_read q fs;
  write_reads_other p q s fs : q ≠ p → file_read q (write_synced p s fs).2 = file_read q fs;
  write_reads_back p s fs :
    (write_synced p s fs).1 = Ok tt → file_read p (write_synced p s fs).2 = Ok s;
  rename_ok a b fs :
    (file_rename a b fs).1 = Ok tt → file_read b (file_rename a b fs).2 = file_read a fs;
  rename_err a b e fs :
    (file_rename a b fs).1 = Err e → file_read b (file_rename a b fs).2 = file_read b fs;
  remove_ok p fs : (file_remove p fs).1 = Ok tt → file_read p (file_remove p fs).2 = Err NotFound;
  remove_reads_other p q fs : q ≠ p → file_read q (file_remove p fs).2 = file_read q fs;
  remove_absent p fs :
    (file_remove p fs).1 = Err NotFound → file_read p (file_remove p fs).2 = Err NotFound
}.

Section file_store_lemmas.
Context {F : Type} `{PauseFilesLaws F} (path temporary : string).

Lemma file_save_reads p fs :
  temporary ≠ path →
  let '(r, fs') := file_save path temporary p fs in
  (r = Ok tt → file_read path fs' = Ok (encode_pause p)) ∧
  (∀ e, r = Err e → file_read path fs' = file_read path fs).
Proof.
  intros Htmp. destruct (file_save path temporary p fs) as [r fs'] eqn:Hs.
  unfold file_save in Hs. rewrite bind_run in Hs.
  pose proof (create_parent_reads path path fs) as Hcp.
  destruct (create_parent path fs) as [[[]|e1] f1]; cbn in *; [|injection Hs as <- <-; split; [done|congruence]].
  rewrite bind_run in Hs.
  pose proof (write_reads_other temporary path (encode_pause p) f1 ltac:(done)) as Hw.
  pose proof (write_reads_back temporary (encode_pause p) f1) as Hwb.
  destruct (write_synced _ _ _) as [[[]|e2] f2]; cbn in *; [|injection Hs as <- <-; split; [done|congruence]].
  pose proof (rename_ok temporary path f2) as Hr. pose proof (rename_err temporary path) as Hre.
  rewrite Hs in Hr; cbn in Hr. split.
  - intros ->. rewrite Hr by done. auto.
  - intros e ->. specialize (Hre e f2). rewrite Hs in Hre. cbn in Hre. rewrite Hre by done. congruence.
Qed.

Lemma file_save_loads p fs :
  temporary ≠ path → pause_in_range p →
  let r := file_save path temporary p fs in
  (r.1 = Ok tt → file_load path r.2 = Some p) ∧ (∀ e, r.1 = Err e → file_load path r.2 = file_load path fs).
Proof.
  intros Htmp Hp. pose proof (file_save_reads p fs Htmp) as Hread.
  destruct (file_save path temporary p fs) as [r fs']. destruct Hread as [Hok Herr]. unfold file_load. cbn. split.
  - intros Hr. rewrite (Hok Hr). by rewrite from_utf8_lossy_ascii, decode_encode_pause by (done || by apply encode_pause_ascii).
  - intros e Hr. by rewrite (Herr e Hr).
Qed.

Lemma file_clear_loads fs : (file_clear path fs).1 = Ok tt → file_load path (file_clear path fs).2 = None.
Proof.
  unfold file_clear, file_load. rewrite bind_run.
  pose proof (remove_ok path fs) as Ho. pose proof (remove_absent path fs) as Ha.
  destruct (file_remove path fs) as [[[]|[]] f]; cbn in *; try done; intros _; [by rewrite Ho|by rewrite Ha].
Qed.

(** The file store keeps the promise the engine relies on. *)
Lemma file_store_laws : temporary ≠ path → @PauseStoreLaws F (file_pause_store path temporary).
Proof.
  intros Htmp. split; cbn.
  - intros p fs Hp. destruct (file_save_loads p fs Htmp Hp) as [Hok _].
    destruct (file_save path temporary p fs) as [[[]|e] fs']; cbn in *; [auto|done].
  - intros fs. pose proof (file_clear_loads fs) as Hc.
    destruct (file_clear path fs) as [[[]|e] fs']; cbn in *; [auto|done].
Qed.
End file_store_lemmas.

(** ** Properties *)

(** The pause file round-trips and fails towards staying paused: every
    pause decodes to itself from what is written for it, and a text that
    decodes to a deadline says exactly [until <u64>] (trimmed); anything else
    is "until I resume". *)
Theorem pause_text_round_trip (p : HeldPause) (text : string) (d : Z) (Hp : pause_in_range p) :
  decode_pause (encode_pause p) = p ∧
  (decode_pause text = Until d → ∃ n, trim text = "until " +:+ n ∧ parse_u64 (trim n) = Some d) ∧
  ((∀ n, trim text ≠ "until " +:+ n) → decode_pause text = UntilResumed).
Proof.
  split; [by apply decode_encode_pause|]. split; [apply decode_until_inv|].
  intros Hn. destruct (decode_pause text) as [|d'] eqn:Hd; [done|].
  apply decode_until_inv in Hd as (n & Ht & _). by destruct (Hn n).
Qed.

Lemma pause_text_round_trip_witness : decode_pause "until 1772193600" = Until 1772193600.
Proof.
  exact (proj1 (pause_text_round_trip (Until 1772193600) "?" 0 ltac:(cbn; widths))).
Defined.

(** The file store is durable and all-or-nothing: a [save] that reports
    success is what the next [load] returns; one that reports an error, at any
    of its three filesystem calls, leaves the held pause as it was; and after a
    successful [clear] (an absent file counts) nothing is held. *)
Theorem file_pause_store_durable {F : Type} `{PauseFilesLaws F} (path temporary : string)
    (p : HeldPause) (fs : F) (Htmp : temporary ≠ path) (Hp : pause_in_range p) :
  let '(r, fs') := file_save path temporary p fs in
  let '(c, fs'') := file_clear path fs in
  (r = Ok tt → file_load path fs' = Some p) ∧
  (∀ e, r = Err e → file_load path fs' = file_load path fs) ∧
  (c = Ok tt → file_load path fs'' = None).
Proof.
  pose proof (file_save_loads path temporary p fs Htmp Hp) as [Hok Herr].
  pose proof (file_clear_loads path fs) as Hclear.
  destruct (file_save path temporary p fs) as [r fs'], (file_clear path fs) as [c fs'']. cbn in *. by split_and!.
Qed.

(** A filesystem that is a map, in which every call succeeds. *)
#[local] Instance map_files : PauseFiles (gmap string string) := {|
  file_read := λ p fs, match fs !! p with Some s => Ok s | None => Err NotFound end;
  create_parent := λ _ fs, (Ok tt, fs);
  write_synced := λ p s fs, (Ok tt, <[p:=s]> fs);
  file_rename := λ a b fs,
    match fs !! a with
    | Some s => (Ok tt, <[b:=s]> (delete a fs))
    | None => (Err NotFound, fs)
    end;
  file_remove := λ p fs,
    match fs !! p with Some _ => (Ok tt, delete p fs) | None => (Err NotFound, fs) end
|}.

#[local] Instance map_files_laws : PauseFilesLaws (gmap string string).
Proof.
  split; cbn; intros.
  - done.
  - by rewrite lookup_insert_ne.
  - by rewrite lookup_insert_eq.
  - destruct (fs !! a) eqn:Ha; cbn in *; [|done]. by rewrite lookup_insert_eq.
  - by destruct (fs !! a).
  - destruct (fs !! p); cbn in *; [|done]. by rewrite lookup_delete_eq.
  - destruct (fs !! p); cbn in *; [by rewrite lookup_delete_ne|done].
  - by destruct (fs !! p) eqn:Hp; cbn in *; [|rewrite Hp].
Qed.

Lemma file_pause_store_durable_witness :
  file_load "pause" (file_save "pause" "pause.tmp" (Until 900) (∅ : gmap string string)).2 = Some (Until 900).
Proof.
  pose proof (file_pause_store_durable "pause" "pause.tmp" (Until 900) (∅ : gmap string string)
    ltac:(done) ltac:(cbn; widths)) as H.
  destruct (file_save "pause" "pause.tmp" (Until 900) (∅ : gmap string string)) as [r fs'] eqn:Hs.
  destruct (file_clear "pause" (∅ : gmap string string)) as [c fs''].
  destruct H as [Hok _]. apply Hok. vm_compute in Hs. by injection Hs as <- _.
Defined.
