(* ===== verification/UrlNorm.v ===== *)
(** * Page-address normalization (crates/observer-model/src/desktop_activity.rs)

    [normalize_url] reduces what a browser shows to scheme, host, port and
    path. [url::Url::parse] is a third-party crate and stays a parameter; the
    address parsers of [std::net] are modelled. *)
From Stdlib Require Import Ascii String.
From S2P Require Import Prelude RustStr.

Local Open Scope string_scope.
Local Open Scope nat_scope.
Local Open Scope list_scope.

(** ** Scanning *)

Definition in_set (cs : string) (c : ascii) : bool :=
  existsb (Ascii.eqb c) (list_ascii_of_string cs).

(** [s.split_once(set)]: the parts around the first byte of [cs]. *)
Fixpoint split_once (cs s : string) : option (string * string) :=
  match s with
  | EmptyString => None
  | String c s =>
    if in_set cs c then Some (EmptyString, s)
    else match split_once cs s with
         | Some (b, a) => Some (String c b, a)
         | None => None
         end
  end.

(** [.map(|(b, _)| b).unwrap_or(s)]. *)
Definition before (cs s : string) : string :=
  match split_once cs s with Some (b, _) => b | None => s end.

(** [s.split(c)]. *)
Fixpoint split_on (c : ascii) (s : string) : list string :=
  match s with
  | EmptyString => [EmptyString]
  | String a s =>
    if Ascii.eqb a c then EmptyString :: split_on c s
    else match split_on c s with
         | [] => [String a EmptyString]
         | l :: ls => String a l :: ls
         end
  end.

Fixpoint drop_str (n : nat) (s : string) : string :=
  match n, s with
  | S n, String _ s => drop_str n s
  | _, _ => s
  end.

Fixpoint take_str (n : nat) (s : string) : string :=
  match n, s with
  | S n, String c s => String c (take_str n s)
  | _, _ => EmptyString
  end.

(** ** [Ipv4Addr::from_str] and [Ipv6Addr::from_str], as validity *)

Definition to_digit (radix : Z) (c : ascii) : option Z :=
  let b := byte_val c in
  let d := if ((48 <=? b) && (b <=? 57))%Z then Some (b - 48)%Z
           else if ((97 <=? b) && (b <=? 122))%Z then Some (b - 87)%Z
           else if ((65 <=? b) && (b <=? 90))%Z then Some (b - 55)%Z
           else None in
  match d with Some d => if (d <? radix)%Z then Some d else None | None => None end.

(** The digits read, their value and the rest; [None] past [max_digits]. *)
Fixpoint read_digits (radix : Z) (max_digits count : nat) (acc : Z) (s : string)
    : option (nat * Z * string) :=
  match s with
  | String c s' =>
    match to_digit radix c with
    | Some d =>
      if max_digits <? S count then None
      else read_digits radix max_digits (S count) (acc * radix + d)%Z s'
    | None => Some (count, acc, s)
    end
  | EmptyString => Some (count, acc, s)
  end.

Definition read_number (radix : Z) (max_digits : nat) (allow_zero_prefix : bool) (limit : Z)
    (s : string) : option string :=
  match read_digits radix max_digits 0 0 s with
  | Some (count, n, rest) =>
    if (count =? 0)%nat then None
    else if negb allow_zero_prefix && starts_with "0" s && (1 <? count) then None
    else if (n <=? limit)%Z then Some rest else None
  | None => None
  end.

Definition read_separator (sep : ascii) (index : nat) (inner : string → option string) (s : string)
    : option string :=
  if (index =? 0)%nat then inner s
  else match s with
       | String c s => if Ascii.eqb c sep then inner s else None
       | EmptyString => None
       end.

Definition read_octet (i : nat) : string → option string :=
  read_separator "."%char i (read_number 10 3 false 255).

Definition read_ipv4_addr (s : string) : option string :=
  s ← read_octet 0 s; s ← read_octet 1 s; s ← read_octet 2 s; read_octet 3 s.

Definition is_ipv4 (s : string) : bool :=
  if 15 <? String.length s then false
  else match read_ipv4_addr s with Some EmptyString => true | _ => false end.

(** [read_groups] with [left] of [limit] slots free: groups read, whether an
    IPv4 tail ended it, and the rest. *)
Fixpoint read_groups (left i : nat) (s : string) : nat * bool * string :=
  match left with
  | O => (i, false, s)
  | S left' =>
    let ipv4 := if 1 <? left then read_separator ":"%char i read_ipv4_addr s else None in
    match ipv4 with
    | Some rest => (i + 2, true, rest)
    | None =>
      match read_separator ":"%char i (read_number 16 4 true 65535) s with
      | Some rest => read_groups left' (S i) rest
      | None => (i, false, s)
      end
    end
  end.

Definition is_ipv6 (s : string) : bool :=
  let '(head_size, head_ipv4, rest) := read_groups 8 0 s in
  if (head_size =? 8)%nat then is_empty rest
  else if head_ipv4 then false
  else match strip_prefix "::" rest with
       | None => false
       | Some rest =>
         let '(_, _, rest) := read_groups (8 - (head_size + 1)) 0 rest in is_empty rest
       end.

(** ** The source *)

Definition label_ok (label : string) : bool :=
  negb (is_empty label || (63 <? String.length label))
  && negb (starts_with "-" label || ends_with label "-")
  && all_bytes (λ c, is_ascii_alphanumeric c || Ascii.eqb c "-"%char) label.

Definition is_legitimate_host (host : string) : bool :=
  if eq_ignore_ascii_case host "localhost" then true
  else if is_ipv4 host then true
  else if starts_with "[" host && ends_with host "]"
          && is_ipv6 (take_str (String.length host - 2) (drop_str 1 host)) then true
  else if negb (contains host ".") || starts_with "." host || ends_with host "." then false
  else forallb label_ok (split_on "."%char host).

(** What [normalize_url] reads of a parsed [url::Url]. *)
Record ParsedUrl : Type := mkParsedUrl {
  url_scheme : string;
  url_host_str : option string;
  url_port : option Z;
  url_path : string
}.

Inductive ExplicitScheme : Type := Http | Https.

Definition is_scheme_token (s : string) : bool :=
  match s with
  | EmptyString => false
  | String c _ =>
    is_ascii_alphabetic c
    && all_bytes (λ c, is_ascii_alphanumeric c || in_set "+.-" c) s
  end.

Definition all_digits (s : string) : bool := all_bytes is_ascii_digit s.

Definition explicit_scheme_of (s : string) : option ExplicitScheme :=
  if (7 <=? String.length s) && eq_ignore_ascii_case (take_str 7 s) "http://" then Some Http
  else if (8 <=? String.length s) && eq_ignore_ascii_case (take_str 8 s) "https://" then Some Https
  else None.

(** Step 3: a scheme token whose colon does not introduce a port. *)
Definition has_foreign_scheme (s : string) : bool :=
  match split_once ":" s with
  | None => false
  | Some (before_colon, after_colon) =>
    if is_scheme_token before_colon then
      let port := before "/?#" after_colon in
      negb (negb (is_empty port) && all_digits port)
    else false
  end.

(** The host of a display-form authority, [None] when it is malformed. *)
Definition display_host (authority : string) : option string :=
  if starts_with "[" authority then
    match split_once "]" authority with
    | None => None
    | Some (h, after) =>
      if negb (is_empty after)
         && (negb (starts_with ":" after) || negb (all_digits (drop_str 1 after))) then None
      else Some (h +:+ "]")
    end
  else match split_once ":" authority with
       | Some (h, port) => if is_empty port || negb (all_digits port) then None else Some h
       | None => Some authority
       end.

Section normalize.
Context (url_parse : string → option ParsedUrl).

(** Steps 2 to 4: the parsed address and whether the input had a slash. *)
Definition parse_display (s : string) : option (ParsedUrl * bool) :=
  match explicit_scheme_of s with
  | Some scheme =>
    match url_parse s with
    | None => None
    | Some parsed =>
      let rest := drop_str (match scheme with Http => 7 | Https => 8 end) s in
      Some (parsed, contains (before "?#" rest) "/")
    end
  | None =>
    if contains s "://" then None
    else if has_foreign_scheme s then None
    else
      let before_query_frag := before "?#" s in
      let authority := before "/" before_query_frag in
      if is_empty authority then None
      else match display_host authority with
           | None => None
           | Some host =>
             if negb (is_legitimate_host host) then None
             else match url_parse ("https://" +:+ s) with
                  | None => None
                  | Some parsed => Some (parsed, contains before_query_frag "/")
                  end
           end
  end.

Definition is_explicit (s : string) : bool :=
  match explicit_scheme_of s with Some _ => true | None => false end.

Definition render_url (explicit : bool) (host : string) (parsed : ParsedUrl) (had_slash : bool) : string :=
  (if explicit then url_scheme parsed +:+ "://" else EmptyString) +:+
  (host +:+
  ((match url_port parsed with Some port => ":" +:+ fmt_dec port | None => EmptyString end) +:+
  (if String.eqb (url_path parsed) "/" && negb had_slash then EmptyString else url_path parsed))).

Definition normalize_url (raw : string) : option string :=
  let s := trim raw in
  if is_empty s then None
  else match parse_display s with
       | None => None
       | Some (parsed, had_slash) =>
         if negb (String.eqb (url_scheme parsed) "http")
            && negb (String.eqb (url_scheme parsed) "https") then None
         else match url_host_str parsed with
              | None => None
              | Some host => Some (render_url (is_explicit s) host parsed had_slash)
              end
       end.
End normalize.

(** ** Properties *)

(** No byte of the text is one of [cs]. *)
Definition free_of (cs s : string) : bool := all_bytes (λ c, negb (in_set cs c)) s.

Lemma digits_free_of d : (0 ≤ d)%Z → free_of "?#" (fmt_dec d) = true.
Proof.
  intros Hd. pose proof (fmt_dec_digits d Hd) as H. unfold free_of. revert H. generalize (fmt_dec d).
  induction s as [|c s IH]; [done|]. cbn [all_bytes]. intros [Hc Hs]%andb_true_iff.
  rewrite IH, andb_true_r by done. revert Hc.
  destruct c as [[] [] [] [] [] [] [] []]; vm_compute; congruence.
Qed.

Section normalize_properties.
Context (url_parse : string → option ParsedUrl).

(** What the [url] crate documents of a parsed web address: its host and its
    path are the parts before the query and the fragment. *)
Definition parser_cuts_query : Prop :=
  ∀ s u, url_parse s = Some u →
    (∀ h, url_host_str u = Some h → free_of "?#" h = true) ∧
    free_of "?#" (url_path u) = true ∧ (∀ p, url_port u = Some p → (0 ≤ p)%Z).

Lemma normalize_url_inv raw out :
  normalize_url url_parse raw = Some out →
  ∃ parsed host had_slash,
    parse_display url_parse (trim raw) = Some (parsed, had_slash) ∧
    (url_scheme parsed = "http" ∨ url_scheme parsed = "https") ∧
    url_host_str parsed = Some host ∧
    out = render_url (is_explicit (trim raw)) host parsed had_slash.
Proof.
  unfold normalize_url. destruct (is_empty (trim raw)); [done|].
  destruct (parse_display _ _) as [[parsed had_slash]|]; [|done].
  destruct (String.eqb_spec (url_scheme parsed) "http") as [Hh|],
    (String.eqb_spec (url_scheme parsed) "https") as [Hs|]; cbn; try done;
    (destruct (url_host_str parsed) as [host|] eqn:?; [|done]); intros [= <-];
    exists parsed, host, had_slash; auto.
Qed.

Lemma parse_display_inv s parsed slash :
  parse_display url_parse s = Some (parsed, slash) →
  (is_explicit s = true ∧ url_parse s = Some parsed) ∨
  (is_explicit s = false ∧ contains s "://" = false ∧ has_foreign_scheme s = false ∧
   url_parse ("https://" +:+ s) = Some parsed ∧
   ∃ host, display_host (before "/" (before "?#" s)) = Some host ∧ is_legitimate_host host = true).
Proof.
  unfold parse_display, is_explicit. destruct (explicit_scheme_of s).
  { destruct (url_parse s); [|done]. intros [= <- _]. auto. }
  destruct (contains s "://"); [done|]. destruct (has_foreign_scheme s); [done|].
  destruct (is_empty _); [done|]. destruct (display_host _) as [host|]; [|done].
  destruct (is_legitimate_host host) eqn:Hh; [|done]; cbn [negb].
  destruct (url_parse _); [|done]. intros [= <- _]. right. eauto 10.
Qed.

(** A stored page address never carries a query or a fragment, and only
    web addresses are stored: whatever the browser shows, a normalized result
    is the parsed http(s) scheme (only when it was written), host, port and
    path of that text, free of [?] and [#]; a text with any other scheme is
    refused, and without a scheme the host must be localhost, an IP literal or
    a dotted name. *)
Theorem normalize_url_keeps_no_query (raw out : string)
    (Hparser : parser_cuts_query) (Hn : normalize_url url_parse raw = Some out) :
  free_of "?#" out = true ∧
  (∃ parsed host path,
     (url_parse (trim raw) = Some parsed ∨ url_parse ("https://" +:+ trim raw) = Some parsed) ∧
     (url_scheme parsed = "http" ∨ url_scheme parsed = "https") ∧
     url_host_str parsed = Some host ∧ (path = url_path parsed ∨ path = EmptyString) ∧
     out = (if is_explicit (trim raw) then url_scheme parsed +:+ "://" else EmptyString) +:+
           (host +:+ (match url_port parsed with Some p => ":" +:+ fmt_dec p | None => EmptyString end +:+ path))) ∧
  (is_explicit (trim raw) = false →
     contains (trim raw) "://" = false ∧ has_foreign_scheme (trim raw) = false ∧
     ∃ host, display_host (before "/" (before "?#" (trim raw))) = Some host ∧ is_legitimate_host host = true).
Proof.
  apply normalize_url_inv in Hn as (parsed & host & slash & Hp & Hscheme & Hhost & ->).
  apply parse_display_inv in Hp as Hd.
  assert (Hsome : url_parse (trim raw) = Some parsed ∨ url_parse ("https://" +:+ trim raw) = Some parsed)
    by naive_solver.
  assert (Hclean : free_of "?#" host = true ∧ free_of "?#" (url_path parsed) = true ∧
    ∀ p, url_port parsed = Some p → (0 ≤ p)%Z) by (destruct Hsome as [H|H]; apply Hparser in H; naive_solver).
  destruct Hclean as (Hh & Hpath & Hport). split_and!.
  - unfold render_url, free_of in *. rewrite !all_bytes_app, Hh. cbn [andb].
    assert (Hs : all_bytes (λ c, negb (in_set "?#" c))
      (if is_explicit (trim raw) then url_scheme parsed +:+ "://" else EmptyString) = true).
    { destruct (is_explicit _); [|done]. by destruct Hscheme as [-> | ->]. }
    rewrite Hs; cbn [andb]. apply andb_true_iff. split.
    + destruct (url_port parsed) as [p|]; [|done]. rewrite all_bytes_app.
      apply andb_true_iff. split; [done|]. apply digits_free_of, Hport. done.
    + by destruct (_ && _).
  - exists parsed, host, (if String.eqb (url_path parsed) "/" && negb slash then EmptyString else url_path parsed).
    split_and!; try done. destruct (_ && _); auto.
  - intros He. destruct Hd as [[? _]|(_ & ? & ? & _ & ?)]; [congruence|done].
Qed.
End normalize_properties.

(** A parser that knows one address. *)
Definition one_url (s : string) : option ParsedUrl :=
  if String.eqb s "https://example.com/a?token=1" then
    Some (mkParsedUrl "https" (Some "example.com") None "/a")
  else None.

Lemma normalize_url_keeps_no_query_witness :
  normalize_url one_url " example.com/a?token=1" = Some "example.com/a" ∧
  free_of "?#" "example.com/a" = true.
Proof.
  assert (Hn : normalize_url one_url " example.com/a?token=1" = Some "example.com/a") by reflexivity.
  split; [done|]. refine (proj1 (normalize_url_keeps_no_query one_url " example.com/a?token=1" _ _ Hn)).
  intros s u. unfold one_url. destruct (String.eqb s _); [|done]. intros [= <-]; cbn.
  split; [by intros h [= <-]|]. split; [reflexivity|done].
Defined.
