(* ===== verification/DesktopActivity.v ===== *)
(** * Desktop activity: rows and scheduler
    (crates/observer-model/src/desktop_activity.rs,
     crates/capture-engine/src/desktop_activity.rs)

    The scheduler owns the open intervals (foreground window, activity state,
    unavailable capabilities) and the URL request in flight; each operation
    returns the rows it closed. The probe ([DesktopActivitySource]) and the
    shared exclusion handles are the world [W], read at the points where the
    source reads them: another thread may change the handles between reads. *)
From Stdlib Require Import Ascii String Sorted.
From S2P Require Import Prelude RustStr Model Exclusion Civil UrlNorm.

Local Open Scope string_scope.
Local Open Scope list_scope.

(** ** Data *)

Inductive ActivityState : Type := ActActive | ActIdle | ActLocked.
Inductive AvailabilityCapability : Type := CapForeground | CapTitle | CapUrl | CapIdle.
Inductive AvailabilityStatus : Type := StUnavailable | StDenied | StUnsupported.

#[global] Instance ActivityState_eq_dec : EqDecision ActivityState.
Proof. solve_decision. Defined.
#[global] Instance AvailabilityCapability_eq_dec : EqDecision AvailabilityCapability.
Proof. solve_decision. Defined.
#[global] Instance AvailabilityStatus_eq_dec : EqDecision AvailabilityStatus.
Proof. solve_decision. Defined.

Definition capability_encode (c : AvailabilityCapability) : positive :=
  match c with CapForeground => 1 | CapTitle => 2 | CapUrl => 3 | CapIdle => 4 end%positive.
Definition capability_decode (p : positive) : option AvailabilityCapability :=
  match p with
  | 1 => Some CapForeground | 2 => Some CapTitle | 3 => Some CapUrl | 4 => Some CapIdle
  | _ => None
  end%positive.
#[global] Program Instance capability_countable : Countable AvailabilityCapability :=
  {| encode := capability_encode; decode := capability_decode |}.
Next Obligation. by intros []. Qed.

Definition activity_as_str (s : ActivityState) : string :=
  match s with ActActive => "active" | ActIdle => "idle" | ActLocked => "locked" end.
Definition capability_as_str (c : AvailabilityCapability) : string :=
  match c with
  | CapForeground => "foreground" | CapTitle => "title" | CapUrl => "url" | CapIdle => "idle"
  end.
Definition status_as_str (s : AvailabilityStatus) : string :=
  match s with
  | StUnavailable => "unavailable" | StDenied => "denied" | StUnsupported => "unsupported"
  end.

Record ForegroundPayload : Type := mkForegroundPayload {
  fp_app : string;
  fp_app_id : option string;
  fp_title : option string;
  fp_url : option string
}.

Inductive DesktopActivityPayload : Type :=
| PForeground (p : ForegroundPayload)
| PActivity (state : string)
| PAvailability (capability status : string).

Record DesktopActivityRow : Type := mkRow {
  row_v : Z;
  row_t : string;
  row_kind : string;
  row_method : string;
  row_ts : Z;
  row_end_ts : Z;
  row_payload : DesktopActivityPayload
}.

Definition row_foreground (ts end_ts : Z) (app : string) (app_id title url : option string)
    : DesktopActivityRow :=
  mkRow 1 "desktop_activity" "foreground" "winevent" ts end_ts
    (PForeground (mkForegroundPayload app app_id title url)).

Definition row_activity (ts end_ts : Z) (state : ActivityState) : DesktopActivityRow :=
  mkRow 1 "desktop_activity" "activity" "winevent" ts end_ts (PActivity (activity_as_str state)).

Definition row_availability (ts end_ts : Z) (method : string) (capability : AvailabilityCapability)
    (status : AvailabilityStatus) : DesktopActivityRow :=
  mkRow 1 "desktop_activity" "availability" method ts end_ts
    (PAvailability (capability_as_str capability) (status_as_str status)).

Inductive DesktopActivityProbeEvent : Type :=
| EvForeground (window_id : Z) (app exe_name title : string)
| EvTitleChanged (window_id : Z) (title : string)
| EvActivityStateChanged (state : ActivityState)
| EvForegroundUnavailable
| EvIdleUnavailable.

Record DesktopActivityUrlRequest : Type := mkUrlRequest {
  req_generation : Z;
  req_window_id : Z;
  req_exe_name : string;
  req_title_fingerprint : Z
}.

Record DesktopActivityUrlResult : Type := mkUrlResult {
  res_generation : Z;
  res_window_id : Z;
  res_url : option string;
  res_unavailable : bool
}.

Record ForegroundSnapshot : Type := mkForegroundSnapshot {
  snap_window_id : Z;
  snap_app : string;
  snap_exe_name : string;
  snap_title : string
}.

Class DesktopActivitySource (W : Type) : Type := {
  das_start : M W (result unit SourceError);
  das_stop : M W unit;
  das_state : W → SourceState;
  das_poll_events : M W (list DesktopActivityProbeEvent);
  das_poll_coarse_events : M W (list DesktopActivityProbeEvent);
  das_request_url : DesktopActivityUrlRequest → M W unit;
  das_poll_url_result : M W (option DesktopActivityUrlResult);
  das_cancel_url : M W unit;
  das_foreground_snapshot : M W (option ForegroundSnapshot)
}.

(** The shared handles ([None] is a poisoned lock) and the two functions the
    scheduler takes from outside the repository: [url::Url::parse] and the
    unspecified hash of [title_fingerprint]. *)
Class ActivityHost (W : Type) : Type := {
  read_rules_handle : M W (option ExclusionRules);
  load_available_handle : M W bool;
  host_url_parse : string → option ParsedUrl;
  title_fingerprint : string → Z
}.

Definition activity_file_name (boundary_epoch_secs offset_secs : Z) (artifact_id : string)
    (period_secs : Z) : string :=
  segment_key_string_local boundary_epoch_secs offset_secs period_secs +:+
  ("_" +:+ (artifact_id +:+ "_desktop_activity.jsonl")).

Record OpenForeground : Type := mkOpenForeground {
  fg_start_ms : Z;
  fg_window_id : Z;
  fg_app : string;
  fg_exe_name : string;
  fg_raw_title : string;
  fg_title : option string;
  fg_url : option string
}.

Record OpenActivity : Type := mkOpenActivity { act_start_ms : Z; act_state : ActivityState }.

Record OpenAvailability : Type := mkOpenAvailability {
  avail_start_ms : Z;
  avail_status : AvailabilityStatus
}.

Record UrlScheduleState : Type := mkUrlScheduleState {
  url_generation : Z;
  requested_window_id : option Z;
  requested_at_ms : option Z;
  last_poll_at_ms : option Z;
  in_flight : bool
}.

Record DesktopActivityScheduler : Type := mkScheduler {
  window_titles : bool;
  page_addresses : bool;
  exclusion_rules : ExclusionRules;
  exclusion_rules_handle : bool;
  exclusion_available_handle : bool;
  artifact_id : string;
  open_foreground : option OpenForeground;
  open_activity : option OpenActivity;
  open_availabilities : gmap (AvailabilityCapability * string) OpenAvailability;
  url_state : UrlScheduleState;
  is_locked : bool
}.

Definition new_scheduler (window_titles page_addresses : bool) (rules : ExclusionRules)
    (artifact_id : string) : DesktopActivityScheduler :=
  mkScheduler window_titles page_addresses rules false false artifact_id None None ∅
    (mkUrlScheduleState 0 None None None false) false.

(** ** Field updates *)

Definition set_prefs (wt pa : bool) (s : DesktopActivityScheduler) : DesktopActivityScheduler :=
  mkScheduler wt pa (exclusion_rules s) (exclusion_rules_handle s) (exclusion_available_handle s)
    (artifact_id s) (open_foreground s) (open_activity s) (open_availabilities s) (url_state s)
    (is_locked s).
Definition set_rules (r : ExclusionRules) (s : DesktopActivityScheduler) : DesktopActivityScheduler :=
  mkScheduler (window_titles s) (page_addresses s) r (exclusion_rules_handle s)
    (exclusion_available_handle s) (artifact_id s) (open_foreground s) (open_activity s)
    (open_availabilities s) (url_state s) (is_locked s).
Definition set_handles (rh ah : bool) (s : DesktopActivityScheduler) : DesktopActivityScheduler :=
  mkScheduler (window_titles s) (page_addresses s) (exclusion_rules s) rh ah (artifact_id s)
    (open_foreground s) (open_activity s) (open_availabilities s) (url_state s) (is_locked s).
Definition set_artifact_id (a : string) (s : DesktopActivityScheduler) : DesktopActivityScheduler :=
  mkScheduler (window_titles s) (page_addresses s) (exclusion_rules s) (exclusion_rules_handle s)
    (exclusion_available_handle s) a (open_foreground s) (open_activity s) (open_availabilities s)
    (url_state s) (is_locked s).
Definition set_fg (fg : option OpenForeground) (s : DesktopActivityScheduler)
    : DesktopActivityScheduler :=
  mkScheduler (window_titles s) (page_addresses s) (exclusion_rules s) (exclusion_rules_handle s)
    (exclusion_available_handle s) (artifact_id s) fg (open_activity s) (open_availabilities s)
    (url_state s) (is_locked s).
Definition set_act (a : option OpenActivity) (s : DesktopActivityScheduler)
    : DesktopActivityScheduler :=
  mkScheduler (window_titles s) (page_addresses s) (exclusion_rules s) (exclusion_rules_handle s)
    (exclusion_available_handle s) (artifact_id s) (open_foreground s) a (open_availabilities s)
    (url_state s) (is_locked s).
Definition set_avails (m : gmap (AvailabilityCapability * string) OpenAvailability)
    (s : DesktopActivityScheduler) : DesktopActivityScheduler :=
  mkScheduler (window_titles s) (page_addresses s) (exclusion_rules s) (exclusion_rules_handle s)
    (exclusion_available_handle s) (artifact_id s) (open_foreground s) (open_activity s) m
    (url_state s) (is_locked s).
Definition set_url_state (u : UrlScheduleState) (s : DesktopActivityScheduler)
    : DesktopActivityScheduler :=
  mkScheduler (window_titles s) (page_addresses s) (exclusion_rules s) (exclusion_rules_handle s)
    (exclusion_available_handle s) (artifact_id s) (open_foreground s) (open_activity s)
    (open_availabilities s) u (is_locked s).
Definition set_locked (b : bool) (s : DesktopActivityScheduler) : DesktopActivityScheduler :=
  mkScheduler (window_titles s) (page_addresses s) (exclusion_rules s) (exclusion_rules_handle s)
    (exclusion_available_handle s) (artifact_id s) (open_foreground s) (open_activity s)
    (open_availabilities s) (url_state s) b.

(** The rows that close an open interval at [now]. *)
Definition fg_row (now : Z) (fg : OpenForeground) : DesktopActivityRow :=
  row_foreground (fg_start_ms fg) (Z.max now (fg_start_ms fg)) (fg_app fg) (Some (fg_exe_name fg))
    (fg_title fg) (fg_url fg).
Definition act_row (now : Z) (a : OpenActivity) : DesktopActivityRow :=
  row_activity (act_start_ms a) (Z.max now (act_start_ms a)) (act_state a).
Definition avail_row (now : Z) (key : AvailabilityCapability * string) (a : OpenAvailability)
    : DesktopActivityRow :=
  row_availability (avail_start_ms a) (Z.max now (avail_start_ms a)) key.2 key.1 (avail_status a).

Definition is_browser (exe_name : string) : bool :=
  String.eqb exe_name "msedge.exe" || String.eqb exe_name "chrome.exe".

(** ** Operations *)

Record SchedIO (W : Type) : Type := mkSchedIO { sch : DesktopActivityScheduler; src : W }.
Arguments mkSchedIO {W} _ _.
Arguments sch {W} _.
Arguments src {W} _.

Notation rows := (list DesktopActivityRow).

Section scheduler.
Context {W : Type} `{DesktopActivitySource W, ActivityHost W}.

Notation ops := (M (SchedIO W)).

Definition upd (f : DesktopActivityScheduler → DesktopActivityScheduler) : ops unit :=
  modify (λ s, mkSchedIO (f (sch s)) (src s)).
Definition probe {A} (m : M W A) : ops A :=
  λ s, ((m (src s)).1, mkSchedIO (sch s) (m (src s)).2).

(** [rows.extend(a); rows.extend(b)], and a statement that emits no row. *)
Definition and_then (a b : ops rows) : ops rows := r ← a; r' ← b; mret (r ++ r').
Notation "a +++ b" := (and_then a b) (at level 60, right associativity).
Definition quiet (m : ops unit) : ops rows := m ;; mret [].
Definition no_rows : ops rows := mret [].
Definition emit_opt (m : ops (option DesktopActivityRow)) : ops rows :=
  r ← m; mret (match r with Some row => [row] | None => [] end).
Fixpoint each {A} (xs : list A) (body : A → ops rows) : ops rows :=
  match xs with [] => no_rows | x :: xs => body x +++ each xs body end.

Definition is_exclusion_available : ops bool :=
  s ← gets sch;
  if exclusion_available_handle s then probe load_available_handle else mret true.

(** Forget the URL request: [generation += 1] and the three resets. *)
Definition retire_request : ops unit :=
  upd (λ s, let u := url_state s in
            set_url_state (mkUrlScheduleState (wrap_u64 (url_generation u + 1)) None None
                             (last_poll_at_ms u) false) s).

Definition cancel_request : ops unit := retire_request ;; probe das_cancel_url.

(** [if self.url_state.in_flight { ... source.cancel_url() }]. *)
Definition cancel_in_flight : ops unit :=
  s ← gets sch; when (in_flight (url_state s)) cancel_request.

Definition transition_availability (now : Z) (method : string) (capability : AvailabilityCapability)
    (status : AvailabilityStatus) : ops (option DesktopActivityRow) :=
  s ← gets sch;
  let key := (capability, method) in
  let existing := open_availabilities s !! key in
  match existing with
  | Some a =>
    if decide (avail_status a = status) then mret None
    else upd (set_avails (<[key := mkOpenAvailability now status]> (open_availabilities s))) ;;
         mret (Some (avail_row now key a))
  | None =>
    upd (set_avails (<[key := mkOpenAvailability now status]> (open_availabilities s))) ;; mret None
  end.

Definition close_availability (now : Z) (method : string) (capability : AvailabilityCapability)
    : ops (option DesktopActivityRow) :=
  s ← gets sch;
  let key := (capability, method) in
  upd (set_avails (delete key (open_availabilities s))) ;;
  mret (avail_row now key <$> open_availabilities s !! key).

Definition url_unavailable (now : Z) : ops rows :=
  emit_opt (transition_availability now "uia" CapUrl StUnavailable).

(** [if let Some(old) = self.open_foreground.take() { rows.push(..) }]. *)
Definition close_foreground (now : Z) : ops rows :=
  s ← gets sch;
  upd (set_fg None) ;;
  mret (match open_foreground s with Some fg => [fg_row now fg] | None => [] end).

Definition close_activity (now : Z) : ops rows :=
  s ← gets sch;
  upd (set_act None) ;;
  mret (match open_activity s with Some a => [act_row now a] | None => [] end).

(** Split the open foreground at [now], continuing with address [url]. *)
Definition split_foreground_url (now : Z) (url : option string) (fg : OpenForeground) : ops rows :=
  upd (set_fg (Some (mkOpenForeground now (fg_window_id fg) (fg_app fg) (fg_exe_name fg)
                       (fg_raw_title fg) (fg_title fg) url))) ;;
  mret [fg_row now fg].

(** [if fg.url.is_some() { split; fg.url = None }]. *)
Definition drop_url (now : Z) : ops rows :=
  s ← gets sch;
  match open_foreground s with
  | Some fg => if decide (is_Some (fg_url fg)) then split_foreground_url now None fg else no_rows
  | None => no_rows
  end.

Definition set_preferences (titles addresses : bool) (now : Z) : ops rows :=
  s ← gets sch;
  let titles_changed := negb (Bool.eqb (window_titles s) titles) in
  let addresses_changed := negb (Bool.eqb (page_addresses s) addresses) in
  let turning_off_titles := window_titles s && negb titles in
  let turning_off_addresses := page_addresses s && negb addresses in
  upd (set_prefs titles addresses) ;;
  quiet (when (turning_off_titles || turning_off_addresses) cancel_request) +++
  (if turning_off_addresses then emit_opt (close_availability now "uia" CapUrl) else no_rows) +++
  (match open_foreground s with
   | None => no_rows
   | Some fg =>
     let new_title := if titles then Some (fg_raw_title fg) else None in
     let new_url := if addresses then fg_url fg else None in
     if (titles_changed && negb (bool_decide (fg_title fg = new_title)))
        || (addresses_changed && negb (bool_decide (fg_url fg = new_url)))
     then upd (set_fg (Some (mkOpenForeground now (fg_window_id fg) (fg_app fg) (fg_exe_name fg)
                               (fg_raw_title fg) new_title new_url))) ;;
          mret [fg_row now fg]
     else no_rows
   end).

Definition set_exclusion_rules (rules : ExclusionRules) (now : Z) : ops rows :=
  upd (set_rules rules) ;;
  s ← gets sch;
  match open_foreground s with
  | Some fg =>
    if foreground_excluded rules (fg_exe_name fg) (fg_raw_title fg)
    then close_foreground now +++ quiet cancel_request
    else no_rows
  | None => no_rows
  end.

(** The re-read of the shared rules, when they differ from those in force. *)
Definition refresh_rules (now : Z) : ops rows :=
  s ← gets sch;
  if exclusion_rules_handle s then
    r ← probe read_rules_handle;
    match r with
    | Some rules => if decide (rules = exclusion_rules s) then no_rows
                    else set_exclusion_rules rules now
    | None => no_rows
    end
  else no_rows.

(** Request the page address of a browser window, or note that this window
    has none. *)
Definition request_or_note (now window_id : Z) (exe_name raw_title : string) : ops rows :=
  s ← gets sch;
  if page_addresses s && negb (is_locked s) then
    if is_browser exe_name then
      let g := url_generation (url_state s) in
      upd (set_url_state (mkUrlScheduleState g (Some window_id) (Some now) (Some now) true)) ;;
      quiet (probe (das_request_url (mkUrlRequest g window_id exe_name (title_fingerprint raw_title))))
    else url_unavailable now
  else no_rows.

Definition open_window (now window_id : Z) (app exe_name title : string) : ops unit :=
  upd (λ s, set_fg (Some (mkOpenForeground now window_id app exe_name title
                            (if window_titles s then Some title else None) None)) s).

Definition handle_event (event : DesktopActivityProbeEvent) (now : Z) : ops rows :=
  s ← gets sch;
  match event with
  | EvForeground window_id app exe_name title =>
    if is_locked s then no_rows
    else if foreground_excluded (exclusion_rules s) exe_name title then
      close_foreground now +++ quiet cancel_in_flight
    else if match open_foreground s with
            | Some cur => (fg_window_id cur =? window_id)%Z && String.eqb (fg_raw_title cur) title
                          && String.eqb (fg_app cur) app
            | None => false
            end then no_rows
    else
      close_foreground now +++ quiet cancel_in_flight +++
      quiet (open_window now window_id app exe_name title) +++
      emit_opt (close_availability now "winevent" CapForeground) +++
      request_or_note now window_id exe_name title
  | EvTitleChanged window_id title =>
    if is_locked s then no_rows
    else match open_foreground s with
    | None => no_rows
    | Some cur =>
      if negb (fg_window_id cur =? window_id)%Z then no_rows
      else if String.eqb (fg_raw_title cur) title then no_rows
      else if foreground_excluded (exclusion_rules s) (fg_exe_name cur) title then
        close_foreground now +++ quiet cancel_in_flight
      else
        close_foreground now +++ quiet cancel_in_flight +++
        quiet (open_window now window_id (fg_app cur) (fg_exe_name cur) title) +++
        request_or_note now window_id (fg_exe_name cur) title
    end
  | EvActivityStateChanged new_state =>
    let state_changed := match open_activity s with
                         | Some a => negb (bool_decide (act_state a = new_state))
                         | None => true
                         end in
    (if state_changed
     then close_activity now +++ quiet (upd (set_act (Some (mkOpenActivity now new_state))))
     else no_rows) +++
    (if decide (new_state = ActLocked)
     then quiet (upd (set_locked true)) +++ close_foreground now +++ quiet cancel_in_flight
     else quiet (upd (set_locked false))) +++
    emit_opt (close_availability now "winevent" CapIdle)
  | EvForegroundUnavailable =>
    close_foreground now +++ quiet cancel_in_flight +++
    emit_opt (transition_availability now "winevent" CapForeground StUnavailable)
  | EvIdleUnavailable =>
    close_activity now +++
    emit_opt (transition_availability now "winevent" CapIdle StUnavailable)
  end.

(** The admitted part of a URL result: window, preferences, exclusions and a
    fresh snapshot all agree that the page is still the one asked about. *)
Definition admit_url (result : DesktopActivityUrlResult) (now : Z) : ops rows :=
  if res_unavailable result then url_unavailable now +++ drop_url now
  else
    emit_opt (close_availability now "uia" CapUrl) +++
    match res_url result with
    | None => drop_url now
    | Some raw_url =>
      match normalize_url host_url_parse raw_url with
      | None => drop_url now
      | Some norm_url =>
        s ← gets sch;
        match open_foreground s with
        | None => no_rows
        | Some fg =>
          if decide (fg_url fg = Some norm_url) then no_rows
          else split_foreground_url now (Some norm_url) fg
        end
      end
    end.

(** [handle_url_result] once the rules are fresh. *)
Definition match_url_result (result : DesktopActivityUrlResult) (now : Z) : ops rows :=
  s ← gets sch;
  if negb (res_generation result =? url_generation (url_state s))%Z then no_rows
  else
    upd (λ s, let u := url_state s in
              set_url_state (mkUrlScheduleState (url_generation u) (requested_window_id u) None
                               (last_poll_at_ms u) false) s) ;;
    match open_foreground s with
    | None => no_rows
    | Some fg =>
      if negb (bool_decide (Some (fg_window_id fg) = requested_window_id (url_state s)))
         || negb (fg_window_id fg =? res_window_id result)%Z then no_rows
      else if negb (page_addresses s) || is_locked s then no_rows
      else if foreground_excluded (exclusion_rules s) (fg_exe_name fg) (fg_raw_title fg) then no_rows
      else
        snapshot ← probe das_foreground_snapshot;
        match snapshot with
        | None => no_rows
        | Some snap =>
          if negb (snap_window_id snap =? fg_window_id fg)%Z
             || negb (String.eqb (snap_exe_name snap) (fg_exe_name fg))
             || negb (String.eqb (snap_title snap) (fg_raw_title fg))
             || foreground_excluded (exclusion_rules s) (snap_exe_name snap) (snap_title snap)
          then no_rows
          else admit_url result now
        end
    end.

Definition handle_url_result (result : DesktopActivityUrlResult) (now : Z) : ops rows :=
  available ← is_exclusion_available;
  if negb available then no_rows
  else refresh_rules now +++ match_url_result result now.

(** Exclusion rules cannot be read: nothing about any window is recorded. *)
Definition step_unavailable (now : Z) : ops rows :=
  quiet cancel_in_flight +++
  quiet (upd (set_fg None)) +++
  (events ← probe das_poll_coarse_events;
   each events (λ event,
     match event with
     | EvActivityStateChanged _ | EvIdleUnavailable => handle_event event now
     | _ => no_rows
     end)) +++
  emit_opt (transition_availability now "winevent" CapForeground StUnavailable) +++
  url_unavailable now.

(** The two-second deadline of a URL request. *)
Definition expire_request (now : Z) : ops rows :=
  s ← gets sch;
  match in_flight (url_state s), requested_at_ms (url_state s) with
  | true, Some req_time =>
    if (2000 <=? sat_sub now req_time)%Z then
      quiet (probe das_cancel_url) +++ url_unavailable now +++ drop_url now +++ quiet retire_request
    else no_rows
  | _, _ => no_rows
  end.

(** The four-second re-read of a browser's page address. *)
Definition reread_url (now : Z) : ops rows :=
  s ← gets sch;
  match open_foreground s with
  | None => no_rows
  | Some fg =>
    if page_addresses s && negb (is_locked s) then
      if is_browser (fg_exe_name fg) then
        let u := url_state s in
        let should_request :=
          if in_flight u then false
          else match last_poll_at_ms u with
               | None => true
               | Some last => (4000 <=? sat_sub now last)%Z
               end in
        if should_request then
          let g := wrap_u64 (url_generation u + 1) in
          upd (set_url_state (mkUrlScheduleState g (Some (fg_window_id fg)) (Some now) (Some now) true)) ;;
          quiet (probe (das_request_url (mkUrlRequest g (fg_window_id fg) (fg_exe_name fg)
                                           (title_fingerprint (fg_raw_title fg)))))
        else no_rows
      else url_unavailable now
    else no_rows
  end.

Definition poll_and_step (now : Z) : ops rows :=
  refresh_rules now +++
  (available ← is_exclusion_available;
   if negb available then step_unavailable now
   else
     (events ← probe das_poll_events; each events (λ event, handle_event event now)) +++
     (s ← gets sch;
      if bool_decide (open_foreground s = None) && negb (is_locked s) then
        snapshot ← probe das_foreground_snapshot;
        match snapshot with
        | Some snap =>
          handle_event (EvForeground (snap_window_id snap) (snap_app snap) (snap_exe_name snap)
                          (snap_title snap)) now
        | None => no_rows
        end
      else no_rows) +++
     (result ← probe das_poll_url_result;
      match result with Some result => handle_url_result result now | None => no_rows end) +++
     expire_request now +++
     reread_url now).

(** The rows come in the map's iteration order, which [HashMap] leaves open. *)
Definition on_boundary (boundary_ms : Z) : ops rows :=
  s ← gets sch;
  upd (λ s, set_fg ((λ fg, mkOpenForeground boundary_ms (fg_window_id fg) (fg_app fg) (fg_exe_name fg)
                             (fg_raw_title fg) (fg_title fg) (fg_url fg)) <$> open_foreground s) s) ;;
  upd (λ s, set_act ((λ a, mkOpenActivity boundary_ms (act_state a)) <$> open_activity s) s) ;;
  upd (λ s, set_avails ((λ a, mkOpenAvailability boundary_ms (avail_status a)) <$> open_availabilities s) s) ;;
  mret ((match open_foreground s with Some fg => [fg_row boundary_ms fg] | None => [] end) ++
        (match open_activity s with Some a => [act_row boundary_ms a] | None => [] end) ++
        ((λ '(key, a), avail_row boundary_ms key a) <$> map_to_list (open_availabilities s))).

Definition close_all (now : Z) : ops rows :=
  upd (set_locked false) ;; cancel_request ;;
  s ← gets sch;
  close_foreground now +++ close_activity now +++
  (upd (set_avails ∅) ;;
   mret ((λ '(key, a), avail_row now key a) <$> map_to_list (open_availabilities s))).

Definition source_unavailable (now : Z) : ops rows :=
  s ← gets sch;
  (if bool_decide (is_Some (open_foreground s)) || bool_decide (is_Some (open_activity s))
      || in_flight (url_state s)
   then close_all now
   else quiet (probe das_cancel_url)) +++
  emit_opt (transition_availability now "winevent" CapForeground StUnavailable) +++
  emit_opt (transition_availability now "winevent" CapIdle StUnavailable).
End scheduler.

(** ** Privacy invariant

    A policy is what the owner allows at one time: exclusion rules, whether
    titles and whether page addresses are kept. [fg_ok] is what the scheduler
    may hold open under a policy, [row_ok] what a row may say under it. *)

Record Policy : Type := mkPolicy {
  pol_rules : ExclusionRules;
  pol_titles : bool;
  pol_addresses : bool
}.

Definition policy (s : DesktopActivityScheduler) : Policy :=
  mkPolicy (exclusion_rules s) (window_titles s) (page_addresses s).

Definition with_rules (p : Policy) (r : ExclusionRules) : Policy :=
  mkPolicy r (pol_titles p) (pol_addresses p).

Definition admits (p : Policy) (exe raw : string) (title url : option string) : Prop :=
  foreground_excluded (pol_rules p) exe raw = false ∧
  title = (if pol_titles p then Some raw else None) ∧
  (is_Some url → pol_addresses p = true).

Definition fg_ok (p : Policy) (fg : option OpenForeground) : Prop :=
  match fg with
  | Some fg => admits p (fg_exe_name fg) (fg_raw_title fg) (fg_title fg) (fg_url fg)
  | None => True
  end.

Definition row_ok (p : Policy) (row : DesktopActivityRow) : Prop :=
  (row_ts row ≤ row_end_ts row)%Z ∧
  match row_payload row with
  | PForeground fp => ∃ exe raw, fp_app_id fp = Some exe ∧ admits p exe raw (fp_title fp) (fp_url fp)
  | _ => True
  end.

Definition is_foreground_row (row : DesktopActivityRow) : bool :=
  match row_payload row with PForeground _ => true | _ => false end.

Lemma fg_row_ok p now fg : fg_ok p (Some fg) → row_ok p (fg_row now fg).
Proof. intros Hfg. split; [cbn; lia|]. cbn. eauto. Qed.

Lemma act_row_ok p now a : row_ok p (act_row now a).
Proof. split; [cbn; lia|done]. Qed.

Lemma avail_row_ok p now key a : row_ok p (avail_row now key a).
Proof. split; [cbn; lia|done]. Qed.

Section privacy.
Context {W : Type} `{DesktopActivitySource W, ActivityHost W}.

(** [I] is a property of the probe that every call keeps, except that a URL
    request keeps it when some policy of [P] lets the address be read; and
    wherever [I] holds, [P] knows about the rules the shared handle holds. *)
Record world_keeps (I : W → Prop) (P : Policy → Prop) : Prop := {
  keeps_cancel : pres I das_cancel_url;
  keeps_snapshot : pres I das_foreground_snapshot;
  keeps_poll : pres I das_poll_events;
  keeps_coarse : pres I das_poll_coarse_events;
  keeps_result : pres I das_poll_url_result;
  keeps_read : pres I read_rules_handle;
  keeps_load : pres I load_available_handle;
  keeps_request p g wid exe raw :
    P p → pol_addresses p = true → is_browser exe = true →
    foreground_excluded (pol_rules p) exe raw = false →
    pres I (das_request_url (mkUrlRequest g wid exe (title_fingerprint raw)));
  handle_within w r p : I w → (read_rules_handle w).1 = Some r → P p → P (with_rules p r)
}.

Context (I : W → Prop) (P : Policy → Prop) (HW : world_keeps I P).

(** The scheduler is under policy [p], unlocked or with no window open. *)
Definition sched_inv (p : Policy) (l : bool) (st : SchedIO W) : Prop :=
  policy (sch st) = p ∧ is_locked (sch st) = l ∧ fg_ok p (open_foreground (sch st)) ∧
  (l = true → open_foreground (sch st) = None) ∧ I (src st).

(** [m] keeps the invariant and emits only rows in [Q]. *)
Definition emits (J : SchedIO W → Prop) (Q : DesktopActivityRow → Prop) (m : M (SchedIO W) rows) : Prop :=
  ∀ st, J st → J (m st).2 ∧ Forall Q (m st).1.

Lemma emits_and_then J Q a b : emits J Q a → emits J Q b → emits J Q (and_then a b).
Proof.
  intros Ha Hb st Hst. unfold and_then. rewrite !bind_run. destruct (Ha st Hst) as [HJ HQ].
  destruct (Hb _ HJ) as [HJ' HQ']. cbn. split; [done|]. by apply Forall_app.
Qed.

Lemma emits_quiet J Q m : pres J m → emits J Q (quiet m).
Proof. intros Hm st Hst. unfold quiet. rewrite bind_run. cbn. auto. Qed.

Lemma emits_no_rows J Q : emits J Q no_rows.
Proof. intros st Hst. by split. Qed.

Lemma emits_emit_opt J (Q : DesktopActivityRow → Prop) m :
  pres J m → (∀ st row, J st → (m st).1 = Some row → Q row) → emits J Q (emit_opt m).
Proof.
  intros Hm HQ st Hst. unfold emit_opt. rewrite bind_run. cbn. split; [by apply Hm|].
  destruct (m st).1 eqn:Hr; [|done]. constructor; [eauto|done].
Qed.

Lemma emits_each {A} J Q (xs : list A) body : (∀ x, emits J Q (body x)) → emits J Q (each xs body).
Proof. intros Hb. induction xs; cbn; [apply emits_no_rows|]. by apply emits_and_then. Qed.

Lemma emits_probe {A} J Q (m : M W A) k :
  pres J (probe m) → (∀ a, emits J Q (k a)) → emits J Q (probe m ≫= k).
Proof. intros Hm Hk st Hst. rewrite bind_run. by apply Hk, Hm. Qed.

Lemma emits_bind_unit J Q (m : M (SchedIO W) unit) k :
  pres J m → emits J Q k → emits J Q (m ;; k).
Proof. intros Hm Hk st Hst. rewrite bind_run. by apply Hk, Hm. Qed.

Lemma emits_ret J (Q : DesktopActivityRow → Prop) rs : Forall Q rs → emits J Q (mret rs).
Proof. intros HQ st Hst. by split. Qed.

(** Reading the scheduler: what the invariant says of it then stays known. *)
Lemma emits_gets p l Q k :
  (∀ s, policy s = p → is_locked s = l → fg_ok p (open_foreground s) →
     (l = true → open_foreground s = None) → emits (sched_inv p l) Q (k s)) →
  emits (sched_inv p l) Q (gets sch ≫= k).
Proof. intros Hk st Hst. destruct Hst as (? & ? & ? & ? & ?) eqn:E. by apply Hk. Qed.

Lemma pres_probe {A} p l (m : M W A) : pres I m → pres (sched_inv p l) (probe m).
Proof. intros Hm [s w] (? & ? & ? & ? & ?). split_and!; try done. by apply Hm. Qed.

Lemma pres_upd_frame p l f :
  (∀ s, policy (f s) = policy s) → (∀ s, is_locked (f s) = is_locked s) →
  (∀ s, open_foreground (f s) = open_foreground s) → pres (sched_inv p l) (upd f).
Proof. intros Hp Hl Hf [s w]. unfold sched_inv; cbn. by rewrite Hp, Hl, Hf. Qed.

Lemma pres_upd_fg p l fg :
  fg_ok p fg → (l = true → fg = None) → pres (sched_inv p l) (upd (set_fg fg)).
Proof. intros Hfg Hl [s w] (? & ? & ? & ? & ?). by split_and!. Qed.

Lemma pres_cancel_request p l : pres (sched_inv p l) cancel_request.
Proof. apply pres_bind; [by apply pres_upd_frame|]. intros _. apply pres_probe, HW. Qed.

Lemma pres_cancel_in_flight p l : pres (sched_inv p l) cancel_in_flight.
Proof.
  apply pres_bind; [apply pres_gets|]. intros s. apply pres_when, pres_cancel_request.
Qed.

Lemma emits_transition p l now m c st :
  emits (sched_inv p l) (row_ok p) (emit_opt (transition_availability now m c st)).
Proof.
  apply emits_emit_opt.
  - apply pres_bind; [apply pres_gets|]. intros s. cbv zeta. destruct (open_availabilities s !! (c, m)); [case_decide|];
      try apply pres_ret; (apply pres_bind; [by apply pres_upd_frame|intros _; apply pres_ret]).
  - intros [s w] row Hst. unfold transition_availability. rewrite bind_run; cbn.
    destruct (open_availabilities s !! (c, m)); [case_decide|]; cbn; [done| |done].
    intros [= <-]. apply avail_row_ok.
Qed.

Lemma emits_url_unavailable p l now : emits (sched_inv p l) (row_ok p) (url_unavailable now).
Proof. apply emits_transition. Qed.

Lemma emits_close_availability p l now m c :
  emits (sched_inv p l) (row_ok p) (emit_opt (close_availability now m c)).
Proof.
  apply emits_emit_opt.
  - apply pres_bind; [apply pres_gets|]. intros s.
    apply pres_bind; [by apply pres_upd_frame|]. intros _. apply pres_ret.
  - intros [s w] row Hst. cbn. intros (a & _ & ->)%fmap_Some. apply avail_row_ok.
Qed.

Lemma emits_close_foreground p l now : emits (sched_inv p l) (row_ok p) (close_foreground now).
Proof.
  apply emits_gets. intros s Hp Hl Hfg Hlk. apply emits_bind_unit; [by apply pres_upd_fg|].
  apply emits_ret. destruct (open_foreground s); [|done]. constructor; [by apply fg_row_ok|done].
Qed.

Lemma emits_close_activity p l now : emits (sched_inv p l) (row_ok p) (close_activity now).
Proof.
  apply emits_gets. intros s Hp Hl Hfg Hlk. apply emits_bind_unit; [by apply pres_upd_frame|].
  apply emits_ret. destruct (open_activity s); [|done]. constructor; [apply act_row_ok|done].
Qed.

Lemma emits_split_url p l now url fg :
  fg_ok p (Some fg) → l = false → (is_Some url → pol_addresses p = true) →
  emits (sched_inv p l) (row_ok p) (split_foreground_url now url fg).
Proof.
  intros Hfg -> Hurl. apply emits_bind_unit.
  - apply pres_upd_fg; [|done]. destruct Hfg as (? & ? & ?). by repeat split.
  - apply emits_ret. constructor; [by apply fg_row_ok|done].
Qed.

Lemma emits_drop_url p l now : emits (sched_inv p l) (row_ok p) (drop_url now).
Proof.
  apply emits_gets. intros s Hp Hl Hfg Hlk. destruct (open_foreground s) as [fg|]; [|apply emits_no_rows].
  case_decide; [|apply emits_no_rows]. apply emits_split_url; [done| |by intros []].
  destruct l; [|done]. by specialize (Hlk eq_refl).
Qed.

Lemma pres_open_window p now wid app exe title :
  foreground_excluded (pol_rules p) exe title = false →
  pres (sched_inv p false) (open_window now wid app exe title).
Proof.
  intros He [s w] (<- & Hl & _ & _ & HI). split; [done|]. split; [done|]. split; [|done]; cbn.
  split; [done|]. split; [done|]. by intros [].
Qed.

Lemma emits_request_or_note p l now wid exe raw :
  P p → foreground_excluded (pol_rules p) exe raw = false →
  emits (sched_inv p l) (row_ok p) (request_or_note now wid exe raw).
Proof.
  intros HP He. apply emits_gets. intros s Hp Hl Hfg Hlk.
  destruct (page_addresses s) eqn:Ha; [|apply emits_no_rows].
  destruct (negb (is_locked s)); [|apply emits_no_rows]. cbn [andb].
  destruct (is_browser exe) eqn:Hb; [|apply emits_transition].
  apply emits_bind_unit; [by apply pres_upd_frame|]. apply emits_quiet, pres_probe.
  apply (keeps_request _ _ HW p); try done. by subst p.
Qed.

(** The operations that keep the policy and the lock. *)
Create HintDb emits discriminated.
#[local] Hint Resolve emits_and_then emits_quiet emits_no_rows emits_transition emits_url_unavailable
  emits_close_availability  emits_close_foreground emits_close_activity emits_drop_url emits_request_or_note
  pres_cancel_request pres_cancel_in_flight pres_probe pres_open_window
  keeps_cancel keeps_snapshot keeps_poll keeps_coarse keeps_result keeps_read keeps_load HW : emits.

Lemma emits_reopen p now wid app exe title (rest : M (SchedIO W) rows) :
  foreground_excluded (pol_rules p) exe title = false →
  emits (sched_inv p false) (row_ok p) rest →
  emits (sched_inv p false) (row_ok p)
    (and_then (close_foreground now) (and_then (quiet cancel_in_flight)
      (and_then (quiet (open_window now wid app exe title)) rest))).
Proof. eauto 10 with emits. Qed.

Lemma emits_lock_step p l now st :
  sched_inv p l st →
  let m := and_then (quiet (upd (set_locked true)))
             (and_then (close_foreground now) (quiet cancel_in_flight)) in
  sched_inv p true (m st).2 ∧ Forall (row_ok p) (m st).1.
Proof.
  intros (Hp & _ & Hfg & _ & HI) m. subst m. unfold and_then, quiet. rewrite !bind_run. cbn.
  split.
  - apply pres_cancel_in_flight. split; [exact Hp|done].
  - rewrite app_nil_r. unfold close_foreground. rewrite bind_run; cbn.
    destruct (open_foreground (sch st)); [|done]. constructor; [by apply fg_row_ok|done].
Qed.

Definition sched_ok (p : Policy) (st : SchedIO W) : Prop := ∃ l, sched_inv p l st.

Lemma emits_any_lock p Q m :
  (∀ l, emits (sched_inv p l) Q m) → emits (sched_ok p) Q m.
Proof. intros Hm st [l Hst]. destruct (Hm l st Hst). split; [by exists l|done]. Qed.

Lemma emits_gets_ok p Q k :
  (∀ s, policy s = p → fg_ok p (open_foreground s) →
     (is_locked s = true → open_foreground s = None) → emits (sched_ok p) Q (k s)) →
  emits (sched_ok p) Q (gets sch ≫= k).
Proof.
  intros Hk st [l Hst]. apply Hk; [..|by exists l]; destruct Hst as (? & <- & ? & ? & ?); done.
Qed.

Lemma emits_activity_state p new_state now :
  emits (sched_ok p) (row_ok p) (handle_event (EvActivityStateChanged new_state) now).
Proof.
  apply emits_gets_ok. intros s Hp Hfg Hlk. apply emits_and_then; [|apply emits_and_then].
  - apply emits_any_lock. intros l. destruct (match open_activity s with Some _ => _ | None => _ end);
      [|apply emits_no_rows].
    apply emits_and_then; [eauto with emits|]. apply emits_quiet. by apply pres_upd_frame.
  - intros st [l Hst]. case_decide.
    + destruct (emits_lock_step p l now st Hst). split; [by exists true|done].
    + split; [|done]. exists false. destruct Hst as (Hp' & _ & Hfg' & _ & HI). split; [exact Hp'|done].
  - apply emits_any_lock. eauto with emits.
Qed.

Lemma emits_window_event p l event now :
  P p → match event with EvActivityStateChanged _ => False | _ => True end →
  emits (sched_inv p l) (row_ok p) (handle_event event now).
Proof.
  intros HP Hev. apply emits_gets. intros s <- Hl Hfg Hlk.
  destruct event as [wid app exe title|wid title| | |]; [| |done| |].
  - destruct (is_locked s) eqn:Hls; subst l; [apply emits_no_rows|].
    destruct (foreground_excluded _ exe title) eqn:He; [eauto with emits|].
    destruct (match open_foreground s with Some _ => _ | None => _ end); [apply emits_no_rows|].
    apply emits_reopen; eauto with emits.
  - destruct (is_locked s) eqn:Hls; subst l; [apply emits_no_rows|].
    destruct (open_foreground s) as [cur|]; [|apply emits_no_rows].
    destruct (negb _); [apply emits_no_rows|]. destruct (String.eqb _ _); [apply emits_no_rows|].
    destruct (foreground_excluded _ _ title) eqn:He; [eauto with emits|].
    apply emits_reopen; eauto with emits.
  - eauto with emits.
  - eauto with emits.
Qed.

Lemma emits_handle_event p event now :
  P p → emits (sched_ok p) (row_ok p) (handle_event event now).
Proof.
  intros HP. destruct event; try apply emits_activity_state; apply emits_any_lock; intros l;
    by apply emits_window_event.
Qed.

Lemma emits_admit_url p result now :
  pol_addresses p = true → emits (sched_inv p false) (row_ok p) (admit_url result now).
Proof.
  intros Ha. unfold admit_url. destruct (res_unavailable result); [eauto with emits|].
  apply emits_and_then; [eauto with emits|]. destruct (res_url result) as [raw|]; [|eauto with emits].
  destruct (normalize_url host_url_parse raw) as [url|]; [|eauto with emits].
  apply emits_gets. intros s <- Hl Hfg Hlk. destruct (open_foreground s) as [fg|]; [|eauto with emits].
  case_decide; [eauto with emits|]. by apply emits_split_url.
Qed.

Lemma emits_expire_request p l now : emits (sched_inv p l) (row_ok p) (expire_request now).
Proof.
  apply emits_gets. intros s Hp Hl Hfg Hlk. repeat case_match; try apply emits_no_rows.
  repeat apply emits_and_then; try (apply emits_quiet; by apply pres_upd_frame);
    eauto with emits.
Qed.

Lemma emits_reread_url p l now : P p → emits (sched_inv p l) (row_ok p) (reread_url now).
Proof.
  intros HP. apply emits_gets. intros s Hp Hl Hfg Hlk.
  destruct (open_foreground s) as [fg|]; [|eauto with emits].
  destruct (page_addresses s) eqn:Ha; [|eauto with emits]. destruct (negb (is_locked s)); [|eauto with emits].
  cbn [andb]. destruct (is_browser _) eqn:Hb; [|apply emits_transition].
  cbv zeta. case_match; [|eauto with emits].
  apply emits_bind_unit; [by apply pres_upd_frame|]. apply emits_quiet, pres_probe.
  apply (keeps_request _ _ HW p); [done|by subst p|done|apply Hfg].
Qed.

(** *** Changing the policy *)

Lemma set_exclusion_rules_ok p r now st :
  sched_ok p st →
  sched_ok (with_rules p r) (set_exclusion_rules r now st).2 ∧
  Forall (row_ok p) (set_exclusion_rules r now st).1.
Proof.
  intros [l (Hp & Hl & Hfg & Hlk & HI)]. unfold set_exclusion_rules. rewrite !bind_run; cbn.
  assert (Hpol : policy (set_rules r (sch st)) = with_rules p r) by (by subst p).
  destruct (open_foreground (sch st)) as [fg|] eqn:Hopen.
  2:{ split; [|done]. exists l. split; [done|]. split; [done|]. cbn. by rewrite Hopen. }
  destruct (foreground_excluded r _ _) eqn:He.
  - unfold and_then, quiet, close_foreground. rewrite !bind_run; cbn. rewrite Hopen. split.
    + exists l. apply pres_cancel_request. split; [exact Hpol|done].
    + constructor; [by apply fg_row_ok|done].
  - split; [|done]. exists l. split; [done|]. split; [done|]. cbn. rewrite Hopen.
    split; [|done]. destruct Hfg as (_ & ? & ?). by split.
Qed.

Lemma new_title_ok p raw titles (title : option string) :
  title = (if pol_titles p then Some raw else None) →
  negb (Bool.eqb (pol_titles p) titles) && negb (bool_decide (title = if titles then Some raw else None)) = false →
  title = (if titles then Some raw else None).
Proof. intros ->. by destruct (pol_titles p), titles. Qed.

Lemma new_url_ok (url : option string) old addresses :
  (is_Some url → old = true) →
  negb (Bool.eqb old addresses) && negb (bool_decide (url = if addresses then url else None)) = false →
  is_Some url → addresses = true.
Proof. intros Ho Hc Hs. specialize (Ho Hs). subst old. by destruct addresses, url. Qed.

(** The same, from one invariant to another. *)
Definition emits_to (J1 : SchedIO W → Prop) (Q : DesktopActivityRow → Prop) (J2 : SchedIO W → Prop)
    (m : M (SchedIO W) rows) : Prop :=
  ∀ st, J1 st → J2 (m st).2 ∧ Forall Q (m st).1.

Lemma emits_to_and_then J1 J2 K Q a b :
  emits_to J1 Q J2 a → emits_to J2 Q K b → emits_to J1 Q K (and_then a b).
Proof.
  intros Ha Hb st Hst. unfold and_then. rewrite !bind_run. destruct (Ha st Hst) as [HI HQ].
  destruct (Hb _ HI) as [HI' HQ']. cbn. split; [done|]. by apply Forall_app.
Qed.

Lemma emits_to_run J1 Q J2 m st : emits_to J1 Q J2 m → J1 st → J2 (m st).2 ∧ Forall Q (m st).1.
Proof. intros Hm. apply Hm. Qed.

(** Policy, lock and open window are these. *)
Definition window_is (p : Policy) (l : bool) (fg : option OpenForeground) (st : SchedIO W) : Prop :=
  policy (sch st) = p ∧ is_locked (sch st) = l ∧ open_foreground (sch st) = fg ∧ I (src st).

Lemma window_is_quiet Q p l fg (m : M (SchedIO W) unit) :
  keeps (λ st, (policy (sch st), is_locked (sch st), open_foreground (sch st))) m →
  pres (λ st, I (src st)) m → emits (window_is p l fg) Q (quiet m).
Proof.
  intros Hm HI. apply emits_quiet. intros st (Hp & Hl & Hf & Hi). specialize (Hm st). specialize (HI st Hi).
  unfold window_is. injection Hm as Hr Ht Ha -> ->. split; [|done].
  rewrite <-Hp. unfold policy. by rewrite Hr, Ht, Ha.
Qed.

Lemma window_is_close p l fg q now m c :
  emits (window_is p l fg) (row_ok q) (emit_opt (close_availability now m c)).
Proof.
  apply emits_emit_opt; [by intros [s w]|].
  intros [s w] row Hst. cbn. intros (a & _ & ->)%fmap_Some. apply avail_row_ok.
Qed.

Lemma set_preferences_ok p titles addresses now st :
  sched_ok p st →
  sched_ok (mkPolicy (pol_rules p) titles addresses) (set_preferences titles addresses now st).2 ∧
  Forall (row_ok p) (set_preferences titles addresses now st).1.
Proof.
  intros [l (Hp & Hl & Hfg & Hlk & HI)]. set (p' := mkPolicy (pol_rules p) titles addresses).
  unfold set_preferences. rewrite bind_run; cbn [gets fst snd]. cbv zeta. rewrite bind_run.
  set (st1 := (upd (set_prefs titles addresses) st).2).
  assert (Hst1 : window_is p' l (open_foreground (sch st)) st1) by (by subst p l).
  assert (HT : window_titles (sch st) = pol_titles p) by (by subst p).
  assert (HA : page_addresses (sch st) = pol_addresses p) by (by subst p).
  rewrite HT, HA. clearbody st1. eapply emits_to_run; [|exact Hst1]. clear Hst1 st1.
  eapply emits_to_and_then.
  { apply window_is_quiet; intros [s w]; destruct (_ || _); try done. apply HW. }
  eapply emits_to_and_then.
  { instantiate (1 := window_is p' l (open_foreground (sch st))).
    destruct (_ && _); [apply window_is_close|apply emits_no_rows]. }
  destruct (open_foreground (sch st)) as [fg|].
  2:{ intros [s w] (? & ? & Hn & ?). split; [|done]. exists l. unfold sched_inv; cbn in *. by rewrite Hn. }
  destruct Hfg as (He & Htitle & Hurl).
  assert (l = false) as -> by (by destruct l; [specialize (Hlk eq_refl)|]).
  destruct (_ || _) eqn:Hsplit.
  - intros st2 (Hp2 & Hl2 & _ & Hi2). split.
    + exists false. split; [exact Hp2|]. split; [exact Hl2|]. split; [|done]. cbn.
      split; [done|]. split; [done|]. by destruct addresses; [|intros []].
    + constructor; [by apply fg_row_ok|done].
  - apply orb_false_iff in Hsplit as [Ht Hu]. intros st2 (Hp2 & Hl2 & Hf2 & Hi2). split; [|done].
    exists false. split; [exact Hp2|]. split; [exact Hl2|]. split; [|done]. cbn. rewrite Hf2.
    split; [done|]. split; [by eapply new_title_ok|by eapply new_url_ok].
Qed.

(** *** Operations that can read new rules on the way *)

Lemma pres_ok_probe {A} p (m : M W A) : pres I m → pres (sched_ok p) (probe m).
Proof. intros Hm st [l Hst]. exists l. by apply pres_probe. Qed.
Lemma emits_free m : (∀ p l, P p → emits (sched_inv p l) (row_ok p) m) → ∀ p, P p → emits (sched_ok p) (row_ok p) m.
Proof. intros Hm p HP. apply emits_any_lock. intros l. by apply Hm. Qed.

(** The rules may change once, the preferences do not; each row is as the
    policy before or the policy after allows. *)
Definition same_prefs (p p' : Policy) : Prop := pol_titles p' = pol_titles p ∧ pol_addresses p' = pol_addresses p.
Definition shifts (m : M (SchedIO W) rows) : Prop :=
  ∀ p st, P p → sched_ok p st → ∃ p', P p' ∧ sched_ok p' (m st).2 ∧ same_prefs p p' ∧
    Forall (λ row, row_ok p row ∨ row_ok p' row) (m st).1.

Lemma shifts_fixed m : (∀ p, P p → emits (sched_ok p) (row_ok p) m) → shifts m.
Proof.
  intros Hm p st HP Hst. destruct (Hm p HP st Hst) as [Hok Hrows]. exists p. split_and!; [done..|].
  apply (Forall_impl _ _ _ Hrows). auto.
Qed.
Lemma shifts_before a b : (∀ p, P p → emits (sched_ok p) (row_ok p) a) → shifts b → shifts (and_then a b).
Proof.
  intros Ha Hb p st HP Hst. unfold and_then. rewrite !bind_run. destruct (Ha p HP st Hst) as [Hok Hrows].
  destruct (Hb p _ HP Hok) as (p' & HP' & Hok' & Hpr & Hrows'). exists p'. split_and!; try done. cbn.
  apply Forall_app. split; [|done]. apply (Forall_impl _ _ _ Hrows). auto.
Qed.
Lemma shifts_after a b : shifts a → (∀ p, P p → emits (sched_ok p) (row_ok p) b) → shifts (and_then a b).
Proof.
  intros Ha Hb p st HP Hst. unfold and_then. rewrite !bind_run. destruct (Ha p st HP Hst) as (p' & HP' & Hok & Hpr & Hrows).
  destruct (Hb p' HP' _ Hok) as [Hok' Hrows']. exists p'. split_and!; try done. cbn.
  apply Forall_app. split; [done|]. apply (Forall_impl _ _ _ Hrows'). auto.
Qed.
Lemma shifts_probe {A} (m : M W A) k : pres I m → (∀ a, shifts (k a)) → shifts (probe m ≫= k).
Proof. intros Hm Hk p st HP Hst. rewrite bind_run. apply Hk; [done|]. by apply pres_ok_probe. Qed.
Lemma shifts_available (k : bool → M (SchedIO W) rows) : (∀ b, shifts (k b)) → shifts (is_exclusion_available ≫= k).
Proof.
  intros Hk p st HP Hst. rewrite bind_run. unfold is_exclusion_available. rewrite bind_run; cbn [gets fst snd].
  destruct (exclusion_available_handle (sch st)); apply Hk; try done. apply pres_ok_probe; [apply HW|done].
Qed.
(** The rows of the refresh itself belong to the policy before it. *)
Lemma refresh_rules_ok p now st :
  P p → sched_ok p st → ∃ p', P p' ∧ sched_ok p' (refresh_rules now st).2 ∧ same_prefs p p' ∧ Forall (row_ok p) (refresh_rules now st).1.
Proof.
  intros HP. destruct st as [s w]. intros Hok. assert (HI : I w) by (by destruct Hok as (l & _ & _ & _ & _ & HI)).
  unfold refresh_rules. rewrite bind_run; cbn.
  destruct (exclusion_rules_handle s); [|by exists p].
  assert (Hok1 : sched_ok p (probe read_rules_handle (mkSchedIO s w)).2)
    by (apply pres_ok_probe; [apply HW|done]).
  pose proof (λ r p, handle_within _ _ HW w r p HI) as Hwithin. rewrite bind_run; cbn in Hok1 |- *.
  destruct (read_rules_handle w) as [[r|] w']; cbn in *; [|by exists p].
  case_decide; [by exists p|].
  destruct (set_exclusion_rules_ok p r now (mkSchedIO s w') Hok1) as [Hok' Hrows].
  exists (with_rules p r). split_and!; try done. by apply Hwithin.
Qed.
Lemma shifts_refresh now : shifts (refresh_rules now).
Proof.
  intros p st HP Hst. destruct (refresh_rules_ok p now st HP Hst) as (p' & HP' & Hok & Hpr & Hrows). exists p'.
  split_and!; try done. apply (Forall_impl _ _ _ Hrows). auto.
Qed.

(** The last part of [handle_url_result], under one policy and lock. *)
Lemma emits_checked_url p l (result : DesktopActivityUrlResult) now (s : DesktopActivityScheduler) :
  policy s = p → is_locked s = l →
  emits (sched_inv p l) (row_ok p)
    (if negb (page_addresses s) || is_locked s then no_rows else admit_url result now).
Proof.
  intros Hp Hl. destruct (page_addresses s) eqn:Ha, (is_locked s) eqn:Hlk; subst l; cbn;
    try apply emits_no_rows. apply emits_admit_url. by subst p.
Qed.

Lemma emits_matched_url p l (result : DesktopActivityUrlResult) now :
  emits (sched_inv p l) (row_ok p) (match_url_result result now).
Proof.
  apply emits_gets. intros s Hp Hl Hfg Hlk. destruct (negb _); [apply emits_no_rows|].
  apply emits_bind_unit; [by apply pres_upd_frame|]. destruct (open_foreground s) as [fg|]; [|apply emits_no_rows].
  destruct (_ || _); [apply emits_no_rows|].
  pose proof (emits_checked_url p l result now s Hp Hl) as Hadmit.
  destruct (negb (page_addresses s) || is_locked s); [done|].
  destruct (foreground_excluded _ _ _); [apply emits_no_rows|].
  apply emits_probe; [apply pres_probe, HW|]. intros [snap|]; [|apply emits_no_rows].
  destruct (_ || _); [apply emits_no_rows|done].
Qed.

Lemma shifts_handle_url_result result now : shifts (handle_url_result result now).
Proof.
  apply shifts_available. intros b. destruct b; [|apply shifts_fixed; intros; apply emits_no_rows]. cbn [negb].
  apply shifts_after; [apply shifts_refresh|]. apply emits_free. intros p l _. apply emits_matched_url.
Qed.

Lemma emits_step_unavailable p now : P p → emits (sched_ok p) (row_ok p) (step_unavailable now).
Proof.
  intros HP. unfold step_unavailable. repeat apply emits_and_then.
  - apply emits_any_lock. eauto with emits.
  - apply emits_any_lock. intros l. apply emits_quiet. by apply pres_upd_fg.
  - apply emits_probe; [apply pres_ok_probe, HW|]. intros events. apply emits_each. intros event.
    destruct event; try apply emits_no_rows; by apply emits_handle_event.
  - apply emits_any_lock. eauto with emits.
  - apply emits_any_lock. eauto with emits.
Qed.

(** A poll once its rules are fresh. *)
Definition poll_rest (now : Z) : M (SchedIO W) rows :=
  available ← is_exclusion_available;
  if negb available then step_unavailable now
  else
    and_then (events ← probe das_poll_events; each events (λ event, handle_event event now))
    (and_then (s ← gets sch;
      if bool_decide (open_foreground s = None) && negb (is_locked s) then
        snapshot ← probe das_foreground_snapshot;
        match snapshot with
        | Some snap =>
          handle_event (EvForeground (snap_window_id snap) (snap_app snap) (snap_exe_name snap)
                          (snap_title snap)) now
        | None => no_rows
        end
      else no_rows)
    (and_then (result ← probe das_poll_url_result;
      match result with Some result => handle_url_result result now | None => no_rows end)
    (and_then (expire_request now) (reread_url now)))).
Lemma poll_and_step_rest now : poll_and_step now = and_then (refresh_rules now) (poll_rest now).
Proof. done. Qed.

Lemma shifts_poll_rest now : shifts (poll_rest now).
Proof.
  apply shifts_available. intros [|]; cbn [negb]; [|apply shifts_fixed; intros p; apply emits_step_unavailable].
  apply shifts_before; [|apply shifts_before; [|apply shifts_after]].
  - intros p HP. apply emits_probe; [apply pres_ok_probe, HW|]. intros events. apply emits_each. intros event. by apply emits_handle_event.
  - intros p HP. apply emits_gets_ok. intros s _ _ _.
    destruct (_ && _); [|apply emits_no_rows]. apply emits_probe; [apply pres_ok_probe, HW|].
    intros [snap|]; [by apply emits_handle_event|apply emits_no_rows].
  - apply shifts_probe; [apply HW|]. intros [r|]; [apply shifts_handle_url_result|apply shifts_fixed; intros; apply emits_no_rows].
  - intros p HP. apply emits_and_then; apply emits_any_lock; intros l; [apply emits_expire_request|by apply emits_reread_url].
Qed.

Lemma emits_on_boundary p b : emits (sched_ok p) (row_ok p) (on_boundary b).
Proof.
  intros [s w] [l (Hp & Hl & Hfg & Hlk & HI)]. unfold on_boundary. rewrite !bind_run; cbn. split.
  - exists l. split; [exact Hp|]. split; [exact Hl|]. cbn in *. split.
    + destruct (open_foreground s) as [fg|]; [|done]. exact Hfg.
    + split; [|done]. intros H'. by rewrite (Hlk H').
  - cbn in Hfg. apply Forall_app; split; [|apply Forall_app; split].
    + destruct (open_foreground s); [|done]. constructor; [by apply fg_row_ok|done].
    + destruct (open_activity s); [|done]. constructor; [apply act_row_ok|done].
    + apply Forall_fmap, Forall_forall. intros [key a] _. apply avail_row_ok.
Qed.

Lemma emits_close_all p now : emits (sched_ok p) (row_ok p) (close_all now).
Proof.
  intros st [l (Hp & Hl & Hfg & Hlk & HI)].
  assert (Hinv : sched_inv p false (cancel_request (upd (set_locked false) st).2).2).
  { apply pres_cancel_request. split; [exact Hp|done]. }
  unfold close_all. rewrite !bind_run. cbn [gets fst snd]. revert Hinv.
  generalize (cancel_request (upd (set_locked false) st).2).2. intros st' Hinv.
  cut (emits (sched_inv p false) (row_ok p) (and_then (close_foreground now) (and_then (close_activity now)
    (upd (set_avails ∅) ;; mret ((λ '(key, a), avail_row now key a) <$> map_to_list (open_availabilities (sch st'))))))).
  { intros Hm. destruct (Hm st' Hinv). split; [by exists false|done]. }
  apply emits_and_then; [eauto with emits|]. apply emits_and_then; [eauto with emits|].
  apply emits_bind_unit; [by apply pres_upd_frame|]. apply emits_ret, Forall_fmap, Forall_forall.
  intros [key a] _. apply avail_row_ok.
Qed.

Lemma emits_source_unavailable p now : emits (sched_ok p) (row_ok p) (source_unavailable now).
Proof.
  apply emits_gets_ok. intros s _ _ _. repeat apply emits_and_then.
  - destruct (_ || _); [apply emits_close_all|]. apply emits_any_lock. eauto with emits.
  - apply emits_any_lock. eauto with emits.
  - apply emits_any_lock. eauto with emits.
Qed.

(** ** Runs of the scheduler *)

Inductive SchedOp : Type :=
| OpPoll (now : Z)
| OpSetPreferences (titles addresses : bool) (now : Z)
| OpSetRules (rules : ExclusionRules) (now : Z)
| OpBoundary (boundary_ms : Z)
| OpSourceUnavailable (now : Z)
| OpCloseAll (now : Z).

Definition run_op (op : SchedOp) : M (SchedIO W) rows :=
  match op with
  | OpPoll now => poll_and_step now
  | OpSetPreferences titles addresses now => set_preferences titles addresses now
  | OpSetRules rules now => set_exclusion_rules rules now
  | OpBoundary b => on_boundary b
  | OpSourceUnavailable now => source_unavailable now
  | OpCloseAll now => close_all now
  end.

(** The policy an operation leaves in force: a poll takes new rules from the
    shared handle and keeps the preferences. *)
Definition policy_after (op : SchedOp) (p p' : Policy) : Prop :=
  match op with
  | OpPoll _ => same_prefs p p'
  | OpSetPreferences titles addresses _ => p' = mkPolicy (pol_rules p) titles addresses
  | OpSetRules rules _ => p' = with_rules p rules
  | _ => p' = p
  end.
(** The policies in force while it runs and before it takes effect: for a poll
    those before and after the refresh that it begins with, and the one it
    leaves, as its second refresh may have found new rules. *)
Definition policies_during (op : SchedOp) (st : SchedIO W) : list Policy :=
  match op with
  | OpPoll now => [policy (sch st); policy (sch (refresh_rules now st).2); policy (sch (run_op op st).2)]
  | _ => [policy (sch st)]
  end.

Lemma sched_ok_policy p st : sched_ok p st → policy (sch st) = p.
Proof. by intros (l & Hp & _). Qed.

Lemma run_op_ok op st :
  P (policy (sch st)) → sched_ok (policy (sch st)) st →
  let st' := (run_op op st).2 in
  sched_ok (policy (sch st')) st' ∧ policy_after op (policy (sch st)) (policy (sch st')) ∧
  Forall (λ row, ∃ p, p ∈ policies_during op st ∧ row_ok p row) (run_op op st).1.
Proof.
  intros HP Hst. cbv zeta.
  assert (Hfix : ∀ p', sched_ok p' (run_op op st).2 → Forall (row_ok (policy (sch st))) (run_op op st).1 → policy (sch st) ∈ policies_during op st →
    policy_after op (policy (sch st)) p' → sched_ok (policy (sch (run_op op st).2)) (run_op op st).2 ∧ policy_after op (policy (sch st)) (policy (sch (run_op op st).2)) ∧
    Forall (λ row, ∃ p, p ∈ policies_during op st ∧ row_ok p row) (run_op op st).1).
  { intros p' Hok Hrows Hin Hafter. rewrite (sched_ok_policy _ _ Hok). split_and!; [done..|]. apply (Forall_impl _ _ _ Hrows). eauto. }
  destruct op as [now|t a now|r now|b|now|now].
  - clear Hfix. unfold run_op, policies_during. cbn [run_op]. rewrite poll_and_step_rest. unfold and_then. rewrite !bind_run. cbn [mret state_ret fst snd].
    destruct (refresh_rules_ok _ now st HP Hst) as (p1 & HP1 & Hok1 & [Ht1 Ha1] & Hrows1).
    destruct (shifts_poll_rest now p1 _ HP1 Hok1) as (p2 & HP2 & Hok2 & [Ht2 Ha2] & Hrows2).
    rewrite (sched_ok_policy _ _ Hok1), (sched_ok_policy _ _ Hok2). split_and!; [done|by split; congruence|]. apply Forall_app. split.
    + apply (Forall_impl _ _ _ Hrows1). intros row Hrow. exists (policy (sch st)). split; [set_solver|done].
    + apply (Forall_impl _ _ _ Hrows2). intros row [Hrow|Hrow]; eexists; (split; [|exact Hrow]); set_solver.
  - destruct (set_preferences_ok _ t a now st Hst) as [Hok Hrows]. eapply Hfix; [exact Hok|exact Hrows|set_solver|done].
  - destruct (set_exclusion_rules_ok _ r now st Hst) as [Hok Hrows]. eapply Hfix; [exact Hok|exact Hrows|set_solver|done].
  - destruct (emits_on_boundary _ b st Hst) as [Hok Hrows]. eapply Hfix; [exact Hok|exact Hrows|set_solver|done].
  - destruct (emits_source_unavailable _ now st Hst) as [Hok Hrows]. eapply Hfix; [exact Hok|exact Hrows|set_solver|done].
  - destruct (emits_close_all _ now st Hst) as [Hok Hrows]. eapply Hfix; [exact Hok|exact Hrows|set_solver|done].
Qed.
End privacy.

(** ** Unavailable exclusion rules *)

Section unavailable.
Context {W : Type} `{DesktopActivitySource W, ActivityHost W}.

Definition nothing_open (st : SchedIO W) : Prop :=
  open_foreground (sch st) = None ∧ in_flight (url_state (sch st)) = false.

Definition not_foreground (row : DesktopActivityRow) : Prop := is_foreground_row row = false.

Lemma keeps_probe {A B} (f : DesktopActivityScheduler → B) (m : M W A) :
  keeps (λ st, f (sch st)) (probe m).
Proof. by intros [s w]. Qed.

Lemma keeps_upd {B} (f : DesktopActivityScheduler → B) g :
  (∀ s, f (g s) = f s) → keeps (λ st : SchedIO W, f (sch st)) (upd g).
Proof. intros Hg [s w]. apply Hg. Qed.

Lemma refresh_keeps_handle now :
  keeps (λ st : SchedIO W, exclusion_available_handle (sch st)) (refresh_rules now).
Proof.
  unfold refresh_rules, set_exclusion_rules, close_foreground, cancel_request, retire_request,
    and_then, quiet, no_rows.
  repeat first [keeps_step | apply (keeps_probe exclusion_available_handle)
               | apply (keeps_upd exclusion_available_handle); done].
Qed.

Lemma nothing_open_upd f :
  (∀ s, open_foreground (f s) = None ∨ open_foreground (f s) = open_foreground s) →
  (∀ s, in_flight (url_state (f s)) = false ∨ url_state (f s) = url_state s) →
  pres nothing_open (upd f).
Proof.
  intros Hf Hu [s w] [Ho Hi]. unfold nothing_open; cbn in *.
  destruct (Hf s) as [->| ->], (Hu s) as [Hs|Hs]; rewrite ?Hs; done.
Qed.

Lemma nothing_open_transition now m c st :
  emits nothing_open not_foreground (emit_opt (transition_availability now m c st)).
Proof.
  apply emits_emit_opt.
  - apply pres_bind; [apply pres_gets|]. intros s. cbv zeta.
    destruct (open_availabilities s !! (c, m)); [case_decide|];
      try apply pres_ret; (apply pres_bind; [apply nothing_open_upd; auto|intros _; apply pres_ret]).
  - intros [s w] row Hst. unfold transition_availability. rewrite bind_run; cbn.
    destruct (open_availabilities s !! (c, m)); [case_decide|]; cbn; [done| |done]. by intros [= <-].
Qed.

Lemma nothing_open_cancel : pres nothing_open cancel_in_flight.
Proof.
  intros [s w] [Ho Hi]. unfold cancel_in_flight. rewrite bind_run; cbn in *. by rewrite Hi.
Qed.

Lemma nothing_open_close_foreground now :
  emits nothing_open not_foreground (close_foreground now).
Proof.
  intros [s w] [Ho Hi]. unfold close_foreground. rewrite !bind_run. cbn in *. by rewrite Ho.
Qed.

Lemma nothing_open_close_activity now : emits nothing_open not_foreground (close_activity now).
Proof.
  intros [s w] Hst. unfold close_activity. rewrite !bind_run. split; [exact Hst|]. cbn.
  destruct (open_activity s); by repeat constructor.
Qed.

Lemma nothing_open_close_availability now m c :
  emits nothing_open not_foreground (emit_opt (close_availability now m c)).
Proof.
  apply emits_emit_opt; [by intros [s w]|].
  intros [s w] row Hst. cbn. by intros (a & _ & ->)%fmap_Some.
Qed.

Lemma emits_gets_any J Q (k : DesktopActivityScheduler → M (SchedIO W) rows) :
  (∀ s, emits J Q (k s)) → emits J Q (gets sch ≫= k).
Proof. intros Hk st Hst. by apply Hk. Qed.

#[local] Hint Resolve emits_and_then emits_quiet emits_no_rows nothing_open_transition nothing_open_cancel
  nothing_open_close_foreground nothing_open_close_activity nothing_open_close_availability : nothing_open.

Lemma nothing_open_coarse event now :
  match event with EvActivityStateChanged _ | EvIdleUnavailable => True | _ => False end →
  emits nothing_open not_foreground (handle_event event now).
Proof.
  intros Hev. apply emits_gets_any. intros s. destruct event as [| |st| |]; try done; [|auto with nothing_open].
  apply emits_and_then; [|apply emits_and_then; [|auto with nothing_open]].
  - destruct (match open_activity s with Some _ => _ | None => _ end); [|auto with nothing_open].
    apply emits_and_then; [auto with nothing_open|]. apply emits_quiet, nothing_open_upd; auto.
  - assert (Hlock : ∀ b, pres nothing_open (upd (set_locked b))) by (intros b; apply nothing_open_upd; auto).
    case_decide; auto with nothing_open.
Qed.

(** [cancel_in_flight] ends any request, whatever came before. *)
Lemma cancel_ends_request :
  emits_to (λ _, True) not_foreground (λ st, in_flight (url_state (sch st)) = false)
    (quiet cancel_in_flight).
Proof.
  intros [s w] _. unfold quiet, cancel_in_flight. rewrite !bind_run. cbn. split; [|done].
  by destruct (in_flight (url_state s)) eqn:Hi.
Qed.

Lemma step_unavailable_records_nothing now :
  emits_to (λ _, True) not_foreground nothing_open (step_unavailable now).
Proof.
  unfold step_unavailable. eapply emits_to_and_then; [apply cancel_ends_request|].
  eapply (emits_to_and_then _ nothing_open); [by intros [s w] Hi; split|].
  apply emits_and_then; [|unfold url_unavailable; auto with nothing_open].
  apply emits_probe; [by intros [s w]|]. intros events. apply emits_each. intros event.
  destruct event; auto with nothing_open; by apply nothing_open_coarse.
Qed.
End unavailable.

(** A scheduler as the engine makes it: no interval open, handles installed
    or not. *)
Definition fresh_scheduler (titles addresses : bool) (rules : ExclusionRules) (id : string)
    (rules_handle available_handle : bool) : DesktopActivityScheduler :=
  set_handles rules_handle available_handle (new_scheduler titles addresses rules id).

(** The states of a scheduler: as the engine makes it, and after any operations
    with anything happening outside between them. *)
Inductive reached {W : Type} `{DesktopActivitySource W, ActivityHost W} : SchedIO W → Prop :=
  | reached_fresh titles addresses rules id rh ah w : reached (mkSchedIO (fresh_scheduler titles addresses rules id rh ah) w)
  | reached_op st op : reached st → reached (run_op op st).2
  | reached_outside st w : reached st → reached (mkSchedIO (sch st) w).

Lemma anything_keeps {W : Type} `{DesktopActivitySource W, ActivityHost W} : world_keeps (λ _ : W, True) (λ _, True).
Proof. by split. Qed.
Lemma reached_private {W : Type} `{DesktopActivitySource W, ActivityHost W} st :
  reached st → sched_ok (λ _ : W, True) (policy (sch st)) st.
Proof.
  induction 1 as [titles addresses rules id rh ah w|st op _ IH|st w _ (l & Hp & Hl & Hfg & Hlk & _)].
  - by exists false.
  - by apply (run_op_ok (λ _, True) (λ _, True) anything_keeps).
  - exists l. by split_and!.
Qed.

(** ** Properties *)


(** While the exclusion rules cannot be trusted (the availability handle
    reads false), a poll records nothing about any window: no interval is left
    open, no address request is in flight, and the only foreground row it can
    emit is the closing of an interval by the rules refresh itself. *)
Theorem unavailable_rules_record_nothing {W : Type} `{DesktopActivitySource W, ActivityHost W}
    (st : SchedIO W) (now : Z)
    (Hhandle : exclusion_available_handle (sch st) = true)
    (Hdown : ∀ w : W, (load_available_handle w).1 = false) :
  let '(rs, st') := poll_and_step now st in
  open_foreground (sch st') = None ∧ in_flight (url_state (sch st')) = false ∧
  ∃ rest, rs = (refresh_rules now st).1 ++ rest ∧ Forall (λ row, is_foreground_row row = false) rest.
Proof.
  unfold poll_and_step, and_then at 1. rewrite !bind_run. cbn [mret state_ret fst snd].
  set (r := refresh_rules now st).
  assert (Hh : exclusion_available_handle (sch r.2) = true) by (unfold r; by rewrite refresh_keeps_handle).
  unfold is_exclusion_available. rewrite !bind_run. cbn [gets fst snd]. rewrite Hh.
  cbn [probe fst snd]. rewrite Hdown. cbn [negb].
  destruct (step_unavailable_records_nothing now
    (mkSchedIO (sch r.2) (load_available_handle (src r.2)).2) I) as [[Ho Hi] Hrows].
  split; [exact Ho|]. split; [exact Hi|]. by eexists.
Qed.

Lemma on_boundary_foreground {W : Type} `{DesktopActivitySource W} (b : Z) (st : SchedIO W) fg :
  open_foreground (sch st) = Some fg →
  open_foreground (sch (on_boundary b st).2) =
    Some (mkOpenForeground b (fg_window_id fg) (fg_app fg) (fg_exe_name fg) (fg_raw_title fg)
            (fg_title fg) (fg_url fg)) ∧
  filter (λ row, is_foreground_row row = true) (on_boundary b st).1 = [fg_row b fg].
Proof.
  intros Hfg. unfold on_boundary. rewrite !bind_run; cbn. rewrite Hfg. split; [done|].
  rewrite !filter_app. cbn. f_equal.
  replace (filter _ (match open_activity (sch st) with Some a => [act_row b a] | None => [] end)) with (@nil DesktopActivityRow)
    by (by destruct (open_activity (sch st))).
  induction (map_to_list (open_availabilities (sch st))) as [|[k a] l IH]; [done|]. exact IH.
Qed.

Lemma close_all_foreground {W : Type} `{DesktopActivitySource W} (now : Z) (st : SchedIO W) fg :
  open_foreground (sch st) = Some fg →
  open_foreground (sch (close_all now st).2) = None ∧
  filter (λ row, is_foreground_row row = true) (close_all now st).1 = [fg_row now fg].
Proof.
  intros Hfg. unfold close_all, and_then, close_foreground, close_activity, cancel_request, retire_request.
  rewrite !bind_run; cbn.
  rewrite Hfg. split; [done|]. rewrite !filter_app. cbn. f_equal.
  replace (filter _ (match open_activity (sch st) with Some a => [act_row now a] | None => [] end)) with (@nil DesktopActivityRow)
    by (by destruct (open_activity (sch st))).
  induction (map_to_list (open_availabilities (sch st))) as [|[k a] l IH]; [done|]. exact IH.
Qed.

(** Rotation loses no time and no content: a foreground interval that is
    open since [t0], split at segment boundaries in order and closed at the
    end, yields exactly one foreground row per segment; the rows tile
    [t0, now] without gap or overlap and all carry the window's payload. *)
Theorem boundaries_tile_the_interval {W : Type} `{DesktopActivitySource W} (cuts : list Z) (now : Z)
    (st : SchedIO W) (fg : OpenForeground)
    (Hfg : open_foreground (sch st) = Some fg)
    (Hsorted : StronglySorted Z.le (fg_start_ms fg :: cuts ++ [now])) :
  let rs := filter (λ row, is_foreground_row row = true)
              (and_then (each cuts on_boundary) (close_all now) st).1 in
  ((λ row, (row_ts row, row_end_ts row)) <$> rs) = zip (fg_start_ms fg :: cuts) (cuts ++ [now]) ∧
  Forall (λ row, row_payload row =
    PForeground (mkForegroundPayload (fg_app fg) (Some (fg_exe_name fg)) (fg_title fg) (fg_url fg))) rs.
Proof.
  revert st fg Hfg Hsorted. induction cuts as [|b cuts IH]; intros st fg Hfg Hsorted.
  - destruct (close_all_foreground now st fg Hfg) as [_ Hrows].
    unfold and_then, each, no_rows. rewrite !bind_run. cbn [mret state_ret fst snd]. cbv zeta.
    rewrite app_nil_l, Hrows. apply StronglySorted_inv in Hsorted as [_ Hle].
    apply Forall_inv in Hle. cbn. split; [|by repeat constructor]. by rewrite Z.max_l.
  - destruct (on_boundary_foreground b st fg Hfg) as [Hfg' Hrows].
    apply StronglySorted_inv in Hsorted as [Hs Hle]. apply Forall_inv in Hle.
    specialize (IH _ _ Hfg' Hs). cbv zeta in IH |- *. revert IH. unfold and_then at 1 3.
    cbn [each]. unfold and_then. rewrite !bind_run. cbn [mret state_ret fst snd].
    generalize (each cuts on_boundary (on_boundary b st).2). intros [r1 st1]. cbn [fst snd].
    rewrite !filter_app, <-app_assoc, Hrows. intros [Hts Hpay].
    cbn [app fmap list_fmap zip]. cbn in Hts. rewrite Hts. cbn. rewrite Z.max_l by done.
    split; [done|]. constructor; [done|exact Hpay].
Qed.

(** A page address for a question that no longer stands is ignored: after
    the outstanding request is cancelled (window, title, rules or preference
    changed, lock, pause), an answer to it changes nothing and emits nothing. *)
Theorem cancelled_request_answer_ignored {W : Type} `{DesktopActivitySource W, ActivityHost W}
    (st : SchedIO W) (result : DesktopActivityUrlResult) (now : Z)
    (Hgen : in_u64 (url_generation (url_state (sch st))))
    (Hres : res_generation result = url_generation (url_state (sch st))) :
  let st' := (cancel_request st).2 in
  match_url_result result now st' = ([], st') ∧ in_flight (url_state (sch st')) = false.
Proof.
  cbv zeta. unfold cancel_request, retire_request. rewrite !bind_run; cbn. split; [|done].
  unfold match_url_result. rewrite bind_run; cbn. rewrite Hres.
  rewrite (proj2 (Z.eqb_neq _ _)); [done|]. intros Heq. symmetry in Heq. revert Heq.
  apply wrap_u64_succ_ne; [done|widths].
Qed.

(** ** Witnesses: a scripted probe *)

Record script : Type := mkScript {
  script_events : list DesktopActivityProbeEvent;
  script_available : bool;
  script_requests : list DesktopActivityUrlRequest
}.

#[local] Instance script_source : DesktopActivitySource script := {|
  das_start := λ w, (Ok tt, w);
  das_stop := λ w, (tt, w);
  das_state := λ _, Active;
  das_poll_events := λ w, (script_events w, mkScript [] (script_available w) (script_requests w));
  das_poll_coarse_events := λ w, ([], w);
  das_request_url := λ r w, (tt, mkScript (script_events w) (script_available w) (script_requests w ++ [r]));
  das_poll_url_result := λ w, (None, w);
  das_cancel_url := λ w, (tt, w);
  das_foreground_snapshot := λ w, (None, w)
|}.

#[local] Instance script_host : ActivityHost script := {|
  read_rules_handle := λ w, (None, w);
  load_available_handle := λ w, (script_available w, w);
  host_url_parse := λ _, None;
  title_fingerprint := λ s, Z.of_nat (String.length s)
|}.

Definition banking_script : script :=
  mkScript [EvForeground 7 "Edge" "msedge.exe" "Bank"; EvForeground 8 "KeePass" "keepass.exe" "vault"] true [].

(** The policy of the time, and a record of requests that are for browsers. *)
Definition this_policy (q p : Policy) : Prop := p = q.
Definition browser_requests_only (w : script) : Prop :=
  Forall (λ r, is_browser (req_exe_name r) = true) (script_requests w).
Lemma script_keeps q : world_keeps browser_requests_only (this_policy q).
Proof.
  split; try (by intros w); try done.
  intros p g wid exe raw _ _ Hb _ w Hw. apply Forall_app. by repeat constructor.
Qed.

Definition titled : SchedIO script :=
  (run_op (OpPoll 1000) (mkSchedIO (fresh_scheduler true true default_rules "a" false false)
    (mkScript [EvForeground 8 "KeePass" "keepass.exe" "vault"; EvForeground 7 "Edge" "msedge.exe" "Bank"] true []))).2.


Definition down_host : ActivityHost script := {|
  read_rules_handle := λ w, (None, w);
  load_available_handle := λ w, (false, w);
  host_url_parse := λ _, None;
  title_fingerprint := λ _, 0%Z
|}.

Definition edge_window : OpenForeground := mkOpenForeground 100 7 "Edge" "msedge.exe" "Bank" (Some "Bank") None.

Definition edge_open : SchedIO script :=
  mkSchedIO (set_fg (Some edge_window) (fresh_scheduler true true default_rules "a" true true)) banking_script.

Lemma unavailable_rules_record_nothing_witness :
  open_foreground (sch (@poll_and_step script script_source down_host 500 edge_open).2) = None.
Proof.
  pose proof (@unavailable_rules_record_nothing script script_source down_host edge_open 500
    eq_refl (λ w, eq_refl)) as Hn.
  destruct (@poll_and_step script script_source down_host 500 edge_open) as [rs st]. apply Hn.
Defined.

Lemma boundaries_tile_the_interval_witness :
  ((λ row, (row_ts row, row_end_ts row)) <$>
    filter (λ row, is_foreground_row row = true)
      (and_then (each [300; 600]%Z on_boundary) (close_all 750) edge_open).1)
  = [(100, 300); (300, 600); (600, 750)]%Z.
Proof.
  refine (proj1 (boundaries_tile_the_interval [300; 600]%Z 750 edge_open edge_window _ _)).
  - reflexivity.
  - repeat constructor; cbn; lia.
Defined.

Lemma cancelled_request_answer_ignored_witness :
  match_url_result (mkUrlResult 0 7 (Some "example.com") false) 900 (cancel_request edge_open).2
  = ([], (cancel_request edge_open).2).
Proof.
  refine (proj1 (cancelled_request_answer_ignored edge_open
    (mkUrlResult 0 7 (Some "example.com") false) 900 _ _)); [split; cbn; [lia|vm_compute; discriminate]|reflexivity].
Defined.
