(* ===== verification/Preview.v ===== *)
(** * Ephemeral previews (crates/capture-engine/src/lib.rs)

    The peak level of an audio chunk and the thumbnail of a screen frame that
    the setup wizard shows while a proof consumer is open. *)
From Stdlib Require Import Floats.SpecFloat.
From S2P Require Import Prelude RustFloat Model.

Local Open Scope Z_scope.

(** ** Peak level *)

Definition byte_at (l : list Z) (i : nat) : Z := default 0 (l !! i).

Definition u32_from_le (b0 b1 b2 b3 : Z) : Z := b0 + 256 * b1 + 65536 * b2 + 16777216 * b3.

Definition i16_from_le (b0 b1 : Z) : Z :=
  let u := b0 + 256 * b1 in if 32768 <=? u then u - 65536 else u.

(** One sample of a frame, as an absolute value. *)
Definition sample_level (frame : list Z) (fmt : AudioFormat) (offset : nat) : f32 :=
  if is_float fmt && (bits_per_sample fmt =? 32) then
    if (offset + 4 <=? length frame)%nat then
      f_abs (f32_of_bits (u32_from_le (byte_at frame offset) (byte_at frame (offset + 1))
                            (byte_at frame (offset + 2)) (byte_at frame (offset + 3))))
    else f32_of_Z 0
  else if negb (is_float fmt) && (bits_per_sample fmt =? 16) then
    if (offset + 2 <=? length frame)%nat then
      f_abs (f32_div (f32_of_Z (i16_from_le (byte_at frame offset) (byte_at frame (offset + 1))))
                     (f32_of_Z 32768))
    else f32_of_Z 0
  else f32_of_Z 0.

Definition louder (peak sample : f32) : f32 := if f_lt peak sample then sample else peak.

Definition frame_peak (fmt : AudioFormat) (bytes_per_sample : nat) (peak : f32) (frame : list Z) : f32 :=
  foldl (λ peak channel, louder peak (sample_level frame fmt (channel * bytes_per_sample)))
    peak (seq 0 (Z.to_nat (channels fmt))).

(** [data[..usable_len].chunks_exact(size)]. *)
Fixpoint chunks_exact (n size : nat) (data : list Z) : list (list Z) :=
  match n with
  | O => []
  | S n => take size data :: chunks_exact n size (drop size data)
  end.

Definition compute_audio_level (data : list Z) (fmt : AudioFormat) : f32 :=
  let bytes_per_sample := Z.to_nat (bits_per_sample fmt / 8) in
  let frame_size := (Z.to_nat (channels fmt) * bytes_per_sample)%nat in
  if (frame_size =? 0)%nat || (length data =? 0)%nat then f32_of_Z 0
  else
    let frames := (length data / frame_size)%nat in
    if (frames * frame_size =? 0)%nat then f32_of_Z 0
    else
      f_clamp (f32_of_Z 0) (f32_of_Z 1)
        (foldl (frame_peak fmt bytes_per_sample) (f32_of_Z 0) (chunks_exact frames frame_size data)).

(** ** Thumbnail *)

Definition target_dims (w h : Z) : Z * Z :=
  let max_dim := Z.max w h in
  if max_dim <=? 320 then (w, h)
  else (as_u32 (Z.max (w * 320 / max_dim) 1), as_u32 (Z.max (h * 320 / max_dim) 1)).

Definition thumb_pixel (frame : ScreenFrame) (tw th tx ty : Z) : list Z :=
  let sy := ty * frame_height frame / th in
  let row_start := wrap_u64 (sy * (frame_width frame * 4)) in
  let sx := tx * frame_width frame / tw in
  let px_start := wrap_u64 (row_start + sx * 4) in
  if wrap_u64 (px_start + 4) <=? Z.of_nat (length (pixels frame)) then
    let at_ i := byte_at (pixels frame) (Z.to_nat (px_start + i)) in
    match pixel_format frame with
    | Bgra8 => [at_ 2; at_ 1; at_ 0; at_ 3]
    | Rgba8 => [at_ 0; at_ 1; at_ 2; at_ 3]
    end
  else [0; 0; 0; 255].

Definition downscale_screen_frame (frame : ScreenFrame) : ScreenPreviewFrame :=
  if (frame_width frame =? 0) || (frame_height frame =? 0) || (length (pixels frame) =? 0)%nat then
    mkScreenPreviewFrame 0 0 []
  else
    let '(tw, th) := target_dims (frame_width frame) (frame_height frame) in
    mkScreenPreviewFrame tw th
      (concat ((λ ty, concat ((λ tx, thumb_pixel frame tw th tx ty) <$> seqZ 0 tw)) <$> seqZ 0 th)).

(** ** Lemmas *)

(** Rows of equal length, one after another. *)
Lemma concat_lookup_uniform {A} (rows : list (list A)) k i j row :
  Forall (λ r, length r = k) rows → (j < k)%nat → rows !! i = Some row →
  concat rows !! (i * k + j)%nat = row !! j.
Proof.
  intros HF Hj. revert i. induction HF as [|r rows Hr _ IH]; intros i; [done|].
  destruct i as [|i]; cbn.
  - intros [= ->]. rewrite lookup_app_l by lia. done.
  - intros Hi. rewrite lookup_app_r by lia. rewrite Hr.
    replace (k + i * k + j - k)%nat with (i * k + j)%nat by lia. by apply IH.
Qed.

Lemma length_concat_uniform {A} (rows : list (list A)) k :
  Forall (λ r, length r = k) rows → length (concat rows) = (length rows * k)%nat.
Proof. intros HF. induction HF as [|r rows Hr _ IH]; cbn; [done|]. rewrite length_app, IH. lia. Qed.

Lemma seqZ_lookup n i : (0 ≤ i < n) → seqZ 0 n !! Z.to_nat i = Some i.
Proof. intros Hi. rewrite lookup_seqZ. lia. Qed.

Lemma length_thumb_pixel f tw th tx ty : length (thumb_pixel f tw th tx ty) = 4%nat.
Proof. unfold thumb_pixel. repeat case_match; done. Qed.

Lemma target_dims_range w h :
  0 < w → 0 < h → in_u32 w → in_u32 h →
  let '(tw, th) := target_dims w h in 1 ≤ tw ≤ Z.min w 320 ∧ 1 ≤ th ≤ Z.min h 320.
Proof.
  intros Hw Hh Hwr Hhr. unfold target_dims. destruct (Z.leb_spec (Z.max w h) 320); [lia|].
  assert (Hb : ∀ x, 0 < x ≤ Z.max w h → 1 ≤ Z.max (x * 320 / Z.max w h) 1 ≤ Z.min x 320).
  { intros x Hx. assert (0 ≤ x * 320 / Z.max w h) by (apply Z.div_pos; lia).
    assert (x * 320 / Z.max w h ≤ 320) by (apply Z.div_le_upper_bound; nia).
    assert (x * 320 / Z.max w h ≤ x) by (apply Z.div_le_upper_bound; nia). lia. }
  pose proof (Hb w ltac:(lia)). pose proof (Hb h ltac:(lia)).
  unfold as_u32. rewrite !Z.mod_small by lia. lia.
Qed.

(** The source coordinate of a thumbnail coordinate lies inside the frame. *)
Lemma thumb_coord t n k : 0 ≤ t < k → 0 < n → 0 ≤ t * n / k < n.
Proof. intros. split; [apply Z.div_pos; nia|]. apply Z.div_lt_upper_bound; nia. Qed.

Lemma length_thumb_row f tw th ty :
  0 ≤ tw → length (concat ((λ tx, thumb_pixel f tw th tx ty) <$> seqZ 0 tw)) = (Z.to_nat tw * 4)%nat.
Proof.
  intros Htw. rewrite (length_concat_uniform _ 4).
  - by rewrite length_fmap, length_seqZ.
  - apply Forall_fmap, Forall_forall. intros tx _. apply length_thumb_pixel.
Qed.

Lemma byte_at_lookup l i : (i < length l)%nat → Some (byte_at l i) = l !! i.
Proof. intros Hi. unfold byte_at. by destruct (lookup_lt_is_Some_2 l i Hi) as [x ->]. Qed.

Lemma thumb_pixel_lookup f tw th tx ty (c : nat) :
  Z.of_nat (length (pixels f)) = 4 * (frame_width f * frame_height f) →
  4 * (frame_width f * frame_height f) ≤ u64_max →
  0 ≤ tx * frame_width f / tw < frame_width f → 0 ≤ ty * frame_height f / th < frame_height f →
  (c < 4)%nat →
  thumb_pixel f tw th tx ty !! c =
  pixels f !! (Z.to_nat (ty * frame_height f / th * frame_width f + tx * frame_width f / tw) * 4 +
               match pixel_format f with
               | Rgba8 => c
               | Bgra8 => match c with 0 => 2 | 2 => 0 | c => c end
               end)%nat.
Proof.
  intros Hlen Hu Hsx Hsy Hc. unfold thumb_pixel.
  set (sx := tx * frame_width f / tw) in *. set (sy := ty * frame_height f / th) in *.
  set (w := frame_width f) in *. set (h := frame_height f) in *. clearbody sx sy w h.
  assert (Hp : 0 ≤ sy * w + sx ∧ 4 * (sy * w + sx) + 4 ≤ 4 * (w * h)) by nia.
  assert (0 ≤ sy * w) by nia.
  rewrite (wrap_u64_id (sy * (w * 4))) by (unfold in_u64; nia).
  rewrite (wrap_u64_id (sy * (w * 4) + sx * 4)) by (unfold in_u64; nia).
  rewrite (wrap_u64_id (_ + 4)) by (unfold in_u64; nia).
  rewrite (proj2 (Z.leb_le _ _)) by nia.
  assert (Hat : ∀ k : nat, (k < 4)%nat →
    Some (byte_at (pixels f) (Z.to_nat (sy * (w * 4) + sx * 4 + Z.of_nat k))) =
    pixels f !! (Z.to_nat (sy * w + sx) * 4 + k)%nat).
  { intros k Hk. rewrite byte_at_lookup by nia. f_equal. nia. }
  destruct (pixel_format f), c as [|[|[|[|c]]]]; try lia; cbn [lookup list_lookup];
    first [exact (Hat 0%nat ltac:(lia)) | exact (Hat 1%nat ltac:(lia)) | exact (Hat 2%nat ltac:(lia))
          | exact (Hat 3%nat ltac:(lia))].
Qed.

(** ** Properties *)

(** The thumbnail is a nearest-sample of the frame: for a frame whose
    buffer holds every pixel, it is at most 320 wide and high (and no larger
    than the frame), holds exactly four bytes per pixel, and its pixel
    [(tx, ty)] is the frame's pixel [(tx * w / tw, ty * h / th)], which is
    inside the frame, in RGBA order whatever the source order. *)
Theorem downscale_is_nearest_sample (f : ScreenFrame) (tx ty : Z)
    (Hw : 0 < frame_width f) (Hh : 0 < frame_height f)
    (Hw32 : in_u32 (frame_width f)) (Hh32 : in_u32 (frame_height f))
    (Hlen : Z.of_nat (length (pixels f)) = 4 * (frame_width f * frame_height f))
    (Husize : 4 * (frame_width f * frame_height f) ≤ u64_max) :
  let p := downscale_screen_frame f in
  let tw := preview_width p in
  let th := preview_height p in
  1 ≤ tw ≤ Z.min (frame_width f) 320 ∧ 1 ≤ th ≤ Z.min (frame_height f) 320 ∧
  Z.of_nat (length (preview_rgba p)) = 4 * (tw * th) ∧
  (0 ≤ tx < tw → 0 ≤ ty < th →
    let sx := tx * frame_width f / tw in
    let sy := ty * frame_height f / th in
    0 ≤ sx < frame_width f ∧ 0 ≤ sy < frame_height f ∧
    ∀ c : nat, (c < 4)%nat →
      let src := match pixel_format f with
                 | Rgba8 => c
                 | Bgra8 => match c with 0 => 2 | 2 => 0 | c => c end
                 end%nat in
      preview_rgba p !! (Z.to_nat (ty * tw + tx) * 4 + c)%nat =
      pixels f !! (Z.to_nat (sy * frame_width f + sx) * 4 + src)%nat).
Proof.
  unfold downscale_screen_frame.
  rewrite (proj2 (Z.eqb_neq _ _)), (proj2 (Z.eqb_neq (frame_height f) 0)) by lia.
  rewrite (proj2 (Nat.eqb_neq (length (pixels f)) 0)) by nia. cbn [orb].
  pose proof (target_dims_range _ _ Hw Hh Hw32 Hh32) as Hdims.
  destruct (target_dims _ _) as [tw th]; cbn. destruct Hdims as [Htw Hth].
  set (rows := (λ ty, concat ((λ tx, thumb_pixel f tw th tx ty) <$> seqZ 0 tw)) <$> seqZ 0 th).
  assert (Hrows : Forall (λ r, length r = (Z.to_nat tw * 4)%nat) rows).
  { apply Forall_fmap, Forall_forall. intros y _. apply length_thumb_row. lia. }
  split; [done|]. split; [done|]. split.
  { rewrite (length_concat_uniform _ _ Hrows). unfold rows. rewrite length_fmap, length_seqZ. nia. }
  intros Htx Hty. pose proof (thumb_coord tx (frame_width f) tw Htx Hw) as Hsx.
  pose proof (thumb_coord ty (frame_height f) th Hty Hh) as Hsy.
  split; [done|]. split; [done|]. intros c Hc.
  assert (Hpx : concat rows !! (Z.to_nat (ty * tw + tx) * 4 + c)%nat = thumb_pixel f tw th tx ty !! c).
  { replace (Z.to_nat (ty * tw + tx) * 4 + c)%nat
      with (Z.to_nat ty * (Z.to_nat tw * 4) + (Z.to_nat tx * 4 + c))%nat by nia.
    rewrite (concat_lookup_uniform rows (Z.to_nat tw * 4) _ _
      (concat ((λ tx, thumb_pixel f tw th tx ty) <$> seqZ 0 tw))); [|done|nia|].
    2:{ unfold rows. by rewrite list_lookup_fmap, seqZ_lookup by lia. }
    apply concat_lookup_uniform; [|done|by rewrite list_lookup_fmap, seqZ_lookup by lia].
    apply Forall_fmap, Forall_forall. intros x _. apply length_thumb_pixel. }
  rewrite Hpx. apply (thumb_pixel_lookup f tw th tx ty c); done.
Qed.

Lemma downscale_is_nearest_sample_witness :
  preview_rgba (downscale_screen_frame (mkScreenFrame 0 0 1 2 Bgra8 [1; 2; 3; 4; 5; 6; 7; 8])) !! 4%nat
  = Some 7.
Proof.
  pose proof (downscale_is_nearest_sample (mkScreenFrame 0 0 1 2 Bgra8 [1; 2; 3; 4; 5; 6; 7; 8]) 0 1
    ltac:(cbn; lia) ltac:(cbn; lia) ltac:(cbn; widths) ltac:(cbn; widths) ltac:(reflexivity)
    ltac:(cbn; widths)) as (_ & _ & _ & Hp).
  assert (Hdims : downscale_screen_frame (mkScreenFrame 0 0 1 2 Bgra8 [1; 2; 3; 4; 5; 6; 7; 8]) =
    mkScreenPreviewFrame 1 2 [3; 2; 1; 4; 7; 6; 5; 8]) by reflexivity.
  rewrite Hdims in Hp |- *. destruct (Hp ltac:(cbn; lia) ltac:(cbn; lia)) as (_ & _ & Hc).
  exact (Hc 0%nat ltac:(lia)).
Defined.

Definition not_nan (x : f32) : Prop := match x with S754_nan => False | _ => True end.

Lemma louder_not_nan peak s : not_nan peak → not_nan (louder peak s).
Proof.
  intros Hp. unfold louder. destruct (f_lt peak s) eqn:Hlt; [|done].
  destruct s; try done. by destruct peak as [[]|[]| |[] ? ?].
Qed.

Lemma frame_peak_not_nan fmt k peak frame : not_nan peak → not_nan (frame_peak fmt k peak frame).
Proof.
  unfold frame_peak. generalize (seq 0 (Z.to_nat (channels fmt))). intros cs. revert peak.
  induction cs as [|c cs IH]; intros peak Hp; cbn; [done|]. by apply IH, louder_not_nan.
Qed.

Lemma clamp_unit x :
  not_nan x →
  let y := f_clamp (f32_of_Z 0) (f32_of_Z 1) x in
  not_nan y ∧ f_lt y (f32_of_Z 0) = false ∧ f_lt (f32_of_Z 1) y = false.
Proof.
  intros Hx. unfold f_clamp. cbv zeta. destruct (f_lt x (f32_of_Z 0)) eqn:H0; [by vm_compute|].
  destruct (f_lt (f32_of_Z 1) x) eqn:H1; [by vm_compute|done].
Qed.

(** A preview level is always a number between 0 and 1, whatever bytes,
    sample format, channel count or NaN and infinite float samples come in. *)
Theorem audio_level_in_unit (data : list Z) (fmt : AudioFormat) :
  let level := compute_audio_level data fmt in
  not_nan level ∧ f_lt level (f32_of_Z 0) = false ∧ f_lt (f32_of_Z 1) level = false.
Proof.
  unfold compute_audio_level. destruct (_ || _); [by vm_compute|].
  destruct (_ =? 0)%nat; [by vm_compute|]. apply clamp_unit.
  generalize (chunks_exact (length data / (Z.to_nat (channels fmt) * Z.to_nat (bits_per_sample fmt / 8)))
    (Z.to_nat (channels fmt) * Z.to_nat (bits_per_sample fmt / 8)) data).
  intros frames. assert (H0 : not_nan (f32_of_Z 0)) by done. revert H0. generalize (f32_of_Z 0).
  induction frames as [|fr frames IH]; intros peak Hp; cbn; [done|]. by apply IH, frame_peak_not_nan.
Qed.
