(* ===== verification/EngineState.v ===== *)
(** * Engine state (crates/capture-engine/src/lib.rs)

    The data of the capture engine: the preview gate, commands, capture events
    and their admission, the open segment, and the engine's fields as one
    record with a setter per field. Everything the engine calls through a trait
    is the world [W]; its classes are below. Cells the engine shares with other
    threads (the event queue, generation counters, proof gate, sync snapshot,
    setup authority, health) are fields of the record: another thread's write
    is a step of its own between two engine operations. *)
From Stdlib Require Import Ascii String.
From S2P Require Import Prelude RustStr RustFloat Model Segment AppState Lifecycle Recovery Exclusion.
From S2P Require Import Civil PauseStore UrlNorm DesktopActivity Preview.

Local Open Scope list_scope.

(** ** A total map over the four sources ([BTreeMap<SourceKind, _>]) *)

Record PerKind (A : Type) : Type := mkPerKind { pk_screen : A; pk_sys : A; pk_mic : A; pk_activity : A }.
Arguments mkPerKind {A} _ _ _ _.
Arguments pk_screen {A} _.
Arguments pk_sys {A} _.
Arguments pk_mic {A} _.
Arguments pk_activity {A} _.

Definition pk_all {A} (a : A) : PerKind A := mkPerKind a a a a.
Definition pk_get {A} (m : PerKind A) (k : SourceKind) : A :=
  match k with
  | Screen => pk_screen m | SystemAudio => pk_sys m | Mic => pk_mic m | DesktopActivity => pk_activity m
  end.
Definition pk_set {A} (k : SourceKind) (a : A) (m : PerKind A) : PerKind A :=
  match k with
  | Screen => mkPerKind a (pk_sys m) (pk_mic m) (pk_activity m)
  | SystemAudio => mkPerKind (pk_screen m) a (pk_mic m) (pk_activity m)
  | Mic => mkPerKind (pk_screen m) (pk_sys m) a (pk_activity m)
  | DesktopActivity => mkPerKind (pk_screen m) (pk_sys m) (pk_mic m) a
  end.
#[global] Arguments pk_get : simpl never.
#[global] Arguments pk_set : simpl never.
(** The values present, in the map's order. *)
Definition pk_values {A} (m : PerKind (option A)) : list A := omap (pk_get m) source_kinds.

Lemma pk_get_set {A} k a (m : PerKind A) k' :
  pk_get (pk_set k a m) k' = if decide (k' = k) then a else pk_get m k'.
Proof. by destruct k, k'. Qed.

Lemma pk_get_set_eq {A} k a (m : PerKind A) : pk_get (pk_set k a m) k = a.
Proof. by destruct k. Qed.

Lemma pk_get_set_ne {A} k k' a (m : PerKind A) : k' ≠ k → pk_get (pk_set k a m) k' = pk_get m k'.
Proof. by destruct k, k'. Qed.

(** ** Preview gate *)

Record ProofGate : Type := mkProofGate { gate_generation : Z; gate_source : option SourceKind }.
Definition new_gate : ProofGate := mkProofGate 0 None.
Definition gate_open (kind : SourceKind) (p : ProofGate) : ProofGate :=
  mkProofGate (wrap_u64 (gate_generation p + 1)) (Some kind).
Definition gate_close (p : ProofGate) : ProofGate := mkProofGate (wrap_u64 (gate_generation p + 1)) None.

(** ** Commands, events, segments *)

Inductive EngineCommand : Type :=
| CmdPause (reason : PauseReason) (duration_secs : option Z)
| CmdResume
| CmdSystemResume
| CmdTogglePause
| CmdDisplayChanged
| CmdSetSourceEnabled (kind : SourceKind) (enabled : bool)
| CmdSetDesktopActivityPreferences (window_titles page_addresses : bool)
| CmdSetDesktopActivityThroughPause (enabled : bool)
| CmdClearPreviews.

Record InputAdmission : Type := mkInputAdmission {
  source_generation : Z;
  stream_generation : Z;
  proof_generation : Z
}.

Inductive CaptureEvent : Type :=
| EvAudio (kind : SourceKind) (admission : InputAdmission) (chunk : CaptureChunk)
| EvScreen (admission : InputAdmission) (frame : ScreenFrame).

Record OpenSegment : Type := mkOpenSegment {
  seg_key : SegmentKey;
  seg_dir : string;
  opened_epoch_secs : Z;
  opened_monotonic_us : Z;
  boundary_offset_us : Z;
  screen_chunks : Z;
  screen_encoder_open : bool
}.

Record EngineConfig : Type := mkEngineConfig { cfg_segment_secs : Z; cfg_lifecycle : BackoffConfig }.
Definition default_engine_config : EngineConfig := mkEngineConfig DEFAULT_SEGMENT_SECS default_backoff.

Record PendingActivityRow : Type := mkPendingActivityRow {
  pend_key : SegmentKey;
  pend_file_name : string;
  pend_line : string;
  pend_committed_len : Z
}.

(** [pending_seals]: a [BTreeMap] by segment key, kept as a sorted list. *)
Definition key_ltb (a b : SegmentKey) : bool :=
  ((boundary_epoch_secs a <? boundary_epoch_secs b)
   || ((boundary_epoch_secs a =? boundary_epoch_secs b) && (index a <? index b)))%Z.

Fixpoint seal_insert (k : SegmentKey) (v : option f64) (l : list (SegmentKey * option f64))
    : list (SegmentKey * option f64) :=
  match l with
  | [] => [(k, v)]
  | (k', v') :: l' =>
    if decide (k = k') then (k, v) :: l'
    else if key_ltb k k' then (k, v) :: l
    else (k', v') :: seal_insert k v l'
  end.

Definition seal_remove (k : SegmentKey) (l : list (SegmentKey * option f64)) : list (SegmentKey * option f64) :=
  filter (λ kv, kv.1 ≠ k) l.

(** ** The world *)

(** The three capture sources, the screen encoder, the clock and the other
    outside facts the engine reads. [src_start] gets the generation its sink
    carries. *)
Class CaptureWorld (W : Type) : Type := {
  src_start : SourceKind → Z → M W (result unit SourceError);
  src_stop : SourceKind → M W unit;
  src_state : SourceKind → W → SourceState;
  screen_display_changed : M W unit;
  exclusion_health : W → option ExclusionHealth;
  enc_open : string → Z → Z → M W (result unit EncoderError);
  enc_encode_frame : ScreenFrame → M W (result unit EncoderError);
  enc_finalize : M W (result unit EncoderError);
  enc_video_end_secs : W → option f64;
  enc_last_error : W → option string;
  enc_health : W → EncoderHealth;
  now_epoch_secs : M W Z;
  now_epoch_us : M W Z;
  now_monotonic_us : M W Z;
  system_nanos : M W Z;
  process_id : Z;
  file_in_segment : string → string → W → bool;
  file_in_sealed : string → Z → string → W → bool;
  to_jsonl_line : DesktopActivityRow → option string;
  engine_version : string
}.

(** What the engine asks of the setup authority it shares with the shell. *)
Class SetupAuth (A : Type) : Type := {
  auth_new : A;
  auth_seed : SetupSnapshot → A → A;
  auth_note_running : SourceKind → bool → A → A;
  auth_projection : A → SetupSnapshot
}.

Section engine_state.
Context {W A : Type}.

Record Engine : Type := mkEngine {
  e_world : W;
  e_state : StateMachine;
  e_segment_secs : Z;
  e_current : option OpenSegment;
  e_rx : list CaptureEvent;
  e_generations : PerKind Z;
  e_streams : PerKind Z;
  e_reports : PerKind (option SourceReport);
  e_lifecycles : PerKind Lifecycle;
  e_retry_at : PerKind (option Z);
  e_pending_seals : list (SegmentKey * option f64);
  e_write_stalled : bool;
  e_storage_fault : option string;
  e_storage_lifecycle : Lifecycle;
  e_storage_retry_at : option Z;
  e_shared_health : HealthDump;
  e_health_tx : HealthDump;
  e_has_pause_store : bool;
  e_sync : SyncSnapshot;
  e_preview : PreviewSnapshot;
  e_last_mic : option Z;
  e_last_sys : option Z;
  e_last_screen : option Z;
  e_setup : SetupSnapshot;
  e_auth : A;
  e_proof : ProofGate;
  e_sched : DesktopActivityScheduler;
  e_pending_rows : list PendingActivityRow;
  e_committed_lens : gmap (SegmentKey * string) Z;
  e_batch_written : bool;
  e_activity_allowed : bool;
  e_through_pause : bool;
  e_artifact_counter : Z
}.

Definition set_e_world (x : W) (e : Engine) : Engine :=
  mkEngine x (e_state e) (e_segment_secs e) (e_current e) (e_rx e) (e_generations e) (e_streams e)
    (e_reports e) (e_lifecycles e) (e_retry_at e) (e_pending_seals e) (e_write_stalled e)
    (e_storage_fault e) (e_storage_lifecycle e) (e_storage_retry_at e) (e_shared_health e)
    (e_health_tx e) (e_has_pause_store e) (e_sync e) (e_preview e) (e_last_mic e) (e_last_sys e)
    (e_last_screen e) (e_setup e) (e_auth e) (e_proof e) (e_sched e) (e_pending_rows e)
    (e_committed_lens e) (e_batch_written e) (e_activity_allowed e) (e_through_pause e)
    (e_artifact_counter e).
Definition set_e_state (x : StateMachine) (e : Engine) : Engine :=
  mkEngine (e_world e) x (e_segment_secs e) (e_current e) (e_rx e) (e_generations e) (e_streams e)
    (e_reports e) (e_lifecycles e) (e_retry_at e) (e_pending_seals e) (e_write_stalled e)
    (e_storage_fault e) (e_storage_lifecycle e) (e_storage_retry_at e) (e_shared_health e)
    (e_health_tx e) (e_has_pause_store e) (e_sync e) (e_preview e) (e_last_mic e) (e_last_sys e)
    (e_last_screen e) (e_setup e) (e_auth e) (e_proof e) (e_sched e) (e_pending_rows e)
    (e_committed_lens e) (e_batch_written e) (e_activity_allowed e) (e_through_pause e)
    (e_artifact_counter e).
Definition set_e_segment_secs (x : Z) (e : Engine) : Engine :=
  mkEngine (e_world e) (e_state e) x (e_current e) (e_rx e) (e_generations e) (e_streams e)
    (e_reports e) (e_lifecycles e) (e_retry_at e) (e_pending_seals e) (e_write_stalled e)
    (e_storage_fault e) (e_storage_lifecycle e) (e_storage_retry_at e) (e_shared_health e)
    (e_health_tx e) (e_has_pause_store e) (e_sync e) (e_preview e) (e_last_mic e) (e_last_sys e)
    (e_last_screen e) (e_setup e) (e_auth e) (e_proof e) (e_sched e) (e_pending_rows e)
    (e_committed_lens e) (e_batch_written e) (e_activity_allowed e) (e_through_pause e)
    (e_artifact_counter e).
Definition set_e_current (x : option OpenSegment) (e : Engine) : Engine :=
  mkEngine (e_world e) (e_state e) (e_segment_secs e) x (e_rx e) (e_generations e) (e_streams e)
    (e_reports e) (e_lifecycles e) (e_retry_at e) (e_pending_seals e) (e_write_stalled e)
    (e_storage_fault e) (e_storage_lifecycle e) (e_storage_retry_at e) (e_shared_health e)
    (e_health_tx e) (e_has_pause_store e) (e_sync e) (e_preview e) (e_last_mic e) (e_last_sys e)
    (e_last_screen e) (e_setup e) (e_auth e) (e_proof e) (e_sched e) (e_pending_rows e)
    (e_committed_lens e) (e_batch_written e) (e_activity_allowed e) (e_through_pause e)
    (e_artifact_counter e).
Definition set_e_rx (x : list CaptureEvent) (e : Engine) : Engine :=
  mkEngine (e_world e) (e_state e) (e_segment_secs e) (e_current e) x (e_generations e)
    (e_streams e) (e_reports e) (e_lifecycles e) (e_retry_at e) (e_pending_seals e)
    (e_write_stalled e) (e_storage_fault e) (e_storage_lifecycle e) (e_storage_retry_at e)
    (e_shared_health e) (e_health_tx e) (e_has_pause_store e) (e_sync e) (e_preview e)
    (e_last_mic e) (e_last_sys e) (e_last_screen e) (e_setup e) (e_auth e) (e_proof e) (e_sched e)
    (e_pending_rows e) (e_committed_lens e) (e_batch_written e) (e_activity_allowed e)
    (e_through_pause e) (e_artifact_counter e).
Definition set_e_generations (x : PerKind Z) (e : Engine) : Engine :=
  mkEngine (e_world e) (e_state e) (e_segment_secs e) (e_current e) (e_rx e) x (e_streams e)
    (e_reports e) (e_lifecycles e) (e_retry_at e) (e_pending_seals e) (e_write_stalled e)
    (e_storage_fault e) (e_storage_lifecycle e) (e_storage_retry_at e) (e_shared_health e)
    (e_health_tx e) (e_has_pause_store e) (e_sync e) (e_preview e) (e_last_mic e) (e_last_sys e)
    (e_last_screen e) (e_setup e) (e_auth e) (e_proof e) (e_sched e) (e_pending_rows e)
    (e_committed_lens e) (e_batch_written e) (e_activity_allowed e) (e_through_pause e)
    (e_artifact_counter e).
Definition set_e_streams (x : PerKind Z) (e : Engine) : Engine :=
  mkEngine (e_world e) (e_state e) (e_segment_secs e) (e_current e) (e_rx e) (e_generations e) x
    (e_reports e) (e_lifecycles e) (e_retry_at e) (e_pending_seals e) (e_write_stalled e)
    (e_storage_fault e) (e_storage_lifecycle e) (e_storage_retry_at e) (e_shared_health e)
    (e_health_tx e) (e_has_pause_store e) (e_sync e) (e_preview e) (e_last_mic e) (e_last_sys e)
    (e_last_screen e) (e_setup e) (e_auth e) (e_proof e) (e_sched e) (e_pending_rows e)
    (e_committed_lens e) (e_batch_written e) (e_activity_allowed e) (e_through_pause e)
    (e_artifact_counter e).
Definition set_e_reports (x : PerKind (option SourceReport)) (e : Engine) : Engine :=
  mkEngine (e_world e) (e_state e) (e_segment_secs e) (e_current e) (e_rx e) (e_generations e)
    (e_streams e) x (e_lifecycles e) (e_retry_at e) (e_pending_seals e) (e_write_stalled e)
    (e_storage_fault e) (e_storage_lifecycle e) (e_storage_retry_at e) (e_shared_health e)
    (e_health_tx e) (e_has_pause_store e) (e_sync e) (e_preview e) (e_last_mic e) (e_last_sys e)
    (e_last_screen e) (e_setup e) (e_auth e) (e_proof e) (e_sched e) (e_pending_rows e)
    (e_committed_lens e) (e_batch_written e) (e_activity_allowed e) (e_through_pause e)
    (e_artifact_counter e).
Definition set_e_lifecycles (x : PerKind Lifecycle) (e : Engine) : Engine :=
  mkEngine (e_world e) (e_state e) (e_segment_secs e) (e_current e) (e_rx e) (e_generations e)
    (e_streams e) (e_reports e) x (e_retry_at e) (e_pending_seals e) (e_write_stalled e)
    (e_storage_fault e) (e_storage_lifecycle e) (e_storage_retry_at e) (e_shared_health e)
    (e_health_tx e) (e_has_pause_store e) (e_sync e) (e_preview e) (e_last_mic e) (e_last_sys e)
    (e_last_screen e) (e_setup e) (e_auth e) (e_proof e) (e_sched e) (e_pending_rows e)
    (e_committed_lens e) (e_batch_written e) (e_activity_allowed e) (e_through_pause e)
    (e_artifact_counter e).
Definition set_e_retry_at (x : PerKind (option Z)) (e : Engine) : Engine :=
  mkEngine (e_world e) (e_state e) (e_segment_secs e) (e_current e) (e_rx e) (e_generations e)
    (e_streams e) (e_reports e) (e_lifecycles e) x (e_pending_seals e) (e_write_stalled e)
    (e_storage_fault e) (e_storage_lifecycle e) (e_storage_retry_at e) (e_shared_health e)
    (e_health_tx e) (e_has_pause_store e) (e_sync e) (e_preview e) (e_last_mic e) (e_last_sys e)
    (e_last_screen e) (e_setup e) (e_auth e) (e_proof e) (e_sched e) (e_pending_rows e)
    (e_committed_lens e) (e_batch_written e) (e_activity_allowed e) (e_through_pause e)
    (e_artifact_counter e).
Definition set_e_pending_seals (x : list (SegmentKey * option f64)) (e : Engine) : Engine :=
  mkEngine (e_world e) (e_state e) (e_segment_secs e) (e_current e) (e_rx e) (e_generations e)
    (e_streams e) (e_reports e) (e_lifecycles e) (e_retry_at e) x (e_write_stalled e)
    (e_storage_fault e) (e_storage_lifecycle e) (e_storage_retry_at e) (e_shared_health e)
    (e_health_tx e) (e_has_pause_store e) (e_sync e) (e_preview e) (e_last_mic e) (e_last_sys e)
    (e_last_screen e) (e_setup e) (e_auth e) (e_proof e) (e_sched e) (e_pending_rows e)
    (e_committed_lens e) (e_batch_written e) (e_activity_allowed e) (e_through_pause e)
    (e_artifact_counter e).
Definition set_e_write_stalled (x : bool) (e : Engine) : Engine :=
  mkEngine (e_world e) (e_state e) (e_segment_secs e) (e_current e) (e_rx e) (e_generations e)
    (e_streams e) (e_reports e) (e_lifecycles e) (e_retry_at e) (e_pending_seals e) x
    (e_storage_fault e) (e_storage_lifecycle e) (e_storage_retry_at e) (e_shared_health e)
    (e_health_tx e) (e_has_pause_store e) (e_sync e) (e_preview e) (e_last_mic e) (e_last_sys e)
    (e_last_screen e) (e_setup e) (e_auth e) (e_proof e) (e_sched e) (e_pending_rows e)
    (e_committed_lens e) (e_batch_written e) (e_activity_allowed e) (e_through_pause e)
    (e_artifact_counter e).
Definition set_e_storage_fault (x : option string) (e : Engine) : Engine :=
  mkEngine (e_world e) (e_state e) (e_segment_secs e) (e_current e) (e_rx e) (e_generations e)
    (e_streams e) (e_reports e) (e_lifecycles e) (e_retry_at e) (e_pending_seals e)
    (e_write_stalled e) x (e_storage_lifecycle e) (e_storage_retry_at e) (e_shared_health e)
    (e_health_tx e) (e_has_pause_store e) (e_sync e) (e_preview e) (e_last_mic e) (e_last_sys e)
    (e_last_screen e) (e_setup e) (e_auth e) (e_proof e) (e_sched e) (e_pending_rows e)
    (e_committed_lens e) (e_batch_written e) (e_activity_allowed e) (e_through_pause e)
    (e_artifact_counter e).
Definition set_e_storage_lifecycle (x : Lifecycle) (e : Engine) : Engine :=
  mkEngine (e_world e) (e_state e) (e_segment_secs e) (e_current e) (e_rx e) (e_generations e)
    (e_streams e) (e_reports e) (e_lifecycles e) (e_retry_at e) (e_pending_seals e)
    (e_write_stalled e) (e_storage_fault e) x (e_storage_retry_at e) (e_shared_health e)
    (e_health_tx e) (e_has_pause_store e) (e_sync e) (e_preview e) (e_last_mic e) (e_last_sys e)
    (e_last_screen e) (e_setup e) (e_auth e) (e_proof e) (e_sched e) (e_pending_rows e)
    (e_committed_lens e) (e_batch_written e) (e_activity_allowed e) (e_through_pause e)
    (e_artifact_counter e).
Definition set_e_storage_retry_at (x : option Z) (e : Engine) : Engine :=
  mkEngine (e_world e) (e_state e) (e_segment_secs e) (e_current e) (e_rx e) (e_generations e)
    (e_streams e) (e_reports e) (e_lifecycles e) (e_retry_at e) (e_pending_seals e)
    (e_write_stalled e) (e_storage_fault e) (e_storage_lifecycle e) x (e_shared_health e)
    (e_health_tx e) (e_has_pause_store e) (e_sync e) (e_preview e) (e_last_mic e) (e_last_sys e)
    (e_last_screen e) (e_setup e) (e_auth e) (e_proof e) (e_sched e) (e_pending_rows e)
    (e_committed_lens e) (e_batch_written e) (e_activity_allowed e) (e_through_pause e)
    (e_artifact_counter e).
Definition set_e_shared_health (x : HealthDump) (e : Engine) : Engine :=
  mkEngine (e_world e) (e_state e) (e_segment_secs e) (e_current e) (e_rx e) (e_generations e)
    (e_streams e) (e_reports e) (e_lifecycles e) (e_retry_at e) (e_pending_seals e)
    (e_write_stalled e) (e_storage_fault e) (e_storage_lifecycle e) (e_storage_retry_at e) x
    (e_health_tx e) (e_has_pause_store e) (e_sync e) (e_preview e) (e_last_mic e) (e_last_sys e)
    (e_last_screen e) (e_setup e) (e_auth e) (e_proof e) (e_sched e) (e_pending_rows e)
    (e_committed_lens e) (e_batch_written e) (e_activity_allowed e) (e_through_pause e)
    (e_artifact_counter e).
Definition set_e_health_tx (x : HealthDump) (e : Engine) : Engine :=
  mkEngine (e_world e) (e_state e) (e_segment_secs e) (e_current e) (e_rx e) (e_generations e)
    (e_streams e) (e_reports e) (e_lifecycles e) (e_retry_at e) (e_pending_seals e)
    (e_write_stalled e) (e_storage_fault e) (e_storage_lifecycle e) (e_storage_retry_at e)
    (e_shared_health e) x (e_has_pause_store e) (e_sync e) (e_preview e) (e_last_mic e)
    (e_last_sys e) (e_last_screen e) (e_setup e) (e_auth e) (e_proof e) (e_sched e)
    (e_pending_rows e) (e_committed_lens e) (e_batch_written e) (e_activity_allowed e)
    (e_through_pause e) (e_artifact_counter e).
Definition set_e_has_pause_store (x : bool) (e : Engine) : Engine :=
  mkEngine (e_world e) (e_state e) (e_segment_secs e) (e_current e) (e_rx e) (e_generations e)
    (e_streams e) (e_reports e) (e_lifecycles e) (e_retry_at e) (e_pending_seals e)
    (e_write_stalled e) (e_storage_fault e) (e_storage_lifecycle e) (e_storage_retry_at e)
    (e_shared_health e) (e_health_tx e) x (e_sync e) (e_preview e) (e_last_mic e) (e_last_sys e)
    (e_last_screen e) (e_setup e) (e_auth e) (e_proof e) (e_sched e) (e_pending_rows e)
    (e_committed_lens e) (e_batch_written e) (e_activity_allowed e) (e_through_pause e)
    (e_artifact_counter e).
Definition set_e_sync (x : SyncSnapshot) (e : Engine) : Engine :=
  mkEngine (e_world e) (e_state e) (e_segment_secs e) (e_current e) (e_rx e) (e_generations e)
    (e_streams e) (e_reports e) (e_lifecycles e) (e_retry_at e) (e_pending_seals e)
    (e_write_stalled e) (e_storage_fault e) (e_storage_lifecycle e) (e_storage_retry_at e)
    (e_shared_health e) (e_health_tx e) (e_has_pause_store e) x (e_preview e) (e_last_mic e)
    (e_last_sys e) (e_last_screen e) (e_setup e) (e_auth e) (e_proof e) (e_sched e)
    (e_pending_rows e) (e_committed_lens e) (e_batch_written e) (e_activity_allowed e)
    (e_through_pause e) (e_artifact_counter e).
Definition set_e_preview (x : PreviewSnapshot) (e : Engine) : Engine :=
  mkEngine (e_world e) (e_state e) (e_segment_secs e) (e_current e) (e_rx e) (e_generations e)
    (e_streams e) (e_reports e) (e_lifecycles e) (e_retry_at e) (e_pending_seals e)
    (e_write_stalled e) (e_storage_fault e) (e_storage_lifecycle e) (e_storage_retry_at e)
    (e_shared_health e) (e_health_tx e) (e_has_pause_store e) (e_sync e) x (e_last_mic e)
    (e_last_sys e) (e_last_screen e) (e_setup e) (e_auth e) (e_proof e) (e_sched e)
    (e_pending_rows e) (e_committed_lens e) (e_batch_written e) (e_activity_allowed e)
    (e_through_pause e) (e_artifact_counter e).
Definition set_e_last_mic (x : option Z) (e : Engine) : Engine :=
  mkEngine (e_world e) (e_state e) (e_segment_secs e) (e_current e) (e_rx e) (e_generations e)
    (e_streams e) (e_reports e) (e_lifecycles e) (e_retry_at e) (e_pending_seals e)
    (e_write_stalled e) (e_storage_fault e) (e_storage_lifecycle e) (e_storage_retry_at e)
    (e_shared_health e) (e_health_tx e) (e_has_pause_store e) (e_sync e) (e_preview e) x
    (e_last_sys e) (e_last_screen e) (e_setup e) (e_auth e) (e_proof e) (e_sched e)
    (e_pending_rows e) (e_committed_lens e) (e_batch_written e) (e_activity_allowed e)
    (e_through_pause e) (e_artifact_counter e).
Definition set_e_last_sys (x : option Z) (e : Engine) : Engine :=
  mkEngine (e_world e) (e_state e) (e_segment_secs e) (e_current e) (e_rx e) (e_generations e)
    (e_streams e) (e_reports e) (e_lifecycles e) (e_retry_at e) (e_pending_seals e)
    (e_write_stalled e) (e_storage_fault e) (e_storage_lifecycle e) (e_storage_retry_at e)
    (e_shared_health e) (e_health_tx e) (e_has_pause_store e) (e_sync e) (e_preview e)
    (e_last_mic e) x (e_last_screen e) (e_setup e) (e_auth e) (e_proof e) (e_sched e)
    (e_pending_rows e) (e_committed_lens e) (e_batch_written e) (e_activity_allowed e)
    (e_through_pause e) (e_artifact_counter e).
Definition set_e_last_screen (x : option Z) (e : Engine) : Engine :=
  mkEngine (e_world e) (e_state e) (e_segment_secs e) (e_current e) (e_rx e) (e_generations e)
    (e_streams e) (e_reports e) (e_lifecycles e) (e_retry_at e) (e_pending_seals e)
    (e_write_stalled e) (e_storage_fault e) (e_storage_lifecycle e) (e_storage_retry_at e)
    (e_shared_health e) (e_health_tx e) (e_has_pause_store e) (e_sync e) (e_preview e)
    (e_last_mic e) (e_last_sys e) x (e_setup e) (e_auth e) (e_proof e) (e_sched e)
    (e_pending_rows e) (e_committed_lens e) (e_batch_written e) (e_activity_allowed e)
    (e_through_pause e) (e_artifact_counter e).
Definition set_e_setup (x : SetupSnapshot) (e : Engine) : Engine :=
  mkEngine (e_world e) (e_state e) (e_segment_secs e) (e_current e) (e_rx e) (e_generations e)
    (e_streams e) (e_reports e) (e_lifecycles e) (e_retry_at e) (e_pending_seals e)
    (e_write_stalled e) (e_storage_fault e) (e_storage_lifecycle e) (e_storage_retry_at e)
    (e_shared_health e) (e_health_tx e) (e_has_pause_store e) (e_sync e) (e_preview e)
    (e_last_mic e) (e_last_sys e) (e_last_screen e) x (e_auth e) (e_proof e) (e_sched e)
    (e_pending_rows e) (e_committed_lens e) (e_batch_written e) (e_activity_allowed e)
    (e_through_pause e) (e_artifact_counter e).
Definition set_e_auth (x : A) (e : Engine) : Engine :=
  mkEngine (e_world e) (e_state e) (e_segment_secs e) (e_current e) (e_rx e) (e_generations e)
    (e_streams e) (e_reports e) (e_lifecycles e) (e_retry_at e) (e_pending_seals e)
    (e_write_stalled e) (e_storage_fault e) (e_storage_lifecycle e) (e_storage_retry_at e)
    (e_shared_health e) (e_health_tx e) (e_has_pause_store e) (e_sync e) (e_preview e)
    (e_last_mic e) (e_last_sys e) (e_last_screen e) (e_setup e) x (e_proof e) (e_sched e)
    (e_pending_rows e) (e_committed_lens e) (e_batch_written e) (e_activity_allowed e)
    (e_through_pause e) (e_artifact_counter e).
Definition set_e_proof (x : ProofGate) (e : Engine) : Engine :=
  mkEngine (e_world e) (e_state e) (e_segment_secs e) (e_current e) (e_rx e) (e_generations e)
    (e_streams e) (e_reports e) (e_lifecycles e) (e_retry_at e) (e_pending_seals e)
    (e_write_stalled e) (e_storage_fault e) (e_storage_lifecycle e) (e_storage_retry_at e)
    (e_shared_health e) (e_health_tx e) (e_has_pause_store e) (e_sync e) (e_preview e)
    (e_last_mic e) (e_last_sys e) (e_last_screen e) (e_setup e) (e_auth e) x (e_sched e)
    (e_pending_rows e) (e_committed_lens e) (e_batch_written e) (e_activity_allowed e)
    (e_through_pause e) (e_artifact_counter e).
Definition set_e_sched (x : DesktopActivityScheduler) (e : Engine) : Engine :=
  mkEngine (e_world e) (e_state e) (e_segment_secs e) (e_current e) (e_rx e) (e_generations e)
    (e_streams e) (e_reports e) (e_lifecycles e) (e_retry_at e) (e_pending_seals e)
    (e_write_stalled e) (e_storage_fault e) (e_storage_lifecycle e) (e_storage_retry_at e)
    (e_shared_health e) (e_health_tx e) (e_has_pause_store e) (e_sync e) (e_preview e)
    (e_last_mic e) (e_last_sys e) (e_last_screen e) (e_setup e) (e_auth e) (e_proof e) x
    (e_pending_rows e) (e_committed_lens e) (e_batch_written e) (e_activity_allowed e)
    (e_through_pause e) (e_artifact_counter e).
Definition set_e_pending_rows (x : list PendingActivityRow) (e : Engine) : Engine :=
  mkEngine (e_world e) (e_state e) (e_segment_secs e) (e_current e) (e_rx e) (e_generations e)
    (e_streams e) (e_reports e) (e_lifecycles e) (e_retry_at e) (e_pending_seals e)
    (e_write_stalled e) (e_storage_fault e) (e_storage_lifecycle e) (e_storage_retry_at e)
    (e_shared_health e) (e_health_tx e) (e_has_pause_store e) (e_sync e) (e_preview e)
    (e_last_mic e) (e_last_sys e) (e_last_screen e) (e_setup e) (e_auth e) (e_proof e) (e_sched e)
    x (e_committed_lens e) (e_batch_written e) (e_activity_allowed e) (e_through_pause e)
    (e_artifact_counter e).
Definition set_e_committed_lens (x : gmap (SegmentKey * string) Z) (e : Engine) : Engine :=
  mkEngine (e_world e) (e_state e) (e_segment_secs e) (e_current e) (e_rx e) (e_generations e)
    (e_streams e) (e_reports e) (e_lifecycles e) (e_retry_at e) (e_pending_seals e)
    (e_write_stalled e) (e_storage_fault e) (e_storage_lifecycle e) (e_storage_retry_at e)
    (e_shared_health e) (e_health_tx e) (e_has_pause_store e) (e_sync e) (e_preview e)
    (e_last_mic e) (e_last_sys e) (e_last_screen e) (e_setup e) (e_auth e) (e_proof e) (e_sched e)
    (e_pending_rows e) x (e_batch_written e) (e_activity_allowed e) (e_through_pause e)
    (e_artifact_counter e).
Definition set_e_batch_written (x : bool) (e : Engine) : Engine :=
  mkEngine (e_world e) (e_state e) (e_segment_secs e) (e_current e) (e_rx e) (e_generations e)
    (e_streams e) (e_reports e) (e_lifecycles e) (e_retry_at e) (e_pending_seals e)
    (e_write_stalled e) (e_storage_fault e) (e_storage_lifecycle e) (e_storage_retry_at e)
    (e_shared_health e) (e_health_tx e) (e_has_pause_store e) (e_sync e) (e_preview e)
    (e_last_mic e) (e_last_sys e) (e_last_screen e) (e_setup e) (e_auth e) (e_proof e) (e_sched e)
    (e_pending_rows e) (e_committed_lens e) x (e_activity_allowed e) (e_through_pause e)
    (e_artifact_counter e).
Definition set_e_activity_allowed (x : bool) (e : Engine) : Engine :=
  mkEngine (e_world e) (e_state e) (e_segment_secs e) (e_current e) (e_rx e) (e_generations e)
    (e_streams e) (e_reports e) (e_lifecycles e) (e_retry_at e) (e_pending_seals e)
    (e_write_stalled e) (e_storage_fault e) (e_storage_lifecycle e) (e_storage_retry_at e)
    (e_shared_health e) (e_health_tx e) (e_has_pause_store e) (e_sync e) (e_preview e)
    (e_last_mic e) (e_last_sys e) (e_last_screen e) (e_setup e) (e_auth e) (e_proof e) (e_sched e)
    (e_pending_rows e) (e_committed_lens e) (e_batch_written e) x (e_through_pause e)
    (e_artifact_counter e).
Definition set_e_through_pause (x : bool) (e : Engine) : Engine :=
  mkEngine (e_world e) (e_state e) (e_segment_secs e) (e_current e) (e_rx e) (e_generations e)
    (e_streams e) (e_reports e) (e_lifecycles e) (e_retry_at e) (e_pending_seals e)
    (e_write_stalled e) (e_storage_fault e) (e_storage_lifecycle e) (e_storage_retry_at e)
    (e_shared_health e) (e_health_tx e) (e_has_pause_store e) (e_sync e) (e_preview e)
    (e_last_mic e) (e_last_sys e) (e_last_screen e) (e_setup e) (e_auth e) (e_proof e) (e_sched e)
    (e_pending_rows e) (e_committed_lens e) (e_batch_written e) (e_activity_allowed e) x
    (e_artifact_counter e).
Definition set_e_artifact_counter (x : Z) (e : Engine) : Engine :=
  mkEngine (e_world e) (e_state e) (e_segment_secs e) (e_current e) (e_rx e) (e_generations e)
    (e_streams e) (e_reports e) (e_lifecycles e) (e_retry_at e) (e_pending_seals e)
    (e_write_stalled e) (e_storage_fault e) (e_storage_lifecycle e) (e_storage_retry_at e)
    (e_shared_health e) (e_health_tx e) (e_has_pause_store e) (e_sync e) (e_preview e)
    (e_last_mic e) (e_last_sys e) (e_last_screen e) (e_setup e) (e_auth e) (e_proof e) (e_sched e)
    (e_pending_rows e) (e_committed_lens e) (e_batch_written e) (e_activity_allowed e)
    (e_through_pause e) x.

End engine_state.
Arguments Engine : clear implicits.
