(* ===== verification/Engine.v ===== *)
(** * The capture engine (crates/capture-engine/src/lib.rs)

    Every operation of [CaptureEngine] as a method of the state monad over
    [Engine W A], in the order of the source's statements. *)
From Stdlib Require Import Ascii String.
From S2P Require Import Prelude RustStr RustFloat Model Segment AppState Lifecycle Recovery Exclusion.
From S2P Require Import Civil PauseStore UrlNorm DesktopActivity Preview EngineState.

Local Open Scope string_scope.
Local Open Scope list_scope.

(** [format!("{:016x}", n)] of a [u64]. *)
Definition fmt_hex16 (n : Z) : string :=
  string_of_list_ascii
    ((λ i, hex_digit (Z.land (Z.shiftr n (4 * (15 - Z.of_nat i))) 15)) <$> seq 0 16).

(** [u64::rotate_left]. *)
Definition rotate_left_u64 (n : Z) (k : Z) : Z :=
  Z.lor (wrap_u64 (Z.shiftl n k)) (Z.shiftr n (64 - k)).

Definition storage_backoff_config : BackoffConfig :=
  mkBackoffConfig (initial default_backoff) (max default_backoff) (multiplier default_backoff) u32_max.

Definition mark_breaker_open (detail : string) : string :=
  if starts_with BREAKER_OPEN_MARKER detail then detail else BREAKER_OPEN_MARKER +:+ detail.

Definition is_faulted_state (s : option SourceState) : bool :=
  match s with Some (Faulted _ _) => true | _ => false end.

Definition is_active_state (s : SourceState) : bool :=
  match s with Active => true | _ => false end.

Section engine.
Context {W A : Type}
  `{SegmentFs W, DesktopActivitySource W, ActivityHost W, PauseStore W, CaptureWorld W, SetupAuth A}.

Notation eng := (M (Engine W A)).

Definition ask : eng (Engine W A) := gets (λ e, e).
Definition world {B} (m : M W B) : eng B :=
  λ e, ((m (e_world e)).1, set_e_world (m (e_world e)).2 e).
Definition scheduler {B} (m : M (SchedIO W) B) : eng B :=
  λ e, let r := m (mkSchedIO (e_sched e) (e_world e)) in
       (r.1, set_e_sched (sch r.2) (set_e_world (src r.2) e)).

Definition now_ms_from_us : eng Z := us ← world now_epoch_us; mret (us / 1000)%Z.

(** ** Reducer and health *)

Definition reduce_event (event : AppEvent) : eng unit :=
  modify (λ e, set_e_state (apply_event event (e_state e)) e).

Definition engine_phase (e : Engine W A) : AppPhase := phase (e_state e).
Definition is_paused (e : Engine W A) : bool := bool_decide (engine_phase e = Paused).
Definition enabled (e : Engine W A) (k : SourceKind) : bool := is_source_enabled (e_state e) k.

Definition health_dump : eng HealthDump :=
  now ← world now_epoch_secs;
  e ← ask;
  let observing := bool_decide (engine_phase e = Observing) in
  mret (mkHealthDump
    (engine_phase e)
    (pk_values (e_reports e))
    (if observing
     then (λ seg, as_u32 (screen_chunks seg / Z.max (sat_sub now (opened_epoch_secs seg)) 1)%Z) <$> e_current e
     else None)
    (seg_dir <$> e_current e)
    (if observing then Some (seconds_until_next_boundary now (e_segment_secs e)) else None)
    (engine_ready (e_state e))
    engine_version
    (e_sync e)
    (match e_current e with Some _ => Some (enc_health (e_world e)) | None => None end)
    (exclusion_health (e_world e))
    (mkStorageHealth <$> e_storage_fault e)
    (pause_snapshot (e_state e) now)
    ∅ false (mkListenerFaults None None)
    (e_setup e)).

Definition empty_health : HealthDump :=
  mkHealthDump Idle [] None None None false engine_version default_sync_snapshot None None None None
    ∅ false (mkListenerFaults None None) default_setup_snapshot.

(** The app-owned fields are carried forward from the shared payload. *)
Definition carry_app_fields (shared dump : HealthDump) : HealthDump :=
  mkHealthDump (app_state dump) (dump_sources dump) (frame_rate dump) (segment_dir dump)
    (segment_seconds_remaining dump) (dump_engine_ready dump) (version dump) (sync dump)
    (screen_encoder dump) (exclusions dump) (storage dump) (pause dump)
    (views shared) (pump_degraded shared) (listener_faults shared) (dump_setup dump).

Definition refresh_health : eng unit :=
  modify (λ e, set_e_setup (auth_projection (e_auth e)) e) ;;
  dump ← health_dump;
  modify (λ e, let dump := carry_app_fields (e_shared_health e) dump in
               set_e_health_tx dump (set_e_shared_health dump e)).

(** ** Previews *)

Definition clear_previews : eng unit :=
  modify (λ e, set_e_preview (mkPreviewSnapshot (gate_generation (e_proof e)) None None None) e) ;;
  modify (set_e_last_mic None) ;; modify (set_e_last_sys None) ;; modify (set_e_last_screen None).

Definition clear_source_preview (kind : SourceKind) : eng unit :=
  modify (λ e,
    let p := e_preview e in
    let g := gate_generation (e_proof e) in
    match kind with
    | Mic => set_e_last_mic None
        (set_e_preview (mkPreviewSnapshot g None (system_audio_level p) (screen_frame p)) e)
    | SystemAudio => set_e_last_sys None
        (set_e_preview (mkPreviewSnapshot g (mic_level p) None (screen_frame p)) e)
    | Screen => set_e_last_screen None
        (set_e_preview (mkPreviewSnapshot g (mic_level p) (system_audio_level p) None) e)
    | DesktopActivity =>
        set_e_preview (mkPreviewSnapshot g (mic_level p) (system_audio_level p) (screen_frame p)) e
    end).

Definition chunk_level (chunk : CaptureChunk) : f32 :=
  match chunk_format chunk with
  | Some fmt => compute_audio_level (chunk_data chunk) fmt
  | None => f32_of_Z 0
  end.

Definition within_100ms (last : option Z) (ts_us : Z) : bool :=
  match last with Some last => (sat_sub ts_us last <? 100000)%Z | None => false end.

Definition update_audio_preview (kind : SourceKind) (chunk : CaptureChunk) (admitted_proof : Z) : eng unit :=
  e ← ask;
  let gen := gate_generation (e_proof e) in
  if negb (bool_decide (gate_source (e_proof e) = Some kind)) || negb (gen =? admitted_proof)%Z
  then mret tt
  else
    ts_us ← match chunk_at_us chunk with Some t => mret t | None => world now_monotonic_us end;
    match kind with
    | Mic =>
      if within_100ms (e_last_mic e) ts_us then mret tt
      else modify (set_e_last_mic (Some ts_us)) ;;
           modify (λ e, let p := e_preview e in
             set_e_preview (mkPreviewSnapshot gen (Some (chunk_level chunk)) (system_audio_level p)
                              (screen_frame p)) e)
    | SystemAudio =>
      if within_100ms (e_last_sys e) ts_us then mret tt
      else modify (set_e_last_sys (Some ts_us)) ;;
           modify (λ e, let p := e_preview e in
             set_e_preview (mkPreviewSnapshot gen (mic_level p) (Some (chunk_level chunk))
                              (screen_frame p)) e)
    | Screen | DesktopActivity => mret tt
    end.

Definition update_screen_preview (frame : ScreenFrame) (admitted_proof : Z) : eng unit :=
  e ← ask;
  let gen := gate_generation (e_proof e) in
  if negb (bool_decide (gate_source (e_proof e) = Some Screen)) || negb (gen =? admitted_proof)%Z
  then mret tt
  else if match e_last_screen e with
          | Some last => (clampZ i64_min i64_max (arrival_100ns frame - last) <? 2500000)%Z
          | None => false
          end then mret tt
  else
    modify (set_e_last_screen (Some (arrival_100ns frame))) ;;
    modify (λ e, let p := e_preview e in
      set_e_preview (mkPreviewSnapshot gen (mic_level p) (system_audio_level p)
                       (Some (downscale_screen_frame frame))) e).

(** ** Phase-dependent questions *)

Definition should_be_capturing (e : Engine W A) : bool :=
  match engine_phase e with Idle | Paused => false | _ => true end.

Definition activity_runs_through_pause (e : Engine W A) : bool :=
  e_through_pause e && enabled e DesktopActivity.

Definition source_may_start (e : Engine W A) (kind : SourceKind) : bool :=
  run_requested (e_state e)
  && (negb (is_paused e) || (bool_decide (kind = DesktopActivity) && e_through_pause e)).

Definition segment_wanted (e : Engine W A) : bool :=
  (should_be_capturing e && any_source_enabled (e_state e))
  || (run_requested (e_state e) && activity_runs_through_pause e).

Definition desktop_activity_may_run (e : Engine W A) : bool :=
  if negb (enabled e DesktopActivity) then false
  else if is_paused e then run_requested (e_state e) && e_through_pause e
  else should_be_capturing e.

Definition is_none {B} (o : option B) : bool := match o with None => true | Some _ => false end.

Definition storage_healthy (e : Engine W A) : bool :=
  list_is_empty (e_pending_seals e) && negb (e_write_stalled e)
  && list_is_empty (e_pending_rows e)
  && negb (should_be_capturing e && is_none (e_current e)).

(** ** Storage faults *)

Definition note_storage_fault (detail : string) : eng unit :=
  modify (set_e_storage_fault (Some detail)) ;; reduce_event (StorageFaultChanged true).

Definition clear_storage_fault : eng unit :=
  modify (set_e_storage_fault None) ;; modify (set_e_storage_retry_at None) ;;
  modify (λ e, set_e_storage_lifecycle (on_success (e_storage_lifecycle e)) e) ;;
  reduce_event (StorageFaultChanged false).

Definition attempt_clear_storage : eng unit :=
  e ← ask;
  when (negb (is_none (e_storage_fault e)) && storage_healthy e) clear_storage_fault.

(** ** Faults, retries, reports *)

Definition mark_source_success (kind : SourceKind) : eng unit :=
  modify (λ e, set_e_retry_at (pk_set kind None (e_retry_at e)) e) ;;
  modify (λ e, set_e_lifecycles (pk_set kind (on_success (pk_get (e_lifecycles e) kind)) (e_lifecycles e)) e).

Definition handle_fault_transition (kind : SourceKind) (previous : option SourceState)
    (current : SourceState) (force_failure : bool) : eng SourceState :=
  match current with
  | Faulted reason detail =>
    if decide (reason = AccessDenied) then mret current
    else if force_failure || negb (is_faulted_state previous) then
      e ← ask;
      let '(decision, lc) := on_failure (pk_get (e_lifecycles e) kind) in
      modify (λ e, set_e_lifecycles (pk_set kind lc (e_lifecycles e)) e) ;;
      match decision with
      | RetryAfter delay =>
        now ← world now_epoch_secs;
        modify (λ e, set_e_retry_at (pk_set kind (Some (sat_add_u64 now (as_secs delay))) (e_retry_at e)) e) ;;
        mret current
      | GiveUp =>
        modify (λ e, set_e_retry_at (pk_set kind None (e_retry_at e)) e) ;;
        mret (Faulted reason (mark_breaker_open detail))
      end
    else
      e ← ask;
      if decide (breaker (pk_get (e_lifecycles e) kind) = Open)
      then mret (Faulted reason (mark_breaker_open detail))
      else mret current
  | _ => mret current
  end.

Definition record_report (report : SourceReport) : eng unit :=
  modify (λ e, set_e_reports (pk_set (report_kind report) (Some report) (e_reports e)) e) ;;
  reduce_event (SourceUpdated report).

Definition previous_state (e : Engine W A) (kind : SourceKind) : option SourceState :=
  report_state <$> pk_get (e_reports e) kind.

Definition apply_source_report (report : SourceReport) : eng unit :=
  when (negb (is_active_state (report_state report))) (clear_source_preview (report_kind report)) ;;
  e ← ask;
  let previous := previous_state e (report_kind report) in
  state ← handle_fault_transition (report_kind report) previous (report_state report) false;
  when (is_faulted_state previous && negb (is_faulted_state (Some state)))
    (mark_source_success (report_kind report)) ;;
  record_report (mkSourceReport (report_kind report) state (report_device report)).

Definition apply_encoder_error (error : EncoderError) : eng unit :=
  clear_source_preview Screen ;;
  apply_source_report (mkSourceReport Screen (Faulted WriteFailed (encoder_error_detail error)) None).

Definition apply_source_error (kind : SourceKind) (error : SourceError) : eng unit :=
  clear_source_preview kind ;;
  e ← ask;
  state ← handle_fault_transition kind (previous_state e kind)
            (Faulted (source_error_reason error) (source_error_detail error)) true;
  record_report (mkSourceReport kind state None).

Definition source_state (kind : SourceKind) : eng SourceState :=
  match kind with
  | DesktopActivity =>
    available ← scheduler is_exclusion_available;
    if negb available then mret (Faulted Unknown EmptyString)
    else gets (λ e, das_state (e_world e))
  | _ => gets (λ e, src_state kind (e_world e))
  end.

Definition fold_source_states : eng unit :=
  screen_state ← gets (λ e, match enc_last_error (e_world e) with
                            | Some detail => Faulted WriteFailed detail
                            | None => src_state Screen (e_world e)
                            end);
  sys_state ← source_state SystemAudio;
  mic_state ← source_state Mic;
  activity_state ← source_state DesktopActivity;
  for_each [mkSourceReport Screen screen_state None; mkSourceReport SystemAudio sys_state None;
            mkSourceReport Mic mic_state None; mkSourceReport DesktopActivity activity_state None]
    apply_source_report.

(** ** Desktop activity rows *)

Definition generate_artifact_id : eng string :=
  e ← ask;
  modify (λ e, set_e_artifact_counter (wrap_u64 (e_artifact_counter e + 1)) e) ;;
  nanos ← world system_nanos;
  mret (fmt_hex16 (Z.lxor (Z.lxor (wrap_u64 nanos) (rotate_left_u64 process_id 16)) (e_artifact_counter e))).

Definition renew_artifact_id : eng unit :=
  id ← generate_artifact_id;
  modify (λ e, set_e_sched (set_artifact_id id (e_sched e)) e) ;;
  modify (set_e_batch_written false).

Definition row_file_name (e : Engine W A) (key : SegmentKey) : string :=
  activity_file_name (boundary_epoch_secs key) 0 (artifact_id (e_sched e)) (e_segment_secs e).

(** [for _ in 0..100]: renew until the name is free or the tries run out. *)
Fixpoint unique_id_tries (n : nat) (dir : string) (key : SegmentKey) : eng unit :=
  match n with
  | O => mret tt
  | S n =>
    e ← ask;
    let file_name := row_file_name e key in
    if file_in_segment dir file_name (e_world e) || file_in_sealed dir (index key) file_name (e_world e)
    then renew_artifact_id ;; unique_id_tries n dir key
    else mret tt
  end.

Definition ensure_unique_artifact_id (key : SegmentKey) : eng unit :=
  e ← ask;
  match e_current e with
  | Some seg => unique_id_tries 100 (seg_dir seg) key
  | None => mret tt
  end.

(** The queue's front is written until one write fails: [Some] its error. *)
Fixpoint flush_rows (rows : list PendingActivityRow) : eng (option fs_error) :=
  match rows with
  | [] => mret None
  | row :: rest =>
    r ← world (append_activity (pend_key row) (pend_file_name row) (pend_line row) (pend_committed_len row));
    match r with
    | Ok _ => modify (set_e_pending_rows rest) ;; flush_rows rest
    | Err error => mret (Some error)
    end
  end.

Definition flush_activity_queue : eng unit :=
  e ← ask;
  match e_pending_rows e with
  | [] => mret tt
  | rows =>
    r ← flush_rows rows;
    match r with
    | Some error => note_storage_fault (fs_debug error)
    | None => attempt_clear_storage
    end
  end.

Definition append_activity_row (row : DesktopActivityRow) : eng unit :=
  match to_jsonl_line row with
  | None => mret tt
  | Some line =>
    e ← ask;
    let key := segment_for (row_ts row / 1000)%Z (e_segment_secs e) in
    when (negb (e_batch_written e))
      (ensure_unique_artifact_id key ;; modify (set_e_batch_written true)) ;;
    e ← ask;
    let file_name := row_file_name e key in
    let committed_len := default 0%Z (e_committed_lens e !! (key, file_name)) in
    modify (set_e_committed_lens
      (<[(key, file_name) := wrap_u64 (committed_len + Z.of_nat (String.length line))]> (e_committed_lens e))) ;;
    modify (λ e, set_e_pending_rows (e_pending_rows e ++ [mkPendingActivityRow key file_name line committed_len]) e) ;;
    flush_activity_queue
  end.

Definition append_rows (rs : list DesktopActivityRow) : eng unit := for_each rs append_activity_row.

(** ** Segments *)

Definition attach_segment (key : SegmentKey) (dir : string) : eng unit :=
  opened ← world now_epoch_secs;
  monotonic ← world now_monotonic_us;
  us ← world now_epoch_us;
  modify (set_e_current (Some (mkOpenSegment key dir opened monotonic
    (sat_sub us (sat_mul_u64 (boundary_epoch_secs key) 1000000)) 0 false))) ;;
  flush_activity_queue.

Definition open_segment_key (key : SegmentKey) : eng unit :=
  e ← ask;
  match e_current e with
  | Some _ => mret tt
  | None =>
    r ← world (open_incomplete key);
    match r with
    | Ok dir => attach_segment key dir ;; attempt_clear_storage
    | Err error => note_storage_fault (fs_debug error)
    end
  end.

Definition open_current_segment : eng unit :=
  now ← world now_epoch_secs;
  e ← ask;
  open_segment_key (segment_for now (e_segment_secs e)).

Definition adopt_current_segment : eng unit :=
  e ← ask;
  match e_current e with
  | Some _ => mret tt
  | None =>
    now ← world now_epoch_secs;
    let key := segment_for now (e_segment_secs e) in
    r ← world (existing_incomplete key);
    match r with
    | Ok (Some dir) => attach_segment key dir
    | Ok None => mret tt
    | Err error => note_storage_fault (fs_debug error)
    end
  end.

Definition finalize_screen_encoder : eng bool :=
  r ← world enc_finalize;
  match r with
  | Ok _ => mret true
  | Err error => apply_encoder_error error ;; mret false
  end.

Definition video_end_for_finalized_segment (e : Engine W A) (seg : OpenSegment) : option f64 :=
  if screen_encoder_open seg then enc_video_end_secs (e_world e) else None.

Definition rows_wait_for (e : Engine W A) (key : SegmentKey) : bool :=
  existsb (λ row, bool_decide (pend_key row = key)) (e_pending_rows e).

Definition seal_segment (seg : OpenSegment) : eng unit :=
  finalized ← finalize_screen_encoder;
  if negb finalized then mret tt
  else
    e ← ask;
    let video_end := video_end_for_finalized_segment e seg in
    if rows_wait_for e (seg_key seg) then
      modify (λ e, set_e_pending_seals (seal_insert (seg_key seg) video_end (e_pending_seals e)) e) ;;
      note_storage_fault "activity rows await durable write before sealing" ;;
      renew_artifact_id
    else
      r ← world (fs_finalize (seg_key seg) video_end);
      match r with
      | Err error =>
        modify (λ e, set_e_pending_seals (seal_insert (seg_key seg) video_end (e_pending_seals e)) e) ;;
        note_storage_fault (fs_debug error)
      | Ok _ =>
        modify (λ e, set_e_pending_seals (seal_remove (seg_key seg) (e_pending_seals e)) e) ;;
        renew_artifact_id ;; attempt_clear_storage
      end.

(** The loop of [rotate_segments]; [true] when it left the loop, [false]
    when the fuel ran out. *)
Fixpoint rotate_loop (fuel : nat) (closing : bool) (now : Z) : eng bool :=
  match fuel with
  | O => mret false
  | S fuel =>
    e ← ask;
    match e_current e with
    | None => mret true
    | Some current =>
      if negb (should_rotate (seg_key current) now (e_segment_secs e)) then mret true
      else if (now <? boundary_epoch_secs (seg_key current))%Z then
        rs ← scheduler (close_all (sat_mul_u64 now 1000));
        append_rows rs ;; world das_stop ;;
        modify (set_e_current None) ;; seal_segment current ;;
        e ← ask;
        when (closing || segment_wanted e) (open_segment_key (segment_for now (e_segment_secs e))) ;;
        mret true
      else
        let next_boundary_secs := wrap_u64 (boundary_epoch_secs (seg_key current) + e_segment_secs e) in
        rs ← scheduler (on_boundary (wrap_u64 (next_boundary_secs * 1000)));
        append_rows rs ;;
        modify (set_e_current None) ;; seal_segment current ;;
        e ← ask;
        if closing || segment_wanted e then
          open_segment_key (segment_for next_boundary_secs (e_segment_secs e)) ;;
          rotate_loop fuel closing now
        else mret true
    end
  end.

(** Enough iterations for every boundary between the open segment and now. *)
Definition rotate_fuel (e : Engine W A) (now : Z) : nat :=
  match e_current e with
  | None => 1
  | Some seg => S (S (Z.to_nat ((now - boundary_epoch_secs (seg_key seg)) / Z.max (e_segment_secs e) 1)))
  end.

Definition rotate_segments (closing : bool) : eng unit :=
  now ← world now_epoch_secs;
  e ← ask;
  _ ← rotate_loop (rotate_fuel e now) closing now;
  mret tt.

Definition rotate_if_needed : eng unit := rotate_segments false.

Definition ensure_segment_for_now : eng unit :=
  rotate_if_needed ;;
  e ← ask;
  when (is_none (e_current e)) open_current_segment.

(** ** Incoming media *)

Definition write_audio_chunk (chunk : CaptureChunk) : eng unit :=
  e ← ask;
  match e_current e with
  | None => mret tt
  | Some seg =>
    let at_us := (λ t, sat_add_u64 (boundary_offset_us seg) (sat_sub t (opened_monotonic_us seg)))
                 <$> chunk_at_us chunk in
    r ← world (write_chunk (seg_key seg)
          (mkCaptureChunk (chunk_source chunk) (chunk_seq chunk) (chunk_data chunk) (chunk_format chunk) at_us));
    match r with
    | Ok _ => when (e_write_stalled e) (modify (set_e_write_stalled false) ;; attempt_clear_storage)
    | Err error => modify (set_e_write_stalled true) ;; note_storage_fault (fs_debug error)
    end
  end.

Definition count_screen_chunk (seg : OpenSegment) : OpenSegment :=
  mkOpenSegment (seg_key seg) (seg_dir seg) (opened_epoch_secs seg) (opened_monotonic_us seg)
    (boundary_offset_us seg) (sat_add_u64 (screen_chunks seg) 1) (screen_encoder_open seg).

Definition mark_encoder_open (seg : OpenSegment) : OpenSegment :=
  mkOpenSegment (seg_key seg) (seg_dir seg) (opened_epoch_secs seg) (opened_monotonic_us seg)
    (boundary_offset_us seg) (screen_chunks seg) true.

Definition encode_or_fault (frame : ScreenFrame) : eng unit :=
  r ← world (enc_encode_frame frame);
  match r with Ok _ => mret tt | Err error => apply_encoder_error error end.

Definition encode_screen_frame (frame : ScreenFrame) : eng unit :=
  e ← ask;
  match e_current e with
  | None => mret tt
  | Some seg =>
    modify (set_e_current (Some (count_screen_chunk seg))) ;;
    if screen_encoder_open seg then encode_or_fault frame
    else
      r ← world (enc_open (seg_dir seg) (frame_width frame) (frame_height frame));
      match r with
      | Err error => apply_encoder_error error
      | Ok _ => modify (λ e, set_e_current (mark_encoder_open <$> e_current e) e) ;; encode_or_fault frame
      end
  end.

(** A capture event is admitted when its source and stream generations are
    current and its source is enabled. *)
Definition admitted (e : Engine W A) (kind : SourceKind) (a : InputAdmission) : bool :=
  (source_generation a =? pk_get (e_generations e) kind)%Z
  && (stream_generation a =? pk_get (e_streams e) kind)%Z
  && enabled e kind.

Definition handle_event (event : CaptureEvent) : eng unit :=
  e ← ask;
  match event with
  | EvAudio kind admission chunk =>
    if negb (admitted e kind admission) then mret tt
    else
      st ← source_state kind;
      if negb (is_active_state st) then clear_source_preview kind
      else update_audio_preview kind chunk (proof_generation admission) ;; write_audio_chunk chunk
  | EvScreen admission frame =>
    if negb (admitted e Screen admission) then mret tt
    else
      st ← source_state Screen;
      if negb (is_active_state st) then clear_source_preview Screen
      else update_screen_preview frame (proof_generation admission) ;; encode_screen_frame frame
  end.

Definition drain_events : eng unit :=
  events ← gets e_rx;
  modify (set_e_rx []) ;;
  for_each events handle_event.

(** [SourceSink::emit] and friends: what a source's thread does to the queue. *)
Definition sink_admission (e : Engine W A) (kind : SourceKind) (generation : Z) : InputAdmission :=
  mkInputAdmission generation (pk_get (e_streams e) kind) (gate_generation (e_proof e)).
Definition sink_begin_stream (kind : SourceKind) : eng unit :=
  modify (λ e, set_e_streams (pk_set kind (wrap_u64 (pk_get (e_streams e) kind + 1)) (e_streams e)) e).
Definition sink_emit (kind : SourceKind) (generation : Z) (chunk : CaptureChunk) : eng unit :=
  modify (λ e, set_e_rx (e_rx e ++ [EvAudio kind (sink_admission e kind generation) chunk]) e).
Definition sink_emit_screen_frame (generation : Z) (frame : ScreenFrame) : eng unit :=
  modify (λ e, set_e_rx (e_rx e ++ [EvScreen (sink_admission e Screen generation) frame]) e).

(** ** Starting and stopping sources *)

Definition increment_generation (kind : SourceKind) : eng unit :=
  modify (λ e, set_e_generations
    (pk_set kind (wrap_u64 (pk_get (e_generations e) kind + 1)) (e_generations e)) e).

Definition start_source (kind : SourceKind) : eng unit :=
  e ← ask;
  if negb (enabled e kind) then mret tt
  else
    increment_generation kind ;;
    e ← ask;
    result ← world (match kind with
                    | DesktopActivity => das_start
                    | _ => src_start kind (pk_get (e_generations e) kind)
                    end);
    match result with
    | Ok _ => mark_source_success kind
    | Err error => apply_source_error kind error
    end.

Definition stop_source (kind : SourceKind) : eng unit :=
  increment_generation kind ;;
  match kind with
  | DesktopActivity =>
    ensure_segment_for_now ;;
    now_ms ← now_ms_from_us;
    rs ← scheduler (close_all now_ms);
    append_rows rs ;; world das_stop
  | _ => world (src_stop kind)
  end.

Definition retry_due_sources : eng unit :=
  e ← ask;
  if is_paused e then mret tt
  else
    now ← world now_epoch_secs;
    e ← ask;
    let due := List.filter
                 (λ k, match pk_get (e_retry_at e) k with Some t => (t <=? now)%Z | None => false end)
                 source_kinds in
    for_each due (λ kind,
      modify (λ e, set_e_retry_at (pk_set kind None (e_retry_at e)) e) ;;
      e ← ask;
      when (enabled e kind) (stop_source kind ;; start_source kind)).

(** ** Storage service *)

Definition retry_seal (seal : SegmentKey * option f64) : eng unit :=
  let '(key, video_end) := seal in
  e ← ask;
  if match e_current e with Some seg => bool_decide (seg_key seg = key) | None => false end
     || rows_wait_for e key then mret tt
  else
    r ← world (fs_finalize key video_end);
    match r with
    | Ok _ => modify (λ e, set_e_pending_seals (seal_remove key (e_pending_seals e)) e) ;; renew_artifact_id
    | Err error => note_storage_fault (fs_debug error)
    end.

Definition service_storage : eng unit :=
  e ← ask;
  if is_none (e_storage_fault e) then mret tt
  else
    now ← world now_epoch_secs;
    let retry_due := match e_storage_retry_at e with None => true | Some t => (t <=? now)%Z end in
    when retry_due
      (flush_activity_queue ;;
       pending ← gets e_pending_seals;
       for_each pending retry_seal ;;
       e ← ask;
       when (should_be_capturing e && any_source_enabled (e_state e) && is_none (e_current e))
         open_current_segment) ;;
    e ← ask;
    if storage_healthy e then clear_storage_fault
    else when retry_due
      (let '(decision, lc) := on_failure (e_storage_lifecycle e) in
       let delay_secs := match decision with
                         | RetryAfter delay => as_secs delay
                         | GiveUp => as_secs (max storage_backoff_config)
                         end in
       modify (set_e_storage_lifecycle lc) ;;
       modify (set_e_storage_retry_at (Some (sat_add_u64 now delay_secs)))).

(** ** Source switches *)

Definition apply_source_enabled (kind : SourceKind) (on : bool) : eng unit :=
  if negb on then
    increment_generation kind ;; stop_source kind ;;
    modify (λ e, set_e_retry_at (pk_set kind None (e_retry_at e)) e) ;;
    clear_source_preview kind ;;
    reduce_event (SourceEnabled kind false) ;;
    apply_source_report (mkSourceReport kind Inactive None)
  else
    reduce_event (SourceEnabled kind true) ;;
    e ← ask;
    when (source_may_start e kind) (ensure_segment_for_now ;; start_source kind).

Definition follow_desktop_activity : eng unit :=
  e ← ask;
  let wanted := desktop_activity_runs (e_activity_allowed e) (enabled e Screen) (e_through_pause e) in
  if negb (Bool.eqb wanted (enabled e DesktopActivity)) then apply_source_enabled DesktopActivity wanted
  else if negb wanted || negb (run_requested (e_state e)) || negb (is_paused e) then mret tt
  else
    let active := is_active_state (das_state (e_world e)) in
    if e_through_pause e && negb active then ensure_segment_for_now ;; start_source DesktopActivity
    else when (negb (e_through_pause e) && active) (stop_source DesktopActivity).

Definition set_source_enabled (kind : SourceKind) (on : bool) : eng unit :=
  modify (λ e, set_e_auth (auth_note_running kind on (e_auth e)) e) ;;
  match kind with
  | DesktopActivity => modify (set_e_activity_allowed on) ;; follow_desktop_activity
  | Screen => apply_source_enabled kind on ;; follow_desktop_activity
  | SystemAudio | Mic => apply_source_enabled kind on
  end ;;
  fold_source_states ;; refresh_health.

Definition set_desktop_activity_through_pause (on : bool) : eng unit :=
  modify (set_e_through_pause on) ;;
  follow_desktop_activity ;; fold_source_states ;; refresh_health.

Definition set_source_choices (setup : SetupSnapshot) : eng unit :=
  modify (λ e, set_e_auth (auth_seed setup (e_auth e)) e) ;;
  reduce_event (SourceEnabled Screen (setup_screen setup)) ;;
  reduce_event (SourceEnabled SystemAudio (setup_system_audio setup)) ;;
  reduce_event (SourceEnabled Mic (setup_mic setup)) ;;
  modify (set_e_activity_allowed (setup_desktop_activity_allowed setup)) ;;
  modify (set_e_through_pause (setup_desktop_activity_through_pause setup)) ;;
  reduce_event (SourceEnabled DesktopActivity (setup_desktop_activity setup)) ;;
  now ← world now_epoch_secs;
  rs ← scheduler (set_preferences (setup_desktop_activity_window_titles setup)
                    (setup_desktop_activity_page_addresses setup) (wrap_u64 (now * 1000)));
  append_rows rs ;; refresh_health.

Definition engine_set_exclusion_rules (rules : ExclusionRules) : eng unit :=
  now_ms ← now_ms_from_us;
  rs ← scheduler (set_exclusion_rules rules now_ms);
  append_rows rs.

(** ** Pauses *)

Definition pause_capture : eng unit :=
  world (src_stop Screen) ;; world (src_stop SystemAudio) ;; world (src_stop Mic) ;;
  rotate_segments true ;;
  e ← ask;
  when (negb (activity_runs_through_pause e))
    (now_ms ← now_ms_from_us;
     rs ← scheduler (close_all now_ms);
     append_rows rs ;; world das_stop) ;;
  drain_events ;;
  modify (set_e_write_stalled false) ;;
  attempt_clear_storage ;; clear_previews ;; fold_source_states.

Definition resume_capture : eng unit :=
  e ← ask;
  if negb (any_source_enabled (e_state e)) then fold_source_states
  else
    ensure_segment_for_now ;;
    for_each source_kinds (λ kind,
      e ← ask;
      if bool_decide (kind = DesktopActivity) && is_active_state (das_state (e_world e)) then mret tt
      else when (enabled e kind) (start_source kind)) ;;
    fold_source_states.

Definition record_owner_pause (owner : option OwnerPause) : eng unit :=
  e ← ask;
  when (e_has_pause_store e)
    (_ ← world (match owner with
                | Some (mkOwnerPause (Some deadline)) => pause_save (Until deadline)
                | Some (mkOwnerPause None) => pause_save UntilResumed
                | None => pause_clear
                end);
     mret tt).

Definition settle_pause (was_paused restart : bool) (owner_before : option OwnerPause) : eng unit :=
  e ← ask;
  let paused := is_paused e in
  (if paused && negb was_paused then pause_capture
   else when (negb paused && (was_paused || restart)) resume_capture) ;;
  e ← ask;
  let owner := owner_pause (e_state e) in
  when (negb (bool_decide (owner = owner_before))) (record_owner_pause owner).

Definition auto_resume_if_due : eng unit :=
  now ← world now_epoch_secs;
  e ← ask;
  when (pause_due_to_expire (e_state e) now)
    (reduce_event OwnerPauseExpired ;; settle_pause true false (owner_pause (e_state e))).

Definition hold_owner_pause_in : eng unit :=
  now ← world now_epoch_secs;
  held ← gets (λ e, pause_load (e_world e));
  expires ← match held with
            | None => mret None
            | Some UntilResumed => mret (Some None)
            | Some (Until deadline) =>
              if (now <? deadline)%Z then mret (Some (Some deadline))
              else _ ← world pause_clear; mret None
            end;
  match expires with
  | Some expires_at => reduce_event (RequestedPause Operator expires_at)
  | None => mret tt
  end ;;
  modify (set_e_has_pause_store true) ;;
  refresh_health.

(** ** Commands and ticks *)

Definition on_display_changed : eng unit :=
  e ← ask;
  when (enabled e Screen) (clear_source_preview Screen ;; world screen_display_changed).

(** The commands that end in [settle_pause]. *)
Definition pause_command (command : EngineCommand) (was_paused : bool) : eng unit :=
  match command with
  | CmdPause reason duration_secs =>
    now ← world now_epoch_secs;
    reduce_event (RequestedPause reason ((λ d, sat_add_u64 now d) <$> duration_secs))
  | CmdResume => reduce_event RequestedResume
  | CmdSystemResume => reduce_event SystemResumed
  | CmdTogglePause =>
    if was_paused then reduce_event RequestedResume else reduce_event (RequestedPause Operator None)
  | CmdDisplayChanged => on_display_changed
  | _ => mret tt
  end.

Definition apply_command (command : EngineCommand) : eng unit :=
  rotate_if_needed ;;
  e ← ask;
  let was_paused := is_paused e in
  let owner_before := owner_pause (e_state e) in
  let restart := match command with CmdResume | CmdSystemResume => true | _ => false end in
  match command with
  | CmdSetSourceEnabled kind on => set_source_enabled kind on
  | CmdSetDesktopActivityPreferences titles addresses =>
    now_ms ← now_ms_from_us;
    rs ← scheduler (set_preferences titles addresses now_ms);
    append_rows rs ;; refresh_health
  | CmdSetDesktopActivityThroughPause on => set_desktop_activity_through_pause on
  | CmdClearPreviews => clear_previews
  | _ =>
    pause_command command was_paused ;;
    settle_pause was_paused restart owner_before ;; refresh_health
  end.

Definition pump_desktop_activity : eng unit :=
  e ← ask;
  if negb (desktop_activity_may_run e) then mret tt
  else
    when (negb (is_active_state (das_state (e_world e)))) (_ ← world das_start; mret tt) ;;
    now_ms ← now_ms_from_us;
    e ← ask;
    if negb (is_active_state (das_state (e_world e))) then
      rs ← scheduler (source_unavailable now_ms); append_rows rs
    else
      rs ← scheduler (poll_and_step now_ms); append_rows rs.

(** The one-second tick of [run], and [pump], which first drains the queue. *)
Definition tick : eng unit :=
  auto_resume_if_due ;; rotate_if_needed ;; service_storage ;; retry_due_sources ;;
  pump_desktop_activity ;; fold_source_states ;; refresh_health.

Definition pump : eng unit := drain_events ;; tick.

Definition start : eng unit :=
  reduce_event RequestedStart ;;
  adopt_current_segment ;;
  e ← ask;
  if is_paused e then
    when (activity_runs_through_pause e) (ensure_segment_for_now ;; start_source DesktopActivity) ;;
    fold_source_states ;; refresh_health
  else
    when (any_source_enabled (e_state e))
      (ensure_segment_for_now ;;
       for_each source_kinds (λ kind, e ← ask; when (enabled e kind) (start_source kind))) ;;
    fold_source_states ;; refresh_health.

Definition stop : eng unit :=
  rotate_segments true ;;
  world (src_stop Screen) ;; world (src_stop SystemAudio) ;; world (src_stop Mic) ;;
  now_ms ← now_ms_from_us;
  rs ← scheduler (close_all now_ms);
  append_rows rs ;; world das_stop ;;
  drain_events ;; flush_activity_queue ;;
  current ← gets e_current;
  match current with
  | Some seg => modify (set_e_current None) ;; seal_segment seg
  | None => mret tt
  end ;;
  clear_previews ;; fold_source_states ;; refresh_health.

(** ** Preview consumers *)

Definition open_proof_consumer (kind : SourceKind) : eng Z :=
  modify (λ e, set_e_proof (gate_open kind (e_proof e)) e) ;;
  clear_previews ;;
  gets (λ e, gate_generation (e_proof e)).

Definition close_proof_consumer : eng Z :=
  modify (λ e, set_e_proof (gate_close (e_proof e)) e) ;;
  clear_previews ;;
  gets (λ e, gate_generation (e_proof e)).

(** ** Construction *)

Definition deferred_keys (outcomes : list RecoveryOutcome) : list SegmentKey :=
  omap (λ o, match o with Deferred key => Some key | _ => None end) outcomes.

Definition initial_engine (config : EngineConfig) (w : W) (nanos : Z) : Engine W A :=
  mkEngine w (apply_event EngineReady new_state) (cfg_segment_secs config) None [] (pk_all 0%Z) (pk_all 0%Z)
    (pk_all None) (pk_all (new_lifecycle (cfg_lifecycle config))) (pk_all None) [] false None
    (new_lifecycle storage_backoff_config) None empty_health empty_health false default_sync_snapshot
    default_preview None None None default_setup_snapshot auth_new new_gate
    (new_scheduler false false default_rules (fmt_hex16 (Z.lxor (wrap_u64 nanos) process_id)))
    [] ∅ false DESKTOP_ACTIVITY_DEFAULT DESKTOP_ACTIVITY_THROUGH_PAUSE_DEFAULT 1.

(** [CaptureEngine::new] after recovery reported [outcomes]. *)
Definition new_engine (config : EngineConfig) (outcomes : list RecoveryOutcome) (w : W) : Engine W A :=
  let '(nanos, w) := system_nanos w in
  let e := initial_engine config w nanos in
  let m :=
    for_each (deferred_keys outcomes)
      (λ key, modify (λ e, set_e_pending_seals (seal_insert key None (e_pending_seals e)) e)) ;;
    e ← ask;
    when (negb (list_is_empty (e_pending_seals e))) (note_storage_fault "recovered segment awaits sealing") ;;
    refresh_health in
  (m e).2.

(** [CaptureEngine::new]: recovery runs first, and its failure ends it. *)
Definition engine_new {R} `{RecoveryFs R} (config : EngineConfig) (rfs : R) (w : W)
    : result (Engine W A * list RecoveryOutcome) rfs_error * R :=
  let '(r, rfs) := recover_all rfs in
  match r with
  | Err e => (Err e, rfs)
  | Ok outcomes => (Ok (new_engine config outcomes w, outcomes), rfs)
  end.
End engine.
