(* ===== verification/EngineInv.v ===== *)
(** * The engine's standing invariant

    Storage faults, source reports and restart breakers agree with the reducer
    after every operation of the engine, whatever the filesystem, the sources,
    the encoder and the clock do. *)
From Stdlib Require Import Ascii String.
From S2P Require Import Prelude RustStr RustFloat Model Segment AppState Lifecycle Recovery Exclusion.
From S2P Require Import PauseStore DesktopActivity EngineState Engine.

Local Open Scope list_scope.

Section invariant.
Context {W A : Type}
  `{SegmentFs W, DesktopActivitySource W, ActivityHost W, PauseStore W, CaptureWorld W, SetupAuth A}.

Notation engine := (Engine W A).
Notation eng := (M (Engine W A)).

(** What the invariant reads of the engine. *)
Definition ikey (e : engine) :=
  (e_state e, e_reports e, e_lifecycles e, e_retry_at e,
   (e_storage_fault e, e_pending_seals e, e_write_stalled e, e_pending_rows e)).

(** The reducer's storage flag is the engine's fault; the reducer holds for
    each source what the last report said; an open breaker has no retry. *)
Definition core (e : engine) : Prop :=
  storage_faulted (e_state e) = negb (is_none (e_storage_fault e)) ∧
  (∀ k, reported (e_state e) k = report_state <$> pk_get (e_reports e) k) ∧
  (∀ k, lifecycle_ok (pk_get (e_lifecycles e) k) ∧
        (breaker (pk_get (e_lifecycles e) k) = Open → pk_get (e_retry_at e) k = None)).

(** Without a storage fault nothing waits: no seal, no failed write and (when
    [rows] is set) no activity row. *)
Definition clean (rows : bool) (e : engine) : Prop :=
  e_storage_fault e = None →
  e_pending_seals e = [] ∧ e_write_stalled e = false ∧ (rows = true → e_pending_rows e = []).

Definition einv (rows : bool) (e : engine) : Prop := core e ∧ clean rows e.

Lemma einv_frame rows (e e' : engine) : ikey e' = ikey e → einv rows e → einv rows e'.
Proof.
  unfold ikey, einv, core, clean. intros [= Hs Hr Hl Ht Hf Hp Hw Hq]. by rewrite Hs, Hr, Hl, Ht, Hf, Hp, Hw, Hq.
Qed.

Lemma pres_frame {B} rows (m : eng B) : keeps ikey m → pres (einv rows) m.
Proof. intros Hm e. by apply einv_frame. Qed.

Lemma keeps_world {B} (m : M W B) : keeps ikey (world m).
Proof. done. Qed.

Lemma keeps_scheduler {B} (m : M (SchedIO W) B) : keeps ikey (scheduler m).
Proof. done. Qed.

Lemma pres_world {B} rows (m : M W B) : pres (einv rows) (world m).
Proof. apply pres_frame, keeps_world. Qed.

Lemma pres_scheduler {B} rows (m : M (SchedIO W) B) : pres (einv rows) (scheduler m).
Proof. apply pres_frame, keeps_scheduler. Qed.

Lemma pres_modify_frame rows (f : engine → engine) : (∀ e, ikey (f e) = ikey e) → pres (einv rows) (modify f).
Proof. intros Hf. apply pres_frame. intros e. apply Hf. Qed.

(** *** Reducer events *)

Definition benign (event : AppEvent) : bool :=
  match event with SourceUpdated _ | SourceFaulted _ | StorageFaultChanged _ => false | _ => true end.

Lemma benign_facts event s :
  benign event = true →
  storage_faulted (apply_event event s) = storage_faulted s ∧
  ∀ k, reported (apply_event event s) k = reported s k.
Proof.
  destruct s. destruct event as [|[]| | | | | | | |[]]; cbn; try done; intros _; split; try done; by intros [].
Qed.

Lemma pres_reduce rows event : benign event = true → pres (einv rows) (reduce_event event).
Proof.
  intros Hb e [(Hs & Hr & Hl) Hc]. destruct (benign_facts event (e_state e) Hb) as [Hs' Hr'].
  split; [|exact Hc]. split_and!; cbn; [by rewrite Hs'| |exact Hl]. intros k. by rewrite Hr'.
Qed.

Lemma storage_flag s b :
  storage_faulted (set_storage_faulted b s) = b ∧ ∀ k, reported (set_storage_faulted b s) k = reported s k.
Proof. destruct s. split; [done|by intros []]. Qed.

Lemma note_storage_fault_inv rows d e : core e → einv rows (note_storage_fault d e).2.
Proof.
  intros (Hs & Hr & Hl). destruct (storage_flag (e_state e) true) as [Hf Hr'].
  split; [|done]. split_and!; cbn; [done| |exact Hl]. intros k. by rewrite Hr'.
Qed.

Lemma pres_note rows d : pres (einv rows) (note_storage_fault d).
Proof. intros e [Hc _]. by apply note_storage_fault_inv. Qed.

(** Recording unfinished storage work is followed by a fault. *)
Lemma pres_modify_note {B} rows (f : engine → engine) d (k : unit → eng B) :
  (∀ e, core e → core (f e)) → (∀ u, pres (einv rows) (k u)) →
  pres (einv rows) (modify f ;; note_storage_fault d ≫= k).
Proof. intros Hf Hk e [Hc _]. rewrite !bind_run. apply Hk, note_storage_fault_inv, Hf, Hc. Qed.

Lemma pres_modify_note_end rows (f : engine → engine) d :
  (∀ e, core e → core (f e)) → pres (einv rows) (modify f ;; note_storage_fault d).
Proof. intros Hf e [Hc _]. rewrite bind_run. apply note_storage_fault_inv, Hf, Hc. Qed.

Lemma clear_storage_fault_inv rows e :
  core e → e_pending_seals e = [] → e_write_stalled e = false → (rows = true → e_pending_rows e = []) →
  einv rows (clear_storage_fault e).2.
Proof.
  intros (Hs & Hr & Hl) Hp Hw Hq. destruct (storage_flag (e_state e) false) as [Hf Hr'].
  split; [|done]. split_and!; cbn; [done| |exact Hl]. intros k. by rewrite Hr'.
Qed.

Lemma storage_healthy_spec (e : engine) :
  storage_healthy e = true →
  e_pending_seals e = [] ∧ e_write_stalled e = false ∧ e_pending_rows e = [] ∧
  (should_be_capturing e = true → is_Some (e_current e)).
Proof.
  unfold storage_healthy. destruct (e_pending_seals e), (e_write_stalled e), (e_pending_rows e); cbn; try done.
  destruct (should_be_capturing e), (e_current e); naive_solver.
Qed.

Lemma pres_clear_if_healthy rows (m : eng unit) :
  pres (einv rows) m → pres (einv rows) (e ← ask; if storage_healthy e then clear_storage_fault else m).
Proof.
  intros Hm e He. rewrite bind_run. cbn [ask gets fst snd].
  destruct (storage_healthy e) eqn:Hh; [|by apply Hm].
  apply storage_healthy_spec in Hh as (? & ? & ? & _). by apply clear_storage_fault_inv; [apply He|..].
Qed.

Lemma pres_attempt_clear rows : pres (einv rows) attempt_clear_storage.
Proof.
  intros e He. unfold attempt_clear_storage. rewrite bind_run. cbn [ask gets fst snd].
  destruct (is_none (e_storage_fault e)); [exact He|]. cbn [negb andb].
  destruct (storage_healthy e) eqn:Hh; [|exact He].
  apply storage_healthy_spec in Hh as (? & ? & ? & _). by apply clear_storage_fault_inv; [apply He|..].
Qed.

(** *** Reports *)

Lemma reported_set kind st s k :
  reported (set_reported kind st s) k = (if decide (k = kind) then Some st else reported s k) ∧
  storage_faulted (set_reported kind st s) = storage_faulted s.
Proof. destruct s, kind, k; done. Qed.

Lemma pres_record_report rows report : pres (einv rows) (record_report report).
Proof.
  intros e [(Hs & Hr & Hl) Hc]. split; [|exact Hc]. split_and!; cbn; [| |exact Hl].
  - etrans; [apply (reported_set (report_kind report) (report_state report) (e_state e) Screen)|exact Hs].
  - intros k. etrans; [apply (reported_set (report_kind report) (report_state report) (e_state e) k)|].
    change (e_reports (record_report report e).2) with (pk_set (report_kind report) (Some report) (e_reports e)).
    rewrite pk_get_set. case_decide; [done|apply Hr].
Qed.

Lemma pres_mark_success rows kind : pres (einv rows) (mark_source_success kind).
Proof.
  intros e [(Hs & Hr & Hl) Hc]. split; [|exact Hc]. unfold mark_source_success. rewrite bind_run.
  split_and!; cbn; [done|done|].
  intros k. rewrite !pk_get_set. case_decide; [|apply Hl]. split; [|done].
  apply lifecycle_ok_success, Hl.
Qed.

Lemma pres_retry_remove rows kind :
  pres (einv rows) (modify (λ e : engine, set_e_retry_at (pk_set kind None (e_retry_at e)) e)).
Proof.
  intros e [(Hs & Hr & Hl) Hc]. split; [|exact Hc]. split_and!; cbn; [done|done|].
  intros k. rewrite pk_get_set. destruct (Hl k). case_decide; done.
Qed.

Lemma pres_fault_transition rows kind prev cur force :
  pres (einv rows) (handle_fault_transition kind prev cur force).
Proof.
  destruct cur as [| | |reason detail]; try apply pres_ret. unfold handle_fault_transition.
  case_decide; [apply pres_ret|]. destruct (force || _).
  2:{ apply pres_bind; [apply pres_gets|]. intros e. case_decide; apply pres_ret. }
  intros e [(Hs & Hr & Hl) Hc]. rewrite bind_run. cbn [ask gets fst snd].
  destruct (Hl kind) as [Hok Hopen].
  pose proof (lifecycle_ok_failure _ Hok) as Hok'. pose proof (on_failure_open _ Hok) as Hgive.
  pose proof (on_failure_decision (pk_get (e_lifecycles e) kind)) as Hdec.
  destruct (on_failure (pk_get (e_lifecycles e) kind)) as [[delay|] lc]; cbn in Hok', Hgive, Hdec;
    repeat (rewrite bind_run; cbn [modify world mret state_ret fst snd]).
  - split; [|exact Hc]. split_and!; cbn; [done|done|]. intros k. rewrite !pk_get_set.
    case_decide as Hk; [|apply Hl]. split; [done|]. intros Hb. rewrite (Hdec delay eq_refl) in Hb.
    by destruct (Hgive Hb).
  - split; [|exact Hc]. split_and!; cbn; [done|done|]. intros k. rewrite !pk_get_set.
    case_decide as Hk; [by split|]. apply Hl.
Qed.

(** *** The walk

    Every remaining method is built from the pieces above: one rule per
    construct, frames for the fields the invariant does not read. *)
Create HintDb einv discriminated.
#[local] Hint Resolve pres_ret pres_gets pres_world pres_scheduler pres_note pres_attempt_clear
  pres_record_report pres_mark_success pres_retry_remove pres_fault_transition : einv.

Ltac einv_step :=
  match goal with
  | |- pres _ (mbind _ _) => apply pres_bind; [|intros ?]
  | |- pres _ (when _ _) => apply pres_when
  | |- pres _ (for_each _ _) => apply pres_for_each; intros ?
  | |- pres _ (match ?x with _ => _ end) => destruct x
  | |- pres _ (let '_ := ?x in _) => destruct x
  | |- pres _ (reduce_event _) => apply pres_reduce; reflexivity
  | |- pres _ ask => apply pres_gets
  | |- pres _ (modify _) => solve [apply pres_retry_remove | apply pres_modify_frame; intros; reflexivity]
  | |- pres _ _ => solve [auto with einv]
  end.
Ltac einv_walk := cbv zeta; repeat (einv_step; cbv zeta).

Lemma pres_clear_source_preview rows k : pres (einv rows) (clear_source_preview k).
Proof. apply pres_modify_frame. by destruct k. Qed.
#[local] Hint Resolve pres_clear_source_preview : einv.

Lemma pres_refresh_health rows : pres (einv rows) refresh_health.
Proof. unfold refresh_health, health_dump. einv_walk. Qed.
#[local] Hint Resolve pres_refresh_health : einv.

Lemma pres_clear_previews rows : pres (einv rows) clear_previews.
Proof. unfold clear_previews. einv_walk. Qed.
#[local] Hint Resolve pres_clear_previews : einv.

Lemma pres_apply_source_report rows r : pres (einv rows) (apply_source_report r).
Proof. unfold apply_source_report. einv_walk. Qed.
#[local] Hint Resolve pres_apply_source_report : einv.

Lemma pres_apply_encoder_error rows r : pres (einv rows) (apply_encoder_error r).
Proof. unfold apply_encoder_error. einv_walk. Qed.
#[local] Hint Resolve pres_apply_encoder_error : einv.

Lemma pres_apply_source_error rows k r : pres (einv rows) (apply_source_error k r).
Proof. unfold apply_source_error. einv_walk. Qed.
#[local] Hint Resolve pres_apply_source_error : einv.

Lemma pres_source_state rows k : pres (einv rows) (source_state k).
Proof. unfold source_state. einv_walk. Qed.
#[local] Hint Resolve pres_source_state : einv.

Lemma pres_fold_source_states rows : pres (einv rows) fold_source_states.
Proof. unfold fold_source_states. einv_walk. Qed.
#[local] Hint Resolve pres_fold_source_states : einv.

Lemma pres_renew rows : pres (einv rows) renew_artifact_id.
Proof. unfold renew_artifact_id, generate_artifact_id. einv_walk. Qed.
#[local] Hint Resolve pres_renew : einv.

Lemma pres_unique_id rows key : pres (einv rows) (ensure_unique_artifact_id key).
Proof.
  unfold ensure_unique_artifact_id. einv_walk. generalize 100%nat.
  intros n. induction n as [|n IH]; cbn [unique_id_tries]; einv_walk.
Qed.
#[local] Hint Resolve pres_unique_id : einv.

(** Writing the queue's front: what is left is what failed. *)
Lemma flush_rows_inv rs e :
  einv false e → e_pending_rows e = rs →
  einv false (flush_rows rs e).2 ∧ ((flush_rows rs e).1 = None → e_pending_rows (flush_rows rs e).2 = []).
Proof.
  revert e. induction rs as [|row rs IH]; intros e He Hq; [done|]. cbn [flush_rows]. rewrite bind_run.
  set (r := world _ e). assert (Hr : einv false r.2) by (by apply pres_world).
  destruct r.1; [|done]. rewrite bind_run. apply IH; [|done].
  destruct Hr as [Hcore Hclean]. split; [exact Hcore|].
  intros Hf. destruct (Hclean Hf) as (? & ? & _). by split_and!.
Qed.

Lemma flush_closes e : einv false e → einv true (flush_activity_queue e).2.
Proof.
  intros He. unfold flush_activity_queue. rewrite bind_run. cbn [ask gets fst snd].
  destruct (e_pending_rows e) as [|row rs] eqn:Hq.
  { destruct He as [Hcore Hclean]. split; [done|]. intros Hf. destruct (Hclean Hf) as (? & ? & _). by split_and!. }
  destruct (flush_rows_inv (row :: rs) e He Hq) as [Hinv Hdone]. rewrite bind_run.
  destruct (flush_rows (row :: rs) e) as [[err|] e'] eqn:Hfl; cbn [fst snd] in *.
  - apply note_storage_fault_inv, Hinv.
  - apply pres_attempt_clear. destruct Hinv as [Hcore Hclean]. split; [done|]. intros Hf.
    destruct (Hclean Hf) as (? & ? & _). split_and!; auto.
Qed.

Lemma einv_weaken e : einv true e → einv false e.
Proof. intros [Hcore Hclean]. split; [done|]. intros Hf. destruct (Hclean Hf) as (? & ? & _). by split_and!. Qed.

Lemma pres_flush : pres (einv true) flush_activity_queue.
Proof. intros e He. by apply flush_closes, einv_weaken. Qed.
#[local] Hint Resolve pres_flush : einv.

Lemma pres_append_row row : pres (einv true) (append_activity_row row).
Proof.
  unfold append_activity_row. destruct (to_jsonl_line row) as [line|]; [|apply pres_ret].
  apply pres_bind; [apply pres_gets|]. intros e0. cbv zeta. apply pres_bind; [einv_walk|]. intros _.
  apply pres_bind; [apply pres_gets|]. intros e1. apply pres_bind; [einv_walk|]. intros _.
  intros e He. rewrite bind_run. 
  apply flush_closes. destruct He as [Hcore Hclean]. split; [exact Hcore|].
  intros Hf. destruct (Hclean Hf) as (? & ? & _). by split_and!.
Qed.

Lemma pres_append_rows rs : pres (einv true) (append_rows rs).
Proof. apply pres_for_each, pres_append_row. Qed.
#[local] Hint Resolve pres_append_row pres_append_rows : einv.

Lemma pres_attach key dir : pres (einv true) (attach_segment key dir).
Proof. unfold attach_segment. einv_walk. Qed.
#[local] Hint Resolve pres_attach : einv.

Lemma pres_open_segment key : pres (einv true) (open_segment_key key).
Proof. unfold open_segment_key. einv_walk. Qed.
#[local] Hint Resolve pres_open_segment : einv.

Lemma pres_open_current : pres (einv true) open_current_segment.
Proof. unfold open_current_segment. einv_walk. Qed.

Lemma pres_adopt : pres (einv true) adopt_current_segment.
Proof. unfold adopt_current_segment. einv_walk. Qed.
#[local] Hint Resolve pres_open_current pres_adopt : einv.

Lemma pres_finalize_encoder rows : pres (einv rows) finalize_screen_encoder.
Proof. unfold finalize_screen_encoder. einv_walk. Qed.
#[local] Hint Resolve pres_finalize_encoder : einv.

Lemma pres_seal_remove rows key :
  pres (einv rows) (modify (λ e : engine, set_e_pending_seals (seal_remove key (e_pending_seals e)) e)).
Proof.
  intros e [Hcore Hclean]. split; [exact Hcore|]. intros Hf. destruct (Hclean Hf) as (Hp & ? & ?).
  split_and!; try done. cbn. by rewrite Hp.
Qed.

Lemma pres_seal seg : pres (einv true) (seal_segment seg).
Proof.
  unfold seal_segment. apply pres_bind; [auto with einv|]. intros [|]; cbn [negb]; [|apply pres_ret].
  apply pres_bind; [apply pres_gets|]. intros e0. cbv zeta. destruct (rows_wait_for e0 _).
  - apply pres_modify_note; [done|]. intros _. auto with einv.
  - apply pres_bind; [auto with einv|]. intros [u|err].
    + apply pres_bind; [apply pres_seal_remove|]. intros _. einv_walk.
    + by apply pres_modify_note_end.
Qed.
#[local] Hint Resolve pres_seal pres_seal_remove : einv.

Lemma pres_rotate_loop fuel closing now : pres (einv true) (rotate_loop fuel closing now).
Proof. induction fuel as [|fuel IH]; cbn [rotate_loop]; einv_walk; exact IH. Qed.
#[local] Hint Resolve pres_rotate_loop : einv.

Lemma pres_rotate closing : pres (einv true) (rotate_segments closing).
Proof. unfold rotate_segments. einv_walk. Qed.
#[local] Hint Resolve pres_rotate : einv.

Lemma pres_rotate_if_needed : pres (einv true) rotate_if_needed.
Proof. apply pres_rotate. Qed.
#[local] Hint Resolve pres_rotate_if_needed : einv.

Lemma pres_ensure : pres (einv true) ensure_segment_for_now.
Proof. unfold ensure_segment_for_now. einv_walk. Qed.
#[local] Hint Resolve pres_ensure : einv.

Lemma pres_unstall rows : pres (einv rows) (modify (λ e : engine, set_e_write_stalled false e)).
Proof.
  intros e [Hcore Hclean]. split; [exact Hcore|]. intros Hf. destruct (Hclean Hf) as (? & ? & ?).
  by split_and!.
Qed.

Lemma pres_write_audio chunk : pres (einv true) (write_audio_chunk chunk).
Proof.
  unfold write_audio_chunk. apply pres_bind; [apply pres_gets|]. intros e0.
  destruct (e_current e0) as [seg|]; [|apply pres_ret]. apply pres_bind; [auto with einv|]. intros [u|err].
  - apply pres_when, pres_bind; [apply pres_unstall|]. intros _. auto with einv.
  - by apply pres_modify_note_end.
Qed.
#[local] Hint Resolve pres_write_audio : einv.

Lemma pres_encode_or_fault rows frame : pres (einv rows) (encode_or_fault frame).
Proof. unfold encode_or_fault. einv_walk. Qed.
#[local] Hint Resolve pres_encode_or_fault : einv.

Lemma pres_encode rows frame : pres (einv rows) (encode_screen_frame frame).
Proof. unfold encode_screen_frame. einv_walk. Qed.
#[local] Hint Resolve pres_encode : einv.

Lemma pres_audio_preview rows k c a : pres (einv rows) (update_audio_preview k c a).
Proof. unfold update_audio_preview. einv_walk. Qed.
#[local] Hint Resolve pres_audio_preview : einv.

Lemma pres_screen_preview rows f a : pres (einv rows) (update_screen_preview f a).
Proof. unfold update_screen_preview. einv_walk. Qed.
#[local] Hint Resolve pres_screen_preview : einv.

Lemma pres_handle_event ev : pres (einv true) (handle_event ev).
Proof. unfold handle_event. einv_walk. Qed.
#[local] Hint Resolve pres_handle_event : einv.

Lemma pres_drain : pres (einv true) drain_events.
Proof. unfold drain_events. einv_walk. Qed.
#[local] Hint Resolve pres_drain : einv.

Lemma pres_increment rows k : pres (einv rows) (increment_generation k).
Proof. unfold increment_generation. einv_walk. Qed.
#[local] Hint Resolve pres_increment : einv.

Lemma pres_start_source rows k : pres (einv rows) (start_source k).
Proof. unfold start_source. einv_walk. Qed.
#[local] Hint Resolve pres_start_source : einv.

Lemma pres_now_ms rows : pres (einv rows) now_ms_from_us.
Proof. unfold now_ms_from_us. einv_walk. Qed.
#[local] Hint Resolve pres_now_ms : einv.

Lemma pres_stop_source k : pres (einv true) (stop_source k).
Proof. unfold stop_source. einv_walk. Qed.
#[local] Hint Resolve pres_stop_source : einv.

Lemma pres_retry_due : pres (einv true) retry_due_sources.
Proof. unfold retry_due_sources. einv_walk. Qed.
#[local] Hint Resolve pres_retry_due : einv.

Lemma pres_retry_seal seal : pres (einv true) (retry_seal seal).
Proof. unfold retry_seal. einv_walk. Qed.
#[local] Hint Resolve pres_retry_seal : einv.

Lemma pres_service : pres (einv true) service_storage.
Proof.
  unfold service_storage. apply pres_bind; [apply pres_gets|]. intros e0.
  destruct (is_none _); [apply pres_ret|]. apply pres_bind; [auto with einv|]. intros now. cbv zeta.
  apply pres_bind; [einv_walk|]. intros _.
  intros e He. rewrite bind_run. cbn [ask gets fst snd].
  destruct (storage_healthy e) eqn:Hh.
  - apply storage_healthy_spec in Hh as (? & ? & ? & _). by apply clear_storage_fault_inv; [apply He|..].
  - revert He. generalize (on_failure (e_storage_lifecycle e)). intros [dec lc].
    cut (pres (einv true) (when match e_storage_retry_at e0 with None => true | Some t => (t <=? now)%Z end
      (modify (λ e : engine, set_e_storage_lifecycle lc e) ;;
       modify (λ e : engine, set_e_storage_retry_at (Some (sat_add_u64 now match dec with
         | RetryAfter delay => as_secs delay | GiveUp => as_secs (max storage_backoff_config) end)) e)))).
    { intros Hp He. by apply Hp. }
    einv_walk.
Qed.
#[local] Hint Resolve pres_service : einv.

Lemma pres_apply_enabled k on : pres (einv true) (apply_source_enabled k on).
Proof. unfold apply_source_enabled. einv_walk. Qed.
#[local] Hint Resolve pres_apply_enabled : einv.

Lemma pres_follow : pres (einv true) follow_desktop_activity.
Proof. unfold follow_desktop_activity. einv_walk. Qed.
#[local] Hint Resolve pres_follow : einv.

Lemma pres_set_enabled k on : pres (einv true) (set_source_enabled k on).
Proof. unfold set_source_enabled. einv_walk. Qed.

Lemma pres_set_through_pause on : pres (einv true) (set_desktop_activity_through_pause on).
Proof. unfold set_desktop_activity_through_pause. einv_walk. Qed.

Lemma pres_set_choices setup : pres (einv true) (set_source_choices setup).
Proof. unfold set_source_choices. einv_walk. Qed.

Lemma pres_set_rules rules : pres (einv true) (engine_set_exclusion_rules rules).
Proof. unfold engine_set_exclusion_rules. einv_walk. Qed.
#[local] Hint Resolve pres_set_enabled pres_set_through_pause pres_set_choices pres_set_rules : einv.

Lemma pres_pause_capture : pres (einv true) pause_capture.
Proof.
  unfold pause_capture. repeat (apply pres_bind; [solve [einv_walk; apply pres_unstall]|intros ?]).
  auto with einv.
Qed.

Lemma pres_resume_capture : pres (einv true) resume_capture.
Proof. unfold resume_capture. einv_walk. Qed.

Lemma pres_record_owner owner : pres (einv true) (record_owner_pause owner).
Proof. unfold record_owner_pause. einv_walk. Qed.
#[local] Hint Resolve pres_pause_capture pres_resume_capture pres_record_owner : einv.

Lemma pres_settle a b c : pres (einv true) (settle_pause a b c).
Proof. unfold settle_pause. einv_walk. Qed.
#[local] Hint Resolve pres_settle : einv.

Lemma pres_auto_resume : pres (einv true) auto_resume_if_due.
Proof. unfold auto_resume_if_due. einv_walk. Qed.

Lemma pres_hold : pres (einv true) hold_owner_pause_in.
Proof. unfold hold_owner_pause_in. einv_walk. Qed.

Lemma pres_display : pres (einv true) on_display_changed.
Proof. unfold on_display_changed. einv_walk. Qed.
#[local] Hint Resolve pres_auto_resume pres_hold pres_display : einv.

Lemma pres_pause_command c b : pres (einv true) (pause_command c b).
Proof. unfold pause_command. einv_walk. Qed.
#[local] Hint Resolve pres_pause_command : einv.

Lemma pres_apply_command c : pres (einv true) (apply_command c).
Proof. unfold apply_command. einv_walk. Qed.

Lemma pres_pump_activity : pres (einv true) pump_desktop_activity.
Proof. unfold pump_desktop_activity. einv_walk. Qed.
#[local] Hint Resolve pres_apply_command pres_pump_activity : einv.

Lemma pres_tick : pres (einv true) tick.
Proof. unfold tick. einv_walk. Qed.
#[local] Hint Resolve pres_tick : einv.

Lemma pres_pump : pres (einv true) pump.
Proof. unfold pump. einv_walk. Qed.

Lemma pres_start : pres (einv true) start.
Proof. unfold start. einv_walk. Qed.

Lemma pres_stop : pres (einv true) stop.
Proof. unfold stop. einv_walk. Qed.
#[local] Hint Resolve pres_pump pres_start pres_stop : einv.
End invariant.

#[export] Hint Resolve pres_start pres_stop pres_pump pres_tick pres_handle_event pres_apply_command
  pres_set_choices pres_set_rules pres_hold : einv.
