(* ===== verification/EngineFrame.v ===== *)
(** * Frames of the engine

    Which calls on the outside world an engine operation can make, once for
    all properties: [routine] lists the calls that are not the start of a
    capture source, and a [Frame] is an invariant that survives them. Every
    operation of the engine keeps every frame; the operations that start
    sources (desktop activity among them) or change switches and pauses do so
    under the hypotheses of the second section. *)
From Stdlib Require Import Ascii String.
From S2P Require Import Prelude RustStr RustFloat Model Segment AppState Lifecycle Recovery Exclusion.
From S2P Require Import PauseStore DesktopActivity EngineState Engine.

Local Open Scope list_scope.

(** Walk a body, leaving the asked state's invariant in the context. *)
Lemma pres_ask_bind {S B} (I : S → Prop) (k : S → M S B) :
  (∀ s, I s → pres I (k s)) → pres I (gets (λ s, s) ≫= k).
Proof. intros Hk s Hs. exact (Hk s Hs s Hs). Qed.

Create HintDb frame discriminated.

(** ** The scheduler *)

Section scheduler_frame.
Context {W : Type} `{DesktopActivitySource W, ActivityHost W}.

(** The calls the activity scheduler makes. *)
Inductive sched_call : ∀ {B}, M W B → Prop :=
| CallPoll : sched_call das_poll_events
| CallCoarse : sched_call das_poll_coarse_events
| CallRequest q : sched_call (das_request_url q)
| CallResult : sched_call das_poll_url_result
| CallCancel : sched_call das_cancel_url
| CallSnapshot : sched_call das_foreground_snapshot
| CallRules : sched_call read_rules_handle
| CallAvailable : sched_call load_available_handle.

Context (I : W → Prop) (Hcalls : ∀ B (m : M W B), sched_call m → pres I m).
Notation keeps_world := (pres (λ st : SchedIO W, I (src st))).

Lemma frame_probe {B} (m : M W B) : sched_call m → keeps_world (probe m).
Proof. intros Hm st. by apply Hcalls. Qed.

Lemma frame_upd f : keeps_world (upd f).
Proof. by intros st. Qed.

Lemma frame_each {B} (xs : list B) (body : B → M (SchedIO W) (list DesktopActivityRow)) :
  (∀ x, keeps_world (body x)) → keeps_world (each xs body).
Proof.
  intros Hb. induction xs as [|x xs IH]; [apply pres_ret|]. cbn [each]. unfold and_then.
  apply pres_bind; [done|]. intros r. apply pres_bind; [done|]. intros r'. apply pres_ret.
Qed.

Ltac sched_step :=
  match goal with
  | |- pres _ (mbind _ _) => apply pres_bind; [|intros ?]
  | |- pres _ (when _ _) => apply pres_when
  | |- pres _ (each _ _) => apply frame_each; intros ?
  | |- pres _ (match ?x with _ => _ end) => destruct x
  | |- pres _ (probe _) => apply frame_probe; constructor
  | |- pres _ (upd _) => apply frame_upd
  | |- pres _ (mret _) => apply pres_ret
  | |- pres _ (gets _) => apply pres_gets
  | |- pres _ _ => solve [auto with frame]
  end.
Ltac sched_walk := cbv zeta; unfold and_then, quiet, emit_opt, no_rows; repeat (sched_step; cbv zeta).

Lemma frame_cancel_request : keeps_world cancel_request.
Proof. unfold cancel_request, retire_request. sched_walk. Qed.
#[local] Hint Resolve frame_cancel_request : frame.

Lemma frame_cancel_in_flight : keeps_world cancel_in_flight.
Proof. unfold cancel_in_flight. sched_walk. Qed.

Lemma frame_transition now m c s : keeps_world (transition_availability now m c s).
Proof. unfold transition_availability. sched_walk. Qed.

Lemma frame_close_availability now m c : keeps_world (close_availability now m c).
Proof. unfold close_availability. sched_walk. Qed.

Lemma frame_close_foreground now : keeps_world (close_foreground now).
Proof. unfold close_foreground. sched_walk. Qed.

Lemma frame_close_activity now : keeps_world (close_activity now).
Proof. unfold close_activity. sched_walk. Qed.
#[local] Hint Resolve frame_cancel_in_flight frame_transition frame_close_availability
  frame_close_foreground frame_close_activity : frame.

Lemma frame_url_unavailable now : keeps_world (url_unavailable now).
Proof. unfold url_unavailable. sched_walk. Qed.

Lemma frame_drop_url now : keeps_world (drop_url now).
Proof. unfold drop_url, split_foreground_url. sched_walk. Qed.

Lemma frame_set_preferences t a now : keeps_world (set_preferences t a now).
Proof. unfold set_preferences. sched_walk. Qed.

Lemma frame_set_rules r now : keeps_world (set_exclusion_rules r now).
Proof. unfold set_exclusion_rules. sched_walk. Qed.
#[local] Hint Resolve frame_url_unavailable frame_drop_url frame_set_preferences frame_set_rules : frame.

Lemma frame_refresh_rules now : keeps_world (refresh_rules now).
Proof. unfold refresh_rules. sched_walk. Qed.

Lemma frame_available : keeps_world is_exclusion_available.
Proof. unfold is_exclusion_available. sched_walk. Qed.

Lemma frame_request_or_note now wid exe raw : keeps_world (request_or_note now wid exe raw).
Proof. unfold request_or_note. sched_walk. Qed.
#[local] Hint Resolve frame_refresh_rules frame_available frame_request_or_note : frame.

Lemma frame_sched_event event now : keeps_world (DesktopActivity.handle_event event now).
Proof. unfold DesktopActivity.handle_event, open_window. sched_walk. Qed.

Lemma frame_url_result result now : keeps_world (handle_url_result result now).
Proof. unfold handle_url_result, match_url_result, admit_url, split_foreground_url. sched_walk. Qed.
#[local] Hint Resolve frame_sched_event frame_url_result : frame.

Lemma frame_poll_and_step now : keeps_world (poll_and_step now).
Proof.
  unfold poll_and_step, step_unavailable, expire_request, reread_url, retire_request. sched_walk.
Qed.

Lemma frame_on_boundary b : keeps_world (on_boundary b).
Proof. unfold on_boundary. sched_walk. Qed.

Lemma frame_close_all now : keeps_world (close_all now).
Proof. unfold close_all. sched_walk. Qed.
#[local] Hint Resolve frame_close_all : frame.

Lemma frame_source_unavailable now : keeps_world (source_unavailable now).
Proof. unfold source_unavailable. sched_walk. Qed.
End scheduler_frame.

(** ** The engine *)

Section engine_frame.
Context {W A : Type}
  `{SegmentFs W, DesktopActivitySource W, ActivityHost W, PauseStore W, CaptureWorld W, SetupAuth A}.

Notation engine := (Engine W A).
Notation eng := (M (Engine W A)).

(** Every call the engine makes on the outside world, the start of one of the
    four capture sources apart. *)
Inductive routine : ∀ {B}, M W B → Prop :=
| RoutineActivityStop : routine das_stop
| RoutineStop k : routine (src_stop k)
| RoutineDisplay : routine screen_display_changed
| RoutineEncOpen d w h : routine (enc_open d w h)
| RoutineEncode f : routine (enc_encode_frame f)
| RoutineEncFinalize : routine enc_finalize
| RoutineSecs : routine now_epoch_secs
| RoutineUs : routine now_epoch_us
| RoutineMonotonic : routine now_monotonic_us
| RoutineNanos : routine system_nanos
| RoutineExisting key : routine (existing_incomplete key)
| RoutineOpen key : routine (open_incomplete key)
| RoutineWrite key c : routine (write_chunk key c)
| RoutineAppend key f l n : routine (append_activity key f l n)
| RoutineFinalize key v : routine (fs_finalize key v)
| RoutineSave p : routine (pause_save p)
| RoutineClear : routine pause_clear
| RoutineSched {B} (m : M W B) : sched_call m → routine m.

(** The start of a capture source. *)
Definition start_call (k : SourceKind) (g : Z) : M W (result unit SourceError) :=
  match k with DesktopActivity => das_start | _ => src_start k g end.

(** Events that report a source or the storage. *)
Definition housekeeping (event : AppEvent) : bool :=
  match event with SourceUpdated _ | StorageFaultChanged _ => true | _ => false end.

(** What a frame may read: reducer, world, window length, open segment, whether
    pauses are recorded, and what desktop activity is allowed. *)
Definition okey (e : engine) :=
  (e_state e, e_world e, e_segment_secs e, e_current e, e_has_pause_store e, e_activity_allowed e, e_through_pause e).

(** [J] survives every call but a capture source's start. *)
Record Frame (s : Z) (J : engine → Prop) : Prop := {
  fr_secs e : J e → e_segment_secs e = s;
  fr_fields (f : engine → engine) : (∀ e, okey (f e) = okey e) → pres J (modify f);
  fr_world {B} (m : M W B) : routine m → pres J (world m);
  fr_sched {B} (m : M (SchedIO W) B) :
    (∀ I, (∀ C (c : M W C), sched_call c → pres I c) → pres (λ st, I (src st)) m) → pres J (scheduler m);
  fr_event event : housekeeping event = true → pres J (reduce_event event);
  fr_store : pres J (modify (set_e_has_pause_store true));
  fr_close : pres J (modify (set_e_current None));
  fr_recount e seg seg' :
    J e → e_current e = Some seg → seg_key seg' = seg_key seg → J (set_e_current (Some seg') e)
}.

(** [J] allows the segment of time [t] to be opened; it allows that of every
    reading of the clock and of every next boundary. *)
Definition attachable (s : Z) (J : engine → Prop) (t : Z) : Prop :=
  ∀ seg, seg_key seg = segment_for t s → pres J (modify (set_e_current (Some seg))).

Definition Clocked (s : Z) (J : engine → Prop) : Prop :=
  (∀ e, J e → attachable s J (now_epoch_secs (e_world e)).1) ∧ ∀ n, attachable s J (wrap_u64 n).

Lemma frame_clock_bind {B} s J (k : Z → eng B) :
  Frame s J → Clocked s J →
  (∀ now, attachable s J now → pres J (k now)) → pres J (world now_epoch_secs ≫= k).
Proof.
  intros HF HC Hk e He. rewrite bind_run. apply Hk; [by apply HC|].
  apply (fr_world _ _ HF); [constructor|done].
Qed.
End engine_frame.

Ltac frame_sched HF :=
  apply (fr_sched _ _ HF); intros ? ?;
  match goal with
  | |- pres _ is_exclusion_available => by apply frame_available
  | |- pres _ (close_all _) => by apply frame_close_all
  | |- pres _ (on_boundary _) => by apply frame_on_boundary
  | |- pres _ (poll_and_step _) => by apply frame_poll_and_step
  | |- pres _ (source_unavailable _) => by apply frame_source_unavailable
  | |- pres _ (set_preferences _ _ _) => by apply frame_set_preferences
  | |- pres _ (set_exclusion_rules _ _) => by apply frame_set_rules
  end.

Ltac frame_step HF :=
  match goal with
  | |- pres _ (mbind _ ask) => 
      let Ha := fresh "Hasked" in apply pres_ask_bind; intros ? Ha; cbv beta; rewrite ?(fr_secs _ _ HF _ Ha)
  | HC : Clocked _ ?J |- pres ?J (mbind _ (world now_epoch_secs)) =>
      apply (frame_clock_bind _ _ _ HF HC); intros ? ?
  | |- pres _ (mbind _ _) => apply pres_bind; [|intros ?]
  | |- pres _ (when _ _) => apply pres_when
  | |- pres _ (for_each _ _) => apply pres_for_each; intros ?
  | |- pres _ (match ?x with _ => _ end) => destruct x
  | |- pres _ (mret _) => apply pres_ret
  | |- pres _ (gets _) => apply pres_gets
  | |- pres _ (world (match ?x with _ => _ end)) => destruct x
  | |- pres _ (world _) => apply (fr_world _ _ HF); repeat constructor
  | |- pres _ (scheduler _) => frame_sched HF
  | |- pres _ (reduce_event _) => apply (fr_event _ _ HF); reflexivity
  | |- pres _ (modify (set_e_has_pause_store true)) => apply (fr_store _ _ HF)
  | |- pres _ (modify (set_e_current None)) => apply (fr_close _ _ HF)
  | |- pres _ (modify _) => solve [apply (fr_fields _ _ HF); intros; reflexivity]
  | |- pres _ _ => solve [eauto with frame]
  end.
Ltac frame_walk_with HF := cbv zeta; repeat (frame_step HF; cbv zeta).
Ltac frame_walk :=
  match goal with HF : Frame _ ?J |- pres ?J _ => frame_walk_with HF end.

Section engine_operations.
Context {W A : Type}
  `{SegmentFs W, DesktopActivitySource W, ActivityHost W, PauseStore W, CaptureWorld W, SetupAuth A}.

Notation engine := (Engine W A).
Notation eng := (M (Engine W A)).

Context (s : Z) (J : engine → Prop) (HF : Frame s J).

Lemma fr_clear_source_preview k : pres J (clear_source_preview k).
Proof. apply (fr_fields _ _ HF). by destruct k. Qed.
#[local] Hint Resolve fr_clear_source_preview : frame.

Lemma fr_refresh_health : pres J refresh_health.
Proof. unfold refresh_health, health_dump. frame_walk. Qed.

Lemma fr_clear_previews : pres J clear_previews.
Proof. unfold clear_previews. frame_walk. Qed.

Lemma fr_fault_transition kind prev cur force : pres J (handle_fault_transition kind prev cur force).
Proof. unfold handle_fault_transition. frame_walk. Qed.

Lemma fr_storage_fault d : pres J (note_storage_fault d).
Proof. unfold note_storage_fault. frame_walk. Qed.

Lemma fr_clear_storage : pres J clear_storage_fault.
Proof. unfold clear_storage_fault. frame_walk. Qed.
#[local] Hint Resolve fr_refresh_health fr_clear_previews fr_fault_transition fr_storage_fault
  fr_clear_storage : frame.

Lemma fr_attempt_clear : pres J attempt_clear_storage.
Proof. unfold attempt_clear_storage. frame_walk. Qed.

Lemma fr_mark_success k : pres J (mark_source_success k).
Proof. unfold mark_source_success. frame_walk. Qed.

Lemma fr_record_report r : pres J (record_report r).
Proof. unfold record_report. frame_walk. Qed.
#[local] Hint Resolve fr_attempt_clear fr_mark_success fr_record_report : frame.

Lemma fr_source_report r : pres J (apply_source_report r).
Proof. unfold apply_source_report. frame_walk. Qed.
#[local] Hint Resolve fr_source_report : frame.

Lemma fr_encoder_error r : pres J (apply_encoder_error r).
Proof. unfold apply_encoder_error. frame_walk. Qed.

Lemma fr_source_error k r : pres J (apply_source_error k r).
Proof. unfold apply_source_error. frame_walk. Qed.

Lemma fr_source_state k : pres J (source_state k).
Proof. unfold source_state. frame_walk. Qed.
#[local] Hint Resolve fr_encoder_error fr_source_error fr_source_state : frame.

Lemma fr_fold : pres J fold_source_states.
Proof. unfold fold_source_states. frame_walk. Qed.

Lemma fr_renew : pres J renew_artifact_id.
Proof. unfold renew_artifact_id, generate_artifact_id. frame_walk. Qed.
#[local] Hint Resolve fr_fold fr_renew : frame.

Lemma fr_unique key : pres J (ensure_unique_artifact_id key).
Proof.
  unfold ensure_unique_artifact_id. generalize 100%nat. intros n. apply pres_ask_bind. intros e _.
  destruct (e_current e); [|apply pres_ret]. induction n as [|n IH]; cbn [unique_id_tries]; frame_walk.
Qed.

Lemma fr_flush_rows rs : pres J (flush_rows rs).
Proof. induction rs as [|row rs IH]; cbn [flush_rows]; frame_walk. Qed.
#[local] Hint Resolve fr_unique fr_flush_rows : frame.

Lemma fr_flush : pres J flush_activity_queue.
Proof. unfold flush_activity_queue. frame_walk. Qed.
#[local] Hint Resolve fr_flush : frame.

Lemma fr_append_row row : pres J (append_activity_row row).
Proof. unfold append_activity_row. frame_walk. Qed.

Lemma fr_append_rows rs : pres J (append_rows rs).
Proof. apply pres_for_each, fr_append_row. Qed.
#[local] Hint Resolve fr_append_rows : frame.

Lemma fr_attach_segment t dir : attachable s J t → pres J (attach_segment (segment_for t s) dir).
Proof.
  intros Ht. unfold attach_segment. repeat (apply pres_bind; [by apply (fr_world _ _ HF); constructor|]; intros ?).
  apply pres_bind; [by apply Ht|]. intros _. auto with frame.
Qed.
#[local] Hint Resolve fr_attach_segment : frame.

Lemma fr_open_segment t : attachable s J t → pres J (open_segment_key (segment_for t s)).
Proof. intros Ht. unfold open_segment_key. frame_walk. Qed.
#[local] Hint Resolve fr_open_segment : frame.

Lemma fr_seal seg : pres J (seal_segment seg).
Proof. unfold seal_segment, finalize_screen_encoder. frame_walk. Qed.
#[local] Hint Resolve fr_seal : frame.

Context (HC : Clocked s J).

Lemma fr_open_current : pres J open_current_segment.
Proof. unfold open_current_segment. frame_walk. Qed.

Lemma fr_adopt : pres J adopt_current_segment.
Proof. unfold adopt_current_segment. frame_walk. Qed.

#[local] Hint Resolve fr_open_current fr_adopt : frame.

Lemma fr_rotate_loop fuel closing now : attachable s J now → pres J (rotate_loop fuel closing now).
Proof.
  intros Hnow. induction fuel as [|fuel IH]; cbn [rotate_loop]; frame_walk.
  apply fr_open_segment, HC.
Qed.
#[local] Hint Resolve fr_rotate_loop : frame.

Lemma fr_rotate closing : pres J (rotate_segments closing).
Proof. unfold rotate_segments. frame_walk. Qed.
#[local] Hint Resolve fr_rotate : frame.

Lemma fr_ensure : pres J ensure_segment_for_now.
Proof. unfold ensure_segment_for_now, rotate_if_needed. frame_walk. Qed.
#[local] Hint Resolve fr_ensure : frame.

Lemma fr_write_audio chunk : pres J (write_audio_chunk chunk).
Proof. unfold write_audio_chunk. frame_walk. Qed.

Lemma fr_mark_encoder :
  pres J (modify (λ e : engine, set_e_current (mark_encoder_open <$> e_current e) e)).
Proof.
  intros e He. cbn. destruct (e_current e) as [seg|] eqn:Hseg; cbn.
  - by apply (fr_recount _ _ HF e seg).
  - by apply (fr_close _ _ HF).
Qed.
#[local] Hint Resolve fr_write_audio fr_mark_encoder : frame.

Lemma fr_encode_frame frame : pres J (encode_screen_frame frame).
Proof.
  unfold encode_screen_frame. intros e He. rewrite bind_run. cbn [ask gets fst snd].
  destruct (e_current e) as [seg|] eqn:Hseg; [|done]. rewrite bind_run. cbn [modify fst snd].
  match goal with |- J (?m _).2 => cut (pres J m) end.
  { intros Hm. apply Hm. by apply (fr_recount _ _ HF e seg). }
  unfold encode_or_fault. frame_walk; apply fr_mark_encoder.
Qed.

Lemma fr_audio_preview k c a : pres J (update_audio_preview k c a).
Proof. unfold update_audio_preview. frame_walk. Qed.

Lemma fr_screen_preview f a : pres J (update_screen_preview f a).
Proof. unfold update_screen_preview. frame_walk. Qed.
#[local] Hint Resolve fr_encode_frame fr_audio_preview fr_screen_preview : frame.

Lemma fr_handle_event ev : pres J (handle_event ev).
Proof. unfold handle_event. frame_walk. Qed.
#[local] Hint Resolve fr_handle_event : frame.

Lemma fr_drain : pres J drain_events.
Proof. unfold drain_events. frame_walk. Qed.

Lemma fr_increment k : pres J (increment_generation k).
Proof. unfold increment_generation. frame_walk. Qed.

Lemma fr_now_ms : pres J now_ms_from_us.
Proof. unfold now_ms_from_us. frame_walk. Qed.
#[local] Hint Resolve fr_drain fr_increment fr_now_ms : frame.

Lemma fr_stop_source k : pres J (stop_source k).
Proof. unfold stop_source. frame_walk. Qed.

Lemma fr_retry_seal seal : pres J (retry_seal seal).
Proof. unfold retry_seal. frame_walk. Qed.
#[local] Hint Resolve fr_stop_source fr_retry_seal : frame.

Lemma fr_service : pres J service_storage.
Proof. unfold service_storage. frame_walk. Qed.

Lemma fr_pause_capture : pres J pause_capture.
Proof. unfold pause_capture. frame_walk. Qed.

Lemma fr_record_owner owner : pres J (record_owner_pause owner).
Proof. unfold record_owner_pause. frame_walk. Qed.

Lemma fr_display : pres J on_display_changed.
Proof. unfold on_display_changed. frame_walk. Qed.

(** Desktop activity is started by the pump itself, when it may run. *)
Lemma fr_pump_activity :
  (∀ e, J e → desktop_activity_may_run e = true → pres J (world das_start)) → pres J pump_desktop_activity.
Proof.
  intros Hstart. unfold pump_desktop_activity. apply pres_ask_bind. intros e He.
  destruct (desktop_activity_may_run e) eqn:Hmay; cbn [negb]; [|apply pres_ret].
  pose proof (Hstart e He Hmay) as Hdas. apply pres_bind; [|intros ?; frame_walk].
  apply pres_when, pres_bind; [exact Hdas|]. intros ?. apply pres_ret.
Qed.

Lemma fr_stop : pres J stop.
Proof. unfold stop. frame_walk. Qed.

Lemma fr_set_rules rules : pres J (engine_set_exclusion_rules rules).
Proof. unfold engine_set_exclusion_rules. frame_walk. Qed.

(** Starting a source whose start keeps [J], or that is switched off. *)
Lemma fr_start_source k :
  (∀ e, J e → enabled e k = true → ∀ g, pres J (world (start_call k g))) → pres J (start_source k).
Proof.
  intros Hstart. unfold start_source. apply pres_ask_bind. intros e He.
  destruct (enabled e k) eqn:Hen; cbn [negb]; [|apply pres_ret].
  apply pres_bind; [auto with frame|]. intros _. apply pres_bind; [apply pres_gets|]. intros e1.
  apply pres_bind; [|intros []; auto with frame]. apply (Hstart e He Hen (pk_get (e_generations e1) k)).
Qed.
End engine_operations.

#[export] Hint Resolve fr_clear_source_preview fr_refresh_health fr_clear_previews fr_storage_fault
  fr_attempt_clear fr_source_report fr_source_error fr_fold fr_append_rows fr_adopt fr_rotate fr_ensure
  fr_handle_event fr_drain fr_increment fr_now_ms fr_stop_source fr_service fr_pause_capture
  fr_record_owner fr_display fr_stop fr_set_rules : frame.
