(* ===== verification/EngineSteps.v ===== *)
(** * Engine runs

    Everything that can happen to an engine as a step relation, the states
    reachable from its construction, and the standing invariant in all of
    them. *)
From Stdlib Require Import Ascii String.
From S2P Require Import Prelude RustStr RustFloat Model Segment AppState Lifecycle Recovery Exclusion.
From S2P Require Import PauseStore DesktopActivity EngineState Engine EngineInv.

Local Open Scope list_scope.

Section reachability.
Context {W A : Type}
  `{SegmentFs W, DesktopActivitySource W, ActivityHost W, PauseStore W, CaptureWorld W, SetupAuth A}.

Notation engine := (Engine W A).

(** Everything that can happen to an engine: its public operations, and the
    writes of other threads to the cells it shares with them. *)
Inductive EngineInput : Type :=
| InStart | InStop | InPump | InTick
| InEvent (event : CaptureEvent)
| InCommand (command : EngineCommand)
| InChoices (setup : SetupSnapshot)
| InRules (rules : ExclusionRules)
| InHold
| InOpenProof (kind : SourceKind)
| InCloseProof
| InBeginStream (kind : SourceKind)
| InEmit (kind : SourceKind) (generation : Z) (chunk : CaptureChunk)
| InEmitFrame (generation : Z) (frame : ScreenFrame)
| InWorld (w : W)
| InSync (s : SyncSnapshot)
| InAuth (a : A)
| InHealth (d : HealthDump).

Definition engine_do (input : EngineInput) : M engine unit :=
  match input with
  | InStart => start
  | InStop => stop
  | InPump => pump
  | InTick => tick
  | InEvent event => handle_event event
  | InCommand command => apply_command command
  | InChoices setup => set_source_choices setup
  | InRules rules => engine_set_exclusion_rules rules
  | InHold => hold_owner_pause_in
  | InOpenProof kind => _ ← open_proof_consumer kind; mret tt
  | InCloseProof => _ ← close_proof_consumer; mret tt
  | InBeginStream kind => sink_begin_stream kind
  | InEmit kind generation chunk => sink_emit kind generation chunk
  | InEmitFrame generation frame => sink_emit_screen_frame generation frame
  | InWorld w => modify (set_e_world w)
  | InSync s => modify (set_e_sync s)
  | InAuth a => modify (set_e_auth a)
  | InHealth d => modify (set_e_shared_health d)
  end.

Inductive engine_step (e : engine) : engine → Prop :=
| engine_takes input : engine_step e (engine_do input e).2.

Definition reachable (config : EngineConfig) (outcomes : list RecoveryOutcome) (w : W) (e : engine) : Prop :=
  rtc engine_step (new_engine config outcomes w) e.

Lemma insert_seals_core keys e :
  core e → core (for_each keys
    (λ key, modify (λ e : engine, set_e_pending_seals (seal_insert key None (e_pending_seals e)) e)) e).2.
Proof. revert e. induction keys as [|k keys IH]; intros e He; [done|]. cbn. rewrite bind_run. by apply IH. Qed.

Lemma insert_seals_fields keys e :
  let e' := (for_each keys
    (λ key, modify (λ e : engine, set_e_pending_seals (seal_insert key None (e_pending_seals e)) e)) e).2 in
  e_write_stalled e' = e_write_stalled e ∧ e_pending_rows e' = e_pending_rows e.
Proof. revert e. induction keys as [|k keys IH]; intros e; [done|].
  exact (IH (set_e_pending_seals (seal_insert k None (e_pending_seals e)) e)).
Qed.

Lemma new_engine_inv config outcomes w :
  in_u32 (breaker_threshold (cfg_lifecycle config)) → einv true (new_engine config outcomes w).
Proof.
  intros Hcfg. unfold new_engine. destruct (system_nanos w) as [nanos w'].
  assert (Hcore : core (initial_engine config w' nanos : engine)).
  { split_and!; [done|by intros []|]. intros k. split; [|by destruct k].
    destruct k; by apply lifecycle_ok_new. }
  rewrite bind_run. pose proof (insert_seals_core (deferred_keys outcomes) _ Hcore) as Hcore'.
  pose proof (insert_seals_fields (deferred_keys outcomes) (initial_engine config w' nanos : engine)) as [Hs Hr].
  revert Hcore' Hs Hr. generalize (for_each (deferred_keys outcomes)
    (λ key, modify (λ e : engine, set_e_pending_seals (seal_insert key None (e_pending_seals e)) e))
    (initial_engine config w' nanos)).2.
  intros e Hcore' Hs Hr. rewrite bind_run. cbn [ask gets fst snd]. rewrite bind_run. apply pres_refresh_health.
  destruct (e_pending_seals e) eqn:Hp; cbn [list_is_empty negb when].
  - split; [exact Hcore'|]. intros _. by split_and!.
  - by apply note_storage_fault_inv.
Qed.

Lemma pres_engine_do input : pres (einv true) (engine_do input).
Proof.
  destruct input; cbn [engine_do];
    unfold open_proof_consumer, close_proof_consumer, sink_begin_stream, sink_emit, sink_emit_screen_frame;
    repeat match goal with |- pres _ (mbind _ _) => apply pres_bind; [|intros ?] end;
    lazymatch goal with
    | |- pres _ (mret _) => apply pres_ret
    | |- pres _ (gets _) => apply pres_gets
    | |- pres _ clear_previews => apply pres_clear_previews
    | |- pres _ (modify _) => by apply pres_modify_frame
    | |- _ => by auto with einv
    end.
Qed.

Lemma engine_step_inv e e' : engine_step e e' → einv true e → einv true e'.
Proof. intros [input]. apply pres_engine_do. Qed.

Lemma reachable_inv config outcomes w e :
  in_u32 (breaker_threshold (cfg_lifecycle config)) → reachable config outcomes w e → einv true e.
Proof.
  intros Hcfg Hr. pose proof (new_engine_inv config outcomes w Hcfg) as Hinv.
  unfold reachable in Hr. induction Hr; [done|]. eauto using engine_step_inv.
Qed.

Lemma pk_values_elem {B} (m : PerKind (option B)) b :
  b ∈ pk_values m ↔ ∃ k, pk_get m k = Some b.
Proof.
  unfold pk_values. rewrite list_elem_of_omap. split; [naive_solver|].
  intros [k Hk]. exists k. split; [|done]. destruct k; set_solver.
Qed.

(** The reads of [health_dump] the theorems below are about. *)
Lemma health_dump_fields (e : engine) :
  let d := (health_dump e).1 in
  app_state d = phase (e_state e) ∧ dump_sources d = pk_values (e_reports e) ∧
  storage d = mkStorageHealth <$> e_storage_fault e ∧
  pause d = pause_snapshot (e_state e) (now_epoch_secs (e_world e)).1 ∧
  dump_engine_ready d = engine_ready (e_state e).
Proof. by split_and!. Qed.
End reachability.
Arguments EngineInput : clear implicits.
