(* ===== verification/EngineDrive.v ===== *)
(** * Switches, pauses and rotation

    The engine's operations that start sources, as clients of the frames, and
    what follows for switched-off sources, for an owner's pause and for
    segment rotation. *)
From Stdlib Require Import Ascii String.
From S2P Require Import Prelude RustStr RustFloat Model Segment AppState Lifecycle Recovery Exclusion.
From S2P Require Import PauseStore DesktopActivity EngineState Engine EngineInv EngineFrame EngineSteps.

Local Open Scope list_scope.

(** ** Operations that may start a source *)

Section drive.
Context {W A : Type}
  `{SegmentFs W, DesktopActivitySource W, ActivityHost W, PauseStore W, CaptureWorld W, SetupAuth A}.

Notation engine := (Engine W A).
Notation eng := (M (Engine W A)).

Definition is_switch (event : AppEvent) : bool := match event with SourceEnabled _ _ => true | _ => false end.

Context (s : Z) (J : engine → Prop) (HF : Frame s J) (HC : Clocked s J).
Context (switchable : SourceKind → bool → bool)
  (Hstart : ∀ k, pres J (start_source k))
  (Hevent : ∀ event, is_switch event = false → pres J (reduce_event event))
  (Hswitch : ∀ k b, switchable k b = true → pres J (reduce_event (SourceEnabled k b)))
  (Hpump : pres J pump_desktop_activity)
  (Hallow : ∀ on, switchable DesktopActivity on = true → pres J (modify (set_e_activity_allowed on)))
  (Hthrough : ∀ on, pres J (modify (set_e_through_pause on)))
  (Hfollow : ∀ e, J e → switchable DesktopActivity
     (desktop_activity_runs (e_activity_allowed e) (enabled e Screen) (e_through_pause e)) = true).

#[local] Hint Resolve Hstart Hpump Hthrough : frame.
#[local] Hint Extern 1 (pres _ (reduce_event _)) =>
  first [apply Hevent; reflexivity | apply Hswitch; by auto] : frame.

Ltac drive_walk :=
  cbv zeta;
  repeat (match goal with
          | |- pres _ (reduce_event _) => first [apply Hevent; reflexivity | apply Hswitch; by auto]
          | |- pres _ (modify (set_e_activity_allowed _)) => apply Hallow; by auto
          | |- pres _ (modify (set_e_through_pause _)) => apply Hthrough
          | |- _ => frame_step HF
          end; cbv zeta).

Lemma dr_retry : pres J retry_due_sources.
Proof. unfold retry_due_sources. drive_walk. Qed.

Lemma dr_resume : pres J resume_capture.
Proof. unfold resume_capture. drive_walk. Qed.
#[local] Hint Resolve dr_retry dr_resume : frame.

Lemma dr_settle a b c : pres J (settle_pause a b c).
Proof. unfold settle_pause. drive_walk. Qed.
#[local] Hint Resolve dr_settle : frame.

Lemma dr_auto_resume : pres J auto_resume_if_due.
Proof. unfold auto_resume_if_due. drive_walk. Qed.
#[local] Hint Resolve dr_auto_resume : frame.

Lemma dr_tick : pres J tick.
Proof. unfold tick, rotate_if_needed. drive_walk. Qed.
#[local] Hint Resolve dr_tick : frame.

Lemma dr_pump : pres J pump.
Proof. unfold pump. drive_walk. Qed.

Lemma dr_apply_enabled k on : switchable k on = true → pres J (apply_source_enabled k on).
Proof. intros Hs. unfold apply_source_enabled. destruct on; cbn [negb]; drive_walk. Qed.

Lemma dr_follow : pres J follow_desktop_activity.
Proof.
  unfold follow_desktop_activity. apply pres_ask_bind. intros e He. cbv zeta.
  pose proof (dr_apply_enabled _ _ (Hfollow e He)) as Hwanted. destruct (negb _); [exact Hwanted|]. clear Hwanted. drive_walk.
Qed.
#[local] Hint Resolve dr_apply_enabled dr_follow : frame.

Lemma dr_set_enabled k on : switchable k on = true → pres J (set_source_enabled k on).
Proof. intros Hs. unfold set_source_enabled. destruct k; drive_walk. Qed.

Lemma dr_through_pause on : pres J (set_desktop_activity_through_pause on).
Proof. unfold set_desktop_activity_through_pause. drive_walk. Qed.
#[local] Hint Resolve dr_set_enabled dr_through_pause : frame.

Lemma dr_start : pres J start.
Proof. unfold start. drive_walk. Qed.

Lemma dr_hold : pres J hold_owner_pause_in.
Proof. unfold hold_owner_pause_in. drive_walk. Qed.

Definition command_allowed (command : EngineCommand) : bool :=
  match command with CmdSetSourceEnabled k on => switchable k on | _ => true end.

Lemma dr_command command : command_allowed command = true → pres J (apply_command command).
Proof.
  intros Hc. unfold apply_command, pause_command, rotate_if_needed.
  destruct command; cbn [command_allowed] in Hc; drive_walk.
Qed.

Lemma dr_choices setup :
  (∀ k b, switchable k b = true) → pres J (set_source_choices setup).
Proof. intros Hs. unfold set_source_choices. drive_walk. Qed.

(** What an input must satisfy for [J] to survive it. *)
Definition input_allowed (input : EngineInput W A) : Prop :=
  match input with
  | InCommand command => command_allowed command = true
  | InChoices _ => ∀ k b, switchable k b = true
  | InWorld w => pres J (modify (set_e_world w))
  | _ => True
  end.

Lemma dr_do input : input_allowed input → pres J (engine_do input).
Proof.
  destruct input; cbn [engine_do input_allowed]; intros Hin;
    unfold open_proof_consumer, close_proof_consumer, sink_begin_stream, sink_emit, sink_emit_screen_frame;
    lazymatch goal with
    | |- pres _ start => apply dr_start
    | |- pres _ pump => apply dr_pump
    | |- pres _ tick => apply dr_tick
    | |- pres _ (apply_command _) => by apply dr_command
    | |- pres _ (set_source_choices _) => by apply dr_choices
    | |- pres _ hold_owner_pause_in => apply dr_hold
    | |- pres _ (modify (set_e_world _)) => exact Hin
    | |- _ => by drive_walk
    end.
Qed.
End drive.

(** ** Rotation *)

Section rotation.
Context {W A : Type}
  `{SegmentFs W, DesktopActivitySource W, ActivityHost W, PauseStore W, CaptureWorld W, SetupAuth A}.

Notation engine := (Engine W A).
Notation eng := (M (Engine W A)).

(** Every open segment satisfies [P]; a frame for any [P] on its key. *)
Definition current_is (s : Z) (P : SegmentKey → Prop) (e : engine) : Prop :=
  e_segment_secs e = s ∧ ∀ seg, e_current e = Some seg → P (seg_key seg).

Lemma current_is_frame s P : Frame s (current_is s P).
Proof.
  split.
  - by intros e [].
  - intros f Hf e [Hs Hc]. unfold current_is. specialize (Hf e). unfold okey in Hf. injection Hf as _ _ Hs' Hc' _ _ _.
    cbn. by rewrite Hs', Hc'.
  - intros B m _ e He. exact He.
  - intros B m _ e He. exact He.
  - intros event _ e He. exact He.
  - by intros e He.
  - intros e [Hs _]. split; [exact Hs|done].
  - intros e seg seg' [Hs Hc] Hseg Hk. split; [exact Hs|]. intros ? [= <-]. rewrite Hk. by apply Hc.
Qed.

Lemma current_is_attach s (P : SegmentKey → Prop) t : P (segment_for t s) → attachable s (current_is s P) t.
Proof. intros HP seg Hk e [Hs _]. split; [exact Hs|]. intros ? [= <-]. by rewrite Hk. Qed.

(** Keys of aligned windows that a [u64] clock can name. *)
Definition aligned (s : Z) (k : SegmentKey) : Prop := ∃ t, in_u64 t ∧ k = segment_for t s.

Lemma aligned_clocked s :
  (∀ w : W, in_u64 (now_epoch_secs w).1) → Clocked s (current_is s (aligned s)).
Proof.
  intros Hclock. split; intros; apply current_is_attach; eexists; (split; [|done]); auto with width.
Qed.

Lemma current_is_impl s (P Q : SegmentKey → Prop) e :
  (∀ k, P k → Q k) → current_is s P e → current_is s Q e.
Proof. intros HPQ [Hs Hc]. split; [done|]. eauto. Qed.

(** Two states around a rotation: some segment may be open; none is. *)
Notation some_open s := (current_is s (λ _, True)).
Notation none_open s := (current_is s (λ _, False)).

Lemma open_after_seal s t e :
  none_open s e → current_is s (λ k, k = segment_for t s) (open_segment_key (segment_for t s) e).2.
Proof.
  intros He. apply (fr_open_segment s _ (current_is_frame s _)); [by apply current_is_attach|].
  revert He. by apply current_is_impl.
Qed.

Lemma triple_close {B} s seg (k : eng B) (Q : B → engine → Prop) :
  triple (none_open s) k Q →
  triple (some_open s) (modify (set_e_current None) ;; seal_segment seg ;; k) Q.
Proof.
  intros Hk e [Hs _]. rewrite !bind_run. apply Hk, (fr_seal s _ (current_is_frame s _)). by split.
Qed.

Lemma triple_rows {B} s (m : M (SchedIO W) (list DesktopActivityRow)) (k : eng B) Q :
  triple (some_open s) k Q → triple (some_open s) (rs ← scheduler m; append_rows rs ;; k) Q.
Proof.
  intros Hk e He. rewrite !bind_run. by apply Hk, (fr_append_rows s _ (current_is_frame s _)).
Qed.

Lemma triple_call {B C} s (m : M W C) (k : eng B) Q :
  triple (some_open s) k Q → triple (some_open s) (world m ;; k) Q.
Proof. intros Hk e He. rewrite bind_run. by apply Hk. Qed.

Lemma next_window s b now k :
  (0 < s)%Z → in_u64 now → aligned s k → b = boundary_epoch_secs k → (b ≤ now)%Z →
  should_rotate k now s = true →
  (b + s ≤ now)%Z ∧ wrap_u64 (b + s) = (b + s)%Z ∧ boundary_epoch_secs (segment_for (b + s) s) = (b + s)%Z ∧
  in_u64 (b + s).
Proof.
  intros Hs Hnow (t & Ht & ->) -> Hle Hrot. pose proof (segment_for_window t s) as [Hb Hw].
  destruct (segment_for_range t s Ht) as [Hr _]. rewrite Z.max_l in Hb, Hw by lia.
  generalize dependent (segment_for t s). intros k Hle Hrot Hb Hw Hr. assert (Hnext : (boundary_epoch_secs k + s ≤ now)%Z).
  { apply Z.le_ngt. intros Hlt. apply should_rotate_true in Hrot. apply Hrot, segment_for_iff.
    rewrite Z.max_l by lia. by split. }
  assert (Hin : in_u64 (boundary_epoch_secs k + s)) by widths.
  split_and!; [done|by apply wrap_u64_id| |done].
  rewrite Hb. unfold segment_for; cbn. rewrite Z.max_l by lia.
  replace (index k * s + s)%Z with ((index k + 1) * s)%Z by lia. by rewrite Z.div_mul by lia.
Qed.

(** Iterations the loop still needs. *)
Definition rounds (s now : Z) (e : engine) : nat :=
  match e_current e with
  | None => 1
  | Some seg => S (S (Z.to_nat ((now - boundary_epoch_secs (seg_key seg)) / s)))
  end.

Lemma rounds_decrease s now b e fuel :
  (0 < s)%Z → (b + s ≤ now)%Z → (S (S (Z.to_nat ((now - b) / s))) ≤ S fuel)%nat →
  current_is s (λ k, boundary_epoch_secs k = b + s)%Z e → (rounds s now e ≤ fuel)%nat.
Proof.
  intros Hs Hle Hf [_ Hc]. assert (Hq : ((now - b) / s = (now - (b + s)) / s + 1)%Z).
  { replace (now - b)%Z with (now - (b + s) + 1 * s)%Z by lia. by rewrite Z.div_add by lia. }
  assert (0 ≤ (now - (b + s)) / s)%Z by (apply Z.div_pos; lia).
  unfold rounds. destruct (e_current e) as [seg|]; [rewrite (Hc seg eq_refl)|]; lia.
Qed.

Lemma rotate_loop_ends s closing now fuel (e : engine) :
  (0 < s)%Z → in_u64 now → current_is s (aligned s) e → (rounds s now e ≤ fuel)%nat →
  (rotate_loop fuel closing now e).1 = true ∧
  current_is s (λ k, window_contains k s now) (rotate_loop fuel closing now e).2.
Proof.
  intros Hs Hnow. revert e. induction fuel as [|fuel IH]; intros e [Hes Hal] Hf.
  { unfold rounds in Hf. destruct (e_current e); lia. }
  cbn [rotate_loop]. rewrite bind_run. cbn [ask gets fst snd]. unfold rounds in Hf.
  destruct (e_current e) as [seg|] eqn:Hcur.
  2:{ split; [done|]. split; [done|]. intros seg Hseg. change (e_current e = Some seg) in Hseg. congruence. }
  rewrite Hes. specialize (Hal seg eq_refl).
  destruct (should_rotate (seg_key seg) now s) eqn:Hrot; cbn [negb].
  2:{ apply should_rotate_false in Hrot. rewrite Z.max_l in Hrot by lia.
      split; [done|]. split; [done|]. intros seg' Hseg. change (e_current e = Some seg') in Hseg. congruence. }
  assert (Hhere : ∀ k, k = segment_for now s → window_contains k s now).
  { intros k ->. pose proof (segment_for_window now s) as Hw. by rewrite Z.max_l in Hw by lia. }
  match goal with |- (?m e).1 = true ∧ _ =>
    cut (triple (some_open s) m (λ b e', b = true ∧ current_is s (λ k, window_contains k s now) e'));
    [intros Ht; by apply Ht|] end.
  clear e Hes Hcur. destruct (now <? boundary_epoch_secs (seg_key seg))%Z eqn:Hlt.
  - apply triple_rows, triple_call, triple_close. intros e He. rewrite bind_run. cbn [ask gets fst snd]. rewrite bind_run. split; [done|].
    pose proof (proj1 He) as ->. destruct (closing || segment_wanted e); cbn [when].
    + eapply current_is_impl; [exact Hhere|]. by apply open_after_seal.
    + revert He. by apply current_is_impl.
  - apply Z.ltb_ge in Hlt.
    destruct (next_window s _ now (seg_key seg) Hs Hnow Hal eq_refl Hlt Hrot) as (Hle & -> & Hb & Hin).
    apply triple_rows, triple_close. intros e He. rewrite bind_run. cbn [ask gets fst snd].
    pose proof (proj1 He) as Hes. destruct (closing || segment_wanted e).
    2:{ split; [done|]. revert He. by apply current_is_impl. }
    rewrite Hes, bind_run. pose proof (open_after_seal s (boundary_epoch_secs (seg_key seg) + s) e He) as Hnew.
    apply IH; [|eapply rounds_decrease; [done|exact Hle|exact Hf|]]; revert Hnew; apply current_is_impl; intros k ->.
    + by eexists.
    + done.
Qed.

Lemma reachable_aligned config outcomes w e :
  (∀ w : W, in_u64 (now_epoch_secs w).1) → reachable config outcomes w e →
  current_is (cfg_segment_secs config) (aligned (cfg_segment_secs config)) e.
Proof.
  intros Hclock Hr. set (s := cfg_segment_secs config).
  assert (Hnew : current_is s (aligned s) (new_engine config outcomes w : engine)).
  { unfold new_engine. destruct (system_nanos w) as [nanos w'].
    match goal with |- current_is _ _ (?m _).2 => cut (pres (current_is s (aligned s)) m) end.
    { intros Hm. apply Hm. by split. }
    pose proof (current_is_frame s (aligned s)) as HF. frame_walk. }
  unfold reachable in Hr. induction Hr as [|e1 e2 e3 [input] _ IH]; [done|]. apply IH.
  revert Hnew. apply (dr_do s _ (current_is_frame s _) (aligned_clocked s Hclock) (λ _ _, true)); try done.
  - intros k. apply (fr_start_source s _ (current_is_frame s _)). by intros e _ _ g e' He'.
  - by intros event _ e He.
  - by intros k b _ e He.
  - apply (fr_pump_activity s _ (current_is_frame s _)). by intros e _ _ e' He'.
  - by intros on _ e He.
  - by intros on e He.
  - destruct input; try done; [by destruct command|by intros e He].
Qed.
End rotation.

(** ** A source that is switched off, and an owner's pause *)

Section silence.
Context {W A : Type}
  `{SegmentFs W, DesktopActivitySource W, ActivityHost W, PauseStore W, CaptureWorld W, SetupAuth A}.

Notation engine := (Engine W A).
Notation eng := (M (Engine W A)).

(** A property [I] of the outside world, kept by every call that is not the
    start of a capture source: [I] can only be lost by a start. *)
Context (I : W → Prop) (Hroutine : ∀ B (m : M W B), routine m → pres I m).

(** Reducer facts, what desktop activity is allowed and [I], nothing about
    segments. *)
Definition holds_of (s : Z) (R : StateMachine → bool → bool → Prop) (e : engine) : Prop :=
  e_segment_secs e = s ∧ R (e_state e) (e_activity_allowed e) (e_through_pause e) ∧ I (e_world e).

Lemma holds_of_frame s R :
  (∀ event m a t, housekeeping event = true → R m a t → R (apply_event event m) a t) → Frame s (holds_of s R).
Proof.
  intros HR. split.
  - by intros e [].
  - intros f Hf e He. unfold holds_of. specialize (Hf e). unfold okey in Hf. injection Hf as Hm Hw Hs' _ _ Ha Ht.
    cbn. by rewrite Hs', Hm, Hw, Ha, Ht.
  - intros B m Hm e (? & ? & ?). split_and!; [done|done|]. by apply (Hroutine _ m).
  - intros B m Hm e (? & ? & ?). split_and!; [done|done|].
    apply (Hm I); [|done]. intros C c Hc. by apply Hroutine, RoutineSched.
  - intros event Hev e (? & ? & ?). split_and!; [done| |done]. by apply HR.
  - by intros e He.
  - by intros e He.
  - by intros e seg seg' He _ _.
Qed.

Lemma holds_of_clocked s R : Clocked s (holds_of s R).
Proof. by split; intros; intros seg _ e' He'. Qed.

Lemma holds_of_reduce s (R : StateMachine → bool → bool → Prop) event :
  (∀ m a t, R m a t → R (apply_event event m) a t) → pres (holds_of s R) (reduce_event event).
Proof. intros HR e (? & ? & ?). split_and!; [done| |done]. by apply HR. Qed.

Lemma holds_of_world {B} s R (m : M W B) : pres I m → pres (holds_of s R) (world m).
Proof. intros Hm e (? & ? & ?). split_and!; [done|done|]. by apply Hm. Qed.

(** *** Switched off *)

(** Switched off; for desktop activity, also not to be switched on with the
    screen. *)
Definition off (k : SourceKind) (m : StateMachine) (allowed through : bool) : Prop :=
  is_source_enabled m k = false ∧ (k = DesktopActivity → allowed = false).
Definition keeps_off (k k' : SourceKind) (b : bool) : bool := negb (bool_decide (k' = k) && b).

Lemma off_event k event m a t :
  (∀ b, event ≠ SourceEnabled k b) → off k m a t → off k (apply_event event m) a t.
Proof.
  intros Hne [Hoff Ha]. split; [|done]. revert Hoff. destruct m.
  destruct event as [|[]| | | | |[[] ? ?]|[]| |k' b]; try (by destruct k).
  assert (k' ≠ k) by naive_solver. by destruct k, k'.
Qed.

Lemma off_switch k k' b m a t : keeps_off k k' b = true → off k m a t → off k (apply_event (SourceEnabled k' b) m) a t.
Proof.
  intros Hs Hoff. destruct (decide (k' = k)) as [->|Hne].
  - unfold keeps_off in Hs. rewrite bool_decide_eq_true_2 in Hs by done. destruct b; [done|].
    split; [|apply Hoff]. destruct m. by destruct k.
  - apply off_event; [|done]. naive_solver.
Qed.

Lemma off_frame s k : Frame s (holds_of s (off k)).
Proof. apply holds_of_frame. intros event m a t Hev. apply off_event. by destruct event. Qed.

Context (k : SourceKind) (Hothers : ∀ k' g, k' ≠ k → pres I (start_call k' g)).

(** Starting any source but [k] keeps [I]; [k] itself is not started. *)
Lemma off_start s k' : pres (holds_of s (off k)) (start_source k').
Proof.
  apply (fr_start_source s _ (off_frame s k)). intros e (_ & [Hoff _] & _) Hen g. apply holds_of_world, Hothers.
  intros ->. unfold enabled in Hen. congruence.
Qed.
Lemma off_pump s : pres (holds_of s (off k)) pump_desktop_activity.
Proof.
  apply (fr_pump_activity s _ (off_frame s k)). intros e (_ & [Hoff _] & _) Hmay. apply holds_of_world, (Hothers DesktopActivity 0).
  intros <-. unfold desktop_activity_may_run, enabled in Hmay. by rewrite Hoff in Hmay.
Qed.
Lemma off_allow s on : keeps_off k DesktopActivity on = true → pres (holds_of s (off k)) (modify (set_e_activity_allowed on)).
Proof.
  intros Hs e (? & [? _] & ?). split_and!; [done| |done]. split; [done|]. intros ->. unfold keeps_off in Hs.
  rewrite bool_decide_eq_true_2 in Hs by done. by destruct on.
Qed.
Lemma off_through s on : pres (holds_of s (off k)) (modify (set_e_through_pause on)).
Proof. by intros e (? & ? & ?). Qed.
(** Desktop activity follows the screen only if it is allowed. *)
Lemma off_follow s e : holds_of s (off k) e →
  keeps_off k DesktopActivity (desktop_activity_runs (e_activity_allowed e) (enabled e Screen) (e_through_pause e)) = true.
Proof.
  intros (_ & [_ Ha] & _). unfold keeps_off. case_bool_decide as Hk; [|done]. by rewrite Ha.
Qed.

Lemma off_do s (input : EngineInput W A) :
  input_allowed (holds_of s (off k)) (keeps_off k) input → pres (holds_of s (off k)) (engine_do input).
Proof.
  apply (dr_do s _ (off_frame s k) (holds_of_clocked s _)).
  - apply off_start.
  - intros event Hev. apply holds_of_reduce. intros m a t. apply off_event. by destruct event.
  - intros k' b Hs. apply holds_of_reduce. intros m a t. by apply off_switch.
  - apply off_pump.
  - apply off_allow.
  - apply off_through.
  - apply off_follow.
Qed.

(** The switch itself. *)
Lemma applied_off s (R : bool → Prop) :
  (∀ a, R a → k = DesktopActivity → a = false) →
  triple (holds_of s (λ _ a _, R a)) (apply_source_enabled k false) (λ _, holds_of s (off k)).
Proof.
  intros HR. pose proof (holds_of_frame s (λ _ a _, R a) (λ _ _ _ _ _ Ha, Ha)) as HF.
  pose proof (holds_of_clocked s (λ _ a _, R a)) as HC.
  unfold apply_source_enabled. cbn [negb]. do 4 (apply triple_bind_pres; [by frame_walk|intros _]).
  intros e (Hs & Ha & Hw). rewrite bind_run. apply (fr_source_report s _ (off_frame s k)).
  split_and!; [done| |done]. split; [|by apply HR]. change (is_source_enabled (apply_event (SourceEnabled k false) (e_state e)) k = false).
  destruct (e_state e). by destruct k.
Qed.
Lemma followed_off s :
  k = DesktopActivity →
  triple (holds_of s (λ _ a _, a = false)) follow_desktop_activity (λ _, holds_of s (off k)).
Proof.
  intros Hk e He. unfold follow_desktop_activity. rewrite bind_run. cbn [ask gets fst snd]. cbv zeta.
  pose proof He as (_ & Ha & _). rewrite Ha. cbn [desktop_activity_runs andb negb orb Bool.eqb].
  destruct (enabled e DesktopActivity) eqn:Hen; cbn [negb].
  - rewrite <- Hk. by apply (applied_off s (λ a, a = false)).
  - destruct He as (? & _ & ?). split_and!; [done| |done]. split; [by rewrite Hk|done].
Qed.
Lemma switch_off s : triple (holds_of s (λ _ _ _, True)) (set_source_enabled k false) (λ _, holds_of s (off k)).
Proof.
  pose proof (holds_of_frame s (λ _ _ _, True) (λ _ _ _ _ _ _, Logic.I)) as HF.
  pose proof (off_frame s k) as HFo. unfold set_source_enabled. apply triple_bind_pres; [by frame_walk_with HF|]. intros _.
  apply triple_bind with (λ _, holds_of s (off k)).
  - pose proof (applied_off s (λ _, True)) as Hoff. destruct (decide (k = DesktopActivity)) as [Hd|Hd].
    + pose proof (followed_off s Hd) as Hfol. destruct k; try done. intros e (? & _ & ?). rewrite bind_run. by apply Hfol.
    + pose proof (dr_follow s _ HFo (holds_of_clocked s _) (keeps_off k) (off_start s)) as Hfol.
      assert (pres (holds_of s (off k)) follow_desktop_activity) as Hf.
      { apply Hfol; [|apply off_follow]. intros k' b Hs. apply holds_of_reduce. intros m a t. by apply off_switch. }
      specialize (Hoff ltac:(done)). destruct k; try done. by apply triple_bind with (λ _, holds_of s (off Screen)).
  - intros _. change (pres (holds_of s (off k)) (fold_source_states ;; refresh_health)). frame_walk_with HFo.
Qed.
End silence.

(** *** Held by the owner *)

Section owner_hold.
Context {W A : Type}
  `{SegmentFs W, DesktopActivitySource W, ActivityHost W, PauseStore W, CaptureWorld W, SetupAuth A}.

Notation engine := (Engine W A).
Notation eng := (M (Engine W A)).

Context (I : W → Prop) (Hroutine : ∀ B (m : M W B), routine m → pres I m).
(** The owner's pause [p], whose deadline the clock has not reached. *)
Context (p : OwnerPause)
  (Hearly : ∀ w d, I w → expires_at_epoch_secs p = Some d → ((now_epoch_secs w).1 < d)%Z).

(** Whether the owner may keep desktop activity on through pauses. *)
Context (through : bool) (Hact : through = true → pres I das_start).

Definition held (m : StateMachine) (allowed keeps : bool) : Prop :=
  owner_pause m = Some p ∧ (keeps = true → through = true).
Definition frees (event : AppEvent) : bool := negb (bool_decide (says_owner event = None)).

Lemma held_event event m a t : frees event = false → held m a t → held (apply_event event m) a t.
Proof.
  unfold frees. rewrite negb_false_iff, bool_decide_eq_true. intros He [Hp Ht]. split; [|done]. revert He Hp. destruct m.
  by destruct event as [|[]| | | | |[[] ? ?]|[]| |[] ?].
Qed.

Context (s : Z).
Notation J := (holds_of I s held).

Lemma held_frame : Frame s (J : engine → Prop).
Proof. apply (holds_of_frame I Hroutine). intros event m a t Hev. apply held_event. by destruct event. Qed.

Lemma held_paused (e : engine) : J e → is_paused e = true.
Proof.
  intros (_ & [Hp _] & _). unfold is_paused. rewrite bool_decide_eq_true. apply phase_paused_iff. left.
  rewrite Hp. eauto.
Qed.

Lemma held_through (e : engine) : J e → e_through_pause e = true → through = true.
Proof. intros (_ & [_ Ht] & _). exact Ht. Qed.

Lemma held_may_start (e : engine) k : J e → source_may_start e k = true → k = DesktopActivity ∧ through = true.
Proof.
  intros He. unfold source_may_start. rewrite (held_paused e He). destruct (run_requested _); [|done].
  cbn. rewrite andb_true_iff, bool_decide_eq_true. intros []. eauto using held_through.
Qed.

Lemma held_activity : through = true → pres J (start_source DesktopActivity : eng unit).
Proof. intros Ht. apply (fr_start_source s _ held_frame). intros e _ _ g. by apply holds_of_world, Hact. Qed.

Lemma held_pump : pres J (pump_desktop_activity : eng unit).
Proof.
  apply (fr_pump_activity s _ held_frame). intros e He Hmay. apply holds_of_world, Hact. unfold desktop_activity_may_run in Hmay.
  rewrite (held_paused e He) in Hmay. destruct (negb _); [done|]. apply andb_true_iff in Hmay as [_ Hmay]. by apply (held_through e).
Qed.

Lemma held_retry : pres J (retry_due_sources : eng unit).
Proof.
  unfold retry_due_sources. apply pres_ask_bind. intros e He. rewrite (held_paused e He). apply pres_ret.
Qed.

Lemma held_settle a b c : pres J (settle_pause a b c : eng unit).
Proof.
  pose proof held_frame as HF. pose proof (holds_of_clocked I s held : Clocked s (J : engine → Prop)) as HC.
  unfold settle_pause. apply pres_ask_bind. intros e He. cbv zeta. rewrite (held_paused e He). cbn [negb andb when]. frame_walk.
Qed.

Lemma held_auto_resume : pres J (auto_resume_if_due : eng unit).
Proof.
  intros e He. unfold auto_resume_if_due. rewrite bind_run. cbn [ask gets fst snd world]. rewrite bind_run.
  cbn [ask gets fst snd].
  assert (Hdue : pause_due_to_expire (e_state e) (now_epoch_secs (e_world e)).1 = false).
  { destruct He as (_ & [Hp _] & Hw). unfold pause_due_to_expire. rewrite Hp. cbn.
    destruct (expires_at_epoch_secs p) as [d|] eqn:Hd; [|done]. apply Z.leb_gt. by apply Hearly. }
  change (e_state (set_e_world (now_epoch_secs (e_world e)).2 e)) with (e_state e). rewrite Hdue.
  destruct He as (? & ? & ?). split_and!; [done|done|]. by apply (Hroutine _ now_epoch_secs RoutineSecs).
Qed.

Lemma held_reduce event : frees event = false → pres J (reduce_event event : eng unit).
Proof. intros Hev. apply holds_of_reduce. intros m a t. by apply held_event. Qed.

Lemma held_allow on : pres J (modify (set_e_activity_allowed on) : eng unit).
Proof. by intros e (? & ? & ?). Qed.
Lemma held_set_through on : (on = true → through = true) → pres J (modify (set_e_through_pause on) : eng unit).
Proof. intros Hon e (? & [? _] & ?). by split_and!. Qed.

#[local] Hint Resolve held_pump held_retry held_settle held_auto_resume : frame.

Ltac held_walk :=
  let HF := fresh "HF" in let HC := fresh "HC" in
  pose proof held_frame as HF; pose proof (holds_of_clocked I s held : Clocked s (J : engine → Prop)) as HC;
  cbv zeta;
  repeat (match goal with
          | |- pres _ (reduce_event _) => apply held_reduce; reflexivity
          | |- pres _ (modify (set_e_activity_allowed _)) => apply held_allow
          | |- pres _ (modify (set_e_through_pause _)) => apply held_set_through; done
          | |- _ => frame_step HF
          end; cbv zeta).

Lemma held_tick : pres J (tick : eng unit).
Proof. unfold tick, rotate_if_needed. held_walk. Qed.
#[local] Hint Resolve held_tick : frame.

Lemma held_apply_enabled k on : pres J (apply_source_enabled k on : eng unit).
Proof.
  unfold apply_source_enabled. destruct on; cbn [negb]; [|by held_walk].
  apply pres_bind; [by apply held_reduce|]. intros _. apply pres_ask_bind. intros e He.
  destruct (source_may_start e k) eqn:Hmay; cbn [when]; [|apply pres_ret].
  apply held_may_start in Hmay as [-> Ht]; [|done]. pose proof (held_activity Ht) as Hstart. held_walk.
Qed.
#[local] Hint Resolve held_apply_enabled : frame.

Lemma held_follow : pres J (follow_desktop_activity : eng unit).
Proof.
  unfold follow_desktop_activity. apply pres_ask_bind. intros e He. cbv zeta. pose proof (held_through e He) as Ht.
  destruct (negb _); [by held_walk|]. destruct (_ || _ || _); [apply pres_ret|]. destruct (e_through_pause e); cbn [andb negb]; [|by held_walk].
  pose proof (held_activity (Ht eq_refl)) as Hstart. held_walk.
Qed.
#[local] Hint Resolve held_follow : frame.

Lemma held_start : pres J (start : eng unit).
Proof.
  unfold start. do 2 (apply pres_bind; [by held_walk|]; intros _). apply pres_ask_bind. intros e He.
  rewrite (held_paused e He). pose proof (held_through e He) as Ht. unfold activity_runs_through_pause.
  destruct (e_through_pause e); cbn [andb when]; [pose proof (held_activity (Ht eq_refl)) as Hstart|]; held_walk.
Qed.

(** Inputs that are not the owner's word on the pause. *)
Definition leaves_pause (input : EngineInput W A) : Prop :=
  match input with
  | InCommand (CmdPause Operator _) | InCommand CmdResume | InCommand CmdTogglePause | InHold => False
  | InCommand (CmdSetDesktopActivityThroughPause on) => on = true → through = true
  | InChoices setup => setup_desktop_activity_through_pause setup = true → through = true
  | InWorld w => I w
  | _ => True
  end.

Lemma held_command command : leaves_pause (InCommand command) → pres J (apply_command command : eng unit).
Proof.
  intros Hc. unfold apply_command, pause_command, rotate_if_needed, set_source_enabled,
    set_desktop_activity_through_pause.
  destruct command as [[]| | | | | | | |]; try done; held_walk.
Qed.

Lemma held_do input : leaves_pause input → pres J (engine_do input).
Proof.
  destruct input; cbn [engine_do]; intros Hin;
    unfold open_proof_consumer, close_proof_consumer, sink_begin_stream, sink_emit, sink_emit_screen_frame,
      set_source_choices, pump;
    lazymatch goal with
    | |- pres _ start => apply held_start
    | |- pres _ (apply_command _) => by apply held_command
    | |- pres _ hold_owner_pause_in => done
    | |- pres _ (modify (set_e_world _)) => by intros e (? & ? & ?)
    | |- _ => by held_walk
    end.
Qed.
End owner_hold.

(** *** The recorded pause *)

Section recorded_pause.
Context {W A : Type}
  `{SegmentFs W, DesktopActivitySource W, ActivityHost W, !PauseStore W, CaptureWorld W, SetupAuth A}.

Notation engine := (Engine W A).
Notation eng := (M (Engine W A)).

(** The engine records pauses and its owner's pause is [o]. *)
Definition remembers (s : Z) (o : option OwnerPause) (e : engine) : Prop :=
  e_segment_secs e = s ∧ e_has_pause_store e = true ∧ owner_pause (e_state e) = o.

Lemma remembers_frame s o : Frame s (remembers s o).
Proof.
  split.
  - by intros e [].
  - intros f Hf e He. unfold remembers. specialize (Hf e). unfold okey in Hf. injection Hf as Hm _ Hs' _ Hp _ _.
    cbn. by rewrite Hs', Hm, Hp.
  - by intros B m _ e He.
  - by intros B m _ e He.
  - intros event Hev e (? & ? & Ho). split_and!; [done|done|]. cbn. rewrite <-Ho. destruct (e_state e).
    destruct event as [| | | | | |[[] ? ?]| | |]; done.
  - by intros e (? & ? & ?).
  - by intros e He.
  - by intros e seg seg' He _ _.
Qed.

Lemma remembers_clocked s o : Clocked s (remembers s o).
Proof. by split; intros; intros seg _ e' He'. Qed.

(** What a store is asked to keep for an owner's pause. *)
Definition held_form (p : OwnerPause) : HeldPause :=
  match expires_at_epoch_secs p with Some d => Until d | None => UntilResumed end.

Lemma settle_records s was restart p :
  triple (remembers s (Some p)) (settle_pause was restart None)
    (λ _ e, ∃ w, owner_pause (e_state e) = Some p ∧ e_world e = (pause_save (held_form p) w).2).
Proof.
  pose proof (remembers_frame s (Some p)) as HF. pose proof (remembers_clocked s (Some p)) as HC.
  intros e He. unfold settle_pause. rewrite bind_run. cbn [ask gets fst snd].
  assert (Hp : is_paused e = true).
  { unfold is_paused. rewrite bool_decide_eq_true. apply phase_paused_iff. destruct He as (_ & _ & ->). eauto. }
  cbv zeta. rewrite Hp. cbn [negb andb]. rewrite bind_run.
  match goal with |- context [(?m e).2] => assert (Hmid : remembers s (Some p) (m e).2) end.
  { revert He. destruct was; cbn [negb when]; [by intros He|by apply (fr_pause_capture s)]. }
  revert Hmid. match goal with |- context [(?m e).2] => generalize (m e).2 end.
  clear e He Hp. intros e (Hs & Hst & Ho). rewrite bind_run. cbn [ask gets fst snd]. rewrite Ho.
  rewrite bool_decide_eq_false_2 by done. cbn [negb when]. unfold record_owner_pause.
  rewrite bind_run. cbn [ask gets fst snd]. rewrite Hst. cbn [when]. exists (e_world e).
  rewrite bind_run. split; [exact Ho|]. by destruct p as [[]].
Qed.

Lemma refresh_health_reads (e : engine) :
  e_state (refresh_health e).2 = e_state e ∧ e_world (refresh_health e).2 = (now_epoch_secs (e_world e)).2.
Proof. done. Qed.

(** Pausing records the pause, whatever the engine was doing. *)
Lemma pause_is_saved (e : engine) d :
  e_has_pause_store e = true → owner_pause (e_state e) = None →
  ∃ p w w0, owner_pause (e_state (apply_command (CmdPause Operator d) e).2) = Some p ∧
    expires_at_epoch_secs p = (λ d, sat_add_u64 (now_epoch_secs w0).1 d) <$> d ∧
    e_world (apply_command (CmdPause Operator d) e).2 = (now_epoch_secs (pause_save (held_form p) w).2).2.
Proof.
  intros Hst Ho. unfold apply_command. rewrite bind_run. remember (e_segment_secs e) as s eqn:Hsecs.
  assert (He : remembers s None (rotate_if_needed e).2).
  { by apply (fr_rotate s _ (remembers_frame s None) (remembers_clocked s None)). }
  revert He. generalize (rotate_if_needed e).2. clear e Hst Ho Hsecs. intros e (Hs & Hst & Ho).
  rewrite bind_run. cbn [ask gets fst snd]. rewrite bind_run. unfold pause_command. rewrite bind_run.
  set (now := (now_epoch_secs (e_world e)).1). set (e1 := (world now_epoch_secs e).2).
  change (world now_epoch_secs e).1 with now. set (p := mkOwnerPause ((λ d, sat_add_u64 now d) <$> d)).
  rewrite bind_run. rewrite Ho.
  set (e2 := (reduce_event (RequestedPause Operator (expires_at_epoch_secs p)) e1).2).
  assert (He2 : remembers s (Some p) e2).
  { split_and!; [exact Hs|exact Hst|]. subst e2 e1 p. cbn. by destruct (e_state e). }
  destruct (settle_records s (is_paused e) false p e2 He2) as (w & Hop & Hw).
  match goal with |- context [refresh_health ?x] => destruct (refresh_health_reads x) as [Hrs Hrw] end.
  exists p, w, (e_world e). rewrite Hrs, Hrw. split; [exact Hop|]. split; [done|]. by rewrite <-Hw.
Qed.

(** Loading it before the deadline puts it back in effect. *)
Lemma hold_restores (e : engine) p :
  pause_load (e_world e) = Some (held_form p) →
  pause_load (now_epoch_secs (e_world e)).2 = pause_load (e_world e) →
  (∀ d, expires_at_epoch_secs p = Some d → ((now_epoch_secs (e_world e)).1 < d)%Z) →
  owner_pause (e_state (hold_owner_pause_in e).2) = Some p.
Proof.
  intros Hload Hclock Hearly. unfold hold_owner_pause_in. rewrite bind_run.
  set (e1 := (world now_epoch_secs e).2). rewrite bind_run. cbn [gets fst snd].
  change (e_world e1) with (now_epoch_secs (e_world e)).2. rewrite Hclock, Hload.
  destruct p as [[d|]]; cbn [held_form expires_at_epoch_secs] in *.
  - change (world now_epoch_secs e).1 with (now_epoch_secs (e_world e)).1.
    specialize (Hearly d eq_refl). apply Z.ltb_lt in Hearly. rewrite Hearly. rewrite !bind_run.
    match goal with |- context [refresh_health ?x] => rewrite (proj1 (refresh_health_reads x)) end.
    cbn. by destruct (e_state e).
  - rewrite !bind_run.
    match goal with |- context [refresh_health ?x] => rewrite (proj1 (refresh_health_reads x)) end.
    cbn. by destruct (e_state e).
Qed.
End recorded_pause.
