(* ===== verification/EngineProps.v ===== *)
(** * What the capture engine guarantees

    The theorems about the whole engine, and a small concrete world on which
    each of them is exercised. *)
From Stdlib Require Import Ascii String.
From S2P Require Import Prelude RustStr RustFloat Model Segment AppState Lifecycle Recovery Exclusion.
From S2P Require Import PauseStore UrlNorm DesktopActivity EngineState Engine EngineInv EngineFrame.
From S2P Require Import EngineSteps EngineDrive.

Local Open Scope list_scope.

(** ** Properties *)

Section properties.
Context {W A : Type}
  `{SegmentFs W, DesktopActivitySource W, ActivityHost W, PauseStore W, CaptureWorld W, SetupAuth A}.

Notation engine := (Engine W A).

(** C3. Storage trouble is never hidden. In every reachable state the reducer
    knows of a storage fault exactly when the engine holds one; and as soon as
    a segment awaits sealing, an audio write has failed, or an activity row is
    not yet written, that fault is held, so the phase cannot be [Observing]. *)
Theorem storage_trouble_is_reported (config : EngineConfig) (outcomes : list RecoveryOutcome) (w : W)
    (e : engine) (Hcfg : in_u32 (breaker_threshold (cfg_lifecycle config)))
    (Hreach : reachable config outcomes w e) :
  (storage_faulted (e_state e) = true ↔ is_Some (e_storage_fault e)) ∧
  (e_pending_seals e ≠ [] ∨ e_write_stalled e = true ∨ e_pending_rows e ≠ [] →
     is_Some (e_storage_fault e) ∧ engine_phase e ≠ Observing).
Proof.
  destruct (reachable_inv _ _ _ _ Hcfg Hreach) as [(Hs & _ & _) Hclean].
  assert (Hiff : storage_faulted (e_state e) = true ↔ is_Some (e_storage_fault e)).
  { rewrite Hs. destruct (e_storage_fault e); cbn; split; [by eauto|done|done|by intros []]. }
  split; [done|]. intros Hwait.
  assert (Hsome : is_Some (e_storage_fault e)).
  { destruct (e_storage_fault e) eqn:Hf; [by eauto|]. destruct (Hclean Hf) as (? & ? & Hrows).
    specialize (Hrows eq_refl). naive_solver congruence. }
  split; [done|]. apply Hiff in Hsome. unfold engine_phase. intros Ho.
  apply phase_observing_flags in Ho. destruct Ho as (_ & _ & _ & _ & _ & Ho & _). congruence.
Qed.

(** The health payload earns "observing". In every reachable state, a
    payload that says [Observing] carries no storage fault and no pause, and
    its own source list shows an enabled source [Active] and no enabled source
    faulted for a reason other than a refused permission. *)
Theorem observing_payload_is_earned (config : EngineConfig) (outcomes : list RecoveryOutcome) (w : W)
    (e : engine) (Hcfg : in_u32 (breaker_threshold (cfg_lifecycle config)))
    (Hreach : reachable config outcomes w e) :
  let d := (health_dump e).1 in
  app_state d = Observing →
  storage d = None ∧ pause d = None ∧ dump_engine_ready d = true ∧
  (∃ k r, enabled e k = true ∧ r ∈ dump_sources d ∧ report_state r = Active) ∧
  (∀ k r reason detail, enabled e k = true → pk_get (e_reports e) k = Some r →
     report_state r = Faulted reason detail → reason = AccessDenied).
Proof.
  destruct (reachable_inv _ _ _ _ Hcfg Hreach) as [(Hs & Hr & _) _].
  cbv zeta. destruct (health_dump_fields e) as (-> & -> & -> & -> & ->). intros Ho.
  apply observing_facts in Ho. destruct Ho as (Hop & Hsp & _ & Hready & Hst & Hnf & k & Hk & Hrep).
  split_and!.
  - rewrite Hs in Hst. by destruct (e_storage_fault e).
  - unfold pause_snapshot. by rewrite Hop, Hsp.
  - done.
  - rewrite Hr in Hrep. destruct (pk_get (e_reports e) k) as [r|] eqn:Hg; [|done]. cbn in Hrep.
    exists k, r. split; [done|]. split; [apply pk_values_elem; eauto|]. congruence.
  - intros k' r reason detail Hk' Hg Hf. apply (Hnf k' reason detail); [done|]. rewrite Hr, Hg. cbn. by rewrite Hf.
Qed.

(** An open breaker stays open until someone acts: in every reachable
    state a source whose breaker is open has no retry scheduled, so the retry
    service does not restart it at any time. *)
Theorem open_breaker_never_retries (config : EngineConfig) (outcomes : list RecoveryOutcome) (w : W)
    (e : engine) (k : SourceKind) (now : Z)
    (Hcfg : in_u32 (breaker_threshold (cfg_lifecycle config)))
    (Hreach : reachable config outcomes w e)
    (Hopen : breaker (pk_get (e_lifecycles e) k) = Open) :
  pk_get (e_retry_at e) k = None ∧
  k ∉ List.filter (λ k, match pk_get (e_retry_at e) k with Some t => (t <=? now)%Z | None => false end)
        source_kinds.
Proof.
  destruct (reachable_inv _ _ _ _ Hcfg Hreach) as [(_ & _ & Hl) _].
  destruct (Hl k) as [_ Hn]. specialize (Hn Hopen). split; [done|].
  rewrite list_elem_of_In, filter_In, Hn. naive_solver.
Qed.

(** C4. Rotation ends, and ends in the present: in every reachable state, with
    a window length above zero and a [u64] clock, the loop of
    [rotate_segments] leaves by its own exits within the fuel given to it, and
    afterwards the open segment, if there is one, is the aligned window of the
    current time, however many boundaries were missed and even when the clock
    went back. *)
Theorem rotation_reaches_the_present (config : EngineConfig) (outcomes : list RecoveryOutcome) (w : W)
    (e : engine) (closing : bool)
    (Hclock : ∀ w : W, in_u64 (now_epoch_secs w).1) (Hsecs : (0 < cfg_segment_secs config)%Z)
    (Hreach : reachable config outcomes w e) :
  let now := (now_epoch_secs (e_world e)).1 in
  let e0 := set_e_world (now_epoch_secs (e_world e)).2 e in
  (rotate_loop (rotate_fuel e0 now) closing now e0).1 = true ∧
  ∀ seg, e_current (rotate_segments closing e).2 = Some seg →
    seg_key seg = segment_for now (cfg_segment_secs config).
Proof.
  cbv zeta. set (now := (now_epoch_secs (e_world e)).1). set (e0 := set_e_world _ e).
  pose proof (reachable_aligned _ _ _ _ Hclock Hreach) as Hal.
  destruct (rotate_loop_ends (cfg_segment_secs config) closing now (rotate_fuel e0 now) e0 Hsecs (Hclock _) Hal)
    as [Hend Hcur].
  { unfold rounds, rotate_fuel. destruct Hal as [Hs _]. change (e_segment_secs e0) with (e_segment_secs e).
    rewrite Hs, Z.max_l by lia. done. }
  split; [exact Hend|]. intros seg Hseg. symmetry. apply segment_for_iff. rewrite Z.max_l by lia.
  apply (proj2 Hcur). revert Hseg. unfold rotate_segments. by rewrite !bind_run.
Qed.

(** C2. Off means off: once any of the four capture sources is switched off, no
    tick, event, pause, resume, retry, restart or other command makes the engine
    start it again, until it is switched on or the choices are loaded anew.
    [I] is any property of the outside world that only a start of this source
    can break; it still holds at the end, and the source is without effect: its
    audio and frames, queued before or after, are discarded, and desktop
    activity is neither started nor polled. *)
Theorem switched_off_stays_silent (I : W → Prop) (k : SourceKind) (e : engine)
    (inputs : list (EngineInput W A))
    (Hroutine : ∀ B (m : M W B), routine m → pres I m)
    (Hothers : ∀ k' g, k' ≠ k → pres I (start_call k' g))
    (Hworld : I (e_world e))
    (Hinputs : Forall (λ i, match i with
      | InCommand (CmdSetSourceEnabled k' true) => k' ≠ k
      | InChoices _ => False
      | InWorld w => I w
      | _ => True
      end) inputs) :
  let e' := (for_each inputs engine_do (apply_command (CmdSetSourceEnabled k false) e).2).2 in
  I (e_world e') ∧ enabled e' k = false ∧
  (∀ admission chunk, handle_event (EvAudio k admission chunk) e' = (tt, e')) ∧
  (k = Screen → ∀ admission frame, handle_event (EvScreen admission frame) e' = (tt, e')) ∧
  (k = DesktopActivity → pump_desktop_activity e' = (tt, e')).
Proof.
  cbv zeta. set (J := holds_of I (e_segment_secs e) (off k) : engine → Prop).
  assert (Hswitch : J (apply_command (CmdSetSourceEnabled k false) e).2).
  { unfold apply_command. rewrite bind_run. apply (switch_off I Hroutine k Hothers).
    apply (fr_rotate _ _ (holds_of_frame I Hroutine _ (λ _ _ _, True) (λ _ _ _ _ _ _, Logic.I))
             (holds_of_clocked I _ _)). by split. }
  assert (Hend : J (for_each inputs engine_do (apply_command (CmdSetSourceEnabled k false) e).2).2).
  { revert Hswitch. generalize (apply_command (CmdSetSourceEnabled k false) e).2.
    induction Hinputs as [|input inputs Hin _ IH]; intros e1 He1; [done|].
    cbn [for_each]. rewrite bind_run. apply IH. revert He1. apply (off_do I Hroutine k Hothers).
    destruct input; try done; [|by intros e2 (? & ? & ?)].
    destruct command as [| | | | |k' []| | |]; try done; cbn; unfold keeps_off;
      rewrite ?bool_decide_eq_false_2 by done; [done|by destruct (bool_decide _)]. }
  destruct Hend as (_ & [Hoff _] & HI). split; [done|]. split; [exact Hoff|].
  split; [intros admission chunk|split; [intros -> admission frame|intros ->]];
    [unfold handle_event|unfold handle_event|unfold pump_desktop_activity, desktop_activity_may_run]; rewrite bind_run; cbn [ask gets fst snd];
    unfold admitted, enabled; by rewrite Hoff, ?andb_false_r.
Qed.

(** C1. While the owner pauses, nothing is captured: from the moment the
    engine holds an owner's pause, until the owner resumes, toggles, pauses
    again or the deadline passes, no input of any kind (ticks, retries, unlock
    and wake-up, source switches, restarts) starts the screen, audio or
    microphone, nor desktop activity unless the owner keeps it on through
    pauses ([through]: the setting is on already or one of the inputs turns it
    on); and the phase stays [Paused]. [I] is any property of the outside world
    that only such a start can break, under which the clock is before the
    deadline. *)
Theorem owner_pause_starts_nothing (I : W → Prop) (p : OwnerPause) (through : bool) (e : engine)
    (inputs : list (EngineInput W A))
    (Hroutine : ∀ B (m : M W B), routine m → pres I m)
    (Hact : through = true → pres I das_start)
    (Hearly : ∀ w d, I w → expires_at_epoch_secs p = Some d → ((now_epoch_secs w).1 < d)%Z)
    (Hpause : owner_pause (e_state e) = Some p) (Hthrough : e_through_pause e = true → through = true)
    (Hworld : I (e_world e))
    (Hinputs : Forall (leaves_pause I through) inputs) :
  let e' := (for_each inputs engine_do e).2 in
  I (e_world e') ∧ owner_pause (e_state e') = Some p ∧ engine_phase e' = Paused.
Proof.
  cbv zeta. assert (Hend : holds_of I (e_segment_secs e) (held p through) (for_each inputs engine_do e).2).
  { assert (He : holds_of I (e_segment_secs e) (held p through) e) by done. revert He.
    generalize (e_segment_secs e). intros s. clear Hpause Hthrough Hworld. revert e.
    induction Hinputs as [|input inputs Hin _ IH]; intros e He; [done|].
    cbn [for_each]. rewrite bind_run. apply IH. revert He. by apply (held_do I Hroutine p Hearly through Hact). }
  pose proof (held_paused I p through _ _ Hend) as Hp. destruct Hend as (_ & [Hheld _] & HI).
  split; [done|]. split; [exact Hheld|]. unfold is_paused in Hp. by rewrite bool_decide_eq_true in Hp.
Qed.

(** C5. The owner's pause outlives the process: when the engine records pauses
    in a store that keeps its promise, pausing saves the pause, and a new
    engine (any state at all) that is given the stored pause before its
    deadline is paused by it again, with the same deadline. *)
Theorem owner_pause_survives_restart `{!PauseStoreLaws W} (e restarted : engine) (d : option Z)
    (Hclock : ∀ w : W, in_u64 (now_epoch_secs w).1)
    (Hloads : ∀ w : W, pause_load (now_epoch_secs w).2 = pause_load w)
    (Hsaves : ∀ p (w : W), (pause_save p w).1 = Ok tt)
    (Hd : match d with Some d => in_u64 d | None => True end)
    (Hstore : e_has_pause_store e = true) (Hfresh : owner_pause (e_state e) = None)
    (Hsame : pause_load (e_world restarted) =
             pause_load (e_world (apply_command (CmdPause Operator d) e).2))
    (Hearly : ∀ t, pause_load (e_world restarted) = Some (Until t) →
                   ((now_epoch_secs (e_world restarted)).1 < t)%Z) :
  let paused := (apply_command (CmdPause Operator d) e).2 in
  let back := (hold_owner_pause_in restarted).2 in
  is_Some (owner_pause (e_state paused)) ∧
  owner_pause (e_state back) = owner_pause (e_state paused) ∧ engine_phase back = Paused.
Proof.
  cbv zeta. destruct (pause_is_saved e d Hstore Hfresh) as (p & w & w0 & Hp & Hexp & Hw).
  assert (Hrange : pause_in_range (held_form p)).
  { unfold held_form. rewrite Hexp. destruct d; cbn; [|done]. unfold sat_add_u64. cbn in Hd.
    pose proof (Hclock w0). widths. }
  rewrite Hw, Hloads, save_then_load in Hsame by done.
  assert (Hback : owner_pause (e_state (hold_owner_pause_in restarted).2) = Some p).
  { apply hold_restores; [done|apply Hloads|]. intros t Ht. apply Hearly. rewrite Hsame.
    unfold held_form. by rewrite Ht. }
  rewrite Hp, Hback. split; [eauto|]. split; [done|]. apply phase_paused_iff. left. rewrite Hback. eauto.
Qed.
End properties.

(** ** A concrete world *)

Record Demo : Type := mkDemo {
  demo_now : Z;
  demo_disk_ok : bool;
  demo_source_ok : bool;
  demo_running : bool;
  demo_starts : list SourceKind;
  demo_pause : option HeldPause
}.

Definition demo_disk {B} (b : B) : M Demo (result B unit) :=
  λ w, (if demo_disk_ok w then Ok b else Err tt, w).

#[local] Instance demo_fs : SegmentFs Demo := {|
  fs_error := unit;
  fs_debug := λ _, "disk full"%string;
  existing_incomplete := λ _, demo_disk None;
  open_incomplete := λ _, demo_disk "segments/now"%string;
  write_chunk := λ _ _, demo_disk tt;
  append_activity := λ _ _ _ _, demo_disk tt;
  fs_finalize := λ _ _, demo_disk tt
|}.

#[local] Instance demo_activity : DesktopActivitySource Demo := {|
  das_start := λ w, (Ok tt, mkDemo (demo_now w) (demo_disk_ok w) (demo_source_ok w) (demo_running w)
                              (DesktopActivity :: demo_starts w) (demo_pause w));
  das_stop := λ w, (tt, w);
  das_state := λ _, Inactive;
  das_poll_events := λ w, ([], w);
  das_poll_coarse_events := λ w, ([], w);
  das_request_url := λ _ w, (tt, w);
  das_poll_url_result := λ w, (None, w);
  das_cancel_url := λ w, (tt, w);
  das_foreground_snapshot := λ w, (None, w)
|}.

#[local] Instance demo_host : ActivityHost Demo := {|
  read_rules_handle := λ w, (None, w);
  load_available_handle := λ w, (true, w);
  host_url_parse := λ _, None;
  title_fingerprint := λ _, 0%Z
|}.

#[local] Instance demo_store : PauseStore Demo := {|
  pause_load := demo_pause;
  pause_save := λ p w, (Ok tt, mkDemo (demo_now w) (demo_disk_ok w) (demo_source_ok w) (demo_running w)
                                 (demo_starts w) (Some p));
  pause_clear := λ w, (Ok tt, mkDemo (demo_now w) (demo_disk_ok w) (demo_source_ok w) (demo_running w)
                                (demo_starts w) None)
|}.

#[local] Instance demo_store_laws : PauseStoreLaws Demo.
Proof. by split. Qed.

#[local] Instance demo_capture : CaptureWorld Demo := {|
  src_start := λ kind _ w,
    (if demo_source_ok w then Ok tt else Err (mkSourceError EndpointLost "unplugged"),
     mkDemo (demo_now w) (demo_disk_ok w) (demo_source_ok w) (demo_source_ok w) (kind :: demo_starts w)
       (demo_pause w));
  src_stop := λ _ w, (tt, w);
  src_state := λ _ w,
    if demo_running w then Active else if demo_source_ok w then Inactive else Faulted EndpointLost "unplugged";
  screen_display_changed := λ w, (tt, w);
  exclusion_health := λ _, None;
  enc_open := λ _ _ _ w, (Ok tt, w);
  enc_encode_frame := λ _ w, (Ok tt, w);
  enc_finalize := λ w, (Ok tt, w);
  enc_video_end_secs := λ _, None;
  enc_last_error := λ _, None;
  enc_health := λ _, mkEncoderHealth 0 0 0 0 None;
  now_epoch_secs := λ w, (clampZ 0 u64_max (demo_now w), w);
  now_epoch_us := λ w, (clampZ 0 u64_max (demo_now w) * 1000000, w)%Z;
  now_monotonic_us := λ w, (0%Z, w);
  system_nanos := λ w, (1%Z, w);
  process_id := 42;
  file_in_segment := λ _ _ _, false;
  file_in_sealed := λ _ _ _ _, false;
  to_jsonl_line := λ _, Some "row"%string;
  engine_version := "1"%string
|}.

#[local] Instance demo_auth : SetupAuth SetupSnapshot := {|
  auth_new := default_setup_snapshot;
  auth_seed := λ s _, s;
  auth_note_running := λ _ _ a, a;
  auth_projection := λ a, a
|}.

Definition demo_world (now : Z) (disk_ok source_ok : bool) : Demo := mkDemo now disk_ok source_ok false [] None.
Definition demo_config (threshold : Z) : EngineConfig :=
  mkEngineConfig 300 (mkBackoffConfig (from_secs 1) (from_secs 60) 2 threshold).
Notation demo_engine := (Engine Demo SetupSnapshot).

Definition demo_run (threshold : Z) (outcomes : list RecoveryOutcome) (w : Demo)
    (inputs : list (EngineInput Demo SetupSnapshot)) : demo_engine :=
  (for_each inputs engine_do (new_engine (demo_config threshold) outcomes w)).2.

Lemma for_each_reaches (inputs : list (EngineInput Demo SetupSnapshot)) (e : demo_engine) :
  rtc engine_step e (for_each inputs engine_do e).2.
Proof.
  revert e. induction inputs as [|i inputs IH]; intros e; [done|]. cbn [for_each]. rewrite bind_run.
  eapply rtc_l; [constructor|apply IH].
Qed.

Lemma demo_reachable threshold outcomes w inputs :
  reachable (demo_config threshold) outcomes w (demo_run threshold outcomes w inputs).
Proof. apply for_each_reaches. Qed.

(** A call of the demo that is not a start leaves the list of starts. *)
Lemma demo_routine (P : list SourceKind → Prop) B (m : M Demo B) :
  routine m → pres (λ w, P (demo_starts w)) m.
Proof.
  intros Hm. destruct Hm; try (by intros ? ?).
  match goal with Hc : sched_call _ |- _ => by destruct Hc; intros ? ? end.
Qed.

Definition starts_of (k : SourceKind) (starts : list SourceKind) : nat := length (filter (λ k', k' = k) starts).

Lemma demo_clock (w : Demo) : in_u64 (now_epoch_secs w).1.
Proof. cbn. widths. Qed.

Lemma storage_trouble_is_reported_witness :
  engine_phase (demo_run 5 [Deferred (mkSegmentKey 300 1)] (demo_world 700 true true) []) ≠ Observing.
Proof.
  refine (proj2 (proj2 (storage_trouble_is_reported (demo_config 5) [Deferred (mkSegmentKey 300 1)]
    (demo_world 700 true true) _ _ (demo_reachable _ _ _ _)) _)).
  - cbn; widths.
  - left. vm_compute. discriminate.
Defined.

Lemma observing_payload_is_earned_witness :
  storage (health_dump (demo_run 5 [] (demo_world 700 true true)
    [InCommand (CmdSetSourceEnabled Mic true); InStart])).1 = None.
Proof.
  refine (proj1 (observing_payload_is_earned (demo_config 5) [] (demo_world 700 true true) _ _
    (demo_reachable _ _ _ _) _)).
  - cbn; widths.
  - vm_compute. reflexivity.
Defined.

Lemma open_breaker_never_retries_witness :
  pk_get (e_retry_at (demo_run 1 [] (demo_world 700 true false)
    [InCommand (CmdSetSourceEnabled Mic true); InStart])) Mic = None.
Proof.
  refine (proj1 (open_breaker_never_retries (demo_config 1) [] (demo_world 700 true false) _ Mic 9999 _
    (demo_reachable _ _ _ _) _)).
  - cbn; widths.
  - vm_compute. reflexivity.
Defined.

Lemma rotation_reaches_the_present_witness :
  ∃ seg, e_current (rotate_segments true (demo_run 5 [] (demo_world 700 true true)
    [InCommand (CmdSetSourceEnabled Mic true); InStart; InWorld (demo_world 2000 true true)])).2 = Some seg ∧
    seg_key seg = mkSegmentKey 1800 6.
Proof.
  destruct (rotation_reaches_the_present (demo_config 5) [] (demo_world 700 true true)
    (demo_run 5 [] (demo_world 700 true true)
      [InCommand (CmdSetSourceEnabled Mic true); InStart; InWorld (demo_world 2000 true true)])
    true demo_clock ltac:(cbn; lia) (demo_reachable _ _ _ _)) as [_ Hseg].
  destruct (e_current (rotate_segments true (demo_run 5 [] (demo_world 700 true true)
    [InCommand (CmdSetSourceEnabled Mic true); InStart; InWorld (demo_world 2000 true true)])).2) as [seg|] eqn:He.
  - exists seg. split; [done|]. exact (Hseg seg eq_refl).
  - vm_compute in He. discriminate.
Defined.

(** [switched_off_stays_silent] for the microphone and for desktop activity,
    each started once before it is switched off. *)
Lemma switched_off_stays_silent_witness :
  starts_of Mic (demo_starts (e_world (for_each [InCommand CmdResume; InPump] engine_do
    (apply_command (CmdSetSourceEnabled Mic false) (demo_run 5 [] (demo_world 700 true true)
      [InCommand (CmdSetSourceEnabled Mic true); InStart])).2).2)) = 1 ∧
  starts_of DesktopActivity (demo_starts (e_world (for_each [InCommand (CmdSetSourceEnabled Screen true); InPump] engine_do
    (apply_command (CmdSetSourceEnabled DesktopActivity false) (demo_run 5 [] (demo_world 700 true true)
      [InCommand (CmdSetSourceEnabled Screen true); InCommand (CmdSetSourceEnabled DesktopActivity true); InStart])).2).2)) = 1.
Proof.
  split.
  - refine (proj1 (switched_off_stays_silent (λ w, starts_of Mic (demo_starts w) = 1) Mic
      (demo_run 5 [] (demo_world 700 true true) [InCommand (CmdSetSourceEnabled Mic true); InStart])
      [InCommand CmdResume; InPump] (demo_routine (λ l, starts_of Mic l = 1)) _ _ _)).
    + intros k g Hk w Hw. assert (starts_of Mic (k :: demo_starts w) = 1) by (unfold starts_of; by rewrite filter_cons_False). by destruct k.
    + vm_compute. reflexivity.
    + by repeat constructor.
  - refine (proj1 (switched_off_stays_silent (λ w, starts_of DesktopActivity (demo_starts w) = 1) DesktopActivity
      (demo_run 5 [] (demo_world 700 true true)
        [InCommand (CmdSetSourceEnabled Screen true); InCommand (CmdSetSourceEnabled DesktopActivity true); InStart])
      [InCommand (CmdSetSourceEnabled Screen true); InPump] (demo_routine (λ l, starts_of DesktopActivity l = 1)) _ _ _)).
    + intros k g Hk w Hw. by destruct k.
    + vm_compute. reflexivity.
    + by repeat constructor.
Defined.

(** [owner_pause_starts_nothing] where desktop activity is not kept on, and
    nothing at all is started; and where it is, and only it is started. *)
Lemma owner_pause_starts_nothing_witness :
  demo_starts (e_world (for_each [InCommand CmdSystemResume; InStart; InPump] engine_do
    (demo_run 5 [] (demo_world 700 true true)
      [InCommand (CmdSetDesktopActivityThroughPause false); InCommand (CmdSetSourceEnabled Mic true); InCommand (CmdPause Operator None)])).2) = [] ∧
  Forall (λ k, k = DesktopActivity) (demo_starts (e_world (for_each [InCommand (CmdSetDesktopActivityThroughPause true); InStart; InPump] engine_do
    (demo_run 5 [] (demo_world 700 true true)
      [InCommand (CmdSetSourceEnabled Mic true); InCommand (CmdPause Operator None)])).2)).
Proof.
  split.
  - refine (proj1 (owner_pause_starts_nothing (λ w, demo_starts w = []) (mkOwnerPause None) false
      (demo_run 5 [] (demo_world 700 true true)
        [InCommand (CmdSetDesktopActivityThroughPause false); InCommand (CmdSetSourceEnabled Mic true); InCommand (CmdPause Operator None)])
      [InCommand CmdSystemResume; InStart; InPump] (demo_routine (λ l, l = [])) _ _ _ _ _ _)); try done; try (vm_compute; reflexivity).
    by repeat constructor.
  - refine (proj1 (owner_pause_starts_nothing (λ w, Forall (λ k, k = DesktopActivity) (demo_starts w)) (mkOwnerPause None) true
      (demo_run 5 [] (demo_world 700 true true)
        [InCommand (CmdSetSourceEnabled Mic true); InCommand (CmdPause Operator None)])
      [InCommand (CmdSetDesktopActivityThroughPause true); InStart; InPump] (demo_routine (λ l, Forall (λ k, k = DesktopActivity) l)) _ _ _ _ _ _)); try done; try (vm_compute; reflexivity).
    + intros _ w Hw. by constructor.
    + by repeat constructor.
Defined.

Definition demo_before_restart : demo_engine :=
  demo_run 5 [] (demo_world 700 true true) [InCommand (CmdSetSourceEnabled Mic true); InHold; InStart].
Definition demo_restarted : demo_engine :=
  demo_run 5 [] (e_world (apply_command (CmdPause Operator (Some 600%Z)) demo_before_restart).2) [].

Lemma owner_pause_survives_restart_witness : engine_phase (hold_owner_pause_in demo_restarted).2 = Paused.
Proof.
  refine (proj2 (proj2 (owner_pause_survives_restart demo_before_restart demo_restarted (Some 600%Z)
    demo_clock _ _ _ _ _ _ _))).
  - done.
  - done.
  - cbn. widths.
  - vm_compute. reflexivity.
  - vm_compute. reflexivity.
  - vm_compute. reflexivity.
  - vm_compute. intros t [= <-]. reflexivity.
Defined.
