(* ===== verification/Setup.v ===== *)
(** * The setup authority (crates/observer-model/src/setup.rs)

    The owner's saved choices ([SetupConfig], setup.json), how they are loaded
    at startup, and the coordinator that keeps what is saved and what runs in
    step ([SetupAuthority]). The files are a class; the JSON codec is a
    parameter. [SetupAuthority] is an instance of the interface the engine is
    proved against. *)
From Stdlib Require Import Ascii String.
From S2P Require Import Prelude RustStr Model PauseStore EngineState.

Local Open Scope list_scope.

Definition CURRENT_SETUP_VERSION : Z := 2.
Definition PRE_ACTIVITY_FOLLOWS_SCREEN_VERSION : Z := 1.

Definition explicit_login (choice : bool) : LoginPreference := mkLoginPreference (Some choice).
Definition unknown_login : LoginPreference := mkLoginPreference None.

Record SetupConfig : Type := mkSetupConfig {
  sc_version : Z;
  sc_mic : bool;
  sc_system_audio : bool;
  sc_screen : bool;
  sc_start_at_login : LoginPreference;
  sc_wizard : WizardStep;
  sc_notice_dismissed : bool;
  sc_desktop_activity : option bool;
  sc_through_pause : option bool;
  sc_window_titles : option bool;
  sc_page_addresses : option bool
}.

#[global] Instance SetupConfig_eq_dec : EqDecision SetupConfig.
Proof. solve_decision. Defined.

Definition set_sc_version (x : Z) (r : SetupConfig) : SetupConfig :=
    mkSetupConfig x (sc_mic r) (sc_system_audio r) (sc_screen r) (sc_start_at_login r) (sc_wizard r)
    (sc_notice_dismissed r) (sc_desktop_activity r) (sc_through_pause r) (sc_window_titles r)
    (sc_page_addresses r).
Definition set_sc_mic (x : bool) (r : SetupConfig) : SetupConfig :=
    mkSetupConfig (sc_version r) x (sc_system_audio r) (sc_screen r) (sc_start_at_login r)
    (sc_wizard r) (sc_notice_dismissed r) (sc_desktop_activity r) (sc_through_pause r)
    (sc_window_titles r) (sc_page_addresses r).
Definition set_sc_system_audio (x : bool) (r : SetupConfig) : SetupConfig :=
    mkSetupConfig (sc_version r) (sc_mic r) x (sc_screen r) (sc_start_at_login r) (sc_wizard r)
    (sc_notice_dismissed r) (sc_desktop_activity r) (sc_through_pause r) (sc_window_titles r)
    (sc_page_addresses r).
Definition set_sc_screen (x : bool) (r : SetupConfig) : SetupConfig :=
    mkSetupConfig (sc_version r) (sc_mic r) (sc_system_audio r) x (sc_start_at_login r) (sc_wizard
    r) (sc_notice_dismissed r) (sc_desktop_activity r) (sc_through_pause r) (sc_window_titles r)
    (sc_page_addresses r).
Definition set_sc_start_at_login (x : LoginPreference) (r : SetupConfig) : SetupConfig :=
    mkSetupConfig (sc_version r) (sc_mic r) (sc_system_audio r) (sc_screen r) x (sc_wizard r)
    (sc_notice_dismissed r) (sc_desktop_activity r) (sc_through_pause r) (sc_window_titles r)
    (sc_page_addresses r).
Definition set_sc_wizard (x : WizardStep) (r : SetupConfig) : SetupConfig :=
    mkSetupConfig (sc_version r) (sc_mic r) (sc_system_audio r) (sc_screen r) (sc_start_at_login r)
    x (sc_notice_dismissed r) (sc_desktop_activity r) (sc_through_pause r) (sc_window_titles r)
    (sc_page_addresses r).
Definition set_sc_notice_dismissed (x : bool) (r : SetupConfig) : SetupConfig :=
    mkSetupConfig (sc_version r) (sc_mic r) (sc_system_audio r) (sc_screen r) (sc_start_at_login r)
    (sc_wizard r) x (sc_desktop_activity r) (sc_through_pause r) (sc_window_titles r)
    (sc_page_addresses r).
Definition set_sc_desktop_activity (x : option bool) (r : SetupConfig) : SetupConfig :=
    mkSetupConfig (sc_version r) (sc_mic r) (sc_system_audio r) (sc_screen r) (sc_start_at_login r)
    (sc_wizard r) (sc_notice_dismissed r) x (sc_through_pause r) (sc_window_titles r)
    (sc_page_addresses r).
Definition set_sc_through_pause (x : option bool) (r : SetupConfig) : SetupConfig :=
    mkSetupConfig (sc_version r) (sc_mic r) (sc_system_audio r) (sc_screen r) (sc_start_at_login r)
    (sc_wizard r) (sc_notice_dismissed r) (sc_desktop_activity r) x (sc_window_titles r)
    (sc_page_addresses r).
Definition set_sc_window_titles (x : option bool) (r : SetupConfig) : SetupConfig :=
    mkSetupConfig (sc_version r) (sc_mic r) (sc_system_audio r) (sc_screen r) (sc_start_at_login r)
    (sc_wizard r) (sc_notice_dismissed r) (sc_desktop_activity r) (sc_through_pause r) x
    (sc_page_addresses r).
Definition set_sc_page_addresses (x : option bool) (r : SetupConfig) : SetupConfig :=
    mkSetupConfig (sc_version r) (sc_mic r) (sc_system_audio r) (sc_screen r) (sc_start_at_login r)
    (sc_wizard r) (sc_notice_dismissed r) (sc_desktop_activity r) (sc_through_pause r)
    (sc_window_titles r) x.

Definition fresh_config : SetupConfig :=
  mkSetupConfig CURRENT_SETUP_VERSION false false false (explicit_login false) WizardMic true None None None None.

Definition legacy_config : SetupConfig :=
  mkSetupConfig CURRENT_SETUP_VERSION true true true (explicit_login true) WizardDone false None None None None.

Definition fail_closed_config : SetupConfig :=
  mkSetupConfig CURRENT_SETUP_VERSION false false false unknown_login WizardDone true None None None None.

Definition desktop_activity_choices (c : SetupConfig) : DesktopActivityChoices :=
  mkDesktopActivityChoices (sc_desktop_activity c) (sc_through_pause c) (sc_window_titles c) (sc_page_addresses c).

Definition set_desktop_activity_choices (ch : DesktopActivityChoices) (c : SetupConfig) : SetupConfig :=
  set_sc_page_addresses (choice_page_addresses ch) (set_sc_window_titles (choice_window_titles ch)
    (set_sc_through_pause (choice_through_pause ch) (set_sc_desktop_activity (choice_allowed ch) c))).

Definition desktop_activity_allowed (c : SetupConfig) : bool :=
  default DESKTOP_ACTIVITY_DEFAULT (sc_desktop_activity c).
Definition desktop_activity_through_pause (c : SetupConfig) : bool :=
  default DESKTOP_ACTIVITY_THROUGH_PAUSE_DEFAULT (sc_through_pause c).
Definition desktop_activity_window_titles (c : SetupConfig) : bool :=
  default DESKTOP_ACTIVITY_WINDOW_TITLES_DEFAULT (sc_window_titles c).
Definition desktop_activity_page_addresses (c : SetupConfig) : bool :=
  default DESKTOP_ACTIVITY_PAGE_ADDRESSES_DEFAULT (sc_page_addresses c).
Definition desktop_activity_enabled (c : SetupConfig) : bool :=
  desktop_activity_runs (desktop_activity_allowed c) (sc_screen c) (desktop_activity_through_pause c).

Definition to_snapshot (c : SetupConfig) : SetupSnapshot :=
  mkSetupSnapshot SETUP_SEQUENCE_ENABLED (sc_mic c) (sc_system_audio c) (sc_screen c) (sc_start_at_login c)
    (sc_wizard c) (sc_notice_dismissed c) (desktop_activity_enabled c) (desktop_activity_allowed c)
    (desktop_activity_through_pause c) (desktop_activity_window_titles c) (desktop_activity_page_addresses c)
    false false false [] false None false false false None None false false false false false false false
    false (desktop_activity_choices c).

Definition snapshot_enabled (s : SetupSnapshot) (kind : SourceKind) : bool :=
  match kind with
  | Screen => setup_screen s
  | SystemAudio => setup_system_audio s
  | Mic => setup_mic s
  | DesktopActivity => setup_desktop_activity s
  end.

Definition any_enabled (s : SetupSnapshot) : bool :=
  setup_mic s || setup_system_audio s || setup_screen s || setup_desktop_activity s.

Definition deliberate_off (s : SetupSnapshot) : bool := negb (any_enabled s).

(** The write of one source's switch into a configuration. *)
Definition put_source (kind : SourceKind) (on : bool) (c : SetupConfig) : SetupConfig :=
  match kind with
  | Screen => set_sc_screen on c
  | SystemAudio => set_sc_system_audio on c
  | Mic => set_sc_mic on c
  | DesktopActivity => set_sc_desktop_activity (Some on) c
  end.

Record HandoffOverlay : Type := mkHandoffOverlay {
  ov_handoff_id : option string;
  ov_handoff_revision : option Z;
  ov_handoff_expired : bool;
  ov_handoff_new_connection : bool;
  ov_handoff_deferred : bool;
  ov_mailbox_busy : bool;
  ov_handoff_rejected : bool;
  ov_native_handoff_rejected : bool;
  ov_handoff_persist_failed : bool;
  ov_has_deferred_link : bool
}.
Definition default_overlay : HandoffOverlay :=
  mkHandoffOverlay None None false false false false false false false false.

(** ** Loading *)

Inductive LoadOutcome : Type :=
| Fresh (c : SetupConfig)
| Valid (c : SetupConfig)
| FailedClosed (c : SetupConfig)
| Abort
| LegacyUnsaved (c : SetupConfig).

Record ParsedSetup : Type := mkParsedSetup { parsed_config : SetupConfig; parsed_upgraded : bool }.

Record StartupSetup : Type := mkStartupSetup {
  startup_config : SetupConfig;
  startup_login_choice : option bool;
  startup_read_failed : bool
}.

Inductive StartupLoad : Type := StartupAbort | StartupReady (s : StartupSetup).

Definition startup_load (outcome : LoadOutcome) : StartupLoad :=
  match outcome with
  | Abort => StartupAbort
  | Fresh c | LegacyUnsaved c | Valid c =>
    StartupReady (mkStartupSetup c (login_choice (sc_start_at_login c)) false)
  | FailedClosed _ => StartupReady (mkStartupSetup fail_closed_config None true)
  end.

(** Files and the JSON codec of [SetupConfig]. *)
Class SetupFiles (F : Type) : Type := {
  setup_files :: PauseFiles F;
  root_exists : F → bool;
  json_write : SetupConfig → option string;
  json_read : string → option SetupConfig
}.

Section loading.
Context {F : Type} `{SetupFiles F}.
(** [root/setup.json] and [root/setup.json.tmp]. *)
Context (target tmp : string).

Definition parse_setup (bytes : string) : option ParsedSetup :=
  match json_read bytes with
  | None => None
  | Some c =>
    if (sc_version c =? CURRENT_SETUP_VERSION)%Z then Some (mkParsedSetup c false)
    else if (sc_version c =? PRE_ACTIVITY_FOLLOWS_SCREEN_VERSION)%Z then
      Some (mkParsedSetup (set_desktop_activity_choices no_choices
                             (set_sc_version CURRENT_SETUP_VERSION c)) true)
    else None
  end.

Definition write_and_rename (bytes : string) : M F (result unit io_error) :=
  r ← write_synced tmp bytes;
  match r with
  | Err e => mret (Err e)
  | Ok _ => file_rename tmp target
  end.

Definition atomic_write_setup (c : SetupConfig) : M F (result unit io_error) :=
  exists_ ← gets root_exists;
  made ← (if exists_ : bool then mret (Ok tt) else create_parent target);
  match made with
  | Err e => mret (Err e)
  | Ok _ =>
    match json_write c with
    | None => mret (Err OtherError)
    | Some bytes =>
      res ← write_and_rename bytes;
      when (negb (is_ok res)) (_ ← file_remove tmp; mret tt) ;;
      mret res
    end
  end.

Definition read_failed_snapshot : SetupSnapshot :=
  let s := to_snapshot fail_closed_config in
  mkSetupSnapshot (sequence_enabled s) (setup_mic s) (setup_system_audio s) (setup_screen s)
    (setup_start_at_login s) (setup_wizard s) (setup_notice_dismissed s) (setup_desktop_activity s)
    (setup_desktop_activity_allowed s) (setup_desktop_activity_through_pause s)
    (setup_desktop_activity_window_titles s) (setup_desktop_activity_page_addresses s) false false false
    [] false None false false true None None false false false false false false false false
    (setup_desktop_activity_choices s).

Definition read_setup_snapshot (fs : F) : SetupSnapshot :=
  match file_read target fs with
  | Err NotFound => default_setup_snapshot
  | Err OtherError => read_failed_snapshot
  | Ok bytes =>
    match parse_setup bytes with
    | Some saved => to_snapshot (parsed_config saved)
    | None => read_failed_snapshot
    end
  end.

Definition load_or_classify : M F LoadOutcome :=
  r ← gets (file_read target);
  match r with
  | Ok bytes =>
    match parse_setup bytes with
    | Some saved =>
      when (parsed_upgraded saved) (_ ← atomic_write_setup (parsed_config saved); mret tt) ;;
      mret (Valid (parsed_config saved))
    | None => mret (FailedClosed fail_closed_config)
    end
  | Err OtherError => mret (FailedClosed fail_closed_config)
  | Err NotFound =>
    w ← atomic_write_setup fresh_config;
    match w with
    | Ok _ => mret (Fresh fresh_config)
    | Err _ => mret Abort
    end
  end.

Definition load_for_startup (sequence_on : bool) : M F LoadOutcome :=
  if sequence_on then load_or_classify
  else
    r ← gets (file_read target);
    match r with
    | Ok bytes =>
      match parse_setup bytes with
      | Some saved => mret (Valid (parsed_config saved))
      | None => mret (FailedClosed fail_closed_config)
      end
    | Err NotFound => mret (LegacyUnsaved (set_sc_notice_dismissed true legacy_config))
    | Err OtherError => mret (FailedClosed fail_closed_config)
    end.
End loading.

(** ** The authority *)

Record SetupAuthority : Type := mkSetupAuthority {
  sa_root : bool;
  sa_durable : SetupConfig;
  sa_running_mic : bool;
  sa_running_system_audio : bool;
  sa_running_screen : bool;
  sa_running_desktop_activity : bool;
  sa_running_through_pause : bool;
  sa_running_window_titles : bool;
  sa_running_page_addresses : bool;
  sa_failed_sources : list FailedSourceWrite;
  sa_wizard_save_failed : bool;
  sa_pending_wizard : option WizardStep;
  sa_notice_save_failed : bool;
  sa_login_apply_failed : bool;
  sa_pending_login : option bool;
  sa_pending_through_pause : option bool;
  sa_pending_window_titles : option bool;
  sa_pending_page_addresses : option bool;
  sa_through_pause_save_failed : bool;
  sa_window_titles_save_failed : bool;
  sa_page_addresses_save_failed : bool;
  sa_overlay : HandoffOverlay;
  sa_setup_read_failed : bool
}.

Definition set_sa_root (x : bool) (r : SetupAuthority) : SetupAuthority :=
    mkSetupAuthority x (sa_durable r) (sa_running_mic r) (sa_running_system_audio r)
    (sa_running_screen r) (sa_running_desktop_activity r) (sa_running_through_pause r)
    (sa_running_window_titles r) (sa_running_page_addresses r) (sa_failed_sources r)
    (sa_wizard_save_failed r) (sa_pending_wizard r) (sa_notice_save_failed r) (sa_login_apply_failed
    r) (sa_pending_login r) (sa_pending_through_pause r) (sa_pending_window_titles r)
    (sa_pending_page_addresses r) (sa_through_pause_save_failed r) (sa_window_titles_save_failed r)
    (sa_page_addresses_save_failed r) (sa_overlay r) (sa_setup_read_failed r).
Definition set_sa_durable (x : SetupConfig) (r : SetupAuthority) : SetupAuthority :=
    mkSetupAuthority (sa_root r) x (sa_running_mic r) (sa_running_system_audio r) (sa_running_screen
    r) (sa_running_desktop_activity r) (sa_running_through_pause r) (sa_running_window_titles r)
    (sa_running_page_addresses r) (sa_failed_sources r) (sa_wizard_save_failed r) (sa_pending_wizard
    r) (sa_notice_save_failed r) (sa_login_apply_failed r) (sa_pending_login r)
    (sa_pending_through_pause r) (sa_pending_window_titles r) (sa_pending_page_addresses r)
    (sa_through_pause_save_failed r) (sa_window_titles_save_failed r) (sa_page_addresses_save_failed
    r) (sa_overlay r) (sa_setup_read_failed r).
Definition set_sa_running_mic (x : bool) (r : SetupAuthority) : SetupAuthority :=
    mkSetupAuthority (sa_root r) (sa_durable r) x (sa_running_system_audio r) (sa_running_screen r)
    (sa_running_desktop_activity r) (sa_running_through_pause r) (sa_running_window_titles r)
    (sa_running_page_addresses r) (sa_failed_sources r) (sa_wizard_save_failed r) (sa_pending_wizard
    r) (sa_notice_save_failed r) (sa_login_apply_failed r) (sa_pending_login r)
    (sa_pending_through_pause r) (sa_pending_window_titles r) (sa_pending_page_addresses r)
    (sa_through_pause_save_failed r) (sa_window_titles_save_failed r) (sa_page_addresses_save_failed
    r) (sa_overlay r) (sa_setup_read_failed r).
Definition set_sa_running_system_audio (x : bool) (r : SetupAuthority) : SetupAuthority :=
    mkSetupAuthority (sa_root r) (sa_durable r) (sa_running_mic r) x (sa_running_screen r)
    (sa_running_desktop_activity r) (sa_running_through_pause r) (sa_running_window_titles r)
    (sa_running_page_addresses r) (sa_failed_sources r) (sa_wizard_save_failed r) (sa_pending_wizard
    r) (sa_notice_save_failed r) (sa_login_apply_failed r) (sa_pending_login r)
    (sa_pending_through_pause r) (sa_pending_window_titles r) (sa_pending_page_addresses r)
    (sa_through_pause_save_failed r) (sa_window_titles_save_failed r) (sa_page_addresses_save_failed
    r) (sa_overlay r) (sa_setup_read_failed r).
Definition set_sa_running_screen (x : bool) (r : SetupAuthority) : SetupAuthority :=
    mkSetupAuthority (sa_root r) (sa_durable r) (sa_running_mic r) (sa_running_system_audio r) x
    (sa_running_desktop_activity r) (sa_running_through_pause r) (sa_running_window_titles r)
    (sa_running_page_addresses r) (sa_failed_sources r) (sa_wizard_save_failed r) (sa_pending_wizard
    r) (sa_notice_save_failed r) (sa_login_apply_failed r) (sa_pending_login r)
    (sa_pending_through_pause r) (sa_pending_window_titles r) (sa_pending_page_addresses r)
    (sa_through_pause_save_failed r) (sa_window_titles_save_failed r) (sa_page_addresses_save_failed
    r) (sa_overlay r) (sa_setup_read_failed r).
Definition set_sa_running_desktop_activity (x : bool) (r : SetupAuthority) : SetupAuthority :=
    mkSetupAuthority (sa_root r) (sa_durable r) (sa_running_mic r) (sa_running_system_audio r)
    (sa_running_screen r) x (sa_running_through_pause r) (sa_running_window_titles r)
    (sa_running_page_addresses r) (sa_failed_sources r) (sa_wizard_save_failed r) (sa_pending_wizard
    r) (sa_notice_save_failed r) (sa_login_apply_failed r) (sa_pending_login r)
    (sa_pending_through_pause r) (sa_pending_window_titles r) (sa_pending_page_addresses r)
    (sa_through_pause_save_failed r) (sa_window_titles_save_failed r) (sa_page_addresses_save_failed
    r) (sa_overlay r) (sa_setup_read_failed r).
Definition set_sa_running_through_pause (x : bool) (r : SetupAuthority) : SetupAuthority :=
    mkSetupAuthority (sa_root r) (sa_durable r) (sa_running_mic r) (sa_running_system_audio r)
    (sa_running_screen r) (sa_running_desktop_activity r) x (sa_running_window_titles r)
    (sa_running_page_addresses r) (sa_failed_sources r) (sa_wizard_save_failed r) (sa_pending_wizard
    r) (sa_notice_save_failed r) (sa_login_apply_failed r) (sa_pending_login r)
    (sa_pending_through_pause r) (sa_pending_window_titles r) (sa_pending_page_addresses r)
    (sa_through_pause_save_failed r) (sa_window_titles_save_failed r) (sa_page_addresses_save_failed
    r) (sa_overlay r) (sa_setup_read_failed r).
Definition set_sa_running_window_titles (x : bool) (r : SetupAuthority) : SetupAuthority :=
    mkSetupAuthority (sa_root r) (sa_durable r) (sa_running_mic r) (sa_running_system_audio r)
    (sa_running_screen r) (sa_running_desktop_activity r) (sa_running_through_pause r) x
    (sa_running_page_addresses r) (sa_failed_sources r) (sa_wizard_save_failed r) (sa_pending_wizard
    r) (sa_notice_save_failed r) (sa_login_apply_failed r) (sa_pending_login r)
    (sa_pending_through_pause r) (sa_pending_window_titles r) (sa_pending_page_addresses r)
    (sa_through_pause_save_failed r) (sa_window_titles_save_failed r) (sa_page_addresses_save_failed
    r) (sa_overlay r) (sa_setup_read_failed r).
Definition set_sa_running_page_addresses (x : bool) (r : SetupAuthority) : SetupAuthority :=
    mkSetupAuthority (sa_root r) (sa_durable r) (sa_running_mic r) (sa_running_system_audio r)
    (sa_running_screen r) (sa_running_desktop_activity r) (sa_running_through_pause r)
    (sa_running_window_titles r) x (sa_failed_sources r) (sa_wizard_save_failed r)
    (sa_pending_wizard r) (sa_notice_save_failed r) (sa_login_apply_failed r) (sa_pending_login r)
    (sa_pending_through_pause r) (sa_pending_window_titles r) (sa_pending_page_addresses r)
    (sa_through_pause_save_failed r) (sa_window_titles_save_failed r) (sa_page_addresses_save_failed
    r) (sa_overlay r) (sa_setup_read_failed r).
Definition set_sa_failed_sources (x : list FailedSourceWrite) (r : SetupAuthority) : SetupAuthority :=
    mkSetupAuthority (sa_root r) (sa_durable r) (sa_running_mic r) (sa_running_system_audio r)
    (sa_running_screen r) (sa_running_desktop_activity r) (sa_running_through_pause r)
    (sa_running_window_titles r) (sa_running_page_addresses r) x (sa_wizard_save_failed r)
    (sa_pending_wizard r) (sa_notice_save_failed r) (sa_login_apply_failed r) (sa_pending_login r)
    (sa_pending_through_pause r) (sa_pending_window_titles r) (sa_pending_page_addresses r)
    (sa_through_pause_save_failed r) (sa_window_titles_save_failed r) (sa_page_addresses_save_failed
    r) (sa_overlay r) (sa_setup_read_failed r).
Definition set_sa_wizard_save_failed (x : bool) (r : SetupAuthority) : SetupAuthority :=
    mkSetupAuthority (sa_root r) (sa_durable r) (sa_running_mic r) (sa_running_system_audio r)
    (sa_running_screen r) (sa_running_desktop_activity r) (sa_running_through_pause r)
    (sa_running_window_titles r) (sa_running_page_addresses r) (sa_failed_sources r) x
    (sa_pending_wizard r) (sa_notice_save_failed r) (sa_login_apply_failed r) (sa_pending_login r)
    (sa_pending_through_pause r) (sa_pending_window_titles r) (sa_pending_page_addresses r)
    (sa_through_pause_save_failed r) (sa_window_titles_save_failed r) (sa_page_addresses_save_failed
    r) (sa_overlay r) (sa_setup_read_failed r).
Definition set_sa_pending_wizard (x : option WizardStep) (r : SetupAuthority) : SetupAuthority :=
    mkSetupAuthority (sa_root r) (sa_durable r) (sa_running_mic r) (sa_running_system_audio r)
    (sa_running_screen r) (sa_running_desktop_activity r) (sa_running_through_pause r)
    (sa_running_window_titles r) (sa_running_page_addresses r) (sa_failed_sources r)
    (sa_wizard_save_failed r) x (sa_notice_save_failed r) (sa_login_apply_failed r)
    (sa_pending_login r) (sa_pending_through_pause r) (sa_pending_window_titles r)
    (sa_pending_page_addresses r) (sa_through_pause_save_failed r) (sa_window_titles_save_failed r)
    (sa_page_addresses_save_failed r) (sa_overlay r) (sa_setup_read_failed r).
Definition set_sa_notice_save_failed (x : bool) (r : SetupAuthority) : SetupAuthority :=
    mkSetupAuthority (sa_root r) (sa_durable r) (sa_running_mic r) (sa_running_system_audio r)
    (sa_running_screen r) (sa_running_desktop_activity r) (sa_running_through_pause r)
    (sa_running_window_titles r) (sa_running_page_addresses r) (sa_failed_sources r)
    (sa_wizard_save_failed r) (sa_pending_wizard r) x (sa_login_apply_failed r) (sa_pending_login r)
    (sa_pending_through_pause r) (sa_pending_window_titles r) (sa_pending_page_addresses r)
    (sa_through_pause_save_failed r) (sa_window_titles_save_failed r) (sa_page_addresses_save_failed
    r) (sa_overlay r) (sa_setup_read_failed r).
Definition set_sa_login_apply_failed (x : bool) (r : SetupAuthority) : SetupAuthority :=
    mkSetupAuthority (sa_root r) (sa_durable r) (sa_running_mic r) (sa_running_system_audio r)
    (sa_running_screen r) (sa_running_desktop_activity r) (sa_running_through_pause r)
    (sa_running_window_titles r) (sa_running_page_addresses r) (sa_failed_sources r)
    (sa_wizard_save_failed r) (sa_pending_wizard r) (sa_notice_save_failed r) x (sa_pending_login r)
    (sa_pending_through_pause r) (sa_pending_window_titles r) (sa_pending_page_addresses r)
    (sa_through_pause_save_failed r) (sa_window_titles_save_failed r) (sa_page_addresses_save_failed
    r) (sa_overlay r) (sa_setup_read_failed r).
Definition set_sa_pending_login (x : option bool) (r : SetupAuthority) : SetupAuthority :=
    mkSetupAuthority (sa_root r) (sa_durable r) (sa_running_mic r) (sa_running_system_audio r)
    (sa_running_screen r) (sa_running_desktop_activity r) (sa_running_through_pause r)
    (sa_running_window_titles r) (sa_running_page_addresses r) (sa_failed_sources r)
    (sa_wizard_save_failed r) (sa_pending_wizard r) (sa_notice_save_failed r) (sa_login_apply_failed
    r) x (sa_pending_through_pause r) (sa_pending_window_titles r) (sa_pending_page_addresses r)
    (sa_through_pause_save_failed r) (sa_window_titles_save_failed r) (sa_page_addresses_save_failed
    r) (sa_overlay r) (sa_setup_read_failed r).
Definition set_sa_pending_through_pause (x : option bool) (r : SetupAuthority) : SetupAuthority :=
    mkSetupAuthority (sa_root r) (sa_durable r) (sa_running_mic r) (sa_running_system_audio r)
    (sa_running_screen r) (sa_running_desktop_activity r) (sa_running_through_pause r)
    (sa_running_window_titles r) (sa_running_page_addresses r) (sa_failed_sources r)
    (sa_wizard_save_failed r) (sa_pending_wizard r) (sa_notice_save_failed r) (sa_login_apply_failed
    r) (sa_pending_login r) x (sa_pending_window_titles r) (sa_pending_page_addresses r)
    (sa_through_pause_save_failed r) (sa_window_titles_save_failed r) (sa_page_addresses_save_failed
    r) (sa_overlay r) (sa_setup_read_failed r).
Definition set_sa_pending_window_titles (x : option bool) (r : SetupAuthority) : SetupAuthority :=
    mkSetupAuthority (sa_root r) (sa_durable r) (sa_running_mic r) (sa_running_system_audio r)
    (sa_running_screen r) (sa_running_desktop_activity r) (sa_running_through_pause r)
    (sa_running_window_titles r) (sa_running_page_addresses r) (sa_failed_sources r)
    (sa_wizard_save_failed r) (sa_pending_wizard r) (sa_notice_save_failed r) (sa_login_apply_failed
    r) (sa_pending_login r) (sa_pending_through_pause r) x (sa_pending_page_addresses r)
    (sa_through_pause_save_failed r) (sa_window_titles_save_failed r) (sa_page_addresses_save_failed
    r) (sa_overlay r) (sa_setup_read_failed r).
Definition set_sa_pending_page_addresses (x : option bool) (r : SetupAuthority) : SetupAuthority :=
    mkSetupAuthority (sa_root r) (sa_durable r) (sa_running_mic r) (sa_running_system_audio r)
    (sa_running_screen r) (sa_running_desktop_activity r) (sa_running_through_pause r)
    (sa_running_window_titles r) (sa_running_page_addresses r) (sa_failed_sources r)
    (sa_wizard_save_failed r) (sa_pending_wizard r) (sa_notice_save_failed r) (sa_login_apply_failed
    r) (sa_pending_login r) (sa_pending_through_pause r) (sa_pending_window_titles r) x
    (sa_through_pause_save_failed r) (sa_window_titles_save_failed r) (sa_page_addresses_save_failed
    r) (sa_overlay r) (sa_setup_read_failed r).
Definition set_sa_through_pause_save_failed (x : bool) (r : SetupAuthority) : SetupAuthority :=
    mkSetupAuthority (sa_root r) (sa_durable r) (sa_running_mic r) (sa_running_system_audio r)
    (sa_running_screen r) (sa_running_desktop_activity r) (sa_running_through_pause r)
    (sa_running_window_titles r) (sa_running_page_addresses r) (sa_failed_sources r)
    (sa_wizard_save_failed r) (sa_pending_wizard r) (sa_notice_save_failed r) (sa_login_apply_failed
    r) (sa_pending_login r) (sa_pending_through_pause r) (sa_pending_window_titles r)
    (sa_pending_page_addresses r) x (sa_window_titles_save_failed r) (sa_page_addresses_save_failed
    r) (sa_overlay r) (sa_setup_read_failed r).
Definition set_sa_window_titles_save_failed (x : bool) (r : SetupAuthority) : SetupAuthority :=
    mkSetupAuthority (sa_root r) (sa_durable r) (sa_running_mic r) (sa_running_system_audio r)
    (sa_running_screen r) (sa_running_desktop_activity r) (sa_running_through_pause r)
    (sa_running_window_titles r) (sa_running_page_addresses r) (sa_failed_sources r)
    (sa_wizard_save_failed r) (sa_pending_wizard r) (sa_notice_save_failed r) (sa_login_apply_failed
    r) (sa_pending_login r) (sa_pending_through_pause r) (sa_pending_window_titles r)
    (sa_pending_page_addresses r) (sa_through_pause_save_failed r) x (sa_page_addresses_save_failed
    r) (sa_overlay r) (sa_setup_read_failed r).
Definition set_sa_page_addresses_save_failed (x : bool) (r : SetupAuthority) : SetupAuthority :=
    mkSetupAuthority (sa_root r) (sa_durable r) (sa_running_mic r) (sa_running_system_audio r)
    (sa_running_screen r) (sa_running_desktop_activity r) (sa_running_through_pause r)
    (sa_running_window_titles r) (sa_running_page_addresses r) (sa_failed_sources r)
    (sa_wizard_save_failed r) (sa_pending_wizard r) (sa_notice_save_failed r) (sa_login_apply_failed
    r) (sa_pending_login r) (sa_pending_through_pause r) (sa_pending_window_titles r)
    (sa_pending_page_addresses r) (sa_through_pause_save_failed r) (sa_window_titles_save_failed r)
    x (sa_overlay r) (sa_setup_read_failed r).
Definition set_sa_overlay (x : HandoffOverlay) (r : SetupAuthority) : SetupAuthority :=
    mkSetupAuthority (sa_root r) (sa_durable r) (sa_running_mic r) (sa_running_system_audio r)
    (sa_running_screen r) (sa_running_desktop_activity r) (sa_running_through_pause r)
    (sa_running_window_titles r) (sa_running_page_addresses r) (sa_failed_sources r)
    (sa_wizard_save_failed r) (sa_pending_wizard r) (sa_notice_save_failed r) (sa_login_apply_failed
    r) (sa_pending_login r) (sa_pending_through_pause r) (sa_pending_window_titles r)
    (sa_pending_page_addresses r) (sa_through_pause_save_failed r) (sa_window_titles_save_failed r)
    (sa_page_addresses_save_failed r) x (sa_setup_read_failed r).
Definition set_sa_setup_read_failed (x : bool) (r : SetupAuthority) : SetupAuthority :=
    mkSetupAuthority (sa_root r) (sa_durable r) (sa_running_mic r) (sa_running_system_audio r)
    (sa_running_screen r) (sa_running_desktop_activity r) (sa_running_through_pause r)
    (sa_running_window_titles r) (sa_running_page_addresses r) (sa_failed_sources r)
    (sa_wizard_save_failed r) (sa_pending_wizard r) (sa_notice_save_failed r) (sa_login_apply_failed
    r) (sa_pending_login r) (sa_pending_through_pause r) (sa_pending_window_titles r)
    (sa_pending_page_addresses r) (sa_through_pause_save_failed r) (sa_window_titles_save_failed r)
    (sa_page_addresses_save_failed r) (sa_overlay r) x.

Definition new_authority : SetupAuthority :=
  mkSetupAuthority false fresh_config false false false DESKTOP_ACTIVITY_DEFAULT
    DESKTOP_ACTIVITY_THROUGH_PAUSE_DEFAULT DESKTOP_ACTIVITY_WINDOW_TITLES_DEFAULT
    DESKTOP_ACTIVITY_PAGE_ADDRESSES_DEFAULT [] false None false false None None None None false false false
    default_overlay false.

Definition set_root (a : SetupAuthority) : SetupAuthority := set_sa_root true a.
Definition set_handoff_overlay (o : HandoffOverlay) (a : SetupAuthority) : SetupAuthority := set_sa_overlay o a.

Definition seeded_config (s : SetupSnapshot) (c : SetupConfig) : SetupConfig :=
  let c := set_sc_mic (setup_mic s) (set_sc_system_audio (setup_system_audio s) (set_sc_screen (setup_screen s) c)) in
  let c := set_desktop_activity_choices (setup_desktop_activity_choices s) c in
  set_sc_start_at_login (setup_start_at_login s)
    (set_sc_notice_dismissed (setup_notice_dismissed s) (set_sc_wizard (setup_wizard s) c)).

Definition seed (s : SetupSnapshot) (a : SetupAuthority) : SetupAuthority :=
  mkSetupAuthority (sa_root a) (seeded_config s (sa_durable a)) (setup_mic s) (setup_system_audio s)
    (setup_screen s) (setup_desktop_activity_allowed s) (setup_desktop_activity_through_pause s)
    (setup_desktop_activity_window_titles s) (setup_desktop_activity_page_addresses s) [] false None false
    (setup_login_apply_failed s) None None None None false false false (sa_overlay a)
    (setup_read_failed_flag s).

Definition projection (a : SetupAuthority) : SetupSnapshot :=
  let o := sa_overlay a in
  mkSetupSnapshot SETUP_SEQUENCE_ENABLED (sa_running_mic a) (sa_running_system_audio a) (sa_running_screen a)
    (match sa_pending_login a with
     | Some choice => explicit_login choice
     | None => sc_start_at_login (sa_durable a)
     end)
    (sc_wizard (sa_durable a)) (sc_notice_dismissed (sa_durable a))
    (desktop_activity_runs (sa_running_desktop_activity a) (sa_running_screen a) (sa_running_through_pause a))
    (sa_running_desktop_activity a) (sa_running_through_pause a) (sa_running_window_titles a)
    (sa_running_page_addresses a) (sa_through_pause_save_failed a) (sa_window_titles_save_failed a)
    (sa_page_addresses_save_failed a) (sa_failed_sources a) (sa_wizard_save_failed a) (sa_pending_wizard a)
    (sa_notice_save_failed a) (sa_login_apply_failed a) (sa_setup_read_failed a) (ov_handoff_id o)
    (ov_handoff_revision o) (ov_handoff_expired o) (ov_handoff_new_connection o) (ov_handoff_deferred o)
    (ov_mailbox_busy o) (ov_handoff_rejected o) (ov_native_handoff_rejected o) (ov_handoff_persist_failed o)
    (ov_has_deferred_link o) (desktop_activity_choices (sa_durable a)).

Definition set_running (kind : SourceKind) (on : bool) (a : SetupAuthority) : SetupAuthority :=
  match kind with
  | Screen => set_sa_running_screen on a
  | SystemAudio => set_sa_running_system_audio on a
  | Mic => set_sa_running_mic on a
  | DesktopActivity => set_sa_running_desktop_activity on a
  end.

Fixpoint record_failed (kind : SourceKind) (on : bool) (l : list FailedSourceWrite) : list FailedSourceWrite :=
  match l with
  | [] => [mkFailedSourceWrite kind on]
  | f :: l =>
    if decide (failed_kind f = kind) then mkFailedSourceWrite (failed_kind f) on :: l
    else f :: record_failed kind on l
  end.

Definition record_failed_source (kind : SourceKind) (on : bool) (a : SetupAuthority) : SetupAuthority :=
  set_sa_failed_sources (record_failed kind on (sa_failed_sources a)) a.

Definition remove_failed_source (kind : SourceKind) (a : SetupAuthority) : SetupAuthority :=
  set_sa_failed_sources (filter (λ f, failed_kind f ≠ kind) (sa_failed_sources a)) a.

Definition apply_failed (fs : list FailedSourceWrite) (c : SetupConfig) : SetupConfig :=
  foldl (λ c f, put_source (failed_kind f) (attempted f) c) c fs.

Definition candidate_with_pending_off (a : SetupAuthority) : SetupConfig :=
  let c := sa_durable a in
  let c := match sa_pending_login a with
           | Some false => set_sc_start_at_login (explicit_login false) c
           | _ => c
           end in
  let c := if bool_decide (is_Some (sa_pending_through_pause a))
           then set_sc_through_pause (Some (sa_running_through_pause a)) c else c in
  let c := if bool_decide (is_Some (sa_pending_window_titles a))
           then set_sc_window_titles (Some (sa_running_window_titles a)) c else c in
  let c := if bool_decide (is_Some (sa_pending_page_addresses a))
           then set_sc_page_addresses (Some (sa_running_page_addresses a)) c else c in
  apply_failed (filter (λ f, attempted f = false) (sa_failed_sources a)) c.

Definition note_running (kind : SourceKind) (on : bool) (a : SetupAuthority) : SetupAuthority :=
  let a := set_running kind on a in
  if sa_root a then a
  else remove_failed_source kind (set_sa_durable (put_source kind on (sa_durable a)) a).

Definition set_login_apply_failed (failed : bool) (a : SetupAuthority) : SetupAuthority :=
  let a := set_sa_login_apply_failed failed a in
  if failed then a else set_sa_pending_login None a.

Definition pending_login (a : SetupAuthority) : option bool :=
  match sa_pending_login a with
  | Some choice => Some choice
  | None => if sa_login_apply_failed a then login_choice (sc_start_at_login (sa_durable a)) else None
  end.

(** The engine's view of the authority. *)
#[global] Instance setup_authority : SetupAuth SetupAuthority := {|
  auth_new := new_authority;
  auth_seed := seed;
  auth_note_running := note_running;
  auth_projection := projection
|}.

Record RetryOutcome : Type := mkRetryOutcome { retry_started : list SourceKind; retry_saved : bool }.

Record AuthIO (F : Type) : Type := mkAuthIO { au : SetupAuthority; disk : F }.
Arguments mkAuthIO {F} _ _.
Arguments au {F} _.
Arguments disk {F} _.

Section authority.
Context {F : Type} `{SetupFiles F} (target tmp : string).
Notation ops := (M (AuthIO F)).

Definition upd_auth (f : SetupAuthority → SetupAuthority) : ops unit :=
  modify (λ s, mkAuthIO (f (au s)) (disk s)).
Definition on_disk {B} (m : M F B) : ops B :=
  λ s, ((m (disk s)).1, mkAuthIO (au s) (m (disk s)).2).

(** The write, skipped when there is no root. *)
Definition write_setup (candidate : SetupConfig) : ops bool :=
  a ← gets au;
  if sa_root a then r ← on_disk (atomic_write_setup target tmp candidate); mret (is_ok r)
  else mret true.

Definition persist (candidate : SetupConfig) : ops bool :=
  ok ← write_setup candidate;
  if negb (ok : bool) then mret false
  else
    upd_auth (λ a, set_sa_failed_sources (filter (λ f, attempted f = true) (sa_failed_sources a))
                     (set_sa_setup_read_failed false (set_sa_durable candidate a))) ;;
    mret true.

Definition set_source (kind : SourceKind) (on : bool) : ops bool :=
  when (negb on) (upd_auth (set_running kind false)) ;;
  a ← gets au;
  saved ← persist (put_source kind on (candidate_with_pending_off a));
  if saved : bool then
    upd_auth (λ a, remove_failed_source kind (set_running kind on a)) ;; mret on
  else
    upd_auth (λ a, record_failed_source kind on (set_running kind false a)) ;; mret false.

Definition set_start_at_login (on : bool) : ops bool :=
  upd_auth (set_sa_pending_login (Some on)) ;;
  a ← gets au;
  persist (set_sc_start_at_login (explicit_login on) (candidate_with_pending_off a)).

Definition set_wizard_step (step : WizardStep) : ops bool :=
  a ← gets au;
  if sa_setup_read_failed a then mret false
  else
    saved ← persist (set_sc_wizard step (candidate_with_pending_off a));
    upd_auth (λ a, set_sa_pending_wizard (if saved : bool then None else Some step)
                     (set_sa_wizard_save_failed (negb saved) a)) ;;
    mret saved.

Definition dismiss_notice : ops bool :=
  a ← gets au;
  if sa_setup_read_failed a then mret false
  else
    saved ← persist (set_sc_notice_dismissed true (candidate_with_pending_off a));
    upd_auth (set_sa_notice_save_failed (negb saved)) ;;
    mret saved.

Definition set_desktop_activity_through_pause (on : bool) : ops bool :=
  when (negb on) (upd_auth (set_sa_running_through_pause false)) ;;
  a ← gets au;
  saved ← persist (set_sc_through_pause (Some on) (candidate_with_pending_off a));
  if saved : bool then
    upd_auth (λ a, set_sa_through_pause_save_failed false (set_sa_pending_through_pause None
                     (set_sa_running_through_pause on a))) ;; mret true
  else
    upd_auth (λ a, set_sa_through_pause_save_failed true (set_sa_pending_through_pause (Some on) a)) ;;
    mret false.

Definition set_desktop_activity_window_titles (on : bool) : ops bool :=
  when (negb on) (upd_auth (set_sa_running_window_titles false)) ;;
  a ← gets au;
  saved ← persist (set_sc_window_titles (Some on) (candidate_with_pending_off a));
  if saved : bool then
    upd_auth (λ a, set_sa_window_titles_save_failed false (set_sa_pending_window_titles None
                     (set_sa_running_window_titles on a))) ;; mret true
  else
    upd_auth (λ a, set_sa_window_titles_save_failed true (set_sa_pending_window_titles (Some on) a)) ;;
    mret false.

Definition set_desktop_activity_page_addresses (on : bool) : ops bool :=
  when (negb on) (upd_auth (set_sa_running_page_addresses false)) ;;
  a ← gets au;
  saved ← persist (set_sc_page_addresses (Some on) (candidate_with_pending_off a));
  if saved : bool then
    upd_auth (λ a, set_sa_page_addresses_save_failed false (set_sa_pending_page_addresses None
                     (set_sa_running_page_addresses on a))) ;; mret true
  else
    upd_auth (λ a, set_sa_page_addresses_save_failed true (set_sa_pending_page_addresses (Some on) a)) ;;
    mret false.

Definition set_desktop_activity_preferences (titles addresses : bool) : ops bool :=
  wt ← set_desktop_activity_window_titles titles;
  pa ← set_desktop_activity_page_addresses addresses;
  mret (wt && pa).

Definition retry_candidate (a : SetupAuthority) : SetupConfig :=
  let c := apply_failed (sa_failed_sources a) (sa_durable a) in
  let c := match sa_pending_wizard a with Some step => set_sc_wizard step c | None => c end in
  let c := if sa_notice_save_failed a then set_sc_notice_dismissed true c else c in
  let c := match sa_pending_login a with
           | Some choice => set_sc_start_at_login (explicit_login choice) c | None => c end in
  let c := match sa_pending_through_pause a with
           | Some choice => set_sc_through_pause (Some choice) c | None => c end in
  let c := match sa_pending_window_titles a with
           | Some choice => set_sc_window_titles (Some choice) c | None => c end in
  match sa_pending_page_addresses a with
  | Some choice => set_sc_page_addresses (Some choice) c
  | None => c
  end.

Definition nothing_to_retry (a : SetupAuthority) : bool :=
  sa_setup_read_failed a && bool_decide (sa_failed_sources a = []) && bool_decide (sa_pending_login a = None)
  && bool_decide (sa_pending_through_pause a = None) && bool_decide (sa_pending_window_titles a = None)
  && bool_decide (sa_pending_page_addresses a = None).

Definition retry : ops RetryOutcome :=
  a ← gets au;
  if nothing_to_retry a then mret (mkRetryOutcome [] true)
  else
    let candidate := retry_candidate a in
    ok ← write_setup candidate;
    if negb (ok : bool) then mret (mkRetryOutcome [] false)
    else
      upd_auth (λ a,
        set_sa_setup_read_failed false (set_sa_page_addresses_save_failed false
        (set_sa_window_titles_save_failed false (set_sa_through_pause_save_failed false
        (set_sa_pending_page_addresses None (set_sa_pending_window_titles None
        (set_sa_pending_through_pause None (set_sa_durable candidate
        (set_sa_running_page_addresses (desktop_activity_page_addresses candidate)
        (set_sa_running_window_titles (desktop_activity_window_titles candidate)
        (set_sa_running_through_pause (desktop_activity_through_pause candidate) a))))))))))) ;;
      a ← gets au;
      let failed := sa_failed_sources a in
      upd_auth (set_sa_failed_sources []) ;;
      for_each failed (λ f, upd_auth (set_running (failed_kind f) (attempted f))) ;;
      upd_auth (λ a, set_sa_notice_save_failed false (set_sa_pending_wizard None
                       (set_sa_wizard_save_failed false a))) ;;
      mret (mkRetryOutcome (failed_kind <$> filter (λ f, attempted f = true) failed) true).
End authority.

(** ** The login item *)

Inductive CopyClass : Type := Installed | Portable | Dev.
Inductive RegistryReadState : Type := RegAbsent | RegPresent (cmd : string) | RegUnreadable.
Inductive LoginDecision : Type := Ensure | Remove | Leave | LoginFailed.

Definition evaluate_login_decision (copy_class : CopyClass) (choice : option bool)
    (current : RegistryReadState) (my_command : string) (installed_owner_exists : option bool) : LoginDecision :=
  match choice with
  | None => Leave
  | Some choice =>
    match copy_class with
    | Dev => Leave
    | _ =>
      match current with
      | RegUnreadable => LoginFailed
      | RegAbsent | RegPresent _ =>
        if choice then
          match copy_class with
          | Installed => Ensure
          | Portable =>
            match installed_owner_exists with
            | Some true => Leave
            | Some false => Ensure
            | None => LoginFailed
            end
          | Dev => Leave
          end
        else
          match current with
          | RegPresent cmd => if eq_ignore_ascii_case cmd my_command then Remove else Leave
          | RegAbsent => Leave
          | RegUnreadable => LoginFailed
          end
      end
    end
  end.

(** ** Lemmas *)

Definition running (a : SetupAuthority) (k : SourceKind) : bool :=
  match k with
  | Screen => sa_running_screen a
  | SystemAudio => sa_running_system_audio a
  | Mic => sa_running_mic a
  | DesktopActivity => sa_running_desktop_activity a
  end.

(** The owner's switch for a source in a saved configuration. *)
Definition allows (c : SetupConfig) (k : SourceKind) : bool :=
  match k with
  | Screen => sc_screen c
  | SystemAudio => sc_system_audio c
  | Mic => sc_mic c
  | DesktopActivity => desktop_activity_allowed c
  end.

(** The three desktop-activity preferences, as saved and as applied. *)
Definition prefs (c : SetupConfig) : bool * bool * bool :=
  (desktop_activity_through_pause c, desktop_activity_window_titles c, desktop_activity_page_addresses c).
Definition applied (a : SetupAuthority) : bool * bool * bool :=
  (sa_running_through_pause a, sa_running_window_titles a, sa_running_page_addresses a).
Definition implied (p q : bool * bool * bool) : Prop :=
  (p.1.1 = true → q.1.1 = true) ∧ (p.1.2 = true → q.1.2 = true) ∧ (p.2 = true → q.2 = true).

Lemma implied_refl p : implied p p.
Proof. by repeat split. Qed.

(** [c] consents to everything [a] runs. *)
Definition covers (c : SetupConfig) (a : SetupAuthority) : Prop :=
  (∀ k, running a k = true → allows c k = true) ∧ implied (applied a) (prefs c).

Definition consented (a : SetupAuthority) : Prop :=
  covers (sa_durable a) a ∧ (∀ f, f ∈ sa_failed_sources a → running a (failed_kind f) = false) ∧
  NoDup (failed_kind <$> sa_failed_sources a).

Lemma allows_put k b c k' : allows (put_source k b c) k' = if decide (k' = k) then b else allows c k'.
Proof. by destruct k, k'. Qed.

Lemma prefs_put k b c : prefs (put_source k b c) = prefs c.
Proof. by destruct k. Qed.

Lemma version_put k b c : sc_version (put_source k b c) = sc_version c.
Proof. by destruct k. Qed.

Lemma running_set k b a k' : running (set_running k b a) k' = if decide (k' = k) then b else running a k'.
Proof. by destruct k, k'. Qed.

Lemma set_running_keeps k b a :
  applied (set_running k b a) = applied a ∧ sa_durable (set_running k b a) = sa_durable a ∧
  sa_failed_sources (set_running k b a) = sa_failed_sources a ∧ sa_root (set_running k b a) = sa_root a.
Proof. by destruct k. Qed.

(** Both folds over the failed writes let the last entry of a kind decide. *)
Definition last_word (k : SourceKind) (fs : list FailedSourceWrite) (b : bool) : bool :=
  foldl (λ b f, if decide (k = failed_kind f) then attempted f else b) b fs.

Lemma allows_apply_failed fs c k : allows (apply_failed fs c) k = last_word k fs (allows c k).
Proof.
  revert c. induction fs as [|f fs IH]; intros c; [done|]. cbn. fold (apply_failed fs).
  unfold apply_failed in IH. rewrite IH, allows_put. done.
Qed.

Lemma apply_failed_keeps fs c :
  prefs (apply_failed fs c) = prefs c ∧ sc_version (apply_failed fs c) = sc_version c.
Proof.
  revert c. induction fs as [|f fs IH]; intros c; [done|].
  destruct (IH (put_source (failed_kind f) (attempted f) c)) as [Hp Hv].
  rewrite prefs_put in Hp. rewrite version_put in Hv. by split.
Qed.

Lemma last_word_mono k fs b b' : (b = true → b' = true) → last_word k fs b = true → last_word k fs b' = true.
Proof.
  revert b b'. induction fs as [|f fs IH]; intros b b' Hb; [done|]. cbn. apply IH. by case_decide.
Qed.

Lemma last_word_other k fs b : (∀ f, f ∈ fs → failed_kind f ≠ k) → last_word k fs b = b.
Proof.
  revert b. induction fs as [|f fs IH]; intros b Hfs; [done|]. cbn.
  rewrite decide_False by (intros ->; by apply (Hfs f); [set_solver|]). apply IH. set_solver.
Qed.

Lemma last_word_off k fs b :
  (∀ f, f ∈ fs → failed_kind f = k → attempted f = false) →
  b = false ∨ (∃ f, f ∈ fs ∧ failed_kind f = k) → last_word k fs b = false.
Proof.
  revert b. induction fs as [|f fs IH]; intros b Hoff Hb; [destruct Hb as [|(? & ? & _)]; set_solver|].
  cbn. apply IH; [set_solver|]. case_decide as Hk; [left; by apply Hoff; [set_solver|]|].
  destruct Hb as [->|(g & [->|Hg]%elem_of_cons & Hgk)]; [by left|by destruct Hk|right; eauto].
Qed.

Lemma candidate_facts a :
  let c := candidate_with_pending_off a in
  sc_version c = sc_version (sa_durable a) ∧
  (∀ k, allows c k = last_word k (filter (λ f, attempted f = false) (sa_failed_sources a))
                       (allows (sa_durable a) k)) ∧
  (implied (applied a) (prefs (sa_durable a)) → implied (applied a) (prefs c)).
Proof.
  cbv zeta. unfold candidate_with_pending_off. set (fs := filter _ _).
  match goal with |- context [apply_failed fs ?x] => set (c := x) end.
  destruct (apply_failed_keeps fs c) as [-> ->].
  assert (Hc : sc_version c = sc_version (sa_durable a) ∧ (∀ k, allows c k = allows (sa_durable a) k) ∧
               (implied (applied a) (prefs (sa_durable a)) → implied (applied a) (prefs c))).
  { subst c. destruct (sa_pending_login a) as [[]|], (sa_pending_through_pause a), (sa_pending_window_titles a),
      (sa_pending_page_addresses a); cbn; (split; [done|]); (split; [by intros []|]); unfold implied; cbn; tauto. }
  destruct Hc as (-> & Ha & Hp). split; [done|]. split; [|exact Hp]. intros k. by rewrite allows_apply_failed, Ha.
Qed.

Lemma covers_candidate a : consented a → covers (candidate_with_pending_off a) a.
Proof.
  intros ([Hk Hp] & Hf & _). destruct (candidate_facts a) as (_ & Ha & Hprefs). split; [|by apply Hprefs].
  intros k Hr. rewrite Ha, last_word_other; [by apply Hk|]. intros f [_ Hin]%list_elem_of_filter Hfk.
  specialize (Hf f Hin). rewrite Hfk in Hf. congruence.
Qed.

Lemma NoDup_kinds_filter (P : FailedSourceWrite → Prop) `{∀ f, Decision (P f)} l :
  NoDup (failed_kind <$> l) → NoDup (failed_kind <$> filter P l).
Proof. intros Hnd. eapply sublist_NoDup; [exact Hnd|]. apply fmap_sublist, sublist_filter. Qed.

Lemma consented_off k a : consented a → consented (set_running k false a).
Proof.
  intros ([Hk Hp] & Hf & Hnd). destruct (set_running_keeps k false a) as (Ha & Hd & Hfs & _).
  unfold consented, covers. rewrite Ha, Hd, Hfs. split; [split; [|done]|split; [|done]].
  - intros k'. rewrite running_set. case_decide; [done|]. apply Hk.
  - intros f Hin. rewrite running_set. case_decide; [done|]. by apply Hf.
Qed.

(** What a successful save does to the authority. *)
Definition saved_as (c : SetupConfig) (a : SetupAuthority) : SetupAuthority :=
  set_sa_failed_sources (filter (λ f, attempted f = true) (sa_failed_sources a))
    (set_sa_setup_read_failed false (set_sa_durable c a)).

Lemma running_saved_as c a k : running (saved_as c a) k = running a k.
Proof. by destruct k. Qed.

Lemma consented_saved_as c a : covers c a → consented a → consented (saved_as c a).
Proof.
  intros [Hk Hp] (_ & Hf & Hnd). split; [split; [intros k; rewrite running_saved_as; apply Hk|exact Hp]|split].
  - intros f [_ Hin]%list_elem_of_filter. rewrite running_saved_as. by apply Hf.
  - by apply NoDup_kinds_filter.
Qed.

(** *** Invariants of the authority *)

(** What an invariant may read besides the preferences. *)
Definition core_eq (a a' : SetupAuthority) : Prop :=
  (∀ k, running a' k = running a k) ∧ sa_durable a' = sa_durable a ∧
  sa_failed_sources a' = sa_failed_sources a ∧ sa_root a' = sa_root a.

Class AuthInv (J : SetupAuthority → Prop) : Prop := {
  ai_implied a : J a → implied (applied a) (prefs (sa_durable a));
  ai_prefs a a' : J a → core_eq a a' → implied (applied a') (prefs (sa_durable a')) → J a';
  ai_saved a c :
    J a → (∀ k, allows c k = allows (candidate_with_pending_off a) k) →
    implied (applied a) (prefs c) → J (saved_as c a)
}.

#[global] Instance consented_inv : AuthInv consented.
Proof.
  split; [by intros a [[_ ?] _]| |].
  - intros a a' ([Hk Hp] & Hf & Hnd) (Hr & Hd & Hfs & _) Hp'. split; [split; [|done]|split; [|by rewrite Hfs]].
    + intros k. rewrite Hr, Hd. apply Hk.
    + intros f. rewrite Hfs, Hr. apply Hf.
  - intros a c Ha Hk Hp. apply consented_saved_as; [|done]. split; [|done].
    intros k Hr. rewrite Hk. by apply covers_candidate.
Qed.

(** The owner turned [k] off: it does not run, and the saved configuration
    has it off or the failed write is still on record. *)
Definition turned_off (k : SourceKind) (a : SetupAuthority) : Prop :=
  running a k = false ∧
  (∀ f, f ∈ sa_failed_sources a → failed_kind f = k → attempted f = false) ∧
  (allows (sa_durable a) k = false ∨ ∃ f, f ∈ sa_failed_sources a ∧ failed_kind f = k).

Lemma turned_off_candidate k a : turned_off k a → allows (candidate_with_pending_off a) k = false.
Proof.
  intros (_ & Hfs & Hoff). destruct (candidate_facts a) as (_ & -> & _). apply last_word_off.
  - intros f [_ Hin]%list_elem_of_filter. by apply Hfs.
  - destruct Hoff as [|(f & Hin & Hk)]; [by left|right]. exists f. split; [|done].
    apply list_elem_of_filter. split; [by apply Hfs|done].
Qed.

#[global] Instance turned_off_inv k : AuthInv (λ a, consented a ∧ turned_off k a).
Proof.
  split; [by intros a [[[_ ?] _] _]| |].
  - intros a a' [Hc Ht] Heq Hp. split; [by apply (ai_prefs a)|]. destruct Heq as (Hr & Hd & Hfs & _).
    unfold turned_off. by rewrite Hr, Hd, Hfs.
  - intros a c [Hc Ht] Hk Hp. split; [by apply ai_saved|]. split; [|split].
    + rewrite running_saved_as. apply Ht.
    + intros f [_ Hin]%list_elem_of_filter. by apply Ht.
    + left. cbn. rewrite Hk. by apply turned_off_candidate.
Qed.

(** *** Files *)

Class SetupFilesLaws (F : Type) `{SetupFiles F} : Prop := {
  setup_files_laws :: PauseFilesLaws F;
  json_round_trip c s : json_write c = Some s → json_read s = Some c
}.

Section authority_lemmas.
Context {F : Type} `{SetupFilesLaws F} (target tmp : string) (Htmp : tmp ≠ target).
Notation ops := (M (AuthIO F)).

(** The configuration the file holds. *)
Definition file_config (fs : F) : option SetupConfig :=
  match file_read target fs with
  | Ok bytes => parsed_config <$> parse_setup bytes
  | Err _ => None
  end.

Lemma atomic_write_reads c fs :
  let r := atomic_write_setup target tmp c fs in
  (r.1 = Ok tt → ∃ s, json_write c = Some s ∧ file_read target r.2 = Ok s) ∧
  (∀ e, r.1 = Err e → file_read target r.2 = file_read target fs).
Proof.
  cbv zeta. unfold atomic_write_setup. rewrite bind_run. cbn [gets fst snd]. rewrite bind_run.
  match goal with |- context [(?m fs).1] => set (made := m) end.
  assert (Hmade : file_read target (made fs).2 = file_read target fs).
  { subst made. destruct (root_exists fs); [done|]. apply create_parent_reads. }
  destruct (made fs) as [[[]|e] f1]; cbn in *; [|by split; [|congruence]].
  destruct (json_write c) as [s|] eqn:Hs; [|by split].
  unfold write_and_rename. rewrite !bind_run.
  pose proof (write_reads_other tmp target s f1 ltac:(done)) as Hw. pose proof (write_reads_back tmp s f1) as Hwb.
  destruct (write_synced tmp s f1) as [[[]|e] f2]; cbn in *.
  - pose proof (rename_ok tmp target f2) as Hr. pose proof (rename_err tmp target) as Hre.
    specialize (λ e, Hre e f2). destruct (file_rename tmp target f2) as [[[]|e] f3]; cbn in *.
    + split; [|done]. intros _. exists s. split; [done|]. rewrite Hr by done. by apply Hwb.
    + rewrite !bind_run. split; [done|]. intros e' _. cbn. rewrite remove_reads_other by done.
      rewrite (Hre e) by done. congruence.
  - rewrite !bind_run. split; [done|]. intros e' _. cbn. rewrite remove_reads_other by done. congruence.
Qed.

Lemma parse_current c s :
  sc_version c = CURRENT_SETUP_VERSION → json_write c = Some s → parse_setup s = Some (mkParsedSetup c false).
Proof. intros Hv Hs. unfold parse_setup. by rewrite (json_round_trip c s Hs), Hv. Qed.

Lemma atomic_write_config c fs :
  sc_version c = CURRENT_SETUP_VERSION →
  let r := atomic_write_setup target tmp c fs in
  file_config r.2 = if is_ok r.1 then Some c else file_config fs.
Proof.
  intros Hv. destruct (atomic_write_reads c fs) as [Hok Herr]. cbv zeta.
  unfold file_config. destruct (atomic_write_setup target tmp c fs) as [[[]|e] fs']; cbn in *.
  - destruct (Hok eq_refl) as (s & Hs & ->). by rewrite (parse_current c s).
  - by rewrite (Herr e).
Qed.

(** *** Saving *)

(** The file holds the durable configuration, and [J] holds. *)
Definition in_step (J : SetupAuthority → Prop) (st : AuthIO F) : Prop :=
  J (au st) ∧ sa_root (au st) = true ∧ sc_version (sa_durable (au st)) = CURRENT_SETUP_VERSION ∧
  file_config (disk st) = Some (sa_durable (au st)).

Context (J : SetupAuthority → Prop) `{!AuthInv J}.

Lemma write_setup_run c st :
  sa_root (au st) = true → sc_version c = CURRENT_SETUP_VERSION →
  ∃ (b : bool) d, write_setup target tmp c st = (b, mkAuthIO (au st) d) ∧
    file_config d = if b then Some c else file_config (disk st).
Proof.
  intros Hroot Hv. unfold write_setup. rewrite bind_run. cbn [gets fst snd]. rewrite Hroot, bind_run.
  unfold on_disk. cbn [fst snd]. do 2 eexists. split; [reflexivity|]. by apply atomic_write_config.
Qed.

Lemma persist_run c st :
  sa_root (au st) = true → sc_version c = CURRENT_SETUP_VERSION →
  ∃ (b : bool) d, persist target tmp c st = (b, mkAuthIO (if b then saved_as c (au st) else au st) d) ∧
    file_config d = if b then Some c else file_config (disk st).
Proof.
  intros Hroot Hv. destruct (write_setup_run c st Hroot Hv) as (b & d & Hw & Hd).
  unfold persist. rewrite bind_run, Hw. exists b, d. by destruct b.
Qed.
End authority_lemmas.

(** *** The operations, as functions of the authority *)

Definition first_off (k : SourceKind) (on : bool) (a : SetupAuthority) : SetupAuthority :=
  if on then a else set_running k false a.
Definition source_saved (k : SourceKind) (on : bool) (a : SetupAuthority) : SetupAuthority :=
  remove_failed_source k (set_running k on
    (saved_as (put_source k on (candidate_with_pending_off (first_off k on a))) (first_off k on a))).
Definition source_failed (k : SourceKind) (on : bool) (a : SetupAuthority) : SetupAuthority :=
  record_failed_source k on (set_running k false (first_off k on a)).

Definition run_failed (fs : list FailedSourceWrite) (a : SetupAuthority) : SetupAuthority :=
  foldl (λ a f, set_running (failed_kind f) (attempted f) a) a fs.

(** After a successful retry, as far as invariants read it. *)
Definition retried (a : SetupAuthority) : SetupAuthority :=
  let c := retry_candidate a in
  run_failed (sa_failed_sources a)
    (set_sa_failed_sources [] (set_sa_durable c
      (set_sa_running_page_addresses (desktop_activity_page_addresses c)
        (set_sa_running_window_titles (desktop_activity_window_titles c)
          (set_sa_running_through_pause (desktop_activity_through_pause c) a))))).

Lemma record_failed_elem k on l f :
  NoDup (failed_kind <$> l) → f ∈ record_failed k on l →
  f = mkFailedSourceWrite k on ∨ (f ∈ l ∧ failed_kind f ≠ k).
Proof.
  induction l as [|g l IH]; cbn; [set_solver|]. rewrite list.NoDup_cons. intros [Hg Hnd]. case_decide as Hk.
  - subst k. intros [->|Hf]%elem_of_cons; [by left|]. right. split; [set_solver|].
    intros Heq. apply Hg. rewrite <-Heq. by apply list_elem_of_fmap_2.
  - intros [->|Hf]%elem_of_cons; [right; set_solver|]. destruct (IH Hnd Hf) as [?|[? ?]]; set_solver.
Qed.

Lemma record_failed_has k on l f : f ∈ l → ∃ g, g ∈ record_failed k on l ∧ failed_kind g = failed_kind f.
Proof.
  induction l as [|h l IH]; cbn; [set_solver|]. intros Hf. case_decide as Hk.
  - apply elem_of_cons in Hf as [->|Hf]; [|exists f; set_solver].
    exists (mkFailedSourceWrite (failed_kind h) on). set_solver.
  - apply elem_of_cons in Hf as [->|Hf]; [exists h; set_solver|]. destruct (IH Hf) as (g & ? & ?).
    exists g. set_solver.
Qed.

Lemma record_failed_kinds k on l k' : k' ∈ failed_kind <$> record_failed k on l → k' = k ∨ k' ∈ failed_kind <$> l.
Proof.
  induction l as [|g l IH]; cbn; [set_solver|]. case_decide; cbn; set_solver.
Qed.

Lemma record_failed_NoDup k on l : NoDup (failed_kind <$> l) → NoDup (failed_kind <$> record_failed k on l).
Proof.
  induction l as [|g l IH]; cbn; [intros _; apply NoDup_singleton|].
  case_decide as Hk; [done|]. cbn. rewrite !list.NoDup_cons. intros [Hg Hnd]. split; [|by apply IH].
  intros [?|?]%record_failed_kinds; [by destruct Hk|done].
Qed.

Lemma running_run_failed fs a k : running (run_failed fs a) k = last_word k fs (running a k).
Proof.
  revert a. induction fs as [|f fs IH]; intros a; [done|]. cbn. fold (run_failed fs).
  unfold run_failed in IH. by rewrite IH, running_set.
Qed.

Lemma run_failed_keeps fs a :
  applied (run_failed fs a) = applied a ∧ sa_durable (run_failed fs a) = sa_durable a ∧
  sa_failed_sources (run_failed fs a) = sa_failed_sources a ∧ sa_root (run_failed fs a) = sa_root a.
Proof.
  revert a. induction fs as [|f fs IH]; intros a; [done|].
  destruct (IH (set_running (failed_kind f) (attempted f) a)) as (Ha & Hd & Hfs & Hr).
  destruct (set_running_keeps (failed_kind f) (attempted f) a) as (Ha' & Hd' & Hfs' & Hr').
  cbn. unfold run_failed in *. by rewrite Ha, Hd, Hfs, Hr.
Qed.

Lemma retry_candidate_facts a :
  sc_version (retry_candidate a) = sc_version (sa_durable a) ∧
  ∀ k, allows (retry_candidate a) k = last_word k (sa_failed_sources a) (allows (sa_durable a) k).
Proof.
  destruct (apply_failed_keeps (sa_failed_sources a) (sa_durable a)) as [_ Hv].
  pose proof (allows_apply_failed (sa_failed_sources a) (sa_durable a)) as Ha.
  unfold retry_candidate. destruct (sa_pending_wizard a), (sa_notice_save_failed a), (sa_pending_login a),
    (sa_pending_through_pause a), (sa_pending_window_titles a), (sa_pending_page_addresses a);
    (split; [exact Hv|]); intros k; rewrite <-Ha; by destruct k.
Qed.

Lemma retried_facts a :
  sa_durable (retried a) = retry_candidate a ∧ sa_failed_sources (retried a) = [] ∧
  applied (retried a) = prefs (retry_candidate a) ∧ sa_root (retried a) = sa_root a ∧
  ∀ k, running (retried a) k = last_word k (sa_failed_sources a) (running a k).
Proof.
  unfold retried. cbv zeta. set (a0 := set_sa_failed_sources [] _).
  destruct (run_failed_keeps (sa_failed_sources a) a0) as (-> & -> & -> & ->). split_and!; [done|done|done|done|].
  intros k. rewrite running_run_failed. by destruct k.
Qed.

(** Removing and recording failed writes. *)
Lemma core_remove k a :
  (∀ k', running (remove_failed_source k a) k' = running a k') ∧
  applied (remove_failed_source k a) = applied a ∧ sa_durable (remove_failed_source k a) = sa_durable a.
Proof. split; [by intros []|done]. Qed.

Lemma failed_remove k a :
  sa_failed_sources (remove_failed_source k a) = filter (λ f, failed_kind f ≠ k) (sa_failed_sources a).
Proof. done. Qed.

Lemma failed_record k on a :
  sa_failed_sources (record_failed_source k on a) = record_failed k on (sa_failed_sources a).
Proof. done. Qed.

Lemma core_record k on a :
  (∀ k', running (record_failed_source k on a) k' = running a k') ∧
  applied (record_failed_source k on a) = applied a ∧ sa_durable (record_failed_source k on a) = sa_durable a.
Proof. split; [by intros []|done]. Qed.

Lemma source_fields k on a :
  sa_root (source_saved k on a) = sa_root a ∧ sa_root (source_failed k on a) = sa_root a ∧
  sa_durable (source_saved k on a) = put_source k on (candidate_with_pending_off (first_off k on a)) ∧
  sa_durable (source_failed k on a) = sa_durable a ∧
  sa_root (first_off k on a) = sa_root a ∧ sa_durable (first_off k on a) = sa_durable a.
Proof. by destruct k, on. Qed.

Lemma first_off_consented k on a : consented a → consented (first_off k on a).
Proof. unfold first_off. destruct on; [done|]. apply consented_off. Qed.

Lemma consented_source_saved k on a : consented a → consented (source_saved k on a).
Proof.
  intros Ha%(first_off_consented k on). unfold source_saved. set (a1 := first_off k on a) in *.
  set (c := put_source k on (candidate_with_pending_off a1)).
  destruct (covers_candidate a1 Ha) as [Hk Hp]. destruct Ha as (_ & Hf & Hnd).
  destruct (core_remove k (set_running k on (saved_as c a1))) as (Hr & Happ & Hd).
  destruct (set_running_keeps k on (saved_as c a1)) as (Happ' & Hd' & Hfs & _).
  split; [split|].
  - intros k'. rewrite Hr, Hd, Hd', running_set, running_saved_as. unfold c. cbn. rewrite allows_put.
    case_decide; [done|]. apply Hk.
  - rewrite Happ, Happ', Hd, Hd'. unfold c. cbn. rewrite prefs_put. exact Hp.
  - split; [|cbn; rewrite Hfs; by do 2 apply NoDup_kinds_filter]. intros f. cbn. rewrite Hfs. intros [Hne [_ Hin]%list_elem_of_filter]%list_elem_of_filter.
    rewrite Hr, running_set, running_saved_as, decide_False by done. by apply Hf.
Qed.

Lemma consented_source_failed k on a : consented a → consented (source_failed k on a).
Proof.
  intros Ha%(first_off_consented k on). unfold source_failed. set (a1 := first_off k on a) in *.
  apply (consented_off k) in Ha. destruct Ha as ([Hk Hp] & Hf & Hnd).
  set (a2 := set_running k false a1) in *. destruct (core_record k on a2) as (Hr & Happ & Hd).
  assert (Hoff : running a2 k = false) by (unfold a2; by rewrite running_set, decide_True).
  split; [split|].
  - intros k'. rewrite Hr, Hd. apply Hk.
  - by rewrite Happ, Hd.
  - split; [|by apply record_failed_NoDup]. intros f Hin. rewrite Hr.
    apply record_failed_elem in Hin as [->|[Hin _]]; [done|by apply Hf|done].
Qed.

Lemma consented_retried a : consented a → consented (retried a).
Proof.
  intros ([Hk _] & _ & _). destruct (retried_facts a) as (Hd & Hfs & Ha & _ & Hr).
  destruct (retry_candidate_facts a) as [_ Hal]. split; [split|].
  - intros k. rewrite Hr, Hd, Hal. apply last_word_mono, Hk.
  - rewrite Ha, Hd. apply implied_refl.
  - rewrite Hfs. split; [set_solver|constructor].
Qed.

(** *** Turning a source off *)

Lemma turned_off_first k k' on a : turned_off k a → turned_off k (first_off k' on a).
Proof.
  intros (Hr & Hfs & Hoff). unfold first_off. destruct on; [done|]. unfold turned_off.
  destruct (set_running_keeps k' false a) as (_ & -> & -> & _). rewrite running_set. by case_decide.
Qed.

Lemma turned_off_source k k' on a :
  ¬ (k' = k ∧ on = true) → consented a → turned_off k a →
  turned_off k (source_saved k' on a) ∧ turned_off k (source_failed k' on a).
Proof.
  intros Hne Hc%(first_off_consented k' on) Ht%(turned_off_first k k' on). unfold source_saved, source_failed.
  set (a1 := first_off k' on a) in *. pose proof (turned_off_candidate k a1 Ht) as Hcand.
  destruct Ht as (Hr & Hfs & Hoff). destruct Hc as (_ & _ & Hnd).
  assert (Hon : k = k' → on = false) by (destruct on; [intros ->; by destruct Hne|done]). split.
  - set (c := put_source k' on (candidate_with_pending_off a1)).
    destruct (core_remove k' (set_running k' on (saved_as c a1))) as (Hr' & _ & Hd).
    destruct (set_running_keeps k' on (saved_as c a1)) as (_ & Hd' & Hfs' & _). split; [|split].
    + rewrite Hr', running_set, running_saved_as. case_decide; auto.
    + intros f. cbn. rewrite Hfs'. intros [_ [_ Hin]%list_elem_of_filter]%list_elem_of_filter. by apply Hfs.
    + left. rewrite Hd, Hd'. unfold c. cbn. rewrite allows_put. case_decide; auto.
  - set (a2 := set_running k' false a1). destruct (core_record k' on a2) as (Hr' & _ & Hd).
    destruct (set_running_keeps k' false a1) as (_ & Hd' & Hfs' & _). fold a2 in Hd', Hfs'. split; [|split].
    + rewrite Hr'. unfold a2. rewrite running_set. by case_decide.
    + intros f. cbn. rewrite Hfs'. intros [->|[Hin _]]%record_failed_elem Hk; [by apply Hon|by apply Hfs|done].
    + rewrite Hd, Hd'. cbn. rewrite Hfs'. destruct Hoff as [|(f & Hin & Hk)]; [by left|right].
      destruct (record_failed_has k' on _ f Hin) as (g & Hg & Hgk). exists g. split; [done|congruence].
Qed.

(** Turning [k] off puts it there, saved or not. *)
Lemma turning_off k a : consented a → turned_off k (source_saved k false a) ∧ turned_off k (source_failed k false a).
Proof.
  intros Hc%(first_off_consented k false). unfold source_saved, source_failed.
  set (a1 := first_off k false a) in *. destruct Hc as (_ & _ & Hnd). split.
  - set (c := put_source k false (candidate_with_pending_off a1)).
    destruct (core_remove k (set_running k false (saved_as c a1))) as (Hr & _ & Hd).
    destruct (set_running_keeps k false (saved_as c a1)) as (_ & Hd' & Hfs & _). split; [|split].
    + by rewrite Hr, running_set, decide_True.
    + intros f. rewrite failed_remove, Hfs. by intros [? _]%list_elem_of_filter.
    + left. rewrite Hd, Hd'. unfold c. cbn. by rewrite allows_put, decide_True.
  - set (a2 := set_running k false a1). destruct (core_record k false a2) as (Hr & _ & Hd).
    destruct (set_running_keeps k false a1) as (_ & Hd' & Hfs & _). fold a2 in Hd', Hfs. split; [|split].
    + rewrite Hr. unfold a2. by rewrite running_set, decide_True.
    + intros f. rewrite failed_record, Hfs. by intros [->|[_ ?]]%record_failed_elem.
    + right. exists (mkFailedSourceWrite k false). split; [|done]. rewrite failed_record. clear.
      induction (sa_failed_sources a2) as [|g l IH]; cbn; [set_solver|]. case_decide; set_solver.
Qed.

Lemma turned_off_retried k a : turned_off k a → turned_off k (retried a).
Proof.
  intros (Hr & Hfs & Hoff). destruct (retried_facts a) as (Hd & Hfs' & _ & _ & Hr').
  destruct (retry_candidate_facts a) as [_ Hal]. split; [|split].
  - rewrite Hr'. apply last_word_off; [done|by left].
  - rewrite Hfs'. set_solver.
  - left. rewrite Hd, Hal. by apply last_word_off.
Qed.

(** *** Commands on their way to the engine *)

(** What the engine notes when it handles the commands in turn. *)
Definition drained (q : list (SourceKind * bool)) (a : SetupAuthority) : SetupAuthority :=
  foldl (λ a kb, set_running kb.1 kb.2 a) a q.
(** The last command for a source among them. *)
Definition queued (k : SourceKind) (q : list (SourceKind * bool)) : option bool :=
  foldl (λ o kb, if decide (kb.1 = k) then Some kb.2 else o) None q.

Lemma queued_app k q q' :
  queued k (q ++ q') = match queued k q' with Some b => Some b | None => queued k q end.
Proof.
  unfold queued. rewrite foldl_app. set (f := λ (o : option bool) (kb : SourceKind * bool), if decide (kb.1 = k) then Some kb.2 else o).
  generalize (foldl f None q) as o. induction q' as [|[k' b] q' IH]; intros o; [done|]. cbn. rewrite (IH (f o (k', b))), (IH (f None (k', b))).
  destruct (foldl f None q'); [done|]. unfold f. by case_decide.
Qed.
Lemma running_drained q a k : running (drained q a) k = default (running a k) (queued k q).
Proof.
  induction q as [|[k' b] q IH] using rev_ind; [done|]. unfold drained in *. rewrite foldl_app, queued_app. cbn. rewrite running_set.
  destruct (decide (k' = k)) as [->|]; [by rewrite decide_True|]. by rewrite decide_False.
Qed.
Lemma drained_keeps q a :
  applied (drained q a) = applied a ∧ sa_durable (drained q a) = sa_durable a ∧
  sa_failed_sources (drained q a) = sa_failed_sources a ∧ sa_root (drained q a) = sa_root a ∧
  candidate_with_pending_off (drained q a) = candidate_with_pending_off a ∧ retry_candidate (drained q a) = retry_candidate a.
Proof.
  revert a. induction q as [|[k b] q IH]; intros a; [done|]. cbn. fold (drained q (set_running k b a)).
  destruct (IH (set_running k b a)) as (-> & -> & -> & -> & -> & ->). by destruct k.
Qed.
Lemma drained_saved q c a : drained q (saved_as c a) = saved_as c (drained q a).
Proof.
  revert a. induction q as [|[k b] q IH]; intros a; [done|]. cbn. fold (drained q). unfold drained in IH. rewrite <- IH. by destruct k.
Qed.
Lemma core_drained q a a' : core_eq a a' → core_eq (drained q a) (drained q a').
Proof.
  intros (Hr & Hd & Hf & Hroot). destruct (drained_keeps q a) as (_ & Ed & Ef & Er & _), (drained_keeps q a') as (_ & Ed' & Ef' & Er' & _).
  split_and!; [|congruence..]. intros k. by rewrite !running_drained, Hr.
Qed.

(** An invariant of what is to be once the commands are handled. *)
#[global] Instance drained_inv J q : AuthInv J → AuthInv (λ a, J (drained q a)).
Proof.
  intros HJ. split.
  - intros a Ha%ai_implied. destruct (drained_keeps q a) as (E1 & E2 & _). congruence.
  - intros a a' Ha Heq Hp. apply (ai_prefs (drained q a)); [done|by apply core_drained|]. destruct (drained_keeps q a') as (-> & -> & _). done.
  - intros a c Ha Hk Hp. rewrite drained_saved. destruct (drained_keeps q a) as (Happ & _ & _ & _ & Hc & _).
    apply ai_saved; [done|by rewrite Hc|by rewrite Happ].
Qed.

Lemma first_off_candidate k on a : candidate_with_pending_off (first_off k on a) = candidate_with_pending_off a.
Proof. by destruct on, k. Qed.
Lemma source_running k on a k' :
  running (source_saved k on a) k' = (if decide (k' = k) then on else running a k') ∧
  running (source_failed k on a) k' = (if decide (k' = k) then false else running a k') ∧
  sa_failed_sources (source_saved k on a) = filter (λ f, failed_kind f ≠ k) (filter (λ f, attempted f = true) (sa_failed_sources a)) ∧
  sa_failed_sources (source_failed k on a) = record_failed k on (sa_failed_sources a) ∧
  applied (source_saved k on a) = applied a ∧ applied (source_failed k on a) = applied a.
Proof. by destruct k, on, k'. Qed.

(** A source is switched and the command that says so is sent. *)
Lemma drained_source J `{!AuthInv J} q k on a :
  J (source_saved k on (drained q a)) → J (drained (q ++ [(k, on)]) (source_saved k on a)).
Proof.
  intros HJ. destruct (drained_keeps q a) as (E1 & E2 & E3 & E4 & E5 & _), (drained_keeps (q ++ [(k, on)]) (source_saved k on a)) as (F1 & F2 & F3 & F4 & _).
  destruct (source_fields k on a) as (R1 & _ & D1 & _), (source_fields k on (drained q a)) as (R1' & _ & D1' & _).
  rewrite first_off_candidate in D1, D1'. assert (Hd : sa_durable (drained (q ++ [(k, on)]) (source_saved k on a)) = sa_durable (source_saved k on (drained q a))) by congruence.
  assert (Happ : applied (drained (q ++ [(k, on)]) (source_saved k on a)) = applied (source_saved k on (drained q a))).
  { destruct (source_running k on a k) as (_ & _ & _ & _ & A1 & _), (source_running k on (drained q a) k) as (_ & _ & _ & _ & A2 & _). congruence. }
  eapply ai_prefs; [exact HJ|split_and!; [|exact Hd| |congruence]|rewrite Happ, Hd; by apply ai_implied].
  - intros k'. rewrite running_drained, queued_app. cbn. destruct (source_running k on a k') as (-> & _), (source_running k on (drained q a) k') as (-> & _).
    rewrite running_drained. by destruct (decide (k = k')), (decide (k' = k)).
  - rewrite F3. destruct (source_running k on a k) as (_ & _ & -> & _), (source_running k on (drained q a) k) as (_ & _ & -> & _). by rewrite E3.
Qed.
Lemma drained_failed J `{!AuthInv J} q k on a :
  J (source_failed k on (drained q a)) → J (drained (q ++ [(k, false)]) (source_failed k on a)).
Proof.
  intros HJ. destruct (drained_keeps q a) as (E1 & E2 & E3 & E4 & _), (drained_keeps (q ++ [(k, false)]) (source_failed k on a)) as (F1 & F2 & F3 & F4 & _).
  destruct (source_fields k on a) as (_ & R1 & _ & D1 & _), (source_fields k on (drained q a)) as (_ & R1' & _ & D1' & _).
  assert (Hd : sa_durable (drained (q ++ [(k, false)]) (source_failed k on a)) = sa_durable (source_failed k on (drained q a))) by congruence.
  assert (Happ : applied (drained (q ++ [(k, false)]) (source_failed k on a)) = applied (source_failed k on (drained q a))).
  { destruct (source_running k on a k) as (_ & _ & _ & _ & _ & A1), (source_running k on (drained q a) k) as (_ & _ & _ & _ & _ & A2). congruence. }
  eapply ai_prefs; [exact HJ|split_and!; [|exact Hd| |congruence]|rewrite Happ, Hd; by apply ai_implied].
  - intros k'. rewrite running_drained, queued_app. cbn. destruct (source_running k on a k') as (_ & -> & _), (source_running k on (drained q a) k') as (_ & -> & _).
    rewrite running_drained. by destruct (decide (k = k')), (decide (k' = k)).
  - rewrite F3. destruct (source_running k on a k) as (_ & _ & _ & -> & _), (source_running k on (drained q a) k) as (_ & _ & _ & -> & _). by rewrite E3.
Qed.

(** The failed writes that a retry carries out are sent as switches on. *)
Definition started_commands (fs : list FailedSourceWrite) : list (SourceKind * bool) :=
  (λ k, (k, true)) <$> (failed_kind <$> filter (λ f, attempted f = true) fs).
Lemma queued_started k fs :
  queued k (started_commands fs) = if decide (Exists (λ f, failed_kind f = k ∧ attempted f = true) fs) then Some true else None.
Proof.
  induction fs as [|f fs IH] using rev_ind; [rewrite decide_False; [done|intros Hx; inversion Hx]|].
  unfold started_commands in *. rewrite filter_app, !fmap_app, queued_app, IH. clear IH.
  destruct (decide (attempted f = true)) as [Ha|Ha].
  - rewrite filter_cons_True, filter_nil by done. cbn. destruct (decide (failed_kind f = k)) as [Hk|Hk].
    + rewrite decide_True; [done|]. apply Exists_app. right. by constructor.
    + apply decide_ext. rewrite Exists_app, Exists_cons, Exists_nil. tauto.
  - rewrite filter_cons_False, filter_nil by done. cbn. apply decide_ext. rewrite Exists_app, Exists_cons, Exists_nil. tauto.
Qed.
Lemma last_word_elem k fs f b :
  NoDup (failed_kind <$> fs) → f ∈ fs → failed_kind f = k → last_word k fs b = attempted f.
Proof.
  revert b. induction fs as [|g fs IH]; intros b Hnd Hin Hk; [set_solver|]. cbn in Hnd. apply list.NoDup_cons in Hnd as [Hg Hnd].
  cbn. apply elem_of_cons in Hin as [->|Hin]; [|by apply IH]. rewrite decide_True by done. apply last_word_other.
  intros h Hh Hhk. apply Hg. rewrite Hk, <- Hhk. by apply list_elem_of_fmap_2.
Qed.
Lemma drained_retried J `{!AuthInv J} q a :
  (∀ f, f ∈ sa_failed_sources a → running (drained q a) (failed_kind f) = false) → NoDup (failed_kind <$> sa_failed_sources a) →
  J (retried (drained q a)) → J (drained (q ++ started_commands (sa_failed_sources a)) (retried a)).
Proof.
  intros Hoff Hnd HJ. destruct (drained_keeps q a) as (E1 & E2 & E3 & E4 & _ & E6).
  destruct (drained_keeps (q ++ started_commands (sa_failed_sources a)) (retried a)) as (F1 & F2 & F3 & F4 & _).
  destruct (retried_facts a) as (Hd & Hf & Ha & Hr & Hrun), (retried_facts (drained q a)) as (Hd' & Hf' & Ha' & Hr' & Hrun').
  eapply ai_prefs; [exact HJ|split_and!; [|congruence..]|rewrite F1, F2, Ha, Hd; apply implied_refl].
  intros k. rewrite running_drained, queued_app, queued_started, Hrun, Hrun', E3.
  destruct (decide (Exists (λ f, failed_kind f = k) (sa_failed_sources a))) as [(f & Hin & Hk)%Exists_exists|Hno].
  - rewrite !(last_word_elem k _ f) by done. specialize (Hoff f Hin). rewrite Hk, running_drained in Hoff.
    destruct (attempted f) eqn:Hat; [rewrite decide_True by (apply Exists_exists; eauto); done|]. rewrite decide_False.
    + by destruct (queued k q).
    + intros (g & Hg & Hgk & Hga)%Exists_exists. rewrite <- (last_word_elem k _ g true Hnd Hg Hgk), (last_word_elem k _ f) in Hga by done. congruence.
  - rewrite !last_word_other by (intros f Hf0 Hk; apply Hno, Exists_exists; eauto).
    rewrite decide_False by (intros (f & ? & ? & _)%Exists_exists; apply Hno, Exists_exists; eauto). by rewrite running_drained.
Qed.

(** *** Every operation keeps the file and the authority in step *)

(** What the shell can ask of the authority; a retry comes with what applying
    the login item gives. *)
Inductive SetupOp : Type :=
| OpSource (kind : SourceKind) (on : bool)
| OpLogin (on : bool)
| OpLoginApplied (failed : bool)
| OpWizard (step : WizardStep)
| OpDismissNotice
| OpThroughPause (on : bool)
| OpTitles (on : bool)
| OpAddresses (on : bool)
| OpPreferences (titles addresses : bool)
| OpOverlay (o : HandoffOverlay)
| OpRetry (login_failed : bool).

(** The shell with the source switches it has sent and the engine not yet
    handled; they are sent under the lock of the authority. *)
Record Shell (F : Type) : Type := mkShell { sh_io : AuthIO F; sh_sent : list (SourceKind * bool) }.
Arguments mkShell {F} _ _.
Arguments sh_io {F} _.
Arguments sh_sent {F} _.
Inductive ShellInput : Type := Request (op : SetupOp) | EngineTurn.

(** The authority once the engine has handled what was sent. *)
Definition settled {F} (st : Shell F) : SetupAuthority :=
  foldl (λ a kb, note_running kb.1 kb.2 a) (au (sh_io st)) (sh_sent st).
Lemma settled_drained {F} (st : Shell F) : sa_root (au (sh_io st)) = true → settled st = drained (sh_sent st) (au (sh_io st)).
Proof.
  unfold settled, drained. generalize (au (sh_io st)). induction (sh_sent st) as [|[k b] q IH]; intros a Hr; [done|]. cbn.
  assert (note_running k b a = set_running k b a) as -> by (unfold note_running; destruct (set_running_keeps k b a) as (_ & _ & _ & ->); by rewrite Hr).
  apply IH. by destruct (set_running_keeps k b a) as (_ & _ & _ & ->).
Qed.

Section operations.
Context {F : Type} `{SetupFilesLaws F} (target tmp : string) (Htmp : tmp ≠ target).
Notation ops := (M (AuthIO F)).

Definition shell_set_source_enabled (kind : SourceKind) (on : bool) : ops (list (SourceKind * bool)) :=
  running ← set_source target tmp kind on; mret [(kind, running)].

(** The preferences it also sends do not come back to the authority. *)
Definition shell_retry_save (login_failed : bool) : ops (list (SourceKind * bool)) :=
  outcome ← retry target tmp;
  a ← gets au;
  match pending_login a with
  | Some enabled =>
    let login_failed := if retry_saved outcome || negb enabled then login_failed else true in
    upd_auth (set_login_apply_failed (login_failed || negb (retry_saved outcome)))
  | None => mret tt
  end ;;
  mret ((λ kind, (kind, true)) <$> retry_started outcome).

(** A request, and the source switches it sends. *)
Definition run_setup_op (op : SetupOp) : ops (list (SourceKind * bool)) :=
  match op with
  | OpSource kind on => shell_set_source_enabled kind on
  | OpLogin on => set_start_at_login target tmp on ;; mret []
  | OpLoginApplied failed => upd_auth (set_login_apply_failed failed) ;; mret []
  | OpWizard step => set_wizard_step target tmp step ;; mret []
  | OpDismissNotice => dismiss_notice target tmp ;; mret []
  | OpThroughPause on => set_desktop_activity_through_pause target tmp on ;; mret []
  | OpTitles on => set_desktop_activity_window_titles target tmp on ;; mret []
  | OpAddresses on => set_desktop_activity_page_addresses target tmp on ;; mret []
  | OpPreferences titles addresses => set_desktop_activity_preferences target tmp titles addresses ;; mret []
  | OpOverlay o => upd_auth (set_handoff_overlay o) ;; mret []
  | OpRetry login_failed => shell_retry_save login_failed
  end.

(** A request of the owner, or the engine handling the next switch: it notes
    it in the authority it shares with the shell. *)
Definition shell_step (i : ShellInput) (st : Shell F) : Shell F :=
  match i with
  | Request op => let '(sent, io) := run_setup_op op (sh_io st) in mkShell io (sh_sent st ++ sent)
  | EngineTurn =>
    match sh_sent st with
    | [] => st
    | (kind, on) :: q => mkShell (upd_auth (note_running kind on) (sh_io st)).2 q
    end
  end.
Definition shell_run (inputs : list ShellInput) (st : Shell F) : Shell F := foldl (λ st i, shell_step i st) st inputs.

(** [set_source], with what it tells. *)
Lemma set_source_step (J1 Js Jf : SetupAuthority → Prop) k on st :
  (∀ a, J1 a → Js (source_saved k on a) ∧ Jf (source_failed k on a)) → in_step target J1 st →
  ∃ saved : bool, (set_source target tmp k on st).1 = (if saved then on else false) ∧
    in_step target (if saved then Js else Jf) (set_source target tmp k on st).2.
Proof.
  intros Hboth (HJ & Hroot & Hv & Hfile). unfold set_source. rewrite !bind_run. cbn [gets fst snd].
  set (st1 := (when (negb on) (upd_auth (set_running k false)) st).2).
  assert (Hst1 : au st1 = first_off k on (au st) ∧ disk st1 = disk st) by (by destruct on).
  destruct Hst1 as [Hau Hdisk]. rewrite Hau. set (c := put_source k on _).
  destruct (source_fields k on (au st)) as (Hr1 & Hr2 & Hd1 & Hd2 & Hr0 & Hd0). fold c in Hd1.
  assert (Hcv : sc_version c = CURRENT_SETUP_VERSION).
  { unfold c. rewrite version_put. destruct (candidate_facts (first_off k on (au st))) as (-> & _). congruence. }
  destruct (persist_run target tmp Htmp c st1 ltac:(congruence) Hcv) as (b & d & Hp & Hd). rewrite Hp.
  destruct (Hboth (au st) HJ) as [Hok Hbad]. exists b. destruct b; cbn [fst snd]; rewrite !bind_run; rewrite Hau; (split; [done|]).
  - assert (Hend : in_step target Js (mkAuthIO (source_saved k on (au st)) d)); [|exact Hend].
    split_and!; cbn [au disk]; congruence.
  - assert (Hend : in_step target Jf (mkAuthIO (source_failed k on (au st)) d)); [|exact Hend].
    split_and!; cbn [au disk]; congruence.
Qed.

(** ** Requests that send nothing *)

Section quiet_requests.
Context (J : SetupAuthority → Prop) `{!AuthInv J}.
Notation S := (in_step target J).

Lemma step_upd f st :
  S st → core_eq (au st) (f (au st)) → implied (applied (f (au st))) (prefs (sa_durable (f (au st)))) →
  S (upd_auth f st).2.
Proof.
  intros (HJ & Hroot & Hv & Hfile) Heq Hp. pose proof Heq as (_ & Hd & _ & Hr). split_and!; cbn.
  - by apply (ai_prefs (au st)).
  - by rewrite Hr.
  - by rewrite Hd.
  - by rewrite Hd.
Qed.

(** An update that touches neither sources nor preferences. *)
Lemma step_cosmetic f st :
  (∀ a, core_eq a (f a) ∧ applied (f a) = applied a) → S st → S (upd_auth f st).2.
Proof.
  intros Hf Hst. destruct (Hf (au st)) as [Heq Ha]. apply step_upd; [done|done|]. rewrite Ha.
  destruct Heq as (_ & -> & _). by apply ai_implied, Hst.
Qed.

(** [c] is the candidate with anything but switches and preferences changed. *)
Definition like_candidate (a : SetupAuthority) (c : SetupConfig) : Prop :=
  sc_version c = sc_version (sa_durable a) ∧ (∀ k, allows c k = allows (candidate_with_pending_off a) k) ∧
  implied (applied a) (prefs c).

Lemma candidate_like a g :
  implied (applied a) (prefs (sa_durable a)) →
  (∀ c, sc_version (g c) = sc_version c ∧ (∀ k, allows (g c) k = allows c k) ∧
        (implied (applied a) (prefs c) → implied (applied a) (prefs (g c)))) →
  like_candidate a (g (candidate_with_pending_off a)).
Proof.
  intros Hc Hg. destruct (Hg (candidate_with_pending_off a)) as (Hv & Ha & Hp).
  destruct (candidate_facts a) as (Hv' & _ & Hpr). split; [congruence|]. split; [done|]. by apply Hp, Hpr.
Qed.

Lemma step_persist c st :
  S st → like_candidate (au st) c →
  let r := persist target tmp c st in
  S r.2 ∧ applied (au r.2) = applied (au st) ∧ (r.1 = true → sa_durable (au r.2) = c).
Proof.
  intros (HJ & Hroot & Hv & Hfile) (Hcv & Hk & Hp).
  destruct (persist_run target tmp Htmp c st Hroot ltac:(congruence)) as (b & d & -> & Hd).
  destruct b; cbn; (split; [|done]); split_and!; cbn; try done; try congruence. by apply ai_saved.
Qed.

Lemma run_failed_each fs (st : AuthIO F) :
  for_each fs (λ f, upd_auth (set_running (failed_kind f) (attempted f))) st =
  (tt, mkAuthIO (run_failed fs (au st)) (disk st)).
Proof.
  revert st. induction fs as [|f fs IH]; intros st; [by destruct st|]. cbn [for_each]. by rewrite bind_run, IH.
Qed.

(** A retry, with what it tells: nothing changed, or all failed writes done. *)
Lemma step_retry (Jd : SetupAuthority → Prop) `{!AuthInv Jd} st :
  (J (au st) → Jd (retried (au st))) → S st →
  (retry_started (retry target tmp st).1 = [] ∧ S (retry target tmp st).2) ∨
  (retry_started (retry target tmp st).1 = failed_kind <$> filter (λ f, attempted f = true) (sa_failed_sources (au st)) ∧
   in_step target Jd (retry target tmp st).2).
Proof.
  intros Hretry (HJ & Hroot & Hv & Hfile). unfold retry. rewrite bind_run. cbn [gets fst snd].
  destruct (nothing_to_retry (au st)); [left; by split_and!|]. cbv zeta.
  destruct (retry_candidate_facts (au st)) as [Hcv _].
  destruct (write_setup_run target tmp Htmp (retry_candidate (au st)) st Hroot ltac:(congruence)) as (b & d & Hw & Hd).
  rewrite bind_run, Hw. destruct b; cbn [fst snd negb]; [|left; split; [done|]; split_and!; cbn; congruence].
  right. rewrite !bind_run. cbn [gets fst snd upd_auth modify au disk].
  rewrite run_failed_each. cbn [fst snd au disk]. split; [done|].
  set (a0 := set_sa_failed_sources [] _).
  destruct (retried_facts (au st)) as (Hrd & Hrf & Hra & Hrt' & Hrr).
  destruct (run_failed_keeps (sa_failed_sources (au st)) a0) as (Ha & Hda & Hfa & Hra0).
  assert (Hsame : ∀ a', core_eq (run_failed (sa_failed_sources (au st)) a0) a' →
                    applied a' = applied (run_failed (sa_failed_sources (au st)) a0) → in_step target Jd (mkAuthIO a' d)).
  { intros a' (Hr & Hdd & Hff & Hrt) Happ. split_and!; cbn [au disk].
    - apply (ai_prefs (retried (au st))); [by apply Hretry| |].
      + split_and!; [|by rewrite Hdd, Hda, Hrd|by rewrite Hff, Hfa, Hrf|].
        * intros k. rewrite Hr, running_run_failed, Hrr. by destruct k.
        * by rewrite Hrt, Hra0, Hrt'.
      + rewrite Happ, Ha, Hdd, Hda. apply implied_refl.
    - rewrite Hrt, Hra0. exact Hroot.
    - rewrite Hdd, Hda. cbn. congruence.
    - rewrite Hdd, Hda. exact Hd. }
  apply Hsame; [|done]. by split_and!.
Qed.

Lemma step_login on : pres S (set_start_at_login target tmp on).
Proof.
  intros st Hst. unfold set_start_at_login. rewrite bind_run.
  assert (Hst1 : S (upd_auth (set_sa_pending_login (Some on)) st).2).
  { apply step_cosmetic; [|done]. intros a. split; [|done]. by split_and!. }
  revert Hst1. generalize (upd_auth (set_sa_pending_login (Some on)) st).2. clear st Hst. intros st Hst.
  rewrite bind_run. cbn [gets fst snd]. apply step_persist; [done|].
  apply (candidate_like (au st) (set_sc_start_at_login (explicit_login on))); [by apply ai_implied, Hst|].
  intros c. split; [done|]. split; [by intros []|done].
Qed.

(** A cosmetic candidate saved, then a cosmetic update. *)
Lemma step_wizard step : pres S (set_wizard_step target tmp step).
Proof.
  intros st Hst. unfold set_wizard_step. rewrite bind_run. cbn [gets fst snd].
  destruct (sa_setup_read_failed (au st)); [done|]. rewrite bind_run.
  destruct (step_persist (set_sc_wizard step (candidate_with_pending_off (au st))) st Hst) as (Hst' & _ & _).
  { apply candidate_like; [by apply ai_implied, Hst|]. intros c. split; [done|]. split; [by intros []|done]. }
  rewrite bind_run. apply step_cosmetic; [|done]. intros a. split; [|done]. by split_and!.
Qed.

Lemma step_notice : pres S (dismiss_notice target tmp).
Proof.
  intros st Hst. unfold dismiss_notice. rewrite bind_run. cbn [gets fst snd].
  destruct (sa_setup_read_failed (au st)); [done|]. rewrite bind_run.
  destruct (step_persist (set_sc_notice_dismissed true (candidate_with_pending_off (au st))) st Hst) as (Hst' & _ & _).
  { apply candidate_like; [by apply ai_implied, Hst|]. intros c. split; [done|]. split; [by intros []|done]. }
  rewrite bind_run. apply step_cosmetic; [|done]. intros a. split; [|done]. by split_and!.
Qed.

(** A preference is lowered at once when turned off and raised only once
    saved; [running_] and [put] are its two setters. *)
Ltac preference_op on running_ put :=
  let st := fresh "st" in let Hst := fresh "Hst" in let Hoff := fresh "Hoff" in
  intros st Hst; rewrite bind_run;
  assert (Hoff : S (when (negb on) (upd_auth (running_ false)) st).2 ∧
            (on = true ∨ applied (au (when (negb on) (upd_auth (running_ false)) st).2)
               = applied (running_ false (au (when (negb on) (upd_auth (running_ false)) st).2))));
  [ destruct on; cbn [negb when]; [split; [exact Hst|by left]|split; [|by right]];
    apply step_upd; [exact Hst|by split_and!|];
    pose proof (ai_implied _ (proj1 Hst)); unfold implied, applied, prefs in *; cbn in *; intuition congruence
  | revert Hoff; generalize (when (negb on) (upd_auth (running_ false)) st).2; clear st Hst;
    intros st [Hst Hoff]; rewrite bind_run; cbn [gets fst snd]; rewrite bind_run;
    assert (Hlike : like_candidate (au st) (put (Some on) (candidate_with_pending_off (au st))));
    [ apply candidate_like; [by apply ai_implied, Hst|]; intros c; split; [done|]; split; [by intros []|];
      unfold implied, applied, prefs; cbn; destruct Hoff as [->|Hoff]; [cbn; tauto|];
      unfold applied in *; cbn in *; injection Hoff; intros; destruct on; cbn; intuition congruence
    | destruct (step_persist _ st Hst Hlike) as (Hst' & Happ & Hdur);
      destruct (persist target tmp _ st) as [[] st']; cbn [fst snd] in *; rewrite bind_run;
      [ apply step_upd; [exact Hst'|by split_and!|];
        destruct Hlike as (_ & _ & Hp); rewrite <-Happ in Hp;
        unfold implied, applied, prefs in *; cbn in *; rewrite (Hdur eq_refl); cbn; intuition congruence
      | apply step_cosmetic; [|exact Hst']; intros a; split; [|done]; by split_and! ] ] ].

Lemma step_through on : pres S (set_desktop_activity_through_pause target tmp on).
Proof. unfold set_desktop_activity_through_pause. preference_op on set_sa_running_through_pause set_sc_through_pause. Qed.

Lemma step_titles on : pres S (set_desktop_activity_window_titles target tmp on).
Proof. unfold set_desktop_activity_window_titles. preference_op on set_sa_running_window_titles set_sc_window_titles. Qed.

Lemma step_addresses on : pres S (set_desktop_activity_page_addresses target tmp on).
Proof. unfold set_desktop_activity_page_addresses. preference_op on set_sa_running_page_addresses set_sc_page_addresses. Qed.

Lemma step_login_applied failed : pres S (upd_auth (set_login_apply_failed failed)).
Proof. intros st. apply step_cosmetic. intros a. destruct failed; (split; [|done]); by split_and!. Qed.

Definition sends (op : SetupOp) : bool := match op with OpSource _ _ | OpRetry _ => true | _ => false end.
Lemma step_quiet op st : sends op = false → S st → (run_setup_op op st).1 = [] ∧ S (run_setup_op op st).2.
Proof.
  assert (Hq : ∀ B (m : ops B), pres S m → S st → ((m ;; mret []) st).1 = ([] : list (SourceKind * bool)) ∧ S ((m ;; mret ([] : list (SourceKind * bool))) st).2).
  { intros B m Hm Hst. rewrite bind_run. split; [done|]. by apply Hm. }
  intros Hs. destruct op; try done; cbn [run_setup_op]; apply Hq.
  - apply step_login.
  - apply step_login_applied.
  - apply step_wizard.
  - apply step_notice.
  - apply step_through.
  - apply step_titles.
  - apply step_addresses.
  - unfold set_desktop_activity_preferences.
    apply pres_bind; [apply step_titles|]. intros ?. apply pres_bind; [apply step_addresses|]. intros ?. apply pres_ret.
  - intros st'. apply step_cosmetic. intros a. split; [|done]. by split_and!.
Qed.
End quiet_requests.

(** ** The shell and the engine *)

(** [J] holds once the engine has handled what was sent. *)
Definition shell_ok (J : SetupAuthority → Prop) (st : Shell F) : Prop :=
  in_step target (λ a, J (drained (sh_sent st) a)) (sh_io st).

Lemma shell_source (J1 J2 : SetupAuthority → Prop) `{!AuthInv J2} k on st :
  (∀ a, J1 a → J2 (source_saved k on a) ∧ J2 (source_failed k on a)) →
  shell_ok J1 st → shell_ok J2 (shell_step (Request (OpSource k on)) st).
Proof.
  intros Hboth Hst. set (q := sh_sent st).
  destruct (set_source_step (λ a, J1 (drained q a)) (λ a, J2 (drained (q ++ [(k, on)]) a)) (λ a, J2 (drained (q ++ [(k, false)]) a)) k on (sh_io st))
    as (saved & Hr & Hend).
  - intros a Ha. destruct (Hboth _ Ha). split; [by apply drained_source|by apply drained_failed].
  - exact Hst.
  - unfold shell_step, shell_ok. cbn [run_setup_op]. unfold shell_set_source_enabled. rewrite bind_run. cbn [mret state_ret fst snd sh_io sh_sent].
    rewrite Hr. fold q. by destruct saved.
Qed.

Context (J : SetupAuthority → Prop) `{!AuthInv J} (may : SourceKind → bool → Prop)
  (Hcons : ∀ a, J a → consented a)
  (Hsource : ∀ k on a, may k on → J a → J (source_saved k on a) ∧ J (source_failed k on a))
  (Hretry : ∀ a, J a → J (retried a)).

Lemma shell_retry b st : shell_ok J st → shell_ok J (shell_step (Request (OpRetry b)) st).
Proof.
  intros Hst. unfold shell_step, shell_ok. cbn [run_setup_op]. unfold shell_retry_save. rewrite !bind_run. cbn [gets fst snd].
  set (q := sh_sent st). set (r := retry target tmp (sh_io st)). cbn [mret state_ret fst snd].
  match goal with |- context [(?m r.2).2] => set (m0 := m) end. cbn [sh_io sh_sent].
  assert (Hm : ∀ q', pres (in_step target (λ a, J (drained q' a))) m0).
  { intros q'. unfold m0. destruct (pending_login _); [|apply pres_ret]. apply step_login_applied, _. }
  apply Hm. clearbody m0. subst r. change (in_step target (λ a, J (drained q a)) (sh_io st)) in Hst.
  destruct (step_retry (λ a, J (drained q a)) (λ a, J (drained (q ++ started_commands (sa_failed_sources (au (sh_io st)))) a)) (sh_io st)) as [[-> Hend]|[-> Hend]].
  - intros Ha. pose proof (Hcons _ Ha) as (_ & Hoff & Hnd). destruct (drained_keeps q (au (sh_io st))) as (_ & _ & Hf & _).
    rewrite Hf in Hoff, Hnd. apply (drained_retried J); [done|done|by apply Hretry].
  - exact Hst.
  - by rewrite fmap_nil, app_nil_r.
  - exact Hend.
Qed.

Lemma shell_turn st : shell_ok J st → shell_ok J (shell_step EngineTurn st).
Proof.
  intros Hst. unfold shell_step. destruct (sh_sent st) as [|[k b] q] eqn:Hq; [done|]. unfold shell_ok in *. rewrite Hq in Hst. cbn [sh_io sh_sent].
  destruct Hst as (HJ & Hroot & Hv & Hfile). destruct (set_running_keeps k b (au (sh_io st))) as (_ & Hd & _ & Hr).
  assert (Hn : note_running k b (au (sh_io st)) = set_running k b (au (sh_io st))) by (unfold note_running; by rewrite Hr, Hroot).
  unfold upd_auth, modify. cbn [snd]. rewrite Hn. split_and!; cbn [au disk]; [exact HJ|congruence..].
Qed.

Definition input_may (i : ShellInput) : Prop := match i with Request (OpSource k on) => may k on | _ => True end.
Lemma shell_input i st : input_may i → shell_ok J st → shell_ok J (shell_step i st).
Proof.
  intros Hi Hst. destruct i as [op|]; [|by apply shell_turn]. destruct (sends op) eqn:Hs.
  - destruct op; try done; [|by apply shell_retry]. eapply (shell_source J J); [|exact Hst]. intros a. by apply Hsource.
  - unfold shell_step. destruct (step_quiet (λ a, J (drained (sh_sent st) a)) op (sh_io st) Hs Hst) as [Hsent Hend].
    unfold shell_ok. destruct (run_setup_op op (sh_io st)) as [sent io]. cbn in *. subst sent. by rewrite app_nil_r.
Qed.
Lemma shell_inputs inputs st : Forall input_may inputs → shell_ok J st → shell_ok J (shell_run inputs st).
Proof.
  intros Hall. revert st. induction Hall as [|i l Hi _ IH]; intros st Hst; [done|]. cbn. apply IH. by apply shell_input.
Qed.
End operations.

(** ** Properties *)

(** Where a run of the authority begins: the file holds [c] and the authority
    is seeded from it. *)
Definition startup_authority (c : SetupConfig) : SetupAuthority := seed (to_snapshot c) (set_root new_authority).

Lemma startup_consented c : consented (startup_authority c).
Proof.
  split; [split|split; [cbn; set_solver|constructor]].
  - intros k. by destruct c, k.
  - apply implied_refl.
Qed.

Lemma startup_durable c :
  sc_version c = CURRENT_SETUP_VERSION → sa_durable (startup_authority c) = c.
Proof. destruct c. cbn. by intros ->. Qed.

(** A configuration read from a file is of the current version. *)
Lemma file_config_version {F} `{SetupFiles F} target (fs : F) c :
  file_config target fs = Some c → sc_version c = CURRENT_SETUP_VERSION.
Proof.
  unfold file_config, parse_setup. destruct (file_read target fs) as [bytes|]; [|done].
  destruct (json_read bytes) as [c'|]; [|done].
  destruct (Z.eqb_spec (sc_version c') CURRENT_SETUP_VERSION); [by intros [= <-]|].
  case_match; [|done]. by intros [= <-].
Qed.

Lemma startup_in_step {F} `{SetupFiles F} target (fs : F) c :
  file_config target fs = Some c →
  in_step target consented (mkAuthIO (startup_authority c) fs).
Proof.
  intros Hfile. pose proof (file_config_version target fs c Hfile) as Hv. split_and!; cbn [au disk]; [apply startup_consented|done| |]; by rewrite startup_durable.
Qed.

Lemma covers_snapshot c a k :
  covers c a → snapshot_enabled (projection a) k = true → snapshot_enabled (to_snapshot c) k = true.
Proof.
  intros [Hk (Ht & _ & _)]. destruct k; [apply (Hk Screen)|apply (Hk SystemAudio)|apply (Hk Mic)|].
  cbn. unfold desktop_activity_enabled, desktop_activity_runs. rewrite !andb_true_iff, !orb_true_iff.
  pose proof (Hk DesktopActivity). pose proof (Hk Screen). cbn in *. tauto.
Qed.

Lemma load_current {F} `{SetupFilesLaws F} target tmp (fs : F) c :
  file_config target fs = Some c → (load_or_classify target tmp fs).1 = Valid c.
Proof.
  unfold file_config, load_or_classify. rewrite bind_run. cbn [gets fst snd].
  destruct (file_read target fs) as [bytes|]; [|done]. destruct (parse_setup bytes) as [[c' up]|]; [|done].
  cbn. intros [= ->]. by rewrite bind_run.
Qed.

(** The shell as it starts, with nothing sent. *)
Definition startup_shell {F} (c : SetupConfig) (fs : F) : Shell F := mkShell (mkAuthIO (startup_authority c) fs) [].
Lemma startup_ok {F} `{SetupFiles F} target (fs : F) c :
  file_config target fs = Some c → shell_ok target consented (startup_shell c fs).
Proof. apply startup_in_step. Qed.
Lemma consented_run {F} `{SetupFilesLaws F} target tmp inputs (st : Shell F) :
  tmp ≠ target → shell_ok target consented st → shell_ok target consented (shell_run target tmp inputs st).
Proof.
  intros Htmp. apply (shell_inputs target tmp Htmp consented (λ _ _, True)); try done.
  - intros k on a _ Ha. split; [by apply consented_source_saved|by apply consented_source_failed].
  - apply consented_retried.
  - by apply Forall_forall; intros [[]|].
Qed.

(** C14. Nothing runs without saved consent. From the moment the authority is
    seeded with what the file holds, after any sequence of requests, with the
    engine handling the switches sent to it at any time in between and whatever
    the disk does, the file is exactly what the authority believes is saved,
    the next start loads it, and it consents to every source that will be in
    effect once the engine has handled what was sent, and to every
    desktop-activity preference in effect now. A source that runs now without
    its consent is one whose switch-off is on its way to the engine. *)
Theorem running_needs_saved_consent {F : Type} `{SetupFilesLaws F} (target tmp : string) (c : SetupConfig)
    (fs : F) (inputs : list ShellInput)
    (Htmp : tmp ≠ target) (Hfile : file_config target fs = Some c) :
  let st := shell_run target tmp inputs (startup_shell c fs) in
  let now := projection (au (sh_io st)) in
  ∃ saved, (load_or_classify target tmp (disk (sh_io st))).1 = Valid saved ∧ saved = sa_durable (au (sh_io st)) ∧
    (∀ k, snapshot_enabled (projection (settled st)) k = true → snapshot_enabled (to_snapshot saved) k = true) ∧
    (∀ k, running (au (sh_io st)) k = true → allows saved k = true ∨ queued k (sh_sent st) = Some false) ∧
    (setup_desktop_activity_through_pause now = true → desktop_activity_through_pause saved = true) ∧
    (setup_desktop_activity_window_titles now = true → desktop_activity_window_titles saved = true) ∧
    (setup_desktop_activity_page_addresses now = true → desktop_activity_page_addresses saved = true).
Proof.
  cbv zeta. destruct (consented_run target tmp inputs _ Htmp (startup_ok target fs c Hfile)) as (Hc & Hroot & _ & Hf).
  set (st := shell_run target tmp inputs (startup_shell c fs)) in *. destruct (drained_keeps (sh_sent st) (au (sh_io st))) as (Ha & Hd & _).
  destruct Hc as [Hcov _]. rewrite Hd in Hcov. eexists. split; [by apply load_current|]. split; [done|]. rewrite settled_drained by done.
  split; [intros k; by apply covers_snapshot|]. split.
  - intros k Hk. destruct Hcov as [Hcov _]. specialize (Hcov k). rewrite running_drained, Hk in Hcov.
    destruct (queued k (sh_sent st)) as [[]|]; auto.
  - destruct Hcov as [_ Himp]. rewrite Ha in Himp. exact Himp.
Qed.

(** C15. A source the owner turned off stays off, and the wish is never lost:
    after it is switched off, saved or not, and after any later requests that
    do not switch it on and any handling of switches by the engine in between,
    it is off once the engine has handled what was sent, it runs until then only
    if its switch-off is on its way to the engine, and either the file has it
    off or the failed write is still shown to the owner. *)
Theorem turned_off_is_never_lost {F : Type} `{SetupFilesLaws F} (target tmp : string) (c : SetupConfig)
    (fs : F) (before after : list ShellInput) (k : SourceKind)
    (Htmp : tmp ≠ target) (Hfile : file_config target fs = Some c)
    (Hafter : Forall (λ i, i ≠ Request (OpSource k true)) after) :
  let st := shell_run target tmp (before ++ Request (OpSource k false) :: after) (startup_shell c fs) in
  running (settled st) k = false ∧
  (running (au (sh_io st)) k = true → queued k (sh_sent st) = Some false) ∧
  ∃ saved, file_config target (disk (sh_io st)) = Some saved ∧
    (allows saved k = false ∨ mkFailedSourceWrite k false ∈ setup_failed_sources (projection (au (sh_io st)))).
Proof.
  cbv zeta. unfold shell_run. rewrite foldl_app. cbn [foldl].
  pose proof (consented_run target tmp before _ Htmp (startup_ok target fs c Hfile)) as Hst. unfold shell_run in Hst.
  set (st0 := foldl _ _ before) in *. clearbody st0. set (J := λ a, consented a ∧ turned_off k a).
  assert (Hoff : shell_ok target J (shell_step target tmp (Request (OpSource k false)) st0)).
  { apply (shell_source target tmp Htmp consented J k false); [|exact Hst]. intros a Ha.
    destruct (turning_off k a Ha). split; split; auto using consented_source_saved, consented_source_failed. }
  apply (shell_inputs target tmp Htmp J (λ k' on, ¬ (k' = k ∧ on = true))) with (inputs := after) in Hoff.
  - unfold shell_run in Hoff. set (st := foldl _ _ after) in *. clearbody st. destruct Hoff as ([_ (Hr & Hfs & Hd)] & Hroot & _ & Hf).
    destruct (drained_keeps (sh_sent st) (au (sh_io st))) as (_ & Ed & Ef & _). rewrite Ef in Hfs, Hd. rewrite Ed in Hd.
    rewrite settled_drained by done. split; [exact Hr|]. split.
    { intros Hrun. rewrite running_drained, Hrun in Hr. destruct (queued k (sh_sent st)) as [[]|]; done. }
    eexists. split; [exact Hf|]. destruct Hd as [Hd|(f & Hin & Hk)]; [by left|right]. pose proof (Hfs f Hin Hk) as Ho.
    destruct f as [k' o]; cbn in *; subst. exact Hin.
  - by intros a [].
  - intros k' on a Hne [Hc Ht]. destruct (turned_off_source k k' on a Hne Hc Ht).
    split; split; auto using consented_source_saved, consented_source_failed.
  - intros a [Hc Ht]. split; [by apply consented_retried|by apply turned_off_retried].
  - eapply Forall_impl; [exact Hafter|]. intros [[]|] Hne; try done. cbn. intros [-> ->]. done.
Qed.

Lemma load_upgrade {F} `{SetupFilesLaws F} target tmp (fs : F) c :
  tmp ≠ target → file_config target fs = Some c → file_config target (load_or_classify target tmp fs).2 = Some c.
Proof.
  intros Htmp Hfile. pose proof (file_config_version target fs c Hfile) as Hv. pose proof Hfile as Hf.
  unfold file_config in Hfile. unfold load_or_classify. rewrite bind_run. cbn [gets fst snd].
  destruct (file_read target fs) as [bytes|]; [|done].
  destruct (parse_setup bytes) as [[c' up]|]; [|done]. cbn in Hfile. injection Hfile as ->.
  rewrite bind_run. cbn [parsed_upgraded parsed_config]. destruct up; cbn [when]; [|exact Hf].
  rewrite bind_run. cbn [mret fst snd]. pose proof (atomic_write_config target tmp Htmp c fs Hv) as Hw.
  cbv zeta in Hw. destruct (is_ok _) in Hw; [exact Hw|by rewrite <-Hf].
Qed.

Lemma load_absent {F} `{SetupFilesLaws F} target tmp (fs : F) :
  tmp ≠ target → file_read target fs = Err NotFound →
  let r := load_or_classify target tmp fs in
  (r.1 = Fresh fresh_config ∧ file_config target r.2 = Some fresh_config) ∨ r.1 = Abort.
Proof.
  intros Htmp Hread. unfold load_or_classify. rewrite bind_run. cbn [gets fst snd]. rewrite Hread, bind_run.
  pose proof (atomic_write_config target tmp Htmp fresh_config fs eq_refl) as Hw. cbv zeta in Hw.
  destruct (atomic_write_setup target tmp fresh_config fs) as [[[]|e] fs']; [left|by right].
  split; [done|exact Hw].
Qed.

Lemma load_damaged {F} `{SetupFiles F} target tmp (fs : F) :
  file_config target fs = None → file_read target fs ≠ Err NotFound →
  load_or_classify target tmp fs = (FailedClosed fail_closed_config, fs).
Proof.
  unfold file_config, load_or_classify. rewrite bind_run. cbn [gets fst snd].
  destruct (file_read target fs) as [bytes|[]]; [|done|done]. by destruct (parse_setup bytes).
Qed.

Lemma all_off_configs k :
  snapshot_enabled (to_snapshot fresh_config) k = false ∧ snapshot_enabled (to_snapshot fail_closed_config) k = false.
Proof. by destruct k. Qed.

(** C16. Startup fails closed. A file that cannot be read or understood is left
    exactly as it is and the program starts with it flagged; an absent file
    becomes the fresh configuration on disk, or startup aborts; a readable
    one, upgraded or not, is what is loaded and what stays on disk. In every
    case a source is on at startup only if the file found on disk has it on. *)
Theorem startup_fails_closed {F : Type} `{SetupFilesLaws F} (target tmp : string) (fs : F)
    (Htmp : tmp ≠ target) :
  let r := load_or_classify target tmp fs in
  (file_config target fs = None → file_read target fs ≠ Err NotFound →
     r = (FailedClosed fail_closed_config, fs) ∧
     startup_load r.1 = StartupReady (mkStartupSetup fail_closed_config None true)) ∧
  (file_read target fs = Err NotFound →
     (r.1 = Fresh fresh_config ∧ file_config target r.2 = Some fresh_config) ∨ startup_load r.1 = StartupAbort) ∧
  (∀ c, file_config target fs = Some c → r.1 = Valid c ∧ file_config target r.2 = Some c) ∧
  (∀ s k, startup_load r.1 = StartupReady s → snapshot_enabled (to_snapshot (startup_config s)) k = true →
     ∃ c, file_config target fs = Some c ∧ snapshot_enabled (to_snapshot c) k = true).
Proof.
  cbv zeta. pose proof (load_damaged target tmp fs) as Hdam. pose proof (load_absent target tmp fs Htmp) as Habs.
  split_and!.
  - intros Hn Hr. by rewrite (Hdam Hn Hr).
  - intros Hr. destruct (Habs Hr) as [|Hr']; [by left|right]. by rewrite Hr'.
  - intros c Hc. split; [by apply load_current|by apply load_upgrade].
  - intros s k Hs Hk. destruct (all_off_configs k) as [Hf Hc].
    destruct (file_config target fs) as [c|] eqn:Hfile.
    + rewrite (load_current target tmp fs c Hfile) in Hs. injection Hs as <-. by exists c.
    + assert (file_read target fs = Err NotFound ∨ file_read target fs ≠ Err NotFound) as [Hr|Hr]
        by (destruct (file_read target fs) as [|[]]; by auto).
      * destruct (Habs Hr) as [[Hr' _]|Hr']; rewrite Hr' in Hs; [|done]. injection Hs as <-. cbn in Hk. congruence.
      * rewrite (Hdam eq_refl Hr) in Hs. injection Hs as <-. cbn in Hk. congruence.
Qed.

(** The login item is written only for a copy the owner chose to start at
    login and that may own it, and removed only when the owner chose not to
    and the item found is this copy's own command. *)
Theorem login_item_follows_choice (copy : CopyClass) (choice : option bool) (current : RegistryReadState)
    (my_command : string) (owner : option bool) :
  let d := evaluate_login_decision copy choice current my_command owner in
  (d = Ensure ↔ choice = Some true ∧ current ≠ RegUnreadable ∧
     (copy = Installed ∨ (copy = Portable ∧ owner = Some false))) ∧
  (d = Remove ↔ choice = Some false ∧ copy ≠ Dev ∧
     ∃ cmd, current = RegPresent cmd ∧ eq_ignore_ascii_case cmd my_command = true) ∧
  (d = LoginFailed ↔ is_Some choice ∧ copy ≠ Dev ∧
     (current = RegUnreadable ∨ (choice = Some true ∧ copy = Portable ∧ owner = None))).
Proof.
  cbv zeta. unfold evaluate_login_decision.
  destruct choice as [[]|], copy, current as [|cmd|], owner as [[]|];
    try (destruct (eq_ignore_ascii_case cmd my_command) eqn:?); split_and!; split; intros Hd;
    try discriminate Hd; try (split_and!; by eauto); try reflexivity;
    destruct Hd as (H1 & H2 & H3); try discriminate H1; try done; try (by destruct H1);
    try (destruct H3 as (? & [= <-] & H3)); try discriminate; try congruence;
    destruct H3 as [H3|H3]; try discriminate H3; destruct_and? H3; discriminate.
Qed.

(** A preference turned on without success, on a source the owner never
    configured, makes every later save write the preference as off, although
    an unset choice is meant to stay unset. *)
Lemma failed_on_writes_default a :
  sc_through_pause (sa_durable a) = None → sa_pending_through_pause a = Some true →
  sa_running_through_pause a = DESKTOP_ACTIVITY_THROUGH_PAUSE_DEFAULT → sa_failed_sources a = [] →
  sc_through_pause (candidate_with_pending_off a) = Some false.
Proof.
  intros _ Hp Hr Hf. unfold candidate_with_pending_off. rewrite Hp, Hr, Hf. cbn. by repeat case_match.
Qed.

(** ** Instances at a concrete file system *)

Section demo.
#[local] Existing Instance map_files.
#[local] Existing Instance map_files_laws.

#[local] Instance LoginPreference_countable : Countable LoginPreference :=
  inj_countable' login_choice mkLoginPreference ltac:(by intros []).

Definition wizard_code (w : WizardStep) : N :=
  match w with WizardMic => 0 | WizardSystemAudio => 1 | WizardScreen => 2 | WizardConnection => 3 | WizardDone => 4 end.
Definition wizard_of (n : N) : WizardStep :=
  match n with 0 => WizardMic | 1 => WizardSystemAudio | 2 => WizardScreen | 3 => WizardConnection | _ => WizardDone end%N.
#[local] Instance WizardStep_countable : Countable WizardStep :=
  inj_countable' wizard_code wizard_of ltac:(by intros []).

#[local] Instance SetupConfig_countable : Countable SetupConfig :=
  inj_countable'
    (λ c, (sc_version c, sc_mic c, sc_system_audio c, sc_screen c, sc_start_at_login c, sc_wizard c,
           sc_notice_dismissed c, sc_desktop_activity c, sc_through_pause c, sc_window_titles c, sc_page_addresses c))
    (λ '(v, m, sa, s, l, w, n, da, tp, wt, pa), mkSetupConfig v m sa s l w n da tp wt pa) ltac:(by intros []).

(** The bits of a code, as text. *)
Fixpoint bits_of (p : positive) : string :=
  match p with xH => "." | xO p => "0" ++ bits_of p | xI p => "1" ++ bits_of p end%string.
Fixpoint of_bits (s : string) : positive :=
  match s with
  | String c s => if (c =? "0")%char then xO (of_bits s) else if (c =? "1")%char then xI (of_bits s) else xH
  | EmptyString => xH
  end.

Lemma of_bits_of p : of_bits (bits_of p) = p.
Proof. induction p as [p IH|p IH|]; cbn; by rewrite ?IH. Qed.

#[local] Instance demo_setup_files : SetupFiles (gmap string string) := {|
  root_exists := λ _, true;
  json_write := λ c, Some (bits_of (encode c));
  json_read := λ s, decode (of_bits s)
|}.

#[local] Instance demo_setup_laws : SetupFilesLaws (gmap string string).
Proof. split; [apply _|]. cbn. intros c s [= <-]. by rewrite of_bits_of, decode_encode. Qed.

Definition demo_setup : SetupConfig := set_sc_mic true (set_sc_wizard WizardDone fresh_config).
Definition demo_setup_disk : gmap string string := {["setup.json" := bits_of (encode demo_setup)]}.

Lemma demo_disk_config : file_config "setup.json" demo_setup_disk = Some demo_setup.
Proof. reflexivity. Qed.

(** [running_needs_saved_consent] where the owner switches the microphone on and
    at once off: the engine then handles the stale switch, and until it handles
    the next one the microphone runs although the file has it off. *)
Definition hasty : list ShellInput := [Request (OpSource Mic true); Request (OpSource Screen true); Request (OpSource Mic false); EngineTurn].
Lemma running_needs_saved_consent_witness :
  let st := shell_run "setup.json" "setup.json.tmp" hasty (startup_shell demo_setup demo_setup_disk) in
  running (au (sh_io st)) Mic = true ∧ snapshot_enabled (projection (settled st)) Mic = false ∧
  ∃ saved, (load_or_classify "setup.json" "setup.json.tmp" (disk (sh_io st))).1 = Valid saved ∧ sc_screen saved = true ∧
    (allows saved Mic = true ∨ queued Mic (sh_sent st) = Some false).
Proof.
  pose proof (running_needs_saved_consent "setup.json" "setup.json.tmp" demo_setup demo_setup_disk
    hasty ltac:(done) demo_disk_config) as (saved & Hl & _ & Hk & Hr & _).
  split; [reflexivity|]. split; [reflexivity|]. exists saved. split; [exact Hl|]. split; [apply (Hk Screen); reflexivity|].
  apply (Hr Mic). reflexivity.
Defined.

(** [turned_off_is_never_lost] with a stale switch handled after it. *)
Lemma turned_off_is_never_lost_witness :
  let st := shell_run "setup.json" "setup.json.tmp"
    ([Request (OpSource Mic true)] ++ Request (OpSource Mic false) :: [EngineTurn; Request (OpRetry false); Request (OpWizard WizardScreen)])
    (startup_shell demo_setup demo_setup_disk) in
  running (au (sh_io st)) Mic = true ∧ queued Mic (sh_sent st) = Some false ∧ running (settled st) Mic = false.
Proof.
  destruct (turned_off_is_never_lost "setup.json" "setup.json.tmp" demo_setup demo_setup_disk
    [Request (OpSource Mic true)] [EngineTurn; Request (OpRetry false); Request (OpWizard WizardScreen)] Mic) as (Hoff & Hq & _);
    [done|exact demo_disk_config|by repeat constructor|].
  split; [reflexivity|]. split; [apply Hq; reflexivity|exact Hoff].
Defined.

Lemma startup_fails_closed_witness :
  load_or_classify "setup.json" "setup.json.tmp" ({["setup.json" := "damaged"%string]} : gmap string string) =
    (FailedClosed fail_closed_config, {["setup.json" := "damaged"%string]}).
Proof.
  pose proof (startup_fails_closed "setup.json" "setup.json.tmp"
    ({["setup.json" := "damaged"%string]} : gmap string string) ltac:(done)) as [Hd _].
  apply Hd; [reflexivity|done].
Defined.
End demo.
