(* ===== verification/Ingest.v ===== *)
(** * The ingest protocol (crates/observer-pl/src/ingest.rs)

    What an upload sends and what earns local cleanup: the multipart body,
    the receipt of an upload and the three-read custody proof. The JSON
    encoder of the envelope is a parameter; a decoded JSON value is
    [JsonValue]. The zone helpers are those of observer-model/src/lib.rs. *)
From Stdlib Require Import Ascii String.
From S2P Require Import Prelude RustStr.

Local Open Scope list_scope.

(** ** Zones *)

Record LocalZone : Type := mkLocalZone { utc_offset_seconds : Z; zone_tz : option string }.

(** [str::split(c)] on one ASCII character: always at least one piece. *)
Fixpoint split_char (c : ascii) (s : string) : list string :=
  match s with
  | EmptyString => [EmptyString]
  | String a s =>
    if Ascii.eqb a c then EmptyString :: split_char c s
    else match split_char c s with
         | [] => [String a EmptyString]
         | p :: ps => String a p :: ps
         end
  end.

Definition is_iana_area (part : string) : bool :=
  negb (is_empty part) && all_bytes is_ascii_alphabetic part.

Definition is_iana_component (part : string) : bool :=
  negb (is_empty part) &&
  all_bytes (λ b, is_ascii_alphanumeric b || bool_decide (b ∈ ["_"; "+"; "-"]%char)) part.

Definition accept_iana_tz (mapped : string) : option string :=
  if bool_decide (mapped = "UTC") then Some mapped
  else
    match split_char "/" mapped with
    | area :: location :: parts =>
      if negb (is_iana_area area) || negb (is_iana_component location) then None
      else if forallb is_iana_component parts then Some mapped else None
    | _ => None
    end.

(** ** Uploads *)

Record FilePart : Type := mkFilePart {
  part_filename : string;
  part_content_type : string;
  part_bytes : string
}.

Inductive IngestMultipartError : Type :=
| EmptyFiles
| DuplicateFilename (name : string).

Record IngestMeta : Type := mkIngestMeta {
  meta_tz : option string;
  meta_utc_offset_seconds : option Z;
  meta_audio_sources : list string
}.
Definition default_meta : IngestMeta := mkIngestMeta None None [].

Record IngestEnvelope : Type := mkIngestEnvelope {
  env_day : string;
  env_segment : string;
  env_files : list string;
  env_source : option string;
  env_meta : option IngestMeta
}.

Record IngestMultipart : Type := mkIngestMultipart {
  mp_boundary : string;
  mp_envelope : IngestEnvelope;
  mp_files : list FilePart
}.

Definition new_multipart (boundary day segment : string) (files : list FilePart)
    : result IngestMultipart IngestMultipartError :=
  match files with
  | [] => Err EmptyFiles
  | _ =>
    match first_repeat part_filename [] files with
    | Some file => Err (DuplicateFilename (part_filename file))
    | None =>
      Ok (mkIngestMultipart boundary
            (mkIngestEnvelope day segment (part_filename <$> files) None None) files)
    end
  end.

Definition set_meta (f : IngestMeta → IngestMeta) (m : IngestMultipart) : IngestMultipart :=
  let e := mp_envelope m in
  mkIngestMultipart (mp_boundary m)
    (mkIngestEnvelope (env_day e) (env_segment e) (env_files e) (env_source e)
       (Some (f (default default_meta (env_meta e))))) (mp_files m).

Definition with_zone (zone : LocalZone) (m : IngestMultipart) : IngestMultipart :=
  set_meta (λ meta, mkIngestMeta (zone_tz zone ≫= accept_iana_tz) (Some (utc_offset_seconds zone))
                      (meta_audio_sources meta)) m.

Definition with_audio_sources (sources : list string) (m : IngestMultipart) : IngestMultipart :=
  match sources with
  | [] => m
  | _ => set_meta (λ meta, mkIngestMeta (meta_tz meta) (meta_utc_offset_seconds meta) sources) m
  end.

Definition with_source (source : string) (m : IngestMultipart) : IngestMultipart :=
  let e := mp_envelope m in
  mkIngestMultipart (mp_boundary m)
    (mkIngestEnvelope (env_day e) (env_segment e) (env_files e) (Some source) (env_meta e)) (mp_files m).

Definition content_type (m : IngestMultipart) : string :=
  "multipart/form-data; boundary=" +:+ mp_boundary m.

Definition crlf : string := String "013" (String "010" EmptyString).
Definition quoted (s : string) : string :=
  String "034" (s +:+ String "034" EmptyString).

Definition write_text_part (out boundary name content_type value : string) : string :=
  out +:+ "--" +:+ boundary +:+ crlf
      +:+ "Content-Disposition: form-data; name=" +:+ quoted name +:+ crlf
      +:+ "Content-Type: " +:+ content_type +:+ crlf +:+ crlf +:+ value +:+ crlf.

Definition write_file_part (boundary out : string) (file : FilePart) : string :=
  out +:+ "--" +:+ boundary +:+ crlf
      +:+ "Content-Disposition: form-data; name=" +:+ quoted "files" +:+ "; filename="
      +:+ quoted (part_filename file) +:+ crlf
      +:+ "Content-Type: " +:+ part_content_type file +:+ crlf +:+ crlf
      +:+ part_bytes file +:+ crlf.

(** [serialize], over the JSON encoder of the envelope. *)
Definition serialize (to_json : IngestEnvelope → option string) (m : IngestMultipart) : option string :=
  envelope ← to_json (mp_envelope m);
  let out := write_text_part EmptyString (mp_boundary m) "envelope" "application/json" envelope in
  let out := foldl (write_file_part (mp_boundary m)) out (mp_files m) in
  Some (out +:+ "--" +:+ mp_boundary m +:+ "--" +:+ crlf).

(** ** Responses *)

Inductive IngestStatus : Type := StatusOk | StatusDuplicate | StatusCollision | StatusConflict | StatusFailed.

Definition is_accepted (s : IngestStatus) : bool :=
  match s with StatusOk | StatusDuplicate | StatusCollision => true | _ => false end.

Record FileDescriptor : Type := mkFileDescriptor {
  desc_submitted : string;
  desc_written : string;
  desc_size : Z;
  desc_sha256 : string;
  desc_disposition : string
}.

Inductive FileDescriptors : Type :=
| DescriptorsAbsent
| DescriptorsMalformed
| DescriptorsDecoded (l : list FileDescriptor).

(** [serde_json::Value]; a number is kept when it is a [u64]. *)
Inductive JsonValue : Type :=
| JNull
| JBool (b : bool)
| JNumber (n : option Z)
| JString (s : string)
| JArray (l : list JsonValue)
| JObject (m : list (string * JsonValue)).

Definition json_get (key : string) (m : list (string * JsonValue)) : option JsonValue :=
  snd <$> find_first (λ kv, bool_decide (kv.1 = key)) m.
Definition as_str (v : JsonValue) : option string := match v with JString s => Some s | _ => None end.
Definition as_u64 (v : JsonValue) : option Z := match v with JNumber n => n | _ => None end.

Definition descriptor_of (item : JsonValue) : option FileDescriptor :=
  match item with
  | JObject m =>
    submitted ← json_get "submitted" m ≫= as_str;
    written ← json_get "written" m ≫= as_str;
    size ← json_get "size" m ≫= as_u64;
    sha256 ← json_get "sha256" m ≫= as_str;
    disposition ← json_get "disposition" m ≫= as_str;
    Some (mkFileDescriptor submitted written size sha256 disposition)
  | _ => None
  end.

(** The [Deserialize] of [FileDescriptors]: it never fails. *)
Definition deserialize_descriptors (value : option JsonValue) : FileDescriptors :=
  match value with
  | None | Some JNull => DescriptorsAbsent
  | Some (JArray items) =>
    match mapM descriptor_of items with
    | Some out => DescriptorsDecoded out
    | None => DescriptorsMalformed
    end
  | Some _ => DescriptorsMalformed
  end.

Record IngestResponse : Type := mkIngestResponse {
  resp_status : IngestStatus;
  resp_segment : option string;
  resp_existing_segment : option string;
  resp_reason_code : option string;
  resp_file_descriptors : FileDescriptors
}.

Record LocalFile : Type := mkLocalFile { local_name : string; local_sha256 : string; local_size : Z }.

Record UploadReceipt : Type := mkUploadReceipt {
  receipt_server_segment : string;
  receipt_files : list FileDescriptor
}.

Inductive ReceiptFault : Type :=
| ReceiptAbsent
| ReceiptMalformed
| StatusNotAccepted (s : IngestStatus)
| MissingServerSegment
| DuplicateMissingExistingSegment
| DuplicateSubmittedName (name : string)
| MissingLocalFile (name : string)
| ExtraSubmittedFile (name : string)
| ReceiptFileCountMismatch (expected actual : Z)
| Sha256InvalidHex (name sha256 : string)
| Sha256Mismatch (name expected actual : string)
| SizeMismatch (name : string) (expected actual : Z)
| ReceivedNotWritten (name : string)
| UnknownDisposition (name disposition : string).

Definition is_sha256_lower (value : string) : bool :=
  (Z.of_nat (String.length value) =? 64)%Z &&
  all_bytes (λ b, is_ascii_digit b || byte_in 97 102 b) value.

Definition server_segment_of (r : IngestResponse) : result string ReceiptFault :=
  match resp_status r with
  | StatusOk | StatusCollision =>
    match resp_segment r with Some s => Ok s | None => Err MissingServerSegment end
  | StatusDuplicate =>
    match resp_existing_segment r with Some s => Ok s | None => Err DuplicateMissingExistingSegment end
  | status => Err (StatusNotAccepted status)
  end.

Definition check_disposition (desc : FileDescriptor) : option ReceiptFault :=
  if bool_decide (desc_disposition desc = "written") || bool_decide (desc_disposition desc = "already_held")
  then None
  else if bool_decide (desc_disposition desc = "received_not_written")
  then Some (ReceivedNotWritten (desc_submitted desc))
  else Some (UnknownDisposition (desc_submitted desc) (desc_disposition desc)).

(** The body of the loop over the local files. *)
Definition check_local (descriptors : list FileDescriptor) (local : LocalFile) : option ReceiptFault :=
  match find_first (λ d, bool_decide (desc_submitted d = local_name local)) descriptors with
  | None => Some (MissingLocalFile (local_name local))
  | Some desc =>
    if negb (is_sha256_lower (desc_sha256 desc))
    then Some (Sha256InvalidHex (desc_submitted desc) (desc_sha256 desc))
    else if negb (bool_decide (desc_sha256 desc = local_sha256 local))
    then Some (Sha256Mismatch (desc_submitted desc) (local_sha256 local) (desc_sha256 desc))
    else if negb (desc_size desc =? local_size local)%Z
    then Some (SizeMismatch (desc_submitted desc) (local_size local) (desc_size desc))
    else check_disposition desc
  end.

Definition check_submitted (locals : list LocalFile) (desc : FileDescriptor) : option ReceiptFault :=
  if existsb (λ l, bool_decide (local_name l = desc_submitted desc)) locals then None
  else Some (ExtraSubmittedFile (desc_submitted desc)).

Definition validate_receipt (response : IngestResponse) (local_files : list LocalFile)
    : result UploadReceipt ReceiptFault :=
  match resp_file_descriptors response with
  | DescriptorsAbsent => Err ReceiptAbsent
  | DescriptorsMalformed => Err ReceiptMalformed
  | DescriptorsDecoded descriptors =>
    match server_segment_of response with
    | Err e => Err e
    | Ok server_segment =>
      match first_repeat desc_submitted [] descriptors with
      | Some desc => Err (DuplicateSubmittedName (desc_submitted desc))
      | None =>
        if negb (length descriptors =? length local_files)%nat
        then Err (ReceiptFileCountMismatch (Z.of_nat (length local_files)) (Z.of_nat (length descriptors)))
        else
          match first_some (check_local descriptors) local_files with
          | Some fault => Err fault
          | None =>
            match first_some (check_submitted local_files) descriptors with
            | Some fault => Err fault
            | None => Ok (mkUploadReceipt server_segment descriptors)
            end
          end
      end
    end
  end.

(** ** Listings and custody *)

Inductive SegmentFileStatus : Type := FilePresent | FileMissingStatus | FileProcessed.

Definition is_held (s : SegmentFileStatus) : bool :=
  match s with FilePresent | FileProcessed => true | FileMissingStatus => false end.
Definition is_terminal (s : SegmentFileStatus) : bool :=
  match s with FilePresent | FileProcessed => true | FileMissingStatus => false end.

Record SegmentFile : Type := mkSegmentFile {
  sf_name : string;
  sf_size : Z;
  sf_sha256 : string;
  sf_status : SegmentFileStatus;
  sf_submitted_name : option string
}.

Definition submitted_or_name (f : SegmentFile) : string := default (sf_name f) (sf_submitted_name f).

Record ManifestDay : Type := mkManifestDay { md_segments : Z }.
Record IngestManifest : Type := mkIngestManifest { im_days : gmap string ManifestDay }.
Record DayManifestSegment : Type := mkDayManifestSegment { dms_files : list SegmentFile }.
Record DayManifest : Type := mkDayManifest {
  dm_version : Z;
  dm_day : string;
  dm_segments : gmap string DayManifestSegment
}.

Record SegmentItem : Type := mkSegmentItem {
  item_key : string;
  item_observed : bool;
  item_files : list SegmentFile;
  item_original_key : option string;
  item_segment : option string;
  item_stream : option string
}.

Record SegmentsEnvelope : Type := mkSegmentsEnvelope {
  se_items : list SegmentItem;
  se_total : Z;
  se_protocol_version : Z
}.

Record CustodyFileWitness : Type := mkCustodyFileWitness {
  cfw_submitted_name : string;
  cfw_sha256 : string;
  cfw_size : Z;
  cfw_status : SegmentFileStatus
}.
Record CustodyWitness : Type := mkCustodyWitness {
  cw_server_segment : string;
  cw_files : list CustodyFileWitness
}.

Inductive CustodySource : Type := FromDayManifest | FromSegments.

Inductive CustodyFailure : Type :=
| DayAbsentFromRootManifest (day : string)
| DayManifestDayMismatch (expected actual : string)
| SegmentAbsentFromDayManifest (segment_key : string)
| ProtocolVersionMismatch (actual : Z)
| SegmentsTotalMismatch (total item_count : Z)
| DuplicateListingKey (key : string)
| PhysicalCoordinatesMalformed (key : string)
| SegmentAbsentFromSegments (segment_key : string)
| FileCountMismatch (source : CustodySource) (expected actual : Z)
| FileMissing (source : CustodySource) (name : string)
| FileRenamed (source : CustodySource) (expected actual : string)
| FileSha256Mismatch (source : CustodySource) (name expected actual : string)
| FileSizeMismatch (source : CustodySource) (name : string) (expected actual : Z)
| FileCustodyNotTerminal (source : CustodySource) (name : string) (status : SegmentFileStatus).

Inductive CustodyProof : Type :=
| Confirmed (w : CustodyWitness)
| Unconfirmed (f : CustodyFailure).

Definition is_some {A} (o : option A) : bool := match o with Some _ => true | None => false end.
Definition some_empty (o : option string) : bool := match o with Some s => is_empty s | None => false end.

Definition coordinates_malformed (item : SegmentItem) : bool :=
  negb (Bool.eqb (is_some (item_segment item)) (is_some (item_stream item)))
  || some_empty (item_segment item) || some_empty (item_stream item).

(** The loop over the items with its set of keys seen. *)
Fixpoint check_items (listing_keys : list string) (items : list SegmentItem) : option CustodyFailure :=
  match items with
  | [] => None
  | item :: items =>
    if decide (item_key item ∈ listing_keys) then Some (DuplicateListingKey (item_key item))
    else if coordinates_malformed item then Some (PhysicalCoordinatesMalformed (item_key item))
    else check_items (item_key item :: listing_keys) items
  end.

Definition validate_segments_envelope (segments : SegmentsEnvelope) : result unit CustodyFailure :=
  if negb (se_protocol_version segments =? 3)%Z
  then Err (ProtocolVersionMismatch (se_protocol_version segments))
  else if negb (se_total segments =? Z.of_nat (length (se_items segments)))%Z
  then Err (SegmentsTotalMismatch (se_total segments) (Z.of_nat (length (se_items segments))))
  else match check_items [] (se_items segments) with Some e => Err e | None => Ok tt end.

Definition prove_file (source : CustodySource) (files : list SegmentFile) (local : LocalFile)
    : option CustodyFailure :=
  match find_first (λ f, bool_decide (submitted_or_name f = local_name local)) files with
  | None =>
    match find_first (λ f, bool_decide (sf_name f = local_name local)) files with
    | Some file => Some (FileRenamed source (local_name local) (submitted_or_name file))
    | None => Some (FileMissing source (local_name local))
    end
  | Some file =>
    if negb (bool_decide (sf_sha256 file = local_sha256 local))
    then Some (FileSha256Mismatch source (local_name local) (local_sha256 local) (sf_sha256 file))
    else if negb (sf_size file =? local_size local)%Z
    then Some (FileSizeMismatch source (local_name local) (local_size local) (sf_size file))
    else if negb (is_terminal (sf_status file))
    then Some (FileCustodyNotTerminal source (local_name local) (sf_status file))
    else None
  end.

Definition prove_files (source : CustodySource) (files : list SegmentFile) (local : list LocalFile)
    : result unit CustodyFailure :=
  if negb (length files =? length local)%nat
  then Err (FileCountMismatch source (Z.of_nat (length local)) (Z.of_nat (length files)))
  else match first_some (prove_file source files) local with Some e => Err e | None => Ok tt end.

Definition file_witness (file : SegmentFile) : CustodyFileWitness :=
  mkCustodyFileWitness (submitted_or_name file) (sf_sha256 file) (sf_size file) (sf_status file).

Definition prove_custody (manifest : IngestManifest) (day_manifest : DayManifest)
    (segments : SegmentsEnvelope) (day segment_key : string) (local : list LocalFile) : CustodyProof :=
  if negb (is_some (im_days manifest !! day)) then Unconfirmed (DayAbsentFromRootManifest day)
  else if negb (bool_decide (dm_day day_manifest = day))
  then Unconfirmed (DayManifestDayMismatch day (dm_day day_manifest))
  else
    match dm_segments day_manifest !! segment_key with
    | None => Unconfirmed (SegmentAbsentFromDayManifest segment_key)
    | Some day_segment =>
      match validate_segments_envelope segments with
      | Err failure => Unconfirmed failure
      | Ok _ =>
        match find_first (λ item, bool_decide (item_key item = segment_key)) (se_items segments) with
        | None => Unconfirmed (SegmentAbsentFromSegments segment_key)
        | Some segment =>
          match prove_files FromDayManifest (dms_files day_segment) local with
          | Err failure => Unconfirmed failure
          | Ok _ =>
            match prove_files FromSegments (item_files segment) local with
            | Err failure => Unconfirmed failure
            | Ok _ => Confirmed (mkCustodyWitness (item_key segment) (file_witness <$> item_files segment))
            end
          end
        end
      end
    end.

(** ** Matching by name

    Both checks look each local file up by name among as many remote ones. A
    claim [C] carries its name [kc]; with distinct names on one side the scan
    succeeds exactly when the claims are the same up to order. *)
Section matching.
Context {A B C K : Type} `{EqDecision K} (kc : C → K) (ca : A → C) (cb : B → C) (good : A → Prop).
Notation found_in xs b := (find_first (λ a, bool_decide (kc (ca a) = kc (cb b))) xs).

Lemma claims_keys (xs : list A) (ys : list B) :
  ca <$> xs ≡ₚ cb <$> ys → kc ∘ ca <$> xs ≡ₚ kc ∘ cb <$> ys.
Proof. intros Hp. rewrite !list_fmap_compose. by apply fmap_Permutation. Qed.

Lemma NoDup_claims (ys : list B) : NoDup (kc ∘ cb <$> ys) → NoDup (cb <$> ys).
Proof. rewrite list_fmap_compose. apply NoDup_fmap_1. Qed.

Lemma matching (xs : list A) (ys : list B) :
  NoDup (kc ∘ cb <$> ys) → length xs = length ys →
  (∀ b, b ∈ ys → ∃ a, found_in xs b = Some a ∧ ca a = cb b ∧ good a) ↔
  ca <$> xs ≡ₚ cb <$> ys ∧ Forall good xs.
Proof.
  intros Hnd Hlen. split.
  - intros Hall.
    assert (Hp : ca <$> xs ≡ₚ cb <$> ys).
    { symmetry. apply NoDup_Permutation_le; [by apply NoDup_claims| |rewrite !length_fmap; lia].
      intros c (b & -> & Hb)%list_elem_of_fmap. destruct (Hall b Hb) as (a & Ha & <- & _).
      apply list_elem_of_fmap_2. by apply find_first_Some in Ha as [? _]. }
    split; [done|]. apply Forall_forall. intros a Ha.
    assert (ca a ∈ cb <$> ys) as (b & Hb & Hbin)%list_elem_of_fmap by (rewrite <-Hp; by apply list_elem_of_fmap_2).
    destruct (Hall b Hbin) as (a' & Ha' & Hc & Hg). apply find_first_Some in Ha' as [Ha' _].
    assert (a = a') as ->; [|done]. apply (NoDup_key_inj (kc ∘ ca) xs); [|done..|cbn; congruence].
    by rewrite (claims_keys xs ys Hp).
  - intros [Hp Hg] b Hb.
    assert (cb b ∈ ca <$> xs) as (a & Ha & Hain)%list_elem_of_fmap by (rewrite Hp; by apply list_elem_of_fmap_2).
    destruct (found_in xs b) as [a'|] eqn:Hf.
    + apply find_first_Some in Hf as [Hin Hk%bool_decide_eq_true].
      assert (a' = a) as ->.
      { apply (NoDup_key_inj (kc ∘ ca) xs); [by rewrite (claims_keys xs ys Hp)|done..|cbn; congruence]. }
      exists a. rewrite Forall_forall in Hg. auto.
    + rewrite find_first_None in Hf. specialize (Hf a Hain). rewrite bool_decide_eq_false in Hf. congruence.
Qed.
End matching.

(** What a name is said to hold: its digest and size. *)
Definition claim : Type := string * string * Z.
Definition claim_name (c : claim) : string := c.1.1.
Definition local_claim (l : LocalFile) : claim := (local_name l, local_sha256 l, local_size l).
Definition desc_claim (d : FileDescriptor) : claim := (desc_submitted d, desc_sha256 d, desc_size d).
Definition file_claim (f : SegmentFile) : claim := (submitted_or_name f, sf_sha256 f, sf_size f).

(** A descriptor that says the journal durably holds the file. *)
Definition durable (d : FileDescriptor) : Prop :=
  is_sha256_lower (desc_sha256 d) = true ∧ desc_disposition d ∈ ["written"; "already_held"]%string.

(** ** Receipts *)

Lemma check_disposition_None d :
  check_disposition d = None ↔ desc_disposition d ∈ ["written"; "already_held"]%string.
Proof.
  unfold check_disposition. rewrite !elem_of_cons, elem_of_nil.
  repeat case_bool_decide; cbn; naive_solver.
Qed.

Lemma check_local_None ds l :
  check_local ds l = None ↔
  ∃ d, find_first (λ d, bool_decide (desc_submitted d = local_name l)) ds = Some d ∧
       desc_claim d = local_claim l ∧ durable d.
Proof.
  unfold check_local, desc_claim, local_claim, durable.
  destruct (find_first _ ds) as [d|] eqn:Hf; [|naive_solver].
  apply find_first_Some in Hf as [_ Hn%bool_decide_eq_true].
  destruct (is_sha256_lower (desc_sha256 d)) eqn:Hs; cbn [negb];
    [|split; [done|]; intros (d' & [= <-] & _ & [? _]); congruence].
  case_bool_decide as Hsha; cbn [negb]; [|split; [done|]; intros (d' & [= <-] & [= _ ? _] & _); congruence].
  destruct (Z.eqb_spec (desc_size d) (local_size l)) as [Hz|Hz]; cbn [negb];
    [|split; [done|]; intros (d' & [= <-] & [= _ _ ?] & _); congruence].
  rewrite check_disposition_None. split.
  - intros Hd. exists d. split_and!; [done| |done..]. congruence.
  - by intros (d' & [= <-] & _ & _ & Hd).
Qed.

Lemma check_submitted_None ls d :
  check_submitted ls d = None ↔ desc_submitted d ∈ local_name <$> ls.
Proof.
  unfold check_submitted. destruct (existsb _ ls) eqn:He.
  - split; [intros _|done]. apply existsb_exists in He as (l & Hl & Hn%bool_decide_eq_true).
    rewrite <-Hn. apply list_elem_of_fmap_2. by apply list_elem_of_In.
  - split; [done|]. intros (l & Hn & Hl)%list_elem_of_fmap. exfalso.
    assert (existsb (λ l, bool_decide (local_name l = desc_submitted d)) ls = true); [|congruence].
    apply existsb_exists. exists l. split; [by apply list_elem_of_In|]. by apply bool_decide_eq_true.
Qed.

(** The two loops of [validate_receipt], once the counts agree. *)
Lemma receipt_loops ds ls :
  NoDup (desc_submitted <$> ds) → length ds = length ls →
  (first_some (check_local ds) ls = None ∧ first_some (check_submitted ls) ds = None) ↔
  desc_claim <$> ds ≡ₚ local_claim <$> ls ∧ Forall durable ds.
Proof.
  intros Hnd Hlen. rewrite !first_some_None. setoid_rewrite check_local_None.
  setoid_rewrite check_submitted_None. split.
  - intros [Hall Hsub].
    assert (NoDup (local_name <$> ls)) as Hnl.
    { rewrite <-(NoDup_Permutation_le (desc_submitted <$> ds) (local_name <$> ls)); [done|done| |].
      - by intros x (d & -> & Hd)%list_elem_of_fmap; apply Hsub.
      - rewrite !length_fmap. lia. }
    apply (matching claim_name desc_claim local_claim durable ds ls Hnl Hlen). exact Hall.
  - intros [Hp Hg]. pose proof (claims_keys claim_name desc_claim local_claim ds ls Hp) as Hk.
    change (desc_submitted <$> ds ≡ₚ local_name <$> ls) in Hk. split.
    + apply (matching claim_name desc_claim local_claim durable ds ls); [|done..]. change (NoDup (local_name <$> ls)).
      by rewrite <-Hk.
    + intros d Hd. rewrite <-Hk. by apply list_elem_of_fmap_2.
Qed.

(** The segment an accepted response names. *)
Definition names_segment (r : IngestResponse) (s : string) : Prop :=
  match resp_status r with
  | StatusOk | StatusCollision => resp_segment r = Some s
  | StatusDuplicate => resp_existing_segment r = Some s
  | _ => False
  end.

Lemma server_segment_of_Ok r s : server_segment_of r = Ok s ↔ names_segment r s.
Proof.
  unfold server_segment_of, names_segment.
  destruct (resp_status r), (resp_segment r), (resp_existing_segment r); naive_solver.
Qed.

(** C17. A response is a receipt exactly when it proves durable storage of the
    whole upload: an accepted status that names the server segment, and
    descriptors that are, up to order, the local files by name, digest and
    size, each once, each written or already held, and nothing else. Any
    other response is an error. *)
Theorem receipt_iff_all_stored (response : IngestResponse) (locals : list LocalFile) (receipt : UploadReceipt) :
  validate_receipt response locals = Ok receipt ↔
  resp_file_descriptors response = DescriptorsDecoded (receipt_files receipt) ∧
  names_segment response (receipt_server_segment receipt) ∧
  NoDup (desc_submitted <$> receipt_files receipt) ∧
  desc_claim <$> receipt_files receipt ≡ₚ local_claim <$> locals ∧
  Forall durable (receipt_files receipt).
Proof.
  unfold validate_receipt. rewrite <-server_segment_of_Ok.
  destruct (resp_file_descriptors response) as [| |ds]; [naive_solver..|].
  destruct (server_segment_of response) as [s|e]; [|naive_solver].
  destruct (first_repeat desc_submitted [] ds) as [d|] eqn:Hr.
  { split; [done|]. intros ([= ->] & _ & Hnd & _).
    assert (first_repeat desc_submitted [] (receipt_files receipt) = None); [|congruence].
    apply first_repeat_None. split; [done|set_solver]. }
  apply first_repeat_None in Hr as [Hnd _].
  destruct (Nat.eqb_spec (length ds) (length locals)) as [Hlen|Hlen]; cbn [negb].
  - pose proof (receipt_loops ds locals Hnd Hlen) as Hloops.
    destruct receipt as [rs rf]; cbn [receipt_files receipt_server_segment].
    destruct (first_some (check_local ds) locals), (first_some (check_submitted locals) ds);
      (split; [try discriminate|intros ([= <-] & [= <-] & _ & Hall); apply Hloops in Hall as [[=] [=]]]).
    + intros [= <- <-]. split_and!; try done; by apply Hloops.
    + done.
  - split; [done|]. intros ([= ->] & _ & _ & Hp%Permutation_length & _).
    rewrite !length_fmap in Hp. done.
Qed.

(** ** Custody *)

Definition coordinates_ok (item : SegmentItem) : Prop :=
  (item_segment item = None ∧ item_stream item = None) ∨
  (∃ s t, item_segment item = Some s ∧ item_stream item = Some t ∧ s ≠ EmptyString ∧ t ≠ EmptyString).

Lemma coordinates_malformed_false item : coordinates_malformed item = false ↔ coordinates_ok item.
Proof.
  unfold coordinates_malformed, coordinates_ok.
  destruct (item_segment item) as [[]|], (item_stream item) as [[]|]; cbn; naive_solver.
Qed.

Lemma check_items_None seen items :
  check_items seen items = None ↔
  NoDup (item_key <$> items) ∧ (∀ i, i ∈ items → item_key i ∉ seen) ∧ Forall coordinates_ok items.
Proof.
  revert seen. induction items as [|i items IH]; intros seen; cbn.
  { split; [intros _; split_and!; [constructor|set_solver|constructor]|done]. }
  rewrite list.NoDup_cons, list.Forall_cons. case_decide as Hi; [set_solver|].
  destruct (coordinates_malformed i) eqn:Hc.
  { split; [done|]. intros (_ & _ & Hok & _). apply coordinates_malformed_false in Hok. congruence. }
  apply coordinates_malformed_false in Hc. rewrite IH. setoid_rewrite elem_of_cons.
  setoid_rewrite list_elem_of_fmap. naive_solver.
Qed.

Definition envelope_ok (segments : SegmentsEnvelope) : Prop :=
  se_protocol_version segments = 3%Z ∧ se_total segments = Z.of_nat (length (se_items segments)) ∧
  NoDup (item_key <$> se_items segments) ∧ Forall coordinates_ok (se_items segments).

Lemma validate_segments_envelope_Ok segments :
  validate_segments_envelope segments = Ok tt ↔ envelope_ok segments.
Proof.
  unfold validate_segments_envelope, envelope_ok.
  destruct (Z.eqb_spec (se_protocol_version segments) 3); cbn [negb]; [|naive_solver].
  destruct (Z.eqb_spec (se_total segments) (Z.of_nat (length (se_items segments)))); cbn [negb]; [|naive_solver].
  pose proof (check_items_None [] (se_items segments)) as Hi.
  destruct (check_items [] (se_items segments)); set_solver.
Qed.

(** A listing holds the local files: the same claims up to order, all of them
    in a final state. *)
Definition listing_holds (files : list SegmentFile) (locals : list LocalFile) : Prop :=
  file_claim <$> files ≡ₚ local_claim <$> locals ∧ Forall (λ f, is_terminal (sf_status f) = true) files.

Lemma prove_file_None source files l :
  prove_file source files l = None ↔
  ∃ f, find_first (λ f, bool_decide (submitted_or_name f = local_name l)) files = Some f ∧
       file_claim f = local_claim l ∧ is_terminal (sf_status f) = true.
Proof.
  unfold prove_file, file_claim, local_claim.
  destruct (find_first (λ f, bool_decide (submitted_or_name f = local_name l)) files) as [f|] eqn:Hf.
  - apply find_first_Some in Hf as [_ Hn%bool_decide_eq_true].
    case_bool_decide; cbn [negb]; [|split; [done|]; intros (f' & [= <-] & [= _ ? _] & _); congruence].
    destruct (Z.eqb_spec (sf_size f) (local_size l)); cbn [negb];
      [|split; [done|]; intros (f' & [= <-] & [= _ _ ?] & _); congruence].
    destruct (is_terminal (sf_status f)) eqn:Ht; cbn [negb];
      [|split; [done|]; intros (f' & [= <-] & _ & ?); congruence].
    split; [|done]. intros _. exists f. split_and!; [done| |done]. congruence.
  - case_match; naive_solver.
Qed.

Lemma prove_files_Ok source files locals :
  NoDup (local_name <$> locals) →
  prove_files source files locals = Ok tt ↔ listing_holds files locals.
Proof.
  intros Hnd. unfold prove_files, listing_holds.
  destruct (Nat.eqb_spec (length files) (length locals)) as [Hlen|Hlen]; cbn [negb].
  - rewrite <-(matching claim_name file_claim local_claim _ files locals Hnd Hlen).
    assert (first_some (prove_file source files) locals = None ↔
            ∀ l, l ∈ locals → prove_file source files l = None) as Hs by apply first_some_None.
    setoid_rewrite prove_file_None in Hs. rewrite <-Hs.
    destruct (first_some (prove_file source files) locals); naive_solver.
  - split; [done|]. intros [Hp%Permutation_length _]. rewrite !length_fmap in Hp. done.
Qed.

(** C18. Custody is confirmed exactly when all three reads agree on it: the day
    is in the root manifest, the day manifest is for that day, the listing is
    a well-formed protocol-3 one, and both listings of the segment hold the
    local files and nothing else, by name, digest and size, in a final state.
    The witness then is that segment and its files. *)
Theorem custody_iff_both_listings_hold (manifest : IngestManifest) (day_manifest : DayManifest)
    (segments : SegmentsEnvelope) (day segment_key : string) (locals : list LocalFile) (w : CustodyWitness)
    (Hlocal : NoDup (local_name <$> locals)) :
  prove_custody manifest day_manifest segments day segment_key locals = Confirmed w ↔
  is_Some (im_days manifest !! day) ∧ dm_day day_manifest = day ∧ envelope_ok segments ∧
  ∃ listed item,
    dm_segments day_manifest !! segment_key = Some listed ∧ listing_holds (dms_files listed) locals ∧
    item ∈ se_items segments ∧ item_key item = segment_key ∧ listing_holds (item_files item) locals ∧
    w = mkCustodyWitness segment_key (file_witness <$> item_files item).
Proof.
  unfold prove_custody. destruct (im_days manifest !! day) as [d|]; cbn [is_some negb];
    [|split; [done|]; by intros [[? ?] _]].
  case_bool_decide as Hday; cbn [negb]; [|naive_solver].
  destruct (dm_segments day_manifest !! segment_key) as [listed|]; [|naive_solver].
  rewrite <-validate_segments_envelope_Ok.
  destruct (validate_segments_envelope segments) as [[]|e] eqn:Henv; [|naive_solver].
  apply validate_segments_envelope_Ok in Henv as (_ & _ & Hkeys & _).
  destruct (find_first _ (se_items segments)) as [item|] eqn:Hf.
  - apply find_first_Some in Hf as [Hin Hk%bool_decide_eq_true].
    assert (Huniq : ∀ i, i ∈ se_items segments → item_key i = segment_key → i = item).
    { intros i Hi Hik. apply (NoDup_key_inj item_key (se_items segments)); congruence. }
    pose proof (prove_files_Ok FromDayManifest (dms_files listed) locals Hlocal) as H1.
    pose proof (prove_files_Ok FromSegments (item_files item) locals Hlocal) as H2.
    destruct (prove_files FromDayManifest (dms_files listed) locals) as [[]|e].
    2:{ split; [done|]. intros (_ & _ & _ & l' & i & [= <-] & Hp & _). by apply H1 in Hp. }
    destruct (prove_files FromSegments (item_files item) locals) as [[]|e].
    + rewrite Hk. split.
      * intros [= <-]. split_and!; [done..|]. exists listed, item. split_and!; try done; [by apply H1|by apply H2].
      * intros (_ & _ & _ & l' & i & _ & _ & Hi & Hik & _ & ->). by rewrite (Huniq i Hi Hik).
    + split; [done|]. intros (_ & _ & _ & l' & i & _ & _ & Hi & Hik & Hp & _). rewrite (Huniq i Hi Hik) in Hp.
      by apply H2 in Hp.
  - split; [done|]. intros (_ & _ & _ & l' & i & _ & _ & Hi & Hik & _). rewrite find_first_None in Hf.
    specialize (Hf i Hi). rewrite bool_decide_eq_false in Hf. done.
Qed.

(** ** The multipart body

    A reader of RFC 2046 bodies, as a receiver has one: after the delimiter
    come header lines up to an empty one, then the content up to the next
    delimiter. *)

Definition Part : Type := list string * string.

Fixpoint read_headers (fuel : nat) (s : string) : option (list string * string) :=
  match fuel with
  | O => None
  | S fuel =>
    '(line, rest) ← split_once crlf s;
    if is_empty line then Some ([], rest)
    else '(lines, rest) ← read_headers fuel rest; Some (line :: lines, rest)
  end.

(** [s] is what follows a delimiter line's [--boundary]. *)
Fixpoint read_parts (fuel : nat) (boundary s : string) : option (list Part) :=
  match fuel with
  | O => None
  | S fuel =>
    if String.eqb s ("--" +:+ crlf) then Some []
    else
      s ← strip_prefix crlf s;
      '(headers, s) ← read_headers (String.length s) s;
      '(content, s) ← split_once (crlf +:+ "--" +:+ boundary) s;
      parts ← read_parts fuel boundary s;
      Some ((headers, content) :: parts)
  end.

Definition read_multipart (boundary body : string) : option (list Part) :=
  s ← strip_prefix ("--" +:+ boundary) body;
  read_parts (String.length body) boundary s.

Definition envelope_part (json : string) : Part :=
  (["Content-Disposition: form-data; name=" +:+ quoted "envelope"; "Content-Type: application/json"], json).
Definition file_part (file : FilePart) : Part :=
  (["Content-Disposition: form-data; name=" +:+ quoted "files" +:+ "; filename=" +:+ quoted (part_filename file);
    "Content-Type: " +:+ part_content_type file], part_bytes file).

(** The text a reader sees after a delimiter, for given parts. *)
Fixpoint header_text (lines : list string) : string :=
  match lines with [] => EmptyString | l :: ls => l +:+ crlf +:+ header_text ls end.
Fixpoint after_delimiter (boundary : string) (parts : list Part) : string :=
  match parts with
  | [] => "--" +:+ crlf
  | (headers, content) :: parts =>
    crlf +:+ header_text headers +:+ crlf +:+ content +:+ crlf +:+ "--" +:+ boundary
         +:+ after_delimiter boundary parts
  end.

Definition cr : ascii := "013".

(** A part that can be read back: plain header lines, content that does not
    hold the delimiter. *)
Definition readable (boundary : string) (p : Part) : Prop :=
  Forall (λ l, l ≠ EmptyString ∧ lacks cr l = true) p.1 ∧
  contains p.2 (crlf +:+ "--" +:+ boundary) = false.

Lemma str_length_app a b : String.length (a +:+ b) = (String.length a + String.length b)%nat.
Proof. induction a; cbn; auto. Qed.

Lemma header_text_length lines : (length lines ≤ String.length (header_text lines))%nat.
Proof. induction lines as [|l ls IH]; cbn; [lia|]. rewrite !str_length_app. cbn. lia. Qed.

Lemma read_headers_text lines rest fuel :
  Forall (λ l, l ≠ EmptyString ∧ lacks cr l = true) lines → (length lines < fuel)%nat →
  read_headers fuel (header_text lines +:+ crlf +:+ rest) = Some (lines, rest).
Proof.
  revert fuel. induction lines as [|l ls IH]; intros [|fuel] Hl Hf; cbn in Hf; try lia.
  - reflexivity.
  - inversion_clear Hl as [|? ? [Hne Hcr] Hls]. cbn [read_headers header_text].
    replace ((l +:+ crlf +:+ header_text ls) +:+ crlf +:+ rest)
      with (l +:+ crlf +:+ (header_text ls +:+ crlf +:+ rest)) by (rewrite !str_app_assoc; done).
    unfold crlf at 1 2. rewrite (split_once_app cr (String "010" EmptyString)); [|done|by apply lacks_contains].
    cbn [mbind option_bind]. destruct l as [|ch line]; [done|]. cbn [is_empty].
    rewrite IH; [done|done|lia].
Qed.

Lemma read_parts_text boundary parts fuel :
  lacks cr boundary = true → Forall (readable boundary) parts → (length parts < fuel)%nat →
  read_parts fuel boundary (after_delimiter boundary parts) = Some parts.
Proof.
  intros Hb. revert fuel. induction parts as [|[hs content] ps IH]; intros [|fuel] Hp Hf; cbn in Hf; try lia.
  - reflexivity.
  - inversion_clear Hp as [|? ? [Hhs Hct] Hps]. cbn [read_parts after_delimiter].
    set (rest := content +:+ crlf +:+ "--" +:+ boundary +:+ after_delimiter boundary ps).
    change (String.eqb (crlf +:+ header_text hs +:+ crlf +:+ rest) ("--" +:+ crlf)) with false. cbv iota.
    rewrite strip_prefix_app. cbn [mbind option_bind]. rewrite read_headers_text; [|done|].
    2:{ rewrite !str_length_app. pose proof (header_text_length hs). cbn. lia. }
    cbn [mbind option_bind]. unfold rest.
    replace (content +:+ crlf +:+ "--" +:+ boundary +:+ after_delimiter boundary ps)
      with (content +:+ (crlf +:+ "--" +:+ boundary) +:+ after_delimiter boundary ps)
      by (rewrite !str_app_assoc; done).
    change (crlf +:+ "--" +:+ boundary) with (String cr (String "010" ("--" +:+ boundary))) in *.
    rewrite split_once_app; [|exact Hb|exact Hct]. cbn [mbind option_bind].
    rewrite IH; [done|done|lia].
Qed.

Lemma parts_length boundary parts : (length parts ≤ String.length (after_delimiter boundary parts))%nat.
Proof.
  induction parts as [|[hs ct] ps IH]; cbn; [lia|]. rewrite !str_length_app. cbn.
  rewrite !str_length_app. cbn. rewrite !str_length_app. lia.
Qed.

(** The writer in terms of what the reader sees. *)
Lemma write_file_part_text boundary out file :
  write_file_part boundary out file =
  out +:+ "--" +:+ boundary +:+ crlf +:+ header_text (file_part file).1 +:+ crlf +:+ part_bytes file +:+ crlf.
Proof. unfold write_file_part, file_part. cbn [fst header_text]. by rewrite !str_app_assoc. Qed.

Lemma file_parts_text boundary files out :
  foldl (write_file_part boundary) out files +:+ "--" +:+ boundary +:+ "--" +:+ crlf =
  out +:+ "--" +:+ boundary +:+ after_delimiter boundary (file_part <$> files).
Proof.
  revert out. induction files as [|f fs IH]; intros out; [done|]. cbn [foldl]. rewrite IH, write_file_part_text.
  cbn [fmap list_fmap after_delimiter]. by rewrite !str_app_assoc.
Qed.

Lemma serialize_text to_json m json :
  to_json (mp_envelope m) = Some json →
  serialize to_json m =
  Some ("--" +:+ mp_boundary m +:+ after_delimiter (mp_boundary m) (envelope_part json :: (file_part <$> mp_files m))).
Proof.
  intros Hj. unfold serialize. rewrite Hj. cbn [mbind option_bind]. rewrite file_parts_text.
  unfold write_text_part. cbn [after_delimiter envelope_part fst header_text]. by rewrite !str_app_assoc.
Qed.

Lemma quoted_lacks s : lacks cr s = true → lacks cr (quoted s) = true.
Proof. intros Hs. unfold quoted, lacks in *. cbn [all_bytes]. rewrite all_bytes_app, Hs. done. Qed.

Lemma readable_file boundary file :
  lacks cr (part_filename file) = true → lacks cr (part_content_type file) = true →
  contains (part_bytes file) (crlf +:+ "--" +:+ boundary) = false → readable boundary (file_part file).
Proof.
  intros Hn Ht Hb. split; [|done]. apply Forall_cons; split; [|apply Forall_singleton].
  - split; [done|]. rewrite !lacks_app. by rewrite (quoted_lacks _ Hn).
  - split; [done|]. by rewrite lacks_app, Ht.
Qed.

(** A receiver reads the upload back exactly: the envelope and then every
    file, in order, byte for byte, with its name and type in the headers,
    whenever the boundary occurs in no content and names and types hold no
    carriage return. *)
Theorem multipart_reads_back (to_json : IngestEnvelope → option string) (m : IngestMultipart) (json : string)
    (Hjson : to_json (mp_envelope m) = Some json)
    (Hboundary : lacks cr (mp_boundary m) = true)
    (Henvelope : contains json (crlf +:+ "--" +:+ mp_boundary m) = false)
    (Hfiles : Forall (λ f, lacks cr (part_filename f) = true ∧ lacks cr (part_content_type f) = true ∧
                contains (part_bytes f) (crlf +:+ "--" +:+ mp_boundary m) = false) (mp_files m)) :
  ∃ body, serialize to_json m = Some body ∧
    read_multipart (mp_boundary m) body = Some (envelope_part json :: (file_part <$> mp_files m)).
Proof.
  eexists. split; [by apply serialize_text|]. unfold read_multipart.
  set (parts := envelope_part json :: (file_part <$> mp_files m)).
  rewrite <-(str_app_assoc "--" (mp_boundary m)), strip_prefix_app. cbn [mbind option_bind].
  apply read_parts_text; [done| |].
  - apply Forall_cons. split.
    + split; [|done]. by repeat constructor.
    + apply Forall_fmap. eapply Forall_impl; [exact Hfiles|]. intros f (Hn & Ht & Hb). by apply readable_file.
  - rewrite str_app_assoc, !str_length_app. pose proof (parts_length (mp_boundary m) parts).
    change (String.length "--") with 2%nat. lia.
Qed.

(** ** Instances *)

Definition demo_sha : string :=
  "0123456789abcdef0123456789abcdef0123456789abcdef0123456789abcdef".
Definition demo_local : list LocalFile := [mkLocalFile "audio.flac" demo_sha 5; mkLocalFile "screen.mp4" demo_sha 9].
Definition demo_listing : list SegmentFile :=
  [mkSegmentFile "screen.mp4" 9 demo_sha FileProcessed None;
   mkSegmentFile "audio_1.flac" 5 demo_sha FilePresent (Some "audio.flac")].

Lemma custody_iff_both_listings_hold_witness :
  prove_custody (mkIngestManifest {["20260102" := mkManifestDay 1]})
    (mkDayManifest 1 "20260102" {["120000_300" := mkDayManifestSegment demo_listing]})
    (mkSegmentsEnvelope [mkSegmentItem "120000_300" true demo_listing None None None] 1 3)
    "20260102" "120000_300" demo_local =
  Confirmed (mkCustodyWitness "120000_300" (file_witness <$> demo_listing)).
Proof.
  apply custody_iff_both_listings_hold; [by apply (bool_decide_unpack (NoDup (local_name <$> demo_local)))|].
  assert (listing_holds demo_listing demo_local).
  { split; [constructor|by repeat constructor]. }
  split_and!; [by eexists|done| |].
  - split_and!; [done..| |].
    + apply NoDup_singleton.
    + apply Forall_singleton. by left.
  - eexists _, _. split_and!; [apply lookup_singleton_eq|done|by apply list_elem_of_singleton|done..].
Defined.

Definition demo_multipart : IngestMultipart :=
  mkIngestMultipart "b0" (mkIngestEnvelope "20260102" "120000_300" ["a.txt"] None None)
    [mkFilePart "a.txt" "text/plain" ("one" +:+ crlf +:+ "--two")].

Lemma multipart_reads_back_witness :
  ∃ body, serialize (λ _, Some "{}") demo_multipart = Some body ∧
    read_multipart "b0" body = Some [envelope_part "{}"; file_part (mkFilePart "a.txt" "text/plain" ("one" +:+ crlf +:+ "--two"))].
Proof.
  apply (multipart_reads_back (λ _, Some "{}") demo_multipart "{}"); [done..|]. by repeat constructor.
Defined.
