(* ===== verification/Transport.v ===== *)
(** * Transport vocabulary (crates/pl-transport-win/src/lib.rs, ack.rs, sealed.rs)

    The errors of the transport client, how the uploader classifies a refusal,
    the local acknowledgement file, and the names inside a sealed segment's
    directory. The JSON codecs are parameters. *)
From Stdlib Require Import Ascii String.
From S2P Require Import Prelude RustStr Model PauseStore Ingest.

Local Open Scope list_scope.

(** ** Errors *)

Inductive RelayError : Type :=
| HomeOffline | Unauthorized | Unpaid | UnknownInstance | PairWindowClosed | Overflow | Abnormal
| UpgradeRejected | Stalled.

Inductive RelayControlEndpoint : Type := EnrollDevice | TokenRefresh.

Definition endpoint_code (e : RelayControlEndpoint) : string :=
  match e with EnrollDevice => "enroll_device" | TokenRefresh => "refresh" end.

(** Payloads of third-party error types are left out. *)
Inductive TransportError : Type :=
| TIo (e : io_error)
| TTls (detail : string)
| TCrypto (detail : string)
| TClientKeyProtectionRefused
| TRelayTokenProtectionRefused
| TCredentialMalformed
| TCredentialRecoveryRequired
| TMux
| THttp
| TJson
| TPairLink (detail : string)
| TPairing (detail : string)
| TIngest (detail : string)
| TRejected (status : Z) (body : string)
| TRelay (r : RelayError)
| TRelayControlRejected (endpoint : RelayControlEndpoint) (status : Z)
| TReplayUnsafe
| TRelayDisabled
| TRelayRetired
| TRelayPublicationRejected
| TRelayPublicationIndeterminate
| TNoEndpoint
| TNotPaired
| TLocalOffset.

Definition relay_error_code (r : RelayError) : string :=
  match r with
  | HomeOffline => "relay_home_offline"
  | Unauthorized => "relay_unauthorized"
  | Unpaid => "relay_unpaid"
  | UnknownInstance => "relay_unknown_instance"
  | PairWindowClosed => "relay_pair_window_closed"
  | Overflow => "relay_overflow"
  | Abnormal => "relay_abnormal"
  | UpgradeRejected => "relay_upgrade_rejected"
  | Stalled => "relay_stalled"
  end.

Definition transport_error_code (err : TransportError) : string :=
  match err with
  | TIo _ => "io"
  | TTls _ => "tls"
  | TCrypto _ => "crypto"
  | TClientKeyProtectionRefused => "client_key_protection_refused"
  | TRelayTokenProtectionRefused => "relay_token_protection_refused"
  | TCredentialMalformed => "credential_malformed"
  | TCredentialRecoveryRequired => "credential_recovery_required"
  | TMux => "mux"
  | THttp => "http"
  | TJson => "json"
  | TPairLink _ => "pair_link"
  | TPairing _ => "pairing"
  | TIngest _ => "ingest"
  | TRejected status _ => "http_" +:+ fmt_dec status
  | TRelay r => relay_error_code r
  | TRelayControlRejected endpoint status =>
    "relay_" +:+ endpoint_code endpoint +:+ "_http_" +:+ fmt_dec status
  | TReplayUnsafe => "replay_unsafe"
  | TRelayDisabled => "relay_disabled"
  | TRelayRetired => "relay_retired"
  | TRelayPublicationRejected => "relay_publication_rejected"
  | TRelayPublicationIndeterminate => "relay_publication_indeterminate"
  | TNoEndpoint => "no_endpoint"
  | TNotPaired => "not_paired"
  | TLocalOffset => "local_offset"
  end.

Inductive RouteError : Type := AwaitingConfirmation | RouteTransport (e : TransportError).

Record SendMetadata : Type := mkSendMetadata { send_path : TransportPath; send_attempts : Z }.

(** ** Acknowledgements *)

Definition LOCAL_UPLOAD_ACK_SCHEMA : string := "solstone.local-upload-ack.v1".

Record JournalIdentity : Type := mkJournalIdentity {
  instance_id : string;
  ca_fp_prefix : string;
  client_cert_sha256 : string
}.

#[global] Instance JournalIdentity_eq_dec : EqDecision JournalIdentity.
Proof. solve_decision. Defined.
#[global] Instance JournalIdentity_countable : Countable JournalIdentity :=
  inj_countable' (λ i, (instance_id i, ca_fp_prefix i, client_cert_sha256 i))
    (λ '(a, b, c), mkJournalIdentity a b c) ltac:(by intros []).

Inductive AckProofKind : Type := ProofUpload | ProofListing.

Record AckFile : Type := mkAckFile {
  af_submitted : string;
  af_written : string;
  af_size : Z;
  af_sha256 : string;
  af_disposition : option string;
  af_listing_status : option SegmentFileStatus
}.

Record UploadAck : Type := mkUploadAck {
  ack_schema : string;
  ack_journal_identity : JournalIdentity;
  ack_day : string;
  ack_local_segment : string;
  ack_server_segment : string;
  ack_status : option string;
  ack_proof : AckProofKind;
  ack_files : list AckFile;
  ack_physical_index : option Z;
  ack_physical_segment : option string;
  ack_physical_stream : option string;
  ack_original_upload_key : option string
}.

Definition ack_of_descriptor (f : FileDescriptor) : AckFile :=
  mkAckFile (desc_submitted f) (desc_written f) (desc_size f) (desc_sha256 f) (Some (desc_disposition f)) None.

Definition new_upload (journal_identity : JournalIdentity) (day local_segment server_segment status : string)
    (receipt_files : list FileDescriptor) : UploadAck :=
  mkUploadAck LOCAL_UPLOAD_ACK_SCHEMA journal_identity day local_segment server_segment (Some status)
    ProofUpload (ack_of_descriptor <$> receipt_files) None None None None.

Definition new_listing (journal_identity : JournalIdentity) (day local_segment server_segment : string)
    (files : list AckFile) : UploadAck :=
  mkUploadAck LOCAL_UPLOAD_ACK_SCHEMA journal_identity day local_segment server_segment None
    ProofListing files None None None None.

Definition with_physical_identity (index : Z) (segment stream original_upload_key : string) (a : UploadAck)
    : UploadAck :=
  mkUploadAck (ack_schema a) (ack_journal_identity a) (ack_day a) (ack_local_segment a) (ack_server_segment a)
    (ack_status a) (ack_proof a) (ack_files a) (Some index) (Some segment) (Some stream) (Some original_upload_key).

(** The codecs: serde_json on text, the derived codec of [UploadAck] and of a
    list of strings, the digest of spl_core, and the [Debug] texts that go
    into an error's body. *)
Class UploadLib : Type := {
  sha256_hex : string → string;
  json_parse : string → option JsonValue;
  ack_from_slice : string → option UploadAck;
  ack_to_vec : UploadAck → option string;
  debug_fault : ReceiptFault → string;
  debug_status : IngestStatus → string
}.

Section codecs.
Context `{UploadLib}.

Definition ack_from_bytes (bytes : string) : option UploadAck :=
  ack ← ack_from_slice bytes;
  if negb (String.eqb (ack_schema ack) LOCAL_UPLOAD_ACK_SCHEMA) then None
  else
    let physical_fields := [is_some (ack_physical_index ack); is_some (ack_physical_segment ack);
                            is_some (ack_physical_stream ack); is_some (ack_original_upload_key ack)] in
    if existsb id physical_fields && existsb negb physical_fields then None
    else Some ack.

(** ** Refusals *)

(** [serde_json::from_str(body).ok().and_then(|v| v.get(key)?.as_str())]. *)
Definition body_str (key body : string) : option string :=
  match json_parse body with
  | Some (JObject m) => json_get key m ≫= as_str
  | _ => None
  end.

Definition attributable_reasons : list string :=
  ["legacy_observer_field"; "legacy_stream_field"; "source_not_utf8"; "source_too_long";
   "source_contains_nul"; "source_contains_path_separator"; "source_contains_dot";
   "source_invalid_character"; "day_invalid"; "segment_invalid"; "field_missing"; "field_duplicate";
   "envelope_invalid"; "file_metadata_invalid"; "file_name_mismatch"; "file_name_invalid";
   "file_name_duplicate"; "multipart_malformed"; "multipart_part_too_large"; "multipart_too_many_parts";
   "multipart_too_many_files"; "multipart_too_many_headers"; "multipart_filename_too_long"]%string.

Definition is_attributable_rejection (err : TransportError) : bool :=
  match err with
  | TRejected status body =>
    if (status =? 413)%Z then true
    else if (status =? 400)%Z then
      match body_str "reason_code" body with
      | Some reason => bool_decide (reason ∈ attributable_reasons)
      | None => false
      end
    else false
  | _ => false
  end.

Definition device_scoped_words : list string := ["foreign_stream_binding"; "pairing_identity_unavailable"]%string.

Definition is_device_scoped_refusal (err : TransportError) : bool :=
  match err with
  | TRejected status body =>
    if bool_decide (status ∈ [401; 403; 404; 426]%Z) then true
    else if (status =? 409)%Z then
      match json_parse body with
      | Some v =>
        let word key := default EmptyString
          (match v with JObject m => json_get key m ≫= as_str | _ => None end) in
        bool_decide (word "error" ∈ device_scoped_words) || bool_decide (word "reason_code" ∈ device_scoped_words)
      | None => false
      end
    else false
  | _ => false
  end.

(** The reason of a refusal, or [http_<status>]. *)
Definition rejection_reason (status : Z) (body : string) : string :=
  default ("http_" +:+ fmt_dec status) (body_str "reason_code" body).
End codecs.

(** [matches!(e, Io | Tls | NoEndpoint | Json)]: the journal was not reached. *)
Definition aborts_tick (e : TransportError) : bool :=
  match e with TIo _ | TTls _ | TNoEndpoint | TJson => true | _ => false end.

Definition journal_answered {T} (r : result T RouteError) : bool :=
  match r with
  | Ok _ | Err (RouteTransport (TRejected _ _)) => true
  | _ => false
  end.

(** ** Sealed segment directories *)

Definition AUDIO_FILE_NAME : string := "audio.flac".
Definition LEN_FILE_NAME : string := ".len".
Definition AUDIO_SOURCES_FILE_NAME : string := ".audio_sources".
Definition UPLOADED_MARKER : string := ".uploaded".
Definition UPLOADED_TMP_MARKER : string := ".uploaded.tmp".
Definition LEN_TMP_MARKER : string := ".len.tmp".
Definition REFUSED_BY_MARKER : string := ".refused-by".

Definition is_media (name : string) : bool :=
  negb (String.eqb name UPLOADED_MARKER) && negb (String.eqb name UPLOADED_TMP_MARKER)
  && negb (String.eqb name LEN_FILE_NAME) && negb (String.eqb name AUDIO_SOURCES_FILE_NAME).

Record SealedSegment : Type := mkSealedSegment {
  ss_index : Z;
  ss_boundary_epoch_secs : Z;
  ss_len_secs : option Z;
  ss_audio_sources : list string;
  ss_files : list string
}.

Record DirEntryFact : Type := mkDirEntryFact { de_name : string; de_is_file : bool; de_size_bytes : Z }.

Definition content_type_for (name : string) : string :=
  if String.eqb name AUDIO_FILE_NAME then "audio/flac"
  else if ends_with name ".mp4" then "video/mp4"
  else if ends_with name "_desktop_activity.jsonl" then "application/jsonl"
  else "application/octet-stream".
