(* ===== verification/Coordinator.v ===== *)
(** * The upload coordinator (crates/pl-transport-win/src/coordinator.rs)

    Every pass of [UploadCoordinator] over the sealed segments: the upload of
    each one, the receipt or listing that confirms it, the delete gate, the
    local finish of segments already acknowledged, quarantine, bounds and
    holds. The store, the transport client, the clock and the zone are the
    class [UploadWorld]; each call on it is recorded in the ghost log
    [co_log], which the code never reads. Mutexes are taken as unpoisoned and
    [tracing] output is left out. *)
From Stdlib Require Import Ascii String.
From stdpp Require Import sorting.
From S2P Require Import Prelude RustStr Model PauseStore Civil Ingest Transport.

Local Open Scope list_scope.

Definition MAX_BACKOFF_SECS : Z := 300.
Definition QUARANTINE_AFTER_REJECTS : Z := 5.
Definition DEFAULT_UPLOAD_INTERVAL_SECS : Z := 5.
Definition RECENT_ERROR_COUNT_MAX : Z := 99.
Definition LAST_ERROR_REASON_MAX_LEN : nat := 200.

Inductive DeleteGate : Type := Deleted | Partial | Blocked | Stopped.
Inductive SlotExit : Type := ExitRun | ExitQuiesce | ExitShutdown.

(** ** Upload status *)

Definition set_pending_segments (x : Z) (r : UploadStatus) : UploadStatus :=
    mkUploadStatus x (uploaded_segments r) (failed_segments r) (quarantined_segments r)
    (invalid_receipts r) (segment_removed_segments r) (listing_unproven_segments r)
    (listing_refusals r) (unknown_kept_segments r) (last_uploaded_segment r)
    (last_uploaded_server_segment r) (upload_last_error r) (last_successful_sync r)
    (recent_error_count r) (last_error_reason r) (last_upload_duration_ms r) (last_upload_bytes r)
    (last_upload_path r) (last_upload_dial_attempts r).
Definition set_uploaded_segments (x : Z) (r : UploadStatus) : UploadStatus :=
    mkUploadStatus (pending_segments r) x (failed_segments r) (quarantined_segments r)
    (invalid_receipts r) (segment_removed_segments r) (listing_unproven_segments r)
    (listing_refusals r) (unknown_kept_segments r) (last_uploaded_segment r)
    (last_uploaded_server_segment r) (upload_last_error r) (last_successful_sync r)
    (recent_error_count r) (last_error_reason r) (last_upload_duration_ms r) (last_upload_bytes r)
    (last_upload_path r) (last_upload_dial_attempts r).
Definition set_failed_segments (x : Z) (r : UploadStatus) : UploadStatus :=
    mkUploadStatus (pending_segments r) (uploaded_segments r) x (quarantined_segments r)
    (invalid_receipts r) (segment_removed_segments r) (listing_unproven_segments r)
    (listing_refusals r) (unknown_kept_segments r) (last_uploaded_segment r)
    (last_uploaded_server_segment r) (upload_last_error r) (last_successful_sync r)
    (recent_error_count r) (last_error_reason r) (last_upload_duration_ms r) (last_upload_bytes r)
    (last_upload_path r) (last_upload_dial_attempts r).
Definition set_quarantined_segments (x : Z) (r : UploadStatus) : UploadStatus :=
    mkUploadStatus (pending_segments r) (uploaded_segments r) (failed_segments r) x
    (invalid_receipts r) (segment_removed_segments r) (listing_unproven_segments r)
    (listing_refusals r) (unknown_kept_segments r) (last_uploaded_segment r)
    (last_uploaded_server_segment r) (upload_last_error r) (last_successful_sync r)
    (recent_error_count r) (last_error_reason r) (last_upload_duration_ms r) (last_upload_bytes r)
    (last_upload_path r) (last_upload_dial_attempts r).
Definition set_invalid_receipts (x : Z) (r : UploadStatus) : UploadStatus :=
    mkUploadStatus (pending_segments r) (uploaded_segments r) (failed_segments r)
    (quarantined_segments r) x (segment_removed_segments r) (listing_unproven_segments r)
    (listing_refusals r) (unknown_kept_segments r) (last_uploaded_segment r)
    (last_uploaded_server_segment r) (upload_last_error r) (last_successful_sync r)
    (recent_error_count r) (last_error_reason r) (last_upload_duration_ms r) (last_upload_bytes r)
    (last_upload_path r) (last_upload_dial_attempts r).
Definition set_segment_removed_segments (x : Z) (r : UploadStatus) : UploadStatus :=
    mkUploadStatus (pending_segments r) (uploaded_segments r) (failed_segments r)
    (quarantined_segments r) (invalid_receipts r) x (listing_unproven_segments r) (listing_refusals
    r) (unknown_kept_segments r) (last_uploaded_segment r) (last_uploaded_server_segment r)
    (upload_last_error r) (last_successful_sync r) (recent_error_count r) (last_error_reason r)
    (last_upload_duration_ms r) (last_upload_bytes r) (last_upload_path r)
    (last_upload_dial_attempts r).
Definition set_listing_refusals (x : Z) (r : UploadStatus) : UploadStatus :=
    mkUploadStatus (pending_segments r) (uploaded_segments r) (failed_segments r)
    (quarantined_segments r) (invalid_receipts r) (segment_removed_segments r)
    (listing_unproven_segments r) x (unknown_kept_segments r) (last_uploaded_segment r)
    (last_uploaded_server_segment r) (upload_last_error r) (last_successful_sync r)
    (recent_error_count r) (last_error_reason r) (last_upload_duration_ms r) (last_upload_bytes r)
    (last_upload_path r) (last_upload_dial_attempts r).
Definition set_unknown_kept_segments (x : Z) (r : UploadStatus) : UploadStatus :=
    mkUploadStatus (pending_segments r) (uploaded_segments r) (failed_segments r)
    (quarantined_segments r) (invalid_receipts r) (segment_removed_segments r)
    (listing_unproven_segments r) (listing_refusals r) x (last_uploaded_segment r)
    (last_uploaded_server_segment r) (upload_last_error r) (last_successful_sync r)
    (recent_error_count r) (last_error_reason r) (last_upload_duration_ms r) (last_upload_bytes r)
    (last_upload_path r) (last_upload_dial_attempts r).
Definition set_upload_last_error (x : option string) (r : UploadStatus) : UploadStatus :=
    mkUploadStatus (pending_segments r) (uploaded_segments r) (failed_segments r)
    (quarantined_segments r) (invalid_receipts r) (segment_removed_segments r)
    (listing_unproven_segments r) (listing_refusals r) (unknown_kept_segments r)
    (last_uploaded_segment r) (last_uploaded_server_segment r) x (last_successful_sync r)
    (recent_error_count r) (last_error_reason r) (last_upload_duration_ms r) (last_upload_bytes r)
    (last_upload_path r) (last_upload_dial_attempts r).
Definition set_last_successful_sync (x : option Z) (r : UploadStatus) : UploadStatus :=
    mkUploadStatus (pending_segments r) (uploaded_segments r) (failed_segments r)
    (quarantined_segments r) (invalid_receipts r) (segment_removed_segments r)
    (listing_unproven_segments r) (listing_refusals r) (unknown_kept_segments r)
    (last_uploaded_segment r) (last_uploaded_server_segment r) (upload_last_error r) x
    (recent_error_count r) (last_error_reason r) (last_upload_duration_ms r) (last_upload_bytes r)
    (last_upload_path r) (last_upload_dial_attempts r).
Definition set_recent_error_count (x : Z) (r : UploadStatus) : UploadStatus :=
    mkUploadStatus (pending_segments r) (uploaded_segments r) (failed_segments r)
    (quarantined_segments r) (invalid_receipts r) (segment_removed_segments r)
    (listing_unproven_segments r) (listing_refusals r) (unknown_kept_segments r)
    (last_uploaded_segment r) (last_uploaded_server_segment r) (upload_last_error r)
    (last_successful_sync r) x (last_error_reason r) (last_upload_duration_ms r) (last_upload_bytes
    r) (last_upload_path r) (last_upload_dial_attempts r).
Definition set_last_error_reason (x : option string) (r : UploadStatus) : UploadStatus :=
    mkUploadStatus (pending_segments r) (uploaded_segments r) (failed_segments r)
    (quarantined_segments r) (invalid_receipts r) (segment_removed_segments r)
    (listing_unproven_segments r) (listing_refusals r) (unknown_kept_segments r)
    (last_uploaded_segment r) (last_uploaded_server_segment r) (upload_last_error r)
    (last_successful_sync r) (recent_error_count r) x (last_upload_duration_ms r) (last_upload_bytes
    r) (last_upload_path r) (last_upload_dial_attempts r).

(** [split_whitespace().collect().join(" ")]. *)
Fixpoint squeeze (fuel : nat) (s : string) (pending : bool) : string :=
  match fuel with
  | O => EmptyString
  | S fuel =>
    match strip_any whitespace_chars s with
    | Some rest => squeeze fuel rest pending
    | None =>
      (fix word (s : string) (first : bool) {struct s} : string :=
         match s with
         | EmptyString => EmptyString
         | String c rest =>
           match strip_any whitespace_chars s with
           | Some rest' => squeeze fuel rest' true
           | None => (if first && pending then String " " (String c EmptyString) else String c EmptyString)
                     +:+ word rest false
           end
         end) s true
    end
  end.

(** [chars().take(n)]: a byte [10xxxxxx] continues the character before it. *)
Fixpoint take_chars (n : nat) (s : string) : string :=
  match s with
  | EmptyString => EmptyString
  | String c s =>
    if byte_in 128 191 c then String c (take_chars n s)
    else match n with O => EmptyString | S n => String c (take_chars n s) end
  end.

Definition bounded_single_line (input : string) (max_chars : nat) : string :=
  take_chars max_chars (squeeze (S (String.length input)) input false).

Definition record_failure (reason_code : string) (u : UploadStatus) : UploadStatus :=
  set_last_error_reason (Some (bounded_single_line reason_code LAST_ERROR_REASON_MAX_LEN))
    (set_recent_error_count (Z.min (Z.min (recent_error_count u + 1) 255) RECENT_ERROR_COUNT_MAX) u).
Definition record_success (u : UploadStatus) : UploadStatus :=
  set_last_error_reason None (set_recent_error_count 0 u).
Definition record_answer (now_ms : Z) (u : UploadStatus) : UploadStatus :=
  set_last_successful_sync (Some now_ms) u.

(** ** The world *)

Class UploadWorld (W : Type) : Type := {
  w_scan : M W (result (list SealedSegment) io_error);
  w_confirmed : M W (result (list SealedSegment) io_error);
  w_read_file : Z → string → M W (result string io_error);
  w_list_entries : Z → M W (result (list DirEntryFact) io_error);
  w_remove_entry : Z → string → M W (result unit io_error);
  w_remove_dir : Z → M W (result unit io_error);
  w_modified : Z → string → M W (result Z io_error);
  w_write_ack : Z → UploadAck → M W (result unit io_error);
  w_quarantine : Z → string → M W (result unit io_error);
  w_release_refused : string → M W (result Z io_error);
  w_quarantined_media_dirs : M W (result Z io_error);
  w_gate_open : M W bool;
  w_journal_identity : M W JournalIdentity;
  w_ingest : string → string → list FilePart → option LocalZone → list string →
             M W (result (IngestResponse * SendMetadata) RouteError);
  w_list_segments : string → M W (result (SegmentsEnvelope * SendMetadata) RouteError);
  w_refusal_stop : M W bool;
  w_local_zone : Z → M W (result LocalZone unit);
  w_monotonic_now : M W Z;
  w_instant : M W Z;
  w_now_millis : M W Z;
  w_elapsed_ms : M W Z;
  w_exit : M W SlotExit;
  w_publish_refused : M W unit;
  w_publish_unknown_journals : M W unit;
  w_mark_disconnected : M W unit
}.

(** The ghost log: what was asked and answered. *)
Inductive Event : Type :=
| EvRead (index : Z) (name : string) (r : result string io_error)
| EvRemove (index : Z) (name : string) (r : result unit io_error)
| EvModified (index : Z) (name : string) (r : result Z io_error)
| EvQuarantine (index : Z) (journal : string) (r : result unit io_error)
| EvIdentity (id : JournalIdentity)
| EvIngest (index : Z) (key day : string) (parts : list FilePart)
    (r : result (IngestResponse * SendMetadata) RouteError)
| EvListing (day : string) (r : result (SegmentsEnvelope * SendMetadata) RouteError)
| EvOther.

Record SegmentBound : Type := mkSegmentBound {
  sb_until_epoch : Z;
  sb_last_error_signature : string;
  sb_streak : Z
}.

Definition BoundKey : Type := JournalIdentity * string * string.

Record Coordinator (W : Type) : Type := mkCoordinator {
  co_world : W;
  co_log : list Event;
  co_quarantine_counts : gmap Z Z;
  co_segment_bounds : gmap BoundKey SegmentBound;
  co_delete_holds : gmap Z Z;
  co_day_bounds : gmap string Z;
  co_upload : UploadStatus;
  co_heard : option Z;
  co_period_secs : Z
}.
Arguments mkCoordinator {W} _ _ _ _ _ _ _ _ _.
Arguments co_world {W} _.
Arguments co_log {W} _.
Arguments co_quarantine_counts {W} _.
Arguments co_segment_bounds {W} _.
Arguments co_delete_holds {W} _.
Arguments co_day_bounds {W} _.
Arguments co_upload {W} _.
Arguments co_heard {W} _.
Arguments co_period_secs {W} _.

Definition new_coordinator {W} (world : W) (upload : UploadStatus) (period_secs : Z) : Coordinator W :=
  mkCoordinator world [] ∅ ∅ ∅ ∅ upload None (Z.max period_secs 1).

Record ConfirmedUpload : Type := mkConfirmedUpload {
  cu_server_segment : string;
  cu_files : list AckFile;
  cu_metadata : SendMetadata
}.

(** A local file as the upload attests it: name, digest, size. *)
Definition LocalFact : Type := string * string * Z.
Definition fact_name (f : LocalFact) : string := f.1.1.
Definition fact_local (f : LocalFact) : LocalFile := mkLocalFile f.1.1 f.1.2 f.2.

Record UnknownSegmentFact : Type := mkUnknownSegmentFact {
  unk_index : Z;
  unk_segment_key : string;
  unk_local_files : list LocalFact
}.

(** What one pass accumulates. *)
Record TickAcc : Type := mkTickAcc {
  acc_witnesses : list ConfirmedUpload;
  acc_unknown : gmap string (list UnknownSegmentFact)
}.

(** ** The delete gate's test *)

(** [exp] of [expected_files] covers an entry with this name, size and digest. *)
Definition ack_file_matches (name : string) (size : Z) (sha : string) (exp : AckFile) : bool :=
  if negb (String.eqb (af_submitted exp) name) || negb (af_size exp =? size)%Z
     || negb (String.eqb (af_sha256 exp) sha)
  then false
  else if match af_disposition exp with
          | Some disp => negb (String.eqb disp "written") && negb (String.eqb disp "already_held")
          | None => false
          end then false
  else match af_listing_status exp with Some status => is_held status | None => true end.

Section coordinator.
Context {W : Type} `{UploadWorld W} `{UploadLib}.
Notation co := (M (Coordinator W)).

Definition call {A} (ev : A → Event) (m : M W A) : co A :=
  λ c, let '(a, w) := m (co_world c) in
       (a, mkCoordinator w (co_log c ++ [ev a]) (co_quarantine_counts c) (co_segment_bounds c)
             (co_delete_holds c) (co_day_bounds c) (co_upload c) (co_heard c) (co_period_secs c)).
Definition ask {A} (m : M W A) : co A := call (λ _, EvOther) m.

Definition upd_upload (f : UploadStatus → UploadStatus) : co unit :=
  modify (λ c, mkCoordinator (co_world c) (co_log c) (co_quarantine_counts c) (co_segment_bounds c)
                 (co_delete_holds c) (co_day_bounds c) (f (co_upload c)) (co_heard c) (co_period_secs c)).
Definition upd_counts (f : gmap Z Z → gmap Z Z) : co unit :=
  modify (λ c, mkCoordinator (co_world c) (co_log c) (f (co_quarantine_counts c)) (co_segment_bounds c)
                 (co_delete_holds c) (co_day_bounds c) (co_upload c) (co_heard c) (co_period_secs c)).
Definition upd_bounds (f : gmap BoundKey SegmentBound → gmap BoundKey SegmentBound) : co unit :=
  modify (λ c, mkCoordinator (co_world c) (co_log c) (co_quarantine_counts c) (f (co_segment_bounds c))
                 (co_delete_holds c) (co_day_bounds c) (co_upload c) (co_heard c) (co_period_secs c)).
Definition upd_holds (f : gmap Z Z → gmap Z Z) : co unit :=
  modify (λ c, mkCoordinator (co_world c) (co_log c) (co_quarantine_counts c) (co_segment_bounds c)
                 (f (co_delete_holds c)) (co_day_bounds c) (co_upload c) (co_heard c) (co_period_secs c)).
Definition upd_days (f : gmap string Z → gmap string Z) : co unit :=
  modify (λ c, mkCoordinator (co_world c) (co_log c) (co_quarantine_counts c) (co_segment_bounds c)
                 (co_delete_holds c) (f (co_day_bounds c)) (co_upload c) (co_heard c) (co_period_secs c)).
Definition set_heard (at_ : Z) : co unit :=
  modify (λ c, mkCoordinator (co_world c) (co_log c) (co_quarantine_counts c) (co_segment_bounds c)
                 (co_delete_holds c) (co_day_bounds c) (co_upload c) (Some at_) (co_period_secs c)).

(** *** Store and client calls *)

Definition read_file (index : Z) (name : string) : co (result string io_error) :=
  call (EvRead index name) (w_read_file index name).
Definition list_entries (index : Z) : co (result (list DirEntryFact) io_error) := ask (w_list_entries index).
Definition remove_entry (index : Z) (name : string) : co (result unit io_error) :=
  call (EvRemove index name) (w_remove_entry index name).
Definition remove_dir (index : Z) : co (result unit io_error) := ask (w_remove_dir index).
Definition modified (index : Z) (name : string) : co (result Z io_error) :=
  call (EvModified index name) (w_modified index name).
Definition write_ack (index : Z) (ack : UploadAck) : co (result unit io_error) := ask (w_write_ack index ack).
Definition quarantine (index : Z) (journal : string) : co (result unit io_error) :=
  call (EvQuarantine index journal) (w_quarantine index journal).
Definition journal_identity : co JournalIdentity := call EvIdentity w_journal_identity.
(** The segment's index is in the event only. *)
Definition ingest (index : Z) (key day : string) (parts : list FilePart) (zone : option LocalZone)
    (audio_sources : list string) : co (result (IngestResponse * SendMetadata) RouteError) :=
  call (EvIngest index key day parts) (w_ingest key day parts zone audio_sources).
Definition list_segments (day : string) : co (result (SegmentsEnvelope * SendMetadata) RouteError) :=
  call (EvListing day) (w_list_segments day).

(** *** Holds, bounds and counters *)

Definition is_held_at (index now_epoch : Z) (c : Coordinator W) : bool :=
  (now_epoch <? default 0 (co_delete_holds c !! index))%Z.
Definition is_held_now (index now_epoch : Z) : co bool := gets (is_held_at index now_epoch).
Definition set_hold (index until_epoch : Z) : co unit := upd_holds <[index := until_epoch]>.
(** [set_hold(index, now.saturating_add(3600))]. *)
Definition hold_hour (index now : Z) : co unit := set_hold index (sat_add_u64 now 3600).

Definition on_invalid_receipt : co unit :=
  upd_upload (λ u, set_invalid_receipts (sat_add_u64 (invalid_receipts u) 1) u).
Definition on_segment_removed : co unit :=
  upd_upload (λ u,
    set_pending_segments (sat_sub (pending_segments u) 1)
      (set_upload_last_error None
        (set_uploaded_segments (sat_add_u64 (uploaded_segments u) 1)
          (set_segment_removed_segments (sat_add_u64 (segment_removed_segments u) 1) u)))).
Definition on_unknown_kept : co unit :=
  upd_upload (λ u, set_unknown_kept_segments (sat_add_u64 (unknown_kept_segments u) 1) u).
Definition on_listing_refusal : co unit :=
  upd_upload (λ u, set_listing_refusals (sat_add_u64 (listing_refusals u) 1) u).
Definition on_error (err : TransportError) : co unit :=
  upd_upload (λ u, set_upload_last_error (Some (transport_error_code err))
                     (set_failed_segments (wrap_u64 (failed_segments u + 1)) u)).
Definition set_pending (pending : Z) : co unit := upd_upload (set_pending_segments pending).

Definition on_confirmed (segment_key server_key : string) (bytes duration_ms : Z) (path : TransportPath)
    (attempts : Z) : co unit :=
  upd_upload (λ u,
    mkUploadStatus (sat_sub (pending_segments u) 1) (wrap_u64 (uploaded_segments u + 1)) (failed_segments u)
      (quarantined_segments u) (invalid_receipts u) (segment_removed_segments u) (listing_unproven_segments u)
      (listing_refusals u) (unknown_kept_segments u) (Some segment_key) (Some server_key) None
      (last_successful_sync u) (recent_error_count u) (last_error_reason u) (Some duration_ms) (Some bytes)
      (Some path) (Some attempts)).

Definition register_segment_error (day segment_key error_signature : string) (now : Z) : co unit :=
  id ← journal_identity;
  upd_bounds (λ bounds,
    let entry := default (mkSegmentBound 0 EmptyString 0) (bounds !! (id, day, segment_key)) in
    let streak := if String.eqb (sb_last_error_signature entry) error_signature
                  then sat_add_u32 (sb_streak entry) 1 else 1%Z in
    let duration_secs := if (3 <=? streak)%Z then 86400%Z else 3600%Z in
    <[(id, day, segment_key) := mkSegmentBound (sat_add_u64 now duration_secs) error_signature streak]> bounds).

Definition register_segment_bound (day segment_key error_signature : string) (now duration_secs : Z) : co unit :=
  id ← journal_identity;
  upd_bounds <[(id, day, segment_key) := mkSegmentBound (sat_add_u64 now duration_secs) error_signature 1]>.

Definition register_received_not_written (day segment_key : string) (now : Z) : co unit :=
  register_segment_bound day segment_key "received_not_written" now 86400.

Definition recount_quarantined : co unit :=
  r ← ask w_quarantined_media_dirs;
  match r with
  | Ok count => upd_upload (set_quarantined_segments count)
  | Err _ => mret tt
  end.

Definition register_reject (index : Z) : co unit :=
  upd_counts (λ counts, <[index := sat_add_u32 (default 0%Z (counts !! index)) 1]> counts) ;;
  counts ← gets co_quarantine_counts;
  if negb (QUARANTINE_AFTER_REJECTS <=? default 0 (counts !! index))%Z then mret tt
  else
    id ← journal_identity;
    r ← quarantine index (instance_id id);
    match r with
    | Ok _ => upd_counts (delete index) ;; recount_quarantined
    | Err _ => mret tt
    end.

Definition clear_reject (index : Z) : co unit := upd_counts (delete index).

Definition note_heard : co unit :=
  at_ ← ask w_instant;
  set_heard at_ ;;
  now_ms ← ask w_now_millis;
  upd_upload (record_answer now_ms).

(** *** The delete gate *)

(** [remove_entry], an absent entry counting as removed. *)
Definition remove_or_absent (index : Z) (name : string) : co bool :=
  r ← remove_entry index name;
  mret (match r with Ok _ | Err NotFound => true | Err OtherError => false end).

Fixpoint match_media (index : Z) (expected_files : list AckFile) (media : list DirEntryFact)
    : co (result (list string * bool) io_error) :=
  match media with
  | [] => mret (Ok ([], false))
  | entry :: media =>
    r ← read_file index (de_name entry);
    match r with
    | Err e => mret (Err e)
    | Ok bytes =>
      let matches := existsb (ack_file_matches (de_name entry) (de_size_bytes entry) (sha256_hex bytes))
                       expected_files in
      rest ← match_media index expected_files media;
      mret (match rest with
            | Err e => Err e
            | Ok (names, uncovered) =>
              if matches then Ok (de_name entry :: names, uncovered) else Ok (names, true)
            end)
    end
  end.

Fixpoint remove_all (index : Z) (names : list string) : co bool :=
  match names with
  | [] => mret true
  | name :: names =>
    ok ← remove_or_absent index name;
    if ok : bool then remove_all index names else mret false
  end.

Definition not_file (e : DirEntryFact) : bool := negb (de_is_file e).
Definition media_of (entries : list DirEntryFact) : list DirEntryFact :=
  filter (λ e, is_media (de_name e) = true) entries.
Definition same_entry (a b : DirEntryFact) : bool :=
  String.eqb (de_name a) (de_name b) && (de_size_bytes a =? de_size_bytes b)%Z.

(** Steps 5 to 7: the deletions. *)
Definition gate_remove (index : Z) (matched : list string) (has_uncovered_media : bool) : co DeleteGate :=
  ok ← remove_all index matched;
  if negb (ok : bool) then mret Blocked
  else
    ok ← (if has_uncovered_media then mret true
          else ok ← remove_or_absent index LEN_FILE_NAME;
               if ok : bool then remove_or_absent index AUDIO_SOURCES_FILE_NAME else mret false);
    if negb (ok : bool) then mret Blocked
    else
      ok ← remove_or_absent index UPLOADED_MARKER;
      if negb (ok : bool) then mret Blocked
      else
        ok ← remove_or_absent index UPLOADED_TMP_MARKER;
        if negb (ok : bool) then mret Blocked
        else if has_uncovered_media then mret Partial
        else
          r ← remove_dir index;
          mret (match r with Ok _ => Deleted | Err _ => Blocked end).

Definition try_gate_delete (index : Z) (expected_files : list AckFile) : co (result DeleteGate io_error) :=
  r ← list_entries index;
  match r with
  | Err e => mret (Err e)
  | Ok entries =>
    if existsb not_file entries then mret (Ok Stopped)
    else
      let media_entries := media_of entries in
      m ← match_media index expected_files media_entries;
      match m with
      | Err e => mret (Err e)
      | Ok (matched_media_names, has_uncovered_media) =>
        r ← list_entries index;
        match r with
        | Err e => mret (Err e)
        | Ok recheck_entries =>
          let recheck_media := media_of recheck_entries in
          if existsb not_file recheck_entries then mret (Ok Stopped)
          else if negb (length recheck_media =? length media_entries)%nat then mret (Ok Stopped)
          else if existsb (λ e, negb (existsb (same_entry e) media_entries)) recheck_media
          then mret (Ok Stopped)
          else g ← gate_remove index matched_media_names has_uncovered_media; mret (Ok g)
        end
      end
  end.

(** The gate and the hold its failure leaves. *)
Definition gate_or_hold (index now : Z) (files : list AckFile) : co unit :=
  r ← try_gate_delete index files;
  match r with
  | Ok Blocked | Err _ => hold_hour index now
  | Ok _ => mret tt
  end.

Definition ack_of_fact (f : LocalFact) : AckFile := mkAckFile f.1.1 f.1.1 f.2 f.1.2 None None.

Definition finish_segment_removed (index : Z) (local_files : list LocalFact) (now : Z) : co unit :=
  r ← try_gate_delete index (ack_of_fact <$> local_files);
  match r with
  | Ok Deleted | Ok Partial => on_segment_removed
  | Ok Blocked | Ok Stopped | Err _ => hold_hour index now
  end.

(** *** Local finish *)

(** An acknowledged entry named by [file]. *)
Definition acked_entry (media : list DirEntryFact) (file : AckFile) : bool :=
  existsb (λ entry, String.eqb (de_name entry) (af_submitted file) && (de_size_bytes entry =? af_size file)%Z) media.

Definition ack_matches_physical (index : Z) (segment : SealedSegment) (ack : UploadAck)
    : co (result bool io_error) :=
  z ← ask (w_local_zone (ss_boundary_epoch_secs segment));
  match z with
  | Err _ => mret (Ok false)
  | Ok zone =>
    period ← gets co_period_secs;
    let day := day_string_local (ss_boundary_epoch_secs segment) (utc_offset_seconds zone) in
    let local_segment := segment_key_string_local (ss_boundary_epoch_secs segment) (utc_offset_seconds zone)
                           (default period (ss_len_secs segment)) in
    if negb (String.eqb (ack_day ack) day) || negb (String.eqb (ack_local_segment ack) local_segment)
       || negb (bool_decide (ack_physical_index ack = Some index))
       || negb (bool_decide (ack_physical_segment ack = Some local_segment))
       || negb (bool_decide (ack_physical_stream ack = Some "_default"%string))
       || negb (bool_decide (ack_original_upload_key ack = Some local_segment))
    then mret (Ok false)
    else
      r ← list_entries index;
      match r with
      | Err e => mret (Err e)
      | Ok entries =>
        mret (Ok (bool_decide (NoDup (af_submitted <$> ack_files ack))
                  && forallb (acked_entry (media_of entries)) (ack_files ack)))
      end
  end.

(** A directory without a marker and without media goes, sidecars first. *)
Definition finish_empty (index now : Z) : co unit :=
  ok ← (ok ← remove_or_absent index LEN_FILE_NAME;
        if ok : bool then remove_or_absent index AUDIO_SOURCES_FILE_NAME else mret false);
  if negb (ok : bool) then hold_hour index now
  else
    ok ← remove_or_absent index UPLOADED_TMP_MARKER;
    if negb (ok : bool) then hold_hour index now
    else
      r ← remove_dir index;
      match r with Ok _ => mret tt | Err _ => hold_hour index now end.

(** The marker goes; any failure but absence holds the segment. *)
Definition drop_marker (index now : Z) : co unit :=
  ok ← remove_or_absent index UPLOADED_MARKER;
  if ok : bool then mret tt else hold_hour index now.

Definition unacked_activity (ack : UploadAck) (entry : DirEntryFact) : bool :=
  if negb (de_is_file entry) || negb (ends_with (de_name entry) "_desktop_activity.jsonl")
     || (de_size_bytes entry =? 0)%Z
  then false
  else negb (existsb (λ af, String.eqb (af_submitted af) (de_name entry)
                            && (af_size af =? de_size_bytes entry)%Z) (ack_files ack)).

Definition same_journal (a b : JournalIdentity) : bool :=
  String.eqb (instance_id a) (instance_id b) && String.eqb (ca_fp_prefix a) (ca_fp_prefix b).

Definition legacy_ack (ack : UploadAck) : bool :=
  negb (is_some (ack_physical_index ack)) && negb (is_some (ack_physical_segment ack))
  && negb (is_some (ack_physical_stream ack)) && negb (is_some (ack_original_upload_key ack)).

Definition finish_acked (segments : gmap Z SealedSegment) (index now : Z) (ack : UploadAck) : co unit :=
  current_identity ← journal_identity;
  physical_match ←
    (if negb (same_journal (ack_journal_identity ack) current_identity) then mret (Ok false)
     else if legacy_ack ack then mret (Ok true)
     else match segments !! index with
          | Some segment => ack_matches_physical index segment ack
          | None => mret (Ok false)
          end);
  match physical_match with
  | Ok true =>
    r ← list_entries index;
    match r with
    | Err _ => hold_hour index now
    | Ok entries =>
      if existsb (unacked_activity ack) entries then drop_marker index now
      else gate_or_hold index now (ack_files ack)
    end
  | Ok false => drop_marker index now
  | Err _ => hold_hour index now
  end.

Fixpoint media_mtimes (index : Z) (media : list DirEntryFact) : co (option (list (string * Z))) :=
  match media with
  | [] => mret (Some [])
  | entry :: media =>
    r ← modified index (de_name entry);
    match r with
    | Err _ => mret None
    | Ok m => rest ← media_mtimes index media;
              mret (match rest with Some l => Some ((de_name entry, m) :: l) | None => None end)
    end
  end.

Fixpoint remove_older (index marker_mtime : Z) (mtimes : list (string * Z)) : co bool :=
  match mtimes with
  | [] => mret true
  | (name, mtime) :: mtimes =>
    if (mtime <=? marker_mtime)%Z then
      ok ← remove_or_absent index name;
      if ok : bool then remove_older index marker_mtime mtimes else mret false
    else remove_older index marker_mtime mtimes
  end.

Definition first_nonspace (bytes : string) : option ascii :=
  find_first (λ b, negb (bool_decide (byte_val b ∈ [9; 10; 12; 13; 32]%Z))) (list_ascii_of_string bytes).

(** The sidecars of a legacy marker, in order. *)
Definition finish_sidecars (index now : Z) : co unit :=
  ok ← (ok ← remove_or_absent index LEN_FILE_NAME;
        if ok : bool then remove_or_absent index AUDIO_SOURCES_FILE_NAME else mret false);
  if negb (ok : bool) then hold_hour index now
  else
    ok ← remove_or_absent index UPLOADED_MARKER;
    if negb (ok : bool) then hold_hour index now
    else
      ok ← remove_or_absent index UPLOADED_TMP_MARKER;
      if negb (ok : bool) then hold_hour index now
      else
        r ← list_entries index;
        let remaining := match r with Ok l => l | Err _ => [] end in
        match remaining with
        | [] => r ← remove_dir index;
                match r with Ok _ => mret tt | Err _ => hold_hour index now end
        | _ => mret tt
        end.

Definition finish_legacy (index now : Z) (marker_bytes : string) : co unit :=
  if bool_decide (first_nonspace marker_bytes = Some "{"%char) then mret tt
  else
    r ← modified index UPLOADED_MARKER;
    match r with
    | Err _ => mret tt
    | Ok marker_mtime =>
      r ← list_entries index;
      match r with
      | Err _ => mret tt
      | Ok entries =>
        m ← media_mtimes index (media_of entries);
        match m with
        | None => mret tt
        | Some mtimes =>
          ok ← remove_older index marker_mtime mtimes;
          if negb (ok : bool) then hold_hour index now
          else finish_sidecars index now
        end
      end
    end.

Definition finish_one (segments : gmap Z SealedSegment) (now index : Z) : co unit :=
  held ← is_held_now index now;
  if held : bool then mret tt
  else
    r ← read_file index UPLOADED_MARKER;
    match r with
    | Err NotFound =>
      r ← list_entries index;
      match r with
      | Err _ => mret tt
      | Ok entries =>
        if existsb (λ e, is_media (de_name e)) entries then mret tt else finish_empty index now
      end
    | Err OtherError => mret tt
    | Ok marker_bytes =>
      match ack_from_bytes marker_bytes with
      | Some ack => finish_acked segments index now ack
      | None => finish_legacy index now marker_bytes
      end
    end.

(** [for s in l { segments.insert(s.index, s) }]. *)
Definition insert_segments (l : list SealedSegment) (m : gmap Z SealedSegment) : gmap Z SealedSegment :=
  foldl (λ m s, <[ss_index s := s]> m) m l.

Definition local_finish (now : Z) : co unit :=
  r ← ask w_scan;
  let segments := match r with Ok l => insert_segments l ∅ | Err _ => ∅ end in
  r ← ask w_confirmed;
  let segments := match r with Ok l => insert_segments l segments | Err _ => segments end in
  for_each (merge_sort Z.le (map_to_list segments).*1) (finish_one segments now) ;;
  recount_quarantined.

(** *** One pass *)

(** The files of a segment, read and attested; an unreadable one skips it. *)
Fixpoint read_parts (index : Z) (names : list string) : co (option (list FilePart * list LocalFact)) :=
  match names with
  | [] => mret (Some ([], []))
  | name :: names =>
    r ← read_file index name;
    match r with
    | Err error => on_error (TIo error) ;; mret None
    | Ok bytes =>
      rest ← read_parts index names;
      mret (match rest with
            | None => None
            | Some (parts, local_files) =>
              Some (mkFilePart name (content_type_for name) bytes :: parts,
                    (name, sha256_hex bytes, Z.of_nat (String.length bytes)) :: local_files)
            end)
    end
  end.

Definition status_str (s : IngestStatus) : string :=
  match s with StatusOk => "ok" | StatusDuplicate => "duplicate" | StatusCollision => "collision" | _ => "unknown" end.

Definition push_unknown (day : string) (u : UnknownSegmentFact) (acc : TickAcc) : TickAcc :=
  mkTickAcc (acc_witnesses acc)
    (<[day := default [] (acc_unknown acc !! day) ++ [u]]> (acc_unknown acc)).
Definition push_witness (w : ConfirmedUpload) (acc : TickAcc) : TickAcc :=
  mkTickAcc (acc_witnesses acc ++ [w]) (acc_unknown acc).

Definition total_bytes (parts : list FilePart) : Z :=
  wrap_u64 (foldr (λ p n, Z.of_nat (String.length (part_bytes p)) + n)%Z 0%Z parts).

(** An accepted response. *)
Definition handle_accepted (now : Z) (segment : SealedSegment) (day segment_key : string) (bound_key : BoundKey)
    (bytes : Z) (local_files : list LocalFact) (response : IngestResponse) (metadata : SendMetadata)
    (acc : TickAcc) : co TickAcc :=
  duration_ms ← ask w_elapsed_ms;
  match validate_receipt response (fact_local <$> local_files) with
  | Ok receipt =>
    clear_reject (ss_index segment) ;;
    upd_bounds (delete bound_key) ;;
    id ← journal_identity;
    let ack := with_physical_identity (ss_index segment) segment_key "_default" segment_key
                 (new_upload id day segment_key (receipt_server_segment receipt)
                    (status_str (resp_status response)) (receipt_files receipt)) in
    w ← write_ack (ss_index segment) ack;
    when (is_ok w) (gate_or_hold (ss_index segment) now (ack_files ack)) ;;
    on_confirmed segment_key (receipt_server_segment receipt) bytes duration_ms (send_path metadata)
      (send_attempts metadata) ;;
    mret (push_witness (mkConfirmedUpload (receipt_server_segment receipt) (ack_files ack) metadata) acc)
  | Err ReceiptAbsent =>
    mret (push_unknown day (mkUnknownSegmentFact (ss_index segment) segment_key local_files) acc)
  | Err (ReceivedNotWritten _) =>
    register_received_not_written day segment_key now ;; mret acc
  | Err fault =>
    on_invalid_receipt ;;
    register_segment_error day segment_key "invalid_receipt" now ;;
    on_error (TRejected 200 ("invalid receipt: " +:+ debug_fault fault)) ;;
    mret acc
  end.

(** The reason an unaccepted response gives. *)
Definition response_reason (response : IngestResponse) : string :=
  default (match resp_status response with
           | StatusConflict => "conflict" | StatusFailed => "failed" | _ => "rejected" end)
          (resp_reason_code response).

Definition handle_unaccepted (now : Z) (segment : SealedSegment) (day segment_key : string)
    (local_files : list LocalFact) (response : IngestResponse) : co unit :=
  let reason_code := response_reason response in
  if String.eqb reason_code "segment_removed" then finish_segment_removed (ss_index segment) local_files now
  else
    register_segment_error day segment_key reason_code now ;;
    on_error (TRejected (match resp_status response with
                         | StatusConflict => 409 | StatusFailed => 500 | _ => 400 end)
                ("ingest response: " +:+ debug_status (resp_status response))).

(** A refusal or transport failure; [Some e] ends the pass with [e]. *)
Definition handle_transport (now : Z) (segment : SealedSegment) (day segment_key : string)
    (local_files : list LocalFact) (e : TransportError) : co (option RouteError) :=
  let removed := match e with
                 | TRejected status body => String.eqb (rejection_reason status body) "segment_removed"
                 | _ => false
                 end in
  if removed then finish_segment_removed (ss_index segment) local_files now ;; mret None
  else
    on_error e ;;
    if is_device_scoped_refusal e then mret (Some (RouteTransport e))
    else if is_attributable_rejection e then
      register_reject (ss_index segment) ;;
      register_segment_error day segment_key (transport_error_code e) now ;;
      mret None
    else if aborts_tick e then mret (Some (RouteTransport e))
    else
      match e with
      | TRejected status body =>
        register_segment_error day segment_key (rejection_reason status body) now ;; mret None
      | _ => mret (Some (RouteTransport e))
      end.

Definition bounded (key : BoundKey) (now : Z) (c : Coordinator W) : bool :=
  match co_segment_bounds c !! key with
  | Some bound => (now <? sb_until_epoch bound)%Z
  | None => false
  end.

(** A segment's upload, once its keys are known. *)
Definition upload_segment (now : Z) (segment : SealedSegment) (zone : LocalZone) (day segment_key : string)
    (bound_key : BoundKey) (acc : TickAcc) : co (result TickAcc RouteError) :=
  p ← read_parts (ss_index segment) (ss_files segment);
  match p with
  | None => mret (Ok acc)
  | Some (parts, local_files) =>
    match parts with
    | [] => mret (Ok acc)
    | _ =>
      let bytes := total_bytes parts in
      r ← ingest (ss_index segment) segment_key day parts (Some zone) (ss_audio_sources segment);
      when (journal_answered r) note_heard ;;
      match r with
      | Ok (response, metadata) =>
        if is_accepted (resp_status response) then
          acc ← handle_accepted now segment day segment_key bound_key bytes local_files response metadata acc;
          mret (Ok acc)
        else handle_unaccepted now segment day segment_key local_files response ;; mret (Ok acc)
      | Err AwaitingConfirmation => mret (Err AwaitingConfirmation)
      | Err (RouteTransport e) =>
        stop ← handle_transport now segment day segment_key local_files e;
        mret (match stop with Some e => Err e | None => Ok acc end)
      end
    end
  end.

(** The body of the loop over the segments; [Err] ends the pass. *)
Definition process_segment (now : Z) (segment : SealedSegment) (acc : TickAcc) : co (result TickAcc RouteError) :=
  held ← is_held_now (ss_index segment) now;
  if held : bool then mret (Ok acc)
  else if bool_decide (ss_files segment = []) then
    r ← try_gate_delete (ss_index segment) [];
    match r with
    | Ok Blocked => hold_hour (ss_index segment) now ;; mret (Ok acc)
    | _ => mret (Ok acc)
    end
  else
    z ← ask (w_local_zone (ss_boundary_epoch_secs segment));
    match z with
    | Err _ => on_error TLocalOffset ;; mret (Err (RouteTransport TLocalOffset))
    | Ok zone =>
      period ← gets co_period_secs;
      let offset := utc_offset_seconds zone in
      let day := day_string_local (ss_boundary_epoch_secs segment) offset in
      let segment_key := segment_key_string_local (ss_boundary_epoch_secs segment) offset
                           (default period (ss_len_secs segment)) in
      id ← journal_identity;
      let bound_key := (id, day, segment_key) in
      bound ← gets (bounded bound_key now);
      if bound : bool then mret (Ok acc)
      else upload_segment now segment zone day segment_key bound_key acc
    end.

Fixpoint segments_loop (now : Z) (segments : list SealedSegment) (acc : TickAcc)
    : co (result TickAcc RouteError) :=
  match segments with
  | [] => mret (Ok acc)
  | segment :: segments =>
    exit ← ask w_exit;
    match exit with
    | ExitRun =>
      r ← process_segment now segment acc;
      match r with
      | Ok acc => segments_loop now segments acc
      | Err e => mret (Err e)
      end
    | _ => mret (Ok acc)
    end
  end.

(** *** The listing pass *)

(** Whether a listed item is this segment with these files. *)
Definition item_matches (unk : UnknownSegmentFact) (item : SegmentItem) : bool :=
  let physical_match :=
    match item_segment item, item_stream item with
    | Some segment, Some stream => String.eqb segment (unk_segment_key unk) && String.eqb stream "_default"
    | None, None => String.eqb (item_key item) (unk_segment_key unk)
    | _, _ => false
    end in
  if negb physical_match
     || match item_original_key item with Some key => negb (String.eqb key (unk_segment_key unk)) | None => false end
     || negb (length (item_files item) =? length (unk_local_files unk))%nat
  then false
  else if negb (bool_decide (NoDup (fact_name <$> unk_local_files unk)))
          || negb (bool_decide (NoDup (sf_name <$> item_files item)))
  then false
  else
    forallb (λ '(name, sha, size),
      existsb (λ listed, String.eqb (sf_name listed) name && (sf_size listed =? size)%Z
                         && String.eqb (sf_sha256 listed) sha && is_held (sf_status listed)) (item_files item))
      (unk_local_files unk).

(** [local_edges[local_index]] and [listing_degrees[listing_index]]. *)
Definition edges_of (items : list SegmentItem) (unk : UnknownSegmentFact) : list nat :=
  filter (λ i, from_option (item_matches unk) false (items !! i) = true) (seq 0 (length items)).
Definition listing_degree (items : list SegmentItem) (unknown : list UnknownSegmentFact) (i : nat) : nat :=
  length (filter (λ unk, i ∈ edges_of items unk) unknown).

Definition selected_listing (items : list SegmentItem) (unknown : list UnknownSegmentFact)
    (unk : UnknownSegmentFact) : option nat :=
  match edges_of items unk with
  | [i] => if (listing_degree items unknown i =? 1)%nat then Some i else None
  | _ => None
  end.

(** [None] where the source's [expect] would fail. *)
Definition listing_ack_files (item : SegmentItem) (local_files : list LocalFact) : option (list AckFile) :=
  mapM (λ '(name, sha, size),
    sf ← find_first (λ f, String.eqb (sf_name f) name) (item_files item);
    Some (mkAckFile name (sf_name sf) size sha None (Some (sf_status sf)))) local_files.

Definition confirm_listed (now : Z) (day : string) (items : list SegmentItem)
    (unknown : list UnknownSegmentFact) (unk : UnknownSegmentFact) : co unit :=
  match selected_listing items unknown unk ≫= (λ i, items !! i) with
  | Some item =>
    match listing_ack_files item (unk_local_files unk) with
    | Some files =>
      id ← journal_identity;
      let ack := with_physical_identity (unk_index unk) (default (unk_segment_key unk) (item_segment item))
                   (default "_default"%string (item_stream item))
                   (default (unk_segment_key unk) (item_original_key item))
                   (new_listing id day (unk_segment_key unk) (item_key item) files) in
      w ← write_ack (unk_index unk) ack;
      when (is_ok w) (gate_or_hold (unk_index unk) now (ack_files ack))
    | None => mret tt
    end
  | None =>
    on_unknown_kept ;;
    register_segment_bound day (unk_segment_key unk) "unknown_kept" now 86400
  end.

(** The items considered: none when the listing is not well formed. *)
Definition usable_items (envelope : SegmentsEnvelope) : list SegmentItem :=
  if is_ok (validate_segments_envelope envelope) then se_items envelope else [].

Definition eligible_day (now : Z) (days : gmap string Z) (unknown_by_day : gmap string (list UnknownSegmentFact))
    : option string :=
  find_first (λ d, match days !! d with Some until => (until <=? now)%Z | None => true end)
    (merge_sort String.le (map_to_list unknown_by_day).*1).

(** The listing pass; [Some e] ends the pass with [e]. *)
Definition listing_pass (now : Z) (unknown_by_day : gmap string (list UnknownSegmentFact))
    : co (option RouteError) :=
  days ← gets co_day_bounds;
  match eligible_day now days unknown_by_day with
  | None => mret None
  | Some day =>
    r ← list_segments day;
    when (journal_answered r) note_heard ;;
    match r with
    | Ok (envelope, _) =>
      upd_days <[day := sat_add_u64 now 3600]> ;;
      let unknown := default [] (unknown_by_day !! day) in
      for_each unknown (confirm_listed now day (usable_items envelope) unknown) ;;
      mret None
    | Err AwaitingConfirmation => mret (Some AwaitingConfirmation)
    | Err (RouteTransport e) =>
      on_error e ;;
      if is_device_scoped_refusal e then mret (Some (RouteTransport e))
      else if aborts_tick e then mret (Some (RouteTransport e))
      else
        match e with
        | TRejected _ _ => on_listing_refusal ;; upd_days <[day := sat_add_u64 now 3600]> ;; mret None
        | _ => mret (Some (RouteTransport e))
        end
    end
  end.

Definition pending_count (now : Z) (segments : list SealedSegment) (c : Coordinator W) : Z :=
  Z.of_nat (length (filter (λ s, is_held_at (ss_index s) now c = false) segments)).

Definition tick_inner : co (result (list ConfirmedUpload) RouteError) :=
  open ← ask w_gate_open;
  if negb (open : bool) then mret (Err AwaitingConfirmation)
  else
    now ← ask w_monotonic_now;
    id ← journal_identity;
    _ ← ask (w_release_refused (instance_id id));
    recount_quarantined ;;
    local_finish now ;;
    r ← ask w_scan;
    match r with
    | Err e => mret (Err (RouteTransport (TIo e)))
    | Ok segments =>
      n ← gets (pending_count now segments);
      set_pending n ;;
      r ← segments_loop now segments (mkTickAcc [] ∅);
      match r with
      | Err e => mret (Err e)
      | Ok acc =>
        stop ← listing_pass now (acc_unknown acc);
        match stop with
        | Some e => mret (Err e)
        | None =>
          r ← ask w_scan;
          n ← gets (λ c, match r with Ok l => pending_count now l c | Err _ => 0%Z end);
          set_pending n ;;
          mret (Ok (acc_witnesses acc))
        end
      end
    end.

Definition note_tick_success : co unit :=
  upd_upload record_success ;; ask w_publish_unknown_journals.

Definition note_tick_failure (err : TransportError) : co unit :=
  stopped ← ask w_refusal_stop;
  healthy ← gets (λ c, (recent_error_count (co_upload c) =? 0)%Z);
  upd_upload (record_failure (transport_error_code err)) ;;
  when stopped (ask w_publish_refused) ;;
  ask w_publish_unknown_journals ;;
  when healthy (ask w_mark_disconnected).

Definition tick : co (result (list ConfirmedUpload) RouteError) :=
  result ← tick_inner;
  match result with
  | Ok _ => note_tick_success
  | Err AwaitingConfirmation => ask w_publish_unknown_journals
  | Err (RouteTransport error) => note_tick_failure error
  end ;;
  mret result.
End coordinator.

(** ** The loops *)

(** The wait after a pass. *)
Definition next_backoff {A} (r : result A RouteError) (backoff : Z) : Z :=
  match r with
  | Ok _ => DEFAULT_UPLOAD_INTERVAL_SECS
  | Err AwaitingConfirmation => backoff
  | Err (RouteTransport _) => Z.min (wrap_u64 (backoff * 2)) MAX_BACKOFF_SECS
  end.
