(* ===== verification/CoordinatorProps.v ===== *)
(** * What the upload coordinator may delete

    The ghost log of [Coordinator] holds every answer the coordinator acted
    on. A media file is removed only on evidence in the log. *)
From Stdlib Require Import Ascii String.
From stdpp Require Import sorting.
From S2P Require Import Prelude RustStr Model PauseStore Civil Ingest Transport Coordinator.

Local Open Scope list_scope.

Section evidence.
Context `{UploadLib}.

(** The file a part uploads, as the upload attests it. *)
Definition part_fact (p : FilePart) : LocalFact :=
  (part_filename p, sha256_hex (part_bytes p), Z.of_nat (String.length (part_bytes p))).

(** The journal said the owner removed the segment. *)
Definition says_removed (r : result (IngestResponse * SendMetadata) RouteError) : Prop :=
  match r with
  | Ok (response, _) => response_reason response = "segment_removed"%string
  | Err (RouteTransport (TRejected status body)) => rejection_reason status body = "segment_removed"%string
  | _ => False
  end.

(** The listed item is segment [key] of this device. *)
Definition item_is (item : SegmentItem) (key : string) : Prop :=
  (item_segment item = Some key ∧ item_stream item = Some "_default"%string) ∨
  (item_segment item = None ∧ item_stream item = None ∧ item_key item = key).

(** The journal vouches for a file of the segment: by the receipt of its
    upload, by a well-formed listing that holds it, by reporting that the
    owner removed the segment, or by the acknowledgement on disk from the
    journal this device is paired with. *)
Inductive vouched (l : list Event) (index : Z) : AckFile → Prop :=
| VReceipt key day parts response md receipt d :
    EvIngest index key day parts (Ok (response, md)) ∈ l →
    validate_receipt response (fact_local <$> (part_fact <$> parts)) = Ok receipt →
    d ∈ receipt_files receipt → vouched l index (ack_of_descriptor d)
| VListing key day parts response md envelope md' item sf :
    EvIngest index key day parts (Ok (response, md)) ∈ l → is_accepted (resp_status response) = true →
    EvListing day (Ok (envelope, md')) ∈ l → envelope_ok envelope → item ∈ se_items envelope →
    item_is item key → sf ∈ item_files item → is_held (sf_status sf) = true →
    vouched l index (mkAckFile (sf_name sf) (sf_name sf) (sf_size sf) (sf_sha256 sf) None (Some (sf_status sf)))
| VRemoved key day parts r p :
    EvIngest index key day parts r ∈ l → says_removed r → p ∈ parts →
    vouched l index (ack_of_fact (part_fact p))
| VMarker bytes ack id f :
    EvRead index UPLOADED_MARKER (Ok bytes) ∈ l → ack_from_bytes bytes = Some ack →
    EvIdentity id ∈ l → same_journal (ack_journal_identity ack) id = true →
    f ∈ ack_files ack → vouched l index f.

(** The vouched file has this name and the digest of these bytes, and nothing
    in it says that the journal does not hold it. *)
Definition stands_for (f : AckFile) (name bytes : string) : Prop :=
  af_submitted f = name ∧ af_sha256 f = sha256_hex bytes ∧
  (∀ d, af_disposition f = Some d → d = "written"%string ∨ d = "already_held"%string) ∧
  (∀ status, af_listing_status f = Some status → is_held status = true).

Lemma ack_file_matches_stands name size bytes f :
  ack_file_matches name size (sha256_hex bytes) f = true → stands_for f name bytes.
Proof.
  unfold ack_file_matches, stands_for.
  destruct (String.eqb_spec (af_submitted f) name) as [->|]; cbn [negb orb]; [|done].
  destruct (af_size f =? size)%Z; cbn [negb orb]; [|done].
  destruct (String.eqb_spec (af_sha256 f) (sha256_hex bytes)) as [->|]; cbn [negb]; [|done].
  destruct (af_disposition f) as [d|].
  - destruct (String.eqb_spec d "written") as [->|]; cbn [negb andb].
    + intros Hl. split_and!; [done|done|intros ? [= <-]; by left|]. intros status Hs. by rewrite Hs in Hl.
    + destruct (String.eqb_spec d "already_held") as [->|]; cbn [negb]; [|done].
      intros Hl. split_and!; [done|done|intros ? [= <-]; by right|]. intros status Hs. by rewrite Hs in Hl.
  - intros Hl. split_and!; try done. intros status Hs. by rewrite Hs in Hl.
Qed.

(** What justifies removing a media file: its bytes were read and a file the
    journal vouches for stands for them; or the segment carries an
    old plain marker and the file is not newer than it. *)
Definition justified (l : list Event) (index : Z) (name : string) : Prop :=
  (∃ bytes f, EvRead index name (Ok bytes) ∈ l ∧ stands_for f name bytes ∧ vouched l index f) ∨
  (∃ bytes marker_time time,
     EvRead index UPLOADED_MARKER (Ok bytes) ∈ l ∧ ack_from_bytes bytes = None ∧
     first_nonspace bytes ≠ Some "{"%char ∧ EvModified index UPLOADED_MARKER (Ok marker_time) ∈ l ∧
     EvModified index name (Ok time) ∈ l ∧ (time ≤ marker_time)%Z).

(** Every removal of media in the log was justified when it was asked for. *)
Definition covered (l : list Event) : Prop :=
  ∀ pre index name r post,
    l = pre ++ EvRemove index name r :: post → is_media name = true → justified pre index name.

(** Facts about the log that stay true as it grows. *)
Definition mono (P : list Event → Prop) : Prop := ∀ l l', l `prefix_of` l' → P l → P l'.

Lemma prefix_elem (l l' : list Event) e : l `prefix_of` l' → e ∈ l → e ∈ l'.
Proof. intros [k ->]. set_solver. Qed.

Lemma mono_elem e : mono (λ l, e ∈ l).
Proof. intros l l'. apply prefix_elem. Qed.

Lemma mono_vouched index f : mono (λ l, vouched l index f).
Proof.
  intros l l' Hp Hv. destruct Hv; [eapply VReceipt|eapply VListing|eapply VRemoved|eapply VMarker];
    eauto using prefix_elem.
Qed.

Lemma mono_and P Q : mono P → mono Q → mono (λ l, P l ∧ Q l).
Proof. intros HP HQ l l' Hp [? ?]. split; eauto. Qed.

Lemma mono_all {A} (P : A → list Event → Prop) : (∀ a, mono (P a)) → mono (λ l, ∀ a, P a l).
Proof. intros HP l l' Hp Hall a. eapply HP; eauto. Qed.

Lemma mono_impl (P : Prop) Q : mono Q → mono (λ l, P → Q l).
Proof. intros HQ l l' Hp Hi p. eapply HQ; eauto. Qed.

Lemma mono_const (P : Prop) : mono (λ _, P).
Proof. by intros ? ?. Qed.

Lemma mono_ex {A} (P : A → list Event → Prop) : (∀ a, mono (P a)) → mono (λ l, ∃ a, P a l).
Proof. intros HP l l' Hp [a Ha]. exists a. eapply HP; eauto. Qed.

Lemma covered_nil : covered [].
Proof. intros [] ? ? ? ? ?; done. Qed.

Lemma covered_snoc l e :
  covered l → (∀ index name r, e = EvRemove index name r → is_media name = true → justified l index name) →
  covered (l ++ [e]).
Proof.
  intros Hl He pre index name r post Heq Hm.
  destruct (decide (post = [])) as [->|Hne].
  - apply app_inj_tail in Heq as [-> Heq]. by apply (He index name r).
  - destruct (exists_last Hne) as (post' & e' & ->). rewrite app_comm_cons, app_assoc in Heq.
    apply app_inj_tail in Heq as [-> _]. by apply (Hl pre index name r post').
Qed.

(** ** Reasoning about operations *)

Context {W : Type} `{UploadWorld W}.
Notation co := (M (Coordinator W)).

(** From a covered log with [P], [m] leaves a covered extension with [Q]. *)
Definition safe {A} (P : list Event → Prop) (m : co A) (Q : A → list Event → Prop) : Prop :=
  ∀ c, covered (co_log c) → P (co_log c) →
    covered (co_log (m c).2) ∧ co_log c `prefix_of` co_log (m c).2 ∧ Q (m c).1 (co_log (m c).2).

Definition any {A} : A → list Event → Prop := λ _ _, True.

Lemma safe_ret {A} P (a : A) (Q : A → list Event → Prop) : (∀ l, P l → Q a l) → safe P (mret a) Q.
Proof. intros HQ c Hc HP. split_and!; [done|done|by apply HQ]. Qed.

Lemma safe_gets {A} P (f : Coordinator W → A) : safe P (gets f) any.
Proof. by intros c Hc HP. Qed.

Lemma safe_modify P (f : Coordinator W → Coordinator W) :
  (∀ c, co_log (f c) = co_log c) → safe P (modify f) any.
Proof. intros Hf c Hc HP. cbn. rewrite Hf. by split_and!. Qed.

Lemma safe_bind {A B} P (m : co A) Q (k : A → co B) R :
  safe P m Q → (∀ a, safe (Q a) (k a) R) → safe P (m ≫= k) R.
Proof.
  intros Hm Hk c Hc HP. rewrite bind_run. destruct (Hm c Hc HP) as (Hc1 & Hp1 & HQ).
  destruct (Hk _ _ Hc1 HQ) as (Hc2 & Hp2 & HR). split_and!; [done|by etrans|done].
Qed.

Lemma safe_weaken {A} (P P' : list Event → Prop) (m : co A) (Q Q' : A → list Event → Prop) :
  safe P m Q → (∀ l, P' l → P l) → (∀ a l, Q a l → Q' a l) → safe P' m Q'.
Proof. intros Hm HP HQ c Hc Hc'. destruct (Hm c Hc (HP _ Hc')) as (? & ? & ?). auto. Qed.

(** A fact that lasts is carried past an operation. *)
Lemma safe_frame {A} F P (m : co A) Q :
  mono F → safe P m Q → safe (λ l, F l ∧ P l) m (λ a l, F l ∧ Q a l).
Proof.
  intros HF Hm c Hc [Hf HP]. destruct (Hm c Hc HP) as (? & Hp & ?). split_and!; [done..|by eapply HF|done].
Qed.

(** The rule for sequences: the precondition lasts. *)
Lemma safe_seq {A B} P (m : co A) Q (k : A → co B) R :
  mono P → safe P m Q → (∀ a, safe (λ l, P l ∧ Q a l) (k a) R) → safe P (m ≫= k) R.
Proof.
  intros HP Hm Hk. apply (safe_bind P m (λ a l, P l ∧ Q a l)); [|done].
  intros c Hc Hp. destruct (Hm c Hc Hp) as (? & Hpre & ?). split_and!; [done..|by eapply HP|done].
Qed.

Lemma safe_ret_bind {A B} P (a : A) (k : A → co B) R : safe P (k a) R → safe P (mret a ≫= k) R.
Proof. intros Hk c. rewrite bind_run. apply Hk. Qed.

Lemma safe_pure {A} (φ : Prop) P (m : co A) Q : (φ → safe P m Q) → safe (λ l, P l ∧ φ) m Q.
Proof. intros Hm c Hc [HP Hφ]. by apply Hm. Qed.

(** A step whose answer needs no remembering. *)
Lemma safe_skip {A B} P (m : co A) (k : A → co B) R :
  mono P → safe P m any → (∀ a, safe P (k a) R) → safe P (m ≫= k) R.
Proof.
  intros HP Hm Hk. eapply safe_seq; [done|exact Hm|]. intros a.
  eapply safe_weaken; [apply Hk|by intros l []|done].
Qed.

Lemma safe_when P b (m : co unit) : safe P m any → safe P (when b m) any.
Proof. intros Hm. destruct b; [done|by apply safe_ret]. Qed.

Lemma safe_for_each {A} P (xs : list A) (body : A → co unit) :
  mono P → (∀ x, x ∈ xs → safe P (body x) any) → safe P (for_each xs body) any.
Proof.
  intros HP. induction xs as [|x xs IH]; intros Hb; [by apply safe_ret|]. cbn [for_each].
  eapply safe_seq; [done|apply Hb; set_solver|]. intros u.
  eapply safe_weaken; [apply IH; intros; apply Hb; set_solver|by intros l []|done].
Qed.

(** A call records its event; only a removal of media needs a reason. *)
Lemma safe_call {A} P (ev : A → Event) (m : M W A) :
  (∀ a index name r, ev a = EvRemove index name r → is_media name = false) →
  safe P (call ev m) (λ a l, ev a ∈ l).
Proof.
  intros Hev c Hc HP. unfold call. destruct (m (co_world c)) as [a w]. cbn.
  split_and!; [apply covered_snoc; [done|]|by apply prefix_app_r|set_solver].
  intros index name r He Hm. rewrite (Hev _ _ _ _ He) in Hm. done.
Qed.

Lemma safe_remove index name :
  safe (λ l, is_media name = true → justified l index name) (remove_entry index name) any.
Proof.
  intros c Hc HP. unfold remove_entry, call. destruct (w_remove_entry index name (co_world c)) as [a w]. cbn.
  split_and!; [apply covered_snoc; [done|]|by apply prefix_app_r|done]. intros i n r Heq Hm. injection Heq as <- <- _. by apply HP.
Qed.
End evidence.

Section operations.
Context `{UploadLib} {W : Type} `{UploadWorld W}.
Notation co := (M (Coordinator W)).
Notation safe := (safe (W:=W)).
(** Operations that remove no media. *)
Notation quiet m := (safe (λ _, True) m any).

Lemma quiet_safe {A} P (m : co A) : quiet m → safe P m any.
Proof. intros Hm. by eapply safe_weaken. Qed.

Lemma quiet_bind {A B} (m : co A) (k : A → co B) : quiet m → (∀ a, quiet (k a)) → quiet (m ≫= k).
Proof.
  intros Hm Hk. eapply safe_bind; [exact Hm|]. intros a. eapply safe_weaken; [apply Hk|done|done].
Qed.

Lemma quiet_ret {A} (a : A) : quiet (mret a : co A).
Proof. by apply safe_ret. Qed.

Lemma quiet_ask {A} (m : M W A) : quiet (ask m).
Proof. eapply (safe_weaken (λ _, True)); [by apply safe_call|done|done]. Qed.

Lemma quiet_call {A} (ev : A → Event) (m : M W A) :
  (∀ a index name r, ev a ≠ EvRemove index name r) → quiet (call ev m).
Proof. intros Hev. eapply (safe_weaken (λ _, True)); [apply safe_call; intros a i n r He; by destruct (Hev a i n r)|done|done]. Qed.

Lemma quiet_remove index name : is_media name = false → quiet (remove_entry index name).
Proof. intros Hn. eapply safe_weaken; [apply safe_remove|intros l _; by rewrite Hn|done]. Qed.

Lemma quiet_remove_or_absent index name : is_media name = false → quiet (remove_or_absent index name).
Proof. intros Hn. apply quiet_bind; [by apply quiet_remove|]. intros r. apply quiet_ret. Qed.

Create HintDb quiet discriminated.
Hint Resolve quiet_remove_or_absent : quiet.
Hint Extern 0 (is_media _ = false) => reflexivity : quiet.

Ltac quiet_step :=
  match goal with
  | |- safe _ (_ ≫= _) _ => apply quiet_bind; [|intros ?]
  | |- safe _ (mret _) _ => apply quiet_ret
  | |- safe _ (gets _) _ => apply safe_gets
  | |- safe _ (modify _) _ => by apply safe_modify
  | |- safe _ (ask _) _ => apply quiet_ask
  | |- safe _ (call _ _) _ => by apply quiet_call
  | |- safe _ (when _ _) _ => apply safe_when
  | |- safe _ (let _ := _ in _) _ => cbv zeta
  | |- safe _ (match ?x with _ => _ end) _ => destruct x
  | |- safe _ _ _ => by auto with quiet nocore
  end.
Ltac quiet_walk := repeat quiet_step.
Ltac quietly := apply quiet_safe; solve [quiet_walk].

Lemma quiet_hold_hour index now : quiet (hold_hour index now).
Proof. unfold hold_hour, set_hold, upd_holds. quiet_walk. Qed.
Lemma quiet_on_error err : quiet (on_error err).
Proof. unfold on_error, upd_upload. quiet_walk. Qed.
Lemma quiet_journal_identity : quiet journal_identity.
Proof. unfold journal_identity. quiet_walk. Qed.
Hint Resolve quiet_hold_hour quiet_on_error quiet_journal_identity : quiet.

Lemma quiet_upd_upload f : quiet (upd_upload f).
Proof. unfold upd_upload. quiet_walk. Qed.
Lemma quiet_upd_bounds f : quiet (upd_bounds f).
Proof. unfold upd_bounds. quiet_walk. Qed.
Lemma quiet_upd_counts f : quiet (upd_counts f).
Proof. unfold upd_counts. quiet_walk. Qed.
Lemma quiet_upd_days f : quiet (upd_days f).
Proof. unfold upd_days. quiet_walk. Qed.
Hint Resolve quiet_upd_upload quiet_upd_bounds quiet_upd_counts quiet_upd_days : quiet.

Lemma quiet_register_segment_error day key sig now : quiet (register_segment_error day key sig now).
Proof. unfold register_segment_error. quiet_walk. Qed.
Lemma quiet_register_segment_bound day key sig now d : quiet (register_segment_bound day key sig now d).
Proof. unfold register_segment_bound. quiet_walk. Qed.
Lemma quiet_recount : quiet recount_quarantined.
Proof. unfold recount_quarantined. quiet_walk. Qed.
Hint Resolve quiet_register_segment_error quiet_register_segment_bound quiet_recount : quiet.

Lemma quiet_register_reject index : quiet (register_reject index).
Proof. unfold register_reject, quarantine. quiet_walk. Qed.
Lemma quiet_note_heard : quiet note_heard.
Proof. unfold note_heard, set_heard. quiet_walk. Qed.
Lemma quiet_list_entries index : quiet (list_entries index).
Proof. unfold list_entries. quiet_walk. Qed.
Lemma quiet_remove_dir index : quiet (remove_dir index).
Proof. unfold remove_dir. quiet_walk. Qed.
Lemma quiet_write_ack index ack : quiet (write_ack index ack).
Proof. unfold write_ack. quiet_walk. Qed.
Hint Resolve quiet_register_reject quiet_note_heard quiet_list_entries quiet_remove_dir quiet_write_ack : quiet.

Lemma quiet_finish_empty index now : quiet (finish_empty index now).
Proof. unfold finish_empty. quiet_walk. Qed.
Lemma quiet_drop_marker index now : quiet (drop_marker index now).
Proof. unfold drop_marker. quiet_walk. Qed.
Lemma quiet_finish_sidecars index now : quiet (finish_sidecars index now).
Proof. unfold finish_sidecars. quiet_walk. Qed.
Lemma quiet_ack_matches_physical index segment ack : quiet (ack_matches_physical index segment ack).
Proof. unfold ack_matches_physical. quiet_walk. Qed.
Hint Resolve quiet_finish_empty quiet_drop_marker quiet_finish_sidecars quiet_ack_matches_physical : quiet.

(** ** The delete gate *)

Lemma safe_read index name :
  safe (λ _, True) (read_file index name) (λ r l, EvRead index name r ∈ l).
Proof. by apply safe_call. Qed.

(** The names the scan matched were read and are covered by an expected file. *)
Definition scan_found (index : Z) (expected : list AckFile) (names : list string) (l : list Event) : Prop :=
  ∀ n, n ∈ names → ∃ bytes f, f ∈ expected ∧ EvRead index n (Ok bytes) ∈ l ∧ stands_for f n bytes.

Lemma mono_scan_found index expected names : mono (scan_found index expected names).
Proof.
  intros l l' Hp Hl n Hn. destruct (Hl n Hn) as (bytes & f & ? & ? & ?).
  exists bytes, f. eauto using prefix_elem.
Qed.

Lemma safe_match_media index expected media :
  safe (λ _, True) (match_media index expected media)
    (λ r l, ∀ names uncovered, r = Ok (names, uncovered) → scan_found index expected names l).
Proof.
  induction media as [|entry media IH]; cbn [match_media].
  { apply safe_ret. intros l _ names unc [= <- _] n Hn. set_solver. }
  eapply safe_bind; [apply safe_read|]. intros [bytes|e]; [|by apply safe_ret]. cbv zeta.
  eapply safe_seq; [apply mono_elem| |].
  { eapply safe_weaken; [exact IH|done|]. intros a l Hq. exact Hq. }
  intros r. apply safe_ret. intros l [Hread Hrest] names unc Heq.
  destruct r as [[names' unc']|e]; [|done]. specialize (Hrest names' unc' eq_refl).
  destruct (existsb _ expected) eqn:Hm; injection Heq as <- _; [|done].
  intros n [->|Hn]%elem_of_cons; [|by apply Hrest].
  apply existsb_exists in Hm as (f & Hf & Hmatch). exists bytes, f.
  split_and!; [by apply list_elem_of_In|done|by eapply ack_file_matches_stands].
Qed.

Lemma safe_remove_or_absent index name :
  safe (λ l, is_media name = true → justified l index name) (remove_or_absent index name) any.
Proof. eapply safe_bind; [apply safe_remove|]. intros r. by apply safe_ret. Qed.

Lemma mono_justified index name : mono (λ l, justified l index name).
Proof.
  intros l l' Hp [(b & f & ? & ? & ?)|(b & m & t & ? & ? & ? & ? & ? & ?)]; [left|right].
  - exists b, f. split_and!; [by eapply prefix_elem|done|by eapply mono_vouched].
  - exists b, m, t. split_and!; eauto using prefix_elem.
Qed.

Lemma safe_remove_all index names :
  safe (λ l, ∀ n, n ∈ names → justified l index n) (remove_all index names) any.
Proof.
  assert (Hmono : ∀ ns : list string, mono (λ l, ∀ n, n ∈ ns → justified l index n)).
  { intros ns. apply mono_all. intros n. apply mono_impl, mono_justified. }
  induction names as [|n names IH]; cbn [remove_all]; [by apply safe_ret|].
  eapply safe_seq; [apply Hmono| |].
  - eapply safe_weaken; [apply safe_remove_or_absent| |done]. intros l Hl _. apply Hl. set_solver.
  - intros []; [|by apply safe_ret]. eapply safe_weaken; [exact IH| |done].
    intros l [Hl _] k Hk. apply Hl. set_solver.
Qed.

Lemma safe_gate_remove index names uncovered :
  safe (λ l, ∀ n, n ∈ names → justified l index n) (gate_remove index names uncovered) any.
Proof.
  unfold gate_remove. eapply safe_bind; [apply safe_remove_all|]. intros ok. apply quiet_safe. quiet_walk.
Qed.

(** The gate removes only what the files it is given cover. *)
Lemma safe_gate index expected :
  safe (λ l, ∀ f, f ∈ expected → vouched l index f) (try_gate_delete index expected) any.
Proof.
  assert (Hmono : mono (λ l, ∀ f, f ∈ expected → vouched l index f)).
  { apply mono_all. intros f. apply mono_impl, mono_vouched. }
  unfold try_gate_delete. eapply safe_seq; [done|apply quiet_safe, quiet_list_entries|].
  intros [entries|e]; [|by apply safe_ret]. destruct (existsb not_file entries); [by apply safe_ret|]. cbv zeta.
  eapply safe_weaken with (Q := any); [|by intros l [Hl _]; exact Hl|done].
  eapply safe_seq; [done|eapply safe_weaken; [apply safe_match_media|done|intros a l Hq; exact Hq]|].
  intros [[names unc]|e]; [|by apply safe_ret].
  eapply safe_weaken with (P := λ l, (∀ f, f ∈ expected → vouched l index f) ∧ scan_found index expected names l)
    (Q := any); [|intros l [Hl Hs]; split; [done|by eapply Hs]|done].
  eapply safe_seq; [by apply mono_and, mono_scan_found|apply quiet_safe, quiet_list_entries|].
  intros [recheck|e]; [|by apply safe_ret]. cbv zeta.
  repeat (case_match; [by apply safe_ret|]).
  eapply safe_bind; [|intros g; by apply safe_ret].
  eapply safe_weaken; [apply safe_gate_remove| |done]. intros l [[Hv Hs] _] n Hn.
  destruct (Hs n Hn) as (bytes & f & Hf & Hread & Hm). left. exists bytes, f. auto.
Qed.

Lemma safe_gate_or_hold index now files :
  safe (λ l, ∀ f, f ∈ files → vouched l index f) (gate_or_hold index now files) any.
Proof.
  unfold gate_or_hold. eapply safe_bind; [apply safe_gate|]. intros r. apply quiet_safe. quiet_walk.
Qed.

(** ** Local finish *)

Lemma safe_finish_segment_removed index facts now :
  safe (λ l, ∀ f, f ∈ facts → vouched l index (ack_of_fact f)) (finish_segment_removed index facts now) any.
Proof.
  unfold finish_segment_removed. eapply safe_bind.
  - eapply safe_weaken; [apply safe_gate| |intros a l Hq; exact Hq].
    intros l Hl f (x & -> & Hx)%list_elem_of_fmap. by apply Hl.
  - intros r. apply quiet_safe. unfold on_segment_removed. quiet_walk.
Qed.

Lemma safe_finish_acked segments index now bytes ack :
  ack_from_bytes bytes = Some ack →
  safe (λ l, EvRead index UPLOADED_MARKER (Ok bytes) ∈ l) (finish_acked segments index now ack) any.
Proof.
  intros Hack. unfold finish_acked.
  eapply safe_seq; [apply mono_elem|by apply (safe_call (λ l, EvRead index UPLOADED_MARKER (Ok bytes) ∈ l))|].
  intros id. destruct (same_journal (ack_journal_identity ack) id) eqn:Hj; cbn [negb]; [|apply safe_ret_bind; quietly].
  apply safe_skip; [apply mono_and; apply mono_elem|quietly|]. intros [[]|e]; [|quietly..].
  apply safe_skip; [apply mono_and; apply mono_elem|quietly|]. intros [entries|e]; [|quietly].
  destruct (existsb (unacked_activity ack) entries); [quietly|].
  eapply safe_weaken; [apply safe_gate_or_hold| |done]. intros l [Hr Hid] f Hf. by eapply VMarker.
Qed.

Lemma safe_media_mtimes index media :
  safe (λ _, True) (media_mtimes index media)
    (λ r l, ∀ ts, r = Some ts → ∀ n t, (n, t) ∈ ts → EvModified index n (Ok t) ∈ l).
Proof.
  induction media as [|entry media IH]; cbn [media_mtimes].
  { apply safe_ret. intros l _ ts [= <-] n t Hn. set_solver. }
  eapply safe_bind; [by apply (safe_call (λ _, True))|]. intros [m|e]; [|by apply safe_ret].
  eapply safe_seq; [apply mono_elem|eapply safe_weaken; [exact IH|done|intros a l Hq; exact Hq]|].
  intros [ts|]; apply safe_ret; [|done]. intros l [Hm Hts] ts' [= <-] n t Hin.
  apply elem_of_cons in Hin as [[= -> ->]|Hin]; [done|by eapply Hts].
Qed.

Lemma safe_remove_older index marker_time ts :
  safe (λ l, ∀ n t, (n, t) ∈ ts → (t ≤ marker_time)%Z → justified l index n)
    (remove_older index marker_time ts) any.
Proof.
  assert (Hmono : ∀ ts : list (string * Z),
    mono (λ l, ∀ n t, (n, t) ∈ ts → (t ≤ marker_time)%Z → justified l index n)).
  { intros us. apply mono_all. intros n. apply mono_all. intros t. do 2 apply mono_impl. apply mono_justified. }
  induction ts as [|[n t] ts IH]; cbn [remove_older]; [by apply safe_ret|].
  destruct (Z.leb_spec t marker_time).
  - eapply safe_seq; [apply Hmono| |].
    + eapply safe_weaken; [apply safe_remove_or_absent| |done]. intros l Hl _. eapply Hl; [|done]. set_solver.
    + intros []; [|by apply safe_ret]. eapply safe_weaken; [exact IH| |done].
      intros l [Hl _] n' t' Hin Ht. eapply Hl; [|done]. set_solver.
  - eapply safe_weaken; [exact IH| |done]. intros l Hl n' t' Hin Ht. eapply Hl; [|done]. set_solver.
Qed.

Lemma safe_finish_legacy index now bytes :
  ack_from_bytes bytes = None →
  safe (λ l, EvRead index UPLOADED_MARKER (Ok bytes) ∈ l) (finish_legacy index now bytes) any.
Proof.
  intros Hack. unfold finish_legacy. case_bool_decide as Hc; [by apply safe_ret|].
  eapply safe_seq; [apply mono_elem|by apply (safe_call (λ l, EvRead index UPLOADED_MARKER (Ok bytes) ∈ l))|].
  intros [mt|e]; [|by apply safe_ret].
  apply safe_skip; [apply mono_and; apply mono_elem|quietly|]. intros [entries|e]; [|by apply safe_ret].
  eapply safe_seq; [apply mono_and; apply mono_elem| |].
  { eapply safe_weaken; [apply safe_media_mtimes|done|intros a l Hq; exact Hq]. }
  intros [ts|]; [|by apply safe_ret].
  eapply safe_bind; [|intros ok; apply quiet_safe; quiet_walk].
  eapply safe_weaken; [apply safe_remove_older| |intros a l Hq; exact Hq].
  intros l [[Hr Hm] Hts] n t Hin Ht. right. exists bytes, mt, t. split_and!; try done. by eapply Hts.
Qed.

Lemma quiet_finish_one segments now index : quiet (finish_one segments now index).
Proof.
  unfold finish_one. apply quiet_bind; [apply safe_gets|]. intros []; [apply quiet_ret|].
  eapply safe_bind; [apply safe_read|]. intros [bytes|[]]; [|apply quiet_safe; quiet_walk|by apply safe_ret].
  destruct (ack_from_bytes bytes) eqn:Hack; [by apply safe_finish_acked|by apply safe_finish_legacy].
Qed.

Lemma quiet_local_finish now : quiet (local_finish now).
Proof.
  unfold local_finish. quiet_walk. apply safe_for_each; [apply mono_const|]. intros. apply quiet_finish_one.
Qed.

(** ** Uploads *)

Lemma safe_read_parts index names :
  safe (λ _, True) (read_parts index names)
    (λ r _, ∀ parts facts, r = Some (parts, facts) → facts = part_fact <$> parts).
Proof.
  induction names as [|name names IH]; cbn [read_parts].
  { apply safe_ret. by intros l _ parts facts [= <- <-]. }
  eapply safe_bind; [apply quiet_safe; unfold read_file; quiet_walk|]. intros [bytes|e].
  - eapply safe_bind; [eapply safe_weaken; [exact IH|done|intros a l Hq; exact Hq]|].
    intros r. apply safe_ret. intros l Hr parts facts Heq. destruct r as [[ps fs]|]; [|done].
    injection Heq as <- <-. rewrite (Hr ps fs eq_refl). done.
  - eapply safe_bind; [apply quiet_safe, quiet_on_error|]. intros u. by apply safe_ret.
Qed.

(** What the pass knows of the segments it must look up in a listing. *)
Definition acc_ok (acc : TickAcc) (l : list Event) : Prop :=
  ∀ day us u, acc_unknown acc !! day = Some us → u ∈ us →
    ∃ parts response md, EvIngest (unk_index u) (unk_segment_key u) day parts (Ok (response, md)) ∈ l ∧
      is_accepted (resp_status response) = true.

Lemma mono_acc_ok acc : mono (acc_ok acc).
Proof.
  intros l l' Hp Hl day us u Hd Hu. destruct (Hl day us u Hd Hu) as (p & r & md & ? & ?). eauto 6 using prefix_elem.
Qed.

Lemma acc_ok_push day u acc l parts response md :
  acc_ok acc l → EvIngest (unk_index u) (unk_segment_key u) day parts (Ok (response, md)) ∈ l →
  is_accepted (resp_status response) = true → acc_ok (push_unknown day u acc) l.
Proof.
  intros Hacc Hev Ha day' us u'. cbn. destruct (decide (day' = day)) as [->|Hne].
  - rewrite lookup_insert_eq. intros [= <-] [Hu| ->%list_elem_of_singleton]%elem_of_app; [|eauto 6].
    destruct (acc_unknown acc !! day) as [us|] eqn:Hd; cbn in Hu; [by eapply Hacc|set_solver].
  - rewrite lookup_insert_ne by done. apply Hacc.
Qed.

Lemma safe_handle_accepted now segment day key bk bytes parts response md acc :
  is_accepted (resp_status response) = true →
  safe (λ l, acc_ok acc l ∧ EvIngest (ss_index segment) key day parts (Ok (response, md)) ∈ l)
    (handle_accepted now segment day key bk bytes (part_fact <$> parts) response md acc) (λ acc' l, acc_ok acc' l).
Proof.
  intros Ha. set (P := λ l, acc_ok acc l ∧ _). assert (HP : mono P) by (apply mono_and; [apply mono_acc_ok|apply mono_elem]).
  unfold handle_accepted. apply safe_skip; [done|quietly|]. intros ms.
  destruct (validate_receipt _ _) as [receipt|fault] eqn:Hr.
  - apply safe_skip; [done|unfold clear_reject; quietly|]. intros ?.
    apply safe_skip; [done|quietly|]. intros ?.
    apply safe_skip; [done|quietly|]. intros id. cbv zeta.
    apply safe_skip; [done|quietly|]. intros w.
    apply safe_skip; [done| |].
    { apply safe_when. eapply safe_weaken; [apply safe_gate_or_hold| |done]. intros l [_ Hev] f.
      cbn. intros (d & -> & Hd)%list_elem_of_fmap. by eapply VReceipt. }
    intros ?. apply safe_skip; [done|unfold on_confirmed; quietly|]. intros ?.
    apply safe_ret. by intros l [Hacc _].
  - assert (Hkeep : ∀ m : co unit, quiet m → safe P (m ;; mret acc) (λ acc' l, acc_ok acc' l)).
    { intros m Hm. apply safe_skip; [done|by apply quiet_safe|]. intros u. apply safe_ret. by intros l [? _]. }
    assert (Hbad : ∀ body, safe P (on_invalid_receipt ;; register_segment_error day key "invalid_receipt" now ;;
                              on_error (TRejected 200 body) ;; mret acc) (λ acc' l, acc_ok acc' l)).
    { intros body. apply safe_skip; [done|unfold on_invalid_receipt; quietly|]. intros ?.
      apply safe_skip; [done|quietly|]. intros ?. apply Hkeep. quiet_walk. }
    destruct fault; try apply Hbad.
    + apply safe_ret. intros l [Hacc Hev]. by eapply acc_ok_push.
    + apply Hkeep. unfold register_received_not_written. quiet_walk.
Qed.

Lemma safe_removed now segment key day parts r :
  says_removed r →
  safe (λ l, EvIngest (ss_index segment) key day parts r ∈ l)
    (finish_segment_removed (ss_index segment) (part_fact <$> parts) now) any.
Proof.
  intros Hr. eapply safe_weaken; [apply safe_finish_segment_removed| |done].
  intros l Hev f (p & -> & Hp)%list_elem_of_fmap. by eapply VRemoved.
Qed.

Lemma safe_handle_unaccepted now segment key day parts response md :
  safe (λ l, EvIngest (ss_index segment) key day parts (Ok (response, md)) ∈ l)
    (handle_unaccepted now segment day key (part_fact <$> parts) response) any.
Proof.
  unfold handle_unaccepted. cbv zeta. destruct (String.eqb_spec (response_reason response) "segment_removed").
  - by apply safe_removed.
  - quietly.
Qed.

Lemma safe_handle_transport now segment key day parts e :
  safe (λ l, EvIngest (ss_index segment) key day parts (Err (RouteTransport e)) ∈ l)
    (handle_transport now segment day key (part_fact <$> parts) e) any.
Proof.
  unfold handle_transport. cbv zeta.
  destruct (match e with TRejected status body => String.eqb (rejection_reason status body) "segment_removed"
            | _ => false end) eqn:Hr.
  - apply safe_skip; [apply mono_elem| |intros u; by apply safe_ret]. apply safe_removed.
    destruct e; try done. by apply String.eqb_eq in Hr.
  - quietly.
Qed.

Lemma safe_upload_segment now segment zone day key bk acc :
  safe (acc_ok acc) (upload_segment now segment zone day key bk acc) (λ r l, ∀ acc', r = Ok acc' → acc_ok acc' l).
Proof.
  assert (Hsame : ∀ (P : list Event → Prop), (∀ l, P l → acc_ok acc l) →
    safe P (mret (Ok acc) : co (result TickAcc RouteError)) (λ r l, ∀ acc', r = Ok acc' → acc_ok acc' l)).
  { intros P HP. apply safe_ret. intros l Hl acc' [= <-]. by apply HP. }
  unfold upload_segment. eapply safe_seq; [apply mono_acc_ok| |].
  { eapply safe_weaken; [apply safe_read_parts|done|intros a l Hq; exact Hq]. }
  intros [[parts facts]|]; [|apply Hsame; by intros l []].
  eapply safe_weaken with (P := λ l, acc_ok acc l ∧ facts = part_fact <$> parts);
    [|intros l [Hl Hp]; split; [done|by apply Hp]|intros a l Hq; exact Hq].
  apply safe_pure. intros ->.
  destruct parts as [|p0 ps] eqn:Hparts; [by apply Hsame|]. rewrite <-Hparts. clear Hparts.
  cbv zeta. eapply safe_seq; [apply mono_acc_ok|by apply (safe_call (acc_ok acc))|]. intros r.
  assert (Hm : mono (λ l, acc_ok acc l ∧ EvIngest (ss_index segment) key day parts r ∈ l)).
  { apply mono_and; [apply mono_acc_ok|apply mono_elem]. }
  apply safe_skip; [done|apply safe_when; quietly|]. intros u.
  destruct r as [[response md]|[|e]].
  - destruct (is_accepted (resp_status response)) eqn:Ha.
    + eapply safe_bind; [by apply safe_handle_accepted|]. intros acc'. apply safe_ret. by intros l Hl ? [= <-].
    + apply safe_skip; [done| |intros v; apply Hsame; by intros l []].
      eapply safe_weaken; [apply (safe_handle_unaccepted now segment key day parts response md)|by intros l []|done].
  - by apply safe_ret.
  - eapply safe_skip; [done| |].
    + eapply safe_weaken; [apply (safe_handle_transport now segment key day parts e)|by intros l []|done].
    + intros stop. apply safe_ret. intros l [Hl _] acc'. destruct stop; [done|]. by intros [= <-].
Qed.

Lemma safe_process_segment now segment acc :
  safe (acc_ok acc) (process_segment now segment acc) (λ r l, ∀ acc', r = Ok acc' → acc_ok acc' l).
Proof.
  assert (Hsame : safe (acc_ok acc) (mret (Ok acc) : co (result TickAcc RouteError))
                    (λ r l, ∀ acc', r = Ok acc' → acc_ok acc' l)) by (apply safe_ret; by intros l Hl acc' [= <-]).
  unfold process_segment. apply safe_skip; [apply mono_acc_ok|apply safe_gets|]. intros []; [done|].
  case_bool_decide.
  - apply safe_skip; [apply mono_acc_ok| |].
    { eapply safe_weaken; [apply safe_gate|set_solver|done]. }
    intros [[]|e]; exact Hsame.
  - apply safe_skip; [apply mono_acc_ok|quietly|]. intros [zone|e].
    + apply safe_skip; [apply mono_acc_ok|apply safe_gets|]. intros period. cbv zeta.
      apply safe_skip; [apply mono_acc_ok|quietly|]. intros id.
      apply safe_skip; [apply mono_acc_ok|apply safe_gets|]. intros []; [done|]. apply safe_upload_segment.
    + apply safe_skip; [apply mono_acc_ok|quietly|]. intros u. by apply safe_ret.
Qed.

Lemma safe_segments_loop now segments acc :
  safe (acc_ok acc) (segments_loop now segments acc) (λ r l, ∀ acc', r = Ok acc' → acc_ok acc' l).
Proof.
  revert acc. induction segments as [|s segments IH]; intros acc; cbn [segments_loop].
  { apply safe_ret. by intros l Hl acc' [= <-]. }
  apply safe_skip; [apply mono_acc_ok|quietly|].
  intros []; [|apply safe_ret; by intros l Hl acc' [= <-]..].
  eapply safe_bind; [apply safe_process_segment|]. intros [acc'|e]; [|by apply safe_ret].
  eapply safe_weaken; [apply (IH acc')|by intros l Hl; apply Hl|done].
Qed.

(** ** Listings *)

Lemma item_matches_spec unk item :
  item_matches unk item = true →
  item_is item (unk_segment_key unk) ∧ NoDup (sf_name <$> item_files item) ∧
  ∀ name sha size, (name, sha, size) ∈ unk_local_files unk →
    ∃ sf, sf ∈ item_files item ∧ sf_name sf = name ∧ sf_size sf = size ∧ sf_sha256 sf = sha ∧
          is_held (sf_status sf) = true.
Proof.
  unfold item_matches, item_is. cbv zeta.
  destruct (match item_segment item with Some _ => _ | None => _ end) eqn:Hphys; cbn [negb orb]; [|done].
  destruct (match item_original_key item with Some _ => _ | None => _ end); cbn [negb orb]; [done|].
  destruct (_ =? _)%nat; cbn [negb orb]; [|done].
  do 2 (case_bool_decide; cbn [negb orb]; [|done]).
  intros Hall. split_and!; [|done|].
  - destruct (item_segment item), (item_stream item); try done.
    + apply andb_true_iff in Hphys as [->%String.eqb_eq ->%String.eqb_eq]. by left.
    + right. by apply String.eqb_eq in Hphys.
  - intros name sha size Hin. rewrite forallb_forall in Hall.
    specialize (Hall (name, sha, size) ltac:(by apply list_elem_of_In)). cbn in Hall.
    apply existsb_exists in Hall as (sf & Hsf & Hm). rewrite !andb_true_iff, !String.eqb_eq, Z.eqb_eq in Hm.
    exists sf. split; [by apply list_elem_of_In|]. tauto.
Qed.

Lemma selected_matches items unknown unk i item :
  selected_listing items unknown unk = Some i → items !! i = Some item → item_matches unk item = true.
Proof.
  unfold selected_listing. destruct (edges_of items unk) as [|j [|]] eqn:He; try done.
  case_match; [|done]. intros [= ->] Hi.
  assert (i ∈ edges_of items unk) as [Hm _]%list_elem_of_filter by (rewrite He; set_solver).
  by rewrite Hi in Hm.
Qed.

(** The files acknowledged from a matching item are held there. *)
Lemma listing_ack_files_held unk item files f :
  item_matches unk item = true → listing_ack_files item (unk_local_files unk) = Some files → f ∈ files →
  ∃ sf, sf ∈ item_files item ∧ is_held (sf_status sf) = true ∧
    f = mkAckFile (sf_name sf) (sf_name sf) (sf_size sf) (sf_sha256 sf) None (Some (sf_status sf)).
Proof.
  intros (_ & Hnd & Hheld)%item_matches_spec Hfiles Hf. unfold listing_ack_files in Hfiles.
  apply mapM_Some in Hfiles. apply list_elem_of_lookup in Hf as [i Hi].
  destruct (Forall2_lookup_r _ _ _ _ _ Hfiles Hi) as ([[name sha] size] & Hin & Heq).
  apply bind_Some in Heq as (sf & Hfind & [= <-]). apply find_first_Some in Hfind as [Hsf Hn%String.eqb_eq].
  destruct (Hheld name sha size) as (sf' & Hsf' & Hn' & <- & <- & Hh); [by eapply list_elem_of_lookup_2|].
  assert (sf = sf') as -> by (apply (NoDup_key_inj sf_name (item_files item)); congruence).
  exists sf'. by rewrite Hn'.
Qed.

Lemma safe_confirm_listed now day envelope md unknown u :
  safe (λ l, EvListing day (Ok (envelope, md)) ∈ l ∧
         ∃ parts response md', EvIngest (unk_index u) (unk_segment_key u) day parts (Ok (response, md')) ∈ l ∧
           is_accepted (resp_status response) = true)
    (confirm_listed now day (usable_items envelope) unknown u) any.
Proof.
  unfold confirm_listed. destruct (selected_listing _ _ _ ≫= _) as [item|] eqn:Hsel.
  2:{ unfold on_unknown_kept. quietly. }
  apply bind_Some in Hsel as (i & Hsel & Hi). pose proof (selected_matches _ _ _ _ _ Hsel Hi) as Hm.
  assert (Henv : envelope_ok envelope ∧ item ∈ se_items envelope).
  { unfold usable_items in Hi. destruct (validate_segments_envelope envelope) as [[]|] eqn:Hv; [|done].
    split; [by apply validate_segments_envelope_Ok|by eapply list_elem_of_lookup_2]. }
  destruct (listing_ack_files item (unk_local_files u)) as [files|] eqn:Hfiles; [|quietly].
  set (P := λ l, EvListing _ _ ∈ l ∧ _).
  assert (HP : mono P).
  { apply mono_and; [apply mono_elem|]. do 3 (apply mono_ex; intros ?). apply mono_and; [apply mono_elem|apply mono_const]. }
  apply safe_skip; [done|quietly|]. intros id. cbv zeta. apply safe_skip; [done|quietly|]. intros w.
  apply safe_when. eapply safe_weaken; [apply safe_gate_or_hold| |done].
  intros l (Hl & parts & response & md' & Hev & Ha) f Hf.
  destruct (listing_ack_files_held u item files f Hm Hfiles Hf) as (sf & Hsf & Hh & ->).
  destruct Henv. eapply VListing; try done. by apply item_matches_spec.
Qed.

Lemma safe_listing_pass now acc : safe (acc_ok acc) (listing_pass now (acc_unknown acc)) any.
Proof.
  unfold listing_pass. apply safe_skip; [apply mono_acc_ok|apply safe_gets|]. intros days.
  destruct (eligible_day now days (acc_unknown acc)) as [day|]; [|quietly].
  eapply safe_seq; [apply mono_acc_ok|by apply (safe_call (acc_ok acc))|]. intros r.
  assert (Hm : mono (λ l, acc_ok acc l ∧ EvListing day r ∈ l)) by (apply mono_and; [apply mono_acc_ok|apply mono_elem]).
  apply safe_skip; [done|apply safe_when; quietly|]. intros u.
  destruct r as [[envelope md]|[|e]]; [|quietly|unfold on_listing_refusal; quietly].
  apply safe_skip; [done|quietly|]. intros v. cbv zeta.
  apply safe_skip; [done| |intros w; by apply safe_ret].
  apply safe_for_each; [done|]. intros unk Hunk.
  eapply safe_weaken; [apply (safe_confirm_listed now day envelope md)| |done].
  intros l [Hacc Hl]. split; [done|].
  destruct (acc_unknown acc !! day) as [us|] eqn:Hd; cbn in Hunk; [by eapply Hacc|set_solver].
Qed.

Lemma quiet_tick : quiet tick.
Proof.
  unfold tick. apply quiet_bind.
  - unfold tick_inner. apply quiet_bind; [quietly|]. intros []; cbn [negb]; [|quietly].
    apply quiet_bind; [quietly|]. intros now. apply quiet_bind; [quietly|]. intros id.
    apply quiet_bind; [quietly|]. intros r. apply quiet_bind; [quietly|]. intros ?.
    apply quiet_bind; [apply quiet_local_finish|]. intros ?. apply quiet_bind; [quietly|].
    intros [segments|e]; [|quietly]. apply quiet_bind; [quietly|]. intros n.
    apply quiet_bind; [unfold set_pending; quietly|]. intros ?.
    eapply safe_bind; [eapply safe_weaken; [apply (safe_segments_loop now segments)| |intros x l Hq; exact Hq]|].
    { intros l _ day us u Hd. cbn in Hd. by rewrite lookup_empty in Hd. }
    intros [acc|e]; [|quietly].
    eapply safe_bind; [eapply safe_weaken; [apply (safe_listing_pass now acc)|by intros l Hl; apply Hl|intros x l Hq; exact Hq]|].
    intros [stop|]; [quietly|]. apply quiet_safe. unfold set_pending. quiet_walk.
  - intros r. unfold note_tick_success, note_tick_failure. quiet_walk.
Qed.

Lemma quiet_passes passes : quiet (for_each (seq 0 passes) (λ _ : nat, _ ← tick; mret tt)).
Proof.
  apply safe_for_each; [apply mono_const|]. intros ? _. apply quiet_bind; [apply quiet_tick|].
  intros r. apply quiet_ret.
Qed.
End operations.

(** C7. Media is removed only on evidence. However many passes the coordinator
    makes, over whatever store, network and journal, each media file it removes
    is one of two kinds. Either it had been read back with a digest the journal
    vouched for: by the validated receipt of that segment's upload, by a
    well-formed listing that holds the segment, by the journal's report that the
    owner removed it, or by the acknowledgement on disk of the journal this
    device is paired with. Or its segment carries the plain marker of an old
    version and the file is not newer than the marker: such a file is removed
    without being read, on the marker alone. *)
Theorem media_removed_only_on_evidence `{UploadLib} {W : Type} `{UploadWorld W} (world : W) (upload : UploadStatus)
    (period_secs : Z) (passes : nat) :
  covered (co_log (for_each (seq 0 passes) (λ _, _ ← tick; mret tt) (new_coordinator world upload period_secs)).2).
Proof. apply (quiet_passes passes (new_coordinator world upload period_secs)); [apply covered_nil|done]. Qed.
