(* ===== verification/CoordinatorWalk.v ===== *)
(** * Invariants over a pass of the upload coordinator

    Most of the coordinator only reads and writes through the calls of
    [UploadWorld] and keeps its own tables. An invariant that survives those
    calls and those tables survives every operation built from them: [Walk]
    states the two closure conditions, and the lemmas walk through the
    operations once for every such invariant. *)
From Stdlib Require Import Ascii String.
From stdpp Require Import sorting.
From S2P Require Import Prelude RustStr Model PauseStore Civil Ingest Transport Coordinator.

Local Open Scope list_scope.

(** The calls other than uploads and quarantines, with their events. *)
Section calls.
Context {W : Type} `{UploadWorld W}.

Inductive ordinary_call : ∀ A : Type, (A → Event) → M W A → Prop :=
| oc_read index name : ordinary_call _ (EvRead index name) (w_read_file index name)
| oc_remove index name : ordinary_call _ (EvRemove index name) (w_remove_entry index name)
| oc_modified index name : ordinary_call _ (EvModified index name) (w_modified index name)
| oc_identity : ordinary_call _ EvIdentity w_journal_identity
| oc_listing day : ordinary_call _ (EvListing day) (w_list_segments day)
| oc_scan : ordinary_call _ (λ _, EvOther) w_scan
| oc_confirmed : ordinary_call _ (λ _, EvOther) w_confirmed
| oc_list_entries index : ordinary_call _ (λ _, EvOther) (w_list_entries index)
| oc_remove_dir index : ordinary_call _ (λ _, EvOther) (w_remove_dir index)
| oc_write_ack index ack : ordinary_call _ (λ _, EvOther) (w_write_ack index ack)
| oc_release journal : ordinary_call _ (λ _, EvOther) (w_release_refused journal)
| oc_quarantined : ordinary_call _ (λ _, EvOther) w_quarantined_media_dirs
| oc_gate : ordinary_call _ (λ _, EvOther) w_gate_open
| oc_refusal_stop : ordinary_call _ (λ _, EvOther) w_refusal_stop
| oc_zone epoch : ordinary_call _ (λ _, EvOther) (w_local_zone epoch)
| oc_monotonic : ordinary_call _ (λ _, EvOther) w_monotonic_now
| oc_instant : ordinary_call _ (λ _, EvOther) w_instant
| oc_now_millis : ordinary_call _ (λ _, EvOther) w_now_millis
| oc_elapsed : ordinary_call _ (λ _, EvOther) w_elapsed_ms
| oc_exit : ordinary_call _ (λ _, EvOther) w_exit
| oc_refused : ordinary_call _ (λ _, EvOther) w_publish_refused
| oc_unknown : ordinary_call _ (λ _, EvOther) w_publish_unknown_journals
| oc_disconnected : ordinary_call _ (λ _, EvOther) w_mark_disconnected.

(** A family of invariants closed under ordinary calls and under updates of
    the tables other than the refusal counters. *)
Class Walk {X : Type} (Inv : X → Coordinator W → Prop) : Prop := {
  walk_modify x (f : Coordinator W → Coordinator W) :
    (∀ c, co_world (f c) = co_world c ∧ co_log (f c) = co_log c ∧
          co_quarantine_counts (f c) = co_quarantine_counts c) → pres (Inv x) (modify f);
  walk_call x A ev (m : M W A) : ordinary_call A ev m → pres (Inv x) (call ev m)
}.
End calls.

Notation walks Inv m := (∀ x, pres (Inv x) m).

Create HintDb walk discriminated.
#[export] Hint Constructors ordinary_call : walk.

Section walk.
Context `{UploadLib} {W : Type} `{UploadWorld W} {X : Type} (Inv : X → Coordinator W → Prop) `{!Walk Inv}.
Notation co := (M (Coordinator W)).

Lemma walk_ret {A} (a : A) : walks Inv (mret a : co A).
Proof. intros x. apply pres_ret. Qed.
Lemma walk_bind {A B} (m : co A) (k : A → co B) : walks Inv m → (∀ a, walks Inv (k a)) → walks Inv (m ≫= k).
Proof. intros Hm Hk x. apply pres_bind; [apply Hm|]. intros a. apply Hk. Qed.
Lemma walk_gets {A} (f : Coordinator W → A) : walks Inv (gets f).
Proof. intros x. apply pres_gets. Qed.
Lemma walk_when b (m : co unit) : walks Inv m → walks Inv (when b m).
Proof. intros Hm x. by apply pres_when. Qed.
Lemma walk_for_each {A} (xs : list A) (body : A → co unit) : (∀ a, walks Inv (body a)) → walks Inv (for_each xs body).
Proof. intros Hb x. apply pres_for_each. intros a. apply Hb. Qed.
Lemma walk_ask {A} (m : M W A) : ordinary_call A (λ _, EvOther) m → walks Inv (ask m).
Proof. intros Hm x. by apply walk_call. Qed.
Lemma walk_event {A} ev (m : M W A) : ordinary_call A ev m → walks Inv (call ev m).
Proof. intros Hm x. by apply walk_call. Qed.
Lemma walk_update (f : Coordinator W → Coordinator W) :
  (∀ c, co_world (f c) = co_world c ∧ co_log (f c) = co_log c ∧ co_quarantine_counts (f c) = co_quarantine_counts c) →
  walks Inv (modify f).
Proof. intros Hf x. by apply walk_modify. Qed.
End walk.

Ltac walk_op := by auto with walk nocore.
Ltac walk_step :=
  match goal with
  | |- ∀ x, pres _ (_ ≫= _) => apply walk_bind; [|intros ?]
  | |- ∀ x, pres _ (mret _) => apply walk_ret
  | |- ∀ x, pres _ (gets _) => apply walk_gets
  | |- ∀ x, pres _ (modify _) => apply walk_update; [apply _|done]
  | |- ∀ x, pres _ (ask _) => apply walk_ask; [apply _|constructor]
  | |- ∀ x, pres _ (call _ _) => apply walk_event; [apply _|constructor]
  | |- ∀ x, pres _ (when _ _) => apply walk_when
  | |- ∀ x, pres _ (for_each _ _) => apply walk_for_each; intros ?
  | |- ∀ x, pres _ (let _ := _ in _) => cbv zeta
  | |- ∀ x, pres _ (match ?y with _ => _ end) => destruct y
  | |- ∀ x, pres _ _ => walk_op
  end.
Ltac walk := repeat walk_step.

Section operations.
Context `{UploadLib} {W : Type} `{UploadWorld W} {X : Type} (Inv : X → Coordinator W → Prop) `{!Walk Inv}.

Lemma walk_hold index now : walks Inv (hold_hour index now).
Proof. unfold hold_hour, set_hold, upd_holds. walk. Qed.
Lemma walk_on_error e : walks Inv (on_error e).
Proof. unfold on_error, upd_upload. walk. Qed.
Lemma walk_upd_upload f : walks Inv (upd_upload f).
Proof. unfold upd_upload. walk. Qed.
Lemma walk_upd_bounds f : walks Inv (upd_bounds f).
Proof. unfold upd_bounds. walk. Qed.
Lemma walk_upd_days f : walks Inv (upd_days f).
Proof. unfold upd_days. walk. Qed.
Lemma walk_identity : walks Inv journal_identity.
Proof. unfold journal_identity. walk. Qed.
Hint Resolve walk_hold walk_on_error walk_upd_upload walk_upd_bounds walk_upd_days walk_identity : walk.

Lemma walk_segment_error d k s n : walks Inv (register_segment_error d k s n).
Proof. unfold register_segment_error. walk. Qed.
Lemma walk_segment_bound d k s n t : walks Inv (register_segment_bound d k s n t).
Proof. unfold register_segment_bound. walk. Qed.
Lemma walk_recount : walks Inv recount_quarantined.
Proof. unfold recount_quarantined. walk. Qed.
Lemma walk_note_heard : walks Inv note_heard.
Proof. unfold note_heard, set_heard. walk. Qed.
Lemma walk_remove_or_absent i n : walks Inv (remove_or_absent i n).
Proof. unfold remove_or_absent, remove_entry. walk. Qed.
Lemma walk_list_entries i : walks Inv (list_entries i).
Proof. unfold list_entries. walk. Qed.
Lemma walk_remove_dir i : walks Inv (remove_dir i).
Proof. unfold remove_dir. walk. Qed.
Lemma walk_write_ack i a : walks Inv (write_ack i a).
Proof. unfold write_ack. walk. Qed.
Lemma walk_read_file i n : walks Inv (read_file i n).
Proof. unfold read_file. walk. Qed.
Hint Resolve walk_segment_error walk_segment_bound walk_recount walk_note_heard walk_remove_or_absent
  walk_list_entries walk_remove_dir walk_write_ack walk_read_file : walk.

Lemma walk_match_media i fs ms : walks Inv (match_media i fs ms).
Proof. induction ms; cbn [match_media]; walk. Qed.
Lemma walk_remove_all i ns : walks Inv (remove_all i ns).
Proof. induction ns; cbn [remove_all]; walk. Qed.
Hint Resolve walk_match_media walk_remove_all : walk.

Lemma walk_gate_remove i ns u : walks Inv (gate_remove i ns u).
Proof. unfold gate_remove. walk. Qed.
Hint Resolve walk_gate_remove : walk.
Lemma walk_gate i fs : walks Inv (try_gate_delete i fs).
Proof. unfold try_gate_delete. walk. Qed.
Hint Resolve walk_gate : walk.
Lemma walk_gate_or_hold i n fs : walks Inv (gate_or_hold i n fs).
Proof. unfold gate_or_hold. walk. Qed.
Lemma walk_segment_removed i fs n : walks Inv (finish_segment_removed i fs n).
Proof. unfold finish_segment_removed, on_segment_removed. walk. Qed.
Hint Resolve walk_gate_or_hold walk_segment_removed : walk.

Lemma walk_mtimes i ms : walks Inv (media_mtimes i ms).
Proof. induction ms; cbn [media_mtimes]; unfold modified in *; walk. Qed.
Lemma walk_remove_older i t ts : walks Inv (remove_older i t ts).
Proof. induction ts as [|[]]; cbn [remove_older]; walk. Qed.
Lemma walk_physical i s a : walks Inv (ack_matches_physical i s a).
Proof. unfold ack_matches_physical. walk. Qed.
Lemma walk_drop_marker i n : walks Inv (drop_marker i n).
Proof. unfold drop_marker. walk. Qed.
Hint Resolve walk_mtimes walk_remove_older walk_physical walk_drop_marker : walk.

Lemma walk_finish_acked m i n a : walks Inv (finish_acked m i n a).
Proof. unfold finish_acked. walk. Qed.
Lemma walk_finish_legacy i n b : walks Inv (finish_legacy i n b).
Proof. unfold finish_legacy, finish_sidecars, modified. walk. Qed.
Hint Resolve walk_finish_acked walk_finish_legacy : walk.
Lemma walk_finish_one m n i : walks Inv (finish_one m n i).
Proof. unfold finish_one, finish_empty, is_held_now. walk. Qed.
Hint Resolve walk_finish_one : walk.
Lemma walk_local_finish n : walks Inv (local_finish n).
Proof. unfold local_finish. walk. Qed.

Lemma walk_read_parts i ns : walks Inv (read_parts i ns).
Proof. induction ns; cbn [read_parts]; walk. Qed.
Lemma walk_unaccepted n s d k fs r : walks Inv (handle_unaccepted n s d k fs r).
Proof. unfold handle_unaccepted. walk. Qed.
Lemma walk_confirm_listed n d items us u : walks Inv (confirm_listed n d items us u).
Proof. unfold confirm_listed, on_unknown_kept. walk. Qed.
Hint Resolve walk_local_finish walk_read_parts walk_unaccepted walk_confirm_listed : walk.

Lemma walk_listing_pass n m : walks Inv (listing_pass n m).
Proof. unfold listing_pass, list_segments, on_listing_refusal. walk. Qed.
Hint Resolve walk_listing_pass : walk.
End operations.

(** Outside the section the lemmas are tried in turn. *)
Ltac walk_op ::=
  solve [first [
    apply walk_hold | apply walk_on_error | apply walk_upd_upload | apply walk_upd_bounds | apply
    walk_upd_days | apply walk_identity | apply walk_segment_error | apply walk_segment_bound | apply
    walk_recount | apply walk_note_heard | apply walk_remove_or_absent | apply walk_list_entries | apply
    walk_remove_dir | apply walk_write_ack | apply walk_read_file | apply walk_match_media | apply
    walk_remove_all | apply walk_gate_remove | apply walk_gate | apply walk_gate_or_hold | apply
    walk_segment_removed | apply walk_mtimes | apply walk_remove_older | apply walk_physical | apply
    walk_drop_marker | apply walk_finish_acked | apply walk_finish_legacy | apply walk_finish_one |
    apply walk_local_finish | apply walk_read_parts | apply walk_unaccepted | apply walk_confirm_listed
    | apply walk_listing_pass
  ]; apply _].

(** Invariants that survive everything the coordinator does. *)
Class FullWalk `{UploadLib} {W : Type} `{UploadWorld W} {X : Type} (Inv : X → Coordinator W → Prop) : Prop := {
  full_walk : Walk Inv;
  full_counts x f : pres (Inv x) (upd_counts f);
  full_ingest x index key day parts zone sources : pres (Inv x) (ingest index key day parts zone sources);
  full_quarantine x index journal : pres (Inv x) (quarantine index journal)
}.
#[export] Existing Instance full_walk.

Section whole.
Context `{UploadLib} {W : Type} `{UploadWorld W} {X : Type} (Inv : X → Coordinator W → Prop) `{!FullWalk Inv}.

Lemma walk_clear_reject i : walks Inv (clear_reject i).
Proof. intros x. apply full_counts. Qed.
Lemma walk_register_reject i : walks Inv (register_reject i).
Proof.
  unfold register_reject. apply walk_bind; [intros x; apply full_counts|]. intros _.
  apply walk_bind; [apply walk_gets|]. intros counts. destruct (negb _); [apply walk_ret|].
  apply walk_bind; [walk|]. intros id. apply walk_bind; [intros x; apply full_quarantine|].
  intros [u|e]; [|apply walk_ret]. apply walk_bind; [intros x; apply full_counts|]. intros _. walk.
Qed.

Lemma walk_accepted now s d k bk b fs r md acc : walks Inv (handle_accepted now s d k bk b fs r md acc).
Proof.
  unfold handle_accepted. apply walk_bind; [walk|]. intros ms. destruct (validate_receipt _ _) as [receipt|fault].
  - apply walk_bind; [apply walk_clear_reject|]. intros _. unfold on_confirmed. walk.
  - unfold register_received_not_written, on_invalid_receipt. walk.
Qed.

Lemma walk_transport now s d k fs e : walks Inv (handle_transport now s d k fs e).
Proof.
  unfold handle_transport. cbv zeta. destruct (match e with TRejected _ _ => _ | _ => false end); [walk|].
  apply walk_bind; [walk|]. intros _. destruct (is_device_scoped_refusal e); [walk|].
  destruct (is_attributable_rejection e); [|walk].
  apply walk_bind; [apply walk_register_reject|]. intros _. walk.
Qed.

Lemma walk_upload now s z d k bk acc : walks Inv (upload_segment now s z d k bk acc).
Proof.
  unfold upload_segment. apply walk_bind; [walk|]. intros [[parts facts]|]; [|walk].
  destruct parts as [|p0 ps]; [walk|]. cbv zeta. apply walk_bind; [intros x; apply full_ingest|]. intros r.
  apply walk_bind; [walk|]. intros _. destruct r as [[response md]|[|e]]; [|walk|].
  - destruct (is_accepted _); [|walk]. apply walk_bind; [apply walk_accepted|]. intros acc'. walk.
  - apply walk_bind; [apply walk_transport|]. intros stop. walk.
Qed.

Lemma walk_segments now segments acc : walks Inv (segments_loop now segments acc).
Proof.
  revert acc. induction segments as [|s segments IH]; intros acc; cbn [segments_loop]; [walk|].
  apply walk_bind; [walk|]. intros []; [|walk..]. apply walk_bind.
  - unfold process_segment, is_held_now. apply walk_bind; [walk|]. intros []; [walk|].
    case_bool_decide; [walk|]. apply walk_bind; [walk|]. intros [zone|u]; [|walk].
    apply walk_bind; [walk|]. intros period. cbv zeta. apply walk_bind; [walk|]. intros id.
    apply walk_bind; [walk|]. intros []; [walk|]. apply walk_upload.
  - intros [acc'|e]; [apply IH|walk].
Qed.

Lemma walk_tick : walks Inv tick.
Proof.
  unfold tick. apply walk_bind.
  - unfold tick_inner. apply walk_bind; [walk|]. intros []; cbn [negb]; [|walk].
    do 5 (apply walk_bind; [walk|intros ?]). apply walk_bind; [walk|]. intros [segments|e]; [|walk].
    do 2 (apply walk_bind; [unfold set_pending; walk|intros ?]).
    apply walk_bind; [apply walk_segments|]. intros r. unfold set_pending. walk.
  - intros r. unfold note_tick_success, note_tick_failure. walk.
Qed.
End whole.
