(* ===== verification/CoordinatorQuarantine.v ===== *)
(** * When the upload coordinator sets a segment aside

    A segment is quarantined only after five refusals the journal attributes
    to it, with neither a valid receipt nor an earlier quarantine of it in
    between: the per-segment counter of the code never runs ahead of the
    refusals in the log. *)
From Stdlib Require Import Ascii String.
From stdpp Require Import sorting.
From S2P Require Import Prelude RustStr Model PauseStore Civil Ingest Transport Coordinator CoordinatorProps CoordinatorWalk.

Local Open Scope list_scope.

Section tally.
Context `{UploadLib}.

Definition is_refusal (r : result (IngestResponse * SendMetadata) RouteError) : bool :=
  match r with Err (RouteTransport e) => is_attributable_rejection e | _ => false end.

Definition has_receipt (parts : list FilePart) (r : result (IngestResponse * SendMetadata) RouteError) : bool :=
  match r with
  | Ok (response, _) => is_accepted (resp_status response)
                        && is_ok (validate_receipt response (fact_local <$> (part_fact <$> parts)))
  | _ => false
  end.

(** The refusals of [index] since its last receipt or quarantine. *)
Definition count_event (index : Z) (n : nat) (e : Event) : nat :=
  match e with
  | EvIngest i _ _ parts r =>
    if decide (i = index) then if is_refusal r then S n else if has_receipt parts r then O else n else n
  | EvQuarantine i _ (Ok _) => if decide (i = index) then O else n
  | _ => n
  end.
Definition refusals (index : Z) (l : list Event) : nat := foldl (count_event index) O l.

Lemma refusals_snoc index l e : refusals index (l ++ [e]) = count_event index (refusals index l) e.
Proof. unfold refusals. by rewrite foldl_app. Qed.

(** Every quarantine in the log came after enough refusals. *)
Definition warranted (l : list Event) : Prop :=
  ∀ pre index journal r post, l = pre ++ EvQuarantine index journal r :: post →
    (QUARANTINE_AFTER_REJECTS ≤ Z.of_nat (refusals index pre))%Z.

Lemma warranted_snoc l e :
  warranted l →
  (∀ index journal r, e = EvQuarantine index journal r → (QUARANTINE_AFTER_REJECTS ≤ Z.of_nat (refusals index l))%Z) →
  warranted (l ++ [e]).
Proof.
  intros Hl He pre index journal r post Heq. destruct (decide (post = [])) as [->|Hne].
  - apply app_inj_tail in Heq as [-> Heq]. by eapply He.
  - destruct (exists_last Hne) as (post' & e' & ->). rewrite app_comm_cons, app_assoc in Heq.
    apply app_inj_tail in Heq as [-> _]. by eapply Hl.
Qed.

(** Events that are neither uploads nor quarantines. *)
Definition plain (e : Event) : Prop :=
  match e with EvIngest _ _ _ _ _ | EvQuarantine _ _ _ => False | _ => True end.

Lemma plain_refusals index l e : plain e → refusals index (l ++ [e]) = refusals index l.
Proof. intros He. rewrite refusals_snoc. by destruct e. Qed.

Lemma plain_warranted l e : plain e → warranted l → warranted (l ++ [e]).
Proof. intros He Hl. apply warranted_snoc; [done|]. by intros ? ? ? ->. Qed.
End tally.

Section quarantine.
Context `{UploadLib} {W : Type} `{UploadWorld W}.
Notation co := (M (Coordinator W)).

(** The counter of [i] is at most its refusals plus [slack i]. *)
Definition counted (slack : Z → Z) (c : Coordinator W) : Prop :=
  warranted (co_log c) ∧
  ∀ i, (default 0%Z (co_quarantine_counts c !! i) ≤ Z.of_nat (refusals i (co_log c)) + slack i)%Z.

(** Ordinary calls and the other tables leave the tally as it was. *)
Lemma ordinary_plain {A} ev (m : M W A) a : ordinary_call A ev m → plain (ev a).
Proof. by destruct 1. Qed.

#[local] Instance counted_walk : Walk counted.
Proof.
  split.
  - intros s f Hf. apply pres_modify. intros c Hc. unfold counted in *. by destruct (Hf c) as (_ & -> & ->).
  - intros s A ev m Hm c [Hw Hc]. unfold call. destruct (m (co_world c)) as [a w].
    split; cbn [snd co_log co_quarantine_counts].
    + eapply plain_warranted; [by eapply ordinary_plain|done].
    + intros i. rewrite plain_refusals by (by eapply ordinary_plain). apply Hc.
Qed.

Notation even m := (walks counted m).

(** *** The three operations that count *)

Definition at_index (index k : Z) : Z → Z := λ i, if decide (i = index) then k else 0%Z.
Notation even_now := (counted (λ _, 0%Z)).

Lemma counted_weaken s s' c : counted s c → (∀ i, (s i ≤ s' i)%Z) → counted s' c.
Proof. intros [Hw Hc] Hs. split; [done|]. intros i. specialize (Hc i). specialize (Hs i). lia. Qed.

Lemma clear_settles index k c :
  counted (at_index index k) c → even_now (upd_counts (delete index) c).2.
Proof.
  intros [Hw Hc]. split; [done|]. intros i. cbn [upd_counts modify snd co_quarantine_counts co_log].
  specialize (Hc i). unfold at_index in Hc. case_decide as Hi.
  - subst. rewrite lookup_delete_eq. cbn. lia.
  - rewrite lookup_delete_ne by done. done.
Qed.

(** What an upload's answer does to the tally. *)
Lemma ingest_counts index key day parts zone sources c :
  even_now c →
  let r := ingest index key day parts zone sources c in
  if is_refusal r.1 then counted (at_index index (-1)) r.2
  else if has_receipt parts r.1 then ∃ k, counted (at_index index k) r.2
  else even_now r.2.
Proof.
  intros [Hw Hc]. unfold ingest, call. destruct (w_ingest key day parts zone sources (co_world c)) as [r w]. cbv zeta. cbn [fst snd].
  assert (Hw' : warranted (co_log c ++ [EvIngest index key day parts r])) by (by apply warranted_snoc).
  destruct (is_refusal r) eqn:Hr; [|destruct (has_receipt parts r) eqn:Hrc].
  - split; [done|]. intros i. cbn [co_quarantine_counts co_log]. specialize (Hc i). rewrite refusals_snoc.
    unfold count_event, at_index. rewrite Hr. repeat case_decide; subst; try done; lia.
  - exists (Z.of_nat (refusals index (co_log c))). split; [done|]. intros i. cbn [co_quarantine_counts co_log].
    specialize (Hc i). rewrite refusals_snoc. unfold count_event, at_index. rewrite Hr, Hrc.
    repeat case_decide; subst; try done; lia.
  - split; [done|]. intros i. cbn [co_quarantine_counts co_log]. specialize (Hc i). rewrite refusals_snoc.
    unfold count_event. rewrite Hr, Hrc. case_decide; lia.
Qed.

(** The state after the counter of [index] went up. *)
Lemma count_up index c :
  counted (at_index index (-1)) c →
  even_now (upd_counts (λ counts, <[index := sat_add_u32 (default 0%Z (counts !! index)) 1]> counts) c).2.
Proof.
  intros [Hw Hc]. split; [done|]. intros i. cbn [upd_counts modify snd co_quarantine_counts co_log].
  specialize (Hc i). unfold at_index in Hc. case_decide as Hi.
  - subst. rewrite lookup_insert_eq. cbn. unfold sat_add_u32. lia.
  - by rewrite lookup_insert_ne.
Qed.

Lemma quarantine_counts index journal c :
  even_now c → (QUARANTINE_AFTER_REJECTS ≤ default 0%Z (co_quarantine_counts c !! index))%Z →
  let r := quarantine index journal c in
  if is_ok r.1 then ∃ k, counted (at_index index k) r.2 else even_now r.2.
Proof.
  intros [Hw Hc] Hn. unfold quarantine, call. destruct (w_quarantine index journal (co_world c)) as [r w]. cbv zeta. cbn [fst snd].
  assert (Hw' : warranted (co_log c ++ [EvQuarantine index journal r])).
  { apply warranted_snoc; [done|]. intros i j r' Heq. injection Heq as <- _ _. specialize (Hc index). lia. }
  destruct r as [u|e]; cbn [is_ok].
  - exists (Z.of_nat (refusals index (co_log c))). split; [done|]. intros i. cbn [co_quarantine_counts co_log].
    specialize (Hc i). rewrite refusals_snoc. unfold count_event, at_index. repeat case_decide; subst; try done; lia.
  - split; [done|]. intros i. cbn [co_quarantine_counts co_log]. rewrite refusals_snoc. apply Hc.
Qed.

Lemma register_reject_settles index c :
  counted (at_index index (-1)) c → even_now (register_reject index c).2.
Proof.
  intros Hc%count_up. unfold register_reject. rewrite bind_run.
  set (c1 := (upd_counts _ c).2) in *. clearbody c1. clear c. rewrite bind_run. cbn [gets fst snd].
  destruct (Z.leb_spec QUARANTINE_AFTER_REJECTS (default 0%Z (co_quarantine_counts c1 !! index))) as [Hn|Hn];
    cbn [negb]; [|done].
  rewrite bind_run. pose proof (walk_identity counted _ c1 Hc) as Hc2.
  assert (Hsame : co_quarantine_counts (journal_identity c1).2 = co_quarantine_counts c1).
  { unfold journal_identity, call. by destruct (w_journal_identity (co_world c1)). }
  set (c2 := (journal_identity c1).2) in *. clearbody c2. rewrite bind_run.
  pose proof (quarantine_counts index (instance_id (journal_identity c1).1) c2 Hc2 ltac:(by rewrite Hsame)) as Hq.
  cbv zeta in Hq. destruct (quarantine index _ c2) as [[u|e] c3]; cbn [is_ok fst snd] in *; [|done].
  destruct Hq as [k Hk]. rewrite bind_run. by apply (walk_recount counted), clear_settles with k.
Qed.

(** ** The pass *)

(** What holds between an upload's answer and its handling. *)
Definition answered (index : Z) (parts : list FilePart) (r : result (IngestResponse * SendMetadata) RouteError)
    (c : Coordinator W) : Prop :=
  if is_refusal r then counted (at_index index (-1)) c
  else if has_receipt parts r then ∃ k, counted (at_index index k) c
  else even_now c.

Lemma even_answered {A} (m : co A) index parts r : even m → pres (answered index parts r) m.
Proof.
  intros Hm c. unfold answered. destruct (is_refusal r); [apply Hm|]. destruct (has_receipt parts r); [|apply Hm].
  intros [k Hk]. exists k. by apply Hm.
Qed.

Lemma even_run {A} (m : co A) c : even m → even_now c → even_now (m c).2.
Proof. intros Hm. apply Hm. Qed.

Lemma handle_accepted_settles now segment day key bk bytes parts response md acc c :
  is_accepted (resp_status response) = true →
  answered (ss_index segment) parts (Ok (response, md)) c →
  even_now (handle_accepted now segment day key bk bytes (part_fact <$> parts) response md acc c).2.
Proof.
  intros Ha Hc. unfold handle_accepted. rewrite bind_run.
  apply (even_answered (ask w_elapsed_ms)) in Hc; [|walk].
  revert Hc. generalize (ask w_elapsed_ms c). intros [ms c1] Hc. cbn [fst snd] in *.
  unfold answered, has_receipt in Hc. cbn [is_refusal] in Hc. rewrite Ha in Hc. cbn [andb] in Hc.
  destruct (validate_receipt _ _) as [receipt|fault]; cbn [is_ok] in Hc.
  - destruct Hc as [k Hk]. rewrite bind_run. apply clear_settles in Hk.
    apply even_run; [|exact Hk]. unfold on_confirmed. walk.
  - apply even_run; [|done]. unfold register_received_not_written, on_invalid_receipt. walk.
Qed.

Lemma handle_transport_settles now segment day key files parts e c :
  answered (ss_index segment) parts (Err (RouteTransport e)) c →
  even_now (handle_transport now segment day key files e c).2.
Proof.
  unfold answered. cbn [is_refusal has_receipt]. intros Hc.
  assert (Heven : even_now c).
  { destruct (is_attributable_rejection e); [|done]. eapply counted_weaken; [done|].
    intros i. unfold at_index. case_decide; lia. }
  unfold handle_transport. cbv zeta.
  destruct (match e with TRejected _ _ => _ | _ => false end); [apply even_run; [walk|done]|].
  rewrite bind_run. pose proof (walk_on_error counted e _ c Heven) as Heven'.
  destruct (is_device_scoped_refusal e); [done|].
  destruct (is_attributable_rejection e).
  - apply (walk_on_error counted e) in Hc. rewrite bind_run. apply register_reject_settles in Hc.
    apply even_run; [walk|exact Hc].
  - apply even_run; [walk|done].
Qed.

Lemma read_parts_facts index names c parts facts :
  (read_parts index names c).1 = Some (parts, facts) → facts = part_fact <$> parts.
Proof.
  revert c parts facts. induction names as [|name names IH]; intros c parts facts; cbn [read_parts].
  { by intros [= <- <-]. }
  rewrite bind_run. destruct (read_file index name c).1 as [bytes|e]; rewrite bind_run; [|discriminate 1].
  unfold mret, state_ret. cbn [fst]. specialize (IH (read_file index name c).2).
  match goal with |- context [match ?x with _ => _ end] => destruct x as [[ps fs]|] eqn:Hrest end; [|done].
  intros [= <- <-]. cbn. by rewrite (IH ps fs Hrest).
Qed.

Lemma upload_segment_settles now segment zone day key bk acc :
  pres even_now (upload_segment now segment zone day key bk acc).
Proof.
  intros c Hc. unfold upload_segment. rewrite bind_run.
  pose proof (read_parts_facts (ss_index segment) (ss_files segment) c) as Hfacts.
  apply (walk_read_parts counted (ss_index segment) (ss_files segment)) in Hc. revert Hfacts Hc.
  generalize (read_parts (ss_index segment) (ss_files segment) c). intros [p c1] Hfacts Hc. cbn [fst snd] in *.
  destruct p as [[parts facts]|]; [|done]. rewrite (Hfacts parts facts eq_refl).
  destruct parts as [|p0 ps] eqn:Hp; [done|]. rewrite <-Hp. clear Hp Hfacts. cbv zeta. rewrite bind_run.
  pose proof (ingest_counts (ss_index segment) key day parts (Some zone) (ss_audio_sources segment) c1 Hc) as Hr.
  cbv zeta in Hr. revert Hr. generalize (ingest (ss_index segment) key day parts (Some zone) (ss_audio_sources segment) c1).
  intros [r c2] Hr. cbn [fst snd] in *. change (answered (ss_index segment) parts r c2) in Hr.
  rewrite bind_run. apply (even_answered (when (journal_answered r) note_heard)) in Hr; [|walk].
  revert Hr. generalize (when (journal_answered r) note_heard c2).2. intros c3 Hr.
  destruct r as [[response md]|[|e]].
  - destruct (is_accepted (resp_status response)) eqn:Ha; rewrite bind_run.
    + by apply handle_accepted_settles.
    + apply (even_run (handle_unaccepted _ _ _ _ _ _)); [apply (walk_unaccepted counted)|]. unfold answered, has_receipt in Hr. cbn [is_refusal] in Hr.
      by rewrite Ha in Hr.
  - done.
  - rewrite bind_run. by eapply handle_transport_settles.
Qed.

Lemma even_settles {A} (m : co A) : even m → pres even_now m.
Proof. intros Hm. apply Hm. Qed.

Lemma process_segment_settles now segment acc : pres even_now (process_segment now segment acc).
Proof.
  unfold process_segment, is_held_now. apply pres_bind; [apply pres_gets|]. intros [].
  { apply pres_ret. }
  case_bool_decide; [apply even_settles; walk|].
  apply pres_bind; [apply even_settles; walk|]. intros [zone|u]; [|apply even_settles; walk].
  apply pres_bind; [apply pres_gets|]. intros period. cbv zeta.
  apply pres_bind; [apply even_settles; walk|]. intros id.
  apply pres_bind; [apply pres_gets|]. intros []; [apply pres_ret|]. apply upload_segment_settles.
Qed.

Lemma segments_loop_settles now segments acc : pres even_now (segments_loop now segments acc).
Proof.
  revert acc. induction segments as [|segment segments IH]; intros acc; cbn [segments_loop]; [apply pres_ret|].
  apply pres_bind; [apply even_settles; walk|]. intros []; try apply pres_ret.
  apply pres_bind; [apply process_segment_settles|]. intros [acc'|e]; [apply IH|apply pres_ret].
Qed.

Lemma tick_settles : pres even_now tick.
Proof.
  unfold tick. apply pres_bind.
  - unfold tick_inner. apply pres_bind; [apply even_settles; walk|]. intros []; cbn [negb]; [|apply pres_ret].
    do 5 (apply pres_bind; [apply even_settles; walk|intros ?]).
    apply pres_bind; [apply even_settles; walk|]. intros [segments|e]; [|apply pres_ret].
    do 2 (apply pres_bind; [apply even_settles; unfold set_pending; walk|intros ?]).
    apply pres_bind; [apply segments_loop_settles|]. intros r. apply even_settles. unfold set_pending. walk.
  - intros r. apply even_settles. unfold note_tick_success, note_tick_failure. walk.
Qed.
End quarantine.

(** C8. A segment is set aside only for cause. However many passes the
    coordinator makes, over whatever store, network and journal, it asks for
    the quarantine of a segment only after five uploads of that segment were
    refused for a reason of its own, with no valid receipt and no completed
    quarantine of it in between. *)
Theorem quarantine_needs_five_refusals `{UploadLib} {W : Type} `{UploadWorld W} (world : W) (upload : UploadStatus)
    (period_secs : Z) (passes : nat) :
  warranted (co_log (for_each (seq 0 passes) (λ _, _ ← tick; mret tt) (new_coordinator world upload period_secs)).2).
Proof.
  assert (Hq : pres (counted (λ _, 0%Z)) (for_each (seq 0 passes) (λ _ : nat, _ ← tick (W:=W); mret tt))).
  { apply pres_for_each. intros ?. apply pres_bind; [apply tick_settles|]. intros r. apply pres_ret. }
  apply (Hq (new_coordinator world upload period_secs)). split.
  - intros [] ? ? ? ? ?; done.
  - intros i. cbn. rewrite lookup_empty. cbn. lia.
Qed.
