(* ===== verification/CoordinatorDemo.v ===== *)
(** * The upload coordinator on a concrete world

    A store of one segment with one audio file, a clock that jumps past every
    hold, and a journal that either keeps what it is sent or refuses it for
    its size. The examples run whole passes: a kept upload is deleted
    locally, a short receipt is not, and the fifth refusal sets the segment
    aside. *)
From Stdlib Require Import Ascii String.
From S2P Require Import Prelude RustStr Model PauseStore Civil Ingest Transport Coordinator.

Local Open Scope list_scope.

Inductive DemoJournal : Type := Keeps (size : Z) | Refuses.

Record DemoWorld : Type := mkDemoWorld {
  dw_files : list (string * string);
  dw_clock : Z;
  dw_journal : DemoJournal;
  dw_set_aside : bool
}.

Definition demo_sha : string := "0123456789abcdef0123456789abcdef0123456789abcdef0123456789abcdef".

#[local] Instance demo_lib : UploadLib := {
  sha256_hex := λ _, demo_sha;
  json_parse := λ _, None;
  ack_from_slice := λ _, None;
  ack_to_vec := λ _, Some "{}"%string;
  debug_fault := λ _, EmptyString;
  debug_status := λ _, EmptyString
}.

Definition demo_segment : SealedSegment := mkSealedSegment 7 1700000000 (Some 300%Z) [] ["audio.flac"%string].
Definition demo_lookup (name : string) (l : list (string * string)) : option string :=
  snd <$> find_first (λ p, String.eqb p.1 name) l.
Definition demo_drop (name : string) (w : DemoWorld) : DemoWorld :=
  mkDemoWorld (filter (λ p, p.1 ≠ name) (dw_files w)) (dw_clock w) (dw_journal w) (dw_set_aside w).
Definition demo_ok {A E} (a : A) : M DemoWorld (result A E) := mret (Ok a).

Definition demo_answer (journal : DemoJournal) (key : string) : result (IngestResponse * SendMetadata) RouteError :=
  match journal with
  | Refuses => Err (RouteTransport (TRejected 413 "too large"))
  | Keeps size =>
    Ok (mkIngestResponse StatusOk (Some key) None None
          (DescriptorsDecoded [mkFileDescriptor "audio.flac" "audio.flac" size demo_sha "written"]),
        mkSendMetadata Direct 1)
  end.

#[local] Instance demo_upload_world : UploadWorld DemoWorld := {
  w_scan := λ w, (Ok (if dw_set_aside w || bool_decide (dw_files w = []) then [] else [demo_segment]), w);
  w_confirmed := demo_ok [];
  w_read_file := λ _ name w, (match demo_lookup name (dw_files w) with Some b => Ok b | None => Err NotFound end, w);
  w_list_entries := λ _ w,
    (Ok ((λ p, mkDirEntryFact p.1 true (Z.of_nat (String.length p.2))) <$> dw_files w), w);
  w_remove_entry := λ _ name w,
    (if is_some (demo_lookup name (dw_files w)) then Ok tt else Err NotFound, demo_drop name w);
  w_remove_dir := λ _, demo_ok tt;
  w_modified := λ _ _, demo_ok 0%Z;
  w_write_ack := λ _ _, demo_ok tt;
  w_quarantine := λ _ _ w, (Ok tt, mkDemoWorld (dw_files w) (dw_clock w) (dw_journal w) true);
  w_release_refused := λ _, demo_ok 0%Z;
  w_quarantined_media_dirs := λ w, (Ok (if dw_set_aside w then 1%Z else 0%Z), w);
  w_gate_open := mret true;
  w_journal_identity := mret (mkJournalIdentity "home" "aa" "bb");
  w_ingest := λ key _ _ _ _ w, (demo_answer (dw_journal w) key, w);
  w_list_segments := λ _, mret (Err (RouteTransport TNoEndpoint));
  w_refusal_stop := mret false;
  w_local_zone := λ _, demo_ok (mkLocalZone 0 None);
  w_monotonic_now := λ w,
    (dw_clock w, mkDemoWorld (dw_files w) (dw_clock w + 90000) (dw_journal w) (dw_set_aside w));
  w_instant := mret 0%Z;
  w_now_millis := mret 0%Z;
  w_elapsed_ms := mret 12%Z;
  w_exit := mret ExitRun;
  w_publish_refused := mret tt;
  w_publish_unknown_journals := mret tt;
  w_mark_disconnected := mret tt
}.

Definition demo_status : UploadStatus :=
  mkUploadStatus 0 0 0 0 0 0 0 0 0 None None None None 0 None None None None None.
Definition demo_world (journal : DemoJournal) : DemoWorld :=
  mkDemoWorld [("audio.flac", "four")]%string 1700000400 journal false.
Definition demo_run (journal : DemoJournal) (passes : nat) : Coordinator DemoWorld :=
  (for_each (seq 0 passes) (λ _, _ ← tick; mret tt) (new_coordinator (demo_world journal) demo_status 300)).2.

(** A full receipt: the file is gone after the pass, and the status says so. *)
Example kept_is_deleted :
  dw_files (co_world (demo_run (Keeps 4) 1)) = [] ∧ uploaded_segments (co_upload (demo_run (Keeps 4) 1)) = 1%Z ∧
  existsb (λ e, match e with EvRemove 7 "audio.flac" (Ok _) => true | _ => false end) (co_log (demo_run (Keeps 4) 1)) = true.
Proof. vm_compute. done. Qed.

(** A receipt for another size: nothing is deleted, however often it comes. *)
Example short_receipt_keeps :
  dw_files (co_world (demo_run (Keeps 3) 6)) = dw_files (demo_world Refuses) ∧
  invalid_receipts (co_upload (demo_run (Keeps 3) 6)) = 6%Z.
Proof. vm_compute. done. Qed.

(** Four refusals leave the segment in place, the fifth sets it aside. *)
Example fifth_refusal_sets_aside :
  dw_set_aside (co_world (demo_run Refuses 4)) = false ∧ dw_set_aside (co_world (demo_run Refuses 5)) = true ∧
  quarantined_segments (co_upload (demo_run Refuses 6)) = 1%Z ∧
  dw_files (co_world (demo_run Refuses 6)) = dw_files (demo_world Refuses).
Proof. vm_compute. done. Qed.

(** The bound that keeps a failure's text on one line. *)
Example one_line : bounded_single_line (" http_500" +:+ crlf +:+ "retry  later ") 14 = "http_500 retry"%string.
Proof. vm_compute. done. Qed.
