(* ===== verification/JournalLink.v ===== *)
(** * The presented journal link (crates/observer-model/src/journal_link.rs)

    [LinkPresenter] folds readings of the evidence into the link every surface
    shows. The clock is an argument; all times are u64 milliseconds. The
    theorems: connected is earned by an answer or held briefly on return, an
    evaluation before [next_change_ms] changes nothing, and evaluations at
    [next_change_ms] alone bring a silent journal to offline. *)
From S2P Require Import Prelude Model.

Local Open Scope list_scope.
Local Open Scope Z_scope.

Definition FOREGROUND_CHECK_SECS : Z := 15.
Definition BACKGROUND_CHECK_SECS : Z := 300.
Definition CHECK_TIMEOUT_SECS : Z := 5.
Definition DOWN_DWELL_MS : Z := 1000.
Definition OFFLINE_AFTER_MS : Z := 30000.
Definition RESUME_GRACE_MS : Z := 500.

Definition lease_ms (check_secs : Z) : Z := (check_secs + CHECK_TIMEOUT_SECS + 1) * 1000.

Record LinkInput : Type := mkLinkInput {
  li_up : bool;
  li_answered : option Z;
  li_lease_ms : Z;
  li_network : bool
}.

Record LinkPresenter : Type := mkLinkPresenter {
  lp_no_network : bool;
  lp_answered : option Z;
  lp_heard_at : option Z;
  lp_lease_ms : Z;
  lp_shown : option JournalLink;
  lp_last_shown : option JournalLink;
  lp_unreached_since : Z;
  lp_dropped_at : option Z;
  lp_hold_until : option Z
}.

Definition default_presenter : LinkPresenter :=
  mkLinkPresenter false None None 0 None None 0 None None.

(** [opt.is_some_and(|t| now < t)]. *)
Definition before (now : Z) (t : option Z) : bool := from_option (λ t, now <? t) false t.

Definition fresh_until (p : LinkPresenter) : option Z := (λ at_, sat_add_u64 at_ (lp_lease_ms p)) <$> lp_heard_at p.
Definition fresh (p : LinkPresenter) (now_ms : Z) : bool := before now_ms (fresh_until p).
Definition dwell_until (p : LinkPresenter) : option Z := (λ at_, sat_add_u64 at_ DOWN_DWELL_MS) <$> lp_dropped_at p.

(** The answer stamp and the lease it earns. *)
Definition take_answer (input : LinkInput) (now_ms : Z) (p : LinkPresenter) : LinkPresenter :=
  if bool_decide (li_answered input = lp_answered p) then
    mkLinkPresenter (lp_no_network p) (lp_answered p) (lp_heard_at p) (Z.max (lp_lease_ms p) (li_lease_ms input))
      (lp_shown p) (lp_last_shown p) (lp_unreached_since p) (lp_dropped_at p) (lp_hold_until p)
  else
    mkLinkPresenter (lp_no_network p) (li_answered input) ((λ _, now_ms) <$> li_answered input) (li_lease_ms input)
      (lp_shown p) (lp_last_shown p) (lp_unreached_since p) (lp_dropped_at p) (lp_hold_until p).

Definition set_no_network (b : bool) (p : LinkPresenter) : LinkPresenter :=
  mkLinkPresenter b (lp_answered p) (lp_heard_at p) (lp_lease_ms p) (lp_shown p) (lp_last_shown p)
    (lp_unreached_since p) (lp_dropped_at p) (lp_hold_until p).
Definition set_shown (s last : option JournalLink) (p : LinkPresenter) : LinkPresenter :=
  mkLinkPresenter (lp_no_network p) (lp_answered p) (lp_heard_at p) (lp_lease_ms p) s last
    (lp_unreached_since p) (lp_dropped_at p) (lp_hold_until p).
Definition set_waits (unreached : Z) (dropped hold : option Z) (p : LinkPresenter) : LinkPresenter :=
  mkLinkPresenter (lp_no_network p) (lp_answered p) (lp_heard_at p) (lp_lease_ms p) (lp_shown p) (lp_last_shown p)
    unreached dropped hold.

(** A new episode, or the network's return. *)
Definition enter_episode (network_back : bool) (now_ms : Z) (p : LinkPresenter) : LinkPresenter :=
  if bool_decide (lp_shown p = None) then
    set_waits now_ms None
      (if bool_decide (lp_last_shown p = Some Connected) && negb (fresh p now_ms)
       then Some (sat_add_u64 now_ms RESUME_GRACE_MS) else None) p
  else if network_back then set_waits now_ms (lp_dropped_at p) (lp_hold_until p) p
  else p.

(** The decision; the presenter's marks of a drop or a hold's end. *)
Definition decide_link (network : bool) (now_ms : Z) (p : LinkPresenter) : JournalLink * LinkPresenter :=
  let is_fresh := fresh p now_ms in
  let dwelling := before now_ms (dwell_until p) in
  let holding := negb is_fresh && network && before now_ms (lp_hold_until p) in
  if (is_fresh && negb dwelling) || holding then
    (Connected, if is_fresh then set_waits (lp_unreached_since p) (lp_dropped_at p) None p else p)
  else
    let p := if bool_decide (lp_shown p = Some Connected)
             then set_waits now_ms (Some now_ms) (lp_hold_until p) p else p in
    (if negb network || (OFFLINE_AFTER_MS <=? sat_sub now_ms (lp_unreached_since p)) then Offline else Connecting, p).

Definition present (input : LinkInput) (now_ms : Z) (p : LinkPresenter) : option JournalLink * LinkPresenter :=
  let p := take_answer input now_ms p in
  let network_back := li_network input && lp_no_network p in
  let p := set_no_network (negb (li_network input)) p in
  if negb (li_up input) then (None, set_shown None (lp_last_shown p) p)
  else
    let '(next, p) := decide_link (li_network input) now_ms (enter_episode network_back now_ms p) in
    (Some next, set_shown (Some next) (Some next) p).

(** [into_iter().flatten().filter(|at| *at > now_ms).min()]. *)
Definition least_after (now_ms : Z) (ts : list (option Z)) : option Z :=
  foldr (λ t acc, match t with
                  | Some t => if now_ms <? t then Some (from_option (Z.min t) t acc) else acc
                  | None => acc
                  end) None ts.

Definition only_if (b : bool) (t : option Z) : option Z := if b then t else None.

Definition next_change_ms (now_ms : Z) (p : LinkPresenter) : option Z :=
  match lp_shown p with
  | None => None
  | Some shown =>
    least_after now_ms
      [lp_hold_until p;
       only_if (bool_decide (shown = Connected)) (fresh_until p);
       only_if (bool_decide (shown ≠ Connected)) (dwell_until p);
       only_if (bool_decide (shown = Connecting)) (Some (sat_add_u64 (lp_unreached_since p) OFFLINE_AFTER_MS))]
  end.

(** ** Traces *)

(** Readings in the order they were taken. *)
Definition Reading : Type := LinkInput * Z.
Definition take_reading (p : LinkPresenter) (r : Reading) : LinkPresenter := (present r.1 r.2 p).2.
Definition after (readings : list Reading) : LinkPresenter := foldl take_reading default_presenter readings.

(** The readings of [FOREGROUND_CHECK_SECS]: an answer, silence, and the
    link a reading each second shows. *)
Definition foreground (answered : option Z) : LinkInput := mkLinkInput true answered (lease_ms FOREGROUND_CHECK_SECS) true.
Definition shows (readings : list Reading) : option JournalLink := lp_shown (after readings).

Example first_answer_connects :
  shows [(foreground None, 0); (foreground None, 3000)] = Some Connecting ∧
  shows [(foreground None, 0); (foreground (Some 1), 3400)] = Some Connected.
Proof. done. Qed.

Example lease_runs_out :
  shows [(foreground (Some 1), 0); (foreground (Some 1), 20999)] = Some Connected ∧
  shows [(foreground (Some 1), 0); (foreground (Some 1), 21000)] = Some Connecting ∧
  shows [(foreground (Some 1), 0); (foreground (Some 1), 21000); (foreground (Some 1), 51000)] = Some Offline.
Proof. done. Qed.

(** The network lost and found within the grace after a return: connected is
    back 100 ms after it dropped, although a drop is otherwise shown for
    [DOWN_DWELL_MS]. *)
Definition resumed (network : bool) : LinkInput := mkLinkInput true (Some 1) (lease_ms FOREGROUND_CHECK_SECS) network.
Example grace_cuts_the_dwell_short :
  let start := [(foreground (Some 1), 0); (mkLinkInput false (Some 1) 21000 true, 1000); (resumed true, 60000)] in
  shows start = Some Connected ∧ shows (start ++ [(resumed false, 60100)]) = Some Offline ∧
  shows (start ++ [(resumed false, 60100); (resumed true, 60200)]) = Some Connected.
Proof. done. Qed.

(** ** The deadlines *)

Lemma least_after_None now ts t : least_after now ts = None → Some t ∈ ts → t ≤ now.
Proof.
  induction ts as [|[y|] ts IH]; cbn; [set_solver| |set_solver].
  destruct (Z.ltb_spec now y); [done|]. intros ? [[= ->]|?]%elem_of_cons; [done|by apply IH].
Qed.

Lemma least_after_Some now ts u :
  least_after now ts = Some u → Some u ∈ ts ∧ now < u ∧ ∀ t, Some t ∈ ts → now < t → u ≤ t.
Proof.
  revert u. induction ts as [|[t|] ts IH]; intros u; cbn [least_after foldr]; [done| |].
  2:{ intros (?&?&Hall)%IH. split_and!; [set_solver|done|]. intros t [?|?]%elem_of_cons; [done|by apply Hall]. }
  change (foldr _ None ts) with (least_after now ts). destruct (Z.ltb_spec now t) as [Ht|Ht].
  - intros [= <-]. destruct (least_after now ts) as [v|] eqn:Hv; unfold from_option.
    + destruct (IH v eq_refl) as (Hin & Hlt & Hall). split_and!.
      * destruct (Z.min_spec t v) as [[_ ->]|[_ ->]]; set_solver.
      * lia.
      * intros x [[= ->]|Hx]%elem_of_cons Hlx; [lia|]. specialize (Hall x Hx Hlx). lia.
    + split_and!; [set_solver|done|]. intros x [[= ->]|Hx]%elem_of_cons Hlx; [lia|].
      pose proof (least_after_None _ _ _ Hv Hx). lia.
  - intros (?&?&Hall)%IH. split_and!; [set_solver|done|]. intros x [[= ->]|?]%elem_of_cons ?; [lia|by apply Hall].
Qed.

(** [t'] comes before every deadline of [p] later than [t]. *)
Definition undisturbed (t t' : Z) (p : LinkPresenter) : Prop :=
  match next_change_ms t p with Some u => t' < u | None => True end.

Lemma before_spec now t : before now t = true ↔ ∃ x, t = Some x ∧ now < x.
Proof.
  destruct t as [x|]; cbn; [|naive_solver]. rewrite Z.ltb_lt. naive_solver.
Qed.

Lemma before_later now now' t : now ≤ now' → before now t = false → before now' t = false.
Proof. destruct t as [x|]; cbn; [|done]. rewrite !Z.ltb_ge. lia. Qed.

(** What each deadline says of a later, undisturbed instant. *)
Lemma undisturbed_before t t' p x link :
  undisturbed t t' p → lp_shown p = Some link → before t x = true →
  x ∈ [lp_hold_until p; only_if (bool_decide (link = Connected)) (fresh_until p);
       only_if (bool_decide (link ≠ Connected)) (dwell_until p);
       only_if (bool_decide (link = Connecting)) (Some (sat_add_u64 (lp_unreached_since p) OFFLINE_AFTER_MS))] →
  before t' x = true.
Proof.
  unfold undisturbed, next_change_ms. intros Hu Hs (y & -> & Hy)%before_spec Hin. rewrite Hs in Hu. apply before_spec.
  exists y. split; [done|]. destruct (least_after _ _) as [u|] eqn:Hl.
  - apply least_after_Some in Hl as (_ & _ & Hall). specialize (Hall y Hin Hy). lia.
  - pose proof (least_after_None _ _ _ Hl Hin). lia.
Qed.

(** ** The invariant of a run *)

(** With one cadence and a clock that never runs back: what the presenter
    remembers lies in the past, and a hold ends no later than an answer that
    is still fresh. *)
Record link_inv (lease now : Z) (p : LinkPresenter) : Prop := {
  li_heard : ∀ a, lp_heard_at p = Some a → 0 ≤ a ≤ now ∧ lp_lease_ms p = lease;
  li_unreached : 0 ≤ lp_unreached_since p ≤ now;
  li_dropped : ∀ a, lp_dropped_at p = Some a → 0 ≤ a ≤ now;
  li_hold_soon : ∀ h, lp_hold_until p = Some h → h ≤ sat_add_u64 now RESUME_GRACE_MS;
  li_hold_fresh : ∀ h f, lp_hold_until p = Some h → fresh_until p = Some f → now < f → h ≤ f
}.

Lemma sat_add_mono a a' b b' : a ≤ a' → b ≤ b' → sat_add_u64 a b ≤ sat_add_u64 a' b'.
Proof. widths. Qed.

Lemma link_inv_later lease now now' p : now ≤ now' → link_inv lease now p → link_inv lease now' p.
Proof.
  intros Hle [H1 H2 H3 H4 H5]. split.
  - intros a Ha. destruct (H1 a Ha). split; [lia|done].
  - lia.
  - intros a Ha. specialize (H3 a Ha). lia.
  - intros h Hh. specialize (H4 h Hh). pose proof (sat_add_mono now now' RESUME_GRACE_MS RESUME_GRACE_MS). lia.
  - intros h f Hh Hf ?. apply H5; [done..|lia].
Qed.

Lemma link_inv_default lease now : 0 ≤ now → link_inv lease now default_presenter.
Proof. split; cbn; try done; lia. Qed.

Lemma link_inv_take_answer lease now input p :
  RESUME_GRACE_MS ≤ lease → li_lease_ms input = lease → 0 ≤ now → link_inv lease now p →
  link_inv lease now (take_answer input now p).
Proof.
  intros Hgrace Hl Hnow [H1 H2 H3 H4 H5]. unfold take_answer. case_bool_decide as Hs.
  - split; cbn; try done.
    + intros a Ha. destruct (H1 a Ha). lia.
    + unfold fresh_until in *. cbn. intros h f Hh (a & Ha & ->)%fmap_Some Hlt. destruct (H1 a Ha) as [? Hla].
      rewrite Hla, Hl, Z.max_id in *. eapply H5; [done|by rewrite Ha|done].
  - split; cbn; try done.
    + intros a (x & _ & ->)%fmap_Some. lia.
    + unfold fresh_until. cbn. intros h f Hh (a & (x & _ & ->)%fmap_Some & ->)%fmap_Some ?. specialize (H4 h Hh).
      pose proof (sat_add_mono now now RESUME_GRACE_MS (li_lease_ms input)). lia.
Qed.

Lemma link_inv_set_no_network lease now b p : link_inv lease now p → link_inv lease now (set_no_network b p).
Proof. by intros []. Qed.
Lemma link_inv_set_shown lease now s l p : link_inv lease now p → link_inv lease now (set_shown s l p).
Proof. by intros []. Qed.

Lemma link_inv_enter_episode lease now b p :
  0 ≤ now → link_inv lease now p → link_inv lease now (enter_episode b now p).
Proof.
  intros Hnow [H1 H2 H3 H4 H5]. unfold enter_episode. case_bool_decide.
  - split; cbn; try done; try lia.
    + intros h. case_bool_decide; [|done]. destruct (fresh p now); [done|]. by intros [= <-].
    + intros h f. destruct (fresh p now) eqn:Hf; [by rewrite andb_false_r|]. intros _ Hu ?.
      unfold fresh in Hf. change (fresh_until p = Some f) in Hu. rewrite Hu in Hf. cbn in Hf.
      apply Z.ltb_ge in Hf. lia.
  - destruct b; split; cbn; try done; lia.
Qed.

Lemma link_inv_decide lease now net p : 0 ≤ now → link_inv lease now p → link_inv lease now (decide_link net now p).2.
Proof.
  intros Hnow [H1 H2 H3 H4 H5]. unfold decide_link. cbv zeta. destruct (_ || _).
  - destruct (fresh p now); split; done.
  - case_bool_decide; split; cbn; try done; try lia. intros a [= <-]. lia.
Qed.

Lemma link_inv_present lease now input p :
  RESUME_GRACE_MS ≤ lease → li_lease_ms input = lease → 0 ≤ now → link_inv lease now p →
  link_inv lease now (present input now p).2.
Proof.
  intros ? ? ? Hp. unfold present. cbv zeta.
  assert (Hp1 : link_inv lease now (set_no_network (negb (li_network input)) (take_answer input now p)))
    by (by apply link_inv_set_no_network, link_inv_take_answer).
  destruct (li_up input); cbn [negb]; [|by apply link_inv_set_shown].
  apply (link_inv_enter_episode _ _ (li_network input && lp_no_network (take_answer input now p))) in Hp1; [|done].
  apply (link_inv_decide _ _ (li_network input)) in Hp1; [|done].
  destruct (decide_link _ _ _) as [next p']. by apply link_inv_set_shown.
Qed.

(** ** Early evaluations change nothing *)

Lemma decide_stable_connected net t t' p :
  t ≤ t' → (fresh p t && negb (before t (dwell_until p))) || (negb (fresh p t) && net && before t (lp_hold_until p)) = true →
  let q := set_shown (Some Connected) (Some Connected)
             (if fresh p t then set_waits (lp_unreached_since p) (lp_dropped_at p) None p else p) in
  undisturbed t t' q → decide_link net t' q = (Connected, q).
Proof.
  intros Ht Hc q Hu. unfold decide_link. cbv zeta.
  assert (Hfq : ∀ x, fresh q x = fresh p x) by (intros x; unfold q; by destruct (fresh p t)).
  destruct (fresh p t) eqn:Hf; cbn [negb andb orb] in Hc.
  - rewrite orb_false_r, negb_true_iff in Hc.
    assert (Hf' : fresh q t' = true) by (apply (undisturbed_before t t' q _ Connected); [done..|set_solver]).
    rewrite Hf'. change (dwell_until q) with (dwell_until p). by rewrite (before_later t t').
  - apply andb_true_iff in Hc as [-> Hh].
    assert (Hh' : before t' (lp_hold_until q) = true) by (apply (undisturbed_before t t' q _ Connected); [done..|set_solver]).
    assert (Hf' : fresh q t' = false) by (rewrite Hfq; by apply (before_later t t')).
    by rewrite Hf', Hh'.
Qed.

Lemma sat_add_ge a b x : a + b ≤ u64_max → sat_add_u64 a b ≤ x ↔ a + b ≤ x.
Proof. widths. Qed.

(** The part of the decision after a drop was marked. *)
Lemma decide_stable_down lease net t t' p next :
  t + OFFLINE_AFTER_MS ≤ u64_max → t ≤ t' → link_inv lease t p →
  (fresh p t = true → before t (dwell_until p) = true) → negb (fresh p t) && net && before t (lp_hold_until p) = false →
  next = (if negb net || (OFFLINE_AFTER_MS <=? sat_sub t (lp_unreached_since p)) then Offline else Connecting) →
  let q := set_shown (Some next) (Some next) p in
  undisturbed t t' q → decide_link net t' q = (next, q).
Proof.
  intros Hmax Ht Hinv Hdw Hhold Hnext q Hu.
  assert (Hne : next ≠ Connected) by (rewrite Hnext; by destruct (_ || _)).
  assert (Hdw' : before t (dwell_until p) = true → before t' (dwell_until q) = true).
  { intros Hd. apply (undisturbed_before t t' q _ next); [done..|]. rewrite (bool_decide_true (next ≠ Connected)) by done. set_solver. }
  assert (Hhold' : negb (fresh q t') && net && before t' (lp_hold_until q) = false).
  { destruct net; [|by rewrite andb_false_r]. rewrite andb_true_r in *. change (fresh q t') with (fresh p t').
    change (lp_hold_until q) with (lp_hold_until p). destruct (fresh p t) eqn:Hf; cbn [negb andb] in Hhold.
    - destruct (fresh p t') eqn:Hf'; [done|]. cbn [negb andb]. destruct (lp_hold_until p) as [h|] eqn:Hh; [|done].
      apply before_spec in Hf as (f & Hf & Hlt). pose proof (li_hold_fresh _ _ _ Hinv h f Hh Hf Hlt).
      unfold fresh in Hf'. rewrite Hf in Hf'. cbn in *. rewrite Z.ltb_ge in *. lia.
    - by rewrite (before_later t t' (lp_hold_until p)), andb_false_r. }
  unfold decide_link. cbv zeta. rewrite Hhold', orb_false_r.
  replace (fresh q t' && negb (before t' (dwell_until q))) with false.
  2:{ destruct (fresh q t') eqn:Hf'; [|done]. rewrite Hdw'; [done|]. apply Hdw.
      destruct (fresh p t) eqn:Hf; [done|]. change (before t' (fresh_until p) = true) in Hf'.
      by rewrite (before_later t t' _ Ht Hf) in Hf'. }
  rewrite (bool_decide_false (lp_shown q = Some Connected)) by (cbn; congruence). f_equal.
  destruct net; cbn [negb orb] in *; [|done]. pose proof (li_unreached _ _ _ Hinv).
  change (lp_unreached_since q) with (lp_unreached_since p).
  destruct (Z.leb_spec OFFLINE_AFTER_MS (sat_sub t (lp_unreached_since p))) as [Hoff|Hoff]; subst next.
  - rewrite (proj2 (Z.leb_le _ _)); [done|]. unfold sat_sub in *. lia.
  - rewrite (proj2 (Z.leb_gt _ _)); [done|].
    assert (Hb : before t' (Some (sat_add_u64 (lp_unreached_since p) OFFLINE_AFTER_MS)) = true).
    { apply (undisturbed_before t t' q _ Connecting); [done..| |set_solver]. cbn. apply Z.ltb_lt.
      apply Z.nle_gt. rewrite sat_add_ge by lia. unfold sat_sub in *. lia. }
    cbn in Hb. apply Z.ltb_lt in Hb. apply Z.nle_gt in Hb. rewrite sat_add_ge in Hb by lia.
    unfold sat_sub, OFFLINE_AFTER_MS in *. lia.
Qed.

Lemma decide_stable lease net t t' p :
  0 ≤ t → t + OFFLINE_AFTER_MS ≤ u64_max → t ≤ t' → link_inv lease t p →
  let r := decide_link net t p in
  let q := set_shown (Some r.1) (Some r.1) r.2 in
  undisturbed t t' q → decide_link net t' q = (r.1, q).
Proof.
  intros Ht0 Hmax Ht Hinv. cbv zeta. destruct (decide_link net t p) as [next p'] eqn:Hd. cbn [fst snd].
  revert Hd. unfold decide_link at 1. cbv zeta.
  destruct ((fresh p t && _) || _) eqn:Hc.
  { intros [= <- <-]. by apply decide_stable_connected. }
  apply orb_false_iff in Hc as [Hc Hhold].
  assert (Hdw : fresh p t = true → before t (dwell_until p) = true).
  { intros Hf. rewrite Hf in Hc. cbn in Hc. by apply negb_false_iff in Hc. }
  destruct (bool_decide (lp_shown p = Some Connected)); intros [= <- <-]; [|by eapply decide_stable_down].
  eapply decide_stable_down; [done|done| | |done|done].
  - pose proof Hinv as [H1 H2 H3 H4 H5]. split; cbn; try done; try lia. intros a [= <-]. lia.
  - intros _. cbn. apply Z.ltb_lt, Z.nle_gt. unfold DOWN_DWELL_MS, OFFLINE_AFTER_MS in *. rewrite sat_add_ge by lia. lia.
Qed.

(** A reading repeated: only the decision is taken again. *)
Lemma present_shown input now q next :
  li_up input = true → li_answered input = lp_answered q → li_lease_ms input ≤ lp_lease_ms q →
  lp_no_network q = negb (li_network input) → lp_shown q = Some next →
  present input now q =
    (let '(next, q') := decide_link (li_network input) now q in (Some next, set_shown (Some next) (Some next) q')).
Proof.
  intros Hup Ha Hl Hn Hs. unfold present. cbv zeta.
  assert (Htake : take_answer input now q = q).
  { unfold take_answer. rewrite bool_decide_true by done. rewrite Z.max_l by done. by destruct q. }
  rewrite Htake, Hup, Hn, andb_negb_r. cbn [negb]. rewrite <-Hn.
  assert (Hnet : set_no_network (lp_no_network q) q = q) by (by destruct q). rewrite Hnet.
  unfold enter_episode. by rewrite bool_decide_false by congruence.
Qed.

Lemma take_answer_answered input now p :
  lp_answered (take_answer input now p) = li_answered input ∧ li_lease_ms input ≤ lp_lease_ms (take_answer input now p).
Proof. unfold take_answer. case_bool_decide as Hs; cbn; split; done || lia. Qed.

Lemma decide_keeps net now p :
  let q := (decide_link net now p).2 in
  lp_answered q = lp_answered p ∧ lp_heard_at q = lp_heard_at p ∧ lp_lease_ms q = lp_lease_ms p ∧
  lp_no_network q = lp_no_network p.
Proof.
  unfold decide_link. cbv zeta. destruct (_ || _); [by destruct (fresh p now)|by case_bool_decide].
Qed.

Lemma enter_keeps b now p :
  let q := enter_episode b now p in
  lp_answered q = lp_answered p ∧ lp_heard_at q = lp_heard_at p ∧ lp_lease_ms q = lp_lease_ms p ∧
  lp_no_network q = lp_no_network p.
Proof. unfold enter_episode. cbv zeta. case_bool_decide; [done|]. by destruct b. Qed.

(** What a reading leaves of its input. *)
Lemma present_keeps input now p :
  let q := (present input now p).2 in
  lp_answered q = li_answered input ∧ li_lease_ms input ≤ lp_lease_ms q ∧ lp_no_network q = negb (li_network input) ∧
  lp_shown q = (present input now p).1 ∧ (lp_shown q = None ↔ li_up input = false).
Proof.
  cbv zeta. destruct (take_answer_answered input now p) as [Ha Hl]. unfold present. cbv zeta.
  destruct (li_up input); cbn [negb]; [|by split_and!].
  destruct (decide_link _ _ _) as [next q] eqn:Hd. cbn [fst snd].
  pose proof (decide_keeps (li_network input) now (enter_episode (li_network input && lp_no_network (take_answer input now p))
    now (set_no_network (negb (li_network input)) (take_answer input now p)))) as Hk. rewrite Hd in Hk.
  cbn [snd] in Hk. destruct Hk as (Ha1 & _ & Hl1 & Hn1).
  destruct (enter_keeps (li_network input && lp_no_network (take_answer input now p)) now
    (set_no_network (negb (li_network input)) (take_answer input now p))) as (Ha2 & _ & Hl2 & Hn2).
  cbn in Ha2, Hl2, Hn2. cbn. rewrite Ha1, Hl1, Hn1, Ha2, Hl2, Hn2. by split_and!.
Qed.

(** The presenter after readings under one cadence, with a clock that never
    runs back; [now] is the time of the last. *)
Inductive reaches (lease : Z) : Z → LinkPresenter → Prop :=
| reaches_start : reaches lease 0 default_presenter
| reaches_reading input now now' p :
    reaches lease now p → now ≤ now' → li_lease_ms input = lease → reaches lease now' (present input now' p).2.

Lemma reaches_inv lease now p : RESUME_GRACE_MS ≤ lease → reaches lease now p → 0 ≤ now ∧ link_inv lease now p.
Proof.
  intros Hl. induction 1 as [|input now now' p _ [Hnow Hp] Hle Hin]; [split; [done|by apply link_inv_default]|].
  split; [lia|]. apply link_inv_present; [done..|lia|by eapply link_inv_later].
Qed.

Lemma present_up input now p :
  li_up input = true →
  let p1 := enter_episode (li_network input && lp_no_network (take_answer input now p)) now
              (set_no_network (negb (li_network input)) (take_answer input now p)) in
  let r := decide_link (li_network input) now p1 in
  present input now p = (Some r.1, set_shown (Some r.1) (Some r.1) r.2).
Proof. intros Hup. unfold present. cbv zeta. rewrite Hup. cbn [negb]. by destruct (decide_link _ _ _). Qed.

Lemma present_down input now q :
  li_up input = false → lp_shown q = None → li_answered input = lp_answered q → li_lease_ms input ≤ lp_lease_ms q →
  lp_no_network q = negb (li_network input) → present input now q = (None, q).
Proof.
  intros Hup Hs Ha Hl Hn. unfold present, take_answer. cbv zeta. rewrite Hup, bool_decide_true, Z.max_l by done. cbn [negb].
  f_equal. destruct q. cbn in *. unfold set_shown, set_no_network. cbn. congruence.
Qed.

(** C19. Early evaluations change nothing. As long as the check cadence, and so
    the lease, has been the same over the whole history and still is (see
    [new_cadence_escapes_the_deadline] for a change of cadence), and no new
    evidence arrives, evaluating the link at any instant
    before the one [next_change_ms] announced shows the same link and leaves
    the presenter exactly as it was, so evaluating only at the announced
    instants is equivalent to polling. The clock never runs back and is not
    within 30 seconds of its end. *)
Theorem early_evaluation_changes_nothing (lease now0 now now' : Z) (input : LinkInput) (p : LinkPresenter) :
  RESUME_GRACE_MS ≤ lease → reaches lease now0 p → now0 ≤ now → li_lease_ms input = lease →
  now + OFFLINE_AFTER_MS ≤ u64_max → now ≤ now' →
  undisturbed now now' (present input now p).2 →
  present input now' (present input now p).2 = present input now p.
Proof.
  intros Hl Hr Hn0 Hin Hmax Hn' Hu. destruct (reaches_inv _ _ _ Hl Hr) as [H0 Hinv].
  apply (link_inv_later _ _ now) in Hinv; [|done].
  destruct (present_keeps input now p) as (Ha & Hle & Hnet & Hs & Hup).
  destruct (li_up input) eqn:Hui.
  - assert (Hsome : is_Some (lp_shown (present input now p).2)) by (apply not_eq_None_Some; rewrite Hup; done).
    destruct Hsome as [next Hnext]. rewrite (present_shown _ _ _ next) by done.
    rewrite (present_up _ _ _ Hui) in *. cbv zeta in *. cbn [snd] in *.
    rewrite (decide_stable lease); [done|lia|done|done| |done].
    apply link_inv_enter_episode; [lia|]. by apply link_inv_set_no_network, link_inv_take_answer; [..|lia|].
  - assert (Hnone : lp_shown (present input now p).2 = None) by (by apply Hup).
    rewrite present_down by done. rewrite Hs in Hnone. rewrite <-Hnone. by destruct (present input now p).
Qed.

Lemma early_evaluation_changes_nothing_witness :
  present (foreground (Some 1)) 51999 (present (foreground (Some 1)) 31000 (after [(foreground (Some 1), 31000)])).2 =
  present (foreground (Some 1)) 31000 (after [(foreground (Some 1), 31000)]).
Proof.
  apply (early_evaluation_changes_nothing 21000 31000); try done.
  by apply (reaches_reading 21000 (foreground (Some 1)) 0 31000); [apply reaches_start|..].
Defined.

(** A new cadence can make an old answer fresh again for less than the hold
    on return lasts: here the link changes at 306000, before the announced
    306200. *)
Definition battery (network : bool) : LinkInput := mkLinkInput true (Some 1) (lease_ms BACKGROUND_CHECK_SECS) network.
Example new_cadence_escapes_the_deadline :
  let start := [(foreground (Some 1), 0); (mkLinkInput false (Some 1) 21000 true, 1000); (resumed true, 305700);
                (resumed false, 305800); (battery true, 305900)] in
  shows start = Some Connecting ∧ next_change_ms 305900 (after start) = Some 306200 ∧
  shows (start ++ [(battery true, 306000)]) = Some Connected.
Proof. done. Qed.

(** ** Connected is earned *)

Definition stamp (rs : list Reading) : option Z := last rs ≫= (λ r, li_answered r.1).

(** The reading at [a] brought the answer that is still the last one. *)
Definition answered_at (rs : list Reading) (a : Z) : Prop :=
  ∃ pre input post, rs = pre ++ (input, a) :: post ∧ li_answered input ≠ stamp pre ∧ is_Some (li_answered input) ∧
    Forall (λ r, li_answered r.1 = li_answered input) post.

(** The readings were up since [e], and before a stretch that was not up the
    link was shown connected. *)
Definition returned_at (rs : list Reading) (e : Z) : Prop :=
  ∃ earlier away input post, rs = earlier ++ away ++ (input, e) :: post ∧ shows earlier = Some Connected ∧
    away ≠ [] ∧ Forall (λ r, li_up r.1 = false) away ∧ Forall (λ r, li_up r.1 = true) ((input, e) :: post).

Record told (lease : Z) (rs : list Reading) (p : LinkPresenter) : Prop := {
  told_stamp : lp_answered p = stamp rs;
  told_heard : ∀ a, lp_heard_at p = Some a → answered_at rs a ∧ is_Some (lp_answered p);
  told_lease : lp_lease_ms p ≤ lease;
  told_hold : ∀ h, lp_hold_until p = Some h →
    lp_shown p = None ∨ ∃ e, returned_at rs e ∧ h = sat_add_u64 e RESUME_GRACE_MS;
  told_last : lp_last_shown p = Some Connected →
    ∃ earlier away, rs = earlier ++ away ∧ shows earlier = Some Connected ∧ Forall (λ r, li_up r.1 = false) away
}.

Lemma answered_at_snoc rs a r : answered_at rs a → li_answered r.1 = stamp rs → answered_at (rs ++ [r]) a.
Proof.
  intros (pre & input & post & -> & Hne & Hs & Hall) Hr. exists pre, input, (post ++ [r]).
  rewrite <-app_assoc. split_and!; try done. apply Forall_app. split; [done|]. apply Forall_singleton. rewrite Hr.
  unfold stamp. destruct (exists_last (l := (input, a) :: post)) as (l & x & Hx); [done|].
  rewrite Hx, app_assoc, last_snoc. cbn.
  assert (x ∈ (input, a) :: post) as [->|Hin]%elem_of_cons by (rewrite Hx; set_solver); [done|].
  rewrite Forall_forall in Hall. by apply Hall.
Qed.

Lemma returned_at_snoc rs e r : returned_at rs e → li_up r.1 = true → returned_at (rs ++ [r]) e.
Proof.
  intros (earlier & away & input & post & -> & ? & ? & ? & ?) Hr. exists earlier, away, input, (post ++ [r]).
  rewrite <-!app_assoc. split_and!; try done. rewrite app_comm_cons. apply Forall_app. split; [done|by apply Forall_singleton].
Qed.

Lemma after_snoc rs r : after (rs ++ [r]) = take_reading (after rs) r.
Proof. unfold after. by rewrite foldl_app. Qed.

(** The answer part of a reading. *)
Lemma told_answer lease rs input now p :
  li_lease_ms input ≤ lease → told lease rs p →
  let p1 := take_answer input now p in
  lp_lease_ms p1 ≤ lease ∧
  ∀ a, lp_heard_at p1 = Some a → answered_at (rs ++ [(input, now)]) a ∧ is_Some (li_answered input).
Proof.
  intros Hl [H1 H2 H3 _ _]. unfold take_answer. cbv zeta. case_bool_decide as Hs; cbn.
  - split; [lia|]. intros a Ha. destruct (H2 a Ha) as [Hat Hsome]. rewrite Hs. split; [|done].
    apply answered_at_snoc; [done|]. cbn. congruence.
  - split; [done|]. intros a (x & Hx & ->)%fmap_Some. rewrite Hx. split; [|done].
    exists rs, input, []. rewrite <-H1, Hx. split_and!; done || congruence.
Qed.

(** The hold after a reading: none, the one it had, or that of a return. *)
Lemma present_hold input now p h :
  li_up input = true → lp_hold_until (present input now p).2 = Some h →
  (lp_shown p ≠ None ∧ lp_hold_until p = Some h) ∨
  (lp_shown p = None ∧ lp_last_shown p = Some Connected ∧ h = sat_add_u64 now RESUME_GRACE_MS).
Proof.
  intros Hup. rewrite present_up by done. cbv zeta. cbn [snd].
  set (p1 := set_no_network _ (take_answer input now p)).
  assert (Hp1 : lp_shown p1 = lp_shown p ∧ lp_last_shown p1 = lp_last_shown p ∧ lp_hold_until p1 = lp_hold_until p).
  { unfold p1, take_answer. by case_bool_decide. }
  destruct Hp1 as (Hs & Hls & Hh). clearbody p1. set (b := _ && _). clearbody b.
  set (p2 := enter_episode b now p1). intros Hq.
  assert (Hq2 : lp_hold_until p2 = Some h).
  { revert Hq. unfold decide_link. cbv zeta. destruct (_ || _); [by destruct (fresh p2 now)|by case_bool_decide]. }
  revert Hq2. unfold p2, enter_episode. rewrite Hs, Hls, Hh. case_bool_decide.
  - cbn. case_bool_decide; [|done]. destruct (fresh p1 now); [done|]. intros [= <-]. by right.
  - destruct b; cbn; [|rewrite Hh]; by left.
Qed.

Lemma present_last input now p :
  lp_last_shown (present input now p).2 =
    if li_up input then (present input now p).1 else lp_last_shown p.
Proof.
  unfold present, take_answer. cbv zeta. destruct (li_up input); cbn [negb]; [by destruct (decide_link _ _ _)|].
  by case_bool_decide.
Qed.

Lemma told_reading lease rs r :
  li_lease_ms r.1 ≤ lease → told lease rs (after rs) → told lease (rs ++ [r]) (after (rs ++ [r])).
Proof.
  intros Hl Hp. rewrite after_snoc. unfold take_reading. destruct r as [input now]. cbn [fst snd] in *.
  destruct (told_answer lease rs input now (after rs) Hl Hp) as [Hl1 Hh1].
  destruct (present_keeps input now (after rs)) as (Ha & _ & _ & Hs & Hup).
  assert (Hheard : lp_heard_at (present input now (after rs)).2 = lp_heard_at (take_answer input now (after rs)) ∧
                   lp_lease_ms (present input now (after rs)).2 = lp_lease_ms (take_answer input now (after rs))).
  { unfold present. cbv zeta. destruct (li_up input); cbn [negb]; [|done].
    match goal with |- context [decide_link ?n ?t ?q] => pose proof (decide_keeps n t q) as Hk; destruct (decide_link n t q) as [next p2] end.
    cbn [snd] in *. destruct Hk as (_ & Hk1 & Hk2 & _). cbn. rewrite Hk1, Hk2.
    match goal with |- context [enter_episode ?b ?t ?q] => destruct (enter_keeps b t q) as (_ & He1 & He2 & _) end.
    by rewrite He1, He2. }
  destruct Hheard as [Hh2 Hl2]. split.
  - rewrite Ha. unfold stamp. by rewrite last_snoc.
  - intros a Haa. rewrite Hh2 in Haa. rewrite Ha. by apply Hh1.
  - by rewrite Hl2.
  - intros h Hh. destruct (li_up input) eqn:Hui; [right|left; by apply Hup].
    destruct (present_hold _ _ _ _ Hui Hh) as [[Hsh Hho]|(Hsh & Hls & ->)].
    + destruct (told_hold _ _ _ Hp h Hho) as [?|(e & He & ->)]; [done|]. exists e. split; [by apply returned_at_snoc|done].
    + exists now. split; [|done]. destruct (told_last _ _ _ Hp Hls) as (earlier & away & Hrs & Hc & Haw).
      exists earlier, away, input, []. rewrite Hrs, <-app_assoc. split_and!; try done.
      * intros ->. rewrite app_nil_r in Hrs. unfold shows in Hc. congruence.
      * by apply Forall_singleton.
  - rewrite present_last. destruct (li_up input) eqn:Hui.
    + intros Hc. exists (rs ++ [(input, now)]), []. rewrite app_nil_r. split_and!; [done| |done].
      unfold shows. rewrite after_snoc. unfold take_reading. cbn [fst snd]. congruence.
    + intros Hls. destruct (told_last _ _ _ Hp Hls) as (earlier & away & -> & Hc & Haw).
      exists earlier, (away ++ [(input, now)]). rewrite app_assoc. split_and!; try done.
      apply Forall_app. split; [done|by apply Forall_singleton].
Qed.

Lemma told_after lease rs : 0 ≤ lease → Forall (λ r, li_lease_ms r.1 ≤ lease) rs → told lease rs (after rs).
Proof.
  intros Hl. induction rs as [|r rs IH] using rev_ind; intros Hall; [by split; try done|].
  apply Forall_app in Hall as [Hrs Hr]. apply Forall_cons in Hr as [Hr _]. apply told_reading; [exact Hr|exact (IH Hrs)].
Qed.

Lemma present_connected input now p :
  (present input now p).1 = Some Connected →
  let q := (present input now p).2 in
  fresh q now = true ∨ (li_network input = true ∧ before now (lp_hold_until q) = true).
Proof.
  destruct (li_up input) eqn:Hui; [|unfold present; cbv zeta; by rewrite Hui].
  rewrite present_up by done. cbv zeta. cbn [fst snd]. set (p2 := enter_episode _ _ _). unfold decide_link. cbv zeta.
  destruct (fresh p2 now) eqn:Hf; cbn [negb andb orb].
  - left. destruct (_ || _) eqn:E; [done|]. case_bool_decide; done.
  - destruct (li_network input && before now (lp_hold_until p2)) eqn:Hh; cbn [fst].
    + right. by apply andb_true_iff in Hh.
    + by destruct (_ || _).
Qed.

(** Connected is earned. However the readings came, a reading that shows
    connected has behind it either an answer of the journal, still the last
    one and no older than the longest lease in force, or, with the network
    there, a return from a stretch that was not up less than half a second
    ago, before which connected was shown. *)
Theorem connected_is_earned (lease now : Z) (rs : list Reading) (input : LinkInput) :
  0 ≤ lease → Forall (λ r, li_lease_ms r.1 ≤ lease) (rs ++ [(input, now)]) →
  shows (rs ++ [(input, now)]) = Some Connected →
  (∃ a, answered_at (rs ++ [(input, now)]) a ∧ now < a + lease) ∨
  (li_network input = true ∧ ∃ e, returned_at (rs ++ [(input, now)]) e ∧ now < e + RESUME_GRACE_MS).
Proof.
  intros Hl Hall Hs. pose proof (told_after lease _ Hl Hall) as Ht. unfold shows in Hs.
  pose proof (told_heard _ _ _ Ht) as Hheard. pose proof (told_hold _ _ _ Ht) as Hhold. pose proof (told_lease _ _ _ Ht) as Hle.
  revert Hs Hheard Hhold Hle. rewrite after_snoc. unfold take_reading. cbn [fst snd]. intros Hs Hheard Hhold Hle.
  destruct (present_keeps input now (after rs)) as (_ & _ & _ & Hsp & _). rewrite Hs in Hsp.
  destruct (present_connected input now (after rs)) as [Hf|[Hn Hb]]; [done| |].
  - left. apply before_spec in Hf as (f & (a & Ha & ->)%fmap_Some & Hlt). exists a. split; [by apply Hheard|].
    revert Hlt. unfold sat_add_u64. lia.
  - right. split; [done|]. apply before_spec in Hb as (h & Hh & Hlt).
    destruct (Hhold h Hh) as [?|(e & He & ->)]; [congruence|]. exists e. split; [done|].
    revert Hlt. unfold sat_add_u64. lia.
Qed.

Lemma connected_is_earned_witness :
  ∃ a, answered_at ([(foreground (Some 1), 1000)] ++ [(foreground (Some 1), 21999)]) a ∧ 21999 < a + 21000.
Proof.
  destruct (connected_is_earned 21000 21999 [(foreground (Some 1), 1000)] (foreground (Some 1)))
    as [(a & Ha & Hlt)|(_ & e & (earlier & away & i & post & Heq & _ & Hne & Haw & _) & _)].
  - done.
  - repeat constructor; done.
  - done.
  - by exists a.
  - exfalso. destruct earlier as [|x [|y [|]]], away as [|u [|v [|]]]; cbn in *; try done; simplify_eq;
      repeat (match goal with H : Forall _ (_ :: _) |- _ => inversion H; clear H; subst end); try done.
Defined.

(** ** Silence settles on offline *)

(** Evaluating again at each announced instant, [n] times at most. *)
Fixpoint drive (n : nat) (input : LinkInput) (now : Z) (p : LinkPresenter) : Z * LinkPresenter :=
  match n with
  | O => (now, p)
  | S n =>
    match next_change_ms now p with
    | Some u => drive n input u (present input u p).2
    | None => (now, p)
    end
  end.

(** Everything the presenter waits for comes by [limit]. *)
Record waits_by (limit : Z) (p : LinkPresenter) : Prop := {
  wb_fresh : ∀ f, fresh_until p = Some f → f ≤ limit;
  wb_hold : ∀ h, lp_hold_until p = Some h → h ≤ limit;
  wb_unreached : 0 ≤ lp_unreached_since p ≤ limit;
  wb_dropped : ∀ a, lp_dropped_at p = Some a → a ≤ limit
}.

(** The link shown at [t] agrees with what the presenter waits for. *)
Definition shown_agrees (net : bool) (t : Z) (p : LinkPresenter) : Prop :=
  match lp_shown p with
  | Some Connected => fresh p t = true ∨ before t (lp_hold_until p) = true
  | Some Connecting => t < lp_unreached_since p + OFFLINE_AFTER_MS
  | Some Offline => net = false ∨ lp_unreached_since p + OFFLINE_AFTER_MS ≤ t
  | None => False
  end.

Definition step_link (net : bool) (t : Z) (p : LinkPresenter) : LinkPresenter :=
  let r := decide_link net t p in set_shown (Some r.1) (Some r.1) r.2.

Lemma step_link_settles limit net t p :
  waits_by limit p → 0 ≤ t → (lp_shown p = Some Connected → t ≤ limit) →
  waits_by limit (step_link net t p) ∧ shown_agrees net t (step_link net t p).
Proof.
  intros [H1 H2 H3 H4] Ht Hdrop. unfold step_link, decide_link. cbv zeta.
  destruct ((fresh p t && _) || _) eqn:Hc; cbn [fst snd].
  - destruct (fresh p t) eqn:Hf; (split; [by split|]); unfold shown_agrees; cbn.
    + by left.
    + right. cbn in Hc. by apply andb_true_iff in Hc as [_ ?].
  - set (p1 := if bool_decide _ then _ else p).
    assert (Hw : waits_by limit p1).
    { unfold p1. case_bool_decide as Hs; [|by split]. specialize (Hdrop Hs). split; cbn; try done.
      intros a [= <-]. done. }
    clearbody p1. destruct Hw as [K1 K2 K3 K4]. split; [by split|]. unfold shown_agrees. cbn.
    destruct net; cbn [negb orb]; [|by left].
    destruct (Z.leb_spec OFFLINE_AFTER_MS (sat_sub t (lp_unreached_since p1))) as [Hle|Hlt];
      unfold sat_sub, OFFLINE_AFTER_MS in *; [right|]; lia.
Qed.

Definition bit (b : bool) : nat := if b then 1 else 0.
(** Deadlines still ahead; a drop may open two more. *)
Definition ahead (t : Z) (p : LinkPresenter) : nat :=
  (3 * bit (fresh p t) + 3 * bit (before t (lp_hold_until p)) + bit (before t (dwell_until p))
   + bit (bool_decide (lp_shown p = Some Connecting)))%nat.

Lemma bit_later t u x : t ≤ u → (bit (before u x) ≤ bit (before t x))%nat.
Proof. intros Htu. destruct (before t x) eqn:E; [destruct (before u x); cbn; lia|]. by rewrite (before_later t u x). Qed.

Lemma bit_met t u : t < u → bit (before t (Some u)) = 1%nat ∧ bit (before u (Some u)) = 0%nat.
Proof. intros Htu. unfold bit, before, from_option. destruct (Z.ltb_spec t u), (Z.ltb_spec u u); lia. Qed.

Lemma step_link_fresh net u x p : fresh (step_link net u p) x = fresh p x.
Proof.
  unfold step_link, decide_link. cbv zeta. destruct (_ || _); [by destruct (fresh p u)|by case_bool_decide].
Qed.

Lemma step_link_hold net u x p :
  (bit (before x (lp_hold_until (step_link net u p))) ≤ bit (before x (lp_hold_until p)))%nat.
Proof.
  unfold step_link, decide_link. cbv zeta. destruct (_ || _); [destruct (fresh p u)|case_bool_decide];
    first [reflexivity|apply Nat.le_0_l].
Qed.

(** Off connected, no drop is marked and offline does not go back to connecting. *)
Lemma step_link_down net t u p :
  t ≤ u → lp_shown p ≠ Some Connected → shown_agrees net t p →
  dwell_until (step_link net u p) = dwell_until p ∧
  (bit (bool_decide (lp_shown (step_link net u p) = Some Connecting)) ≤ bit (bool_decide (lp_shown p = Some Connecting)))%nat ∧
  (u = lp_unreached_since p + OFFLINE_AFTER_MS → lp_shown (step_link net u p) ≠ Some Connecting).
Proof.
  intros Htu Hs Hag. unfold step_link, decide_link. cbv zeta. rewrite (bool_decide_false (lp_shown p = Some Connected)) by done.
  destruct (_ || _); cbn [fst snd].
  - destruct (fresh p u); (split_and!; [done|apply Nat.le_0_l|done]).
  - split; [done|]. cbn [lp_shown set_shown]. unfold shown_agrees in Hag. destruct (lp_shown p) as [[]|]; [done| |..|done].
    + split; [rewrite (bool_decide_true (Some Connecting = _)) by done; destruct (bool_decide _); cbn; lia|]. intros ->. rewrite (proj2 (Z.leb_le _ _)); [by rewrite orb_true_r|].
      unfold sat_sub, OFFLINE_AFTER_MS. lia.
    + destruct net; cbn [negb orb]; [|done]. destruct Hag as [?|Hag]; [done|].
      rewrite (proj2 (Z.leb_le _ _)); [done|]. unfold sat_sub, OFFLINE_AFTER_MS in *. lia.
Qed.

Lemma ahead_decreases net t u p :
  shown_agrees net t p → lp_unreached_since p + OFFLINE_AFTER_MS ≤ u64_max → next_change_ms t p = Some u →
  (ahead u (step_link net u p) < ahead t p)%nat.
Proof.
  intros Hag Hmax Hn. unfold next_change_ms in Hn. destruct (lp_shown p) as [s|] eqn:Hs; [|done].
  apply least_after_Some in Hn as (Hin & Htu & _). unfold ahead. rewrite step_link_fresh, Hs.
  assert (Hle : t ≤ u) by lia. pose proof (bit_later t u (fresh_until p) Hle) as Hf. fold (fresh p u) (fresh p t) in Hf.
  pose proof (bit_later t u (lp_hold_until p) Hle) as Hh. pose proof (step_link_hold net u u p) as Hh'.
  pose proof (bit_later t u (dwell_until p) Hle) as Hd. destruct (bit_met t u Htu) as [Hb1 Hb2].
  destruct (decide (s = Connected)) as [->|Hne].
  - assert (Hbits : ∀ b b', (bit b + bit b' ≤ 2)%nat) by (intros [] []; cbn; lia).
    pose proof (Hbits (before u (dwell_until (step_link net u p)))
                      (bool_decide (lp_shown (step_link net u p) = Some Connecting))).
    rewrite (bool_decide_true (Connected = Connected)), (bool_decide_false (Connected ≠ Connected)) in Hin by (by auto).
    unfold fresh, only_if in *.
    apply elem_of_cons in Hin as [Heq|[Heq|[Heq|[Heq|Hin]%elem_of_cons]%elem_of_cons]%elem_of_cons];
      [rewrite <-Heq in *; lia|rewrite <-Heq in *; lia|done|done|by apply elem_of_nil in Hin].
  - destruct (step_link_down net t u p) as (Hdw & Hc & Hoff); [lia|congruence|done|]. rewrite Hdw, Hs in *.
    assert (Hcb : ∀ b, (bit b ≤ 1)%nat) by (intros []; cbn; lia).
    rewrite (bool_decide_false (s = Connected)), (bool_decide_true (s ≠ Connected)) in Hin by done. unfold only_if in Hin.
    apply elem_of_cons in Hin as [Heq|[Heq|[Heq|[Heq|Hin]%elem_of_cons]%elem_of_cons]%elem_of_cons];
      [rewrite <-Heq in *; lia|done|rewrite <-Heq in *; lia| |by apply elem_of_nil in Hin].
    destruct s; [done| |done]. rewrite (bool_decide_true (Connecting = Connecting)) in Heq by done. injection Heq as Heq.
    assert (Hgone : bool_decide (lp_shown (step_link net u p) = Some Connecting) = false)
      by (apply bool_decide_false, Hoff; unfold sat_add_u64 in Heq; lia).
    rewrite Hgone, (bool_decide_true (Some Connecting = _)) by done. cbn [bit] in *. lia.
Qed.

Lemma next_change_bound limit t u p :
  waits_by limit p → next_change_ms t p = Some u →
  t < u ≤ limit + OFFLINE_AFTER_MS ∧ (lp_shown p = Some Connected → u ≤ limit).
Proof.
  intros [H1 H2 H3 H4]. unfold next_change_ms. destruct (lp_shown p) as [s|]; [|done].
  intros (Hin & Htu & _)%least_after_Some.
  assert (Hsat : ∀ a b, sat_add_u64 a b ≤ a + b) by (intros; unfold sat_add_u64; lia).
  apply elem_of_cons in Hin as [Heq|[Heq|[Heq|[Heq|Hin]%elem_of_cons]%elem_of_cons]%elem_of_cons];
    [..|by apply elem_of_nil in Hin].
  - specialize (H2 u (eq_sym Heq)). unfold OFFLINE_AFTER_MS. lia.
  - unfold only_if in Heq. case_bool_decide; [|done]. specialize (H1 u (eq_sym Heq)). unfold OFFLINE_AFTER_MS. lia.
  - unfold only_if in Heq. case_bool_decide as Hs; [|done]. symmetry in Heq. apply fmap_Some in Heq as (a & Ha & ->).
    specialize (H4 a Ha). specialize (Hsat a DOWN_DWELL_MS). unfold DOWN_DWELL_MS, OFFLINE_AFTER_MS in *.
    split; [lia|congruence].
  - unfold only_if in Heq. case_bool_decide as Hs; [|done]. injection Heq as ->.
    specialize (Hsat (lp_unreached_since p) OFFLINE_AFTER_MS). split; [lia|congruence].
Qed.

Lemma no_change_is_offline net t p :
  shown_agrees net t p → lp_unreached_since p + OFFLINE_AFTER_MS ≤ u64_max → next_change_ms t p = None →
  lp_shown p = Some Offline.
Proof.
  unfold shown_agrees, next_change_ms. destruct (lp_shown p) as [[]|]; [|..|done|done]; intros Hag Hmax Hn.
  - exfalso. destruct Hag as [(f & Hf & ?)%before_spec|(h & Hh & ?)%before_spec].
    + enough (f ≤ t) by lia. apply (least_after_None _ _ f Hn).
      rewrite (bool_decide_true (Connected = Connected)) by done. unfold only_if. rewrite Hf. set_solver.
    + enough (h ≤ t) by lia. apply (least_after_None _ _ h Hn). rewrite Hh. set_solver.
  - exfalso. pose proof (least_after_None _ _ (lp_unreached_since p + OFFLINE_AFTER_MS) Hn) as Hc.
    rewrite (bool_decide_true (Connecting = Connecting)) in Hc by done. unfold only_if, sat_add_u64 in Hc.
    rewrite Z.min_l in Hc by done. enough (lp_unreached_since p + OFFLINE_AFTER_MS ≤ t) by lia. apply Hc. set_solver.
Qed.

Lemma drive_settles n limit input t p :
  li_up input = true → li_answered input = lp_answered p → li_lease_ms input ≤ lp_lease_ms p →
  lp_no_network p = negb (li_network input) →
  waits_by limit p → shown_agrees (li_network input) t p → 0 ≤ t ≤ limit + OFFLINE_AFTER_MS →
  limit + OFFLINE_AFTER_MS ≤ u64_max → (ahead t p ≤ n)%nat →
  let r := drive n input t p in
  lp_shown r.2 = Some Offline ∧ next_change_ms r.1 r.2 = None ∧ r.1 ≤ limit + OFFLINE_AFTER_MS.
Proof.
  intros Hup. revert t p. induction n as [|n IH]; intros t p Ha Hl Hn Hw Hag Ht Hmax Hahead; cbv zeta; cbn [drive];
    pose proof (wb_unreached _ _ Hw) as Hunr; destruct (next_change_ms t p) as [u|] eqn:Hu.
  - pose proof (ahead_decreases _ _ _ _ Hag ltac:(lia) Hu). lia.
  - cbn [fst snd]. split_and!; [by eapply no_change_is_offline; [..|lia|]|done|lia].
  - assert (Hs : is_Some (lp_shown p)) by (unfold shown_agrees in Hag; by destruct (lp_shown p)).
    destruct Hs as [s Hs]. rewrite (present_shown input u p s) by done.
    pose proof (ahead_decreases _ _ _ _ Hag ltac:(lia) Hu) as Hdec.
    destruct (next_change_bound _ _ _ _ Hw Hu) as [Hub Hul].
    destruct (step_link_settles limit (li_network input) u p Hw ltac:(lia) Hul) as [Hw' Hag'].
    destruct (decide_keeps (li_network input) u p) as (Ka & _ & Kl & Kn).
    unfold step_link in *. destruct (decide_link (li_network input) u p) as [next q]. cbn [fst snd] in *.
    apply IH; [cbn; by rewrite ?Ka, ?Kl, ?Kn..|exact Hw'|exact Hag'|lia|exact Hmax|lia].
  - cbn [fst snd]. split_and!; [by eapply no_change_is_offline; [..|lia|]|done|lia].
Qed.

(** Silence settles on offline. From any run under one cadence, if a
    reading is up and no further evidence comes, evaluating again only at the
    instants [next_change_ms] announces ends after at most eight evaluations,
    within the lease and 30 seconds of that reading, with the link shown
    offline and nothing further announced. *)
Theorem silence_settles_on_offline (lease now0 now : Z) (input : LinkInput) (p : LinkPresenter) :
  RESUME_GRACE_MS ≤ lease → reaches lease now0 p → now0 ≤ now → li_lease_ms input = lease → li_up input = true →
  now + lease + OFFLINE_AFTER_MS ≤ u64_max →
  let r := drive 8 input now (present input now p).2 in
  lp_shown r.2 = Some Offline ∧ next_change_ms r.1 r.2 = None ∧ r.1 ≤ now + lease + OFFLINE_AFTER_MS.
Proof.
  intros Hl Hr Hn0 Hin Hup Hmax. destruct (reaches_inv _ _ _ Hl Hr) as [H0 Hinv].
  destruct (present_keeps input now p) as (Ha & Hle & Hnet & _ & _).
  apply (link_inv_later _ _ now) in Hinv; [|done].
  rewrite (present_up _ _ _ Hup) in *. cbv zeta in *. cbn [snd] in *.
  set (p1 := enter_episode _ _ _) in *.
  assert (Hp1 : link_inv lease now p1).
  { apply link_inv_enter_episode; [lia|]. by apply link_inv_set_no_network, link_inv_take_answer; [..|lia|]. }
  clearbody p1. destruct Hp1 as [H1 H2 H3 H4 H5].
  assert (Hw : waits_by (now + lease) p1).
  { unfold RESUME_GRACE_MS in *. split.
    - intros f (a & Haa & ->)%fmap_Some. destruct (H1 a Haa) as [? ->]. unfold sat_add_u64. lia.
    - intros h Hh. specialize (H4 h Hh). unfold sat_add_u64 in H4. lia.
    - lia.
    - intros a Haa. specialize (H3 a Haa). lia. }
  destruct (step_link_settles (now + lease) (li_network input) now p1 Hw) as [Hw' Hag']; [lia|unfold RESUME_GRACE_MS in *; lia|].
  apply drive_settles; try done.
  - unfold RESUME_GRACE_MS, OFFLINE_AFTER_MS in *. lia.
  - unfold ahead. repeat match goal with |- context [bit ?b] => assert (bit b ≤ 1)%nat by (destruct b; cbn; lia); generalize dependent (bit b); intros end. lia.
Qed.

Lemma silence_settles_on_offline_witness :
  lp_shown (drive 8 (foreground (Some 1)) 31000 (after [(foreground (Some 1), 31000); (foreground (Some 1), 31000)])).2 =
    Some Offline.
Proof.
  apply (silence_settles_on_offline 21000 31000 31000 (foreground (Some 1)) (after [(foreground (Some 1), 31000)])); try done.
  by apply (reaches_reading 21000 (foreground (Some 1)) 0 31000); [apply reaches_start|..].
Defined.
