(* ===== verification/SealedStore.v ===== *)
(** * The sealed-segment store (crates/pl-transport-win/src/sealed.rs)

    [LocalSealedStore]: the directories of sealed segments under the segments
    root, the set-aside ones under [quarantine], and the operations of the
    [SealedStore] trait on them. The file system is a map of directories of
    files; any call on it can fail, at the places a list of faults says, and a
    failed write can leave an empty file behind. Directory order is a
    parameter. Names are valid Unicode; a directory inside a segment's own
    directory is listed and never entered. *)
From Stdlib Require Import Ascii String.
From stdpp Require Import sorting.
From S2P Require Import Prelude RustStr Model PauseStore Ingest Transport.

Local Open Scope list_scope.

(** ** The file system *)

Inductive Node : Type := NFile (bytes : string) (mtime : Z) | NDir.
Notation Dir := (gmap string Node).
Inductive Entry : Type := EDir (d : Dir) | EFile.

Inductive Fault : Type := NoFault | FailBefore | FailHalf.

Record Store : Type := mkStore {
  st_pending : option (gmap string Entry);
  st_aside : option (gmap string Entry);
  st_faults : list Fault;
  st_now : Z;
  st_period_secs : Z
}.

(** A directory under the root or under [quarantine]. *)
Inductive Place : Type := Pending | SetAside.
Definition Path : Type := Place * string.
#[global] Instance Place_eq_dec : EqDecision Place.
Proof. solve_decision. Defined.
#[global] Instance Path_eq_dec : EqDecision Path := prod_eq_dec.

Definition entries_of (place : Place) (s : Store) : option (gmap string Entry) :=
  match place with Pending => st_pending s | SetAside => st_aside s end.
Definition set_entries (place : Place) (m : option (gmap string Entry)) (s : Store) : Store :=
  match place with
  | Pending => mkStore m (st_aside s) (st_faults s) (st_now s) (st_period_secs s)
  | SetAside => mkStore (st_pending s) m (st_faults s) (st_now s) (st_period_secs s)
  end.
Definition entry_at (p : Path) (s : Store) : option Entry := entries_of p.1 s ≫= (.!! p.2).
Definition put_entry (p : Path) (e : option Entry) (s : Store) : Store :=
  set_entries p.1 (partial_alter (λ _, e) p.2 <$> entries_of p.1 s) s.
Definition dir_at (p : Path) (s : Store) : option Dir :=
  match entry_at p s with Some (EDir d) => Some d | _ => None end.

(** Whether the next call fails. *)
Definition next_fault : M Store Fault := λ s,
  (default NoFault (head (st_faults s)),
   mkStore (st_pending s) (st_aside s) (tail (st_faults s)) (st_now s) (st_period_secs s)).

Definition fs {A} (m : M Store (result A io_error)) : M Store (result A io_error) :=
  f ← next_fault;
  match f with NoFault => m | _ => mret (Err OtherError) end.

Definition of_option {A} (o : option A) : result A io_error := match o with Some a => Ok a | None => Err NotFound end.

(** [Path::exists]: a failed call counts as absent. *)
Definition path_exists (p : Path) : M Store bool :=
  r ← fs (gets (λ s, Ok (bool_decide (is_Some (entry_at p s)))));
  mret (match r with Ok b => b | Err _ => false end).
Definition file_exists (p : Path) (name : string) : M Store bool :=
  r ← fs (gets (λ s, Ok (bool_decide (is_Some (dir_at p s ≫= (.!! name))))));
  mret (match r with Ok b => b | Err _ => false end).

Section store.
Context `{UploadLib} `{DirOrder}.

Definition read_dir (place : Place) : M Store (result (list (string * Entry)) io_error) :=
  fs (gets (λ s, of_option (dir_list <$> entries_of place s))).
Definition read_dir_at (p : Path) : M Store (result (list (string * Node)) io_error) :=
  fs (gets (λ s, of_option (dir_list <$> dir_at p s))).

Definition fs_read (p : Path) (name : string) : M Store (result string io_error) :=
  fs (gets (λ s, match dir_at p s ≫= (.!! name) with
                 | Some (NFile bytes _) => Ok bytes
                 | Some NDir => Err OtherError
                 | None => Err NotFound
                 end)).
Definition fs_modified (p : Path) (name : string) : M Store (result Z io_error) :=
  fs (gets (λ s, match dir_at p s ≫= (.!! name) with
                 | Some (NFile _ mtime) => Ok mtime
                 | Some NDir => Ok (st_now s)
                 | None => Err NotFound
                 end)).

Definition put_file (p : Path) (name : string) (n : option Node) (s : Store) : Store :=
  match dir_at p s with
  | Some d => put_entry p (Some (EDir (partial_alter (λ _, n) name d))) s
  | None => s
  end.

(** Create or truncate, then write; the content may be lost half way. *)
Definition write_file (p : Path) (name bytes : string) (half : bool) : M Store (result unit io_error) := λ s,
  match dir_at p s with
  | None => (Err NotFound, s)
  | Some d =>
    match d !! name with
    | Some NDir => (Err OtherError, s)
    | _ => if half then (Err OtherError, put_file p name (Some (NFile EmptyString (st_now s))) s)
           else (Ok tt, put_file p name (Some (NFile bytes (st_now s))) s)
    end
  end.
Definition fs_write (p : Path) (name bytes : string) : M Store (result unit io_error) :=
  f ← next_fault;
  match f with
  | NoFault => write_file p name bytes false
  | FailBefore => mret (Err OtherError)
  | FailHalf => write_file p name bytes true
  end.

Definition fs_remove_file (p : Path) (name : string) : M Store (result unit io_error) :=
  fs (λ s, match dir_at p s ≫= (.!! name) with
           | Some (NFile _ _) => (Ok tt, put_file p name None s)
           | Some NDir => (Err OtherError, s)
           | None => (Err NotFound, s)
           end).

Definition fs_rename_file (p : Path) (from to : string) : M Store (result unit io_error) :=
  fs (λ s, match dir_at p s ≫= (.!! from) with
           | Some (NFile bytes mtime) =>
             match dir_at p s ≫= (.!! to) with
             | Some NDir => (Err OtherError, s)
             | _ => (Ok tt, put_file p to (Some (NFile bytes mtime)) (put_file p from None s))
             end
           | Some NDir => (Err OtherError, s)
           | None => (Err NotFound, s)
           end).

(** A directory is never renamed over something that exists. *)
Definition fs_rename_dir (from to : Path) : M Store (result unit io_error) :=
  fs (λ s, match dir_at from s, entries_of to.1 s, entry_at to s with
           | None, _, _ => (Err NotFound, s)
           | _, None, _ => (Err NotFound, s)
           | _, _, Some _ => (Err OtherError, s)
           | Some d, Some _, None => (Ok tt, put_entry to (Some (EDir d)) (put_entry from None s))
           end).

Definition fs_remove_dir (p : Path) : M Store (result unit io_error) :=
  fs (λ s, match dir_at p s with
           | None => (Err NotFound, s)
           | Some d => if decide (d = ∅) then (Ok tt, put_entry p None s) else (Err OtherError, s)
           end).

Definition fs_create_aside : M Store (result unit io_error) :=
  fs (λ s, (Ok tt, set_entries Pending (Some (default ∅ (st_pending s)))
                     (set_entries SetAside (Some (default ∅ (st_aside s))) s))).

(** ** LocalSealedStore *)

Definition parse_sealed_index (name : string) : option Z :=
  if all_bytes is_ascii_digit name && negb (String.eqb name EmptyString) then parse_u64 name else None.

(** [segment_dir]; an index is a u64, other integers name nothing. *)
Definition segment_dir (index : Z) : option Path :=
  if decide (in_u64 index) then Some (Pending, fmt_dec index) else None.
Definition at_segment {A} (index : Z) (m : Path → M Store (result A io_error)) : M Store (result A io_error) :=
  match segment_dir index with Some p => m p | None => mret (Err NotFound) end.

Definition DESKTOP_ACTIVITY_SUFFIX : string := "_desktop_activity.jsonl".

Definition listed_file (e : string * Node) : option string :=
  match e.2 with
  | NFile bytes _ => if ends_with e.1 DESKTOP_ACTIVITY_SUFFIX && String.eqb bytes EmptyString then None else Some e.1
  | NDir => None
  end.
Definition list_files (p : Path) : M Store (result (list string) io_error) :=
  r ← read_dir_at p;
  mret (match r with
        | Ok entries => Ok (merge_sort String.le (omap listed_file entries))
        | Err e => Err e
        end).

Definition strings_from_json (bytes : string) : option (list string) :=
  match json_parse bytes with Some (JArray l) => mapM as_str l | _ => None end.

Definition marker_names : list string :=
  [UPLOADED_MARKER; LEN_FILE_NAME; AUDIO_SOURCES_FILE_NAME; LEN_TMP_MARKER; UPLOADED_TMP_MARKER; REFUSED_BY_MARKER].

Definition drop_stale (p : Path) (marker : string) : M Store unit :=
  there ← file_exists p marker;
  if there : bool then _ ← fs_remove_file p marker; mret tt else mret tt.

(** The body of the loop over the root's directories. *)
Definition scan_one (want_confirmed : bool) (entry : string * Entry)
    : M Store (result (option SealedSegment) io_error) :=
  t ← fs (mret (Ok tt));
  match t with
  | Err e => mret (Err e)
  | Ok _ =>
    match entry.2, parse_sealed_index entry.1 with
    | EDir _, Some index =>
      let p := (Pending, entry.1) in
      drop_stale p UPLOADED_TMP_MARKER ;;
      drop_stale p REFUSED_BY_MARKER ;;
      r ← list_files p;
      match r with
      | Err e => mret (Err e)
      | Ok files =>
        if negb (Bool.eqb (bool_decide (UPLOADED_MARKER ∈ files)) want_confirmed) then mret (Ok None)
        else
          len ← fs_read p LEN_FILE_NAME;
          sources ← fs_read p AUDIO_SOURCES_FILE_NAME;
          period ← gets st_period_secs;
          mret (Ok (Some (mkSealedSegment index (sat_mul_u64 index period)
            (match len with Ok s => parse_u64 (trim s) | Err _ => None end)
            (match sources with Ok b => default [] (strings_from_json b) | Err _ => [] end)
            (filter (λ f, f ∉ marker_names) files))))
      end
    | _, _ => mret (Ok None)
    end
  end.

Fixpoint scan_loop (want_confirmed : bool) (entries : list (string * Entry))
    : M Store (result (list SealedSegment) io_error) :=
  match entries with
  | [] => mret (Ok [])
  | entry :: entries =>
    r ← scan_one want_confirmed entry;
    match r with
    | Err e => mret (Err e)
    | Ok found =>
      rest ← scan_loop want_confirmed entries;
      mret (match rest with
            | Ok l => Ok (match found with Some s => s :: l | None => l end)
            | Err e => Err e
            end)
    end
  end.

Definition by_index (a b : SealedSegment) : Prop := (ss_index a ≤ ss_index b)%Z.
#[local] Instance by_index_dec a b : Decision (by_index a b).
Proof. unfold by_index. apply _. Defined.

Definition scan_filtered (want_confirmed : bool) : M Store (result (list SealedSegment) io_error) :=
  r ← read_dir Pending;
  match r with
  | Err NotFound => mret (Ok [])
  | Err e => mret (Err e)
  | Ok entries =>
    r ← scan_loop want_confirmed entries;
    mret (match r with Ok l => Ok (merge_sort by_index l) | Err e => Err e end)
  end.

Definition scan : M Store (result (list SealedSegment) io_error) := scan_filtered false.
Definition confirmed : M Store (result (list SealedSegment) io_error) := scan_filtered true.

Definition store_read_file (index : Z) (name : string) : M Store (result string io_error) :=
  at_segment index (λ p, fs_read p name).
Definition store_remove (index : Z) : M Store (result unit io_error) :=
  at_segment index (λ p, fs (λ s, match dir_at p s with
                                  | Some _ => (Ok tt, put_entry p None s)
                                  | None => (Err NotFound, s)
                                  end)).

(** The candidates for a set-aside directory's name. *)
Definition aside_name (preferred : string) (counter : nat) : string :=
  preferred +:+ String "-" (fmt_dec (Z.of_nat counter)).
(** [while target.exists() { … }]. *)
Fixpoint free_target (fuel : nat) (preferred : string) (counter : nat) (target : string) : M Store string :=
  match fuel with
  | O => mret target
  | S fuel =>
    taken ← path_exists (SetAside, target);
    if taken : bool then free_target fuel preferred (S counter) (aside_name preferred counter) else mret target
  end.

Definition store_quarantine (index : Z) (refused_by : string) : M Store (result unit io_error) :=
  at_segment index (λ p,
    r ← fs_create_aside;
    match r with
    | Err e => mret (Err e)
    | Ok _ =>
      r ← fs_write p REFUSED_BY_MARKER refused_by;
      match r with
      | Err e => mret (Err e)
      | Ok _ =>
        n ← gets (λ s, size (default ∅ (st_aside s)));
        target ← free_target (S n) p.2 2 p.2;
        fs_rename_dir p (SetAside, target)
      end
    end).

(** The body of the loop over the set-aside directories: whether it moved. *)
Definition release_one (journal : string) (entry : string * Entry) : M Store (result bool io_error) :=
  t ← fs (mret (Ok tt));
  match t with
  | Err e => mret (Err e)
  | Ok _ =>
    match entry.2 with
    | EFile => mret (Ok false)
    | EDir _ =>
      r ← fs_read (SetAside, entry.1) REFUSED_BY_MARKER;
      match r with
      | Err NotFound => mret (Ok false)
      | Err e => mret (Err e)
      | Ok refused_by =>
        if negb (String.eqb (from_utf8_lossy refused_by) refused_by) then mret (Err OtherError)
        else if String.eqb refused_by journal then mret (Ok false)
        else
          match parse_sealed_index (default EmptyString (head (split_char "-" entry.1))) ≫= segment_dir with
          | None => mret (Ok false)
          | Some target =>
            there ← path_exists target;
            if there : bool then mret (Ok false)
            else
              r ← fs_rename_dir (SetAside, entry.1) target;
              match r with
              | Err e => mret (Err e)
              | Ok _ => _ ← fs_remove_file target REFUSED_BY_MARKER; mret (Ok true)
              end
          end
      end
    end
  end.

Fixpoint release_loop (journal : string) (entries : list (string * Entry)) (released : Z)
    : M Store (result Z io_error) :=
  match entries with
  | [] => mret (Ok released)
  | entry :: entries =>
    r ← release_one journal entry;
    match r with
    | Err e => mret (Err e)
    | Ok moved => release_loop journal entries (if moved : bool then (released + 1)%Z else released)
    end
  end.

Definition release_refused (journal : string) : M Store (result Z io_error) :=
  r ← read_dir SetAside;
  match r with
  | Err NotFound => mret (Ok 0%Z)
  | Err e => mret (Err e)
  | Ok entries => release_loop journal entries 0
  end.

Definition mark_confirmed (index : Z) : M Store (result unit io_error) :=
  at_segment index (λ p, fs_write p UPLOADED_MARKER EmptyString).

Definition entry_fact (e : string * Node) : DirEntryFact :=
  match e.2 with
  | NFile bytes _ => mkDirEntryFact e.1 true (Z.of_nat (String.length bytes))
  | NDir => mkDirEntryFact e.1 false 0
  end.
Definition by_name (a b : DirEntryFact) : Prop := String.le (de_name a) (de_name b).
#[local] Instance by_name_dec a b : Decision (by_name a b).
Proof. unfold by_name. apply _. Defined.

Definition store_list_entries (index : Z) : M Store (result (list DirEntryFact) io_error) :=
  at_segment index (λ p,
    r ← read_dir_at p;
    mret (match r with Ok l => Ok (merge_sort by_name (entry_fact <$> l)) | Err e => Err e end)).

Definition store_remove_entry (index : Z) (name : string) : M Store (result unit io_error) :=
  at_segment index (λ p, fs_remove_file p name).
Definition store_remove_dir (index : Z) : M Store (result unit io_error) := at_segment index fs_remove_dir.

Definition read_ack (index : Z) : M Store (result (option UploadAck) io_error) :=
  at_segment index (λ p,
    r ← fs_read p UPLOADED_MARKER;
    mret (match r with
          | Ok bytes => Ok (ack_from_bytes bytes)
          | Err NotFound => Ok None
          | Err e => Err e
          end)).

Definition store_write_ack (index : Z) (ack : UploadAck) : M Store (result unit io_error) :=
  at_segment index (λ p,
    match ack_to_vec ack with
    | None => mret (Err OtherError)
    | Some bytes =>
      r ← fs_write p UPLOADED_TMP_MARKER bytes;
      match r with
      | Err e => mret (Err e)
      | Ok _ => fs_rename_file p UPLOADED_TMP_MARKER UPLOADED_MARKER
      end
    end).

Definition store_modified (index : Z) (name : string) : M Store (result Z io_error) :=
  at_segment index (λ p, fs_modified p name).

Definition aside_marker_names : list string :=
  [LEN_FILE_NAME; AUDIO_SOURCES_FILE_NAME; UPLOADED_MARKER; UPLOADED_TMP_MARKER; REFUSED_BY_MARKER].
Definition has_media (entries : list (string * Node)) : bool :=
  existsb (λ e, match e.2 with NFile _ _ => bool_decide (e.1 ∉ aside_marker_names) | NDir => false end) entries.

Fixpoint count_media (entries : list (string * Entry)) (count : Z) : M Store (result Z io_error) :=
  match entries with
  | [] => mret (Ok count)
  | entry :: entries =>
    t ← fs (mret (Ok tt));
    match t, entry.2 with
    | Err e, _ => mret (Err e)
    | Ok _, EFile => count_media entries count
    | Ok _, EDir _ =>
      r ← read_dir_at (SetAside, entry.1);
      match r with
      | Err e => mret (Err e)
      | Ok children => count_media entries (if has_media children then (count + 1)%Z else count)
      end
    end
  end.

Definition quarantined_media_dirs : M Store (result Z io_error) :=
  r ← read_dir SetAside;
  match r with
  | Err NotFound => mret (Ok 0%Z)
  | Err e => mret (Err e)
  | Ok entries => count_media entries 0
  end.
End store.
