(* ===== verification/StoreProps.v ===== *)
(** * The store under the coordinator: captured media is never lost

    What an operation of [LocalSealedStore] may do to a file a person's
    capture put there, whatever calls fail; and the coordinator run over the
    store, with the network as a parameter: each captured file stays on disk,
    pending or set aside, until the coordinator removes it on evidence. *)
From Stdlib Require Import Ascii String.
From stdpp Require Import sorting.
From S2P Require Import Prelude RustStr Model PauseStore Civil Ingest Transport Coordinator CoordinatorProps.
From S2P Require Import CoordinatorWalk SealedStore CoordinatorDemo.

Local Open Scope list_scope.

(** The files of a segment that are not the store's own markers. *)
Definition captured (name : string) : Prop := name ∉ marker_names.

Definition belongs (index : Z) (p : Path) : Prop :=
  match p.1 with
  | Pending => p.2 = fmt_dec index
  | SetAside => parse_sealed_index (default EmptyString (head (split_char "-" p.2))) = Some index
  end.

(** A directory of segment [index], pending or set aside, holds [name] with
    these bytes. *)
Definition on_disk (index : Z) (name bytes : string) (s : Store) : Prop :=
  ∃ p d t, belongs index p ∧ dir_at p s = Some d ∧ d !! name = Some (NFile bytes t).

(** ** Directories after an operation *)

Lemma entry_at_put p e s p' :
  is_Some (entries_of p.1 s) → entry_at p' (put_entry p e s) = if decide (p' = p) then e else entry_at p' s.
Proof.
  destruct p as [pl k], p' as [pl' k']. cbn. intros [m Hm]. unfold entry_at, put_entry. cbn [fst snd].
  destruct (decide (pl' = pl)) as [->|Hpl].
  - assert (Hset : ∀ x, entries_of pl (set_entries pl x s) = x) by (by destruct pl). rewrite Hset, Hm. cbn.
    destruct (decide (k' = k)) as [->|Hk].
    + by rewrite lookup_partial_alter_eq, decide_True by done.
    + by rewrite lookup_partial_alter_ne, decide_False by congruence.
  - rewrite decide_False by congruence. by destruct pl, pl'.
Qed.

Lemma dir_entries p s d : dir_at p s = Some d → is_Some (entries_of p.1 s).
Proof. unfold dir_at, entry_at. by destruct (entries_of p.1 s). Qed.

Lemma dir_at_put_file p name x s p' d :
  dir_at p s = Some d →
  dir_at p' (put_file p name x s) = if decide (p' = p) then Some (partial_alter (λ _, x) name d) else dir_at p' s.
Proof.
  intros Hd. unfold put_file. rewrite Hd. unfold dir_at at 1. rewrite entry_at_put by (by eapply dir_entries).
  by destruct (decide (p' = p)).
Qed.

Section keeps.
Context (i : Z) (n b : string) (Hi : in_u64 i) (Hn : captured n).
Notation here := (on_disk i n b).

Lemma put_file_other p name x s : name ≠ n → here s → here (put_file p name x s).
Proof.
  intros Hne (p' & d & t & Hb & Hd & Hf). destruct (dir_at p s) as [d0|] eqn:Hp.
  - exists p'. rewrite (dir_at_put_file _ _ _ _ _ _ Hp). destruct (decide (p' = p)) as [->|].
    + exists (partial_alter (λ _, x) name d0), t. split_and!; [done|done|]. rewrite lookup_partial_alter_ne by done. congruence.
    + by exists d, t.
  - unfold put_file. rewrite Hp. by exists p', d, t.
Qed.

Lemma rename_dir_keeps from to s d :
  dir_at from s = Some d → is_Some (entries_of to.1 s) → entry_at to s = None →
  (belongs i from → belongs i to) → here s → here (put_entry to (Some (EDir d)) (put_entry from None s)).
Proof.
  intros Hd Hto Hfree Hb (p & d' & t & Hp & Hd' & Hf).
  assert (Hent : is_Some (entries_of to.1 (put_entry from None s))).
  { unfold put_entry. destruct from as [[] ?], to as [[] ?]; cbn in *; try done; by apply fmap_is_Some. }
  assert (Hpt : p ≠ to) by (intros ->; unfold dir_at in Hd'; by rewrite Hfree in Hd').
  destruct (decide (p = from)) as [->|Hne].
  - exists to, d, t. unfold dir_at. rewrite entry_at_put, decide_True by done. split_and!; [by apply Hb|done|congruence].
  - exists p, d', t. unfold dir_at in *. rewrite entry_at_put, decide_False by done.
    rewrite entry_at_put, decide_False by (done || by eapply dir_entries). done.
Qed.

(** *** File-system calls *)

Lemma keep_fault : pres here next_fault.
Proof. intros s Hs. exact Hs. Qed.

Lemma keep_fs {A} (m : M Store (result A io_error)) : pres here m → pres here (fs m).
Proof. intros Hm. unfold fs. apply pres_bind; [apply keep_fault|]. intros []; [done|apply pres_ret..]. Qed.

Lemma keep_exists p : pres here (path_exists p).
Proof. unfold path_exists. apply pres_bind; [apply keep_fs, pres_gets|]. intros r. apply pres_ret. Qed.
Lemma keep_file_exists p name : pres here (file_exists p name).
Proof. unfold file_exists. apply pres_bind; [apply keep_fs, pres_gets|]. intros r. apply pres_ret. Qed.

Lemma keep_write p name bytes : name ≠ n → pres here (fs_write p name bytes).
Proof.
  intros Hne. unfold fs_write. apply pres_bind; [apply keep_fault|].
  assert (Hw : ∀ half, pres here (write_file p name bytes half)).
  { intros half s Hs. unfold write_file. destruct (dir_at p s) as [d|]; [|done].
    destruct (d !! name) as [[]|]; [|done|]; destruct half; by apply put_file_other. }
  intros []; [apply Hw|apply pres_ret|apply Hw].
Qed.

Lemma keep_remove_file p name : name ≠ n → pres here (fs_remove_file p name).
Proof.
  intros Hne. apply keep_fs. intros s Hs. destruct (dir_at p s ≫= _) as [[]|]; [|done..]. by apply put_file_other.
Qed.

Lemma keep_rename_file p from to : from ≠ n → to ≠ n → pres here (fs_rename_file p from to).
Proof.
  intros Hf Ht. apply keep_fs. intros s Hs. destruct (dir_at p s ≫= _) as [[]|]; [|done..].
  destruct (dir_at p s ≫= (.!! to)) as [[]|]; [|done|]; by repeat apply put_file_other.
Qed.

Lemma keep_rename_dir from to : (belongs i from → belongs i to) → pres here (fs_rename_dir from to).
Proof.
  intros Hb. apply keep_fs. intros s Hs. destruct (dir_at from s) as [d|] eqn:Hd; [|done].
  destruct (entries_of to.1 s) eqn:Hto; [|done]. destruct (entry_at to s) eqn:Hfree; [done|].
  by apply rename_dir_keeps.
Qed.

Lemma keep_remove_dir p : pres here (fs_remove_dir p).
Proof.
  apply keep_fs. intros s Hs. destruct (dir_at p s) as [d|] eqn:Hd; [|done]. case_decide as He; [|done]. subst.
  destruct Hs as (p' & d' & t & Hb & Hd' & Hf). exists p', d', t. unfold dir_at in *. cbn [snd].
  rewrite entry_at_put by (by eapply dir_entries). rewrite decide_False; [done|].
  intros ->. rewrite Hd' in Hd. injection Hd as ->. by rewrite lookup_empty in Hf.
Qed.

Lemma keep_create_aside : pres here fs_create_aside.
Proof.
  apply keep_fs. intros s (p & d & t & Hb & Hd & Hf). exists p, d, t. split_and!; [done| |done].
  revert Hd. unfold dir_at, entry_at. destruct p as [[] k]; cbn; [by destruct (st_pending s)|by destruct (st_aside s)].
Qed.

(** *** Store operations *)

Lemma marker_other name : name ∈ marker_names → name ≠ n.
Proof. intros Hm ->. by apply Hn. Qed.

Create HintDb keep discriminated.
Ltac keep_step :=
  match goal with
  | |- pres _ (_ ≫= _) => apply pres_bind; [|intros ?]
  | |- pres _ (mret _) => apply pres_ret
  | |- pres _ (gets _) => apply pres_gets
  | |- pres _ (fs_write _ _ _) => apply keep_write, marker_other; set_solver
  | |- pres _ (fs_remove_file _ _) => apply keep_remove_file, marker_other; set_solver
  | |- pres _ (fs_rename_file _ _ _) => apply keep_rename_file; apply marker_other; set_solver
  | |- pres _ (fs_remove_dir _) => apply keep_remove_dir
  | |- pres _ (path_exists _) => apply keep_exists
  | |- pres _ (file_exists _ _) => apply keep_file_exists
  | |- pres _ fs_create_aside => apply keep_create_aside
  | |- pres _ (fs _) => apply keep_fs
  | |- pres _ (match ?x with _ => _ end) => destruct x
  | |- pres _ _ => by auto with keep nocore
  end.
Ltac keep := repeat keep_step.

Context `{UploadLib} `{DirOrder}.

Lemma keep_read_dir place : pres here (read_dir place).
Proof. unfold read_dir. keep. Qed.
Lemma keep_read_dir_at p : pres here (read_dir_at p).
Proof. unfold read_dir_at. keep. Qed.
Lemma keep_fs_read p name : pres here (fs_read p name).
Proof. unfold fs_read. keep. Qed.
Hint Resolve keep_read_dir keep_read_dir_at keep_fs_read : keep.

Lemma keep_drop_stale p marker : marker ∈ marker_names → pres here (drop_stale p marker).
Proof.
  intros Hm. unfold drop_stale. apply pres_bind; [keep|]. intros []; [|keep].
  apply pres_bind; [by apply keep_remove_file, marker_other|]. intros ?. keep.
Qed.

Lemma keep_scan_one want e : pres here (scan_one want e).
Proof.
  unfold scan_one. apply pres_bind; [keep|]. intros [u|er]; [|keep]. destruct e.2; [|keep].
  destruct (parse_sealed_index e.1); [|keep]. cbv zeta.
  do 2 (apply pres_bind; [apply keep_drop_stale; set_solver|intros ?]). unfold list_files. keep.
Qed.
Hint Resolve keep_scan_one : keep.

Lemma keep_scan want : pres here (scan_filtered want).
Proof.
  unfold scan_filtered. apply pres_bind; [keep|]. intros [entries|[]]; [|keep..].
  apply pres_bind; [|intros ?; keep]. induction entries; cbn [scan_loop]; keep.
Qed.

Lemma keep_at_segment {A} j (m : Path → M Store (result A io_error)) :
  (∀ k, pres here (m (Pending, k))) → pres here (at_segment j m).
Proof. intros Hm. unfold at_segment, segment_dir. case_decide; [apply Hm|keep]. Qed.

(** The set-aside name found for a segment's directory belongs to it. *)
Lemma keep_free_target fuel preferred counter target : pres here (free_target fuel preferred counter target).
Proof. revert counter target. induction fuel; intros counter target; cbn [free_target]; keep. Qed.

Lemma free_target_name fuel preferred counter target s :
  (target = preferred ∨ ∃ k, target = aside_name preferred k) →
  let r := (free_target fuel preferred counter target s).1 in r = preferred ∨ ∃ k, r = aside_name preferred k.
Proof.
  revert counter target s. induction fuel as [|fuel IH]; intros counter target s Ht; cbn [free_target]; [done|].
  rewrite bind_run. destruct (path_exists (SetAside, target) s).1; [|done]. apply IH. eauto.
Qed.

Lemma split_char_digits c s rest :
  all_bytes is_ascii_digit s = true → is_ascii_digit c = false →
  head (split_char c s) = Some s ∧ head (split_char c (s +:+ String c rest)) = Some s.
Proof.
  intros Hs Hc. induction s as [|a s IH]; cbn in *.
  - rewrite Ascii.eqb_refl. done.
  - apply andb_true_iff in Hs as [Ha Hs]. specialize (IH Hs).
    destruct (Ascii.eqb_spec a c) as [->|_]; [congruence|]. destruct IH as [H1 H2].
    destruct (split_char c s); [done|]. destruct (split_char c (s +:+ String c rest)); [done|]. naive_solver.
Qed.

Lemma parse_sealed_fmt j : in_u64 j → parse_sealed_index (fmt_dec j) = Some j.
Proof.
  intros Hj. unfold parse_sealed_index. rewrite fmt_dec_digits by (destruct Hj; lia). pose proof (parse_fmt_dec j Hj) as Hp.
  rewrite Hp. destruct (String.eqb_spec (fmt_dec j) EmptyString) as [E|]; [by rewrite E in Hp|done].
Qed.

Lemma aside_belongs preferred target :
  (target = preferred ∨ ∃ k, target = aside_name preferred k) →
  belongs i (Pending, preferred) → belongs i (SetAside, target).
Proof.
  unfold belongs. cbn [fst snd]. intros Ht ->.
  destruct (split_char_digits "-" (fmt_dec i) EmptyString) as [H1 _]; [apply fmt_dec_digits; destruct Hi; lia|done|].
  destruct Ht as [->|[k ->]].
  - rewrite H1. by apply parse_sealed_fmt.
  - unfold aside_name. destruct (split_char_digits "-" (fmt_dec i) (fmt_dec (Z.of_nat k))) as [_ ->];
      [apply fmt_dec_digits; destruct Hi; lia|done|]. by apply parse_sealed_fmt.
Qed.

Lemma keep_quarantine j journal : pres here (store_quarantine j journal).
Proof.
  apply keep_at_segment. intros k. apply pres_bind; [keep|]. intros [u|e]; [|keep].
  apply pres_bind; [keep|]. intros [u'|e]; [|keep]. apply pres_bind; [keep|]. intros fuel s Hs.
  rewrite bind_run. pose proof (free_target_name (S fuel) k 2 k s (or_introl eq_refl)) as Ht.
  apply keep_rename_dir; [|by apply keep_free_target]. by apply aside_belongs.
Qed.

Lemma keep_release journal : pres here (release_refused journal).
Proof.
  unfold release_refused. apply pres_bind; [keep|]. intros [entries|[]]; [|keep..].
  assert (Hone : ∀ e, pres here (release_one journal e)).
  { intros [k e]. unfold release_one. apply pres_bind; [keep|]. intros [u|er]; [|keep]. cbn [fst snd].
    destruct e as [d|]; [|keep]. apply pres_bind; [keep|]. intros [by_|[]]; [|keep..].
    destruct (negb _); [keep|]. destruct (String.eqb by_ journal); [keep|].
    destruct (parse_sealed_index _) as [j|] eqn:Hj; cbn [mbind option_bind]; [|keep].
    unfold segment_dir. case_decide; [|keep]. apply pres_bind; [keep|]. intros []; [keep|].
    apply pres_bind; [|intros [v|er]; keep]. apply keep_rename_dir. unfold belongs. cbn [fst snd]. congruence. }
  generalize 0%Z. induction entries; intros released; cbn [release_loop]; keep.
Qed.

Lemma keep_write_ack j ack : pres here (store_write_ack j ack).
Proof. apply keep_at_segment. intros k. keep. Qed.
Lemma keep_list_entries j : pres here (store_list_entries j).
Proof. apply keep_at_segment. intros k. keep. Qed.
Lemma keep_store_read j name : pres here (store_read_file j name).
Proof. apply keep_at_segment. intros k. keep. Qed.
Lemma keep_modified j name : pres here (store_modified j name).
Proof. apply keep_at_segment. intros k. unfold fs_modified. keep. Qed.
Lemma keep_store_remove_dir j : pres here (store_remove_dir j).
Proof. apply keep_at_segment. intros k. keep. Qed.
Lemma keep_mark_confirmed j : pres here (mark_confirmed j).
Proof. apply keep_at_segment. intros k. keep. Qed.
Lemma keep_quarantined : pres here quarantined_media_dirs.
Proof.
  unfold quarantined_media_dirs. apply pres_bind; [keep|]. intros [entries|[]]; [|keep..].
  generalize 0%Z. induction entries; intros count; cbn [count_media]; keep.
Qed.

(** The one operation that takes a captured file away, and only that one. *)
Lemma remove_entry_keeps j name s :
  here s → here (store_remove_entry j name s).2 ∨
           (store_remove_entry j name s).1 = Ok tt ∧ j = i ∧ name = n.
Proof.
  intros Hs. destruct (decide (name = n)) as [->|Hne].
  2:{ left. apply keep_at_segment; [|done]. intros k. by apply keep_remove_file. }
  unfold store_remove_entry, at_segment, segment_dir. case_decide as Hj; [|by left].
  unfold fs_remove_file, fs. rewrite bind_run. destruct (next_fault s).1; [|by left..].
  apply keep_fault in Hs. revert Hs. generalize (next_fault s).2. intros s1 (p & d & t & Hb & Hd & Hf).
  destruct (dir_at (Pending, fmt_dec j) s1) as [d0|] eqn:Hd0; cbn [mbind option_bind]; [|left; by exists p, d, t].
  destruct (d0 !! n) as [[bytes mtime|]|] eqn:Hf0; [|left; by exists p, d, t..]. cbn [fst snd].
  destruct (decide (p = (Pending, fmt_dec j))) as [->|Hp].
  - right. split_and!; [done| |done]. unfold belongs in Hb. cbn [fst snd] in Hb.
    pose proof (parse_fmt_dec j Hj) as H1. rewrite Hb, parse_fmt_dec in H1 by done. congruence.
  - left. exists p, d, t. by rewrite (dir_at_put_file _ _ _ _ _ _ Hd0), decide_False.
Qed.
End keeps.

(** ** The search for a set-aside name ends *)

Lemma app_inj_l (p s s' : string) : p +:+ s = p +:+ s' → s = s'.
Proof. induction p as [|c p IH]; cbn; [done|]. intros [= ?]. by apply IH. Qed.

Lemma aside_name_inj preferred k k' :
  in_u64 (Z.of_nat k) → in_u64 (Z.of_nat k') → aside_name preferred k = aside_name preferred k' → k = k'.
Proof.
  intros Hk Hk' Heq. unfold aside_name in Heq. apply app_inj_l in Heq. injection Heq as Heq.
  pose proof (parse_fmt_dec _ Hk) as H1. rewrite Heq, (parse_fmt_dec _ Hk') in H1. injection H1. lia.
Qed.

Lemma app_longer (p rest : string) c : p +:+ String c rest ≠ p.
Proof. induction p as [|a p IH]; cbn; [done|]. intros [= Heq]. by apply IH. Qed.

Lemma aside_name_longer preferred k : aside_name preferred k ≠ preferred.
Proof. apply app_longer. Qed.

(** The name tried after [k] others: the index, then [<index>-2], [<index>-3], … *)
Definition candidate (preferred : string) (k : nat) : string :=
  match k with O => preferred | S k => aside_name preferred (2 + k) end.

Lemma candidate_inj preferred k k' :
  in_u64 (Z.of_nat (2 + k)) → in_u64 (Z.of_nat (2 + k')) → candidate preferred k = candidate preferred k' → k = k'.
Proof.
  intros Hk Hk'. destruct k as [|k], k' as [|k']; cbn [candidate]; [done| | |].
  - intros Heq. by destruct (aside_name_longer preferred (2 + k')).
  - intros Heq. by destruct (aside_name_longer preferred (2 + k)).
  - intros Heq. apply aside_name_inj in Heq; [lia|unfold in_u64 in *; lia..].
Qed.

Lemma path_exists_spec p s :
  entries_of p.1 (path_exists p s).2 = entries_of p.1 s ∧ ((path_exists p s).1 = true → is_Some (entry_at p s)).
Proof.
  unfold path_exists, fs. rewrite !bind_run. unfold next_fault. cbn [fst snd]. destruct p as [[] k];
  (destruct (default NoFault (head (st_faults s))); [|done..]; cbn [gets fst snd]; split; [done|]; intros Hd;
   by apply bool_decide_eq_true in Hd).
Qed.

(** Setting a segment aside finds a name. The search for a free directory
    name under [quarantine] ends within one more step than there are entries:
    whatever calls fail, allowing it more steps changes neither the name it
    finds nor what it leaves on disk. *)
Theorem aside_search_ends (preferred : string) (s : Store) (more : nat) :
  let n := size (default ∅ (st_aside s)) in
  (Z.of_nat n + 4 ≤ u64_max)%Z →
  free_target (S n + more) preferred 2 preferred s = free_target (S n) preferred 2 preferred s.
Proof.
  cbv zeta. intros Hmax. set (m := default ∅ (st_aside s)) in *.
  assert (Hgen : ∀ fuel k s', st_aside s' = st_aside s → (fuel + k = S (size m))%nat →
    (∀ j, (j < k)%nat → is_Some (m !! candidate preferred j)) →
    free_target (fuel + more) preferred (2 + k) (candidate preferred k) s' =
    free_target fuel preferred (2 + k) (candidate preferred k) s').
  { induction fuel as [|fuel IH]; intros k s' Hs' Hk Hall.
    - exfalso. assert (Hnd : NoDup (candidate preferred <$> seq 0 k)).
      { apply NoDup_fmap_2_strong; [|apply NoDup_seq]. intros x y Hx%elem_of_seq Hy%elem_of_seq.
        apply candidate_inj; unfold in_u64; lia. }
      assert (Hsub : list_to_set (C := gset string) (candidate preferred <$> seq 0 k) ⊆ dom m).
      { intros x. rewrite elem_of_list_to_set, list_elem_of_fmap, elem_of_dom. intros (j & -> & Hj%elem_of_seq).
        apply Hall. lia. }
      apply subseteq_size in Hsub. rewrite size_list_to_set, length_fmap, length_seq, size_dom in Hsub by done. lia.
    - cbn [Nat.add free_target]. rewrite !bind_run.
      destruct (path_exists_spec (SetAside, candidate preferred k) s') as [Ha Ht].
      destruct (path_exists (SetAside, candidate preferred k) s').1; [|done].
      apply (IH (S k)); [cbn in Ha; congruence|lia|]. intros j Hj. destruct (decide (j = k)) as [->|]; [|apply Hall; lia].
      destruct (Ht eq_refl) as [e He]. unfold entry_at in He. cbn in He. rewrite Hs' in He. unfold m.
      by destruct (st_aside s). }
  apply (Hgen (S (size m)) 0%nat); [done|lia|lia].
Qed.

Definition crowded_store : Store := mkStore None (Some {[ "7" := EFile; "7-2" := EFile ]}%string) [] 0 300.

Lemma aside_search_ends_witness :
  free_target 12 "7" 2 "7" crowded_store = free_target 3 "7" 2 "7" crowded_store ∧
  (free_target 3 "7" 2 "7" crowded_store).1 = "7-3"%string.
Proof.
  split; [|by vm_compute]. pose proof (aside_search_ends "7" crowded_store 9) as Hend.
  assert (Hsize : size (default ∅ (st_aside crowded_store)) = 2%nat) by (by vm_compute).
  cbv zeta in Hend. rewrite Hsize in Hend. by apply Hend.
Defined.

(** ** The coordinator over the store *)

(** The rest of the world: the transport client, the clocks, the zone, the
    cancellation channel and the status surfaces. *)
Class UploadNet (N : Type) : Type := {
  n_gate_open : M N bool;
  n_journal_identity : M N JournalIdentity;
  n_ingest : string → string → list FilePart → option LocalZone → list string →
             M N (result (IngestResponse * SendMetadata) RouteError);
  n_list_segments : string → M N (result (SegmentsEnvelope * SendMetadata) RouteError);
  n_refusal_stop : M N bool;
  n_local_zone : Z → M N (result LocalZone unit);
  n_monotonic_now : M N Z;
  n_instant : M N Z;
  n_now_millis : M N Z;
  n_elapsed_ms : M N Z;
  n_exit : M N SlotExit;
  n_publish_refused : M N unit;
  n_publish_unknown_journals : M N unit;
  n_mark_disconnected : M N unit
}.

Definition on_store {N A} (m : M Store A) : M (Store * N) A := λ w, let '(a, s) := m w.1 in (a, (s, w.2)).
Definition on_net {N A} (m : M N A) : M (Store * N) A := λ w, let '(a, n) := m w.2 in (a, (w.1, n)).

Section composed.
Context `{UploadLib} `{DirOrder} {N : Type} `{UploadNet N}.

#[export] Instance store_world : UploadWorld (Store * N) := {
  w_scan := on_store scan;
  w_confirmed := on_store confirmed;
  w_read_file index name := on_store (store_read_file index name);
  w_list_entries index := on_store (store_list_entries index);
  w_remove_entry index name := on_store (store_remove_entry index name);
  w_remove_dir index := on_store (store_remove_dir index);
  w_modified index name := on_store (store_modified index name);
  w_write_ack index ack := on_store (store_write_ack index ack);
  w_quarantine index journal := on_store (store_quarantine index journal);
  w_release_refused journal := on_store (release_refused journal);
  w_quarantined_media_dirs := on_store quarantined_media_dirs;
  w_gate_open := on_net n_gate_open;
  w_journal_identity := on_net n_journal_identity;
  w_ingest key day parts zone sources := on_net (n_ingest key day parts zone sources);
  w_list_segments day := on_net (n_list_segments day);
  w_refusal_stop := on_net n_refusal_stop;
  w_local_zone epoch := on_net (n_local_zone epoch);
  w_monotonic_now := on_net n_monotonic_now;
  w_instant := on_net n_instant;
  w_now_millis := on_net n_now_millis;
  w_elapsed_ms := on_net n_elapsed_ms;
  w_exit := on_net n_exit;
  w_publish_refused := on_net n_publish_refused;
  w_publish_unknown_journals := on_net n_publish_unknown_journals;
  w_mark_disconnected := on_net n_mark_disconnected
}.

Section accounted.
Context (i : Z) (n b : string) (Hi : in_u64 i) (Hn : captured n).

(** The file is on disk, or its removal is in the log. *)
Definition accounted (u : unit) (c : Coordinator (Store * N)) : Prop :=
  on_disk i n b (co_world c).1 ∨ EvRemove i n (Ok tt) ∈ co_log c.

Lemma accounted_store {A} u (ev : A → Event) (m : M Store A) :
  pres (on_disk i n b) m → pres (accounted u) (call ev (on_store m)).
Proof.
  intros Hm c [Hs|Hl]; unfold call, on_store; destruct (m (co_world c).1) as [a s] eqn:E; cbn [snd].
  - left. cbn. specialize (Hm _ Hs). by rewrite E in Hm.
  - right. cbn. set_solver.
Qed.

Lemma accounted_net {A} u (ev : A → Event) (m : M N A) : pres (accounted u) (call ev (on_net m)).
Proof.
  intros c Hc. unfold call, on_net. destruct (m (co_world c).2) as [a w]. destruct Hc as [Hs|Hl]; [by left|].
  right. cbn. set_solver.
Qed.

Lemma accounted_remove u index name : pres (accounted u) (remove_entry index name).
Proof.
  intros c [Hs|Hl]; unfold remove_entry, call; cbn [w_remove_entry store_world]; unfold on_store;
    pose proof (remove_entry_keeps i n b Hi index name (co_world c).1) as Hr;
    destruct (store_remove_entry index name (co_world c).1) as [a s]; cbn [fst snd] in *.
  - destruct (Hr Hs) as [Hk|(-> & -> & ->)]; [by left|]. right. cbn. set_solver.
  - right. cbn. set_solver.
Qed.

#[local] Instance accounted_walk : FullWalk accounted.
Proof.
  split.
  - split.
    + intros u f Hf. apply pres_modify. intros c Hc. unfold accounted in *. by destruct (Hf c) as (-> & -> & _).
    + intros u A ev m Hm. destruct Hm; try apply accounted_net.
      2:{ apply accounted_remove. }
      all: apply accounted_store.
      all: eauto using keep_store_read, keep_modified, keep_scan, keep_list_entries, keep_store_remove_dir,
             keep_write_ack, keep_release, keep_quarantined.
  - intros u f. apply pres_modify. by intros c Hc.
  - intros u *. apply accounted_net.
  - intros u *. apply accounted_store, keep_quarantine; done.
Qed.

Lemma accounted_passes upload period (s : Store) (w : N) passes :
  on_disk i n b s →
  accounted tt (for_each (seq 0 passes) (λ _, _ ← tick; mret tt) (new_coordinator (s, w) upload period)).2.
Proof.
  intros Hs.
  assert (Hp : pres (accounted tt) (for_each (seq 0 passes) (λ _ : nat, _ ← tick (W := Store * N); mret tt))).
  { apply pres_for_each. intros ?. apply pres_bind; [apply (walk_tick accounted)|]. intros r. apply pres_ret. }
  apply Hp. by left.
Qed.
End accounted.
End composed.

(** C6. Captured media is never lost. The coordinator runs over the store of
    sealed segments, with any network, any journal and any file-system calls
    failing. A captured file that is on disk stays there with its bytes, in
    its segment's directory or set aside, however many passes are made, unless
    the coordinator removed that file of that segment when the evidence for it
    was already in the log. *)
Theorem captured_media_is_never_lost `{UploadLib} `{DirOrder} {N : Type} `{UploadNet N}
    (store : Store) (net : N) (upload : UploadStatus) (period_secs : Z) (passes : nat)
    (index : Z) (name bytes : string) :
  in_u64 index → captured name → on_disk index name bytes store →
  let c := (for_each (seq 0 passes) (λ _, _ ← tick; mret tt) (new_coordinator (store, net) upload period_secs)).2 in
  on_disk index name bytes (co_world c).1 ∨
  ∃ pre post, co_log c = pre ++ EvRemove index name (Ok tt) :: post ∧ justified pre index name.
Proof.
  intros Hi Hn Hs. cbv zeta.
  destruct (accounted_passes index name bytes Hi Hn upload period_secs store net passes Hs) as [?|Hl]; [by left|].
  right. apply list_elem_of_split in Hl as (pre & post & Hl). exists pre, post. split; [done|].
  apply (proj1 (quiet_passes passes (new_coordinator (store, net) upload period_secs) covered_nil I)) with (Ok tt) post; [done|].
  unfold is_media. rewrite !andb_true_iff, !negb_true_iff, !String.eqb_neq.
  split_and!; intros ->; apply Hn; unfold marker_names; set_solver.
Qed.

(** ** A concrete run *)

#[local] Existing Instance demo_lib.
#[local] Instance demo_order : DirOrder := {| dir_list A m := map_to_list m; dir_list_spec A m := reflexivity _ |}.

(** The clock, past every hold at each pass, and the journal's answer. *)
#[local] Instance demo_net : UploadNet (Z * DemoJournal) := {
  n_gate_open := mret true;
  n_journal_identity := mret (mkJournalIdentity "home" "aa" "bb");
  n_ingest key _ _ _ _ := λ w, (demo_answer w.2 key, w);
  n_list_segments _ := mret (Err (RouteTransport TNoEndpoint));
  n_refusal_stop := mret false;
  n_local_zone _ := mret (Ok (mkLocalZone 0 None));
  n_monotonic_now := λ w, (w.1, (w.1 + 90000, w.2)%Z);
  n_instant := mret 0%Z;
  n_now_millis := mret 0%Z;
  n_elapsed_ms := mret 12%Z;
  n_exit := mret ExitRun;
  n_publish_refused := mret tt;
  n_publish_unknown_journals := mret tt;
  n_mark_disconnected := mret tt
}.

Definition demo_store (faults : list Fault) : Store :=
  mkStore (Some {[ "7" := EDir {[ "audio.flac" := NFile "four" 5; ".len" := NFile "300" 5 ]} ]}%string)
    None faults 9 300.
Definition demo_composed (faults : list Fault) (journal : DemoJournal) (passes : nat)
    : Coordinator (Store * (Z * DemoJournal)) :=
  (for_each (seq 0 passes) (λ _, _ ← tick; mret tt)
     (new_coordinator (demo_store faults, (1700000400%Z, journal)) demo_status 300)).2.

Example composed_refused :
  let s := (co_world (demo_composed [] Refuses 5)).1 in
  (dir_at (SetAside, "7"%string) s ≫= (.!! "audio.flac"%string)) = Some (NFile "four" 5) ∧
  (dir_at (SetAside, "7"%string) s ≫= (.!! ".refused-by"%string)) = Some (NFile "home" 9) ∧
  bool_decide (dir_at (Pending, "7"%string) s = None) = true.
Proof. vm_compute. done. Qed.

(** A kept upload leaves neither the file nor its directory. *)
Example composed_kept :
  bool_decide (dir_at (Pending, "7"%string) (co_world (demo_composed [] (Keeps 4) 1)).1 = None) = true.
Proof. vm_compute. done. Qed.

Lemma captured_media_is_never_lost_witness :
  on_disk 7 "audio.flac" "four" (demo_store [NoFault; FailBefore; FailHalf]) ∧
  (let c := demo_composed [NoFault; FailBefore; FailHalf] (Keeps 4) 3 in
   on_disk 7 "audio.flac" "four" (co_world c).1 ∨
   ∃ pre post, co_log c = pre ++ EvRemove 7 "audio.flac" (Ok tt) :: post ∧ justified pre 7 "audio.flac").
Proof.
  assert (Hs : on_disk 7 "audio.flac" "four" (demo_store [NoFault; FailBefore; FailHalf])).
  { exists (Pending, "7"%string). eexists _, 5%Z. split_and!; [done|done|]. by vm_compute. }
  split; [done|]. apply captured_media_is_never_lost; [by unfold in_u64, u64_max| |done].
  unfold captured, marker_names. by apply (bool_decide_unpack _).
Defined.
