(* ===== verification/LinkLoop.v ===== *)
(** * The status checks behind the journal link

    [Liveness] (crates/pl-transport-win/src/liveness.rs), the check loop of
    the coordinator, and [present_journal_link] of the app
    (src-tauri/src/app.rs), which feeds the presenter of [JournalLink] and sets
    the check cadence. The loops are a timed step relation: how they interleave
    with uploads, with the engine's publications of the health and with the
    app's readings of what was last published is left open. Times are
    milliseconds of one clock. *)
From S2P Require Import Prelude Model JournalLink.

Local Open Scope list_scope.
Local Open Scope Z_scope.

(** ** Liveness *)

Definition MIN_CHECK_SPACING : Z := FOREGROUND_CHECK_SECS * 1000.
Definition CHECK_POLL : Z := 1000.

(** [set_cadence] stores seconds; [cadence] reads them, [0] for none. *)
Definition cadence (cadence_secs : Z) : option Z :=
  if cadence_secs =? 0 then None else Some (cadence_secs * 1000).

(** ** The check loop *)

Record CheckLoop : Type := mkCheckLoop {
  cl_last_check : option Z;
  cl_resume_pending : bool;
  cl_failing : bool
}.
Definition new_check_loop : CheckLoop := mkCheckLoop None false false.

(** [opt.is_none_or(|at| now.duration_since(at) >= d)]. *)
Definition since (now d : Z) (t : option Z) : bool := from_option (λ at_, d <=? sat_sub now at_) true t.

(** One turn, after the wait: whether a check goes out. *)
Definition check_turn (resumed : bool) (now : Z) (cadence_secs : Z) (heard : option Z) (gate_open : bool) (l : CheckLoop)
    : CheckLoop * bool :=
  let l := if resumed then mkCheckLoop (cl_last_check l) true (cl_failing l) else l in
  match cadence cadence_secs with
  | None => (mkCheckLoop (cl_last_check l) false (cl_failing l), false)
  | Some cadence =>
    let spaced := since now MIN_CHECK_SPACING (cl_last_check l) in
    let quiet := since now cadence heard in
    if negb spaced || negb gate_open || negb (quiet || cl_resume_pending l) then (l, false)
    else (mkCheckLoop (Some now) false (cl_failing l), true)
  end.

(** A check's result; whether the upload loop is told that the journal is back. *)
Definition check_done (answered : bool) (l : CheckLoop) : CheckLoop * bool :=
  (mkCheckLoop (cl_last_check l) (cl_resume_pending l) (negb answered), answered && cl_failing l).

(** ** The app's reading *)

Record LinkWatch : Type := mkLinkWatch { was_up : bool; had_network : bool }.
Definition default_watch : LinkWatch := mkLinkWatch false false.

Record Presented : Type := mkPresented {
  pr_link : option JournalLink;
  pr_presenter : LinkPresenter;
  pr_watch : LinkWatch;
  pr_cadence_secs : Z;
  pr_resumed : bool
}.

(** The power and network state are what [platform_win] reports. *)
Definition present_journal_link (mains network : bool) (dump : HealthDump) (now_ms : Z)
    (presenter : LinkPresenter) (watch : LinkWatch) : Presented :=
  let up := bool_decide (app_state dump = Observing)
            && bool_decide (pairing_phase (sync_pairing (sync dump)) = Paired) in
  let check_secs := if mains then FOREGROUND_CHECK_SECS else BACKGROUND_CHECK_SECS in
  let checking := up && network in
  let r := present (mkLinkInput up (last_successful_sync (sync_upload (sync dump))) (lease_ms check_secs) network)
             now_ms presenter in
  mkPresented r.1 r.2 (mkLinkWatch up network) (if checking then check_secs else 0)
    (checking && negb (was_up watch && had_network watch)).

(** ** The timed system *)

(** Waiting for the next turn since the given instant, or for the answer to
    the check sent at it. *)
Inductive CheckPhase : Type := Waiting (since_ms : Z) | InFlight (sent : Z).

(** [ls_published] is the stamp in the health that the engine last published,
    at [ls_published_at]. *)
Record LinkSystem : Type := mkLinkSystem {
  ls_now : Z;
  ls_loop : CheckLoop;
  ls_phase : CheckPhase;
  ls_heard : option Z;
  ls_published : option Z;
  ls_published_at : Z;
  ls_cadence_secs : Z;
  ls_presenter : LinkPresenter;
  ls_watch : LinkWatch;
  ls_checks : list Z
}.

(** What the app reads: up, paired, and the stamp of an answer. *)
Definition dump_reads (dump : HealthDump) (heard : option Z) : Prop :=
  app_state dump = Observing ∧ pairing_phase (sync_pairing (sync dump)) = Paired ∧
  last_successful_sync (sync_upload (sync dump)) = heard.

Section timed.
(** Power; a check may go unanswered; the network may be lost; a check ends
    within [answer_ms] and the health is published every [publish_ms]. *)
Context (mains : bool) (may_fail may_lose : Prop) (answer_ms publish_ms : Z).

(** The instant by which the check loop moves on: its poll, or the end of the
    check. *)
Definition due_by (p : CheckPhase) : Z :=
  match p with Waiting t => t + CHECK_POLL | InFlight t => t + answer_ms end.
Definition in_time (s : LinkSystem) (t : Z) : Prop :=
  ls_now s ≤ t ≤ due_by (ls_phase s) ∧ t ≤ ls_published_at s + publish_ms.

Inductive link_step : LinkSystem → LinkSystem → Prop :=
(** Some upload or listing is answered. *)
| step_heard s t :
    in_time s t →
    link_step s (mkLinkSystem t (ls_loop s) (ls_phase s) (Some t) (ls_published s) (ls_published_at s) (ls_cadence_secs s) (ls_presenter s)
                   (ls_watch s) (ls_checks s))
(** A turn of the check loop with the gate open, woken by its poll or by a resume. *)
| step_turn s t began resumed l sent :
    ls_phase s = Waiting began → in_time s t →
    check_turn resumed t (ls_cadence_secs s) (ls_heard s) true (ls_loop s) = (l, sent) →
    link_step s (mkLinkSystem t l (if sent then InFlight t else Waiting t) (ls_heard s) (ls_published s) (ls_published_at s) (ls_cadence_secs s)
                   (ls_presenter s) (ls_watch s) (if sent then ls_checks s ++ [t] else ls_checks s))
(** The check ends, answered or not. *)
| step_done s t sent answered l recovered :
    ls_phase s = InFlight sent → in_time s t → (answered = false → may_fail) →
    check_done answered (ls_loop s) = (l, recovered) →
    link_step s (mkLinkSystem t l (Waiting t) (if answered then Some t else ls_heard s) (ls_published s) (ls_published_at s) (ls_cadence_secs s)
                   (ls_presenter s) (ls_watch s) (ls_checks s))
(** The engine publishes the health. *)
| step_publish s t :
    in_time s t →
    link_step s (mkLinkSystem t (ls_loop s) (ls_phase s) (ls_heard s) (ls_heard s) t (ls_cadence_secs s) (ls_presenter s)
                   (ls_watch s) (ls_checks s))
(** The app reads what was last published and presents the link. *)
| step_read s t network dump r :
    in_time s t → dump_reads dump (ls_published s) → (network = false → may_lose) →
    r = present_journal_link mains network dump t (ls_presenter s) (ls_watch s) →
    link_step s (mkLinkSystem t (ls_loop s) (ls_phase s) (ls_heard s) (ls_published s) (ls_published_at s) (pr_cadence_secs r) (pr_presenter r)
                   (pr_watch r) (ls_checks s)).
End timed.

(** ** Checks are spaced *)

Definition start_system (t : Z) : LinkSystem :=
  mkLinkSystem t new_check_loop (Waiting t) None None t FOREGROUND_CHECK_SECS default_presenter default_watch [].

Definition spaced_checks (ts : list Z) : Prop :=
  ∀ pre a b post, ts = pre ++ a :: b :: post → a + MIN_CHECK_SPACING ≤ b.

Lemma spaced_snoc ts t : spaced_checks ts → (∀ a, last ts = Some a → a + MIN_CHECK_SPACING ≤ t) → spaced_checks (ts ++ [t]).
Proof.
  intros Hts Hlast pre a b post Heq. destruct (decide (post = [])) as [->|Hne].
  - change (pre ++ [a; b]) with (pre ++ [a] ++ [b]) in Heq. rewrite app_assoc in Heq.
    apply app_inj_tail in Heq as [-> ->]. apply Hlast. by rewrite last_snoc.
  - destruct (exists_last Hne) as (post' & x & ->). rewrite !app_comm_cons, app_assoc in Heq.
    apply app_inj_tail in Heq as [-> _]. by eapply Hts.
Qed.

Lemma check_turn_sent resumed now secs heard gate l l' :
  check_turn resumed now secs heard gate l = (l', true) →
  since now MIN_CHECK_SPACING (cl_last_check l) = true ∧ cl_last_check l' = Some now.
Proof.
  unfold check_turn. destruct (cadence secs) as [c|]; [|done].
  assert (Hl : cl_last_check (if resumed then mkCheckLoop (cl_last_check l) true (cl_failing l) else l) = cl_last_check l)
    by (by destruct resumed).
  cbv zeta. rewrite Hl. destruct (since now MIN_CHECK_SPACING (cl_last_check l)); cbn [negb orb]; [|done].
  destruct (negb gate || _); [done|]. by intros [= <-].
Qed.

Lemma check_turn_idle resumed now secs heard gate l l' :
  check_turn resumed now secs heard gate l = (l', false) → cl_last_check l' = cl_last_check l.
Proof.
  unfold check_turn. destruct (cadence secs) as [c|]; cbv zeta.
  - destruct (_ || _); [|done]. intros [= <-]. by destruct resumed.
  - intros [= <-]. by destruct resumed.
Qed.

Definition spacing_inv (s : LinkSystem) : Prop :=
  spaced_checks (ls_checks s) ∧ last (ls_checks s) = cl_last_check (ls_loop s) ∧
  ∀ k, cl_last_check (ls_loop s) = Some k → k ≤ ls_now s.

Lemma spacing_step mains may_fail may_lose answer publish s s' :
  link_step mains may_fail may_lose answer publish s s' → spacing_inv s → spacing_inv s'.
Proof.
  intros Hstep (Hsp & Hl & Hk).
  assert (Hlater : ∀ t, ls_now s ≤ t → ∀ k, cl_last_check (ls_loop s) = Some k → k ≤ t).
  { intros t Ht k Hk'. specialize (Hk k Hk'). lia. }
  destruct Hstep as [s t Ht|s t began resumed l sent Hp Ht Hturn|s t sent answered l rec Hp Ht _ Hd|s t Ht|s t net dump r Ht _ _ ->];
    destruct Ht as [[Ht _] _]; unfold spacing_inv; cbn [ls_checks ls_loop ls_now].
  - auto.
  - destruct sent.
    + apply check_turn_sent in Hturn as [Hs Hl']. rewrite Hl', last_snoc. split_and!; [|done|intros k [= <-]; lia].
      apply spaced_snoc; [done|]. intros a Ha. rewrite <-Hl, Ha in Hs. cbn in Hs. apply Z.leb_le in Hs.
      unfold sat_sub, MIN_CHECK_SPACING, FOREGROUND_CHECK_SECS in *. lia.
    + apply check_turn_idle in Hturn. rewrite Hturn. auto.
  - injection Hd as <- _. auto.
  - auto.
  - auto.
Qed.

(** Checks are spaced. Whatever is heard, read or resumed, and whatever
    cadence the app sets, two status checks never go out less than 15 seconds
    apart. *)
Theorem checks_are_spaced (mains : bool) (may_fail may_lose : Prop) (answer publish t0 : Z) (s : LinkSystem) :
  rtc (link_step mains may_fail may_lose answer publish) (start_system t0) s → spaced_checks (ls_checks s).
Proof.
  intros Hrun. enough (spacing_inv s) as [? _] by done. revert s Hrun. apply rtc_ind_r.
  - split_and!; [by intros [|? []]|done|done].
  - intros y z _ Hstep. by apply (spacing_step mains may_fail may_lose answer publish).
Qed.

(** Two checks as close as allowed: at launch, and 15 seconds on, although
    the first was never answered. *)
Definition unanswered_at (t : Z) : LinkSystem :=
  mkLinkSystem t (mkCheckLoop (Some 0) false true) (Waiting t) None None 0 15 default_presenter default_watch [0].
Definition second_check : LinkSystem :=
  mkLinkSystem 15000 (mkCheckLoop (Some 15000) false true) (InFlight 15000) None None 0 15 default_presenter default_watch [0; 15000].

Lemma unanswered_turn t : 0 ≤ t → t + 1000 < 15000 → link_step true True True 5000 60000 (unanswered_at t) (unanswered_at (t + 1000)).
Proof.
  intros ? ?. apply (step_turn true True True 5000 60000 (unanswered_at t) (t + 1000) t false (mkCheckLoop (Some 0) false true) false);
    [done|unfold in_time; cbn; unfold CHECK_POLL; lia|].
  unfold check_turn, since, sat_sub, MIN_CHECK_SPACING, FOREGROUND_CHECK_SECS. cbn [from_option cl_last_check unanswered_at ls_loop].
  by rewrite (proj2 (Z.leb_gt _ _)) by lia.
Qed.

Lemma second_check_run : rtc (link_step true True True 5000 60000) (start_system 0) second_check.
Proof.
  eapply rtc_l; [by apply (step_turn true True True 5000 60000 (start_system 0) 0 0 false (mkCheckLoop (Some 0) false false) true)|].
  eapply rtc_l; [eapply (step_done true True True 5000 60000 _ 5000 0 false (mkCheckLoop (Some 0) false true) false); by try apply I|].
  change (rtc (link_step true True True 5000 60000) (unanswered_at 5000) second_check).
  do 9 (eapply rtc_l; [by apply unanswered_turn|cbn [Z.add Pos.add Pos.succ]]).
  apply rtc_once. by apply (step_turn true True True 5000 60000 (unanswered_at 14000) 15000 14000 false (mkCheckLoop (Some 15000) false true) true).
Qed.

Lemma checks_are_spaced_witness : spaced_checks [0; 15000] ∧ ls_checks second_check = [0; 15000].
Proof. split; [|done]. apply (checks_are_spaced true True True 5000 60000 0 second_check), second_check_run. Defined.

(** ** A journal that answers stays connected *)

Definition check_secs (mains : bool) : Z := if mains then FOREGROUND_CHECK_SECS else BACKGROUND_CHECK_SECS.

(** The first answer came at [h], was published at [p] and read at [t]. *)
Definition first_answer (mains : bool) (h p t : Z) (dump : HealthDump) : LinkSystem :=
  let r := present_journal_link mains true dump t default_presenter default_watch in
  mkLinkSystem t new_check_loop (Waiting h) (Some h) (Some h) p (pr_cadence_secs r) (pr_presenter r) (pr_watch r) [].

Section answering.
Context (mains : bool) (answer_ms publish_ms : Z) (Hanswer : 0 ≤ answer_ms) (Hpublish : 0 ≤ publish_ms)
  (Hslack : answer_ms + publish_ms ≤ CHECK_TIMEOUT_SECS * 1000).
Notation step := (link_step mains False False answer_ms publish_ms).

(** The longest from one answer to the next. *)
Definition cycle_ms : Z := check_secs mains * 1000 + CHECK_POLL + answer_ms.

(** The check loop's side: the next answer is never late. *)
Record on_time (s : LinkSystem) : Prop := {
  ot_cadence : ls_cadence_secs s = check_secs mains;
  ot_heard : ∃ h, ls_heard s = Some h ∧ 0 ≤ h ≤ ls_now s ∧
    (∀ k, cl_last_check (ls_loop s) = Some k → k ≤ match ls_phase s with Waiting _ => h | InFlight sent => sent end) ∧
    match ls_phase s with
    | Waiting began => began ≤ ls_now s ≤ began + CHECK_POLL ∧ began < h + check_secs mains * 1000
    | InFlight sent => sent ≤ ls_now s ≤ sent + answer_ms ∧ sent < h + check_secs mains * 1000 + CHECK_POLL
    end ∧
    ∃ g, ls_published s = Some g ∧ 0 ≤ g ≤ h ∧ g ≤ ls_published_at s ≤ ls_now s ∧
      ls_now s ≤ ls_published_at s + publish_ms ∧ ls_published_at s < g + cycle_ms
}.

(** So the answer that is published is always within its lease. *)
Lemma on_time_lease s : on_time s → ∃ g, ls_published s = Some g ∧ g ≤ ls_now s < g + lease_ms (check_secs mains).
Proof.
  intros [_ (h & _ & _ & _ & _ & g & Hg & Hgh & Hpub & Hnow & Hcyc)]. exists g. split; [done|].
  unfold cycle_ms, lease_ms, CHECK_TIMEOUT_SECS, CHECK_POLL in *. lia.
Qed.

Lemma since_false now d t : since now d (Some t) = false → now < t + d.
Proof. unfold since, from_option, sat_sub. rewrite Z.leb_gt. lia. Qed.

(** A turn that sends nothing was not due. *)
Lemma idle_turn_early resumed t l l' h :
  check_turn resumed t (check_secs mains) (Some h) true l = (l', false) →
  (∀ k, cl_last_check l = Some k → k ≤ h) → t < h + check_secs mains * 1000.
Proof.
  intros Hturn Hk. destruct (since t (check_secs mains * 1000) (Some h)) eqn:Hq; [|by apply since_false].
  exfalso. revert Hturn. unfold check_turn, cadence.
  replace (check_secs mains =? 0) with false by (by destruct mains). cbv zeta.
  rewrite Hq. cbn [negb orb]. rewrite !orb_false_r. replace (since t MIN_CHECK_SPACING _) with true; [done|].
  apply Z.leb_le in Hq. symmetry.
  replace (cl_last_check (if resumed then _ else l)) with (cl_last_check l) by (by destruct resumed).
  destruct (cl_last_check l) as [k|] eqn:Hl; [|done]. specialize (Hk k eq_refl). cbn. apply Z.leb_le.
  unfold sat_sub, MIN_CHECK_SPACING, check_secs, FOREGROUND_CHECK_SECS, BACKGROUND_CHECK_SECS in *. destruct mains; lia.
Qed.

Lemma present_cadence dump heard t p w :
  dump_reads dump heard → pr_cadence_secs (present_journal_link mains true dump t p w) = check_secs mains ∧
  pr_presenter (present_journal_link mains true dump t p w) = (present (mkLinkInput true heard (lease_ms (check_secs mains)) true) t p).2.
Proof.
  intros (Ho & Hp & <-). unfold present_journal_link. cbv zeta. cbn. by rewrite Ho, Hp.
Qed.

Lemma on_time_step s s' : step s s' → on_time s → on_time s'.
Proof.
  intros Hstep [Hc (h & Hh & Hle & Hk & Hp & g & Hg & Hgh & Hpub & Hnow & Hcyc)].
  assert (Hcp : 0 < check_secs mains) by (by destruct mains).
  destruct Hstep as [s t Ht|s t began resumed l sent Hph Ht Hturn|s t sent answered l rec Hph Ht Hans Hd|s t Ht|s t net dump r Ht Hd Hnet ->];
    unfold in_time, due_by in Ht.
  - split; [done|]. exists t. cbn. split_and!; try done; try lia; [destruct (ls_phase s); intros k Hk'; specialize (Hk k Hk'); lia|destruct (ls_phase s); lia|].
    exists g. split_and!; done || lia.
  - rewrite Hph in *. rewrite Hc, Hh in Hturn. split; [done|]. exists h. destruct sent; cbn.
    + apply check_turn_sent in Hturn as [_ ->]. unfold CHECK_POLL in *.
      split_and!; try done; try lia; [intros k [= <-]; lia|]. exists g. split_and!; done || lia.
    + pose proof (idle_turn_early _ _ _ _ _ Hturn Hk). apply check_turn_idle in Hturn. rewrite Hturn.
      unfold CHECK_POLL in *. split_and!; try done; try lia. exists g. split_and!; done || lia.
  - rewrite Hph in *. injection Hd as <- _. destruct answered; [|by destruct (Hans eq_refl)]. split; [done|]. exists t. cbn.
    unfold CHECK_POLL in *. split_and!; try done; try lia; [intros k Hk'; specialize (Hk k Hk'); lia|]. exists g. split_and!; done || lia.
  - split; [done|]. exists h. cbn. split_and!; try done; try lia; [destruct (ls_phase s); lia|]. exists h.
    unfold cycle_ms. destruct (ls_phase s); split_and!; done || lia.
  - destruct net; [|by destruct (Hnet eq_refl)].
    destruct (present_cadence dump (ls_published s) t (ls_presenter s) (ls_watch s) Hd) as [Hcad _].
    split; [done|]. exists h. cbn. split_and!; try done; try lia; [destruct (ls_phase s); lia|]. exists g. split_and!; done || lia.
Qed.

(** The presenter's side: connected on an answer it has noted. *)
Record shows_connected (s : LinkSystem) : Prop := {
  sc_shown : lp_shown (ls_presenter s) = Some Connected;
  sc_network : lp_no_network (ls_presenter s) = false;
  sc_waits : lp_dropped_at (ls_presenter s) = None ∧ lp_hold_until (ls_presenter s) = None;
  sc_lease : lp_lease_ms (ls_presenter s) = lease_ms (check_secs mains);
  sc_noted : ∃ a r, lp_answered (ls_presenter s) = Some a ∧ lp_heard_at (ls_presenter s) = Some r ∧
    a ≤ r ≤ ls_now s ∧ ∀ g, ls_published s = Some g → a ≤ g
}.

(** A reading while the last answer is within its lease. *)
Lemma present_stays_connected lease t p a r h :
  lp_shown p = Some Connected → lp_no_network p = false → lp_dropped_at p = None → lp_hold_until p = None →
  lp_lease_ms p = lease → lp_answered p = Some a → lp_heard_at p = Some r →
  0 < lease → a ≤ r ≤ t → t < h + lease → t < u64_max →
  let q := (present (mkLinkInput true (Some h) lease true) t p).2 in
  lp_shown q = Some Connected ∧ lp_no_network q = false ∧ lp_dropped_at q = None ∧ lp_hold_until q = None ∧
  lp_lease_ms q = lease ∧ lp_answered q = Some h ∧ lp_heard_at q = Some (if decide (h = a) then r else t).
Proof.
  intros Hs Hn Hd Hh Hl Ha Hr Hpos Har Hth Hmax. cbv zeta. unfold present, take_answer. cbv zeta. cbn [li_answered li_lease_ms li_network li_up].
  assert (Hfresh : ∀ x, a ≤ r → t < x + lease → before t (Some (sat_add_u64 x lease)) = true).
  { intros x _ Hx. cbn. apply Z.ltb_lt. unfold sat_add_u64. lia. }
  destruct (decide (h = a)) as [->|Hne].
  - rewrite bool_decide_true by congruence. rewrite Hl, Z.max_id, Hn. cbn [negb andb set_no_network].
    unfold enter_episode. rewrite bool_decide_false by (cbn; congruence).
    unfold decide_link, fresh, fresh_until, dwell_until. cbn. rewrite Hr, Hd. cbn.
    pose proof (Hfresh r ltac:(lia) ltac:(lia)) as Hf. cbn in Hf. rewrite Hf. cbn. by rewrite Hn, Hd, Ha, Hr || done.
  - rewrite bool_decide_false by congruence. cbn. rewrite Hn. cbn.
    unfold enter_episode. rewrite bool_decide_false by (cbn; congruence).
    unfold decide_link, fresh, fresh_until, dwell_until. cbn. rewrite Hd. cbn.
    pose proof (Hfresh t ltac:(lia) ltac:(lia)) as Hf. cbn in Hf. rewrite Hf. cbn. done.
Qed.

Lemma connected_step s s' :
  step s s' → on_time s → on_time s' → ls_now s' < u64_max → shows_connected s → shows_connected s'.
Proof.
  intros Hstep Hot0 Hot Hmax [Hs Hn [Hd Hh] Hl (a & r & Ha & Hr & Har & Hah)].
  destruct (on_time_lease _ Hot) as (g & Hpub & Hlease).
  destruct Hstep as [s t Ht|s t began resumed l sent Hph Ht Hturn|s t sent answered l rec Hph Ht Hans Hdone|s t Ht|s t net dump x Ht Hd' Hnet ->];
    destruct Ht as [Ht _]; cbn [ls_published ls_heard ls_now] in *.
  - split; try done. exists a, r. split_and!; try done; cbn; lia.
  - split; try done. exists a, r. split_and!; try done; cbn; lia.
  - split; try done. exists a, r. split_and!; try done; cbn; lia.
  - split; try done. exists a, r. split_and!; try done; cbn; try lia. intros h Hhh.
    destruct Hot0 as [_ (h0 & Hh0 & _ & _ & _ & g0 & Hg0 & Hgh & _)]. specialize (Hah _ Hg0). rewrite Hh0 in Hhh. injection Hhh as <-. lia.
  - destruct net; [|by destruct (Hnet eq_refl)].
    destruct (present_cadence dump (ls_published s) t (ls_presenter s) (ls_watch s) Hd') as [_ Hp]. rewrite Hpub in *.
    destruct (present_stays_connected (lease_ms (check_secs mains)) t (ls_presenter s) a r g) as (K1 & K2 & K3 & K4 & K5 & K6 & K7);
      try done; try lia; try (by destruct mains).
    rewrite <-Hp in *. split; try done. exists g, (if decide (g = a) then r else t).
    split_and!; try done; cbn; try (destruct (decide (g = a)); lia). by intros ? [= <-].
Qed.

Lemma first_answer_ok h p t dump :
  0 ≤ h ≤ p → p ≤ t → t ≤ h + CHECK_POLL → t ≤ p + publish_ms → t < u64_max → dump_reads dump (Some h) →
  on_time (first_answer mains h p t dump) ∧ shows_connected (first_answer mains h p t dump).
Proof using Hanswer.
  intros Hhp Hpt Htp Htd Hmax Hd. destruct (present_cadence dump (Some h) t default_presenter default_watch Hd) as [Hc Hp].
  assert (Hcp : 0 < check_secs mains) by (by destruct mains). split.
  - split; [done|]. exists h. cbn. unfold cycle_ms, CHECK_POLL in *. split_and!; try done; try lia. exists h. split_and!; done || lia.
  - assert (Hl : CHECK_POLL < lease_ms (check_secs mains)) by (by destruct mains). unfold CHECK_POLL in Hl.
    assert (Hf : (t <? sat_add_u64 t (lease_ms (check_secs mains))) = true) by (apply Z.ltb_lt; unfold sat_add_u64; lia).
    unfold first_answer. cbv zeta. rewrite Hp. unfold present, take_answer, enter_episode, decide_link, fresh, fresh_until.
    cbn [li_answered lp_answered default_presenter]. rewrite (bool_decide_false (Some h = None)) by done.
    cbn -[sat_add_u64 lease_ms check_secs Z.ltb]. rewrite Hf. cbn -[lease_ms check_secs]. split; try done. exists h, t. split_and!; try done; cbn; try lia. by intros ? [= <-].
Qed.

End answering.

(** On mains: silence for 15 seconds, a check answered 4 seconds late, published
    a second later and read then. *)
Definition reading_dump (heard : option Z) : HealthDump :=
  mkHealthDump Observing [] None None None true "1" (mkSyncSnapshot
    (mkPairingState Paired None None None "" false false)
    (mkUploadStatus 0 0 0 0 0 0 0 0 0 None None None heard 0 None None None None None)
    None false "" "" None "" "" [] None) None None None None ∅ false (mkListenerFaults None None) default_setup_snapshot.

(** Waiting, or with a check out since [sent], and published at [t]. *)
Definition quiet_at (sent : option Z) (t : Z) : LinkSystem :=
  let s := first_answer true 0 0 0 (reading_dump (Some 0)) in
  mkLinkSystem t (match sent with Some at_ => mkCheckLoop (Some at_) false false | None => ls_loop s end)
    (match sent with Some at_ => InFlight at_ | None => Waiting t end) (ls_heard s) (ls_heard s) t (ls_cadence_secs s)
    (ls_presenter s) (ls_watch s) (match sent with Some at_ => [at_] | None => [] end).

(** A turn of the loop and a publication, [d] later. *)
Lemma quiet_turn a t d : 0 ≤ t → 0 ≤ d ≤ 1000 → t + d < 15000 → rtc (link_step true False False a 1000) (quiet_at None t) (quiet_at None (t + d)).
Proof.
  intros ? ? ?. eapply rtc_l; [apply (step_turn true False False a 1000 (quiet_at None t) (t + d) t false new_check_loop false);
    [done|unfold in_time; cbn; unfold CHECK_POLL; lia|]|].
  - change (check_turn false (t + d) 15 (Some 0) true new_check_loop = (new_check_loop, false)).
    unfold check_turn, cadence. cbn [Z.eqb]. cbv zeta.
    replace (since (t + d) (15 * 1000) (Some 0)) with false; [done|].
    symmetry. unfold since, from_option, sat_sub. apply Z.leb_gt. lia.
  - apply rtc_once. match goal with |- link_step _ _ _ _ _ ?s _ => apply (step_publish true False False a 1000 s (t + d)) end. unfold in_time; cbn; unfold CHECK_POLL; lia.
Qed.
Lemma quiet_turns a n t : 0 ≤ t → t + 1000 * Z.of_nat n < 15000 → rtc (link_step true False False a 1000) (quiet_at None t) (quiet_at None (t + 1000 * Z.of_nat n)).
Proof.
  induction n as [|n IH]; intros Ht Hn; [by rewrite Z.add_0_r|].
  etrans; [apply IH; lia|]. replace (t + 1000 * Z.of_nat (S n)) with (t + 1000 * Z.of_nat n + 1000) by lia. apply quiet_turn; lia.
Qed.
(** The turn that sends the check, and publications while it is out. *)
Lemma quiet_check a t d : 0 ≤ a → 0 ≤ t → 0 ≤ d ≤ 1000 → 15000 ≤ t + d →
  rtc (link_step true False False a 1000) (quiet_at None t) (quiet_at (Some (t + d)) (t + d)).
Proof.
  intros ? ? ? ?. eapply rtc_l; [apply (step_turn true False False a 1000 (quiet_at None t) (t + d) t false (mkCheckLoop (Some (t + d)) false false) true);
    [done|unfold in_time; cbn; unfold CHECK_POLL; lia|]|].
  - change (check_turn false (t + d) 15 (Some 0) true new_check_loop = (mkCheckLoop (Some (t + d)) false false, true)).
    unfold check_turn, cadence. cbn [Z.eqb]. cbv zeta.
    replace (since (t + d) (15 * 1000) (Some 0)) with true; [done|].
    symmetry. unfold since, from_option, sat_sub. apply Z.leb_le. lia.
  - apply rtc_once. match goal with |- link_step _ _ _ _ _ ?s _ => apply (step_publish true False False a 1000 s (t + d)) end. unfold in_time; cbn; lia.
Qed.
Lemma quiet_wait a sent n : 0 ≤ sent → 1000 * Z.of_nat n ≤ a →
  rtc (link_step true False False a 1000) (quiet_at (Some sent) sent) (quiet_at (Some sent) (sent + 1000 * Z.of_nat n)).
Proof.
  induction n as [|n IH]; intros Hs Hn; [by rewrite Z.add_0_r|]. etrans; [apply IH; lia|]. apply rtc_once.
  apply (step_publish true False False a 1000 (quiet_at (Some sent) (sent + 1000 * Z.of_nat n)) (sent + 1000 * Z.of_nat (S n))). unfold in_time; cbn; lia.
Qed.


(** Answers that use up the timeout can come too late for the reading: the
    check goes out 15999 after the last answer, is answered 5 seconds later,
    and the reading at the end of the lease still sees the old stamp. *)
Example slow_answer_shows_a_drop :
  ∃ s, rtc (link_step true False False 5000 1000) (first_answer true 0 0 0 (reading_dump (Some 0))) s ∧ ls_now s = 21000 ∧
       ls_heard s = Some 20999 ∧ lp_shown (ls_presenter s) = Some Connecting.
Proof.
  eexists. split; [|split; [|split]].
  - change (first_answer true 0 0 0 (reading_dump (Some 0))) with (quiet_at None 0).
    etrans; [apply (quiet_turn 5000 0 999); lia|]. etrans; [apply (quiet_turns 5000 14 999); lia|].
    etrans; [apply (quiet_check 5000 14999 1000); lia|]. etrans; [apply (quiet_wait 5000 15999 5); lia|].
    eapply rtc_l; [eapply (step_done true False False 5000 1000 _ 20999 15999 true (mkCheckLoop (Some 15999) false false) false); [done|unfold in_time; cbn; lia|done|done]|].
    eapply rtc_once. eapply (step_read true False False 5000 1000 _ 21000 true (reading_dump (Some 0))); [unfold in_time; cbn; unfold CHECK_POLL; lia|done..].
  - done.
  - done.
  - done.
Qed.
