(* ===== verification/Admission.v ===== *)
(** * Update package admission (crates/observer-update/src/admission.rs)

    What the app accepts as an update: a plain file name, a bounded detached
    signature that verifies over the package bytes, and a manifest inside the
    package that names exactly this program. The archive reader, the XML
    reader, the version library and the signature verifier are parameters.
    Error texts are kept where they do not quote a third-party error. The
    Windows build is the one modelled. *)
From Stdlib Require Import Ascii String.
From S2P Require Import Prelude RustStr PauseStore Ingest.

Local Open Scope list_scope.

Definition SIDECAR_MAX_BYTES : nat := 4096.
Definition MAX_NUSPEC_BYTES : Z := 65536.

Inductive Admission : Type := Ready | NotReady | Refuse.

(** ** File names and addresses *)

Definition is_full_asset_type (asset_type : string) : bool := eq_ignore_ascii_case asset_type "Full".

Definition plain_byte (c : ascii) : bool :=
  is_ascii_alphanumeric c || Ascii.eqb c "." || Ascii.eqb c "_" || Ascii.eqb c "-".

Definition check_plain_filename (file_name : string) : result unit string :=
  if is_empty file_name || starts_with "." file_name || contains file_name ".." || negb (all_bytes plain_byte file_name)
  then Err "filename must be one plain ASCII filename"%string
  else Ok tt.

(** [trim_end_matches('/')]. *)
Fixpoint trim_end_slashes (s : string) : string :=
  match s with
  | EmptyString => EmptyString
  | String c s =>
    match trim_end_slashes s with
    | EmptyString => if Ascii.eqb c "/" then EmptyString else String c EmptyString
    | t => String c t
    end
  end.

Definition sibling_url (feed_base file_name : string) : result string string :=
  match check_plain_filename file_name with
  | Err e => Err e
  | Ok _ =>
    let base_with_slash := trim_end_slashes feed_base +:+ "/" in
    match split_once "://" base_with_slash with
    | None => Err "missing scheme in feed base URL"%string
    | Some (scheme, rest) =>
      if negb (String.eqb scheme "https") && negb (String.eqb scheme "http")
      then Err ("unsupported scheme: " +:+ scheme)
      else
        let '(host_port, path_part) :=
          match split_once "/" rest with
          | Some (hp, p) => (hp, String "/" p)
          | None => (rest, "/"%string)
          end in
        if is_empty host_port then Err "empty host in feed base URL"%string
        else
          let path_prefix := trim_end_slashes path_part in
          let resolved_path := if is_empty path_prefix then String "/" file_name else path_prefix +:+ "/" +:+ file_name in
          if negb (starts_with path_prefix resolved_path) then Err "resolved path escapes base path"%string
          else Ok (scheme +:+ "://" +:+ host_port +:+ resolved_path)
    end
  end.

(** ** The libraries *)

Inductive XmlEvent : Type := XStart (local_name : string) | XEnd | XText (s : string) | XOther.

(** An archive entry: its name if it is valid, its declared size, its contents. *)
Record ZipEntry : Type := mkZipEntry { ze_name : option string; ze_size : Z; ze_contents : option string }.

Class PackageLib : Type := {
  Version : Type;
  version_eq_dec :: EqDecision Version;
  version_parse : string → option Version;
  version_gt : Version → Version → bool;
  version_gt_irrefl a : version_gt a a = false;
  version_gt_trans a b c : version_gt a b = true → version_gt b c = true → version_gt a c = true;
  zip_archive : string → option (list (option ZipEntry));
  xml_events : string → list (result XmlEvent unit);
  verify_signature : string → string → bool
}.

(** Reading a file, as far as each call succeeds. *)
Record FileView : Type := mkFileView {
  fv_exists : bool;
  fv_link_is_file : option bool;
  fv_open : bool;
  fv_opened_is_file : option bool;
  fv_bytes : option string;
  fv_rewinds : bool;
  fv_still_file : option bool
}.

Section admission.
Context `{PackageLib}.

(** [read_sidecar_bounded]: [take] reads one byte more than the cap at most. *)
Definition read_sidecar_bounded (contents : option string) : option string :=
  bytes ← contents;
  let buf := String.substring 0 (S SIDECAR_MAX_BYTES) bytes in
  if (SIDECAR_MAX_BYTES <? String.length buf)%nat then None
  else if String.eqb (from_utf8_lossy buf) buf then Some buf else None.

(** ** The manifest *)

Record NuspecIdentity : Type := mkNuspecIdentity {
  ni_id : string;
  ni_version : Version;
  ni_channel : string;
  ni_os : string;
  ni_rid : string;
  ni_machine_architecture : string;
  ni_main_exe : string
}.

Definition identity_tags : list string :=
  ["id"; "version"; "channel"; "os"; "rid"; "machineArchitecture"; "mainExe"]%string.
Definition identity_tag (tag : string) : bool := bool_decide (tag ∈ identity_tags).

(** [current_element], innermost first; [seen]; the text of each field. *)
Record NuspecState : Type := mkNuspecState {
  ns_path : list string;
  ns_seen : gset string;
  ns_text : gmap string string
}.

Definition nuspec_event (event : XmlEvent) (st : NuspecState) : result NuspecState string :=
  match event with
  | XStart tag =>
    if from_option identity_tag false (head (ns_path st)) then Err "nested identity element"%string
    else
      let path := tag :: ns_path st in
      if identity_tag tag then
        if negb (bool_decide (path = [tag; "metadata"; "package"]%string))
        then Err "identity element outside package metadata"%string
        else if bool_decide (tag ∈ ns_seen st) then Err "duplicate identity element"%string
        else Ok (mkNuspecState path ({[tag]} ∪ ns_seen st) (ns_text st))
      else Ok (mkNuspecState path (ns_seen st) (ns_text st))
  | XEnd => Ok (mkNuspecState (tail (ns_path st)) (ns_seen st) (ns_text st))
  | XText text =>
    match head (ns_path st) with
    | Some el =>
      if is_empty (trim text) || negb (identity_tag el) then Ok st
      else Ok (mkNuspecState (ns_path st) (ns_seen st)
                 (<[el := default EmptyString (ns_text st !! el) +:+ text]> (ns_text st)))
    | None => Ok st
    end
  | XOther => Ok st
  end.

Fixpoint nuspec_events (events : list (result XmlEvent unit)) (st : NuspecState) : result NuspecState string :=
  match events with
  | [] => Ok st
  | Err _ :: _ => Err "malformed XML in .nuspec"%string
  | Ok event :: events =>
    match nuspec_event event st with Ok st => nuspec_events events st | Err e => Err e end
  end.

(** The index of the one [.nuspec] entry. *)
Fixpoint find_nuspec (i : nat) (entries : list (option ZipEntry)) (found : option nat) : result (option nat) string :=
  match entries with
  | [] => Ok found
  | None :: _ => Err "invalid zip entry"%string
  | Some entry :: entries =>
    match ze_name entry with
    | None => Err "invalid entry name"%string
    | Some name =>
      if ends_with (to_ascii_lowercase name) ".nuspec" then
        match found with
        | Some _ => Err "package contains multiple .nuspec entries"%string
        | None => find_nuspec (S i) entries (Some i)
        end
      else find_nuspec (S i) entries found
    end
  end.

Definition read_nuspec (package : string) : result string string :=
  match zip_archive package with
  | None => Err "invalid zip package"%string
  | Some entries =>
    match find_nuspec 0 entries None with
    | Err e => Err e
    | Ok None => Err "package contains no .nuspec entry"%string
    | Ok (Some i) =>
      match entries !! i with
      | Some (Some entry) =>
        if (MAX_NUSPEC_BYTES <? ze_size entry)%Z then Err "nuspec exceeds the size limit"%string
        else
          match ze_contents entry with
          | None => Err "failed to read .nuspec contents"%string
          | Some bytes =>
            if (MAX_NUSPEC_BYTES <? Z.of_nat (String.length bytes))%Z then Err "nuspec exceeds the size limit"%string
            else Ok bytes
          end
      | _ => Err "failed to read .nuspec entry"%string
      end
    end
  end.

(** A required field, trimmed. *)
Definition field (st : NuspecState) (tag : string) : result string string :=
  match ns_text st !! tag with
  | Some value => Ok (trim value)
  | None => Err ("missing " +:+ tag +:+ " in .nuspec")
  end.

Definition expect (got want : string) (what : string) : result unit string :=
  if String.eqb got want then Ok tt else Err ("unexpected " +:+ what +:+ ": " +:+ got).

(** The [?] operator. *)
Definition and_then {A B E} (r : result A E) (k : A → result B E) : result B E :=
  match r with Ok a => k a | Err e => Err e end.
Local Notation "'let?' x := r 'in' k" := (and_then r (λ x, k)) (at level 200, x name, r at level 100, k at level 200).

Definition identity_of (st : NuspecState) : result NuspecIdentity string :=
  let? id := field st "id" in
  let? version_raw := field st "version" in
  let? channel := field st "channel" in
  let? os := field st "os" in
  let? rid := field st "rid" in
  let? machine_architecture := field st "machineArchitecture" in
  let? main_exe := field st "mainExe" in
  let? _u := expect id "Solstone" "package id" in
  let? _u := expect channel "win" "package channel" in
  let? _u := expect os "win" "package os" in
  let? _u := expect rid "win-x64" "package rid" in
  let? _u := expect machine_architecture "x64" "machineArchitecture" in
  let? _u := expect main_exe "solstone-windows-app.exe" "mainExe" in
  match version_parse version_raw with
  | Some v => Ok (mkNuspecIdentity id v channel os rid machine_architecture main_exe)
  | None => Err ("invalid semver in .nuspec version " +:+ version_raw)
  end.

Definition parse_nuspec_identity (package : string) : result NuspecIdentity string :=
  match read_nuspec package with
  | Err e => Err e
  | Ok xml =>
    match nuspec_events (xml_events xml) (mkNuspecState [] ∅ ∅) with
    | Err e => Err e
    | Ok st => identity_of st
    end
  end.

Definition verify_nuspec (package expected_version : string) : result NuspecIdentity string :=
  match parse_nuspec_identity package with
  | Err e => Err e
  | Ok identity =>
    match version_parse expected_version with
    | None => Err ("invalid expected semver " +:+ expected_version)
    | Some expected =>
      if decide (ni_version identity = expected) then Ok identity
      else Err "manifest version does not match expected version"%string
    end
  end.

(** ** Admission *)

Definition admit_package_reader (package : string) (sidecar_text : option string) (expected_version : string) : Admission :=
  match sidecar_text with
  | None => NotReady
  | Some sidecar =>
    if negb (verify_signature package sidecar) then Refuse
    else match verify_nuspec package expected_version with Ok _ => Ready | Err _ => Refuse end
  end.

(** [open_regular_package]: the bytes behind the held handle. *)
Definition open_regular_package (f : FileView) : option (option string) :=
  if bool_decide (fv_link_is_file f = Some true) && fv_open f && bool_decide (fv_opened_is_file f = Some true)
  then Some (fv_bytes f) else None.

Record AuthenticatedPackage : Type := mkAuthenticatedPackage {
  ap_name : string;
  ap_identity : NuspecIdentity;
  ap_bytes : string
}.

(** A directory: what each plain name in it leads to. *)
Definition admit_cached_package (dir : string → FileView) (file_name : option string)
    : result AuthenticatedPackage Admission :=
  match file_name with
  | None => Err Refuse
  | Some name =>
    match check_plain_filename name, open_regular_package (dir name) with
    | Err _, _ => Err Refuse
    | _, None => Err Refuse
    | Ok _, Some bytes =>
      let sidecar := dir (name +:+ ".minisig") in
      if negb (fv_exists sidecar) then Err NotReady
      else
        match open_regular_package sidecar ≫= read_sidecar_bounded, bytes with
        | Some text, Some package =>
          if negb (verify_signature package text) then Err Refuse
          else
            match parse_nuspec_identity package with
            | Err _ => Err Refuse
            | Ok identity =>
              if negb (fv_rewinds (dir name)) then Err Refuse
              else if negb (bool_decide (fv_still_file (dir name) = Some true)) then Err Refuse
              else Ok (mkAuthenticatedPackage name identity package)
            end
        | _, _ => Err Refuse
        end
    end
  end.

Record CacheScan : Type := mkCacheScan { selected : option AuthenticatedPackage; rejected : bool }.

(** The version a canonical full-package name claims. *)
Definition strip_suffix (suffix s : string) : option string :=
  if ends_with s suffix then Some (String.substring 0 (String.length s - String.length suffix) s) else None.
Definition canonical_version (name : string) : option Version :=
  n ← strip_prefix "Solstone-" name;
  v ← strip_suffix "-full.nupkg" n;
  version_parse v.

(** [version <= *installed]. *)
Definition not_newer (installed v : Version) : bool := negb (version_gt v installed).

Definition scan_entry (dir : string → FileView) (installed : Version) (scan : CacheScan) (entry : result (option string) unit)
    : CacheScan :=
  match entry with
  | Err _ => mkCacheScan (selected scan) true
  | Ok None => scan
  | Ok (Some name) =>
    if negb (ends_with name "-full.nupkg") || negb (is_ok (check_plain_filename name)) then scan
    else if from_option (not_newer installed) false (canonical_version name) then scan
    else
      match admit_cached_package dir (Some name) with
      | Ok package =>
        if version_gt (ni_version (ap_identity package)) installed
           && from_option (λ current, version_gt (ni_version (ap_identity package)) (ni_version (ap_identity current)))
                true (selected scan)
        then mkCacheScan (Some package) (rejected scan)
        else scan
      | Err _ => mkCacheScan (selected scan) true
      end
  end.

Definition scan_authenticated_packages (listing : result (list (result (option string) unit)) io_error)
    (dir : string → FileView) (installed : Version) : CacheScan :=
  match listing with
  | Err NotFound => mkCacheScan None false
  | Err _ => mkCacheScan None true
  | Ok entries => foldl (scan_entry dir installed) (mkCacheScan None false) entries
  end.
End admission.

(** [Path::with_extension("partial")] on a plain name: what follows the last
    dot is replaced. *)
Fixpoint file_stem (s : string) : option string :=
  match s with
  | EmptyString => None
  | String c s =>
    match file_stem s with
    | Some stem => Some (String c stem)
    | None => if Ascii.eqb c "." then Some EmptyString else None
    end
  end.
Definition with_extension (name ext : string) : string := default name (file_stem name) +:+ "." +:+ ext.

(** The names [retire_asset] removes. *)
Definition retire_asset (file_name : string) : list string :=
  if is_ok (check_plain_filename file_name)
  then [file_name; with_extension file_name "partial"; file_name +:+ ".minisig"; file_name +:+ ".minisig.partial"]
  else [].

(** ** The manifest is unambiguous *)

(** The elements open after the events, innermost first. *)
Definition path_step (path : list string) (e : XmlEvent) : list string :=
  match e with XStart tag => tag :: path | XEnd => tail path | _ => path end.
Definition path_of (evs : list XmlEvent) : list string := foldl path_step [] evs.

(** The text directly inside [tag] elements, blank pieces left out. *)
Definition text_step (tag : string) (acc : list string * string) (e : XmlEvent) : list string * string :=
  (path_step acc.1 e,
   match e with
   | XText s => if bool_decide (head acc.1 = Some tag) && negb (is_empty (trim s)) then acc.2 +:+ s else acc.2
   | _ => acc.2
   end).
Definition text_of (tag : string) (evs : list XmlEvent) : string := (foldl (text_step tag) ([], EmptyString) evs).2.

(** [tag] is opened exactly once, directly inside [package]/[metadata]. *)
Definition opened_once (tag : string) (evs : list XmlEvent) : Prop :=
  ∃ pre post, evs = pre ++ XStart tag :: post ∧ path_of pre = ["metadata"; "package"]%string ∧
    XStart tag ∉ pre ∧ XStart tag ∉ post.

Lemma text_path tag evs : (foldl (text_step tag) ([], EmptyString) evs).1 = path_of evs.
Proof.
  induction evs as [|e evs IH] using rev_ind; [done|]. unfold path_of in *. rewrite !foldl_app. cbn. by rewrite IH.
Qed.

Lemma path_of_snoc evs e : path_of (evs ++ [e]) = path_step (path_of evs) e.
Proof. unfold path_of. by rewrite foldl_app. Qed.

Lemma text_of_snoc tag evs e :
  text_of tag (evs ++ [e]) =
    match e with
    | XText s => if bool_decide (head (path_of evs) = Some tag) && negb (is_empty (trim s)) then text_of tag evs +:+ s
                 else text_of tag evs
    | _ => text_of tag evs
    end.
Proof. unfold text_of. rewrite foldl_app. cbn. by rewrite text_path. Qed.

Section manifest.
Context `{PackageLib}.

Lemma nuspec_events_snoc evs e st :
  nuspec_events ((Ok <$> evs) ++ [Ok e]) st =
    match nuspec_events (Ok <$> evs) st with Ok st' => nuspec_event e st' | Err m => Err m end.
Proof.
  revert st. induction evs as [|x evs IH]; intros st; cbn; [by destruct (nuspec_event e st)|].
  destruct (nuspec_event x st); [apply IH|done].
Qed.

Lemma nuspec_events_all_ok l st st' : nuspec_events l st = Ok st' → ∃ evs, l = Ok <$> evs.
Proof.
  revert st. induction l as [|[e|u] l IH]; intros st; cbn; [by exists []| |done].
  destruct (nuspec_event e st) as [st1|]; [|done]. intros (evs & ->)%IH. by exists (e :: evs).
Qed.

(** What the state holds after the events. *)
Record follows (evs : list XmlEvent) (st : NuspecState) : Prop := {
  fo_path : ns_path st = path_of evs;
  fo_seen tag : tag ∈ identity_tags → (tag ∈ ns_seen st → opened_once tag evs) ∧ (tag ∉ ns_seen st → XStart tag ∉ evs);
  fo_open tag : tag ∈ identity_tags → tag ∈ ns_path st → tag ∈ ns_seen st;
  fo_text tag : tag ∈ identity_tags →
    match ns_text st !! tag with
    | Some x => x = text_of tag evs ∧ tag ∈ ns_seen st
    | None => text_of tag evs = EmptyString
    end
}.

Lemma opened_once_snoc tag evs e : opened_once tag evs → e ≠ XStart tag → opened_once tag (evs ++ [e]).
Proof.
  intros (pre & post & -> & Hp & H1 & H2) He. exists pre, (post ++ [e]). rewrite <-app_assoc. split_and!; [done|done|done|].
  rewrite elem_of_app, list_elem_of_singleton. naive_solver.
Qed.

(** Events that open no identity element and add no text. *)
Lemma follows_plain evs st e path :
  follows evs st → path = path_step (ns_path st) e → (∀ tag, tag ∈ identity_tags → e ≠ XStart tag) →
  (∀ tag, tag ∈ identity_tags → text_of tag (evs ++ [e]) = text_of tag evs) →
  (∀ tag, tag ∈ identity_tags → tag ∈ path → tag ∈ ns_path st) →
  follows (evs ++ [e]) (mkNuspecState path (ns_seen st) (ns_text st)).
Proof.
  intros [H1 H2 H3 H4] -> He Ht Hin. split; cbn.
  - by rewrite H1, path_of_snoc.
  - intros tag Htag. destruct (H2 tag Htag) as [Ha Hb]. split.
    + intros Hs. apply opened_once_snoc; auto.
    + intros Hs. rewrite elem_of_app, list_elem_of_singleton. intros [?|Hx]; [by apply Hb|]. by apply (He tag Htag).
  - intros tag Htag Hp. apply H3; auto.
  - intros tag Htag. rewrite Ht by done. by apply H4.
Qed.

Lemma follows_open evs st tag :
  follows evs st → tag ∈ identity_tags → ns_path st = ["metadata"; "package"]%string → tag ∉ ns_seen st →
  follows (evs ++ [XStart tag]) (mkNuspecState (tag :: ns_path st) ({[tag]} ∪ ns_seen st) (ns_text st)).
Proof.
  intros [H1 H2 H3 H4] Hid Hpath Hseen. split; cbn.
  - by rewrite H1, path_of_snoc.
  - intros tag' Htag'. destruct (H2 tag' Htag') as [Ha Hb]. destruct (decide (tag' = tag)) as [->|Hne].
    + split; [|set_solver]. intros _. exists evs, []. split_and!; [done|congruence|by apply Hb|set_solver].
    + split.
      * intros [?%elem_of_singleton|Hs]%elem_of_union; [done|]. apply opened_once_snoc; [by apply Ha|congruence].
      * intros Hs. rewrite elem_of_app, list_elem_of_singleton. intros [?|[= ?]]; [|done]. apply Hb; [|done].
        intros Hs'. apply Hs. by apply elem_of_union_r.
  - intros tag' Htag' [->|?]%elem_of_cons; [set_solver|]. specialize (H3 tag' Htag'). set_solver.
  - intros tag' Htag'. specialize (H4 tag' Htag'). rewrite text_of_snoc. destruct (ns_text st !! tag'); [|done]. set_solver.
Qed.

Lemma follows_text evs st el s :
  follows evs st → head (ns_path st) = Some el → el ∈ identity_tags → is_empty (trim s) = false →
  follows (evs ++ [XText s]) (mkNuspecState (ns_path st) (ns_seen st)
    (<[el := default EmptyString (ns_text st !! el) +:+ s]> (ns_text st))).
Proof.
  intros [H1 H2 H3 H4] Hhead Hid Hblank. split; cbn.
  - by rewrite H1, path_of_snoc.
  - intros tag Htag. destruct (H2 tag Htag) as [Ha Hb]. split.
    + intros Hs. apply opened_once_snoc; [by apply Ha|done].
    + intros Hs. rewrite elem_of_app, list_elem_of_singleton. intros [?|?]; [by apply Hb|done].
  - done.
  - intros tag Htag. specialize (H4 tag Htag). rewrite text_of_snoc, <-H1, Hhead, Hblank, andb_true_r.
    destruct (decide (tag = el)) as [->|Hne].
    + rewrite lookup_insert_eq, bool_decide_true by done. split.
      * destruct (ns_text st !! el); cbn; [by destruct H4 as [-> _]|by rewrite H4].
      * apply H3; [done|]. destruct (ns_path st); [done|]. injection Hhead as ->. set_solver.
    + rewrite lookup_insert_ne by done. by rewrite bool_decide_false by congruence.
Qed.

Lemma follows_same evs st e :
  follows evs st → path_step (ns_path st) e = ns_path st → (∀ tag, tag ∈ identity_tags → e ≠ XStart tag) →
  (∀ tag, tag ∈ identity_tags → text_of tag (evs ++ [e]) = text_of tag evs) → follows (evs ++ [e]) st.
Proof.
  intros Hf Hp He Ht. assert (E : st = mkNuspecState (ns_path st) (ns_seen st) (ns_text st)) by (by destruct st).
  rewrite E. by apply follows_plain.
Qed.

Lemma follows_event evs st e st' : follows evs st → nuspec_event e st = Ok st' → follows (evs ++ [e]) st'.
Proof.
  intros Hf. destruct e as [tag| |s|]; cbn [nuspec_event].
  - destruct (from_option _ _ _); [done|]. destruct (identity_tag tag) eqn:Hid.
    + apply bool_decide_eq_true in Hid. case_bool_decide as Hpath; cbn [negb]; [|done].
      case_bool_decide as Hseen; [done|]. intros [= <-]. injection Hpath as Hpath. by apply follows_open.
    + apply bool_decide_eq_false in Hid. intros [= <-]. apply follows_plain; try done.
      * intros tag' Htag [= ->]. done.
      * intros tag' _. by rewrite text_of_snoc.
      * intros tag' Htag [->|?]%elem_of_cons; [done|done].
  - intros [= <-]. apply follows_plain; try done.
    + intros tag _. by rewrite text_of_snoc.
    + intros tag _. destruct (ns_path st); set_solver.
  - destruct (head (ns_path st)) as [el|] eqn:Hhead.
    + destruct (is_empty (trim s) || negb (identity_tag el)) eqn:Hskip; intros [= <-].
      * apply follows_same; [done|done|done|]. intros tag Htag. rewrite text_of_snoc, <-(fo_path _ _ Hf), Hhead.
        case_bool_decide as Heq; [|done]. injection Heq as ->. apply orb_true_iff in Hskip as [->|Hn]; [done|].
        unfold identity_tag in Hn. by rewrite bool_decide_true in Hn.
      * apply orb_false_iff in Hskip as [Hb Hid]. apply negb_false_iff, bool_decide_eq_true in Hid. by apply follows_text.
    + intros [= <-]. apply follows_same; [done|done|done|]. intros tag Htag.
      rewrite text_of_snoc, <-(fo_path _ _ Hf), Hhead. by rewrite bool_decide_false.
  - intros [= <-]. apply follows_same; [done|done|done|]. intros tag _. by rewrite text_of_snoc.
Qed.

Lemma follows_events evs st : nuspec_events (Ok <$> evs) (mkNuspecState [] ∅ ∅) = Ok st → follows evs st.
Proof.
  revert st. induction evs as [|e evs IH] using rev_ind; intros st.
  - intros [= <-]. split; cbn; [done|set_solver|set_solver|]. intros tag _. by rewrite lookup_empty.
  - rewrite fmap_app. cbn [fmap list_fmap]. rewrite nuspec_events_snoc.
    destruct (nuspec_events _ _) as [st1|]; [|done]. intros Hev. eapply follows_event; [by apply IH|done].
Qed.

Lemma field_spec evs st tag v :
  follows evs st → tag ∈ identity_tags → field st tag = Ok v → v = trim (text_of tag evs) ∧ opened_once tag evs.
Proof.
  intros Hf Htag. unfold field. pose proof (fo_text _ _ Hf tag Htag) as Ht. destruct (ns_text st !! tag) as [x|]; [|done].
  intros [= <-]. destruct Ht as [-> Hs]. split; [done|]. by apply (fo_seen _ _ Hf tag Htag).
Qed.

Lemma expect_Ok got want what u : expect got want what = Ok u → got = want.
Proof. unfold expect. by destruct (String.eqb_spec got want). Qed.

Lemma identity_of_spec st identity :
  identity_of st = Ok identity →
  field st "id" = Ok "Solstone"%string ∧ field st "channel" = Ok "win"%string ∧ field st "os" = Ok "win"%string ∧
  field st "rid" = Ok "win-x64"%string ∧ field st "machineArchitecture" = Ok "x64"%string ∧
  field st "mainExe" = Ok "solstone-windows-app.exe"%string ∧
  ∃ v, field st "version" = Ok v ∧ version_parse v = Some (ni_version identity).
Proof.
  unfold identity_of.
  do 7 (match goal with |- context [field st ?t] => destruct (field st t) as [?|?]; cbn [and_then]; [|done] end).
  do 6 (match goal with |- context [expect ?g ?w ?k] =>
          destruct (expect g w k) as [?|?] eqn:He; cbn [and_then]; [|done]; apply expect_Ok in He; subst end).
  destruct (version_parse _) as [v|] eqn:Hv; [|done]. intros [= <-]. split_and!; try done. by eexists.
Qed.

(** ** The one manifest entry *)

Definition is_nuspec (e : option ZipEntry) : bool :=
  match e with
  | Some e => match ze_name e with Some name => ends_with (to_ascii_lowercase name) ".nuspec" | None => false end
  | None => false
  end.

Lemma find_nuspec_spec i entries found r :
  find_nuspec i entries found = Ok r →
  match found with
  | Some k => r = Some k ∧ Forall (λ e, is_nuspec e = false) entries
  | None =>
    match r with
    | Some k => ∃ pre e post, entries = pre ++ e :: post ∧ k = (i + length pre)%nat ∧ is_nuspec e = true ∧
        Forall (λ e, is_nuspec e = false) (pre ++ post)
    | None => Forall (λ e, is_nuspec e = false) entries
    end
  end.
Proof.
  revert i found. induction entries as [|e entries IH]; intros i found; cbn [find_nuspec].
  { intros [= <-]. by destruct found. }
  destruct e as [e|]; [|done]. destruct (ze_name e) as [name|] eqn:Hname; [|done].
  destruct (ends_with (to_ascii_lowercase name) ".nuspec") eqn:Hends.
  - destruct found; [done|]. intros [-> Hall]%IH. exists [], (Some e), entries. cbn. rewrite Hname. split_and!; [done|lia|done|done].
  - assert (Hno : is_nuspec (Some e) = false) by (cbn; by rewrite Hname).
    intros Hrec%IH. destruct found as [k|].
    + destruct Hrec as [-> Hall]. split; [done|by constructor].
    + destruct r as [k|]; [|by constructor]. destruct Hrec as (pre & x & post & -> & -> & Hx & Hall).
      exists (Some e :: pre), x, post. cbn. split_and!; [done|lia|done|by constructor].
Qed.
End manifest.

(** The manifest an update is judged by is unambiguous. A package yields an
    identity only if exactly one of its entries is a manifest, no larger than
    64 KiB, whose XML opens each identity element exactly once and directly
    inside package/metadata, and whose trimmed texts there name this program,
    its channel, system and executable and are the version reported. *)
Theorem admitted_manifest_is_unambiguous `{PackageLib} (package : string) (identity : NuspecIdentity) :
  parse_nuspec_identity package = Ok identity →
  ∃ pre entry post xml evs,
    zip_archive package = Some (pre ++ Some entry :: post) ∧ is_nuspec (Some entry) = true ∧
    Forall (λ e, is_nuspec e = false) (pre ++ post) ∧
    ze_contents entry = Some xml ∧ (Z.of_nat (String.length xml) ≤ MAX_NUSPEC_BYTES)%Z ∧
    xml_events xml = Ok <$> evs ∧ (∀ tag, tag ∈ identity_tags → opened_once tag evs) ∧
    trim (text_of "id" evs) = "Solstone"%string ∧ trim (text_of "channel" evs) = "win"%string ∧
    trim (text_of "os" evs) = "win"%string ∧ trim (text_of "rid" evs) = "win-x64"%string ∧
    trim (text_of "machineArchitecture" evs) = "x64"%string ∧
    trim (text_of "mainExe" evs) = "solstone-windows-app.exe"%string ∧
    version_parse (trim (text_of "version" evs)) = Some (ni_version identity).
Proof.
  unfold parse_nuspec_identity, read_nuspec.
  destruct (zip_archive package) as [entries|]; [|done]. destruct (find_nuspec 0 entries None) as [[k|]|] eqn:Hfind; [|done..].
  apply find_nuspec_spec in Hfind as (pre & e & post & -> & -> & He & Hall). cbn [Nat.add]. rewrite list_lookup_middle by done.
  destruct e as [entry|]; [|done]. destruct (MAX_NUSPEC_BYTES <? ze_size entry)%Z; [done|].
  destruct (ze_contents entry) as [xml|] eqn:Hc; [|done].
  destruct (Z.ltb_spec MAX_NUSPEC_BYTES (Z.of_nat (String.length xml))) as [|Hlen]; [done|].
  destruct (nuspec_events _ _) as [st|] eqn:Hev; [|done]. destruct (nuspec_events_all_ok _ _ _ Hev) as [evs Hxml].
  rewrite Hxml in Hev. apply follows_events in Hev.
  intros (F1 & F2 & F3 & F4 & F5 & F6 & v & F7 & Hv)%identity_of_spec.
  assert (Hfield : ∀ tag w, tag ∈ identity_tags → field st tag = Ok w → w = trim (text_of tag evs) ∧ opened_once tag evs)
    by (intros; by eapply field_spec).
  apply Hfield in F1 as [E1 O1], F2 as [E2 O2], F3 as [E3 O3], F4 as [E4 O4], F5 as [E5 O5], F6 as [E6 O6], F7 as [-> O7];
    [|unfold identity_tags; set_solver..].
  exists pre, entry, post, xml, evs. split_and!; try done.
  intros tag Htag. unfold identity_tags in Htag. set_unfold in Htag. destruct_or!; subst; done.
Qed.

(** ** The update selected *)

Section selection.
Context `{PackageLib} (dir : string → FileView) (installed : Version).

Definition ap_version (p : AuthenticatedPackage) : Version := ni_version (ap_identity p).

(** A plain name of a regular file, still there after it was read, whose bytes
    carry the signature in the whole of a small sidecar and yield the identity. *)
Definition authentic (p : AuthenticatedPackage) : Prop :=
  is_ok (check_plain_filename (ap_name p)) = true ∧
  fv_link_is_file (dir (ap_name p)) = Some true ∧ fv_still_file (dir (ap_name p)) = Some true ∧
  fv_bytes (dir (ap_name p)) = Some (ap_bytes p) ∧
  (∃ text, fv_link_is_file (dir (ap_name p +:+ ".minisig")) = Some true ∧
     fv_bytes (dir (ap_name p +:+ ".minisig")) = Some text ∧ (String.length text ≤ SIDECAR_MAX_BYTES)%nat ∧
     verify_signature (ap_bytes p) text = true) ∧
  parse_nuspec_identity (ap_bytes p) = Ok (ap_identity p).

(** The names looked at: full packages, not canonically named as old. *)
Definition considered (name : string) : bool :=
  ends_with name "-full.nupkg" && is_ok (check_plain_filename name)
  && negb (from_option (not_newer installed) false (canonical_version name)).

Definition offered (entries : list (result (option string) unit)) (p : AuthenticatedPackage) : Prop :=
  Ok (Some (ap_name p)) ∈ entries ∧ considered (ap_name p) = true ∧
  admit_cached_package dir (Some (ap_name p)) = Ok p ∧ version_gt (ap_version p) installed = true.

(** An entry that could not be listed, or was looked at and not admitted. *)
Definition spoiled (e : result (option string) unit) : Prop :=
  match e with
  | Err _ => True
  | Ok (Some name) => considered name = true ∧ is_ok (admit_cached_package dir (Some name)) = false
  | Ok None => False
  end.

Lemma substring_whole n s : (String.length (String.substring 0 (S n) s) ≤ n)%nat → String.substring 0 (S n) s = s.
Proof.
  revert s. induction n as [|n IH]; intros [|c s]; try done; cbn in *; intros Hl; [lia|].
  f_equal. apply IH. cbn. lia.
Qed.

Lemma read_sidecar_whole contents text :
  read_sidecar_bounded contents = Some text → contents = Some text ∧ (String.length text ≤ SIDECAR_MAX_BYTES)%nat.
Proof.
  unfold read_sidecar_bounded. destruct contents as [bytes|]; [|done]. cbn [mbind option_bind].
  destruct (Nat.ltb_spec SIDECAR_MAX_BYTES (String.length (String.substring 0 (S SIDECAR_MAX_BYTES) bytes))) as [|Hle]; [done|].
  destruct (String.eqb _ _); [|done]. intros [= <-]. split; [|done]. by rewrite (substring_whole _ _ Hle).
Qed.

Lemma open_regular_Some f bytes : open_regular_package f = Some bytes → fv_link_is_file f = Some true ∧ bytes = fv_bytes f.
Proof.
  unfold open_regular_package. case_bool_decide as Hl; [|done]. destruct (fv_open f); [|done]. cbn [andb].
  case_bool_decide; [|done]. by intros [= <-].
Qed.

Lemma admitted_authentic name p : admit_cached_package dir (Some name) = Ok p → ap_name p = name ∧ authentic p.
Proof.
  unfold admit_cached_package. destruct (check_plain_filename name) as [u|] eqn:Hplain; [|done].
  destruct (open_regular_package (dir name)) as [bytes|] eqn:Hopen; [|done]. cbv zeta.
  destruct (fv_exists _); [|done]. cbn [negb].
  destruct (open_regular_package (dir (name +:+ ".minisig"))) as [side|] eqn:Hside; cbn [mbind option_bind]; [|done].
  destruct (read_sidecar_bounded side) as [text|] eqn:Htext; [|done]. destruct bytes as [package|]; [|done].
  destruct (verify_signature package text) eqn:Hsig; [|done]. cbn [negb].
  destruct (parse_nuspec_identity package) as [identity|] eqn:Hid; [|done].
  destruct (fv_rewinds (dir name)); [|done]. cbn [negb]. case_bool_decide as Hstill; [|done]. intros [= <-].
  apply open_regular_Some in Hopen as [? ?], Hside as [? ->]. apply read_sidecar_whole in Htext as [? ?].
  split; [done|]. unfold authentic. cbn. rewrite Hplain. split_and!; try done. by exists text.
Qed.

Lemma considered_scan name scan :
  scan_entry dir installed scan (Ok (Some name)) =
    if considered name then
      match admit_cached_package dir (Some name) with
      | Ok p => if version_gt (ap_version p) installed
                   && from_option (λ c, version_gt (ap_version p) (ap_version c)) true (selected scan)
                then mkCacheScan (Some p) (rejected scan) else scan
      | Err _ => mkCacheScan (selected scan) true
      end
    else scan.
Proof.
  unfold scan_entry, considered. destruct (ends_with name "-full.nupkg"), (is_ok (check_plain_filename name)); cbn [negb orb andb]; try done.
  by destruct (from_option _ _ (canonical_version name)).
Qed.

(** What a scan of the entries has found. *)
Definition cache_found (entries : list (result (option string) unit)) (scan : CacheScan) : Prop :=
  match selected scan with
  | Some p => authentic p ∧ offered entries p ∧ ∀ q, offered entries q → version_gt (ap_version q) (ap_version p) = false
  | None => ∀ q, ¬ offered entries q
  end ∧ (rejected scan = true ↔ Exists spoiled entries).

Lemma offered_snoc entries e q :
  offered (entries ++ [e]) q ↔
    offered entries q ∨ (e = Ok (Some (ap_name q)) ∧ considered (ap_name q) = true ∧
      admit_cached_package dir (Some (ap_name q)) = Ok q ∧ version_gt (ap_version q) installed = true).
Proof. unfold offered. rewrite elem_of_app, list_elem_of_singleton. intuition congruence. Qed.

(** An entry that offers nothing leaves the selection. *)
Lemma cache_found_skip entries e scan b :
  cache_found entries scan → (∀ q, offered (entries ++ [e]) q → offered entries q) → (b = true ↔ rejected scan = true ∨ spoiled e) →
  cache_found (entries ++ [e]) (mkCacheScan (selected scan) b).
Proof.
  intros [Hsel Hrej] Hskip Hb. assert (Hiff : ∀ q, offered (entries ++ [e]) q ↔ offered entries q).
  { intros q. split; [apply Hskip|]. intros Hq. apply offered_snoc. by left. }
  split; cbn [selected rejected].
  - destruct (selected scan) as [p|].
    + destruct Hsel as (Ha & Ho & Hm). split_and!; [done|by apply Hiff|]. intros q Hq%Hiff. by apply Hm.
    + intros q Hq%Hiff. by apply (Hsel q).
  - rewrite Hb, Hrej, Exists_app, Exists_cons, Exists_nil. tauto.
Qed.

Lemma cache_found_step entries e scan :
  cache_found entries scan → cache_found (entries ++ [e]) (scan_entry dir installed scan e).
Proof.
  intros Hs. destruct scan as [sel rej]. destruct e as [[name|]|u].
  2:{ apply (cache_found_skip entries (Ok None) (mkCacheScan sel rej) rej Hs); [|cbn; tauto].
      intros q [?|(? & _)]%offered_snoc; [done|congruence]. }
  2:{ apply (cache_found_skip entries (Err u) (mkCacheScan sel rej) true Hs); [|cbn; tauto].
      intros q [?|(? & _)]%offered_snoc; [done|congruence]. }
  assert (Hskip : (∀ q, considered name = true → admit_cached_package dir (Some name) = Ok q →
                       version_gt (ap_version q) installed = true → False) →
                  ∀ q, offered (entries ++ [Ok (Some name)]) q → offered entries q).
  { intros Hno q [?|([= <-] & Hc & Ha & Hv)]%offered_snoc; [done|]. by destruct (Hno q). }
  rewrite considered_scan. destruct (considered name) eqn:Hc.
  2:{ apply (cache_found_skip entries (Ok (Some name)) (mkCacheScan sel rej) rej Hs); [by apply Hskip|].
      cbn. rewrite Hc. intuition congruence. }
  destruct (admit_cached_package dir (Some name)) as [p|a] eqn:Hadm.
  2:{ apply (cache_found_skip entries (Ok (Some name)) (mkCacheScan sel rej) true Hs); [by apply Hskip|].
      unfold spoiled. rewrite Hadm, Hc. cbn. tauto. }
  destruct (admitted_authentic name p Hadm) as [<- Hauth].
  assert (Hrej : rejected (mkCacheScan sel rej) = true ↔ Exists spoiled (entries ++ [Ok (Some (ap_name p))])).
  { destruct Hs as [_ ->]. rewrite Exists_app, Exists_cons, Exists_nil. unfold spoiled at 3. rewrite Hadm. cbn. intuition congruence. }
  destruct (version_gt (ap_version p) installed) eqn:Hnew; cbn [andb].
  2:{ apply (cache_found_skip entries (Ok (Some (ap_name p))) (mkCacheScan sel rej) rej Hs).
      - apply Hskip. intros q _ [= <-]. congruence.
      - unfold spoiled. rewrite Hadm. cbn. intuition congruence. }
  assert (Hoff : offered (entries ++ [Ok (Some (ap_name p))]) p) by (apply offered_snoc; by right).
  assert (Honly : ∀ q, offered (entries ++ [Ok (Some (ap_name p))]) q → offered entries q ∨ q = p).
  { intros q [?|([= Hn] & _ & Ha & _)]%offered_snoc; [by left|]. right. rewrite <-Hn, Hadm in Ha. congruence. }
  cbn [selected rejected]. destruct sel as [cur|]; cbn [from_option].
  - destruct Hs as [(Hca & Hco & Hcm) _]. destruct (version_gt (ap_version p) (ap_version cur)) eqn:Hgt.
    + split; [|done]. cbn [selected]. split_and!; [done|done|]. intros q [Hq| ->]%Honly.
      * specialize (Hcm q Hq). destruct (version_gt (ap_version q) (ap_version p)) eqn:Hqp; [|done].
        by rewrite (version_gt_trans _ _ _ Hqp Hgt) in Hcm.
      * apply version_gt_irrefl.
    + split; [|done]. cbn [selected]. split_and!; [done|apply offered_snoc; by left|]. intros q [Hq| ->]%Honly; [by apply Hcm|done].
  - destruct Hs as [Hnone _]. split; [|done]. cbn [selected]. split_and!; [done|done|]. intros q [Hq| ->]%Honly; [by destruct (Hnone q)|].
    apply version_gt_irrefl.
Qed.
End selection.

(** C20. The update selected is the newest authentic one. Whatever lies in the
    package directory, a package is selected only if its name is plain, it is a
    regular file still in place, the whole of its small sidecar is a signature
    that verifies over its bytes, and the version its manifest states is newer
    than the installed one and than no admitted candidate's; nothing is selected
    only if no listed candidate qualifies; and the scan reports a refusal
    exactly when some entry could not be listed or was looked at and not
    admitted. *)
Theorem selected_update_is_the_newest_authentic `{PackageLib} (dir : string → FileView) (installed : Version)
    (entries : list (result (option string) unit)) :
  let scan := scan_authenticated_packages (Ok entries) dir installed in
  match selected scan with
  | Some p => authentic dir p ∧ offered dir installed entries p ∧
      ∀ q, offered dir installed entries q → version_gt (ap_version q) (ap_version p) = false
  | None => ∀ q, ¬ offered dir installed entries q
  end ∧ (rejected scan = true ↔ Exists (spoiled dir installed) entries).
Proof.
  change (cache_found dir installed entries (scan_authenticated_packages (Ok entries) dir installed)).
  unfold scan_authenticated_packages. induction entries as [|e entries IH] using rev_ind.
  - split; cbn; [|by rewrite Exists_nil]. intros q (Hin & _). set_solver.
  - rewrite foldl_app. by apply cache_found_step.
Qed.

(** ** A concrete package directory *)

Local Open Scope string_scope.

Definition demo_element (tag text : string) : list XmlEvent := [XStart tag; XText text; XEnd; XText " "].
(** A package is its own manifest here, and its bytes the version it states. *)
Definition demo_manifest (version : string) : list XmlEvent :=
  [XOther; XStart "package"; XStart "metadata"] ++ demo_element "id" " Solstone " ++ demo_element "version" version
  ++ demo_element "channel" "win" ++ demo_element "os" "win" ++ demo_element "rid" "win-x64"
  ++ demo_element "machineArchitecture" "x64" ++ demo_element "mainExe" "solstone-windows-app.exe" ++ [XEnd; XEnd].

#[local] Instance demo_package_lib : PackageLib := {|
  Version := Z;
  version_parse := parse_u64;
  version_gt a b := (b <? a)%Z;
  version_gt_irrefl a := Z.ltb_irrefl a;
  version_gt_trans a b c :=
    λ Hab Hbc, proj2 (Z.ltb_lt c a) (Z.lt_trans _ _ _ (proj1 (Z.ltb_lt c b) Hbc) (proj1 (Z.ltb_lt b a) Hab));
  zip_archive package := Some [Some (mkZipEntry (Some "lib/app.exe") 1 (Some "x"));
                               Some (mkZipEntry (Some "Solstone.nuspec") 1 (Some package))];
  xml_events xml := Ok <$> demo_manifest xml;
  verify_signature package text := String.eqb text ("signed " +:+ package)
|}.

Definition demo_file (bytes : string) : FileView := mkFileView true (Some true) true (Some true) (Some bytes) true (Some true).
Definition demo_missing : FileView := mkFileView false None false None None false None.
Definition demo_dir (name : string) : FileView :=
  if String.eqb name "Solstone-8-full.nupkg" then demo_file "8"
  else if String.eqb name "Solstone-8-full.nupkg.minisig" then demo_file "signed 8"
  else if String.eqb name "a-full.nupkg" then demo_file "9"
  else if String.eqb name "a-full.nupkg.minisig" then demo_file "signed 9"
  else if String.eqb name "b-full.nupkg" then demo_file "10"
  else if String.eqb name "b-full.nupkg.minisig" then demo_file "signed 9"
  else demo_missing.

(** The newest whose signature verifies is taken, the forged newer one is
    refused, and one named as old is not looked at. *)
Example newest_authentic_selected :
  let names := [Ok (Some "Solstone-8-full.nupkg"); Ok (Some "b-full.nupkg"); Ok (Some "a-full.nupkg"); Ok None;
                Ok (Some "Solstone-3-full.nupkg")]%list in
  (ap_name <$> selected (scan_authenticated_packages (Ok names) demo_dir (7%Z : Version))) = Some "a-full.nupkg" ∧
  rejected (scan_authenticated_packages (Ok names) demo_dir (7%Z : Version)) = true.
Proof. vm_compute. done. Qed.

Example sibling_addresses :
  sibling_url "https://updates.example/win//" "a-full.nupkg" = Ok "https://updates.example/win/a-full.nupkg" ∧
  sibling_url "ftp://updates.example/win" "a" = Err "unsupported scheme: ftp" ∧
  sibling_url "https://updates.example" "../a" = Err "filename must be one plain ASCII filename" ∧
  retire_asset "a.full.nupkg" = ["a.full.nupkg"; "a.full.partial"; "a.full.nupkg.minisig"; "a.full.nupkg.minisig.partial"]%list.
Proof. vm_compute. done. Qed.

Definition demo_identity : NuspecIdentity :=
  mkNuspecIdentity "Solstone" (8%Z : @Version demo_package_lib) "win" "win" "win-x64" "x64" "solstone-windows-app.exe".

Lemma admitted_manifest_is_unambiguous_witness :
  parse_nuspec_identity "8" = Ok demo_identity ∧
  ∃ xml evs, xml_events xml = Ok <$> evs ∧ ∀ tag, tag ∈ identity_tags → opened_once tag evs.
Proof.
  assert (Hid : parse_nuspec_identity "8" = Ok demo_identity) by (vm_cast_no_check (eq_refl (Ok (E := string) demo_identity))).
  split; [exact Hid|].
  destruct (admitted_manifest_is_unambiguous "8" demo_identity Hid)
    as (pre & entry & post & xml & evs & _ & _ & _ & _ & _ & Hx & Hopen & _).
  exists xml, evs. split; [exact Hx|exact Hopen].
Defined.
