(* ===== verification/UpdateState.v ===== *)
(** * Update state (crates/observer-update/src/lib.rs)

    The updater's reducer, the display it computes and the controls it
    enables. [update_reduce] is the source's [reduce]; the state is the record
    [UpdateState] with the source's fields. The theorems read a state off the
    history of events that led to it: which event decides what is displayed,
    and which controls can be enabled together. *)
From Stdlib Require Import Ascii String.
From S2P Require Import Prelude RustStr.

Local Open Scope list_scope.

(** ** Data *)

Inductive CheckInterval : Type := Day | Week | Month.
Definition interval_secs (i : CheckInterval) : Z :=
  match i with Day => 86400 | Week => 604800 | Month => 2592000 end.

Record UpdatePrefs : Type := mkUpdatePrefs {
  auto_check : bool;
  interval : CheckInterval;
  auto_download : bool
}.
Definition default_prefs : UpdatePrefs := mkUpdatePrefs true Week false.

Inductive UpdateOutcome : Type := OutcomeUpToDate | OutcomeFound | OutcomeStaged | OutcomeFailed.
Inductive UpdateActivity : Type := ActivityIdle | Checking | Downloading | Installing.

Record ReconciledUpdateStatus : Type := mkStatus {
  last_checked_at : option Z;
  last_check_outcome : option UpdateOutcome;
  available_version : option string;
  failed_with_available : bool
}.
Definition default_status : ReconciledUpdateStatus := mkStatus None None None false.

Record AvailableUpdate : Type := mkAvailable { av_version : string; av_notes : option string }.
Record StagedUpdate : Type := mkStaged { stg_version : string }.

Record UpdateState : Type := mkUpdateState {
  us_status : ReconciledUpdateStatus;
  us_activity : UpdateActivity;
  us_available : option AvailableUpdate;
  us_staged : option StagedUpdate;
  us_download_pct : option Z;
  us_prefs : UpdatePrefs;
  us_config_valid : bool
}.

Inductive UpdateDisplay : Type :=
  | DisplayNeverChecked | DisplayUpToDate | DisplayChecking | DisplayAvailable | DisplayDownloading
  | DisplayStaged | DisplayFailed | DisplayFailedWithAvailable | DisplayUnavailable.

Record UpdateActions : Type := mkActions {
  can_check_now : bool;
  can_cancel : bool;
  can_download : bool;
  can_install : bool;
  can_retry : bool;
  can_dismiss : bool;
  frequency_enabled : bool
}.

Record UpdateView : Type := mkUpdateView {
  uv_display : UpdateDisplay;
  uv_activity : UpdateActivity;
  uv_last_checked_at : option Z;
  uv_available_version : option string;
  uv_notes : option string;
  uv_download_pct : option Z;
  uv_prefs : UpdatePrefs;
  uv_actions : UpdateActions
}.

Inductive CheckOutcome : Type :=
  | CheckUpToDate
  | UpdateAvailable (version : string) (notes : option string)
  | CheckEmpty.

Inductive UpdateEvent : Type :=
  | CheckStarted
  | DownloadStarted
  | DownloadProgress (pct : Z)
  | InstallStarted
  | Dismissed
  | CheckResult (now : Z) (result : CheckOutcome)
  | Downloaded (version : string)
  | CheckFailed (now : Z)
  | ConfigInvalid.

#[global] Instance CheckInterval_eq_dec : EqDecision CheckInterval.
Proof. solve_decision. Defined.
#[global] Instance UpdateOutcome_eq_dec : EqDecision UpdateOutcome.
Proof. solve_decision. Defined.
#[global] Instance UpdateActivity_eq_dec : EqDecision UpdateActivity.
Proof. solve_decision. Defined.
#[global] Instance UpdateDisplay_eq_dec : EqDecision UpdateDisplay.
Proof. solve_decision. Defined.

(** ** Operations *)

Definition new_update_state : UpdateState :=
  mkUpdateState default_status ActivityIdle None None None default_prefs true.

Definition in_flight (s : UpdateState) : bool :=
  match us_activity s with ActivityIdle => false | _ => true end.
Definition is_staged (s : UpdateState) : bool :=
  match us_staged s with Some _ => true | None => false end.

Definition display (s : UpdateState) : UpdateDisplay :=
  if negb (us_config_valid s) then DisplayUnavailable
  else
    match us_activity s with
    | Checking => DisplayChecking
    | Downloading => DisplayDownloading
    | Installing => DisplayStaged
    | ActivityIdle =>
      if is_staged s then DisplayStaged
      else
        match us_available s with
        | Some _ => DisplayAvailable
        | None =>
          match last_check_outcome (us_status s) with
          | Some OutcomeFailed =>
            if failed_with_available (us_status s) then DisplayFailedWithAvailable else DisplayFailed
          | Some OutcomeUpToDate => DisplayUpToDate
          | Some OutcomeFound | Some OutcomeStaged => DisplayUpToDate
          | None => DisplayNeverChecked
          end
        end
    end.

Definition is_failed_display (d : UpdateDisplay) : bool :=
  match d with DisplayFailed | DisplayFailedWithAvailable => true | _ => false end.

Definition derive_actions (s : UpdateState) (d : UpdateDisplay) : UpdateActions :=
  let flying := in_flight s in
  let staged := is_staged s in
  let valid := us_config_valid s in
  let has_available := match us_available s with Some _ => true | None => false end in
  let failed := is_failed_display d in
  mkActions
    (valid && negb flying && negb staged)
    (match us_activity s with Checking | Downloading => true | _ => false end)
    (valid && negb flying && negb staged && has_available)
    (negb flying && staged)
    (valid && negb flying && negb staged && failed)
    (negb flying && (has_available || failed))
    (auto_check (us_prefs s)).

Definition or_else {A} (a b : option A) : option A := match a with Some _ => a | None => b end.

Definition view (s : UpdateState) : UpdateView :=
  let d := display s in
  mkUpdateView d (us_activity s) (last_checked_at (us_status s))
    (or_else (or_else (av_version <$> us_available s) (stg_version <$> us_staged s))
             (available_version (us_status s)))
    (us_available s ≫= av_notes)
    (us_download_pct s) (us_prefs s) (derive_actions s d).

Definition plural (n : Z) : string := if (n =? 1)%Z then EmptyString else "s".
Definition ago (n : Z) (unit : string) : string :=
  "checked " +:+ fmt_dec n +:+ " " +:+ unit +:+ plural n +:+ " ago".
Definition last_checked_relative (checked_at : option Z) (now : Z) : string :=
  match checked_at with
  | None => "never checked for updates"
  | Some t =>
    let secs := sat_sub now t in
    if (secs <? 60)%Z then "checked just now"
    else if (secs <? 3600)%Z then ago (secs / 60) "minute"
    else if (secs <? 86400)%Z then ago (secs / 3600) "hour"
    else ago (secs / 86400) "day"
  end.

Definition update_reduce (s : UpdateState) (event : UpdateEvent) : UpdateState :=
  let 'mkUpdateState st act av stg pct prefs valid := s in
  match event with
  | CheckStarted => mkUpdateState st Checking av stg pct prefs valid
  | DownloadStarted => mkUpdateState st Downloading av stg (Some 0%Z) prefs valid
  | DownloadProgress p => mkUpdateState st act av stg (Some (Z.min p 100)) prefs valid
  | InstallStarted => mkUpdateState st Installing av stg pct prefs valid
  | Dismissed =>
    let st :=
      match last_check_outcome st with
      | Some OutcomeFailed =>
        mkStatus (last_checked_at st)
          (or_else ((λ _, OutcomeFound) <$> available_version st) (Some OutcomeUpToDate))
          (available_version st) false
      | _ => st
      end in
    mkUpdateState st ActivityIdle None stg None prefs valid
  | CheckResult now result =>
    match result with
    | CheckUpToDate | CheckEmpty =>
      mkUpdateState (mkStatus (Some now) (Some OutcomeUpToDate) None false) ActivityIdle None stg pct prefs valid
    | UpdateAvailable version notes =>
      mkUpdateState (mkStatus (Some now) (Some OutcomeFound) (Some version) false) ActivityIdle
        (Some (mkAvailable version notes)) stg pct prefs valid
    end
  | Downloaded version =>
    mkUpdateState (mkStatus (last_checked_at st) (Some OutcomeStaged) (Some version) false) ActivityIdle None
      (Some (mkStaged version)) None prefs valid
  | CheckFailed now =>
    mkUpdateState
      (mkStatus (Some now) (Some OutcomeFailed) (available_version st) (bool_decide (is_Some (available_version st))))
      ActivityIdle None None None prefs valid
  | ConfigInvalid => mkUpdateState st ActivityIdle av stg pct prefs false
  end.

Definition update_run (s : UpdateState) (events : list UpdateEvent) : UpdateState :=
  foldl update_reduce s events.

(** ** Plans *)

Record UpdateAssetDescriptor : Type := mkAsset { file_name : string; asset_version : string; asset_type : string }.

Inductive UpdatePlan : Type :=
  | FullOnly (target : UpdateAssetDescriptor)
  | DeltaChain (base : UpdateAssetDescriptor) (deltas : list UpdateAssetDescriptor) (target : UpdateAssetDescriptor).

Definition classify_update_plan (base : option UpdateAssetDescriptor) (deltas : list UpdateAssetDescriptor)
    (target : UpdateAssetDescriptor) : UpdatePlan :=
  match base, deltas with
  | Some base, _ :: _ => DeltaChain base deltas target
  | _, _ => FullOnly target
  end.

Fixpoint join_comma (l : list string) : string :=
  match l with
  | [] => EmptyString
  | [s] => s
  | s :: l => s +:+ "," +:+ join_comma l
  end.

Definition format_update_plan (plan : UpdatePlan) : string :=
  match plan with
  | FullOnly t =>
    "--check-update: plan=full-only target=" +:+ file_name t +:+ " type=" +:+ asset_type t +:+ " version=" +:+ asset_version t
  | DeltaChain b ds t =>
    "--check-update: plan=delta-chain base=" +:+ file_name b +:+ " version=" +:+ asset_version b +:+ " deltas="
      +:+ join_comma (file_name <$> ds) +:+ " target=" +:+ file_name t +:+ " version=" +:+ asset_version t
  end.

Definition format_downloading_asset (file_name asset_type : string) : string :=
  "--check-update: downloading asset: " +:+ file_name +:+ " type=" +:+ asset_type.

(** ** Well-formedness

    What every state earned from events satisfies, field by field. *)

Definition wf_event (e : UpdateEvent) : Prop :=
  match e with
  | DownloadProgress p => in_u8 p
  | CheckResult now _ | CheckFailed now => in_u64 now
  | _ => True
  end.

Record wf_status (st : ReconciledUpdateStatus) : Prop := {
  wf_checked : ∀ t, last_checked_at st = Some t → in_u64 t ∧ is_Some (last_check_outcome st);
  wf_failed_with : failed_with_available st = true →
    last_check_outcome st = Some OutcomeFailed ∧ is_Some (available_version st);
  wf_failed_without : last_check_outcome st = Some OutcomeFailed →
    failed_with_available st = bool_decide (is_Some (available_version st));
  wf_known : last_check_outcome st = Some OutcomeFound ∨ last_check_outcome st = Some OutcomeStaged →
    is_Some (available_version st)
}.

Record wf_update (s : UpdateState) : Prop := {
  wf_us_status : wf_status (us_status s);
  wf_us_available : ∀ a, us_available s = Some a →
    last_check_outcome (us_status s) = Some OutcomeFound ∧ available_version (us_status s) = Some (av_version a);
  wf_us_pct : ∀ p, us_download_pct s = Some p → (0 ≤ p ≤ 100)%Z
}.

Lemma wf_new : wf_update new_update_state.
Proof. repeat split; try done. cbn. by intros [?|?]. Qed.

Lemma wf_status_dismissed st :
  wf_status st →
  wf_status (match last_check_outcome st with
             | Some OutcomeFailed =>
               mkStatus (last_checked_at st)
                 (or_else ((λ _, OutcomeFound) <$> available_version st) (Some OutcomeUpToDate))
                 (available_version st) false
             | _ => st
             end).
Proof.
  intros Hw. destruct (last_check_outcome st) as [[]|] eqn:Ho; try done.
  destruct Hw as [Hc _ _ _].
  split; cbn; try done.
  - intros t Ht. split; [by apply (Hc t)|]. destruct (available_version st); cbn; eauto.
  - destruct (available_version st); cbn; done.
  - destruct (available_version st); cbn; naive_solver.
Qed.

Lemma wf_reduce s e : wf_event e → wf_update s → wf_update (update_reduce s e).
Proof.
  destruct s as [st act av stg pct prefs valid]. intros He [Hst Hav Hpct]. cbn in *.
  destruct e as [| |p| | |now [|v n|]|v|now|]; cbn in *; split; cbn; try done.
  - intros ? [= <-]. lia.
  - intros ? [= <-]. unfold in_u8, u8_max in He. lia.
  - by apply wf_status_dismissed.
  - split; cbn; naive_solver.
  - split; cbn; naive_solver.
  - naive_solver.
  - split; cbn; naive_solver.
  - split; cbn; try naive_solver. intros t Ht. split; [by apply (wf_checked _ Hst t)|by eauto].
  - split; cbn; try naive_solver.
    + intros Hb. by apply bool_decide_eq_true in Hb.
Qed.

Lemma update_run_snoc s evs e : update_run s (evs ++ [e]) = update_reduce (update_run s evs) e.
Proof. unfold update_run. by rewrite foldl_app. Qed.

Lemma wf_run evs s : Forall wf_event evs → wf_update s → wf_update (update_run s evs).
Proof.
  intros He Hs. induction evs as [|e evs IH] using rev_ind; [done|].
  rewrite update_run_snoc. apply Forall_app in He as [He [He1 _]%Forall_cons].
  apply wf_reduce; [done|by apply IH].
Qed.

(** ** The event that decides the display *)

(** A completed check, a finished or rehydrated download, or a dismissal. *)
Definition is_fact (e : UpdateEvent) : bool :=
  match e with CheckResult _ _ | Downloaded _ | CheckFailed _ => true | _ => false end.
Definition is_decisive (e : UpdateEvent) : bool :=
  match e with Dismissed => true | _ => is_fact e end.
Definition last_such (p : UpdateEvent → bool) (evs : list UpdateEvent) : option UpdateEvent :=
  find_first p (reverse evs).

Lemma last_such_snoc p evs e :
  last_such p (evs ++ [e]) = if p e then Some e else last_such p evs.
Proof. unfold last_such. by rewrite reverse_snoc. Qed.

(** Every event but progress starts or ends an activity. *)
Definition sets_activity (e : UpdateEvent) : bool :=
  match e with DownloadProgress _ => false | _ => true end.
Definition activity_after (e : option UpdateEvent) : UpdateActivity :=
  match e with
  | Some CheckStarted => Checking
  | Some DownloadStarted => Downloading
  | Some InstallStarted => Installing
  | _ => ActivityIdle
  end.

(** What the history says of the fields that the display reads. *)
Record reads_history (evs : list UpdateEvent) (s : UpdateState) : Prop := {
  rh_valid : us_config_valid s = false ↔ ConfigInvalid ∈ evs;
  rh_none : last_check_outcome (us_status s) = None ↔ last_such is_fact evs = None;
  rh_failed : last_check_outcome (us_status s) = Some OutcomeFailed → ∃ now, last_such is_decisive evs = Some (CheckFailed now);
  rh_available : ∀ a, us_available s = Some a →
    ∃ now, last_such is_decisive evs = Some (CheckResult now (UpdateAvailable (av_version a) (av_notes a)));
  rh_settled : us_staged s = None → us_available s = None →
    last_check_outcome (us_status s) ≠ None → last_check_outcome (us_status s) ≠ Some OutcomeFailed →
    (∃ now r, last_such is_decisive evs = Some (CheckResult now r) ∧ (r = CheckUpToDate ∨ r = CheckEmpty)) ∨
    last_such is_decisive evs = Some Dismissed;
  rh_activity : us_activity s = activity_after (last_such sets_activity evs);
  rh_staged : ∀ g, us_staged s = Some g →
    last_such (λ e, match e with Downloaded _ | CheckFailed _ => true | _ => false end) evs = Some (Downloaded (stg_version g))
}.

Lemma reads_history_nil : reads_history [] new_update_state.
Proof. split; cbn; try done. split; [done|]. by intros ?%not_elem_of_nil. Qed.

Lemma reads_history_snoc evs e s : reads_history evs s → reads_history (evs ++ [e]) (update_reduce s e).
Proof.
  destruct s as [st act av stg pct prefs valid]. intros [Hv Hn Hf Ha Hs Hact Hg]. cbn in *.
  assert (Hin : ∀ x, e ≠ x → x ∈ evs ++ [e] ↔ x ∈ evs).
  { intros x Hx. rewrite elem_of_app, list_elem_of_singleton. naive_solver. }
  destruct e as [| |p| | |now [|v n|]|v|now|]; split; cbn;
    rewrite ?last_such_snoc; cbn; rewrite ?Hin by done; try done; eauto.
  - rewrite <- Hn. destruct (last_check_outcome st) as [[]|] eqn:Ho; cbn; rewrite ?Ho; try done.
    by destruct (available_version st).
  - destruct (last_check_outcome st) as [[]|] eqn:Ho; cbn; rewrite ?Ho; try done. by destruct (available_version st).
  - left. by eauto.
  - intros a [= <-]. by eauto.
  - left. by eauto.
  - by intros g [= <-].
  - rewrite elem_of_app, list_elem_of_singleton. naive_solver.
Qed.

Lemma reads_history_run evs : reads_history evs (update_run new_update_state evs).
Proof.
  induction evs as [|e evs IH] using rev_ind; [apply reads_history_nil|].
  rewrite update_run_snoc. by apply reads_history_snoc.
Qed.

(** ** Theorems *)

(** C13. Every state reached by any events, from the initial state, is well
    formed: progress is a percentage, a found version is the one the durable
    status names, a failure says that a version was found earlier exactly when
    one is recorded, and a check time comes with its outcome. *)
Theorem update_state_is_well_formed evs :
  Forall wf_event evs → wf_update (update_run new_update_state evs).
Proof. intros He. apply wf_run; [done|apply wf_new]. Qed.

Definition demo_events : list UpdateEvent :=
  [CheckStarted; CheckResult 1700000000 (UpdateAvailable "0.4.0" (Some "notes")); DownloadStarted; DownloadProgress 250].

Lemma update_state_is_well_formed_witness :
  wf_update (update_run new_update_state demo_events) ∧
  us_download_pct (update_run new_update_state demo_events) = Some 100%Z.
Proof.
  split; [|by vm_compute].
  apply update_state_is_well_formed. repeat constructor; vm_compute; done.
Defined.

(** What the display claims about the history that led to it. *)
Definition display_claim (evs : list UpdateEvent) (s : UpdateState) : Prop :=
  match display s with
  | DisplayUnavailable => ConfigInvalid ∈ evs
  | DisplayNeverChecked => Forall (λ e, is_fact e = false) evs
  | DisplayChecking => last_such sets_activity evs = Some CheckStarted
  | DisplayDownloading => last_such sets_activity evs = Some DownloadStarted
  | DisplayStaged =>
    last_such sets_activity evs = Some InstallStarted ∨
    ∃ v, last_such (λ e, match e with Downloaded _ | CheckFailed _ => true | _ => false end) evs = Some (Downloaded v) ∧
         us_staged s = Some (mkStaged v)
  | DisplayAvailable =>
    ∃ now v notes, last_such is_decisive evs = Some (CheckResult now (UpdateAvailable v notes)) ∧
      uv_available_version (view s) = Some v ∧ uv_notes (view s) = notes
  | DisplayFailed | DisplayFailedWithAvailable => ∃ now, last_such is_decisive evs = Some (CheckFailed now)
  | DisplayUpToDate =>
    (∃ now r, last_such is_decisive evs = Some (CheckResult now r) ∧ (r = CheckUpToDate ∨ r = CheckEmpty)) ∨
    last_such is_decisive evs = Some Dismissed
  end.

Lemma activity_after_inv o :
  match activity_after o with
  | Checking => o = Some CheckStarted
  | Downloading => o = Some DownloadStarted
  | Installing => o = Some InstallStarted
  | ActivityIdle => True
  end.
Proof. by destruct o as [[]|]. Qed.

(** What is displayed is decided by the history: an update is called
    available only if the last decisive event is the check that found it, a
    failure only if it is a failed check, up to date only after an up-to-date
    result or a dismissal, never checked only if no check or download ever
    completed, staged only while the download that was last reported has not
    been refused since, checking and downloading only while the last activity
    is that one; a configuration that is invalid is always shown. *)
Theorem update_display_is_decided_by_history evs :
  display_claim evs (update_run new_update_state evs) ∧
  (ConfigInvalid ∈ evs → display (update_run new_update_state evs) = DisplayUnavailable).
Proof.
  pose proof (reads_history_run evs) as [Hv Hn Hf Ha Hs Hact Hg].
  revert Hv Hn Hf Ha Hs Hact Hg. generalize (update_run new_update_state evs) as s.
  intros s Hv Hn Hf Ha Hs Hact Hg. split.
  - unfold display_claim, display, is_staged. pose proof (activity_after_inv (last_such sets_activity evs)) as Hi.
    rewrite <- Hact in Hi.
    destruct (us_config_valid s); cbn; [|by apply Hv].
    destruct (us_activity s); [|done|done|by left].
    destruct (us_staged s) as [[v]|]; [right; exists v; split; [by apply (Hg (mkStaged v))|done]|].
    destruct (us_available s) as [a|] eqn:Ea.
    { destruct (Ha a eq_refl) as [now Hl]. exists now, (av_version a), (av_notes a).
      by split. }
    destruct (last_check_outcome (us_status s)) as [[]|]; try (by apply Hs).
    + destruct (failed_with_available _); by apply Hf.
    + apply Forall_forall. intros e He. pose proof (proj1 Hn eq_refl) as Hnone.
      apply (proj1 (find_first_None _ _) Hnone e). by rewrite elem_of_reverse.
  - intros Hc. apply Hv in Hc. unfold display. by rewrite Hc.
Qed.

(** A first check that fails and is dismissed reads as up to date. *)
Lemma dismissed_failure_reads_up_to_date :
  display (update_run new_update_state [CheckStarted; CheckFailed 1700000000; Dismissed]) = DisplayUpToDate.
Proof. by vm_compute. Qed.

(** The enabled controls agree with what is displayed: a parked update can
    be installed and nothing else started, a download is offered only with the
    version that is shown, retry only on a shown failure, a check only when
    nothing runs and nothing is parked, and while a call runs it can at most
    be cancelled. *)
Theorem update_actions_agree_with_display evs :
  Forall wf_event evs →
  let s := update_run new_update_state evs in
  let v := view s in
  let a := uv_actions v in
  (can_check_now a = true ↔ uv_display v ∈
     [DisplayNeverChecked; DisplayUpToDate; DisplayAvailable; DisplayFailed; DisplayFailedWithAvailable]) ∧
  (can_download a = true ↔ uv_display v = DisplayAvailable) ∧
  (can_download a = true → ∃ u, us_available s = Some u ∧ uv_available_version v = Some (av_version u) ∧
     available_version (us_status s) = Some (av_version u)) ∧
  (can_retry a = true ↔ uv_display v = DisplayFailed ∨ uv_display v = DisplayFailedWithAvailable) ∧
  (can_install a = true → is_Some (us_staged s) ∧ can_check_now a = false ∧ can_download a = false ∧ can_retry a = false ∧
     (us_config_valid s = true → uv_display v = DisplayStaged)) ∧
  (can_cancel a = true → can_check_now a = false ∧ can_download a = false ∧ can_install a = false ∧
     can_retry a = false ∧ can_dismiss a = false).
Proof.
  intros He s. assert (Hw : wf_update s) by (apply wf_run; [done|apply wf_new]).
  destruct Hw as [_ Hav _]. clearbody s. destruct s as [st act av stg pct prefs valid].
  cbn -[elem_of] in *. unfold display, derive_actions, in_flight, is_staged. cbn -[elem_of].
  set (d := (if negb valid then _ else _)).
  assert (Hset : ∀ x, x ∈ [DisplayNeverChecked; DisplayUpToDate; DisplayAvailable; DisplayFailed; DisplayFailedWithAvailable] ↔
    bool_decide (x ∈ [DisplayNeverChecked; DisplayUpToDate; DisplayAvailable; DisplayFailed; DisplayFailedWithAvailable]) = true).
  { intros x. by rewrite bool_decide_eq_true. }
  rewrite Hset. subst d.
  destruct valid, act, stg as [g|], av as [u|], (last_check_outcome st) as [[]|], (failed_with_available st);
    cbn; repeat split; try done; try (by intros [?|?]); try (by left); try (by right); try (by eauto);
    intros _; exists u; destruct (Hav u eq_refl); by rewrite ?H0.
Qed.

Lemma update_actions_agree_with_display_witness :
  let s := update_run new_update_state (take 2 demo_events) in
  can_download (uv_actions (view s)) = true ∧ uv_display (view s) = DisplayAvailable.
Proof.
  pose proof (update_actions_agree_with_display (take 2 demo_events)) as H.
  assert (Forall wf_event (take 2 demo_events)) as Hw by (repeat constructor; vm_compute; done).
  split; [by vm_compute|]. apply (proj1 (proj2 (H Hw))). by vm_compute.
Defined.
