(* ===== verification/About.v ===== *)
(** * The About lines (crates/observer-model/src/about.rs)

    What the app and the browser extension show about the app and the paired
    journal: the rendered lines, the snapshot that goes to the browser and its
    checks, and the form encoding of the report address. Strings are UTF-8
    bytes, so a control character is a byte below 0x20, 0x7F, or 0xC2 followed
    by 0x80..0x9F. *)
From Stdlib Require Import Ascii String.
From S2P Require Import Prelude RustStr.

Local Open Scope list_scope.

(** ** Data *)

Inductive Freshness : Type := Current | Stale (seen_at : option Z) (now : Z).

Record JournalAboutFacts : Type := mkFacts {
  jf_version : string;
  jf_build : option string;
  jf_os : string;
  jf_os_version : string;
  jf_arch : string
}.

Record WindowsObservation : Type := mkObservation { build_number : option string; native_machine : option Z }.

Record NativeAboutSnapshot : Type := mkSnapshot {
  sn_protocol : Z;
  sn_os : string;
  sn_os_version : string;
  sn_arch : string;
  sn_journal_line : string;
  sn_journal_current : bool;
  sn_seen_at : option Z
}.
#[global] Instance NativeAboutSnapshot_eq_dec : EqDecision NativeAboutSnapshot.
Proof. solve_decision. Defined.

(** ** Checks *)

(** [chars().any(char::is_control)]. *)
Fixpoint has_control (s : string) : bool :=
  match s with
  | EmptyString => false
  | String c r =>
    (byte_val c <? 32)%Z || (byte_val c =? 127)%Z ||
    ((byte_val c =? 194)%Z && match r with String d _ => byte_in 128 159 d | EmptyString => false end) ||
    has_control r
  end.

Definition unknown_journal_line : string := "journal unknown".

Definition validate (s : NativeAboutSnapshot) : result unit string :=
  if negb (sn_protocol s =? 1)%Z then Err "unsupported about protocol version"
  else if has_control (sn_os s) || has_control (sn_os_version s) || has_control (sn_arch s) || has_control (sn_journal_line s)
  then Err "about snapshot contains a control character"
  else if contains (sn_journal_line s) (String "010" EmptyString) || contains (sn_journal_line s) (String "013" EmptyString) ||
          contains (sn_journal_line s) " · last seen " || contains (sn_journal_line s) " (last known)"
  then Err "native journal line must be the base line"
  else if String.eqb (sn_journal_line s) unknown_journal_line && (sn_journal_current s || bool_decide (is_Some (sn_seen_at s)))
  then Err "unknown journal cannot be current or have a seen-at time"
  else if negb (starts_with "journal " (sn_journal_line s)) || String.eqb (sn_journal_line s) "journal "
  then Err "native journal line has an invalid name"
  else Ok tt.

Definition new_snapshot (os os_version arch line : string) (current : bool) (seen : option Z) : result NativeAboutSnapshot string :=
  let snapshot := mkSnapshot 1 os os_version arch line current seen in
  match validate snapshot with Ok _ => Ok snapshot | Err e => Err e end.
Definition unknown (os os_version arch : string) : NativeAboutSnapshot :=
  mkSnapshot 1 os os_version arch unknown_journal_line false None.

(** ** Lines *)

Definition normalize_version (version : string) : string := default version (strip_prefix "v" version).
Definition normalize_arch (arch : string) : string :=
  if bool_decide (arch ∈ ["aarch64"; "ARM64"; "arm64"; "arm64-v8a"]) then "arm64"
  else if bool_decide (arch ∈ ["amd64"; "x64"; "AMD64"; "x86_64"]) then "x86_64"
  else arch.

Definition nonempty (s : option string) : option string :=
  match s with Some s => if is_empty s then None else Some s | None => None end.
Definition ago_units (n : Z) (unit : string) : string :=
  fmt_dec n +:+ " " +:+ unit +:+ (if (n =? 1)%Z then "" else "s") +:+ " ago".
Definition relative_age (age : Z) : string :=
  if (age <? 60)%Z then "just now"
  else if (age <? 3600)%Z then ago_units (age / 60) "minute"
  else if (age <? 86400)%Z then ago_units (age / 3600) "hour"
  else ago_units (age / 86400) "day".

Definition join_platform (os os_version : option string) : string :=
  match nonempty os, nonempty os_version with
  | Some a, Some b => a +:+ " " +:+ b
  | Some a, None => a
  | None, Some b => b
  | None, None => EmptyString
  end.
Definition no_version (name : string) : string := if String.eqb name "journal" then unknown_journal_line else name.

Definition render_line (name : string) (version build os os_version arch : option string) (freshness : Freshness) : string :=
  match nonempty version with
  | None => no_version name
  | Some version =>
    let version := normalize_version version in
    if is_empty version then no_version name
    else
      let line := name +:+ " " +:+ version in
      let line := match nonempty build with Some b => line +:+ " (" +:+ b +:+ ")" | None => line end in
      let platform := join_platform os os_version in
      let line := if is_empty platform then line else line +:+ " · " +:+ platform in
      let line := match nonempty arch with Some a => line +:+ " · " +:+ normalize_arch a | None => line end in
      match freshness with
      | Stale (Some seen_at) now =>
        if (seen_at <=? now)%Z then line +:+ " · last seen " +:+ relative_age (now - seen_at) else line
      | _ => line
      end
  end.

Definition render_journal_line (version : option string) (facts : option JournalAboutFacts) (fresh : bool)
    (seen_at : option Z) (now : Z) : string :=
  render_line "journal" version (facts ≫= jf_build) (jf_os <$> facts) (jf_os_version <$> facts) (jf_arch <$> facts)
    (if fresh then Current else Stale seen_at now).
Definition render_journal_base_line (version : option string) (facts : option JournalAboutFacts) : string :=
  render_line "journal" version (facts ≫= jf_build) (jf_os <$> facts) (jf_os_version <$> facts) (jf_arch <$> facts) Current.

(** [str::parse::<u32>]. *)
Definition parse_u32 (s : string) : option Z :=
  match parse_u64 s with Some n => if (n <=? u32_max)%Z then Some n else None | None => None end.
Definition windows_os_version (build : option string) : string :=
  match nonempty build with
  | None => EmptyString
  | Some build =>
    match parse_u32 build with
    | None => EmptyString
    | Some number => (if (22000 <=? number)%Z then "11" else "10") +:+ " " +:+ build
    end
  end.
Definition windows_arch (machine : option Z) : option string :=
  match machine with
  | Some 43620%Z => Some "arm64"
  | Some 34404%Z => Some "x86_64"
  | Some 332%Z => Some "x86"
  | Some 452%Z => Some "arm"
  | _ => None
  end.
Definition render_windows_app_line (package_version : string) (o : WindowsObservation) : string :=
  render_line "windows app" (Some package_version) None (Some "windows") (Some (windows_os_version (build_number o)))
    (windows_arch (native_machine o)) Current.

Definition native_windows_snapshot (o : WindowsObservation) (line : string) (current : bool) (seen : option Z) : NativeAboutSnapshot :=
  let os_version := windows_os_version (build_number o) in
  let arch := default EmptyString (windows_arch (native_machine o)) in
  match new_snapshot "windows" os_version arch line current seen with
  | Ok s => s
  | Err _ => unknown "windows" os_version arch
  end.

Definition compose_about_block (app_line journal_line : string) : string :=
  app_line +:+ String "010" journal_line.

(** ** The journal's own facts *)

(** U+2028 and U+2029 are E2 80 A8 and E2 80 A9. *)
Definition line_separators : list string :=
  [ws_bytes [226; 128; 168]%Z; ws_bytes [226; 128; 169]%Z].
Definition valid_text (value : string) (max : Z) : bool :=
  (Z.of_nat (String.length value) <=? max)%Z &&
  negb (has_control value || existsb (contains value) line_separators).
Definition valid_fact (value : string) (max : Z) : bool := negb (is_empty (trim value)) && valid_text value max.

Record Resource : Type := mkResource { re_protocol : Z; re_facts : JournalAboutFacts }.

(** [resource_of] is serde_json's reading of the body. *)
Definition decode_journal_resource (resource_of : string → option Resource) (body : string) : result JournalAboutFacts string :=
  match resource_of body with
  | None => Err "invalid about resource"
  | Some r =>
    let f := re_facts r in
    if negb (re_protocol r =? 1)%Z || negb (valid_fact (jf_version f) 128) || is_empty (normalize_version (jf_version f)) ||
       negb (valid_text (jf_os f) 64) || negb (valid_text (jf_os_version f) 64) || negb (valid_text (jf_arch f) 64) ||
       match jf_build f with Some b => negb (valid_text b 128) | None => false end
    then Err "invalid about resource facts"
    else Ok f
  end.

(** ** The report address *)

Definition upper_hex_digit (d : Z) : ascii := if (d <? 10)%Z then ascii_of_Z (48 + d) else ascii_of_Z (55 + d).
Definition form_safe (c : ascii) : bool :=
  is_ascii_alphanumeric c || Ascii.eqb c "*" || Ascii.eqb c "-" || Ascii.eqb c "." || Ascii.eqb c "_".
Fixpoint form_encode (value : string) : string :=
  match value with
  | EmptyString => EmptyString
  | String c rest =>
    if Ascii.eqb c " " then String "+" (form_encode rest)
    else if form_safe c then String c (form_encode rest)
    else String "%" (String (upper_hex_digit (byte_val c / 16)) (String (upper_hex_digit (byte_val c mod 16)) (form_encode rest)))
  end.

(** ** Lemmas *)

Lemma has_control_digits s : all_bytes is_ascii_digit s = true → has_control s = false.
Proof.
  induction s as [|c s IH]; cbn [all_bytes has_control]; [done|]. intros [Hc Hs]%andb_true_iff. rewrite (IH Hs).
  clear IH Hs. revert c Hc. refine (forall_ascii _ _). intros [] [] [] [] [] [] [] [] Hc; solve [discriminate Hc|reflexivity].
Qed.
Lemma parse_digits_digits n s m : parse_digits n s = Some m → all_bytes is_ascii_digit s = true.
Proof.
  revert n. induction s as [|c s IH]; intros n; cbn [parse_digits all_bytes]; [done|]. unfold digit_val.
  destruct (is_ascii_digit c); [|done]. case_match; [|done]. by intros ?%IH.
Qed.
Lemma parse_u64_no_control s n : parse_u64 s = Some n → has_control s = false.
Proof.
  unfold parse_u64. destruct s as [|c r]; [done|]. destruct (Ascii.eqb_spec c "+") as [->|Hc].
  - destruct r as [|d r]; [done|]. intros Hp%parse_digits_digits. by apply has_control_digits in Hp.
  - intros Hp%parse_digits_digits. by apply has_control_digits.
Qed.
Lemma windows_os_version_no_control b : has_control (windows_os_version b) = false.
Proof.
  unfold windows_os_version, parse_u32. destruct (nonempty b) as [s|]; [|done].
  destruct (parse_u64 s) as [n|] eqn:Hp; [|done]. apply parse_u64_no_control in Hp.
  case_match; [|done]. destruct (22000 <=? _)%Z; cbn -[has_control]; cbn; by rewrite Hp.
Qed.
Lemma windows_arch_no_control m : has_control (default EmptyString (windows_arch m)) = false.
Proof. unfold windows_arch. by repeat case_match. Qed.

(** ** Properties *)

(** Whatever Windows reports and whatever line, freshness and time are
    supplied, the snapshot the app sends to the browser passes the contract's
    checks: protocol 1, no control character, a base journal line, and no
    currency or time for an unknown journal. *)
Theorem about_snapshot_is_valid o line current seen :
  validate (native_windows_snapshot o line current seen) = Ok tt.
Proof.
  unfold native_windows_snapshot, new_snapshot. set (s := mkSnapshot _ _ _ _ _ _ _).
  destruct (validate s) as [[]|e] eqn:Hv; [done|]. unfold validate, unknown. cbn [sn_protocol sn_os sn_os_version sn_arch sn_journal_line sn_journal_current sn_seen_at].
  by rewrite windows_os_version_no_control, windows_arch_no_control.
Qed.

(** A reader of application/x-www-form-urlencoded text. *)
Definition unhex (c : ascii) : option Z :=
  if is_ascii_digit c then Some (byte_val c - 48)%Z
  else if byte_in 65 70 c then Some (byte_val c - 55)%Z else None.
Fixpoint form_decode (s : string) : option string :=
  match s with
  | EmptyString => Some EmptyString
  | String c rest =>
    if Ascii.eqb c "+" then String " " <$> form_decode rest
    else if Ascii.eqb c "%" then
      match rest with
      | String a (String b rest) =>
        hi ← unhex a; lo ← unhex b; String (ascii_of_Z (hi * 16 + lo)) <$> form_decode rest
      | _ => None
      end
    else String c <$> form_decode rest
  end.

Lemma form_decode_cons c rest r :
  form_decode rest = Some r →
  form_decode (if Ascii.eqb c " " then String "+" rest
               else if form_safe c then String c rest
               else String "%" (String (upper_hex_digit (byte_val c / 16)) (String (upper_hex_digit (byte_val c mod 16)) rest)))
  = Some (String c r).
Proof.
  intros Hr. revert c. refine (forall_ascii _ _).
  intros [] [] [] [] [] [] [] []; lazy -[form_decode]; cbn [form_decode]; lazy -[form_decode fmap option_fmap];
    rewrite Hr; reflexivity.
Qed.

(** The fields of a report address come back as they were: decoding the
    form encoding of any bytes gives the bytes, and the encoding holds no
    separator, so a value can add no field of its own. *)
Theorem report_fields_survive_encoding value :
  form_decode (form_encode value) = Some value ∧
  all_bytes (λ c, form_safe c || Ascii.eqb c "+" || Ascii.eqb c "%") (form_encode value) = true.
Proof.
  split.
  - induction value as [|c value IH]; [done|]. cbn [form_encode]. by apply form_decode_cons.
  - induction value as [|c value IH]; [done|]. cbn [form_encode].
    destruct (Ascii.eqb c " "); [by cbn [all_bytes]|]. destruct (form_safe c) eqn:Hs; cbn [all_bytes].
    + by rewrite Hs.
    + rewrite IH, andb_true_r. clear IH Hs. revert c. refine (forall_ascii _ _).
      intros [] [] [] [] [] [] [] []; reflexivity.
Qed.
