(* ===== verification/Launch.v ===== *)
(** * Launches (observer-model/src/launch.rs and scheme.rs, browser-host/src/argv.rs and stores.rs)

    What a set of arguments makes of the process: the app with or without its
    window, the browser host, or an exit; who owns the registered address
    scheme; and the browsers' row in the tray. Arguments are valid Unicode. *)
From Stdlib Require Import Ascii String.
From S2P Require Import Prelude RustStr Setup.

Local Open Scope list_scope.

(** ** launch.rs *)

Definition FROM_AUTOSTART_ARG : string := "--from-autostart".
Definition SUPPRESS : list string :=
  [FROM_AUTOSTART_ARG; "--dump-state"; "--healthz"; "--check-update"; "--apply-update"; "--dump-windows"; "--log-path";
   "--integration"; "--open-journal"; "--veloapp-install"; "--veloapp-updated"; "--veloapp-obsolete"; "--veloapp-uninstall"].
Definition launch_should_surface (args : list string) : bool :=
  negb (existsb (λ a, bool_decide (a ∈ SUPPRESS)) args).

Definition CHROME_ORIGIN_PREFIX : string := "chrome-extension://".
Definition is_native_messaging_launch (args : list string) : bool :=
  if existsb (starts_with CHROME_ORIGIN_PREFIX) args then true
  else Nat.eqb (length args) 2 && forallb (λ a, negb (is_empty a) && negb (starts_with "-" a)) args.

(** ** argv.rs *)

Inductive Mode : Type := Production | Development.
Definition mode_token (m : Mode) : string := match m with Production => "production" | Development => "development" end.
Definition mode_parse (token : string) : option Mode :=
  if String.eqb token "production" then Some Production
  else if String.eqb token "development" then Some Development else None.

Inductive BrandHint : Type := Chromium | Firefox.
Definition brand_token (b : BrandHint) : string := match b with Chromium => "chromium" | Firefox => "firefox" end.
Definition brand_parse (token : string) : option BrandHint :=
  if String.eqb token "chromium" then Some Chromium else if String.eqb token "firefox" then Some Firefox else None.
Definition admits (b : BrandHint) (brand : string) : bool :=
  match b with
  | Chromium => String.eqb brand "chrome" || String.eqb brand "edge"
  | Firefox => String.eqb brand "firefox"
  end.

Inductive Classified : Type := NotHost | Host (brand : BrandHint) (mode : Mode) | Rejected.

(** The extension ids of the shared browser contract. *)
Record ExtensionIds : Type := mkIds {
  prod_chrome : string; prod_edge : string; prod_firefox : string;
  dev_chrome : string; dev_edge : string; dev_firefox : string
}.

Definition PARENT_WINDOW_PREFIX : string := "--parent-window=".
Definition is_parent_window (arg : string) : bool :=
  match strip_prefix PARENT_WINDOW_PREFIX arg with
  | Some v => negb (is_empty v) && all_bytes is_ascii_digit v
  | None => false
  end.
(** [strip_suffix] of a one-byte suffix. *)
Definition strip_slash (s : string) : option string :=
  if ends_with s "/" then Some (String.substring 0 (String.length s - 1) s) else None.

Section argv.
Context (ids : ExtensionIds).

Definition chromium_mode (id : string) (development : bool) : option Mode :=
  if String.eqb id (prod_chrome ids) || String.eqb id (prod_edge ids) then Some Production
  else if development && (String.eqb id (dev_chrome ids) || String.eqb id (dev_edge ids)) then Some Development
  else None.
Definition firefox_mode (id : string) (development : bool) : option Mode :=
  if String.eqb id (prod_firefox ids) then Some Production
  else if development && String.eqb id (dev_firefox ids) then Some Development
  else None.
Definition host_or_reject (brand : BrandHint) (m : option Mode) : Classified :=
  match m with Some m => Host brand m | None => Rejected end.

Definition classify (args : list string) (development : bool) : Classified :=
  if negb (is_native_messaging_launch args) then NotHost
  else
    match args with
    | origin :: rest =>
      if starts_with CHROME_ORIGIN_PREFIX origin then
        let shaped := match rest with
                      | [] => true
                      | arg :: more => is_parent_window arg && match more with [] => true | _ => false end
                      end in
        if negb shaped then Rejected
        else
          match strip_prefix CHROME_ORIGIN_PREFIX origin ≫= strip_slash with
          | None => Rejected
          | Some id => host_or_reject Chromium (chromium_mode id development)
          end
      else
        match rest with
        | [id] => host_or_reject Firefox (firefox_mode id development)
        | _ => Rejected
        end
    | [] => Rejected
    end.

(** ** Properties of launches *)

Lemma strip_slash_spec s r : strip_slash s = Some r ↔ s = r +:+ "/".
Proof.
  assert (Hlen : ∀ a b, String.length (a +:+ b) = (String.length a + String.length b)%nat).
  { intros a b. induction a as [|c a IH]; cbn; [done|]. by rewrite IH. }
  assert (Hsub : ∀ a b, String.substring 0 (String.length a) (a +:+ b) = a).
  { intros a b. induction a as [|c a IH]; cbn; [by destruct b|]. by rewrite IH. }
  unfold strip_slash. split.
  - destruct (ends_with s "/") eqn:He; [|done]. apply ends_with_spec in He as [l ->].
    rewrite Hlen. cbn [String.length]. replace (String.length l + 1 - 1)%nat with (String.length l) by lia. rewrite Hsub. by intros [= ->].
  - intros ->. rewrite (proj2 (ends_with_spec (r +:+ "/") "/")) by by exists r.
    rewrite Hlen. cbn [String.length]. replace (String.length r + 1 - 1)%nat with (String.length r) by lia. by rewrite Hsub.
Qed.

(** The arguments the browsers are documented to pass, for a listed id. *)
Inductive host_launch (development : bool) : list string → BrandHint → Mode → Prop :=
  | launch_chromium id m :
      chromium_mode id development = Some m →
      host_launch development [CHROME_ORIGIN_PREFIX +:+ id +:+ "/"] Chromium m
  | launch_chromium_window id digits m :
      chromium_mode id development = Some m → digits ≠ EmptyString → all_bytes is_ascii_digit digits = true →
      host_launch development [CHROME_ORIGIN_PREFIX +:+ id +:+ "/"; PARENT_WINDOW_PREFIX +:+ digits] Chromium m
  | launch_firefox manifest id m :
      firefox_mode id development = Some m → starts_with CHROME_ORIGIN_PREFIX manifest = false →
      is_native_messaging_launch [manifest; id] = true →
      host_launch development [manifest; id] Firefox m.

Lemma is_parent_window_spec arg : is_parent_window arg = true ↔
  ∃ digits, arg = PARENT_WINDOW_PREFIX +:+ digits ∧ digits ≠ EmptyString ∧ all_bytes is_ascii_digit digits = true.
Proof.
  unfold is_parent_window. split.
  - destruct (strip_prefix _ arg) as [v|] eqn:Hs; [|done]. apply strip_prefix_inv in Hs as ->. intros [Hv Hd]%andb_true_iff.
    exists v. split_and!; [done|by destruct v|done].
  - intros (digits & -> & Hne & Hd). rewrite strip_prefix_app, Hd. by destruct digits.
Qed.
Lemma origin_spec origin id : strip_prefix CHROME_ORIGIN_PREFIX origin ≫= strip_slash = Some id ↔ origin = CHROME_ORIGIN_PREFIX +:+ id +:+ "/".
Proof.
  split.
  - destruct (strip_prefix CHROME_ORIGIN_PREFIX origin) as [r|] eqn:Hs; [|done]. cbn [mbind option_bind].
    intros ->%strip_slash_spec. by apply strip_prefix_inv.
  - intros ->. rewrite strip_prefix_app. cbn [mbind option_bind]. by apply strip_slash_spec.
Qed.
Lemma starts_with_app pat s : starts_with pat (pat +:+ s) = true.
Proof. apply starts_with_spec. by exists s. Qed.

(** The process becomes a browser host for exactly the documented argument
    shapes with a listed extension id, the development ids only in a
    development build; any other native-messaging shape is refused, and only a
    launch of no such shape goes on as the app. *)
Theorem host_launches_are_the_listed_ones args development brand mode :
  (classify args development = Host brand mode ↔ host_launch development args brand mode) ∧
  (classify args development = NotHost ↔ is_native_messaging_launch args = false).
Proof.
  split.
  - split.
    + unfold classify. destruct (is_native_messaging_launch args) eqn:Hn; [|done]. cbn [negb].
      destruct args as [|origin rest]; [done|]. destruct (starts_with CHROME_ORIGIN_PREFIX origin) eqn:Ho.
      * destruct (strip_prefix CHROME_ORIGIN_PREFIX origin ≫= strip_slash) as [id|] eqn:Hid; [|by case_match].
        apply origin_spec in Hid as ->. destruct rest as [|arg [|x more]]; cbn [negb].
        -- unfold host_or_reject. destruct (chromium_mode id development) eqn:Hm; [|done]. intros [= <- <-]. by constructor.
        -- destruct (is_parent_window arg) eqn:Hw; [|done]. apply is_parent_window_spec in Hw as (digits & -> & Hne & Hd). cbn [negb andb].
           unfold host_or_reject. destruct (chromium_mode id development) eqn:Hm; [|done]. intros [= <- <-]. by constructor.
        -- by rewrite andb_false_r.
      * destruct rest as [|id [|x more]]; [done| |done]. unfold host_or_reject.
        destruct (firefox_mode id development) eqn:Hm; [|done]. intros [= <- <-]. by constructor.
    + intros Hl. unfold classify. destruct Hl as [id m Hm|id digits m Hm Hne Hd|manifest id m Hm Hp Hn].
      * unfold is_native_messaging_launch. cbn [existsb]. rewrite starts_with_app. cbn [orb negb].
        rewrite (proj2 (origin_spec _ id) eq_refl). by rewrite Hm.
      * unfold is_native_messaging_launch. cbn [existsb]. rewrite starts_with_app. cbn [orb negb].
        rewrite (proj2 (is_parent_window_spec _)) by by exists digits. cbn [andb negb].
        rewrite (proj2 (origin_spec _ id) eq_refl). by rewrite Hm.
      * rewrite Hn. cbn [negb]. rewrite Hp. by rewrite Hm.
  - unfold classify. destruct (is_native_messaging_launch args) eqn:Hn; cbn [negb]; [|done].
    split; [|done]. destruct args as [|origin rest]; [done|]. unfold host_or_reject. by repeat case_match.
Qed.
End argv.

(** ** scheme.rs *)

Inductive SchemeLaunchDecision : Type := Ensure | Leave.

Definition quote : string := String "034" EmptyString.
Definition extract_first_quoted_token (s : string) : option string :=
  match strip_prefix quote (trim_start s) with
  | None => None
  | Some rest => fst <$> split_once quote rest
  end.
Definition scheme_open_command (exe arg : string) : option string :=
  if negb (String.eqb arg "%1") then None
  else if is_empty exe || contains exe quote || contains exe (String "000" EmptyString) ||
          contains exe (String "013" EmptyString) || contains exe (String "010" EmptyString)
  then None
  else Some (quote +:+ exe +:+ quote +:+ " " +:+ quote +:+ "%1" +:+ quote).
Definition owns (current exe : string) : bool :=
  match extract_first_quoted_token current with Some first => eq_ignore_ascii_case first exe | None => false end.
Definition scheme_launch_decision (copy : CopyClass) (current : option string) (exe : string) : SchemeLaunchDecision :=
  match copy with
  | Dev | Portable => Leave
  | Installed => match current with None => Ensure | Some c => if owns c exe then Ensure else Leave end
  end.
Definition scheme_uninstall_should_remove (current : option string) (exe : string) : bool :=
  match current with None => false | Some c => owns c exe end.

Lemma trim_start_quote s : trim_start (quote +:+ s) = quote +:+ s.
Proof. reflexivity. Qed.
Lemma split_once_quote a b : contains a quote = false → split_once quote (a +:+ quote +:+ b) = Some (a, b).
Proof. by apply split_once_app. Qed.

(** The command registered for the address scheme is recognised as the
    app's own: its first quoted token is the executable, an installed copy
    keeps it, uninstalling removes it; and a command whose first token is
    another program is neither replaced nor removed. *)
Theorem scheme_command_is_owned exe cmd :
  scheme_open_command exe "%1" = Some cmd →
  extract_first_quoted_token cmd = Some exe ∧
  scheme_launch_decision Installed (Some cmd) exe = Ensure ∧
  scheme_uninstall_should_remove (Some cmd) exe = true ∧
  ∀ other, eq_ignore_ascii_case exe other = false →
    scheme_launch_decision Installed (Some cmd) other = Leave ∧ scheme_uninstall_should_remove (Some cmd) other = false.
Proof.
  unfold scheme_open_command. cbn [String.eqb negb].
  destruct (is_empty exe || contains exe quote || _ || _ || _) eqn:He; [done|]. rewrite !orb_false_iff in He.
  destruct He as ((((_ & Hq) & _) & _) & _).
  replace (negb (String.eqb "%1" "%1")) with false by reflexivity. intros Hc.
  assert (Ht : extract_first_quoted_token (quote +:+ exe +:+ quote +:+ " " +:+ quote +:+ "%1" +:+ quote) = Some exe).
  { unfold extract_first_quoted_token. rewrite trim_start_quote, strip_prefix_app, split_once_quote by done. done. }
  unfold scheme_launch_decision, scheme_uninstall_should_remove, owns.
  assert (cmd = quote +:+ exe +:+ quote +:+ " " +:+ quote +:+ "%1" +:+ quote) as -> by exact (eq_sym (Some_inj _ _ Hc)). rewrite Ht.
  assert (Hr : eq_ignore_ascii_case exe exe = true) by by apply eq_ignore_ascii_case_true.
  rewrite Hr. split_and!; try done. intros other ->. done.
Qed.

Definition demo_command : string := quote +:+ "C:\sol\app.exe" +:+ quote +:+ " " +:+ quote +:+ "%1" +:+ quote.
Lemma scheme_command_is_owned_witness :
  scheme_open_command "C:\sol\app.exe" "%1" = Some demo_command ∧
  scheme_uninstall_should_remove (Some demo_command) "C:\sol\app.exe" = true ∧
  scheme_uninstall_should_remove (Some demo_command) "C:\other.exe" = false.
Proof.
  assert (H : scheme_open_command "C:\sol\app.exe" "%1" = Some demo_command) by reflexivity.
  destruct (scheme_command_is_owned _ _ H) as (_ & _ & Hr & Ho).
  split_and!; [exact H|exact Hr|]. apply Ho. reflexivity.
Defined.

(** ** stores.rs *)

Record BrowserStore : Type := mkStore { bs_brand : string; bs_url : string; bs_executable : string }.
Definition STORE_URL_PREFIX : string := "https://chromewebstore.google.com/detail/solstone/".
Definition FIREFOX_STORE_URL : string := "https://addons.mozilla.org/firefox/addon/solstone/".
Definition stores (ids : ExtensionIds) : list BrowserStore :=
  let url := STORE_URL_PREFIX +:+ prod_chrome ids in
  [mkStore "chrome" url "chrome.exe"; mkStore "edge" url "msedge.exe"; mkStore "firefox" FIREFOX_STORE_URL "firefox.exe"].
Definition get_store (ids : ExtensionIds) (brand : string) : option BrowserStore :=
  find_first (λ e, String.eqb (bs_brand e) brand) (stores ids).

Inductive BrowsersTray : Type := TrayNames (names : list string) | TrayPaused | TrayOff | TrayNone.
Definition push_new (names : list string) (brand : string) : list string :=
  if existsb (String.eqb brand) names then names else names ++ [brand].
Definition browsers_tray (capture : string) (connected : list string) : BrowsersTray :=
  if String.eqb capture "intake_off" then TrayOff
  else if String.eqb capture "paused" then TrayPaused
  else
    match foldl push_new [] connected with
    | [] => TrayNone
    | names => TrayNames names
    end.

Lemma push_new_spec names brand b : b ∈ push_new names brand ↔ b ∈ names ∨ b = brand.
Proof.
  unfold push_new. destruct (existsb (String.eqb brand) names) eqn:He.
  - apply existsb_exists in He as (x & Hx & Hb). apply String.eqb_eq in Hb as <-. apply list_elem_of_In in Hx. split; [by left|].
    intros [?| ->]; done.
  - by rewrite elem_of_app, list_elem_of_singleton.
Qed.
Lemma push_new_NoDup names brand : NoDup names → NoDup (push_new names brand).
Proof.
  intros Hn. unfold push_new. destruct (existsb (String.eqb brand) names) eqn:He; [done|].
  apply NoDup_app. split_and!; [done| |apply NoDup_singleton].
  intros x Hx Hb%list_elem_of_singleton. subst x. apply not_true_iff_false in He. destruct He.
  apply existsb_exists. exists brand. split; [by apply list_elem_of_In|apply String.eqb_refl].
Qed.
Lemma browsers_tray_names capture connected names :
  browsers_tray capture connected = TrayNames names →
  NoDup names ∧ (∀ b, b ∈ names ↔ b ∈ connected) ∧ capture ≠ "paused" ∧ capture ≠ "intake_off".
Proof.
  unfold browsers_tray. destruct (String.eqb_spec capture "intake_off") as [->|Hi]; [done|].
  destruct (String.eqb_spec capture "paused") as [->|Hp]; [done|].
  assert (Hfold : ∀ l acc, NoDup acc → NoDup (foldl push_new acc l) ∧ ∀ b, b ∈ foldl push_new acc l ↔ b ∈ acc ∨ b ∈ l).
  { induction l as [|x l IH]; intros acc Ha; cbn [foldl]; [split; [done|]; intros b; rewrite elem_of_nil; tauto|].
    destruct (IH (push_new acc x) (push_new_NoDup _ _ Ha)) as [Hn Hb]. split; [done|].
    intros b. rewrite Hb, push_new_spec, elem_of_cons. tauto. }
  destruct (Hfold connected [] (NoDup_nil_2)) as [Hn Hb]. destruct (foldl push_new [] connected) eqn:Hf; [done|].
  intros [= <-]. split_and!; [done| |done|done]. intros b. rewrite Hb, elem_of_nil. tauto.
Qed.
