(* ===== verification/Custody.v ===== *)
(** * Custody of browser text (crates/browser-host/src/custody.rs)

    The store that accepts batches of page text from a browser, keeps them in
    one open directory per five-minute period, finalises a period into the
    outbox, and remembers every batch it ever accepted as a receipt file. The
    file system is the record [Disk]: the directories under [open] and
    [outbox], the files under [receipts], and the leftovers of older versions.

    Every call on it takes a verdict: it works, it fails, it fails half way
    (a removal leaves some files, a write leaves a torn temporary file), or
    the process stops there, with or without a partial effect. A run that
    stops returns [None] and only the disk is left. Period directories hold
    only files, and names are valid Unicode; batch ids are the contract's 32
    hexadecimal digits, which the wire codec checks before a batch gets here.
    The ghost fields of [World] record which period ids were minted, which
    batches were accepted, which periods were asked to be given up and for which
    open periods the directory's removal then failed; the code never reads
    them. *)
From Stdlib Require Import Ascii String.
From stdpp Require Import sorting.
From S2P Require Import Prelude RustStr PauseStore Ingest Admission.

Local Open Scope list_scope.

(** ** Data *)

Definition PERIOD_METADATA_BYTES : Z := 1024.
Definition TERMINAL_METADATA_BYTES : Z := 64.
Definition RECEIPT_METADATA_BYTES : Z := 256.
Definition PAGES_FILE : string := "browser_pages.jsonl".
Definition PERIOD_FILE : string := "period.json".
Definition TERMINAL_FILE : string := "terminal.json".

Record Policy : Type := mkPolicy {
  spool_bytes_max : Z;
  file_max : Z;
  spool_age_ms : Z;
  future_skew_ms : Z;
  period_ms : Z
}.
Definition default_policy : Policy := mkPolicy 536870912 50331648 604800000 60000 300000.

Inductive BatchResult : Type :=
  | Accepted (period_id : string)
  | Duplicate (period_id : string)
  | Rejected (reason : string).

Definition PERMANENT_REASONS : list string := ["malformed"; "oversize"; "unaccepted_lost"].
Definition rejection_class (reason : string) : string :=
  if bool_decide (reason ∈ PERMANENT_REASONS) then "permanent" else "retryable".

Record BatchInput : Type := mkBatchInput {
  bi_generation : string;
  bi_inst : string;
  bi_batch_id : string;
  bi_queued_at_ms : Z;
  bi_records : list JsonValue
}.

(** [oe_dir] is the directory's name under [outbox]. *)
Record OutboxEntry : Type := mkOutboxEntry {
  oe_dir : string;
  oe_period_id : string;
  oe_day : string;
  oe_segment : string;
  oe_start_secs : Z;
  oe_len_secs : Z;
  oe_size : Z;
  oe_sha256 : string
}.

Record CustodyStatus : Type := mkCustodyStatus {
  cs_period_id : option string;
  cs_held_bytes : Z;
  cs_held_periods : Z;
  cs_full : bool;
  cs_stale : bool;
  cs_failed : bool;
  cs_waiting : bool
}.

Record OpenPeriodFile : Type := mkOpenPeriodFile { opf_period_id : string; opf_start_ms : Z; opf_end_ms : Z }.

Record OutboxPeriodFile : Type := mkOutboxPeriodFile {
  obf_period_id : string;
  obf_day : string;
  obf_segment : string;
  obf_start_ms : Z;
  obf_len_secs : Z;
  obf_size : Z;
  obf_sha256 : string
}.

Inductive ReceiptState : Type := RPending | RDiscarded | RDelivered.
#[global] Instance ReceiptState_eq_dec : EqDecision ReceiptState.
Proof. solve_decision. Defined.

Record ReceiptFile : Type := mkReceiptFile { rf_period_id : string; rf_at_ms : Z; rf_state : ReceiptState }.

Record OpenPeriod : Type := mkOpenPeriod {
  op_id : string;
  op_start_ms : Z;
  op_end_ms : Z;
  op_bytes : Z;
  op_contexts : gset string;
  op_has_dir : bool
}.

(** A batch: the hash of the browser's instance, and the batch's id. *)
Notation BatchKey := (string * string)%type.
Notation Receipts := (gmap BatchKey ReceiptFile).

Record Active : Type := mkActive {
  ac_open : OpenPeriod;
  ac_receipts : Receipts;
  ac_next_seq : Z;
  ac_reserved : gset string
}.

Record CustodyStore : Type := mkCustodyStore {
  cu_policy : Policy;
  cu_active : option Active;
  cu_failed : bool;
  cu_full : bool;
  cu_counter : Z
}.

(** The crates the code calls: JSON, the canonical text of a record, SHA-256,
    and the naming of a period in local time, which the caller supplies. *)
Class CustodyLib : Type := {
  canonical_stringify : JsonValue → option string;
  sha256_digest : string → string;
  open_period_json : OpenPeriodFile → option string;
  open_period_of : string → option OpenPeriodFile;
  outbox_period_json : OutboxPeriodFile → option string;
  outbox_period_of : string → option OutboxPeriodFile;
  receipt_json : ReceiptFile → option string;
  receipt_of : string → option ReceiptFile;
  terminal_json : ReceiptState → option string;
  terminal_of : string → option ReceiptState;
  namer : Z → Z → string * string
}.

(** serde_json reads back what it wrote. *)
Class CustodyLaws `{CustodyLib} : Prop := {
  open_period_back : ∀ v s, open_period_json v = Some s → open_period_of s = Some v;
  outbox_period_back : ∀ v s, outbox_period_json v = Some s → outbox_period_of s = Some v;
  receipt_back : ∀ v s, receipt_json v = Some s → receipt_of s = Some v;
  terminal_back : ∀ v s, terminal_json v = Some s → terminal_of s = Some v
}.

(** A [HashMap] is iterated in an order of its own. *)
Class HashOrder : Type := {
  hash_list : Receipts → list (BatchKey * ReceiptFile);
  hash_list_spec : ∀ m, hash_list m ≡ₚ map_to_list m
}.

(** ** Names *)

Fixpoint hex (bytes : string) : string :=
  match bytes with
  | EmptyString => EmptyString
  | String b bytes =>
    String (hex_digit (Z.shiftr (byte_val b) 4)) (String (hex_digit (Z.land (byte_val b) 15)) (hex bytes))
  end.

Definition receipt_name (key : BatchKey) : string := key.1 +:+ "-" +:+ key.2 +:+ ".json".
Definition parse_receipt_name (name : string) : option (option BatchKey) :=
  match strip_suffix ".json" name with
  | None => None
  | Some stem => Some (split_once "-" stem)
  end.

Definition batch_name (seq : Z) (key : BatchKey) : string :=
  fmt_dec_pad 12 seq +:+ "-" +:+ key.1 +:+ "-" +:+ key.2 +:+ ".jsonl".
(** [stem.splitn(3, '-')]. *)
Definition parse_batch_name (name : string) : option BatchKey :=
  stem ← strip_suffix ".jsonl" name;
  rest ← snd <$> split_once "-" stem;
  split_once "-" rest.

Definition final_name (start_ms : Z) (id : string) : string := fmt_dec_pad 15 start_ms +:+ "-" +:+ id.
Definition is_staging (name : string) : bool := starts_with ".tmp-" name.

(** ** The file system *)

Notation Files := (gmap string string).
Inductive Root : Type := OpenRoot | OutboxRoot.

Record Disk : Type := mkDisk {
  d_open : option (gmap string Files);
  d_outbox : option (gmap string Files);
  d_receipts : option Files;
  d_legacy : gset string
}.

Inductive Verdict : Type := Good | Bad | BadTorn (keep : list string) | Halt | HaltTorn (keep : list string).

Record World : Type := mkWorld {
  w_disk : Disk;
  w_store : CustodyStore;
  w_verdicts : list Verdict;
  w_tokens : list string;
  w_minted : list string;
  w_accepted : list (BatchKey * (string * string));
  w_disposed : list string;
  w_half : list string
}.

Definition set_disk (d : Disk) (w : World) : World :=
  mkWorld d (w_store w) (w_verdicts w) (w_tokens w) (w_minted w) (w_accepted w) (w_disposed w) (w_half w).
Definition set_store (st : CustodyStore) (w : World) : World :=
  mkWorld (w_disk w) st (w_verdicts w) (w_tokens w) (w_minted w) (w_accepted w) (w_disposed w) (w_half w).

(** A computation that may stop: [None] is a stopped process. *)
Definition IO (A : Type) : Type := World → option A * World.
#[global] Instance io_ret : MRet IO := λ A a w, (Some a, w).
#[global] Instance io_bind : MBind IO := λ A B k m w,
  match m w with (Some a, w) => k a w | (None, w) => (None, w) end.

Definition panic {A} : IO A := λ w, (None, w).
Definition getw {A} (f : World → A) : IO A := λ w, (Some (f w), w).
Definition putw (f : World → World) : IO unit := λ w, (Some tt, f w).

(** The [?] operator. *)
Definition try {A B} (m : IO (result A io_error)) (k : A → IO (result B io_error)) : IO (result B io_error) :=
  r ← m; match r with Ok a => k a | Err e => mret (Err e) end.
Notation "x ←? m ; k" := (try m (λ x, k)) (at level 20, m at level 100, k at level 200, only parsing).
Definition ok {A} (a : A) : IO (result A io_error) := mret (Ok a).

Fixpoint fold_io {A B} (f : B → A → IO (result B io_error)) (b : B) (l : list A) : IO (result B io_error) :=
  match l with
  | [] => ok b
  | a :: l => b ←? f b a; fold_io f b l
  end.
Definition each_io {A} (f : A → IO (result unit io_error)) (l : list A) : IO (result unit io_error) :=
  fold_io (λ _ a, f a) tt l.

Definition next_verdict : IO Verdict := λ w,
  (Some (default Good (head (w_verdicts w))),
   mkWorld (w_disk w) (w_store w) (tail (w_verdicts w)) (w_tokens w) (w_minted w) (w_accepted w) (w_disposed w) (w_half w)).

Definition call {A} (whole : Disk → result A io_error * Disk) (torn : list string → Disk → Disk)
    : IO (result A io_error) :=
  v ← next_verdict;
  match v return IO (result A io_error) with
  | Good => λ w, let '(r, d) := whole (w_disk w) in (Some r, set_disk d w)
  | Bad => mret (Err OtherError)
  | BadTorn keep => λ w, (Some (Err OtherError), set_disk (torn keep (w_disk w)) w)
  | Halt => panic
  | HaltTorn keep => λ w, (None, set_disk (torn keep (w_disk w)) w)
  end.

Definition look {A} (f : Disk → result A io_error) : IO (result A io_error) := call (λ d, (f d, d)) (λ _ d, d).
(** [Path::exists] and the like: a failed call counts as no. *)
Definition probe (f : Disk → bool) : IO bool :=
  r ← look (λ d, Ok (f d)); mret (match r with Ok b => b | Err _ => false end).

Inductive Place : Type := In (root : Root) (dir : string) | InReceipts.
#[global] Instance Root_eq_dec : EqDecision Root.
Proof. solve_decision. Defined.
#[global] Instance Place_eq_dec : EqDecision Place.
Proof. solve_decision. Defined.

Definition root_at (r : Root) (d : Disk) : option (gmap string Files) :=
  match r with OpenRoot => d_open d | OutboxRoot => d_outbox d end.
Definition set_root (r : Root) (m : option (gmap string Files)) (d : Disk) : Disk :=
  match r with
  | OpenRoot => mkDisk m (d_outbox d) (d_receipts d) (d_legacy d)
  | OutboxRoot => mkDisk (d_open d) m (d_receipts d) (d_legacy d)
  end.
Definition files_at (p : Place) (d : Disk) : option Files :=
  match p with
  | In r dir => root_at r d ≫= (.!! dir)
  | InReceipts => d_receipts d
  end.
Definition put_files (p : Place) (f : option Files) (d : Disk) : Disk :=
  match p with
  | In r dir => set_root r (partial_alter (λ _, f) dir <$> root_at r d) d
  | InReceipts => mkDisk (d_open d) (d_outbox d) f (d_legacy d)
  end.
Definition change_file (p : Place) (name : string) (c : option string) (d : Disk) : Disk :=
  match files_at p d with
  | Some f => put_files p (Some (partial_alter (λ _, c) name f)) d
  | None => d
  end.
Definition file_at (p : Place) (name : string) (d : Disk) : option string := files_at p d ≫= (.!! name).
Definition found {A} (o : option A) : result A io_error := match o with Some a => Ok a | None => Err NotFound end.

Definition is_dir (p : Place) : IO bool := probe (λ d, bool_decide (is_Some (files_at p d))).
Definition file_exists (p : Place) (name : string) : IO bool := probe (λ d, bool_decide (is_Some (file_at p name d))).
Definition read_file (p : Place) (name : string) : IO (result string io_error) :=
  look (λ d, found (file_at p name d)).
Definition create_file (p : Place) (name : string) : IO (result unit io_error) :=
  call (λ d, (match files_at p d with Some _ => Ok tt | None => Err NotFound end, change_file p name (Some EmptyString) d))
       (λ _ d, change_file p name (Some EmptyString) d).
Definition write_all (p : Place) (name bytes : string) : IO (result unit io_error) :=
  call (λ d, (Ok tt, change_file p name (Some bytes) d))
       (λ keep d, change_file p name (Some (default EmptyString (head keep))) d).
Definition sync_all : IO (result unit io_error) := look (λ _, Ok tt).
Definition rename_file (p : Place) (from to : string) : IO (result unit io_error) :=
  call (λ d, match file_at p from d with
             | Some c => (Ok tt, change_file p to (Some c) (change_file p from None d))
             | None => (Err NotFound, d)
             end) (λ _ d, d).
Definition remove_file (p : Place) (name : string) : IO (result unit io_error) :=
  call (λ d, match file_at p name d with
             | Some _ => (Ok tt, change_file p name None d)
             | None => (Err NotFound, d)
             end) (λ _ d, d).

Definition keep_files (keep : list string) (p : Place) (d : Disk) : Disk :=
  match files_at p d with
  | Some f => put_files p (Some (filter (λ kv, kv.1 ∈ keep) f)) d
  | None => d
  end.
Definition remove_dir_all (p : Place) : IO (result unit io_error) :=
  call (λ d, match files_at p d with Some _ => (Ok tt, put_files p None d) | None => (Err NotFound, d) end)
       (λ keep d, keep_files keep p d).
(** [create_dir_all] of a period directory; the root is made too. *)
Definition create_period_dir (r : Root) (dir : string) : IO (result unit io_error) :=
  call (λ d, (Ok tt,
              let m := default ∅ (root_at r d) in
              set_root r (Some (match m !! dir with Some _ => m | None => <[dir := ∅]> m end)) d)) (λ _ d, d).
Definition create_root (r : Root) : IO (result unit io_error) :=
  call (λ d, (Ok tt, set_root r (Some (default ∅ (root_at r d))) d)) (λ _ d, d).
Definition create_receipts : IO (result unit io_error) :=
  call (λ d, (Ok tt, put_files InReceipts (Some (default ∅ (d_receipts d))) d)) (λ _ d, d).
(** A directory is never renamed over one that exists. *)
Definition rename_dir (r : Root) (from to : string) : IO (result unit io_error) :=
  call (λ d, match files_at (In r from) d, files_at (In r to) d with
             | None, _ => (Err NotFound, d)
             | _, Some _ => (Err OtherError, d)
             | Some f, None => (Ok tt, put_files (In r to) (Some f) (put_files (In r from) None d))
             end) (λ _ d, d).

Definition write_bytes_atomic (p : Place) (name bytes : string) : IO (result unit io_error) :=
  let tmp := with_extension name "partial" in
  r ← (_ ←? create_file p tmp; _ ←? write_all p tmp bytes; _ ←? sync_all; rename_file p tmp name);
  match r with
  | Ok _ => ok tt
  | Err e => _ ← remove_file p tmp; mret (Err e)
  end.
Definition metadata_budget (p : Place) (name : string) : Z :=
  match p with
  | InReceipts => RECEIPT_METADATA_BYTES
  | _ => if String.eqb name TERMINAL_FILE then TERMINAL_METADATA_BYTES else PERIOD_METADATA_BYTES
  end.
(** [serde_json::to_vec] has run already: [json] is its result. *)
Definition write_json_atomic (p : Place) (name : string) (json : option string) : IO (result unit io_error) :=
  match json with
  | None => mret (Err OtherError)
  | Some bytes =>
    if (metadata_budget p name <? Z.of_nat (String.length bytes))%Z then mret (Err OtherError)
    else write_bytes_atomic p name bytes
  end.
Definition remove_payload_dir (p : Place) : IO (result unit io_error) :=
  r ← remove_dir_all p; mret (match r with Err NotFound => Ok tt | r => r end).
Definition read_json {T} (p : Place) (name : string) (decode : string → option T) : IO (result (option T) io_error) :=
  r ← read_file p name;
  mret (match r with
        | Ok bytes => match decode bytes with Some v => Ok (Some v) | None => Err OtherError end
        | Err NotFound => Ok None
        | Err e => Err e
        end).

(** ** Operations *)

Section custody.
Context `{CustodyLib} `{DirOrder} `{HashOrder}.

Definition inst_hash (inst : string) : string := String.substring 0 16 (hex (sha256_digest inst)).

(** The names in a directory; a listing can break off at any entry. *)
Definition read_dir (p : Place) : IO (result (list string) io_error) :=
  look (λ d, found ((λ f, (dir_list f).*1) <$> files_at p d)).
Definition read_root (r : Root) : IO (result (list string) io_error) :=
  look (λ d, found ((λ m, (dir_list m).*1) <$> root_at r d)).
Definition next_entry : IO (result unit io_error) := look (λ _, Ok tt).

Fixpoint filter_io {A} (f : A → IO bool) (l : list A) : IO (list A) :=
  match l with
  | [] => mret []
  | a :: l => b ← f a; rest ← filter_io f l; mret (if b : bool then a :: rest else rest)
  end.

Definition batch_files (p : Place) : IO (result (list (string * BatchKey)) io_error) :=
  names ←? read_dir p;
  fold_io (λ out name,
    _ ←? next_entry;
    ok (match parse_batch_name name with Some key => out ++ [(name, key)] | None => out end)) [] names.

(** Entries that cannot be read are skipped. *)
Definition list_dirs (r : Root) : IO (result (list string) io_error) :=
  names ←? read_root r;
  kept ← filter_io (λ name, is_dir (In r name)) names;
  ok kept.

Fixpoint sum_io {A} (f : A → IO Z) (l : list A) : IO Z :=
  match l with
  | [] => mret 0%Z
  | a :: l => n ← f a; rest ← sum_io f l; mret (wrap_u64 (n + rest))
  end.
Definition file_len (p : Place) (name : string) : IO Z :=
  r ← look (λ d, found ((λ c, Z.of_nat (String.length c)) <$> file_at p name d));
  mret (match r with Ok n => n | Err _ => 0%Z end).
Definition is_payload (name : string) : bool := String.eqb name PAGES_FILE || ends_with name ".jsonl".

Definition dir_payload_bytes (p : Place) : IO Z :=
  r ← read_dir p;
  match r with
  | Err _ => mret 0%Z
  | Ok names => sum_io (λ name, if is_payload name then file_len p name else mret 0%Z) names
  end.
Definition root_payload_bytes (r : Root) : IO Z :=
  l ← read_root r;
  match l with
  | Err _ => mret 0%Z
  | Ok names => sum_io (λ name, there ← is_dir (In r name); if there : bool then dir_payload_bytes (In r name) else mret 0%Z) names
  end.
Definition dir_file_bytes (p : Place) : IO Z :=
  r ← read_dir p;
  match r with Err _ => mret 0%Z | Ok names => sum_io (file_len p) names end.

Definition receipt_bytes : IO Z :=
  r ← read_dir InReceipts;
  match r with
  | Err _ => mret 0%Z
  | Ok names =>
    (fix go names := match names with
                     | [] => mret 0%Z
                     | name :: names =>
                       e ← next_entry;
                       match e with
                       | Err _ => go names
                       | Ok _ => n ← file_len InReceipts name; rest ← go names; mret (sat_add_u64 (Z.max n RECEIPT_METADATA_BYTES) rest)
                       end
                     end) names
  end.
Fixpoint period_bytes (dirs : list Place) : IO Z :=
  match dirs with
  | [] => mret 0%Z
  | p :: dirs =>
    all ← dir_file_bytes p; payload ← dir_payload_bytes p; rest ← period_bytes dirs;
    mret (sat_add_u64 (Z.max (sat_sub all payload) (PERIOD_METADATA_BYTES + TERMINAL_METADATA_BYTES)) rest)
  end.
Definition dirs_or_none (r : Root) : IO (list Place) :=
  l ← list_dirs r; mret (match l with Ok l => In r <$> l | Err _ => [] end).

Definition spool_bytes : IO Z :=
  opened ← root_payload_bytes OpenRoot;
  boxed ← root_payload_bytes OutboxRoot;
  let payload := sat_add_u64 (sat_mul_u64 opened 2) boxed in
  receipts ← receipt_bytes;
  open_dirs ← dirs_or_none OpenRoot;
  outbox_dirs ← dirs_or_none OutboxRoot;
  periods ← period_bytes (open_dirs ++ outbox_dirs);
  mret (sat_add_u64 (sat_add_u64 payload receipts) periods).

Definition store_with (f : CustodyStore → CustodyStore) : IO unit := putw (λ w, set_store (f (w_store w)) w).
Definition set_full (full : bool) : IO unit :=
  store_with (λ st, mkCustodyStore (cu_policy st) (cu_active st) (cu_failed st) full (cu_counter st)).
Definition set_active (a : option Active) : IO unit :=
  store_with (λ st, mkCustodyStore (cu_policy st) a (cu_failed st) (cu_full st) (cu_counter st)).
Definition policy : IO Policy := getw (λ w, cu_policy (w_store w)).
Definition active : IO (option Active) := getw (λ w, cu_active (w_store w)).
(** [self.active.as_mut().expect(..)]. *)
Definition on_active (f : Active → Active) : IO unit :=
  a ← active; match a with Some a => set_active (Some (f a)) | None => panic end.
Definition with_open (f : OpenPeriod → OpenPeriod) (a : Active) : Active :=
  mkActive (f (ac_open a)) (ac_receipts a) (ac_next_seq a) (ac_reserved a).
Definition with_receipt (key : BatchKey) (r : ReceiptFile) (a : Active) : Active :=
  mkActive (ac_open a) (<[key := r]> (ac_receipts a)) (ac_next_seq a) (ac_reserved a).
Definition with_reserved (f : gset string → gset string) (a : Active) : Active :=
  mkActive (ac_open a) (ac_receipts a) (ac_next_seq a) (f (ac_reserved a)).

Definition refresh_full : IO unit :=
  n ← spool_bytes; p ← policy;
  if (n <? spool_bytes_max p)%Z then set_full false else mret tt.

(** The token hashes clock readings, the process id and the counter; the
    world supplies it. *)
Definition next_token : IO string := λ w,
  let st := w_store w in
  (Some (default EmptyString (head (w_tokens w))),
   mkWorld (w_disk w)
     (mkCustodyStore (cu_policy st) (cu_active st) (cu_failed st) (cu_full st) (wrap_u64 (cu_counter st + 1)))
     (w_verdicts w) (tail (w_tokens w)) (w_minted w) (w_accepted w) (w_disposed w) (w_half w)).
Definition note_minted (id : string) : IO unit := putw (λ w,
  mkWorld (w_disk w) (w_store w) (w_verdicts w) (w_tokens w) (id :: w_minted w) (w_accepted w) (w_disposed w) (w_half w)).
Definition note_accepted (key : BatchKey) (id body : string) : IO unit := putw (λ w,
  mkWorld (w_disk w) (w_store w) (w_verdicts w) (w_tokens w) (w_minted w) ((key, (id, body)) :: w_accepted w) (w_disposed w) (w_half w)).
Definition note_disposed (id : string) : IO unit := putw (λ w,
  mkWorld (w_disk w) (w_store w) (w_verdicts w) (w_tokens w) (w_minted w) (w_accepted w) (id :: w_disposed w) (w_half w)).

Definition note_half (id : string) : IO unit := putw (λ w,
  mkWorld (w_disk w) (w_store w) (w_verdicts w) (w_tokens w) (w_minted w) (w_accepted w) (w_disposed w) (id :: w_half w)).

Definition new_open (now_ms : Z) (early : bool) : IO OpenPeriod :=
  p ← policy;
  let floor := (now_ms - now_ms mod period_ms p)%Z in
  let start_ms := if early then now_ms else floor in
  token ← next_token;
  let id := fmt_dec (start_ms / 1000) +:+ "-" +:+ String.substring 0 8 token in
  _ ← note_minted id;
  mret (mkOpenPeriod id start_ms (wrap_u64 (floor + period_ms p)) 0 ∅ false).

Definition write_receipt (key : BatchKey) (r : ReceiptFile) : IO (result unit io_error) :=
  write_json_atomic InReceipts (receipt_name key) (receipt_json r).

(** Copy the batches, in order, onto the end of the pages file. *)
Fixpoint copy_batches (from to : Place) (names : list string) (acc : string) : IO (result string io_error) :=
  match names with
  | [] => ok acc
  | name :: names =>
    bytes ←? read_file from name;
    _ ←? write_all to PAGES_FILE (acc +:+ bytes);
    copy_batches from to names (acc +:+ bytes)
  end.

Definition finalize_dir (period : OpenPeriod) (dir : string) (end_ms : Z) : IO (result Z io_error) :=
  let name := final_name (op_start_ms period) (op_id period) in
  there ← is_dir (In OutboxRoot name);
  if there : bool then
    _ ←? remove_payload_dir (In OpenRoot dir);
    ok 0%Z
  else
    files ←? batch_files (In OpenRoot dir);
    let staging := ".tmp-" +:+ name in
    let sp := In OutboxRoot staging in
    left ← is_dir sp;
    _ ←? (if left : bool then remove_payload_dir sp else ok tt);
    _ ←? create_period_dir OutboxRoot staging;
    _ ←? create_file sp PAGES_FILE;
    bytes ←? copy_batches (In OpenRoot dir) sp (merge_sort String.le (files.*1)) EmptyString;
    _ ←? sync_all;
    let size := Z.of_nat (String.length bytes) in
    if (size =? 0)%Z then
      _ ←? remove_payload_dir sp;
      _ ←? remove_payload_dir (In OpenRoot dir);
      ok 0%Z
    else
      let start_secs := (op_start_ms period / 1000)%Z in
      let len_secs := Z.max (sat_sub end_ms (op_start_ms period) / 1000) 1 in
      let '(day, segment) := namer start_secs len_secs in
      let metadata := mkOutboxPeriodFile (op_id period) day segment (op_start_ms period) len_secs size
                        (hex (sha256_digest bytes)) in
      _ ←? write_json_atomic sp PERIOD_FILE (outbox_period_json metadata);
      _ ←? rename_dir OutboxRoot staging name;
      _ ←? remove_payload_dir (In OpenRoot dir);
      ok size.

Definition terminal_in (receipts : Receipts) (key : BatchKey) : bool :=
  match receipts !! key with Some r => negb (bool_decide (rf_state r = RPending)) | None => false end.

Definition open_has_terminal_batch (id : string) : IO (result bool io_error) :=
  there ← is_dir (In OpenRoot id);
  if negb there then ok false
  else
    a ← active;
    match a with
    | None => ok false
    | Some a =>
      files ←? batch_files (In OpenRoot id);
      ok (existsb (λ f, terminal_in (ac_receipts a) f.2) files)
    end.
(** [.is_some_and(|id| self.open_has_terminal_batch(id).unwrap_or(true))]. *)
Definition blocked_by_terminal (id : option string) : IO bool :=
  match id with
  | None => mret false
  | Some id => r ← open_has_terminal_batch id; mret (match r with Ok b => b | Err _ => true end)
  end.
Definition open_id_with_dir (a : option Active) : option string :=
  match a with
  | Some a => if op_has_dir (ac_open a) then Some (op_id (ac_open a)) else None
  | None => None
  end.

Definition rotate (now_ms : Z) (early : bool) : IO (result unit io_error) :=
  a ← active;
  blocked ← blocked_by_terminal (open_id_with_dir a);
  if blocked : bool then mret (Err OtherError)
  else
    next ← new_open now_ms early;
    match a with
    | None => panic
    | Some a =>
      let old := ac_open a in
      _ ← set_active (Some (with_open (λ _, next) a));
      if op_has_dir old then
        size ←? finalize_dir old (op_id old) (Z.min (op_end_ms old) now_ms);
        _ ← on_active (with_open (λ o, mkOpenPeriod (op_id o) (op_start_ms o) (op_end_ms o) 0 ∅ (op_has_dir o)));
        _ ← (if (0 <? size)%Z then refresh_full else mret tt);
        ok tt
      else ok tt
    end.

Definition count_batch (len : Z) (a : Active) : Active :=
  let o := ac_open a in
  mkActive (mkOpenPeriod (op_id o) (op_start_ms o) (op_end_ms o) (wrap_u64 (op_bytes o + len)) (op_contexts o) (op_has_dir o))
    (ac_receipts a) (wrap_u64 (ac_next_seq a + 1)) (ac_reserved a).

Definition commit (key : BatchKey) (body : string) (receipt : ReceiptFile) : IO (result unit io_error) :=
  a ← active;
  match a with
  | None => panic
  | Some a =>
    let id := op_id (ac_open a) in
    let seq := ac_next_seq a in
    let p := In OpenRoot id in
    _ ←? (if op_has_dir (ac_open a) then ok tt
          else
            _ ←? create_period_dir OpenRoot id;
            _ ←? write_json_atomic p PERIOD_FILE
                   (open_period_json (mkOpenPeriodFile id (op_start_ms (ac_open a)) (op_end_ms (ac_open a))));
            _ ← on_active (with_open (λ o,
                  mkOpenPeriod (op_id o) (op_start_ms o) (op_end_ms o) (op_bytes o) (op_contexts o) true));
            ok tt);
    _ ←? write_bytes_atomic p (batch_name seq key) body;
    _ ← on_active (count_batch (Z.of_nat (String.length body)));
    _ ←? write_receipt key receipt;
    _ ← on_active (with_receipt key receipt);
    ok tt
  end.

Definition exhausted : BatchResult := Rejected "resource_exhausted".

(** The body: each record's canonical text and a newline. *)
Fixpoint batch_body (records : list JsonValue) : option string :=
  match records with
  | [] => Some EmptyString
  | r :: records =>
    line ← canonical_stringify r;
    rest ← batch_body records;
    Some (line +:+ String "010"%char rest)
  end.

Definition json_field (key : string) (v : JsonValue) : option string :=
  match v with JObject m => json_get key m ≫= as_str | _ => None end.

(** What [offer] does once the open period is settled. *)
Definition offer_into_open (key : BatchKey) (batch : BatchInput) (body : string) (now_ms : Z) : IO BatchResult :=
  p ← policy;
  a ← active;
  match a with
  | None => panic
  | Some a =>
    let body_bytes := Z.of_nat (String.length body) in
    let period_id := op_id (ac_open a) in
    let receipt := mkReceiptFile period_id now_ms RPending in
    match receipt_json receipt with
    | None => mret exhausted
    | Some json =>
      let receipt_cost := Z.max (Z.of_nat (String.length json)) RECEIPT_METADATA_BYTES in
      let period_cost := (if op_has_dir (ac_open a) then 0 else PERIOD_METADATA_BYTES + TERMINAL_METADATA_BYTES)%Z in
      used ← spool_bytes;
      if (spool_bytes_max p <? sat_add_u64 (sat_add_u64 (sat_add_u64 used (sat_mul_u64 body_bytes 2)) receipt_cost) period_cost)%Z
      then _ ← set_full true; mret (Rejected "queue_full")
      else
        _ ← refresh_full;
        let first := head (bi_records batch) in
        let is_delta := bool_decide (first ≫= json_field "t" = Some "delta") in
        let ctx := default EmptyString (first ≫= json_field "ctx") in
        a ← active;
        match a with
        | None => panic
        | Some a =>
          if is_delta && negb (bool_decide (ctx ∈ op_contexts (ac_open a))) then mret (Rejected "snapshot_required")
          else
            r ← commit key body receipt;
            match r with
            | Err _ => mret exhausted
            | Ok _ =>
              _ ← (if is_delta then mret tt
                   else on_active (with_open (λ o,
                          mkOpenPeriod (op_id o) (op_start_ms o) (op_end_ms o) (op_bytes o) ({[ctx]} ∪ op_contexts o) (op_has_dir o))));
              a ← active;
              match a with
              | None => panic
              | Some a => _ ← note_accepted key (op_id (ac_open a)) body; mret (Accepted (op_id (ac_open a)))
              end
            end
        end
    end
  end.

Definition offer (batch : BatchInput) (now_ms : Z) : IO BatchResult :=
  failed ← getw (λ w, cu_failed (w_store w));
  if failed : bool then mret exhausted
  else
    p ← policy;
    a ← active;
    let key := (inst_hash (bi_inst batch), bi_batch_id batch) in
    match a ≫= (λ a, ac_receipts a !! key) with
    | Some receipt => mret (Duplicate (rf_period_id receipt))
    | None =>
      blocked ← blocked_by_terminal (open_id_with_dir a);
      if blocked : bool then mret exhausted
      else if (sat_add_u64 now_ms (future_skew_ms p) <? bi_queued_at_ms batch)%Z then mret (Rejected "age_policy")
      else
        match batch_body (bi_records batch) with
        | None => mret (Rejected "malformed")
        | Some body =>
          let body_bytes := Z.of_nat (String.length body) in
          if (file_max p <? body_bytes)%Z then mret (Rejected "oversize")
          else
            let open_end := match a with Some a => op_end_ms (ac_open a) | None => 0%Z end in
            r ← (if (open_end <=? now_ms)%Z then rotate now_ms false else ok tt);
            match r with
            | Err _ => mret exhausted
            | Ok _ =>
              a ← active;
              let open_bytes := match a with Some a => op_bytes (ac_open a) | None => 0%Z end in
              r ← (if (0 <? open_bytes)%Z && (file_max p <? sat_add_u64 open_bytes body_bytes)%Z
                   then rotate now_ms true else ok tt);
              match r with
              | Err _ => mret exhausted
              | Ok _ => offer_into_open key batch body now_ms
              end
            end
        end
    end.

Definition custody_tick (now_ms : Z) : IO bool :=
  a ← active;
  match a with
  | None => mret false
  | Some a =>
    if (now_ms <? op_end_ms (ac_open a))%Z then mret false
    else _ ← rotate now_ms false; mret true
  end.

Definition finalize_now (now_ms : Z) : IO bool :=
  a ← active;
  match open_id_with_dir a with
  | Some _ => r ← rotate now_ms true; mret (is_ok r)
  | None => mret false
  end.

(** ** The outbox *)

Definition outbox_entry (name : string) : IO (option OutboxEntry) :=
  r ← read_json (In OutboxRoot name) PERIOD_FILE outbox_period_of;
  mret (match r with
        | Ok (Some meta) =>
          Some (mkOutboxEntry name (obf_period_id meta) (obf_day meta) (obf_segment meta) (obf_start_ms meta / 1000)
                  (obf_len_secs meta) (obf_size meta) (obf_sha256 meta))
        | _ => None
        end).
Fixpoint collect_io {A B} (f : A → IO (option B)) (l : list A) : IO (list B) :=
  match l with
  | [] => mret []
  | a :: l => b ← f a; rest ← collect_io f l; mret (match b with Some b => b :: rest | None => rest end)
  end.
Definition by_dir (a b : OutboxEntry) : Prop := String.le (oe_dir a) (oe_dir b).
#[local] Instance by_dir_dec a b : Decision (by_dir a b).
Proof. unfold by_dir. apply _. Defined.

Definition all_outbox : IO (list OutboxEntry) :=
  l ← list_dirs OutboxRoot;
  let dirs := match l with Ok l => l | Err _ => [] end in
  entries ← collect_io outbox_entry (filter (λ n, negb (is_staging n)) dirs);
  mret (merge_sort by_dir entries).
Definition outbox : IO (list OutboxEntry) :=
  entries ← all_outbox;
  filter_io (λ e, marked ← file_exists (In OutboxRoot (oe_dir e)) TERMINAL_FILE; mret (negb marked)) entries.

Definition reserve (entry : OutboxEntry) : IO bool :=
  marked ← file_exists (In OutboxRoot (oe_dir entry)) TERMINAL_FILE;
  if marked : bool then mret false
  else
    there ← is_dir (In OutboxRoot (oe_dir entry));
    if negb there then mret false
    else
      a ← active;
      match a with
      | None => mret false
      | Some a =>
        _ ← set_active (Some (with_reserved (λ s, {[oe_dir entry]} ∪ s) a));
        mret (negb (bool_decide (oe_dir entry ∈ ac_reserved a)))
      end.

Definition drop_reserved (dir : string) : IO unit :=
  a ← active;
  match a with Some a => set_active (Some (with_reserved (λ s, s ∖ {[dir]}) a)) | None => mret tt end.
Definition release (entry : OutboxEntry) : IO unit := _ ← drop_reserved (oe_dir entry); refresh_full.

Definition now_for_receipt (a : option Active) (period : string) : Z :=
  match a with
  | Some a => foldr Z.max 0%Z (omap (λ kr, if bool_decide (rf_period_id kr.2 = period) then Some (rf_at_ms kr.2) else None)
                                 (hash_list (ac_receipts a)))
  | None => 0%Z
  end.

Definition mark_one (target : ReceiptState) (at_ms : Z) (key : BatchKey) : IO (result unit io_error) :=
  a ← active;
  match a ≫= (λ a, ac_receipts a !! key) with
  | None => panic
  | Some r =>
    if bool_decide (rf_state r = RPending) then
      let r := mkReceiptFile (rf_period_id r) (Z.max at_ms (rf_at_ms r)) target in
      _ ←? write_receipt key r;
      _ ← on_active (with_receipt key r);
      ok tt
    else ok tt
  end.
Definition period_keys (a : option Active) (period : string) : list BatchKey :=
  match a with
  | Some a => omap (λ kr, if bool_decide (rf_period_id kr.2 = period) then Some kr.1 else None) (hash_list (ac_receipts a))
  | None => []
  end.
Definition mark_period (period : string) (target : ReceiptState) (at_ms : Z) : IO (result unit io_error) :=
  a ← active; each_io (mark_one target at_ms) (period_keys a period).

Definition write_outbox_terminal (dir : string) (target : ReceiptState) : IO (result ReceiptState io_error) :=
  marker ←? read_json (In OutboxRoot dir) TERMINAL_FILE terminal_of;
  match marker with
  | Some state => ok state
  | None => _ ←? write_json_atomic (In OutboxRoot dir) TERMINAL_FILE (terminal_json target); ok target
  end.

Definition delivered (entry : OutboxEntry) : IO (result unit io_error) :=
  _ ← note_disposed (oe_period_id entry);
  state ←? write_outbox_terminal (oe_dir entry) RDelivered;
  a ← active;
  _ ←? mark_period (oe_period_id entry) state (now_for_receipt a (oe_period_id entry));
  _ ←? remove_payload_dir (In OutboxRoot (oe_dir entry));
  _ ← drop_reserved (oe_dir entry);
  _ ← refresh_full;
  ok tt.

Definition waiting : IO bool :=
  a ← active;
  match a with
  | None => mret false
  | Some a =>
    n ← (if op_has_dir (ac_open a) then dir_payload_bytes (In OpenRoot (op_id (ac_open a))) else mret 0%Z);
    if op_has_dir (ac_open a) && (0 <? n)%Z then mret true
    else
      entries ← all_outbox;
      mret (existsb (λ e, negb (bool_decide (oe_dir e ∈ ac_reserved a))) entries)
  end.

(** The body of the loop over what is waiting: a period, its directory's name
    and whether it is the open one. *)
Definition item_place (dir : string) (is_open : bool) : Place := In (if is_open then OpenRoot else OutboxRoot) dir.
Definition discard_one (now_ms : Z) (item : string * string * bool) : IO unit :=
  let '(period, dir, is_open) := item in
  _ ← note_disposed period;
  state ← (if is_open : bool then ok RDiscarded else write_outbox_terminal dir RDiscarded);
  match state with
  | Err _ => mret tt
  | Ok state =>
    m ← mark_period period state now_ms;
    match m with
    | Err _ => mret tt
    | Ok _ =>
      r ← remove_payload_dir (item_place dir is_open);
      if is_ok r && is_open then
        a ← active;
        match a with
        | Some a => set_active (Some (with_open (λ o, mkOpenPeriod (op_id o) (op_start_ms o) (op_end_ms o) 0 ∅ false) a))
        | None => mret tt
        end
      else if is_open then note_half period else mret tt
    end
  end.
Fixpoint discard_each (now_ms : Z) (items : list (string * string * bool)) : IO unit :=
  match items with
  | [] => mret tt
  | item :: items => _ ← discard_one now_ms item; discard_each now_ms items
  end.

Definition discard_waiting (now_ms : Z) : IO Z :=
  a ← active;
  match a with
  | None => mret 0%Z
  | Some a =>
    entries ← all_outbox;
    let boxed := (λ e, (oe_period_id e, oe_dir e, false)) <$>
                   filter (λ e, oe_dir e ∉ ac_reserved a) entries in
    opened ← (if op_has_dir (ac_open a) then
                n ← dir_payload_bytes (In OpenRoot (op_id (ac_open a)));
                mret (if (0 <? n)%Z then [(op_id (ac_open a), op_id (ac_open a), true)] else [])
              else mret []);
    let snapshot := boxed ++ opened in
    _ ← discard_each now_ms snapshot;
    _ ← refresh_full;
    left ← filter_io (λ item, is_dir (item_place item.1.2 item.2)) snapshot;
    mret (Z.of_nat (length left))
  end.

Definition custody_status (now_ms : Z) : IO CustodyStatus :=
  st ← getw w_store;
  match cu_active st with
  | None => mret (mkCustodyStatus None 0 0 (cu_full st) false (cu_failed st) false)
  | Some a =>
    entries ← all_outbox;
    open_bytes ← (if op_has_dir (ac_open a) then dir_payload_bytes (In OpenRoot (op_id (ac_open a))) else mret 0%Z);
    let held := foldr (λ e n, wrap_u64 (oe_size e + n)) open_bytes entries in
    let starts := ((λ e, (oe_start_secs e * 1000)%Z) <$> entries) ++
                  (if (0 <? open_bytes)%Z then [op_start_ms (ac_open a)] else []) in
    let oldest := match starts with [] => None | s :: l => Some (foldr Z.min s l) end in
    w ← waiting;
    mret (mkCustodyStatus (Some (op_id (ac_open a))) held
            (Z.of_nat (length entries) + (if (0 <? open_bytes)%Z then 1 else 0)) (cu_full st)
            (match oldest with Some at_ms => (spool_age_ms (cu_policy st) <=? sat_sub now_ms at_ms)%Z | None => false end)
            (cu_failed st) w)
  end.

(** ** Opening the store *)

Definition remove_legacy (name : string) : IO (result unit io_error) :=
  there ← probe (λ d, bool_decide (name ∈ d_legacy d));
  if there : bool then
    call (λ d, (Ok tt, mkDisk (d_open d) (d_outbox d) (d_receipts d) (d_legacy d ∖ {[name]}))) (λ _ d, d)
  else ok tt.

Definition load_receipts : IO (result Receipts io_error) :=
  names ←? read_dir InReceipts;
  fold_io (λ m name,
    _ ←? next_entry;
    match parse_receipt_name name with
    | None => _ ← remove_file InReceipts name; ok m
    | Some None => ok m
    | Some (Some key) =>
      r ←? read_json InReceipts name receipt_of;
      ok (match r with Some r => <[key := r]> m | None => m end)
    end) ∅ names.

(** Receipts that are missing for batches still in the open directories. *)
Definition repair_one (now_ms : Z) (period : string) (m : Receipts) (key : BatchKey) : IO (result Receipts io_error) :=
  match m !! key with
  | Some _ => ok m
  | None =>
    let r := mkReceiptFile period now_ms RPending in
    _ ←? write_receipt key r;
    ok (<[key := r]> m)
  end.
Definition repair_dir (now_ms : Z) (m : Receipts) (dir : string) : IO (result Receipts io_error) :=
  meta ←? read_json (In OpenRoot dir) PERIOD_FILE open_period_of;
  match meta with
  | None => _ ←? remove_payload_dir (In OpenRoot dir); ok m
  | Some meta =>
    files ←? batch_files (In OpenRoot dir);
    match files with
    | [] => _ ←? remove_payload_dir (In OpenRoot dir); ok m
    | _ => fold_io (repair_one now_ms (opf_period_id meta)) m (files.*2)
    end
  end.

(** Outbox directories with a marker: finish their receipts, then remove. *)
Definition settle_one (state : ReceiptState) (m : Receipts) (kr : BatchKey * ReceiptFile) : IO (result Receipts io_error) :=
  let r := mkReceiptFile (rf_period_id kr.2) (rf_at_ms kr.2) state in
  _ ←? write_receipt kr.1 r;
  ok (<[kr.1 := r]> m).
Definition pending_of (period : string) (m : Receipts) : list (BatchKey * ReceiptFile) :=
  filter (λ kr, rf_period_id kr.2 = period ∧ rf_state kr.2 = RPending) (hash_list m).
Definition settle_dir (m : Receipts) (dir : string) : IO (result Receipts io_error) :=
  if is_staging dir then ok m
  else
    marker ←? read_json (In OutboxRoot dir) TERMINAL_FILE terminal_of;
    match marker with
    | None => ok m
    | Some state =>
      meta ←? read_json (In OutboxRoot dir) PERIOD_FILE outbox_period_of;
      match meta with
      | None => _ ←? remove_payload_dir (In OutboxRoot dir); ok m
      | Some meta =>
        m ←? fold_io (settle_one state) m (pending_of (obf_period_id meta) m);
        _ ←? remove_payload_dir (In OutboxRoot dir);
        ok m
      end
    end.

(** Open files whose batch is already settled. *)
Definition clean_dir (m : Receipts) (dir : string) : IO (result unit io_error) :=
  there ← is_dir (In OpenRoot dir);
  if negb there then ok tt
  else
    files ←? batch_files (In OpenRoot dir);
    _ ←? each_io (λ f, if terminal_in m f.2 then remove_file (In OpenRoot dir) f.1 else ok tt) files;
    files ←? batch_files (In OpenRoot dir);
    match files with [] => remove_payload_dir (In OpenRoot dir) | _ => ok tt end.

(** Open periods of the previous process. *)
Definition finish_dir (now_ms : Z) (dir : string) : IO (result unit io_error) :=
  there ← is_dir (In OpenRoot dir);
  if negb there then ok tt
  else
    meta ←? read_json (In OpenRoot dir) PERIOD_FILE open_period_of;
    match meta with
    | None => ok tt
    | Some meta =>
      files ←? batch_files (In OpenRoot dir);
      match files with
      | [] => ok tt
      | _ =>
        n ← dir_payload_bytes (In OpenRoot dir);
        _ ←? finalize_dir (mkOpenPeriod (opf_period_id meta) (opf_start_ms meta) (opf_end_ms meta) n ∅ true)
               dir (Z.min (opf_end_ms meta) now_ms);
        ok tt
      end
    end.

Definition drop_staging (dir : string) : IO (result unit io_error) :=
  if is_staging dir then remove_payload_dir (In OutboxRoot dir) else ok tt.

Definition load (now_ms : Z) : IO (result unit io_error) :=
  _ ←? each_io remove_legacy ["gen"; "retired"; "active.json"];
  _ ←? create_root OpenRoot;
  _ ←? create_receipts;
  _ ←? create_root OutboxRoot;
  open ← new_open now_ms false;
  receipts ←? load_receipts;
  names ←? read_root OpenRoot;
  dirs ← filter_io (λ name, is_dir (In OpenRoot name)) names;
  let open_dirs := merge_sort String.le dirs in
  receipts ←? fold_io (repair_dir now_ms) receipts open_dirs;
  outbox_dirs ←? list_dirs OutboxRoot;
  receipts ←? fold_io settle_dir receipts outbox_dirs;
  _ ←? each_io (clean_dir receipts) open_dirs;
  _ ←? each_io (finish_dir now_ms) open_dirs;
  outbox_dirs ←? list_dirs OutboxRoot;
  _ ←? each_io drop_staging outbox_dirs;
  _ ← set_active (Some (mkActive open receipts 0 ∅));
  _ ← refresh_full;
  ok tt.

(** [Store::open]: a failed load leaves a store that refuses everything. *)
Definition open_store (pol : Policy) (now_ms : Z) : IO unit :=
  _ ← store_with (λ _, mkCustodyStore pol None false false 0);
  r ← load now_ms;
  match r with
  | Ok _ => mret tt
  | Err _ => store_with (λ st, mkCustodyStore (cu_policy st) None true (cu_full st) (cu_counter st))
  end.
End custody.
