(* ===== verification/CustodyLogic.v ===== *)
(** * A crash logic for the custody store

    [spec P m Q]: run from a state that satisfies [P], the computation [m]
    either returns [a] in a state that satisfies [Q a], or the process stops
    on a disk that satisfies [disk_ok], whatever the verdicts on its calls.
    Assertions are over the [Core] of the world: the disk, the store's memory
    and the ghost logs. Everything is relative to the period ids minted so far
    being distinct. *)
From Stdlib Require Import Ascii String.
From stdpp Require Import sorting.
From S2P Require Import Prelude RustStr PauseStore Ingest Admission Custody.

Local Open Scope list_scope.

Record Core : Type := mkCore {
  c_disk : Disk;
  c_store : CustodyStore;
  c_minted : list string;
  c_accepted : list (BatchKey * (string * string));
  c_disposed : list string;
  c_half : list string
}.
Definition core (w : World) : Core :=
  mkCore (w_disk w) (w_store w) (w_minted w) (w_accepted w) (w_disposed w) (w_half w).
Definition with_disk (d : Disk) (c : Core) : Core :=
  mkCore d (c_store c) (c_minted c) (c_accepted c) (c_disposed c) (c_half c).

Ltac simpl_core := cbn [c_disk c_store c_minted c_accepted c_disposed c_half with_disk fst snd] in *.

Lemma core_set_disk d w : core (set_disk d w) = with_disk d (core w).
Proof. done. Qed.
Lemma with_disk_same c : with_disk (c_disk c) c = c.
Proof. by destruct c. Qed.

(** ** Names *)

(** Keys the store can have made: the instance's hash is hexadecimal. *)
Definition proper (key : BatchKey) : Prop := lacks "-"%char key.1 = true.

Definition is_partial (name : string) : bool := ends_with name ".partial".

Lemma partial_with_extension name : is_partial (with_extension name "partial") = true.
Proof. apply ends_with_spec. by exists (default name (file_stem name)). Qed.

Lemma not_partial_json a : is_partial (a +:+ ".json") = false.
Proof.
  apply not_true_iff_false. intros [l Hl]%ends_with_spec.
  apply (f_equal rev_string) in Hl. rewrite !rev_string_app in Hl. discriminate Hl.
Qed.
Lemma not_partial_jsonl a : is_partial (a +:+ ".jsonl") = false.
Proof.
  apply not_true_iff_false. intros [l Hl]%ends_with_spec.
  apply (f_equal rev_string) in Hl. rewrite !rev_string_app in Hl. discriminate Hl.
Qed.

Lemma length_string_app a b : String.length (a +:+ b) = (String.length a + String.length b)%nat.
Proof. induction a as [|c a IH]; cbn; [done|]. by rewrite IH. Qed.
Lemma substring_app a b : String.substring 0 (String.length a) (a +:+ b) = a.
Proof.
  induction a as [|c a IH]; cbn; [by destruct b|]. by rewrite IH.
Qed.
Lemma strip_suffix_app suffix stem : strip_suffix suffix (stem +:+ suffix) = Some stem.
Proof.
  unfold strip_suffix. assert (ends_with (stem +:+ suffix) suffix = true) as -> by (apply ends_with_spec; by eauto).
  rewrite length_string_app. replace (_ + _ - _)%nat with (String.length stem) by lia. by rewrite substring_app.
Qed.
Lemma strip_suffix_inv suffix s stem : strip_suffix suffix s = Some stem → s = stem +:+ suffix.
Proof.
  unfold strip_suffix. destruct (ends_with s suffix) eqn:He; [|done]. apply ends_with_spec in He as [l ->].
  rewrite length_string_app. replace (_ + _ - _)%nat with (String.length l) by lia. rewrite substring_app.
  by intros [= ->].
Qed.

Lemma split_once_dash a b : lacks "-"%char a = true → split_once "-" (a +:+ "-" +:+ b) = Some (a, b).
Proof. intros Ha. apply (split_once_app "-"%char EmptyString a b); [done|by apply lacks_contains]. Qed.
Lemma split_once_dash_inv s a b : split_once "-" s = Some (a, b) → s = a +:+ "-" +:+ b ∧ lacks "-"%char a = true.
Proof.
  revert a. induction s as [|c s IH]; intros a; [done|]. cbn [split_once strip_prefix].
  destruct (Ascii.eqb_spec "-" c) as [<-|Hc].
  - by intros [= <- <-].
  - destruct (split_once "-" s) as [[l r]|]; [|done]. intros [= <- ->].
    destruct (IH l eq_refl) as [-> Hl]. split; [done|]. unfold lacks in *. cbn [all_bytes]. rewrite Hl, andb_true_r.
    destruct (Ascii.eqb_spec c "-") as [->|]; done.
Qed.

Lemma digits_lack_dash s : all_bytes is_ascii_digit s = true → lacks "-"%char s = true.
Proof.
  unfold lacks. induction s as [|c s IH]; cbn [all_bytes]; [done|].
  intros [Hc Hs]%andb_true_iff. rewrite (IH Hs), andb_true_r.
  destruct (Ascii.eqb_spec c "-") as [->|]; done.
Qed.
Lemma fmt_dec_pad_digits k n : (0 ≤ n)%Z → all_bytes is_ascii_digit (fmt_dec_pad k n) = true.
Proof.
  intros Hn. unfold fmt_dec_pad. pose proof (fmt_dec_digits n Hn) as Hd.
  generalize (k - String.length (fmt_dec n))%nat as j. induction j as [|j IH]; cbn [str_repeat]; [done|].
  cbn [all_bytes]. by rewrite IH.
Qed.
Lemma lacks_fmt_dec_pad k n : (0 ≤ n)%Z → lacks "-"%char (fmt_dec_pad k n) = true.
Proof. intros Hn. by apply digits_lack_dash, fmt_dec_pad_digits. Qed.

Lemma parse_receipt_name_of key : proper key → parse_receipt_name (receipt_name key) = Some (Some key).
Proof.
  destruct key as [ih batch]. unfold proper, receipt_name, parse_receipt_name. cbn [fst snd]. intros Hp.
  rewrite <- !str_app_assoc, strip_suffix_app, str_app_assoc. by rewrite split_once_dash.
Qed.
Lemma parse_receipt_name_inv name key : parse_receipt_name name = Some (Some key) → name = receipt_name key ∧ proper key.
Proof.
  unfold parse_receipt_name. destruct (strip_suffix ".json" name) as [stem|] eqn:Hs; [|done].
  intros [= Hk]. apply strip_suffix_inv in Hs as ->. destruct key as [ih batch].
  apply split_once_dash_inv in Hk as [-> Hp]. split; [|done]. unfold receipt_name. cbn [fst snd].
  by rewrite !str_app_assoc.
Qed.
Lemma receipt_name_inj k k' : proper k → proper k' → receipt_name k = receipt_name k' → k = k'.
Proof.
  intros Hk Hk' He. pose proof (parse_receipt_name_of k Hk) as Hp. rewrite He, parse_receipt_name_of in Hp by done.
  by injection Hp.
Qed.
Lemma not_partial_receipt key : is_partial (receipt_name key) = false.
Proof. unfold receipt_name. rewrite <- !str_app_assoc. apply not_partial_json. Qed.

Lemma parse_batch_name_of seq key : (0 ≤ seq)%Z → proper key → parse_batch_name (batch_name seq key) = Some key.
Proof.
  destruct key as [ih batch]. unfold proper, batch_name, parse_batch_name. cbn [fst snd]. intros Hs Hp.
  rewrite <- !str_app_assoc, strip_suffix_app, !str_app_assoc. cbn [mbind option_bind].
  rewrite split_once_dash by by apply lacks_fmt_dec_pad. cbn [fmap option_fmap option_map snd mbind option_bind].
  by rewrite split_once_dash.
Qed.
Lemma parse_batch_name_inv name key : parse_batch_name name = Some key → is_partial name = false ∧ proper key.
Proof.
  unfold parse_batch_name. destruct (strip_suffix ".jsonl" name) as [stem|] eqn:Hs; cbn [mbind option_bind]; [|done].
  apply strip_suffix_inv in Hs as ->.
  destruct (split_once "-" stem) as [[a r]|]; cbn [fmap option_fmap option_map snd mbind option_bind]; [|done].
  destruct key as [ih batch]. intros [_ Hp]%split_once_dash_inv. split; [apply not_partial_jsonl|done].
Qed.

Lemma final_name_inj s s' id id' :
  (0 ≤ s)%Z → (0 ≤ s')%Z → final_name s id = final_name s' id' → id = id'.
Proof.
  intros Hs Hs' He. unfold final_name in He. apply (f_equal (split_once "-")) in He.
  rewrite !split_once_dash in He by by apply lacks_fmt_dec_pad. by injection He.
Qed.
Lemma final_name_not_staging s id : (0 ≤ s)%Z → is_staging (final_name s id) = false.
Proof.
  intros Hs. unfold is_staging, final_name.
  pose proof (fmt_dec_pad_digits 15 s Hs) as Hd.
  destruct (fmt_dec_pad 15 s) as [|c r]; [done|]. cbn [all_bytes] in Hd. apply andb_true_iff in Hd as [Hc _].
  cbn [String.app starts_with]. destruct (Ascii.eqb_spec "." c) as [<-|]; [done|].
  by destruct (ascii_dec "." c).
Qed.
Lemma staging_is_staging s : is_staging (".tmp-" +:+ s) = true.
Proof. by destruct s. Qed.

(** ** Lookups *)

Lemma files_at_put p f d p' :
  is_Some (files_at p d) → files_at p' (put_files p f d) = if decide (p = p') then f else files_at p' d.
Proof.
  intros Hs. destruct p as [r dir|], p' as [r' dir'|]; try by repeat case_decide.
  - unfold files_at in Hs; cbn in Hs.
    destruct r, r'; unfold files_at, put_files; cbn in Hs |- *;
      try (by rewrite decide_False by congruence).
    + destruct (d_open d) as [m|]; cbn in *; [|by destruct Hs].
      destruct (decide (dir = dir')) as [->|Hn].
      * by rewrite lookup_partial_alter_eq, decide_True.
      * rewrite lookup_partial_alter_ne by done. by rewrite decide_False by congruence.
    + destruct (d_outbox d) as [m|]; cbn in *; [|by destruct Hs].
      destruct (decide (dir = dir')) as [->|Hn].
      * by rewrite lookup_partial_alter_eq, decide_True.
      * rewrite lookup_partial_alter_ne by done. by rewrite decide_False by congruence.
  - by destruct r.
Qed.

Lemma change_file_absent p name c d : files_at p d = None → change_file p name c d = d.
Proof. intros Hn. unfold change_file. by rewrite Hn. Qed.

Lemma files_at_change p name c d p' :
  files_at p' (change_file p name c d) =
  if decide (p = p') then partial_alter (λ _, c) name <$> files_at p d else files_at p' d.
Proof.
  unfold change_file. destruct (files_at p d) as [f|] eqn:Hf.
  - rewrite files_at_put by eauto. by case_decide.
  - case_decide; subst; by rewrite ?Hf.
Qed.

Lemma is_Some_change p name c d p' :
  is_Some (files_at p' (change_file p name c d)) ↔ is_Some (files_at p' d).
Proof. rewrite files_at_change. case_decide as Hd; [subst; by rewrite fmap_is_Some|done]. Qed.

Lemma file_at_change p name c d p' name' :
  file_at p' name' (change_file p name c d) =
  if decide (p = p' ∧ name = name' ∧ is_Some (files_at p d)) then c else file_at p' name' d.
Proof.
  unfold file_at. rewrite files_at_change. case_decide as Hp; [subst p'|by rewrite decide_False by naive_solver].
  destruct (files_at p d) as [f|] eqn:Hf; cbn.
  - destruct (decide (name = name')) as [->|Hn].
    + rewrite lookup_partial_alter_eq. by rewrite decide_True by eauto.
    + rewrite lookup_partial_alter_ne by done. by rewrite decide_False by naive_solver.
  - rewrite decide_False; [done|]. intros (_ & _ & [? ?]). done.
Qed.

Lemma file_at_put p f d p' name :
  is_Some (files_at p d) →
  file_at p' name (put_files p f d) = if decide (p = p') then f ≫= (.!! name) else file_at p' name d.
Proof. intros Hs. unfold file_at. rewrite files_at_put by done. by case_decide. Qed.

Lemma file_at_dir p name d c : file_at p name d = Some c → is_Some (files_at p d).
Proof. unfold file_at. destruct (files_at p d); [by eauto|done]. Qed.

Lemma file_at_keep keep p d p' name c :
  file_at p' name (keep_files keep p d) = Some c → file_at p' name d = Some c.
Proof.
  unfold keep_files. destruct (files_at p d) as [f|] eqn:Hf; [|done].
  rewrite file_at_put by eauto. case_decide as Hp; [subst p'|done]. cbn.
  unfold file_at. rewrite Hf. cbn. by intros [? _]%map_lookup_filter_Some.
Qed.
Lemma file_at_keep_ne keep p d p' name : p ≠ p' → file_at p' name (keep_files keep p d) = file_at p' name d.
Proof.
  intros Hn. unfold keep_files. destruct (files_at p d) as [f|] eqn:Hf; [|done].
  rewrite file_at_put by eauto. by rewrite decide_False.
Qed.
Lemma is_Some_keep keep p d p' : is_Some (files_at p' (keep_files keep p d)) ↔ is_Some (files_at p' d).
Proof.
  unfold keep_files. destruct (files_at p d) as [f|] eqn:Hf; [|done].
  rewrite files_at_put by eauto. case_decide; [subst; rewrite Hf|done]. split; by eauto.
Qed.

(** ** What a disk promises *)

Section logic.
Context `{CustodyLib} `{DirOrder} `{HashOrder}.

Definition receipt_at (d : Disk) (key : BatchKey) : option ReceiptFile :=
  file_at InReceipts (receipt_name key) d ≫= receipt_of.
Definition pending (d : Disk) (key : BatchKey) : Prop :=
  ∃ r, receipt_at d key = Some r ∧ rf_state r = RPending.

(** The batch's text is in an open period that a restart will finish... *)
Definition in_open (d : Disk) (key : BatchKey) (id body : string) : Prop :=
  is_Some (file_at (In OpenRoot id) PERIOD_FILE d) ∧
  ∃ name, file_at (In OpenRoot id) name d = Some body ∧ parse_batch_name name = Some key.
(** ...or in the pages of a finished one, whose manifest matches them. *)
Definition boxed (d : Disk) (id body : string) : Prop :=
  ∃ start pages json meta, (0 ≤ start)%Z ∧
    file_at (In OutboxRoot (final_name start id)) PAGES_FILE d = Some pages ∧
    (∃ before after, pages = before +:+ body +:+ after) ∧
    file_at (In OutboxRoot (final_name start id)) PERIOD_FILE d = Some json ∧
    outbox_period_of json = Some meta ∧ obf_period_id meta = id ∧
    obf_sha256 meta = hex (sha256_digest pages) ∧ obf_size meta = Z.of_nat (String.length pages).
Definition kept (d : Disk) (key : BatchKey) (id body : string) : Prop :=
  body = EmptyString ∨ in_open d key id body ∨ boxed d id body.

Record disk_ok (c : Core) : Prop := {
  ok_accepted : ∀ key id body, (key, (id, body)) ∈ c_accepted c →
    proper key ∧ id ∈ c_minted c ∧
    ∃ r, receipt_at (c_disk c) key = Some r ∧ rf_period_id r = id ∧
         (rf_state r = RPending → id ∈ c_half c ∨ kept (c_disk c) key id body);
  ok_once : NoDup (c_accepted c).*1;
  ok_finished : ∀ start id, (0 ≤ start)%Z → is_Some (files_at (In OutboxRoot (final_name start id)) (c_disk c)) →
    id ∈ c_minted c ∧
    ∀ key body, (key, (id, body)) ∈ c_accepted c → pending (c_disk c) key →
    id ∈ c_half c ∨ body = EmptyString ∨ boxed (c_disk c) id body;
  ok_open_meta : ∀ dir json, file_at (In OpenRoot dir) PERIOD_FILE (c_disk c) = Some json →
    ∃ meta, open_period_of json = Some meta ∧ opf_period_id meta = dir ∧ (0 ≤ opf_start_ms meta)%Z;
  ok_outbox_meta : ∀ dir json meta, is_staging dir = false →
    file_at (In OutboxRoot dir) PERIOD_FILE (c_disk c) = Some json → outbox_period_of json = Some meta →
    (0 ≤ obf_start_ms meta)%Z ∧ dir = final_name (obf_start_ms meta) (obf_period_id meta);
  ok_marker : ∀ dir json state, is_staging dir = false →
    file_at (In OutboxRoot dir) TERMINAL_FILE (c_disk c) = Some json → terminal_of json = Some state →
    state ≠ RPending ∧ ∀ start id, (0 ≤ start)%Z → dir = final_name start id → id ∈ c_disposed c;
  ok_settled : ∀ key r, receipt_at (c_disk c) key = Some r → rf_state r ≠ RPending → rf_period_id r ∈ c_disposed c;
  ok_open_minted : ∀ dir, is_Some (files_at (In OpenRoot dir) (c_disk c)) → dir ∈ c_minted c;
  ok_staging : ∀ dir, is_staging dir = true → file_at (In OutboxRoot dir) TERMINAL_FILE (c_disk c) = None
}.

(** ** What the memory promises *)

Record open_ok (c : Core) (o : OpenPeriod) : Prop := {
  oo_minted : op_id o ∈ c_minted c;
  oo_start : (0 ≤ op_start_ms o)%Z;
  oo_unfinished : ∀ start, (0 ≤ start)%Z → files_at (In OutboxRoot (final_name start (op_id o))) (c_disk c) = None;
  oo_dir : op_has_dir o = true →
    op_id o ∈ c_half c ∨ is_Some (file_at (In OpenRoot (op_id o)) PERIOD_FILE (c_disk c))
}.
Record receipts_ok (c : Core) (m : Receipts) : Prop := {
  ro_proper : ∀ key r, m !! key = Some r → proper key;
  ro_disk : ∀ key, proper key → m !! key = receipt_at (c_disk c) key
}.
Definition mem_ok (c : Core) : Prop := ∀ a, cu_active (c_store c) = Some a →
  open_ok c (ac_open a) ∧ receipts_ok c (ac_receipts a) ∧ (0 ≤ ac_next_seq a)%Z.
Definition Inv (c : Core) : Prop := disk_ok c ∧ mem_ok c.

(** ** Specifications *)

Definition spec {A} (P : Core → Prop) (m : IO A) (Q : A → Core → Prop) : Prop := ∀ w,
  (NoDup (w_minted w) → P (core w)) →
  NoDup (w_minted (m w).2) →
  match (m w).1 with Some a => Q a (core (m w).2) | None => disk_ok (core (m w).2) end.

Lemma spec_weaken {A} (P P' : Core → Prop) (m : IO A) (Q Q' : A → Core → Prop) :
  (∀ c, P' c → P c) → (∀ a c, Q a c → Q' a c) → spec P m Q → spec P' m Q'.
Proof.
  intros HP HQ Hm w Hw Hd. specialize (Hm w ltac:(eauto) Hd). destruct (m w).1; eauto.
Qed.

Lemma spec_pre {A} (P P' : Core → Prop) (m : IO A) (Q : A → Core → Prop) :
  (∀ c, P' c → P c) → spec P m Q → spec P' m Q.
Proof. intros HP. by apply spec_weaken. Qed.
Lemma spec_post {A} (P : Core → Prop) (m : IO A) (Q Q' : A → Core → Prop) :
  (∀ a c, Q a c → Q' a c) → spec P m Q → spec P m Q'.
Proof. intros HQ. by apply spec_weaken. Qed.

Lemma spec_ret {A} (a : A) (P : Core → Prop) (Q : A → Core → Prop) : (∀ c, P c → Q a c) → spec P (mret a) Q.
Proof. intros Hq w Hw Hd. cbn in *. eauto. Qed.

Lemma spec_bind {A B} P (R : A → Core → Prop) Q (m : IO A) (k : A → IO B) :
  spec P m R → (∀ a, spec (R a) (k a) Q) → spec P (m ≫= k) Q.
Proof.
  intros Hm Hk w Hw. specialize (Hm w Hw). unfold mbind, io_bind.
  destruct (m w) as [[a|] w1] eqn:Hmw; cbn in *; [|done].
  intros Hd. apply (Hk a w1); [|done]. intros Hd1. apply Hm. done.
Qed.

Lemma spec_try {A B} P (R : A → Core → Prop) Q (m : IO (result A io_error)) (k : A → IO (result B io_error)) :
  spec P m (λ r c, match r with Ok a => R a c | Err e => Q (Err e) c end) →
  (∀ a, spec (R a) (k a) Q) → spec P (try m k) Q.
Proof. intros Hm Hk. eapply spec_bind; [exact Hm|]. intros [a|e]; cbn; [apply Hk|by apply spec_ret]. Qed.

(** A computation that changes nothing but the supply of verdicts. *)
Definition quiet {A} (m : IO A) : Prop := ∀ w, core (m w).2 = core w.

Lemma core_minted w w' : core w = core w' → w_minted w = w_minted w'.
Proof. by intros [=]. Qed.

Lemma spec_quiet {A} (P : Core → Prop) (m : IO A) :
  quiet m → (∀ c, P c → disk_ok c) → spec P m (λ _, P).
Proof.
  intros Hq HP w Hw Hd. specialize (Hq w). rewrite (core_minted _ _ Hq) in Hd.
  rewrite Hq. destruct (m w).1; eauto.
Qed.

Lemma quiet_io_ret {A} (a : A) : quiet (mret a).
Proof. done. Qed.
Lemma quiet_panic {A} : quiet (@panic A).
Proof. done. Qed.
Lemma quiet_getw {A} (f : World → A) : quiet (getw f).
Proof. done. Qed.
Lemma quiet_io_bind {A B} (m : IO A) (k : A → IO B) : quiet m → (∀ a, quiet (k a)) → quiet (m ≫= k).
Proof.
  intros Hm Hk w. unfold mbind, io_bind. specialize (Hm w). destruct (m w) as [[a|] w1]; cbn in *; [|done].
  by rewrite Hk.
Qed.
Lemma quiet_try {A B} (m : IO (result A io_error)) (k : A → IO (result B io_error)) :
  quiet m → (∀ a, quiet (k a)) → quiet (try m k).
Proof. intros Hm Hk. apply quiet_io_bind; [done|]. intros [a|e]; [apply Hk|done]. Qed.
Lemma quiet_look {A} (f : Disk → result A io_error) : quiet (look f).
Proof.
  intros w. unfold look, call, mbind, io_bind, next_verdict. cbn.
  destruct (default Good (head (w_verdicts w))); done.
Qed.
Lemma quiet_fold {A B} (f : B → A → IO (result B io_error)) b l : (∀ b a, quiet (f b a)) → quiet (fold_io f b l).
Proof. intros Hf. revert b. induction l as [|a l IH]; intros b; [done|]. by apply quiet_try. Qed.

Lemma spec_look {A} (P : Core → Prop) (f : Disk → result A io_error) (Q : result A io_error → Core → Prop) :
  (∀ c, P c → disk_ok c) → (∀ c, P c → Q (f (c_disk c)) c) → (∀ c, P c → Q (Err OtherError) c) →
  spec P (look f) Q.
Proof.
  intros HP Hf He w Hw Hd. pose proof (quiet_look f w) as Hq. rewrite (core_minted _ _ Hq) in Hd. rewrite Hq.
  specialize (Hw Hd). clear Hq. unfold look, call, mbind, io_bind, next_verdict. cbn.
  destruct (default Good (head (w_verdicts w))); cbn; eauto. by apply Hf in Hw.
Qed.

(** A call that changes the disk. *)
Lemma spec_call {A} (P : Core → Prop) (Q : result A io_error → Core → Prop) whole torn :
  (∀ c, P c → Q (whole (c_disk c)).1 (with_disk (whole (c_disk c)).2 c)) →
  (∀ c, P c → disk_ok c ∧ Q (Err OtherError) c) →
  (∀ c keep, P c → disk_ok (with_disk (torn keep (c_disk c)) c) ∧ Q (Err OtherError) (with_disk (torn keep (c_disk c)) c)) →
  spec P (call whole torn) Q.
Proof.
  intros Hw Hb Ht w HP Hd. unfold call, mbind, io_bind, next_verdict in *. cbn in *.
  destruct (default Good (head (w_verdicts w))) as [| |keep| |keep]; cbn in *.
  - destruct (whole (w_disk w)) as [r d] eqn:He. cbn in *. rewrite core_set_disk. cbn.
    specialize (Hw _ (HP Hd)). cbn in Hw. by rewrite He in Hw.
  - apply (Hb _ (HP Hd)).
  - rewrite core_set_disk. apply (Ht _ keep (HP Hd)).
  - apply (Hb _ (HP Hd)).
  - rewrite core_set_disk. apply (Ht _ keep (HP Hd)).
Qed.

Lemma spec_fold {A B} (I : list A → B → Core → Prop) (f : B → A → IO (result B io_error)) Q b l :
  (∀ done b a rest, l = done ++ a :: rest → spec (I done b) (f b a) (λ r c, match r with Ok b' => I (done ++ [a]) b' c | Err e => Q (Err e) c end)) →
  (∀ b c, I l b c → Q (Ok b) c) →
  spec (I [] b) (fold_io f b l) Q.
Proof.
  intros Hf Hend.
  assert (Hgen : ∀ rest done b, l = done ++ rest → spec (I done b) (fold_io f b rest) Q).
  { induction rest as [|a rest IH]; intros done b' Hl; cbn.
    - rewrite app_nil_r in Hl. subst done. apply spec_ret. apply Hend.
    - eapply spec_try; [by apply (Hf done b' a rest)|]. cbn. intros b''. apply IH. by rewrite Hl, <- app_assoc. }
  by apply Hgen.
Qed.


(** ** Facts that do not depend on the state *)

(** Minted ids are never forgotten, and nothing is accepted. *)
Definition calm {A} (m : IO A) : Prop := ∀ w,
  (NoDup (w_minted (m w).2) → NoDup (w_minted w)) ∧ w_accepted (m w).2 = w_accepted w.

Lemma calm_quiet {A} (m : IO A) : quiet m → calm m.
Proof. intros Hq w. specialize (Hq w). by injection Hq as _ _ -> -> _ _. Qed.
Lemma calm_bind {A B} (m : IO A) (k : A → IO B) : calm m → (∀ a, calm (k a)) → calm (m ≫= k).
Proof.
  intros Hm Hk w. unfold mbind, io_bind. destruct (Hm w) as [Hn Ha]. destruct (m w) as [[a|] w1]; cbn in *; [|done].
  destruct (Hk a w1) as [Hn' Ha']. split; [by intros Hd; apply Hn, Hn'|congruence].
Qed.
Lemma calm_try {A B} (m : IO (result A io_error)) (k : A → IO (result B io_error)) :
  calm m → (∀ a, calm (k a)) → calm (try m k).
Proof. intros Hm Hk. apply calm_bind; [done|]. intros [a|e]; [apply Hk|by intros w]. Qed.
Lemma calm_call {A} (whole : Disk → result A io_error * Disk) torn : calm (call whole torn).
Proof.
  intros w. unfold call, mbind, io_bind, next_verdict. cbn.
  destruct (default Good (head (w_verdicts w))); cbn; try done. by destruct (whole (w_disk w)).
Qed.
Lemma calm_fold {A B} (f : B → A → IO (result B io_error)) b l : (∀ b a, calm (f b a)) → calm (fold_io f b l).
Proof. intros Hf. revert b. induction l as [|a l IH]; intros b; [by intros w|]. by apply calm_try. Qed.

Lemma spec_pure {A} (φ : Prop) (P : Core → Prop) (m : IO A) Q :
  calm m → (φ → spec P m Q) → spec (λ c, φ ∧ P c) m (λ a c, φ ∧ Q a c).
Proof.
  intros Hcalm Hm w Hw Hd. specialize (Hw (proj1 (Hcalm w) Hd)) as [Hφ Hp]. specialize (Hm Hφ w ltac:(done) Hd).
  destruct (m w).1; [by split|done].
Qed.
Lemma spec_accepted {A} (F : list (BatchKey * (string * string)) → Prop) (P : Core → Prop) (m : IO A) Q :
  calm m → spec P m Q → spec (λ c, P c ∧ F (c_accepted c)) m (λ a c, Q a c ∧ F (c_accepted c)).
Proof.
  intros Hcalm Hm w Hw Hd. destruct (Hcalm w) as [Hn Ha]. specialize (Hw (Hn Hd)) as [Hp Hf].
  specialize (Hm w ltac:(done) Hd). destruct (m w).1; [|done]. split; [done|]. cbn in *. by rewrite Ha.
Qed.

(** ** Views

    Temporary files and staging directories are not part of what a disk
    promises. [agree] hides the former, [same_view] both. *)

Record agree (d d' : Disk) : Prop := {
  ag_file : ∀ p name, is_partial name = false → file_at p name d' = file_at p name d;
  ag_dir : ∀ p, is_Some (files_at p d') ↔ is_Some (files_at p d)
}.
Record same_view (d d' : Disk) : Prop := {
  sv_file : ∀ p name, is_partial name = false → (∀ dir, p = In OutboxRoot dir → is_staging dir = false) →
    file_at p name d' = file_at p name d;
  sv_dir : ∀ p, (∀ dir, p = In OutboxRoot dir → is_staging dir = false) →
    is_Some (files_at p d') ↔ is_Some (files_at p d);
  sv_staging : ∀ dir, is_staging dir = true → file_at (In OutboxRoot dir) TERMINAL_FILE d = None →
    file_at (In OutboxRoot dir) TERMINAL_FILE d' = None
}.

#[global] Instance agree_preorder : PreOrder agree.
Proof.
  split; [by split|]. intros d1 d2 d3 [Hf1 Hd1] [Hf2 Hd2]. split.
  - intros p name Hn. by rewrite Hf2, Hf1.
  - intros p. by rewrite Hd2, Hd1.
Qed.
#[global] Instance same_view_preorder : PreOrder same_view.
Proof.
  split; [by split|]. intros d1 d2 d3 [Hf1 Hd1 Ht1] [Hf2 Hd2 Ht2]. split.
  - intros p name Hn Hs. by rewrite Hf2, Hf1.
  - intros p Hs. by rewrite Hd2, Hd1.
  - intros dir Hst Hn. by apply Ht2, Ht1.
Qed.
Lemma agree_view d d' : agree d d' → same_view d d'.
Proof.
  intros [Hf Hd]. split; [intros p name Hn _; by apply Hf|intros p _; apply Hd|].
  intros dir Hst Hn. by rewrite Hf.
Qed.

Lemma agree_partial p name c d : is_partial name = true → agree d (change_file p name c d).
Proof.
  intros Hp. split.
  - intros p' name' Hn. rewrite file_at_change. rewrite decide_False; [done|]. naive_solver congruence.
  - intros p'. apply is_Some_change.
Qed.
(** The same change keeps disks that agree in agreement. *)
Lemma agree_change p name c d d' : agree d d' → agree (change_file p name c d) (change_file p name c d').
Proof.
  intros [Hf Hd]. split.
  - intros p' name' Hn. rewrite !file_at_change. rewrite Hf by done.
    apply decide_ext. by rewrite (Hd p).
  - intros p'. rewrite !is_Some_change. apply Hd.
Qed.
Lemma view_staging_change dir name c d :
  is_staging dir = true → name ≠ TERMINAL_FILE → same_view d (change_file (In OutboxRoot dir) name c d).
Proof.
  intros Hst Hne. split.
  - intros p' name' Hn Hs. rewrite file_at_change. rewrite decide_False; [done|].
    intros (<- & _). specialize (Hs dir eq_refl). congruence.
  - intros p' Hs. apply is_Some_change.
  - intros dir' Hst' Hn. rewrite file_at_change. rewrite decide_False; [done|]. by intros (_ & ? & _).
Qed.
Lemma view_staging_put dir f d : is_Some (files_at (In OutboxRoot dir) d) →
  is_staging dir = true → f ≫= (.!! TERMINAL_FILE) = None → same_view d (put_files (In OutboxRoot dir) f d).
Proof.
  intros Hd Hst Hnone. split.
  - intros p' name' Hn Hs. rewrite file_at_put by done. rewrite decide_False; [done|].
    intros <-. specialize (Hs dir eq_refl). congruence.
  - intros p' Hs. rewrite files_at_put by done. rewrite decide_False; [done|].
    intros <-. specialize (Hs dir eq_refl). congruence.
  - intros dir' Hst' Hn. rewrite file_at_put by done. by case_decide.
Qed.

Ltac no_staging := let dir := fresh in intros dir [= <-]; eauto using final_name_not_staging.

Lemma view_receipt d d' key : same_view d d' → receipt_at d' key = receipt_at d key.
Proof. intros [Hf _ _]. unfold receipt_at. rewrite Hf; [done|apply not_partial_receipt|done]. Qed.
Lemma view_pending d d' key : same_view d d' → pending d' key ↔ pending d key.
Proof. intros Hv. unfold pending. by rewrite (view_receipt _ _ _ Hv). Qed.
Lemma view_boxed d d' id body : same_view d d' → boxed d id body → boxed d' id body.
Proof.
  intros [Hf _ _] (start & pages & json & meta & Hs & Hp & Hb & Hj & Hrest).
  exists start, pages, json, meta. rewrite !Hf by first [done|no_staging]. done.
Qed.
Lemma view_in_open d d' key id body : same_view d d' → in_open d key id body → in_open d' key id body.
Proof.
  intros [Hf _ _] [Hm (name & Hn & Hk)]. split; [by rewrite Hf|].
  exists name. split; [|done]. rewrite Hf; [done|by apply (parse_batch_name_inv _ key)|done].
Qed.
Lemma view_kept d d' key id body : same_view d d' → kept d key id body → kept d' key id body.
Proof. intros Hv [?|[?|?]]; [by left|right; left; by eapply view_in_open|right; right; by eapply view_boxed]. Qed.

Lemma disk_ok_view c d' : same_view (c_disk c) d' → disk_ok c → disk_ok (with_disk d' c).
Proof.
  intros Hv [Ha Ho Hf Hm Hx Hk Hs Hi Hz]. pose proof Hv as [Vf Vd Vt]. split; simpl_core.
  - intros key id body Hin. destruct (Ha key id body Hin) as (? & ? & r & Hr & Hid & Hp).
    split_and!; try done. exists r. rewrite (view_receipt _ _ _ Hv). split_and!; try done.
    intros Hpe. destruct (Hp Hpe) as [?|?]; [by left|right; by eapply view_kept].
  - done.
  - intros start id Hst Hd. rewrite Vd in Hd by no_staging. destruct (Hf start id Hst Hd) as [? Hall]. split; [done|].
    intros key body Hin Hp. rewrite view_pending in Hp by done.
    destruct (Hall key body Hin Hp) as [?|[?|?]]; [by left|by right; left|right; right; by eapply view_boxed].
  - intros dir json. rewrite Vf by done. apply Hm.
  - intros dir json meta Hst. rewrite Vf; [|done|by intros ? [= <-]]. by apply Hx.
  - intros dir json state Hst. rewrite Vf; [|done|by intros ? [= <-]]. by apply Hk.
  - intros key r. rewrite (view_receipt _ _ _ Hv). apply Hs.
  - intros dir Hd. rewrite Vd in Hd by done. by apply Hi.
  - intros dir Hst. by apply Vt, Hz.
Qed.

Lemma open_ok_view c d' o : same_view (c_disk c) d' → open_ok c o → open_ok (with_disk d' c) o.
Proof.
  intros [Vf Vd _] [Hm Hs Hu Hd]. split; simpl_core; try done.
  - intros start Hst. specialize (Hu start Hst). apply eq_None_not_Some. rewrite Vd by no_staging.
    by apply eq_None_not_Some.
  - intros Hh. rewrite Vf by done. by apply Hd.
Qed.
Lemma receipts_ok_view c d' m : same_view (c_disk c) d' → receipts_ok c m → receipts_ok (with_disk d' c) m.
Proof.
  intros Hv [Hp Hd]. split; [done|]. intros key Hk. simpl_core. rewrite (view_receipt _ _ _ Hv). by apply Hd.
Qed.
Lemma mem_ok_view c d' : same_view (c_disk c) d' → mem_ok c → mem_ok (with_disk d' c).
Proof.
  intros Hv Hm a Ha. destruct (Hm a Ha) as (? & ? & ?).
  split_and!; [by apply open_ok_view|by apply receipts_ok_view|done].
Qed.
Lemma Inv_view c d' : same_view (c_disk c) d' → Inv c → Inv (with_disk d' c).
Proof. intros Hv [Hd Hm]. split; [by apply disk_ok_view|by apply mem_ok_view]. Qed.

(** Assertions that do not look at temporary files. *)
Class Stable (P : Core → Prop) : Prop := stable : ∀ c d', P c → agree (c_disk c) d' → P (with_disk d' c).
#[global] Instance disk_ok_stable : Stable disk_ok.
Proof. intros c d' Hp Ha. apply disk_ok_view; [by apply agree_view|done]. Qed.
#[global] Instance mem_ok_stable : Stable mem_ok.
Proof. intros c d' Hp Ha. apply mem_ok_view; [by apply agree_view|done]. Qed.
#[global] Instance Inv_stable : Stable Inv.
Proof. intros c d' Hp Ha. apply Inv_view; [by apply agree_view|done]. Qed.
#[global] Instance receipts_ok_stable m : Stable (λ c, receipts_ok c m).
Proof. intros c d' Hp Ha. apply receipts_ok_view; [by apply agree_view|done]. Qed.
#[global] Instance open_ok_stable o : Stable (λ c, open_ok c o).
Proof. intros c d' Hp Ha. apply open_ok_view; [by apply agree_view|done]. Qed.
#[global] Instance and_stable (P Q : Core → Prop) : Stable P → Stable Q → Stable (λ c, P c ∧ Q c).
Proof. intros HP HQ c d' [Hp Hq] Ha. split; by eapply stable. Qed.
#[global] Instance pure_stable (φ : Prop) : Stable (λ _, φ).
Proof. by intros c d' Hp _. Qed.
#[global] Instance file_stable p name o : is_partial name = false → Stable (λ c, file_at p name (c_disk c) = o).
Proof. intros Hn c d' Hf Ha. simpl_core. by rewrite (ag_file _ _ Ha). Qed.
#[global] Instance dir_stable p : Stable (λ c, is_Some (files_at p (c_disk c))).
Proof. intros c d' Hf Ha. simpl_core. by apply (ag_dir _ _ Ha). Qed.
#[global] Instance rest_stable {A} (f : CustodyStore → list string → list (BatchKey * (string * string)) → list string → list string → A) x :
  Stable (λ c, f (c_store c) (c_minted c) (c_accepted c) (c_disposed c) (c_half c) = x).
Proof. by intros c d' Hp _. Qed.

(** An atomic write happens wholly or not at all. *)
Lemma spec_write_atomic P `{!Stable P} p name bytes Q :
  is_partial name = false →
  (∀ c, P c → disk_ok c) →
  (∀ c d', P c → is_Some (files_at p (c_disk c)) → agree (change_file p name (Some bytes) (c_disk c)) d' →
    Q (Ok tt) (with_disk d' c)) →
  (∀ c e, P c → Q (Err e) c) →
  spec P (write_bytes_atomic p name bytes) Q.
Proof.
  intros Hn Hok Hdone Herr. unfold write_bytes_atomic. set (tmp := with_extension name "partial").
  assert (Ht : is_partial tmp = true) by apply partial_with_extension.
  assert (Hstep : ∀ c o, P c → P (with_disk (change_file p tmp o (c_disk c)) c)).
  { intros c o Hp. eapply stable; [done|]. by apply agree_partial. }
  eapply spec_bind with (R := λ r c, match r with Ok _ => Q (Ok tt) c | Err e => P c end).
  - eapply spec_try with (R := λ _ c, P c ∧ is_Some (files_at p (c_disk c))).
    { apply spec_call; simpl_core.
      - intros c Hp. destruct (files_at p (c_disk c)) as [f|] eqn:Hf; [|by apply Hstep].
        split; [by apply Hstep|]. apply is_Some_change. by rewrite Hf.
      - intros c Hp. split; [by apply Hok|done].
      - intros c keep Hp. split; [by apply Hok, Hstep|by apply Hstep]. }
    intros []. eapply spec_try with (R := λ _ c, P c ∧ file_at p tmp (c_disk c) = Some bytes).
    { apply spec_call; simpl_core.
      - intros c [Hp Hd]. split; [by apply Hstep|]. rewrite file_at_change. by rewrite decide_True.
      - intros c [Hp _]. split; [by apply Hok|done].
      - intros c keep [Hp _]. split; [by apply Hok, Hstep|by apply Hstep]. }
    intros []. eapply spec_try with (R := λ _ c, P c ∧ file_at p tmp (c_disk c) = Some bytes).
    { apply spec_look; [intros c [Hp _]; by apply Hok|done|by intros c [? _]]. }
    intros []. apply spec_call; simpl_core.
    + intros c [Hp Hf]. rewrite Hf. cbn.
      assert (Hd : is_Some (files_at p (c_disk c))) by by eapply file_at_dir.
      apply (Hdone (with_disk (change_file p tmp None (c_disk c)) c)).
      * by apply Hstep.
      * cbn. by apply is_Some_change.
      * done.
    + intros c [Hp _]. split; [by apply Hok|done].
    + intros c keep [Hp _]. rewrite with_disk_same. split; [by apply Hok|done].
  - intros [[]|e]; [by apply spec_ret|].
    eapply spec_bind with (R := λ _, P); [|intros _; apply spec_ret; intros c; apply Herr].
    apply spec_call; simpl_core.
    + intros c Hp. destruct (file_at p tmp (c_disk c)); cbn; [by apply Hstep|by rewrite with_disk_same].
    + intros c Hp. split; [by apply Hok|done].
    + intros c keep Hp. rewrite with_disk_same. split; [by apply Hok|done].
Qed.
End logic.
