(* ===== verification/CustodySteps.v ===== *)
(** * What each change of the disk keeps

    One lemma per kind of change the custody store makes: removing from a
    directory, writing a receipt, a batch, a manifest or a marker, finishing a
    period. [held o m st] is what is kept throughout: the disk is in order, the
    open period [o] and the receipts [m] in memory fit it, and the store
    satisfies [st]. *)
From Stdlib Require Import Ascii String.
From stdpp Require Import sorting.
From S2P Require Import Prelude RustStr PauseStore Ingest Admission Custody CustodyLogic.

Local Open Scope list_scope.

Section steps.
Context `{CustodyLib} `{DirOrder} `{HashOrder}.

Record held (o : OpenPeriod) (m : Receipts) (st : CustodyStore → Prop) (c : Core) : Prop := {
  hd_disk : disk_ok c;
  hd_open : open_ok c o;
  hd_receipts : receipts_ok c m;
  hd_store : st (c_store c)
}.

Lemma held_view o m st c d' : same_view (c_disk c) d' → held o m st c → held o m st (with_disk d' c).
Proof.
  intros Hv [Hd Ho Hr Hs]. split; [by apply disk_ok_view|by apply open_ok_view|by apply receipts_ok_view|done].
Qed.
#[global] Instance held_stable o m st : Stable (held o m st).
Proof. intros c d' Hp Ha. apply held_view; [by apply agree_view|done]. Qed.

(** ** Removing from one directory *)

Record shrinks (p : Place) (d d' : Disk) : Prop := {
  sh_other_file : ∀ p' name, p' ≠ p → file_at p' name d' = file_at p' name d;
  sh_other_dir : ∀ p', p' ≠ p → is_Some (files_at p' d') ↔ is_Some (files_at p' d);
  sh_file : ∀ name x, file_at p name d' = Some x → file_at p name d = Some x;
  sh_dir : is_Some (files_at p d') → is_Some (files_at p d)
}.

Lemma shrinks_remove p d : is_Some (files_at p d) → shrinks p d (put_files p None d).
Proof.
  intros Hs. split.
  - intros p' name Hn. rewrite file_at_put by done. by rewrite decide_False.
  - intros p' Hn. rewrite files_at_put by done. by rewrite decide_False.
  - intros name x. rewrite file_at_put by done. by rewrite decide_True.
  - done.
Qed.
Lemma shrinks_keep keep p d : shrinks p d (keep_files keep p d).
Proof.
  split.
  - intros p' name Hn. by apply file_at_keep_ne.
  - intros p' Hn. apply is_Some_keep.
  - intros name x. apply file_at_keep.
  - apply is_Some_keep.
Qed.
Lemma shrinks_file p name d : shrinks p d (change_file p name None d).
Proof.
  split.
  - intros p' name' Hn. rewrite file_at_change. rewrite decide_False; [done|naive_solver].
  - intros p' Hn. apply is_Some_change.
  - intros name' x. rewrite file_at_change. by case_decide.
  - apply is_Some_change.
Qed.

Lemma shrinks_receipt r dir d d' key : shrinks (In r dir) d d' → receipt_at d' key = receipt_at d key.
Proof. intros [Hf _ _ _]. unfold receipt_at. by rewrite Hf. Qed.
Lemma shrinks_pending r dir d d' key : shrinks (In r dir) d d' → pending d' key ↔ pending d key.
Proof. intros Hs. unfold pending. by rewrite (shrinks_receipt _ _ _ _ _ Hs). Qed.
Lemma shrinks_boxed dir d d' id body : shrinks (In OpenRoot dir) d d' → boxed d id body → boxed d' id body.
Proof.
  intros [Hf _ _ _] (start & pages & json & meta & Hs & Hp & Hb & Hj & Hrest).
  exists start, pages, json, meta. by rewrite !Hf.
Qed.
Lemma shrinks_in_open r p d d' key id body :
  shrinks (In r p) d d' → In r p ≠ In OpenRoot id → in_open d key id body → in_open d' key id body.
Proof.
  intros [Hf _ _ _] Hn [Hm (name & Hc & Hk)]. split; [by rewrite Hf by done|].
  exists name. by rewrite Hf by done.
Qed.

(** What stands for a batch whose open copy goes away. *)
Definition elsewhere (c : Core) (id : string) : Prop :=
  ∀ key body, (key, (id, body)) ∈ c_accepted c → pending (c_disk c) key →
  id ∈ c_half c ∨ body = EmptyString ∨ boxed (c_disk c) id body.

Lemma disk_ok_shrink_open c dir d' :
  shrinks (In OpenRoot dir) (c_disk c) d' → elsewhere c dir → disk_ok c → disk_ok (with_disk d' c).
Proof.
  intros Hsh He [Ha Ho Hf Hm Hx Hk Hs Hi Hz]. pose proof Hsh as [Sf Sd SF SD]. split; simpl_core.
  - intros key id body Hin. destruct (Ha key id body Hin) as (? & ? & r & Hr & Hid & Hp).
    split_and!; try done. exists r. rewrite (shrinks_receipt _ _ _ _ _ Hsh). split_and!; try done.
    intros Hpe. destruct (decide (id = dir)) as [->|Hne].
    + destruct (He key body Hin) as [?|[?|?]]; [by exists r|by left|right; by left|].
      right; right; right. by eapply shrinks_boxed.
    + destruct (Hp Hpe) as [?|[?|[?|?]]]; [by left|right; by left| |].
      * right; right; left. eapply shrinks_in_open; [done|congruence|done].
      * right; right; right. by eapply shrinks_boxed.
  - done.
  - intros start id Hst Hd. rewrite Sd in Hd by done. destruct (Hf start id Hst Hd) as [? Hall]. split; [done|].
    intros key body Hin Hp. rewrite shrinks_pending in Hp by done.
    destruct (Hall key body Hin Hp) as [?|[?|?]]; [by left|by right; left|right; right; by eapply shrinks_boxed].
  - intros dir' json Hj. apply Hm. destruct (decide (dir' = dir)) as [->|Hne]; [by apply SF|].
    by rewrite Sf in Hj by congruence.
  - intros dir' json meta Hst. rewrite Sf by done. by apply Hx.
  - intros dir' json state Hst. rewrite Sf by done. by apply Hk.
  - intros key r. rewrite (shrinks_receipt _ _ _ _ _ Hsh). apply Hs.
  - intros dir' Hd. apply Hi. destruct (decide (dir' = dir)) as [->|Hne]; [by apply SD|].
    by apply Sd in Hd; [|congruence].
  - intros dir' Hst. rewrite Sf by done. by apply Hz.
Qed.

Lemma held_shrink_open o m st c dir d' :
  shrinks (In OpenRoot dir) (c_disk c) d' → (op_has_dir o = true → dir ≠ op_id o) → elsewhere c dir →
  held o m st c → held o m st (with_disk d' c).
Proof.
  intros Hsh Hne He [Hd [Hm Hs Hu Hp] [Rp Rd] Hst]. split; try done.
  - by eapply disk_ok_shrink_open.
  - split; simpl_core; try done.
    + intros start Hst'. specialize (Hu start Hst'). apply eq_None_not_Some.
      rewrite (sh_other_dir _ _ _ Hsh) by done. by apply eq_None_not_Some.
    + intros Hh. specialize (Hne Hh). rewrite (sh_other_file _ _ _ Hsh) by congruence. by apply Hp.
  - split; [done|]. intros key Hk. simpl_core. rewrite (shrinks_receipt _ _ _ _ _ Hsh). by apply Rd.
Qed.

(** A removal from an outbox directory that no pending batch needs. *)
Definition unneeded (c : Core) (dir : string) : Prop :=
  file_at (In OutboxRoot dir) PERIOD_FILE (c_disk c) = None ∨
  ∀ start id key body, (0 ≤ start)%Z → dir = final_name start id →
    (key, (id, body)) ∈ c_accepted c → pending (c_disk c) key → id ∈ c_half c ∨ body = EmptyString.

Lemma unneeded_boxed c dir d' key id body :
  shrinks (In OutboxRoot dir) (c_disk c) d' → unneeded c dir →
  (key, (id, body)) ∈ c_accepted c → pending (c_disk c) key → boxed (c_disk c) id body →
  id ∈ c_half c ∨ body = EmptyString ∨ boxed d' id body.
Proof.
  intros [Sf _ _ _] Hu Hin Hp (start & pages & json & meta & Hs & Hpg & Hb & Hj & Hrest).
  destruct (decide (dir = final_name start id)) as [->|Hne].
  - destruct Hu as [Hu|Hu]; [congruence|].
    destruct (Hu start id key body Hs eq_refl Hin Hp) as [?|?]; [by left|by right; left].
  - right; right. exists start, pages, json, meta. by rewrite !Sf by congruence.
Qed.

Lemma disk_ok_shrink_outbox c dir d' :
  shrinks (In OutboxRoot dir) (c_disk c) d' → unneeded c dir → disk_ok c → disk_ok (with_disk d' c).
Proof.
  intros Hsh Hu [Ha Ho Hf Hm Hx Hk Hs Hi Hz]. pose proof Hsh as [Sf Sd SF SD].
  split; simpl_core.
  - intros key id body Hin. destruct (Ha key id body Hin) as (? & ? & r & Hr & Hid & Hp).
    split_and!; try done. exists r. rewrite (shrinks_receipt _ _ _ _ _ Hsh). split_and!; try done.
    intros Hpe. assert (Hpend : pending (c_disk c) key) by by exists r.
    destruct (Hp Hpe) as [?|[?|[?|Hb]]]; [by left|right; by left|right; right; left|].
    + eapply shrinks_in_open; [done|congruence|done].
    + destruct (unneeded_boxed _ _ _ _ _ _ Hsh Hu Hin Hpend Hb) as [?|[?|?]]; [by left|right; by left|right; right; by right].
  - done.
  - intros start id Hst Hd.
    assert (Hd0 : is_Some (files_at (In OutboxRoot (final_name start id)) (c_disk c))).
    { destruct (decide (dir = final_name start id)) as [->|Hne]; [by apply SD|].
      by apply Sd in Hd; [|congruence]. }
    destruct (Hf start id Hst Hd0) as [? Hall]. split; [done|].
    intros key body Hin Hp. rewrite shrinks_pending in Hp by done.
    destruct (Hall key body Hin Hp) as [?|[?|Hb]]; [by left|by right; left|].
    by eapply unneeded_boxed.
  - intros dir' json. rewrite Sf by done. apply Hm.
  - intros dir' json meta Hst Hj. apply Hx; [done|].
    destruct (decide (dir' = dir)) as [->|Hne]; [by apply SF|by rewrite Sf in Hj by congruence].
  - intros dir' json state Hst Hj. apply (Hk dir' json state Hst).
    destruct (decide (dir' = dir)) as [->|Hne]; [by apply SF|by rewrite Sf in Hj by congruence].
  - intros key r. rewrite (shrinks_receipt _ _ _ _ _ Hsh). apply Hs.
  - intros dir' Hd. rewrite Sd in Hd by done. by apply Hi.
  - intros dir' Hst. destruct (decide (dir' = dir)) as [->|Hne]; [|rewrite Sf by congruence; by apply Hz].
    destruct (file_at (In OutboxRoot dir) TERMINAL_FILE d') as [x|] eqn:Hx'; [|done].
    apply SF in Hx'. by rewrite (Hz dir Hst) in Hx'.
Qed.

Lemma held_shrink_outbox o m st c dir d' :
  shrinks (In OutboxRoot dir) (c_disk c) d' → unneeded c dir → held o m st c → held o m st (with_disk d' c).
Proof.
  intros Hsh Hne [Hd [Hm Hs Hu Hp] [Rp Rd] Hst]. pose proof Hsh as [Sf Sd SF SD]. split; try done.
  - by eapply disk_ok_shrink_outbox.
  - split; simpl_core; try done.
    + intros start Hst'. specialize (Hu start Hst'). apply eq_None_not_Some. intros Hd'.
      assert (is_Some (files_at (In OutboxRoot (final_name start (op_id o))) (c_disk c))) as [? Hx].
      { destruct (decide (dir = final_name start (op_id o))) as [->|Hn]; [by apply SD|by apply Sd in Hd'; [|congruence]]. }
      congruence.
    + intros Hh. rewrite Sf by done. by apply Hp.
  - split; [done|]. intros key Hk. simpl_core. rewrite (shrinks_receipt _ _ _ _ _ Hsh). by apply Rd.
Qed.

(** ** New directories *)

(** The same files in the periods' directories and the same receipts. *)
Record same_files (c : Core) (d' : Disk) : Prop := {
  sf_file : ∀ r dir name, file_at (In r dir) name d' = file_at (In r dir) name (c_disk c);
  sf_receipt : ∀ key, receipt_at d' key = receipt_at (c_disk c) key;
  sf_outbox : ∀ dir, is_staging dir = false → is_Some (files_at (In OutboxRoot dir) d') →
    is_Some (files_at (In OutboxRoot dir) (c_disk c));
  sf_open : ∀ dir, is_Some (files_at (In OpenRoot dir) d') →
    is_Some (files_at (In OpenRoot dir) (c_disk c)) ∨ dir ∈ c_minted c
}.

Lemma disk_ok_same_files c d' : same_files c d' → disk_ok c → disk_ok (with_disk d' c).
Proof.
  intros [Hf Hr Ho Hi] [Ha Hon Hfi Hm Hx Hk Hs Hmi Hz].
  assert (Hb : ∀ id body, boxed d' id body ↔ boxed (c_disk c) id body).
  { intros. unfold boxed. by setoid_rewrite Hf. }
  assert (Hk' : ∀ key id body, kept d' key id body ↔ kept (c_disk c) key id body).
  { intros. unfold kept, in_open. setoid_rewrite Hf. by rewrite Hb. }
  split; simpl_core; try done.
  - intros key id body Hin. setoid_rewrite Hk'. rewrite Hr. by apply Ha.
  - intros start id Hst' Hd. apply Ho in Hd; [|by apply final_name_not_staging].
    destruct (Hfi start id Hst' Hd) as [? Hall]. split; [done|]. intros key body Hin Hp. rewrite Hb.
    apply (Hall key body Hin). unfold pending in *. by rewrite Hr in Hp.
  - intros dir json. rewrite Hf. apply Hm.
  - intros dir json meta. rewrite Hf. apply Hx.
  - intros dir json state. rewrite Hf. apply Hk.
  - intros key r. rewrite Hr. apply Hs.
  - intros dir Hd. destruct (Hi dir Hd) as [?|?]; [by apply Hmi|done].
  - intros dir. rewrite Hf. apply Hz.
Qed.
Lemma open_ok_same_files c d' o : same_files c d' → open_ok c o → open_ok (with_disk d' c) o.
Proof.
  intros [Hf _ Ho _] [Hom Hos Hou Hod]. split; simpl_core; [done|done| |by rewrite Hf].
  intros start Hst'. specialize (Hou start Hst'). apply eq_None_not_Some. intros Hd%Ho; [|by apply final_name_not_staging].
  rewrite Hou in Hd. by destruct Hd.
Qed.
Lemma held_same_files o m st c d' : same_files c d' → held o m st c → held o m st (with_disk d' c).
Proof.
  intros Hsf [Hd Ho [Rp Rd] Hst]. split; [by apply disk_ok_same_files|by apply open_ok_same_files| |done].
  split; [done|]. intros key. simpl_core. rewrite (sf_receipt _ _ Hsf). apply Rd.
Qed.

(** ** New files *)

Lemma receipt_at_change d key json key' :
  is_Some (files_at InReceipts d) → proper key → proper key' →
  receipt_at (change_file InReceipts (receipt_name key) (Some json) d) key' =
  if decide (key = key') then receipt_of json else receipt_at d key'.
Proof.
  intros Hd Hk Hk'. unfold receipt_at. rewrite file_at_change. destruct (decide (key = key')) as [->|Hne].
  - by rewrite decide_True.
  - rewrite decide_False; [done|]. intros (_ & He & _). by apply receipt_name_inj in He.
Qed.

Lemma held_receipt o m st c key r json :
  proper key → receipt_of json = Some r → is_Some (files_at InReceipts (c_disk c)) →
  (rf_state r ≠ RPending → rf_period_id r ∈ c_disposed c) →
  (∀ id body, (key, (id, body)) ∈ c_accepted c → rf_period_id r = id ∧ rf_state r ≠ RPending) →
  held o m st c →
  held o (<[key := r]> m) st (with_disk (change_file InReceipts (receipt_name key) (Some json) (c_disk c)) c).
Proof.
  intros Hk Hj Hd Hdis Hacc [[Ha Hon Hfi Hm Hx Hkm Hs Hmi Hz] [Hom Hos Hou Hod] [Rp Rd] Hst].
  set (d' := change_file InReceipts (receipt_name key) (Some json) (c_disk c)).
  assert (Hf : ∀ r dir name, file_at (In r dir) name d' = file_at (In r dir) name (c_disk c)).
  { intros. unfold d'. rewrite file_at_change. rewrite decide_False; [done|]. by intros [? _]. }
  assert (Hfd : ∀ r dir, files_at (In r dir) d' = files_at (In r dir) (c_disk c)).
  { intros. unfold d'. rewrite files_at_change. by rewrite decide_False. }
  assert (Hrk : ∀ key', proper key' → receipt_at d' key' = if decide (key = key') then Some r else receipt_at (c_disk c) key').
  { intros key' Hk'. unfold d'. rewrite receipt_at_change by done. by rewrite Hj. }
  assert (Hb : ∀ id body, boxed d' id body ↔ boxed (c_disk c) id body) by (intros; unfold boxed; by setoid_rewrite Hf).
  assert (Hk' : ∀ key id body, kept d' key id body ↔ kept (c_disk c) key id body).
  { intros. unfold kept, in_open. setoid_rewrite Hf. by rewrite Hb. }
  split; [split|split|split|done]; simpl_core; try done.
  - intros key' id body Hin. destruct (Ha key' id body Hin) as (Hp & Hi & r' & Hr' & Hid & Hpe). split_and!; try done.
    rewrite Hrk by done. case_decide as He; [subst key'|].
    + destruct (Hacc id body Hin) as [? ?]. exists r. split_and!; [done|done|]. by intros ?.
    + exists r'. split_and!; [done|done|]. by rewrite Hk'.
  - intros start id Hst' Hd'. rewrite Hfd in Hd'. destruct (Hfi start id Hst' Hd') as [? Hall]. split; [done|].
    intros key' body Hin [r' [Hr' Hp']]. rewrite Hb. destruct (Ha key' id body Hin) as (Hpr & _).
    rewrite Hrk in Hr' by done. case_decide as He; [subst key'|].
    + injection Hr' as <-. by destruct (Hacc id body Hin).
    + apply (Hall key' body Hin). by exists r'.
  - intros dir json'. rewrite Hf. apply Hm.
  - intros dir json' meta. rewrite Hf. apply Hx.
  - intros dir json' state. rewrite Hf. apply Hkm.
  - intros key' r'. unfold receipt_at, d'. rewrite file_at_change. case_decide as He; [|by apply Hs].
    cbn. rewrite Hj. intros [= <-]. apply Hdis.
  - intros dir. rewrite Hfd. apply Hmi.
  - intros dir. rewrite Hf. apply Hz.
  - intros start Hst'. rewrite Hfd. by apply Hou.
  - rewrite Hf. apply Hod.
  - intros key' r' [[<- <-]|[_ Hr']]%lookup_insert_Some; [done|by eapply Rp].
  - intros key' Hp'. rewrite Hrk by done. case_decide as He; [subst; by rewrite lookup_insert_eq|].
    rewrite lookup_insert_ne by done. by apply Rd.
Qed.

(** A file written into a period's directory. *)
Lemma receipt_at_period r dir name x d key :
  receipt_at (change_file (In r dir) name x d) key = receipt_at d key.
Proof. unfold receipt_at. rewrite file_at_change. by rewrite decide_False by naive_solver. Qed.

Lemma held_open_file o m st c id name x :
  (name = PERIOD_FILE → ∃ json meta, x = Some json ∧ open_period_of json = Some meta ∧ opf_period_id meta = id ∧ (0 ≤ opf_start_ms meta)%Z) →
  (∀ key id' body, parse_batch_name name = Some key → (key, (id', body)) ∈ c_accepted c → ¬ pending (c_disk c) key) →
  held o m st c → held o m st (with_disk (change_file (In OpenRoot id) name x (c_disk c)) c).
Proof.
  intros Hper Hbat [[Ha Hon Hfi Hm Hx Hkm Hs Hmi Hz] [Hom Hos Hou Hod] [Rp Rd] Hst].
  set (d' := change_file (In OpenRoot id) name x (c_disk c)).
  assert (Hf : ∀ dir n, file_at (In OutboxRoot dir) n d' = file_at (In OutboxRoot dir) n (c_disk c)).
  { intros. unfold d'. rewrite file_at_change. rewrite decide_False; [done|]. by intros [? _]. }
  assert (Hfd : ∀ p, is_Some (files_at p d') ↔ is_Some (files_at p (c_disk c))) by (intros; apply is_Some_change).
  assert (Hr : ∀ key, receipt_at d' key = receipt_at (c_disk c) key) by (intros; apply receipt_at_period).
  assert (Hb : ∀ id body, boxed d' id body ↔ boxed (c_disk c) id body) by (intros; unfold boxed; by setoid_rewrite Hf).
  assert (Hper' : ∀ dir, is_Some (file_at (In OpenRoot dir) PERIOD_FILE (c_disk c)) → is_Some (file_at (In OpenRoot dir) PERIOD_FILE d')).
  { intros dir ?. unfold d'. rewrite file_at_change. case_decide as He; [|done].
    destruct He as (_ & He & _). destruct (Hper He) as (json & meta & -> & _). by eauto. }
  assert (Hkeep : ∀ key id' body, (key, (id', body)) ∈ c_accepted c → pending (c_disk c) key → kept (c_disk c) key id' body → kept d' key id' body).
  { intros key id' body Hin Hpend [?|[[Hp (n & Hn & Hpn)]|?]]; [by left| |right; right; by apply Hb].
    right; left. split; [by apply Hper'|]. exists n. split; [|done]. unfold d'. rewrite file_at_change.
    rewrite decide_False; [done|]. intros (_ & -> & _). by eapply Hbat. }
  split; [split|split|split|done]; simpl_core; try done.
  - intros key id' body Hin. destruct (Ha key id' body Hin) as (? & ? & r & Hr' & Hid & Hp). split_and!; try done.
    exists r. rewrite Hr. split_and!; try done. intros Hpe. destruct (Hp Hpe) as [?|?]; [by left|right; apply Hkeep; [done|by exists r|done]].
  - intros start id' Hst' Hd. rewrite Hfd in Hd. destruct (Hfi start id' Hst' Hd) as [? Hall]. split; [done|].
    intros key body Hin Hp. rewrite Hb. apply (Hall key body Hin). unfold pending in *. by rewrite Hr in Hp.
  - intros dir json. unfold d'. rewrite file_at_change. case_decide as He; [|by apply Hm].
    destruct He as ([= <-] & He & _). destruct (Hper (eq_sym (eq_sym He))) as (js & meta & -> & Hmeta). intros [= <-]. by exists meta.
  - intros dir json meta. rewrite Hf. apply Hx.
  - intros dir json state. rewrite Hf. apply Hkm.
  - intros key r. rewrite Hr. apply Hs.
  - intros dir. rewrite Hfd. apply Hmi.
  - intros dir. rewrite Hf. apply Hz.
  - intros start Hst'. specialize (Hou start Hst'). apply eq_None_not_Some. rewrite Hfd. by apply eq_None_not_Some.
  - intros Hh. destruct (Hod Hh) as [?|?]; [by left|right; by apply Hper'].
  - intros key. rewrite Hr. apply Rd.
Qed.

(** The marker that a finished period is given up. *)
Lemma held_marker o m st c dir json state :
  is_staging dir = false → terminal_of json = Some state → state ≠ RPending →
  (∀ start id, (0 ≤ start)%Z → dir = final_name start id → id ∈ c_disposed c) →
  held o m st c → held o m st (with_disk (change_file (In OutboxRoot dir) TERMINAL_FILE (Some json) (c_disk c)) c).
Proof.
  intros Hns Hj Hstate Hdis [[Ha Hon Hfi Hm Hx Hkm Hs Hmi Hz] [Hom Hos Hou Hod] [Rp Rd] Hst].
  set (d' := change_file (In OutboxRoot dir) TERMINAL_FILE (Some json) (c_disk c)).
  assert (Hf : ∀ p n, n ≠ TERMINAL_FILE → file_at p n d' = file_at p n (c_disk c)).
  { intros. unfold d'. rewrite file_at_change. rewrite decide_False; [done|]. naive_solver. }
  assert (Hfo : ∀ dir n, file_at (In OpenRoot dir) n d' = file_at (In OpenRoot dir) n (c_disk c)).
  { intros. unfold d'. rewrite file_at_change. rewrite decide_False; [done|]. by intros [? _]. }
  assert (Hfd : ∀ p, is_Some (files_at p d') ↔ is_Some (files_at p (c_disk c))) by (intros; apply is_Some_change).
  assert (Hr : ∀ key, receipt_at d' key = receipt_at (c_disk c) key) by (intros; apply receipt_at_period).
  assert (Hb : ∀ id body, boxed d' id body ↔ boxed (c_disk c) id body).
  { intros; unfold boxed. setoid_rewrite (Hf _ PAGES_FILE ltac:(done)). by setoid_rewrite (Hf _ PERIOD_FILE ltac:(done)). }
  assert (Hk' : ∀ key id body, kept d' key id body ↔ kept (c_disk c) key id body).
  { intros. unfold kept, in_open. setoid_rewrite Hfo. by rewrite Hb. }
  split; [split|split|split|done]; simpl_core; try done.
  - intros key id body Hin. setoid_rewrite Hk'. rewrite Hr. by apply Ha.
  - intros start id Hst' Hd. rewrite Hfd in Hd. destruct (Hfi start id Hst' Hd) as [? Hall]. split; [done|].
    intros key body Hin Hp. rewrite Hb. apply (Hall key body Hin). unfold pending in *. by rewrite Hr in Hp.
  - intros dir' json'. rewrite Hf by done. apply Hm.
  - intros dir' json' meta. rewrite Hf by done. apply Hx.
  - intros dir' json' state' Hns'. unfold d'. rewrite file_at_change. case_decide as He; [|by apply Hkm].
    destruct He as ([= <-] & _ & _). intros [= <-] Hj'. rewrite Hj in Hj'. injection Hj' as <-. by split.
  - intros key r. rewrite Hr. apply Hs.
  - intros dir'. rewrite Hfd. apply Hmi.
  - intros dir' Hst'. unfold d'. rewrite file_at_change. rewrite decide_False; [by apply Hz|].
    intros ([= <-] & _). congruence.
  - intros start Hst'. specialize (Hou start Hst'). apply eq_None_not_Some. rewrite Hfd. by apply eq_None_not_Some.
  - rewrite Hfo. apply Hod.
  - intros key. rewrite Hr. apply Rd.
Qed.

(** ** Finishing a period *)

Definition carries (pages body : string) : Prop := ∃ before after, pages = before +:+ body +:+ after.

Definition moved (from to : string) (f : Files) (d : Disk) : Disk :=
  put_files (In OutboxRoot to) (Some f) (put_files (In OutboxRoot from) None d).

Lemma outbox_root_put dir f d to g :
  is_Some (root_at OutboxRoot d) → dir ≠ to →
  files_at (In OutboxRoot to) (put_files (In OutboxRoot to) (Some g) (put_files (In OutboxRoot dir) f d)) = Some g.
Proof.
  intros [m Hm] Hne. cbn in Hm. unfold files_at, put_files, root_at, set_root. cbn. rewrite Hm. cbn.
  by rewrite lookup_partial_alter_eq.
Qed.

Lemma files_at_moved from to f d p :
  files_at (In OutboxRoot from) d = Some f → from ≠ to →
  files_at p (moved from to f d) =
  if decide (p = In OutboxRoot to) then Some f else if decide (p = In OutboxRoot from) then None else files_at p d.
Proof.
  intros Hf Hne. unfold moved. destruct p as [[] dir|]; cbn; try done.
  unfold files_at in *. cbn in *. destruct (d_outbox d) as [m|]; cbn in *; [|done].
  destruct (decide (dir = to)) as [->|Hto].
  - rewrite lookup_partial_alter_eq. by rewrite decide_True.
  - rewrite lookup_partial_alter_ne by done. rewrite (decide_False (P := In OutboxRoot dir = In OutboxRoot to)) by congruence.
    destruct (decide (dir = from)) as [->|Hfrom].
    + rewrite lookup_partial_alter_eq. by rewrite decide_True.
    + rewrite lookup_partial_alter_ne by done. by rewrite decide_False by congruence.
Qed.
Lemma file_at_moved from to f d p name :
  files_at (In OutboxRoot from) d = Some f → from ≠ to →
  file_at p name (moved from to f d) =
  if decide (p = In OutboxRoot to) then f !! name else if decide (p = In OutboxRoot from) then None else file_at p name d.
Proof. intros Hf Hne. unfold file_at. rewrite files_at_moved by done. by repeat case_decide. Qed.

Section finishing.
Context (o : OpenPeriod) (m : Receipts) (st : CustodyStore → Prop) (c : Core).
Context (start : Z) (id from : string) (f : Files) (pages json : string) (meta : OutboxPeriodFile).
Hypothesis Hstart : (0 ≤ start)%Z.
Hypothesis Hfrom : is_staging from = true.
Hypothesis Hfiles : files_at (In OutboxRoot from) (c_disk c) = Some f.
Hypothesis Hfree : files_at (In OutboxRoot (final_name start id)) (c_disk c) = None.
Hypothesis Hpages : f !! PAGES_FILE = Some pages.
Hypothesis Hjson : f !! PERIOD_FILE = Some json.
Hypothesis Hmeta : outbox_period_of json = Some meta.
Hypothesis Hid : obf_period_id meta = id.
Hypothesis Hstart' : obf_start_ms meta = start.
Hypothesis Hsha : obf_sha256 meta = hex (sha256_digest pages).
Hypothesis Hsize : obf_size meta = Z.of_nat (String.length pages).

Local Notation to := (final_name start id).
Local Notation d' := (moved from to f (c_disk c)).

Lemma finish_names : from ≠ to.
Proof. intros He. pose proof (final_name_not_staging start id Hstart). congruence. Qed.

Lemma finish_file p name :
  file_at p name d' =
  if decide (p = In OutboxRoot to) then f !! name else if decide (p = In OutboxRoot from) then None else file_at p name (c_disk c).
Proof. apply file_at_moved; [done|apply finish_names]. Qed.
Lemma finish_dir' p :
  files_at p d' = if decide (p = In OutboxRoot to) then Some f else if decide (p = In OutboxRoot from) then None else files_at p (c_disk c).
Proof. apply files_at_moved; [done|apply finish_names]. Qed.
Lemma finish_open dir name : file_at (In OpenRoot dir) name d' = file_at (In OpenRoot dir) name (c_disk c).
Proof. rewrite finish_file. by rewrite !decide_False. Qed.
Lemma finish_receipt key : receipt_at d' key = receipt_at (c_disk c) key.
Proof. unfold receipt_at. rewrite finish_file. by rewrite !decide_False. Qed.

Lemma finish_boxed_old id' body : boxed (c_disk c) id' body → boxed d' id' body.
Proof.
  intros (s & pg & js & mt & Hs & Hp & Hc & Hj & Hrest). exists s, pg, js, mt.
  assert (Hne : In OutboxRoot (final_name s id') ≠ In OutboxRoot to).
  { intros [= He]. rewrite <- He in Hfree. unfold file_at in Hp. by rewrite Hfree in Hp. }
  assert (Hne' : In OutboxRoot (final_name s id') ≠ In OutboxRoot from).
  { intros [= He]. pose proof (final_name_not_staging s id' Hs). congruence. }
  rewrite !finish_file. rewrite !(decide_False _ _ Hne), !(decide_False _ _ Hne'). done.
Qed.
Lemma finish_boxed body : carries pages body → boxed d' id body.
Proof.
  intros Hc. exists start, pages, json, meta. rewrite !finish_file. rewrite !decide_True by done. by split_and!.
Qed.

Hypothesis Hminted : id ∈ c_minted c.
Hypothesis Hother : id ≠ op_id o.
Hypothesis Hall : ∀ key body, (key, (id, body)) ∈ c_accepted c → pending (c_disk c) key →
  id ∈ c_half c ∨ body = EmptyString ∨ boxed (c_disk c) id body ∨ carries pages body.

Lemma finish_elsewhere : elsewhere (with_disk d' c) id.
Proof.
  intros key body Hin [r [Hr Hp]]. simpl_core. rewrite finish_receipt in Hr.
  destruct (Hall key body Hin) as [?|[?|[?|?]]]; [by exists r|by left|by right; left| |].
  - right; right. by apply finish_boxed_old.
  - right; right. by apply finish_boxed.
Qed.

Lemma held_finish : held o m st c → held o m st (with_disk d' c).
Proof.
  intros [[Ha Hon Hfi Hm Hx Hkm Hs Hmi Hz] [Hom Hos Hou Hod] [Rp Rd] Hst].
  split; [split|split|split|done]; simpl_core; try done.
  - intros key id' body Hin. destruct (Ha key id' body Hin) as (? & ? & r & Hr & Hi & Hp). split_and!; try done.
    exists r. rewrite finish_receipt. split_and!; try done. intros Hpe.
    destruct (Hp Hpe) as [?|[?|[[Hpf (n & Hn & Hk)]|?]]]; [by left|right; by left|right; right; left|].
    + split; [by rewrite finish_open|]. exists n. by rewrite finish_open.
    + right; right; right. by apply finish_boxed_old.
  - intros s id' Hs' Hd. rewrite finish_dir' in Hd.
    destruct (decide (In OutboxRoot (final_name s id') = In OutboxRoot to)) as [He|He].
    + injection He as He. apply final_name_inj in He; [|done|done]. subst id'. split; [done|].
      intros key body Hin Hp. by apply (finish_elsewhere key body).
    + case_decide as He'; [by destruct Hd|]. destruct (Hfi s id' Hs' Hd) as [? Hall']. split; [done|].
      intros key body Hin [r [Hr Hp]]. rewrite finish_receipt in Hr.
      destruct (Hall' key body Hin) as [?|[?|?]]; [by exists r|by left|by right; left|right; right; by apply finish_boxed_old].
  - intros dir js mt Hns. rewrite finish_file. destruct (decide (In OutboxRoot dir = In OutboxRoot to)) as [He|He].
    + injection He as ->. rewrite Hjson. intros [= <-]. rewrite Hmeta. intros [= <-]. by rewrite Hstart', Hid.
    + case_decide; [done|]. by apply Hx.
  - intros dir js state Hns. rewrite finish_file. destruct (decide (In OutboxRoot dir = In OutboxRoot to)) as [He|He].
    + intros Hter. pose proof (Hz from Hfrom) as Hnone. unfold file_at in Hnone. rewrite Hfiles in Hnone.
      cbn in Hnone. by rewrite Hnone in Hter.
    + case_decide; [done|]. by apply Hkm.
  - intros dir Hs'. rewrite finish_file. destruct (decide (In OutboxRoot dir = In OutboxRoot to)) as [He|He].
    + injection He as ->. by rewrite (final_name_not_staging start id) in Hs'.
    + case_decide; [done|]. by apply Hz.
  - intros s Hs'. rewrite finish_dir'. rewrite decide_False.
    + case_decide; [done|by apply Hou].
    + intros [= He]. apply final_name_inj in He; done.
Qed.
End finishing.

(** ** The ghost logs *)

Definition accept (key : BatchKey) (id body : string) (c : Core) : Core :=
  mkCore (c_disk c) (c_store c) (c_minted c) ((key, (id, body)) :: c_accepted c) (c_disposed c) (c_half c).

Lemma held_accept o m st c key body r :
  held o m st c → proper key → m !! key = Some r → r = mkReceiptFile (op_id o) (rf_at_ms r) RPending →
  (∀ id b, (key, (id, b)) ∉ c_accepted c) →
  op_id o ∈ c_half c ∨ in_open (c_disk c) key (op_id o) body →
  held o m st (accept key (op_id o) body c).
Proof.
  intros [[Ha Hon Hfi Hm Hx Hkm Hs Hmi Hz] [Hom Hos Hou Hod] [Rp Rd] Hst] Hk Hr He Hnew Hkept.
  assert (Hrd : receipt_at (c_disk c) key = Some r) by (rewrite <- Rd by done; done).
  split; [split|split|split|done]; cbn [c_disk c_store c_minted c_accepted c_disposed c_half accept]; try done.
  - intros key' id b [[= -> -> ->]|Hin]%elem_of_cons; [|by apply Ha].
    split_and!; try done. exists r. split_and!; [done|by rewrite He|]. intros _.
    destruct Hkept; [by left|right; right; by left].
  - rewrite fmap_cons. apply NoDup_cons. split; [|done]. cbn. intros ([k' [id b]] & He' & Hin)%list_elem_of_fmap.
    cbn in He'. subst k'. by apply (Hnew id b).
  - intros start id Hst' Hd. destruct (Hfi start id Hst' Hd) as [? Hall]. split; [done|].
    intros key' b [[= -> -> ->]|Hin]%elem_of_cons Hp; [|by apply (Hall key')].
    rewrite Hou in Hd by done. by destruct Hd.
Qed.

(** Logs that only make the promises weaker. *)
Definition more_logs (minted disposed half : list string) (c : Core) : Core :=
  mkCore (c_disk c) (c_store c) (minted ++ c_minted c) (c_accepted c) (disposed ++ c_disposed c) (half ++ c_half c).
Lemma disk_ok_more minted disposed half c : disk_ok c → disk_ok (more_logs minted disposed half c).
Proof.
  intros [Ha Hon Hfi Hm Hx Hkm Hs Hmi Hz].
  split; cbn [c_disk c_store c_minted c_accepted c_disposed c_half more_logs]; try done.
  - intros key id body Hin. destruct (Ha key id body Hin) as (? & ? & r & Hr & Hi & Hp). rewrite elem_of_app.
    split_and!; [done|by right|]. exists r. split_and!; try done. intros Hpe. rewrite elem_of_app.
    destruct (Hp Hpe); [left; by right|by right].
  - intros start id Hst Hd. destruct (Hfi start id Hst Hd) as [? Hall]. rewrite elem_of_app. split; [by right|].
    intros key body Hin Hp. rewrite elem_of_app. destruct (Hall key body Hin Hp) as [?|?]; [left; by right|by right].
  - intros dir json state Hns Hf Ht. destruct (Hkm dir json state Hns Hf Ht) as [? Hd]. split; [done|].
    intros start id Hst He. rewrite elem_of_app. right. by eapply Hd.
  - intros key r Hr Hp. rewrite elem_of_app. right. by eapply Hs.
  - intros dir Hd. rewrite elem_of_app. right. by apply Hmi.
Qed.
Lemma held_more o m st minted disposed half c : held o m st c → held o m st (more_logs minted disposed half c).
Proof.
  intros [Hd [Hom Hos Hou Hod] [Rp Rd] Hst]. split; [by apply disk_ok_more| |done|done].
  split; cbn [c_disk c_store c_minted c_accepted c_disposed c_half more_logs]; try done.
  - rewrite elem_of_app. by right.
  - intros Hh. rewrite elem_of_app. destruct (Hod Hh); [left; by right|by right].
Qed.
End steps.
