(* ===== verification/CustodyOps.v ===== *)
(** * The operations of the custody store keep its promises

    Specifications, in the crash logic, of the computations that read the
    disk, of the writes, and of finishing a period. *)
From Stdlib Require Import Ascii String.
From stdpp Require Import sorting.
From S2P Require Import Prelude RustStr PauseStore Ingest Admission Custody CustodyLogic CustodySteps.

Local Open Scope list_scope.

Section ops.
Context `{CustodyLib} `{!CustodyLaws} `{DirOrder} `{HashOrder}.

(** ** Reading *)

(** [m] changes nothing, and what it returns stands in [V] to the disk. *)
Definition reads {A} (m : IO A) (V : Disk → A → Prop) : Prop :=
  quiet m ∧ ∀ w a, (m w).1 = Some a → V (w_disk w) a.

Lemma reads_quiet {A} (m : IO A) : quiet m → reads m (λ _ _, True).
Proof. done. Qed.
Lemma reads_weaken {A} (m : IO A) (V V' : Disk → A → Prop) : (∀ d a, V d a → V' d a) → reads m V → reads m V'.
Proof. intros HV [Hq Hm]. split; [done|]. eauto. Qed.
Lemma reads_ret {A} (a : A) : reads (mret a) (λ _ b, b = a).
Proof. split; [done|]. by intros w b [= <-]. Qed.
Lemma reads_bind {A B} (m : IO A) (k : A → IO B) V V' :
  reads m V → (∀ a, reads (k a) (V' a)) → reads (m ≫= k) (λ d b, ∃ a, V d a ∧ V' a d b).
Proof.
  intros [Hq Hm] Hk. split; [apply quiet_io_bind; [done|intros a; apply Hk]|].
  intros w b. unfold mbind, io_bind. pose proof (Hq w) as Hc. pose proof (Hm w) as Hv.
  destruct (m w) as [[a|] w1]; cbn in *; [|done]. intros Hb. exists a. split; [by apply Hv|].
  injection Hc as Hd. rewrite <- Hd. by apply (Hk a).
Qed.
Lemma reads_look {A} (f : Disk → result A io_error) : reads (look f) (λ d r, r = f d ∨ r = Err OtherError).
Proof.
  split; [apply quiet_look|]. intros w a. unfold look, call, mbind, io_bind, next_verdict. cbn.
  destruct (default Good (head (w_verdicts w))); cbn; intros [= <-]; eauto.
Qed.
Lemma reads_try {A B} (m : IO (result A io_error)) (k : A → IO (result B io_error)) V V' :
  reads m V → (∀ a, reads (k a) (V' a)) →
  reads (try m k) (λ d r, match r with Ok b => ∃ a, V d (Ok a) ∧ V' a d (Ok b) | Err _ => True end).
Proof.
  intros Hm Hk. eapply reads_weaken; [|eapply reads_bind with (V' := λ r d s, match r with Ok a => V' a d s | Err e => s = Err e end)].
  - intros d [b|e]; [|done]. intros ([a|e] & Ha & Hb); [by eauto|done].
  - exact Hm.
  - intros [a|e]; [apply Hk|apply reads_ret].
Qed.
Lemma reads_fold {A B} (I : Disk → list A → B → Prop) (f : B → A → IO (result B io_error)) b l :
  (∀ done b a, reads (f b a) (λ d r, match r with Ok b' => I d done b → I d (done ++ [a]) b' | Err _ => True end)) →
  reads (fold_io f b l) (λ d r, match r with Ok b' => I d [] b → I d l b' | Err _ => True end).
Proof.
  intros Hf.
  assert (Hgen : ∀ l done b, reads (fold_io f b l) (λ d r, match r with Ok b' => I d done b → I d (done ++ l) b' | Err _ => True end)).
  { clear b l. induction l as [|a l IH]; intros done b; cbn [fold_io].
    - eapply reads_weaken; [|apply reads_ret]. intros d r ->. by rewrite app_nil_r.
    - eapply reads_weaken; [|eapply reads_try; [apply (Hf done)|intros b'; apply (IH (done ++ [a]))]].
      intros d [b''|e]; [|done]. intros (b' & H1' & H2') Hi. rewrite <- app_assoc in H2'. by apply H2', H1'. }
  apply (Hgen l []).
Qed.

Lemma spec_reads {A} (P : Core → Prop) (m : IO A) V (Q : A → Core → Prop) :
  reads m V → (∀ c, P c → disk_ok c) → (∀ c a, P c → V (c_disk c) a → Q a c) → spec P m Q.
Proof.
  intros [Hq Hm] HP HQ w Hw Hd. specialize (Hq w). rewrite (core_minted _ _ Hq) in Hd. rewrite Hq.
  specialize (Hw Hd). specialize (Hm w). destruct (m w).1 as [a|]; [|by apply HP]. apply HQ; [done|]. by apply Hm.
Qed.

Lemma reads_probe f : reads (probe f) (λ d b, b = true → f d = true).
Proof.
  unfold probe. eapply reads_weaken; [|eapply reads_bind; [apply reads_look|intros r; apply reads_ret]].
  intros d b (r & [->| ->] & ->); done.
Qed.
Lemma reads_is_dir p : reads (is_dir p) (λ d b, b = true → is_Some (files_at p d)).
Proof. eapply reads_weaken; [|apply reads_probe]. intros d b Hb Ht. specialize (Hb Ht). by apply bool_decide_eq_true in Hb. Qed.

Lemma found_Ok {A} (o : option A) a : found o = Ok a → o = Some a.
Proof. destruct o; cbn; congruence. Qed.

Lemma reads_read_file p name : reads (read_file p name) (λ d r, match r with
  | Ok x => file_at p name d = Some x | Err NotFound => file_at p name d = None | Err _ => True end).
Proof.
  eapply reads_weaken; [|apply reads_look]. intros d r [->| ->]; [|done]. by destruct (file_at p name d).
Qed.
Lemma reads_read_json {T} p name (decode : string → option T) : reads (read_json p name decode) (λ d r, match r with
  | Ok (Some v) => ∃ x, file_at p name d = Some x ∧ decode x = Some v
  | Ok None => file_at p name d = None
  | Err _ => True end).
Proof.
  unfold read_json. eapply reads_weaken; [|eapply reads_bind; [apply reads_read_file|intros r; apply reads_ret]].
  intros d r (s & Hs & ->). destruct s as [x|[]]; [|done|done].
  destruct (decode x) as [v|] eqn:Hv; [|done]. by exists x.
Qed.

(** The names of a directory, none left out. *)
Lemma reads_read_dir p : reads (read_dir p) (λ d r, match r with
  | Ok names => ∀ name, name ∈ names ↔ is_Some (file_at p name d) | Err _ => True end).
Proof.
  eapply reads_weaken; [|apply reads_look]. intros d r [->| ->]; [|done].
  destruct (files_at p d) as [f|] eqn:Hf; cbn; [|done]. intros name. unfold file_at. rewrite Hf. cbn.
  rewrite dir_list_spec. rewrite list_elem_of_fmap. split.
  - intros ([k v] & -> & Hin). apply elem_of_map_to_list in Hin. by eauto.
  - intros [v Hv]. exists (name, v). split; [done|]. by apply elem_of_map_to_list.
Qed.

Definition complete (p : Place) (d : Disk) (l : list (string * BatchKey)) : Prop :=
  (∀ name key, is_Some (file_at p name d) → parse_batch_name name = Some key → (name, key) ∈ l) ∧
  (∀ name key, (name, key) ∈ l → parse_batch_name name = Some key).

Lemma reads_next_entry : reads next_entry (λ _ _, True).
Proof. apply reads_quiet, quiet_look. Qed.

Lemma reads_batch_files p : reads (batch_files p) (λ d r, match r with Ok l => complete p d l | Err _ => True end).
Proof.
  unfold batch_files.
  set (I := λ (_ : Disk) (done : list string) (out : list (string * BatchKey)),
    ∀ name key, (name, key) ∈ out ↔ name ∈ done ∧ parse_batch_name name = Some key).
  eapply reads_weaken; [|eapply reads_try; [apply reads_read_dir|intros names; apply (reads_fold I)]].
  - intros d [l|e]; [|done]. intros (names & Hn & Hi).
    assert (Hl : I d names l) by (apply Hi; intros name key; rewrite !elem_of_nil; tauto).
    split; intros name key; [|intros Hin; apply (proj1 (Hl name key) Hin)].
    intros Hs Hk. apply Hl. split; [by apply Hn|done].
  - intros done b a. eapply reads_weaken; [|apply (reads_try _ _ _ (λ _ _ r, r = Ok (match parse_batch_name a with Some key => b ++ [(a, key)] | None => b end))
      reads_next_entry); intros _; apply reads_ret].
    intros d [b'|e]; [|done]. intros (_ & _ & [= ->]) Hi name key.
    assert (Ha : ∀ name' : string, name' ∈ done ++ [a] ↔ name' ∈ done ∨ name' = a).
    { intros. by rewrite elem_of_app, list_elem_of_singleton. }
    rewrite Ha. destruct (parse_batch_name a) as [k|] eqn:Hk.
    + rewrite elem_of_app, list_elem_of_singleton, (Hi name key). naive_solver.
    + rewrite (Hi name key). naive_solver.
Qed.

(** ** Writing *)

Lemma spec_remove (P : Core → Prop) p (Q : result unit io_error → Core → Prop) :
  (∀ c, P c → disk_ok c ∧ ∀ r, Q r c) →
  (∀ c d', P c → shrinks p (c_disk c) d' → disk_ok (with_disk d' c) ∧ ∀ r, Q r (with_disk d' c)) →
  spec P (remove_payload_dir p) Q.
Proof.
  intros Hsame Hsh. unfold remove_payload_dir.
  eapply spec_bind with (R := λ _ c, ∀ r, Q r c).
  - apply spec_call; simpl_core.
    + intros c Hp. destruct (files_at p (c_disk c)) eqn:Hf; simpl_core.
      * apply Hsh; [done|]. apply shrinks_remove. by rewrite Hf.
      * rewrite with_disk_same. by apply Hsame.
    + intros c Hp. by apply Hsame.
    + intros c keep Hp. apply Hsh; [done|apply shrinks_keep].
  - intros r. apply spec_ret. by intros c Hq.
Qed.

Lemma spec_remove_file (P : Core → Prop) p name (Q : result unit io_error → Core → Prop) :
  (∀ c, P c → disk_ok c ∧ ∀ r, Q r c) →
  (∀ c, P c → ∀ r, Q r (with_disk (change_file p name None (c_disk c)) c)) →
  spec P (remove_file p name) Q.
Proof.
  intros Hsame Hsh. apply spec_call; simpl_core.
  - intros c Hp. destruct (file_at p name (c_disk c)) eqn:Hf; simpl_core; [by apply Hsh|].
    rewrite with_disk_same. by apply Hsame.
  - intros c Hp. destruct (Hsame c Hp). by split.
  - intros c keep Hp. rewrite with_disk_same. destruct (Hsame c Hp). by split.
Qed.

Lemma spec_write_json P `{!Stable P} Q0 `{!Stable Q0} p name json :
  is_partial name = false →
  (∀ c, P c → disk_ok c) →
  (∀ c bytes, json = Some bytes → P c → is_Some (files_at p (c_disk c)) →
    Q0 (with_disk (change_file p name (Some bytes) (c_disk c)) c)) →
  spec P (write_json_atomic p name json) (λ r c, match r with Ok _ => Q0 c | Err _ => P c end).
Proof.
  intros Hn Hok Hdone. unfold write_json_atomic. destruct json as [bytes|]; [|by apply spec_ret].
  case_match; [by apply spec_ret|]. apply (spec_write_atomic P); [done|done| |done].
  intros c d' Hp Hs Ha. specialize (Hdone c bytes eq_refl Hp Hs). eapply stable in Hdone; [|exact Ha]. done.
Qed.

Lemma spec_write_receipt o m st key r :
  proper key →
  spec (λ c, held o m st c ∧ (rf_state r ≠ RPending → rf_period_id r ∈ c_disposed c) ∧
             ∀ id body, (key, (id, body)) ∈ c_accepted c → rf_period_id r = id ∧ rf_state r ≠ RPending)
    (write_receipt key r)
    (λ res c, match res with Ok _ => held o (<[key := r]> m) st c | Err _ => held o m st c end).
Proof.
  intros Hk. set (Pre := λ c, held o m st c ∧ (rf_state r ≠ RPending → rf_period_id r ∈ c_disposed c) ∧
             ∀ id body, (key, (id, body)) ∈ c_accepted c → rf_period_id r = id ∧ rf_state r ≠ RPending).
  assert (HS : Stable Pre).
  { intros c d' (Hh & Hd & Ha) Hag. split_and!; [by apply stable|done|done]. }
  eapply spec_weaken with (P := Pre) (Q := λ res c, match res with Ok _ => held o (<[key := r]> m) st c | Err _ => Pre c end).
  - done.
  - intros [|] c; [done|]. by intros [? _].
  - apply spec_write_json; [apply _|apply held_stable|apply not_partial_receipt|by intros c [[? _ _ _] _]|].
    intros c bytes Hj (Hh & Hd & Ha) Hs. apply receipt_back in Hj. by apply held_receipt.
Qed.

(** ** Finishing a period *)

Lemma complete_same p d d' l :
  (∀ name, is_partial name = false → file_at p name d' = file_at p name d) → complete p d l → complete p d' l.
Proof.
  intros Hf [Hc Hk]. split; [|done]. intros name key Hs Hp. apply Hc; [|done].
  rewrite Hf in Hs; [done|]. by apply parse_batch_name_inv in Hp as [? _].
Qed.

Section finalize.
Context (o : OpenPeriod) (m : Receipts) (st : CustodyStore → Prop).
Context (period : OpenPeriod) (l : list (string * BatchKey)).
Local Notation id := (op_id period).
Local Notation name := (final_name (op_start_ms period) id).
Local Notation staging := (".tmp-" +:+ name).
Local Notation sp := (In OutboxRoot staging).
Hypothesis Hstart : (0 ≤ op_start_ms period)%Z.
Hypothesis Hother : id ≠ op_id o.

Definition base (c : Core) : Prop := held o m st c ∧ id ∈ c_minted c.
Definition listed (c : Core) : Prop := base c ∧ complete (In OpenRoot id) (c_disk c) l.

Lemma base_ok c : base c → disk_ok c.
Proof. by intros [[? _ _ _] _]. Qed.
Lemma listed_ok c : listed c → disk_ok c.
Proof. intros [? _]. by apply base_ok. Qed.
#[local] Instance base_stable : Stable base.
Proof. intros c d' [Hh Hm] Ha. split; [by apply stable|done]. Qed.
#[local] Instance listed_stable : Stable listed.
Proof.
  intros c d' [Hb Hl] Ha. split; [by apply base_stable|]. eapply complete_same; [|done].
  intros n Hn. by apply (ag_file _ _ Ha).
Qed.

Lemma listed_staging c d' :
  same_view (c_disk c) d' → listed c → listed (with_disk d' c).
Proof.
  intros Hv [[Hh Hm] Hl]. split; [split; [by apply held_view|done]|]. eapply complete_same; [|done].
  intros n Hn. by apply (sv_file _ _ Hv).
Qed.
Lemma listed_change c n x : n ≠ TERMINAL_FILE → listed c → listed (with_disk (change_file sp n x (c_disk c)) c).
Proof. intros Hn. apply listed_staging. apply view_staging_change; [apply staging_is_staging|done]. Qed.

Lemma listed_shrink c d' : shrinks sp (c_disk c) d' → listed c → listed (with_disk d' c).
Proof.
  intros Hsh. apply listed_staging. pose proof (staging_is_staging name) as Hst. split.
  - intros p n Hn Hs. apply (sh_other_file _ _ _ Hsh). intros ->. specialize (Hs _ eq_refl). congruence.
  - intros p Hs. apply (sh_other_dir _ _ _ Hsh). intros ->. specialize (Hs _ eq_refl). congruence.
  - intros dir Hs Hn. destruct (decide (dir = staging)) as [->|Hne].
    + destruct (file_at sp TERMINAL_FILE d') eqn:He; [|done]. apply (sh_file _ _ _ Hsh) in He. congruence.
    + by rewrite (sh_other_file _ _ _ Hsh) by congruence.
Qed.

(** The open directory goes once its batches are elsewhere. *)
Lemma spec_remove_finished (Q : result unit io_error → Core → Prop) :
  (∀ c r, base c → Q r c) →
  spec (λ c, base c ∧ elsewhere c id) (remove_payload_dir (In OpenRoot id)) Q.
Proof.
  intros HQ. apply spec_remove.
  - intros c [Hb _]. split; [by apply base_ok|]. intros r. by apply HQ.
  - intros c d' [[Hh Hm] He] Hsh.
    assert (base (with_disk d' c)) by (split; [by eapply held_shrink_open|done]).
    split; [by apply base_ok|]. intros r. by apply HQ.
Qed.

Definition copying (done : list string) (acc : string) (c : Core) : Prop :=
  listed c ∧ file_at sp PAGES_FILE (c_disk c) = Some acc ∧
  ∀ n body, n ∈ done → is_partial n = false → file_at (In OpenRoot id) n (c_disk c) = Some body → carries acc body.

Lemma carries_app_r acc x body : carries acc body → carries (acc +:+ x) body.
Proof. intros (l1 & l2 & ->). exists l1, (l2 +:+ x). by rewrite !str_app_assoc. Qed.

Lemma spec_copy_batches names done acc :
  spec (copying done acc) (copy_batches (In OpenRoot id) sp names acc)
    (λ r c, match r with Ok acc' => copying (done ++ names) acc' c | Err _ => base c end).
Proof.
  revert done acc. induction names as [|n names IH]; intros done acc; cbn [copy_batches].
  { apply spec_ret. intros c. by rewrite app_nil_r. }
  eapply spec_try with (R := λ bytes c, copying done acc c ∧ file_at (In OpenRoot id) n (c_disk c) = Some bytes).
  { eapply spec_reads; [apply reads_read_file|by intros c [?%listed_ok _]|].
    intros c [bytes|[]] Hc Hf; [by split| |]; destruct Hc as [[? _] _]; done. }
  intros bytes. eapply spec_try with (R := λ _, copying (done ++ [n]) (acc +:+ bytes)).
  { apply spec_call; simpl_core.
    - intros c [(Hl & Hp & Hd) Hf]. split_and!; [by apply listed_change| |].
      + simpl_core. rewrite file_at_change. rewrite decide_True; [done|]. split_and!; try done. by eapply file_at_dir.
      + simpl_core. intros n' body Hn Hnp Hb. rewrite file_at_change in Hb. rewrite decide_False in Hb by (by intros [? _]).
        apply elem_of_app in Hn as [Hn|Hn%list_elem_of_singleton].
        * by apply carries_app_r, (Hd n').
        * subst n'. rewrite Hf in Hb. injection Hb as ->. exists acc, EmptyString. by rewrite str_app_nil_r.
    - intros c [(Hl & _) _]. split; [by apply listed_ok|by destruct Hl].
    - intros c keep [(Hl & _) _].
      assert (Hl' : listed (with_disk (change_file sp PAGES_FILE (Some (default EmptyString (head keep))) (c_disk c)) c)) by by apply listed_change.
      split; [by apply listed_ok|by destruct Hl']. }
  intros _. specialize (IH (done ++ [n]) (acc +:+ bytes)). by rewrite <- app_assoc in IH.
Qed.

(** What the copied pages mean for the period's batches. *)
Lemma copied_carry names acc c :
  copying names acc c → (∀ n key, (n, key) ∈ l → n ∈ names) →
  ∀ key body, (key, (id, body)) ∈ c_accepted c → pending (c_disk c) key →
  id ∈ c_half c ∨ body = EmptyString ∨ boxed (c_disk c) id body ∨ carries acc body.
Proof.
  intros ([[[Hd _ _ _] _] [Hc _]] & _ & Hall) Hn key body Hin (r & Hr & Hp).
  destruct (ok_accepted _ Hd key id body Hin) as (_ & _ & r' & Hr' & _ & Hk). rewrite Hr in Hr'. injection Hr' as <-.
  destruct (Hk Hp) as [?|[?|[[_ (n & Hf & Hpn)]|?]]]; [by left|by right; left| |by right; right; left].
  right; right; right. apply (Hall n); [|by apply (parse_batch_name_inv _ key)|done]. apply (Hn n key). apply Hc; [by rewrite Hf|done].
Qed.

Lemma carries_empty body : carries EmptyString body → body = EmptyString.
Proof. intros ([|] & [|] & He); cbn in He; [|by destruct body|done|done]. by rewrite str_app_nil_r in He. Qed.
End finalize.

Section finalize_spec.
Context (o : OpenPeriod) (m : Receipts) (st : CustodyStore → Prop) (period : OpenPeriod).
Local Notation id := (op_id period).
Local Notation name := (final_name (op_start_ms period) id).
Local Notation staging := (".tmp-" +:+ name).
Local Notation sp := (In OutboxRoot staging).
Hypothesis Hstart : (0 ≤ op_start_ms period)%Z.
Hypothesis Hother : id ≠ op_id o.
Local Notation base := (base o m st period).
Local Notation listed := (listed o m st period).
Local Notation copying := (copying o m st period).

Lemma copying_stable l names acc : Stable (copying l names acc).
Proof.
  intros c d' (Hl & Hp & Hd) Ha. split_and!.
  - by apply listed_stable.
  - simpl_core. by rewrite (ag_file _ _ Ha).
  - simpl_core. intros n body Hn Hnp Hf. apply (Hd n body Hn Hnp). by rewrite <- (ag_file _ _ Ha).
Qed.
Lemma copying_manifest l names acc c json :
  copying l names acc c → copying l names acc (with_disk (change_file sp PERIOD_FILE (Some json) (c_disk c)) c).
Proof.
  intros (Hl & Hp & Hd). split_and!.
  - by apply listed_change.
  - simpl_core. rewrite file_at_change. rewrite decide_False; [done|]. by intros (_ & ? & _).
  - simpl_core. intros n body Hn Hnp. rewrite file_at_change. rewrite decide_False by (by intros [? _]). by apply Hd.
Qed.

Definition with_manifest (l : list (string * BatchKey)) (names : list string) (acc : string) (meta : OutboxPeriodFile)
    (c : Core) : Prop :=
  copying l names acc c ∧
  ∃ json, file_at sp PERIOD_FILE (c_disk c) = Some json ∧ outbox_period_of json = Some meta.
Lemma with_manifest_stable l names acc meta : Stable (with_manifest l names acc meta).
Proof.
  intros c d' (Hc & json & Hf & Hj) Ha. split; [by apply copying_stable|]. exists json.
  simpl_core. by rewrite (ag_file _ _ Ha).
Qed.

Lemma spec_rename_finished l names acc meta :
  (∀ n key, (n, key) ∈ l → n ∈ names) →
  obf_period_id meta = id → obf_start_ms meta = op_start_ms period →
  obf_sha256 meta = hex (sha256_digest acc) → obf_size meta = Z.of_nat (String.length acc) →
  spec (with_manifest l names acc meta) (rename_dir OutboxRoot staging name)
    (λ r c, match r with Ok _ => base c ∧ elsewhere c id | Err _ => base c end).
Proof.
  intros Hn Hid Hst Hsha Hsz. apply spec_call; simpl_core.
  - intros c (Hc & json & Hj & Hm).
    assert (Hb : base c) by by destruct Hc as [[? _] _].
    destruct (files_at sp (c_disk c)) as [f|] eqn:Hf; simpl_core; [|by rewrite with_disk_same].
    destruct (files_at (In OutboxRoot name) (c_disk c)) as [g|] eqn:Hfree; simpl_core; [by rewrite with_disk_same|].
    assert (Hpages : f !! PAGES_FILE = Some acc) by (destruct Hc as (_ & Hp & _); unfold file_at in Hp; by rewrite Hf in Hp).
    assert (Hjson : f !! PERIOD_FILE = Some json) by (unfold file_at in Hj; by rewrite Hf in Hj).
    assert (Hall := copied_carry o m st period l names acc c Hc Hn).
    change (put_files (In OutboxRoot name) (Some f) (put_files sp None (c_disk c))) with (moved staging name f (c_disk c)).
    split; [split|].
    + eapply held_finish; try done; by destruct Hb.
    + by destruct Hb.
    + by eapply finish_elsewhere.
  - intros c (Hc & _). assert (Hb : base c) by by destruct Hc as [[? _] _]. split; [by eapply base_ok|done].
  - intros c keep (Hc & _). rewrite with_disk_same. assert (Hb : base c) by by destruct Hc as [[? _] _].
    split; [by eapply base_ok|done].
Qed.

Lemma spec_make_staging l :
  spec (listed l) (create_period_dir OutboxRoot staging)
    (λ r c, match r with Ok _ => listed l c ∧ is_Some (files_at sp (c_disk c)) | Err _ => base c end).
Proof.
  apply spec_call; simpl_core.
  - intros c Hl. set (d' := set_root OutboxRoot _ _).
    assert (Hd : files_at sp d' = Some (default ∅ (files_at sp (c_disk c)))).
    { unfold d', files_at, root_at, set_root. cbn -[String.app]. destruct (d_outbox (c_disk c)) as [b|]; cbn -[String.app].
      - destruct (b !! staging) eqn:Hb; cbn -[String.app]; [done|by rewrite lookup_insert_eq].
      - by rewrite lookup_empty, lookup_insert_eq. }
    assert (Ho : ∀ p, p ≠ sp → files_at p d' = files_at p (c_disk c)).
    { intros p Hp. unfold d'. destruct p as [[] dir|]; try done. unfold files_at, root_at, set_root. cbn -[String.app].
      assert (dir ≠ staging) by congruence.
      destruct (d_outbox (c_disk c)) as [b|]; cbn -[String.app].
      - destruct (b !! staging); [done|by rewrite lookup_insert_ne].
      - rewrite lookup_empty. by rewrite lookup_insert_ne. }
    assert (Hf : ∀ p n, file_at p n d' = file_at p n (c_disk c)).
    { intros p n. unfold file_at. destruct (decide (p = sp)) as [->|Hne]; [|by rewrite Ho].
      rewrite Hd. by destruct (files_at sp (c_disk c)). }
    destruct Hl as [[Hh Hm] Hc]. split; [|simpl_core; by rewrite Hd].
    split; [split; [|done]|eapply complete_same; [|done]; intros n _; apply Hf].
    apply held_same_files; [|done]. split; [done|intros; unfold receipt_at; by rewrite Hf| |by left; rewrite <- (Ho (In OpenRoot dir))].
    intros dir Hns. rewrite Ho; [done|]. intros He. pose proof (staging_is_staging name) as Hx. congruence.
  - intros c Hl. split; [by eapply listed_ok|by destruct Hl].
  - intros c keep Hl. rewrite with_disk_same. split; [by eapply listed_ok|by destruct Hl].
Qed.

Lemma spec_start_pages l :
  spec (λ c, listed l c ∧ is_Some (files_at sp (c_disk c))) (create_file sp PAGES_FILE)
    (λ r c, match r with Ok _ => copying l [] EmptyString c | Err _ => base c end).
Proof.
  apply spec_call; simpl_core.
  - intros c [Hl Hs]. destruct (files_at sp (c_disk c)) eqn:Hf; [|by destruct Hs].
    split_and!; [by apply listed_change| |].
    + simpl_core. rewrite file_at_change. rewrite decide_True; [done|]. by rewrite Hf.
    + by intros n body ?%not_elem_of_nil.
  - intros c [Hl _]. split; [by eapply listed_ok|by destruct Hl].
  - intros c keep [Hl _].
    assert (Hl' : listed l (with_disk (change_file sp PAGES_FILE (Some EmptyString) (c_disk c)) c)) by by apply listed_change.
    split; [by eapply listed_ok|by destruct Hl'].
Qed.

Lemma spec_drop_staging l (left : bool) :
  spec (listed l) (if left then remove_payload_dir sp else ok tt)
    (λ r c, match r with Ok _ => listed l c | Err _ => base c end).
Proof.
  destruct left; [|by apply spec_ret].
  apply spec_remove.
  - intros c Hl. split; [by eapply listed_ok|]. intros [|]; [done|by destruct Hl].
  - intros c d' Hl Hsh. assert (Hl' : listed l (with_disk d' c)) by by apply listed_shrink.
    split; [by eapply listed_ok|]. intros [|]; [done|by destruct Hl'].
Qed.

(** Pages without a byte: the staging directory and the open one both go. *)
Lemma copying_nothing l names c :
  (∀ n key, (n, key) ∈ l → n ∈ names) → copying l names EmptyString c → elsewhere c id.
Proof.
  intros Hn Hc key body Hin Hp.
  destruct (copied_carry _ _ _ _ _ _ _ _ Hc Hn key body Hin Hp) as [?|[?|[?|?%carries_empty]]];
    [by left|by right; left|by right; right|by right; left].
Qed.
Lemma elsewhere_shrink c d' : shrinks sp (c_disk c) d' → elsewhere c id → elsewhere (with_disk d' c) id.
Proof.
  intros Hsh Hel key body Hin Hp. simpl_core. rewrite (shrinks_pending _ _ _ _ _ Hsh) in Hp.
  destruct (Hel key body Hin Hp) as [?|[?|Hb]]; [by left|by right; left|right; right].
  destruct Hb as (s0 & pg & js & mt & Hs & Hb). exists s0, pg, js, mt. split; [done|].
  rewrite !(sh_other_file _ _ _ Hsh); [done| |]; intros He'; pose proof (final_name_not_staging s0 id Hs) as Hx;
    pose proof (staging_is_staging name); congruence.
Qed.
Lemma spec_remove_empty l names :
  (∀ n key, (n, key) ∈ l → n ∈ names) →
  spec (copying l names EmptyString) (remove_payload_dir sp)
    (λ r c, match r with Ok _ => base c ∧ elsewhere c id | Err _ => base c end).
Proof.
  intros Hn. apply spec_remove.
  - intros c Hc. pose proof (copying_nothing _ _ _ Hn Hc). destruct Hc as (Hl & _).
    split; [by eapply listed_ok|]. intros [|]; by destruct Hl.
  - intros c d' Hc Hsh. pose proof (elsewhere_shrink c d' Hsh (copying_nothing _ _ _ Hn Hc)).
    destruct Hc as (Hl & _). assert (Hl' : listed l (with_disk d' c)) by by apply listed_shrink.
    split; [by eapply listed_ok|]. intros [|]; by destruct Hl'.
Qed.

Theorem spec_finalize_dir end_ms : spec base (finalize_dir period id end_ms) (λ _, base).
Proof.
  unfold finalize_dir.
  eapply spec_bind with (R := λ there c, base c ∧ (there = true → is_Some (files_at (In OutboxRoot name) (c_disk c)))).
  { eapply spec_reads; [apply reads_is_dir|by intros c ?%base_ok|done]. }
  intros [|].
  { eapply spec_try with (R := λ _, base); [|intros _; by apply spec_ret].
    eapply spec_pre; [|apply (spec_remove_finished o m st); [done|]].
    - intros c [Hb Hf]. split; [done|]. intros key body. specialize (Hf eq_refl).
      apply (ok_finished _ (base_ok _ _ _ _ _ Hb) (op_start_ms period) id Hstart Hf).
    - by intros c [|]. }
  eapply spec_try with (R := listed).
  { eapply spec_reads; [apply reads_batch_files|by intros c [?%base_ok _]|].
    intros c [l|e] [Hb _] Hc; [by split|done]. }
  intros l. eapply spec_bind with (R := λ _, listed l).
  { eapply spec_reads; [apply reads_is_dir|by intros c ?%listed_ok|done]. }
  intros left. eapply spec_try; [apply spec_drop_staging|].
  intros []. eapply spec_try; [apply spec_make_staging|].
  intros []. eapply spec_try; [apply spec_start_pages|].
  intros []. eapply spec_try; [apply (spec_copy_batches o m st period l _ [])|].
  intros acc. cbn [app].
  assert (Hn : ∀ n key, (n, key) ∈ l → n ∈ merge_sort String.le l.*1).
  { intros n key Hin. rewrite merge_sort_Permutation. apply list_elem_of_fmap. by exists (n, key). }
  set (names := merge_sort String.le l.*1) in *.
  eapply spec_try with (R := λ _, copying l names acc).
  { apply spec_look; [by intros c (?%listed_ok & _)|done|by intros c ([? _] & _)]. }
  intros _. destruct (Z.eqb_spec (Z.of_nat (String.length acc)) 0) as [Hz|Hz].
  - assert (acc = EmptyString) as -> by (destruct acc; [done|cbn in Hz; lia]).
    eapply spec_try; [by apply spec_remove_empty|].
    intros []. eapply spec_try with (R := λ _, base); [|intros _; by apply spec_ret].
    apply (spec_remove_finished o m st); [done|]. by intros c [|].
  - destruct (namer _ _) as [day segment].
    set (meta := mkOutboxPeriodFile _ _ _ _ _ _ _).
    eapply spec_try with (R := λ _, with_manifest l names acc meta).
    + pose proof (copying_stable l names acc). pose proof (with_manifest_stable l names acc meta).
      eapply spec_post; [|apply (spec_write_json (copying l names acc) (with_manifest l names acc meta)); [done| |]].
      * intros [|] c; [done|]. by intros [[? _] _].
      * by intros c (?%listed_ok & _).
      * intros c bytes Hj Hc Hs. split; [by apply copying_manifest|]. exists bytes. simpl_core.
        rewrite file_at_change. rewrite decide_True by done. split; [done|]. by apply outbox_period_back.
    + intros _. eapply spec_try; [by apply spec_rename_finished|].
      intros []. eapply spec_try with (R := λ _, base); [|intros _; by apply spec_ret].
      apply (spec_remove_finished o m st); [done|]. by intros c [|].
Qed.
End finalize_spec.
End ops.
