(* ===== verification/CustodyMoves.v ===== *)
(** * The methods of the custody store keep its invariant

    The methods that add text: [rotate], [commit], [offer], [tick] and
    [finalize_now], each under any verdicts on its calls. *)
From Stdlib Require Import Ascii String.
From stdpp Require Import sorting.
From S2P Require Import Prelude RustStr PauseStore Ingest Admission Custody CustodyLogic CustodySteps CustodyOps.

Local Open Scope list_scope.

Definition with_store (st : CustodyStore) (c : Core) : Core :=
  mkCore (c_disk c) st (c_minted c) (c_accepted c) (c_disposed c) (c_half c).
Definition active_is (a : Active) (st : CustodyStore) : Prop := cu_active st = Some a.

Ltac simpl_all := cbn [c_disk c_store c_minted c_accepted c_disposed c_half with_disk with_store accept more_logs
  cu_policy cu_active cu_failed cu_full cu_counter ac_open ac_receipts ac_next_seq ac_reserved with_open with_receipt with_reserved
  op_id op_start_ms op_end_ms op_bytes op_contexts op_has_dir fst snd] in *.

(** Splits on what the computation looks at first. *)
Ltac spec_case :=
  match goal with
  | |- spec _ (match ?x with _ => _ end) _ => destruct x eqn:?
  end.

(** ** Walking through computations that only read, or accept nothing *)

Lemma quiet_probe f : quiet (probe f).
Proof. apply (reads_probe f). Qed.
Lemma quiet_filter {A} (f : A → IO bool) l : (∀ a, quiet (f a)) → quiet (filter_io f l).
Proof.
  intros Hf. induction l as [|a l IH]; cbn; [done|]. apply quiet_io_bind; [done|]. intros b.
  apply quiet_io_bind; [done|]. by intros rest.
Qed.
Lemma quiet_sum {A} (f : A → IO Z) l : (∀ a, quiet (f a)) → quiet (sum_io f l).
Proof.
  intros Hf. induction l as [|a l IH]; cbn; [done|]. apply quiet_io_bind; [done|]. intros b.
  apply quiet_io_bind; [done|]. by intros rest.
Qed.
Lemma quiet_collect {A B} (f : A → IO (option B)) l : (∀ a, quiet (f a)) → quiet (collect_io f l).
Proof.
  intros Hf. induction l as [|a l IH]; cbn; [done|]. apply quiet_io_bind; [done|]. intros b.
  apply quiet_io_bind; [done|]. by intros rest.
Qed.

Create HintDb quiet.
Ltac quiet_step :=
  match goal with
  | |- quiet (mret _) => apply quiet_io_ret
  | |- quiet (ok _) => apply quiet_io_ret
  | |- quiet panic => apply quiet_panic
  | |- quiet (getw _) => apply quiet_getw
  | |- quiet (look _) => apply quiet_look
  | |- quiet (probe _) => apply quiet_probe
  | |- quiet (_ ≫= _) => apply quiet_io_bind; [|intros ?]
  | |- quiet (try _ _) => apply quiet_try; [|intros ?]
  | |- quiet (filter_io _ _) => apply quiet_filter; intros ?
  | |- quiet (sum_io _ _) => apply quiet_sum; intros ?
  | |- quiet (collect_io _ _) => apply quiet_collect; intros ?
  | |- quiet (fold_io _ _ _) => apply quiet_fold; intros ? ?
  | |- quiet (match ?x with _ => _ end) => destruct x
  | |- quiet _ => solve [auto with quiet]
  end.
Ltac quiet_walk := repeat quiet_step.

Create HintDb calm.
Lemma calm_next_token : calm next_token.
Proof. by intros w. Qed.
Lemma calm_note_minted id : calm (note_minted id).
Proof. intros w. cbn. split; [by intros [_ ?]%NoDup_cons|done]. Qed.
Ltac calm_step :=
  match goal with
  | |- calm (_ ≫= _) => apply calm_bind; [|intros ?]
  | |- calm (try _ _) => apply calm_try; [|intros ?]
  | |- calm (call _ _) => apply calm_call
  | |- calm (fold_io _ _ _) => solve [auto with calm]
  | |- calm (fold_io _ _ _) => apply calm_fold; intros ? ?
  | |- calm (match ?x with _ => _ end) => destruct x
  | |- calm (let '_ := ?x in _) => destruct x
  | |- calm (store_with _) => by intros w
  | |- calm (putw _) => by intros w
  | |- calm _ => solve [apply calm_quiet; quiet_walk]
  | |- calm _ => solve [auto with calm]
  end.
Ltac calm_walk := repeat calm_step.

Section moves.
Context `{CustodyLib} `{!CustodyLaws} `{DirOrder} `{HashOrder}.

Lemma Inv_disk c : Inv c → disk_ok c.
Proof. by intros [? _]. Qed.
Lemma disk_ok_store st c : disk_ok c → disk_ok (with_store st c).
Proof. intros [Ha Hon Hfi Hm Hx Hk Hs Hmi Hz]. by split. Qed.
Lemma open_ok_store st c o : open_ok c o → open_ok (with_store st c) o.
Proof. intros [? ? ? ?]. by split. Qed.
Lemma receipts_ok_store st c m : receipts_ok c m → receipts_ok (with_store st c) m.
Proof. intros [? ?]. by split. Qed.

Lemma Inv_held c a : Inv c → cu_active (c_store c) = Some a →
  held (ac_open a) (ac_receipts a) (active_is a) c ∧ (0 ≤ ac_next_seq a)%Z.
Proof. intros [Hd Hm] Ha. destruct (Hm a Ha) as (? & ? & ?). by split. Qed.
Lemma held_Inv c a st : held (ac_open a) (ac_receipts a) st c → (0 ≤ ac_next_seq a)%Z →
  cu_active (c_store c) = Some a → Inv c.
Proof.
  intros [Hd Ho Hr _] Hs Ha. split; [done|]. intros a' Ha'. rewrite Ha in Ha'. injection Ha' as <-. by split_and!.
Qed.
(** New memory for the same disk. *)
Lemma held_store o m P st c : held o m P c → held o m (λ _, True) (with_store st c).
Proof.
  intros [Hd Ho Hr _]. split; [by apply disk_ok_store|by apply open_ok_store|by apply receipts_ok_store|done].
Qed.
Lemma held_to_Inv o m P st c a : held o m P c → cu_active st = Some a → ac_open a = o → ac_receipts a = m →
  (0 ≤ ac_next_seq a)%Z → Inv (with_store st c).
Proof.
  intros Hh Ha <- <- Hs. eapply held_Inv; [by eapply held_store|done|done].
Qed.
(** Memory in which the open period keeps its identity. *)
Lemma open_ok_same c o o' : op_id o' = op_id o → op_start_ms o' = op_start_ms o →
  (op_has_dir o' = true → op_has_dir o = true) → open_ok c o → open_ok c o'.
Proof.
  intros Hi Hs Hh [Hm Hst Hu Hd]. split; rewrite ?Hi, ?Hs; try done. intros ?. by apply Hd, Hh.
Qed.
Lemma held_open_same o o' m P c : op_id o' = op_id o → op_start_ms o' = op_start_ms o →
  (op_has_dir o' = true → op_has_dir o = true) → held o m P c → held o' m P c.
Proof. intros ? ? ? [? ? ? ?]. split; try done. by eapply open_ok_same. Qed.

(** ** Specifications of the memory's primitives *)

Lemma spec_panic {A} (P : Core → Prop) (Q : A → Core → Prop) : (∀ c, P c → disk_ok c) → spec P panic Q.
Proof. intros HP w Hw Hd. cbn in *. eauto. Qed.
Lemma spec_policy (P : Core → Prop) : spec P policy (λ p c, P c ∧ p = cu_policy (c_store c)).
Proof. intros w Hw Hd. cbn in *. by split; [apply Hw|]. Qed.
Lemma spec_active (P : Core → Prop) : spec P active (λ a c, P c ∧ a = cu_active (c_store c)).
Proof. intros w Hw Hd. cbn in *. by split; [apply Hw|]. Qed.
Lemma spec_store_with (P : Core → Prop) f (Q : unit → Core → Prop) :
  (∀ c, P c → Q tt (with_store (f (c_store c)) c)) → spec P (store_with f) Q.
Proof. intros HQ w Hw Hd. cbn in *. apply (HQ (core w)), Hw, Hd. Qed.
Lemma spec_set_active (P : Core → Prop) a (Q : unit → Core → Prop) :
  (∀ c st, P c → cu_active st = a → cu_failed st = cu_failed (c_store c) → Q tt (with_store st c)) →
  spec P (set_active a) Q.
Proof. intros HQ. apply spec_store_with. intros c Hp. by apply HQ. Qed.
Lemma spec_on_active (P : Core → Prop) f (Q : unit → Core → Prop) :
  (∀ c, P c → disk_ok c) →
  (∀ c a st, P c → cu_active (c_store c) = Some a → cu_active st = Some (f a) → Q tt (with_store st c)) →
  spec P (on_active f) Q.
Proof.
  intros HP HQ. unfold on_active. eapply spec_bind; [apply spec_active|]. intros [a|].
  - apply spec_set_active. intros c st [Hp Ha] Hst _. by eapply HQ.
  - apply spec_panic. intros c [Hp _]. by apply HP.
Qed.
Lemma spec_note_minted (P : Core → Prop) id (Q : unit → Core → Prop) :
  (∀ c, P c → id ∉ c_minted c → Q tt (more_logs [id] [] [] c)) → spec P (note_minted id) Q.
Proof.
  intros HQ w Hw Hd. cbn in *. apply NoDup_cons in Hd as [Hn Hd]. apply (HQ (core w)); [by apply Hw|done].
Qed.
Lemma spec_note_disposed (P : Core → Prop) id (Q : unit → Core → Prop) :
  (∀ c, P c → Q tt (more_logs [] [id] [] c)) → spec P (note_disposed id) Q.
Proof. intros HQ w Hw Hd. cbn in *. apply (HQ (core w)), Hw, Hd. Qed.
Lemma spec_note_half (P : Core → Prop) id (Q : unit → Core → Prop) :
  (∀ c, P c → Q tt (more_logs [] [] [id] c)) → spec P (note_half id) Q.
Proof. intros HQ w Hw Hd. cbn in *. apply (HQ (core w)), Hw, Hd. Qed.
Lemma spec_note_accepted (P : Core → Prop) key id body (Q : unit → Core → Prop) :
  (∀ c, P c → Q tt (accept key id body c)) → spec P (note_accepted key id body) Q.
Proof. intros HQ w Hw Hd. cbn in *. apply (HQ (core w)), Hw, Hd. Qed.

Lemma Inv_more minted disposed half c : Inv c → Inv (more_logs minted disposed half c).
Proof.
  intros [Hd Hm]. split; [by apply disk_ok_more|]. intros a Ha. destruct (Hm a Ha) as (Ho & Hr & Hs).
  assert (Hh : held (ac_open a) (ac_receipts a) (λ _, True) c) by by split.
  apply (held_more _ _ _ minted disposed half) in Hh as [_ ? ? _]. by split_and!.
Qed.

(** ** Computations that only read *)

Lemma quiet_read_file p name : quiet (read_file p name).
Proof. apply quiet_look. Qed.
Lemma quiet_is_dir p : quiet (is_dir p).
Proof. apply quiet_probe. Qed.
Lemma quiet_file_exists p name : quiet (file_exists p name).
Proof. apply quiet_probe. Qed.
Lemma quiet_read_dir p : quiet (read_dir p).
Proof. apply quiet_look. Qed.
Lemma quiet_read_root r : quiet (read_root r).
Proof. apply quiet_look. Qed.
Lemma quiet_next_entry : quiet next_entry.
Proof. apply quiet_look. Qed.
#[local] Hint Resolve quiet_read_file quiet_is_dir quiet_file_exists quiet_read_dir quiet_read_root quiet_next_entry : quiet.
Lemma quiet_read_json {T} p name (decode : string → option T) : quiet (read_json p name decode).
Proof. unfold read_json. quiet_walk. Qed.
Lemma quiet_batch_files p : quiet (batch_files p).
Proof. unfold batch_files. quiet_walk. Qed.
Lemma quiet_list_dirs r : quiet (list_dirs r).
Proof. unfold list_dirs. quiet_walk. Qed.
Lemma quiet_file_len p name : quiet (file_len p name).
Proof. unfold file_len. quiet_walk. Qed.
#[local] Hint Resolve quiet_read_json quiet_batch_files quiet_list_dirs quiet_file_len : quiet.
Lemma quiet_dir_payload_bytes p : quiet (dir_payload_bytes p).
Proof. unfold dir_payload_bytes. quiet_walk. Qed.
Lemma quiet_dir_file_bytes p : quiet (dir_file_bytes p).
Proof. unfold dir_file_bytes. quiet_walk. Qed.
#[local] Hint Resolve quiet_dir_payload_bytes quiet_dir_file_bytes : quiet.
Lemma quiet_root_payload_bytes r : quiet (root_payload_bytes r).
Proof. unfold root_payload_bytes. quiet_walk. Qed.
Lemma quiet_receipt_bytes : quiet receipt_bytes.
Proof.
  unfold receipt_bytes. quiet_step; [quiet_walk|]. destruct a as [names|]; [|quiet_walk].
  induction names; quiet_walk.
Qed.
Lemma quiet_period_bytes dirs : quiet (period_bytes dirs).
Proof. induction dirs; cbn; quiet_walk. Qed.
Lemma quiet_dirs_or_none r : quiet (dirs_or_none r).
Proof. unfold dirs_or_none. quiet_walk. Qed.
#[local] Hint Resolve quiet_root_payload_bytes quiet_receipt_bytes quiet_period_bytes quiet_dirs_or_none : quiet.
Lemma quiet_spool_bytes : quiet spool_bytes.
Proof. unfold spool_bytes. quiet_walk. Qed.
Lemma quiet_blocked id : quiet (blocked_by_terminal id).
Proof. unfold blocked_by_terminal, open_has_terminal_batch, active. quiet_walk. Qed.
Lemma quiet_outbox_entry name : quiet (outbox_entry name).
Proof. unfold outbox_entry. quiet_walk. Qed.
#[local] Hint Resolve quiet_spool_bytes quiet_blocked quiet_outbox_entry : quiet.
Lemma quiet_all_outbox : quiet all_outbox.
Proof. unfold all_outbox. quiet_walk. Qed.
#[local] Hint Resolve quiet_all_outbox : quiet.
Lemma quiet_waiting : quiet waiting.
Proof. unfold waiting, active. quiet_walk. Qed.

(** ** Computations that accept nothing *)

Lemma calm_write_bytes p name bytes : calm (write_bytes_atomic p name bytes).
Proof. unfold write_bytes_atomic, create_file, write_all, sync_all, rename_file, remove_file. calm_walk. Qed.
#[local] Hint Resolve calm_next_token calm_note_minted calm_write_bytes : calm.
Lemma calm_write_json p name json : calm (write_json_atomic p name json).
Proof. unfold write_json_atomic. calm_walk. Qed.
Lemma calm_remove_dir p : calm (remove_payload_dir p).
Proof. unfold remove_payload_dir, remove_dir_all. calm_walk. Qed.
Lemma calm_copy from to names acc : calm (copy_batches from to names acc).
Proof. revert acc. induction names as [|n names IH]; intros acc; cbn [copy_batches]; [calm_walk|]. unfold write_all. calm_walk. Qed.
#[local] Hint Resolve calm_write_json calm_remove_dir calm_copy : calm.
Lemma calm_finalize_dir period dir end_ms : calm (finalize_dir period dir end_ms).
Proof. unfold finalize_dir, create_period_dir, create_file, sync_all, rename_dir. calm_walk. Qed.

Lemma spec_quiet_Inv {A} (m : IO A) : quiet m → spec Inv m (λ _, Inv).
Proof. intros Hq. apply spec_quiet; [done|apply Inv_disk]. Qed.

Lemma Inv_store st c : Inv c → cu_active st = cu_active (c_store c) → Inv (with_store st c).
Proof.
  intros [Hd Hm] Ha. split; [by apply disk_ok_store|]. intros a Ha'. simpl_all. rewrite Ha in Ha'.
  destruct (Hm a Ha') as (? & ? & ?). split_and!; [by apply open_ok_store|by apply receipts_ok_store|done].
Qed.
(** Changes of the memory that touch neither the open period nor receipts. *)
Lemma Inv_active_same st c a a' : Inv c → cu_active (c_store c) = Some a → cu_active st = Some a' →
  op_id (ac_open a') = op_id (ac_open a) → op_start_ms (ac_open a') = op_start_ms (ac_open a) →
  (op_has_dir (ac_open a') = true → op_has_dir (ac_open a) = true) →
  ac_receipts a' = ac_receipts a → (0 ≤ ac_next_seq a')%Z → Inv (with_store st c).
Proof.
  intros Hi Ha Ha' Hid Hst Hdir Hr Hs. destruct (Inv_held _ _ Hi Ha) as [Hh _].
  eapply (held_to_Inv (ac_open a') (ac_receipts a)); [|done|done|done|done]. by eapply held_open_same.
Qed.

(** The flag that the spool is full is not part of any promise. *)
Class FullFree (P : Core → Prop) : Prop :=
  full_free : ∀ c st, P c → cu_active st = cu_active (c_store c) → P (with_store st c).
#[local] Instance Inv_full_free : FullFree Inv.
Proof. intros c st. apply Inv_store. Qed.

Lemma spec_set_full P `{!FullFree P} b : spec P (set_full b) (λ _, P).
Proof. apply spec_store_with. intros c Hi. by apply full_free. Qed.
Lemma spec_refresh_full P `{!FullFree P} : (∀ c, P c → disk_ok c) → spec P refresh_full (λ _, P).
Proof.
  intros HP. unfold refresh_full. eapply spec_bind; [apply spec_quiet; [apply quiet_spool_bytes|done]|]. intros n.
  eapply spec_bind with (R := λ _, P); [eapply spec_post; [|apply spec_policy]; by intros ? ? [? _]|].
  intros p. case_match; [by apply spec_set_full|by apply spec_ret].
Qed.

(** ** Opening a period *)

(** A period nobody has seen before. *)
Record fresh_open (o : OpenPeriod) (c : Core) : Prop := {
  fo_ok : open_ok c o;
  fo_dir : op_has_dir o = false;
  fo_no_dir : files_at (In OpenRoot (op_id o)) (c_disk c) = None;
  fo_new : ∀ a, cu_active (c_store c) = Some a → op_id (ac_open a) ≠ op_id o
}.

Lemma floor_nonneg now p : (0 ≤ now)%Z → (0 ≤ now - now mod p)%Z.
Proof.
  intros Hn. destruct (Z.lt_trichotomy p 0) as [Hp|[->|Hp]].
  - pose proof (Z.mod_neg_bound now p Hp). lia.
  - rewrite Zmod_0_r. lia.
  - pose proof (Z.mod_le now p Hn Hp). lia.
Qed.

Lemma spec_new_open now early a :
  (0 ≤ now)%Z →
  spec (λ c, Inv c ∧ cu_active (c_store c) = a) (new_open now early)
    (λ o c, Inv c ∧ cu_active (c_store c) = a ∧ fresh_open o c).
Proof.
  intros Hnow. unfold new_open.
  eapply spec_bind with (R := λ _ c, Inv c ∧ cu_active (c_store c) = a).
  { eapply spec_post; [|apply spec_policy]. by intros ? ? [? _]. }
  intros p. eapply spec_bind with (R := λ _ c, Inv c ∧ cu_active (c_store c) = a).
  { intros w Hw Hd. cbn in *. destruct (Hw Hd) as (Hi & Ha). split; [|done].
    by apply (Inv_store (mkCustodyStore _ _ _ _ _) (core w)). }
  intros token. set (id := fmt_dec _ +:+ _).
  eapply spec_bind with (R := λ _ c, Inv c ∧ cu_active (c_store c) = a ∧ fresh_open (mkOpenPeriod id 0 0 0 ∅ false) c).
  { apply spec_note_minted. intros c (Hi & Ha) Hn. pose proof Hi as [Hd Hm].
    split_and!; [by apply Inv_more|done|]. split; simpl_all; [|done| |].
    - split; simpl_all; [set_solver|done| |done]. intros start Hst. apply eq_None_not_Some. intros Hf.
      by destruct (ok_finished _ Hd start id Hst Hf).
    - apply eq_None_not_Some. by intros Hf%(ok_open_minted _ Hd).
    - intros x Hx. destruct (Hm x Hx) as ([Hox _ _ _] & _). congruence. }
  intros _. apply spec_ret. intros c (Hi & Ha & [[Ho1 _ Ho3 _] _ Hf Hx]). split_and!; [done|done|].
  split; simpl_all; try done. split; simpl_all; try done.
  destruct early; [done|by apply floor_nonneg].
Qed.

(** ** Rotation *)

Lemma open_id_with_dir_Some a id : open_id_with_dir a = Some id →
  ∃ x, a = Some x ∧ op_has_dir (ac_open x) = true ∧ id = op_id (ac_open x).
Proof. destruct a as [x|]; [|done]. cbn. destruct (op_has_dir (ac_open x)) eqn:Hd; [|done]. intros [= <-]. by exists x. Qed.

Lemma spec_rotate now early : (0 ≤ now)%Z → spec Inv (rotate now early) (λ _, Inv).
Proof.
  intros Hnow. unfold rotate. eapply spec_bind; [apply spec_active|]. intros a.
  eapply spec_bind with (R := λ _ c, Inv c ∧ cu_active (c_store c) = a).
  { eapply spec_pre; [|apply spec_quiet; [apply quiet_blocked|by intros c [?%Inv_disk _]]]. by intros c [? ->]. }
  intros [|]; [by apply spec_ret; intros c [? _]|].
  eapply spec_bind; [by apply spec_new_open|]. intros next.
  destruct a as [a|]; [|apply spec_panic; by intros c [?%Inv_disk _]].
  set (a' := with_open (λ _, next) a).
  eapply spec_bind with (R := λ _ c, held next (ac_receipts a) (active_is a') c ∧ op_id (ac_open a) ∈ c_minted c ∧
    op_id (ac_open a) ≠ op_id next ∧ (0 ≤ op_start_ms (ac_open a))%Z ∧ (0 ≤ ac_next_seq a)%Z).
  { apply spec_set_active. intros c st (Hi & Ha & [Ho Hdir Hnd Hnew]) Hst _.
    destruct (Inv_held _ _ Hi Ha) as [[Hd [Hm Hs _ _] Hr _] Hseq]. split_and!; try done; [|by apply Hnew].
    split; [by apply disk_ok_store|by apply open_ok_store|by apply receipts_ok_store|done]. }
  intros _. destruct (op_has_dir (ac_open a)).
  2: { apply spec_ret. intros c (Hh & _ & _ & _ & Hseq). eapply (held_Inv c a'); [done|done|apply Hh]. }
  set (φ := op_id (ac_open a) ≠ op_id next ∧ (0 ≤ op_start_ms (ac_open a))%Z ∧ (0 ≤ ac_next_seq a)%Z).
  set (fin := base next (ac_receipts a) (active_is a') (ac_open a)).
  assert (Hend : ∀ c, φ ∧ fin c → Inv c).
  { intros c [(_ & _ & Hseq) [Hh _]]. eapply (held_Inv c a'); [done|done|apply Hh]. }
  eapply spec_try with (R := λ _ c, φ ∧ fin c).
  { eapply spec_pre with (P := λ c, φ ∧ fin c); [intros c (? & ? & ? & ? & ?); by split|].
    eapply spec_post; [|apply (spec_pure φ fin); [apply calm_finalize_dir|intros (? & ? & _); by apply spec_finalize_dir]].
    intros [|] c; [done|apply Hend]. }
  intros size. eapply spec_bind with (R := λ _, Inv).
  { apply spec_on_active; [intros c ?%Hend; by apply Inv_disk|]. intros c x st Hc Hx Hst.
    pose proof (Hend c Hc) as Hi. destruct (Inv_held _ _ Hi Hx) as [_ Hseq].
    by eapply (Inv_active_same _ _ x). }
  intros _. eapply spec_bind with (R := λ _, Inv); [|intros _; by apply spec_ret].
  case_match; [apply spec_refresh_full; [apply _|apply Inv_disk]|by apply spec_ret].
Qed.

Lemma spec_custody_tick now : (0 ≤ now)%Z → spec Inv (custody_tick now) (λ _, Inv).
Proof.
  intros Hnow. unfold custody_tick. eapply spec_bind; [apply spec_active|]. intros [a|]; [|by apply spec_ret; intros c [? _]].
  case_match; [by apply spec_ret; intros c [? _]|].
  eapply spec_bind with (R := λ _, Inv); [|intros ?; by apply spec_ret]. eapply spec_pre; [|by apply spec_rotate]. by intros c [? _].
Qed.
Lemma spec_finalize_now now : (0 ≤ now)%Z → spec Inv (finalize_now now) (λ _, Inv).
Proof.
  intros Hnow. unfold finalize_now. eapply spec_bind; [apply spec_active|]. intros a.
  case_match; [|by apply spec_ret; intros c [? _]].
  eapply spec_bind with (R := λ _, Inv); [|intros ?; by apply spec_ret]. eapply spec_pre; [|by apply spec_rotate]. by intros c [? _].
Qed.

(** ** Committing a batch *)

Definition fresh_key (key : BatchKey) (l : list (BatchKey * (string * string))) : Prop := ∀ id b, (key, (id, b)) ∉ l.

Lemma batch_name_not_period seq key : (0 ≤ seq)%Z → proper key → batch_name seq key ≠ PERIOD_FILE.
Proof.
  intros Hs Hk He. pose proof (parse_batch_name_of seq key Hs Hk) as Hp. rewrite He in Hp. by vm_compute in Hp.
Qed.

(** The open period gets its directory and manifest. *)
Definition opened (a : Active) : Active :=
  with_open (λ o, mkOpenPeriod (op_id o) (op_start_ms o) (op_end_ms o) (op_bytes o) (op_contexts o) true) a.
Lemma opened_same a : op_has_dir (ac_open a) = true → opened a = a.
Proof. destruct a as [[] ? ? ?]. cbn. by intros ->. Qed.

Definition holding (a : Active) (key : BatchKey) (c : Core) : Prop :=
  held (ac_open a) (ac_receipts a) (active_is a) c ∧ (0 ≤ ac_next_seq a)%Z ∧ fresh_key key (c_accepted c).
#[local] Instance holding_stable a key : Stable (holding a key).
Proof. intros c d' (Hh & Hs & Hf) Ha. split_and!; [by apply held_stable|done|done]. Qed.
Lemma holding_Inv a key c : holding a key c → Inv c.
Proof. intros (Hh & Hs & _). eapply held_Inv; [done|done|apply Hh]. Qed.
Lemma holding_disk a key c : holding a key c → disk_ok c.
Proof. intros Hh. by apply Inv_disk, (holding_Inv a key). Qed.

Lemma spec_make_open_dir a key :
  spec (holding a key) (create_period_dir OpenRoot (op_id (ac_open a)))
    (λ r c, holding a key c).
Proof.
  apply spec_call; simpl_core.
  - intros c (Hh & Hs & Hf). split_and!; [|done|done]. set (d' := set_root OpenRoot _ _).
    assert (Ho : ∀ p, p ≠ In OpenRoot (op_id (ac_open a)) → files_at p d' = files_at p (c_disk c)).
    { intros p Hp. unfold d'. destruct p as [[] dir|]; try done. unfold files_at, root_at, set_root. cbn.
      assert (dir ≠ op_id (ac_open a)) by congruence. destruct (d_open (c_disk c)) as [b|]; cbn.
      - destruct (b !! op_id (ac_open a)); [done|by rewrite lookup_insert_ne].
      - rewrite lookup_empty. by rewrite lookup_insert_ne. }
    assert (Hd : files_at (In OpenRoot (op_id (ac_open a))) d' = Some (default ∅ (files_at (In OpenRoot (op_id (ac_open a))) (c_disk c)))).
    { unfold d', files_at, root_at, set_root. cbn. destruct (d_open (c_disk c)) as [b|]; cbn.
      - destruct (b !! op_id (ac_open a)) eqn:Hb; cbn; [done|by rewrite lookup_insert_eq].
      - by rewrite lookup_empty, lookup_insert_eq. }
    apply held_same_files; [|done]. split; [| | |].
    + intros r dir n. unfold file_at. destruct (decide (In r dir = In OpenRoot (op_id (ac_open a)))) as [->|Hne]; [|by rewrite Ho].
      rewrite Hd. by destruct (files_at (In OpenRoot (op_id (ac_open a))) (c_disk c)).
    + intros k. unfold receipt_at, file_at. by rewrite Ho.
    + intros dir _. by rewrite Ho.
    + intros dir. destruct (decide (dir = op_id (ac_open a))) as [->|Hne]; [intros _; right; apply (oo_minted _ _ (hd_open _ _ _ _ Hh))|].
      rewrite Ho by congruence. by left.
  - intros c Hh. split; [by eapply holding_disk|done].
  - intros c keep Hh. rewrite with_disk_same. split; [by eapply holding_disk|done].
Qed.

Lemma spec_open_manifest a key :
  spec (holding a key)
    (write_json_atomic (In OpenRoot (op_id (ac_open a))) PERIOD_FILE
       (open_period_json (mkOpenPeriodFile (op_id (ac_open a)) (op_start_ms (ac_open a)) (op_end_ms (ac_open a)))))
    (λ r c, match r with
            | Ok _ => holding a key c ∧ is_Some (file_at (In OpenRoot (op_id (ac_open a))) PERIOD_FILE (c_disk c))
            | Err _ => holding a key c end).
Proof.
  assert (Hst : Stable (λ c, holding a key c ∧ is_Some (file_at (In OpenRoot (op_id (ac_open a))) PERIOD_FILE (c_disk c)))).
  { intros c d' [Hh Hf] Ha. split; [by apply holding_stable|]. simpl_core. by rewrite (ag_file _ _ Ha). }
  apply spec_write_json; [apply _|done|done|apply holding_disk|].
  intros c bytes Hj (Hh & Hs & Hf) Hd. apply open_period_back in Hj. split.
  - split_and!; [|done|done]. apply held_open_file; [|by intros ? ? ? ? ?|done].
    intros _. eexists _, _. split_and!; [done|done|done|]. cbn. apply Hh.
  - simpl_core. rewrite file_at_change. rewrite decide_True by done. by eauto.
Qed.

Lemma spec_open_dir a key :
  spec (holding a key)
    (if op_has_dir (ac_open a) then ok tt
     else
       _ ←? create_period_dir OpenRoot (op_id (ac_open a));
       _ ←? write_json_atomic (In OpenRoot (op_id (ac_open a))) PERIOD_FILE
              (open_period_json (mkOpenPeriodFile (op_id (ac_open a)) (op_start_ms (ac_open a)) (op_end_ms (ac_open a))));
       _ ← on_active (with_open (λ o,
             mkOpenPeriod (op_id o) (op_start_ms o) (op_end_ms o) (op_bytes o) (op_contexts o) true));
       ok tt)
    (λ r c, match r with Ok _ => holding (opened a) key c | Err _ => Inv c end).
Proof.
  destruct (op_has_dir (ac_open a)) eqn:Hdir; [apply spec_ret; intros c; by rewrite opened_same|].
  eapply spec_try with (R := λ _, holding a key).
  { eapply spec_post; [|apply spec_make_open_dir]. intros [|] c Hh; [done|by eapply holding_Inv]. }
  intros _. eapply spec_try with (R := λ _ c, holding a key c ∧ is_Some (file_at (In OpenRoot (op_id (ac_open a))) PERIOD_FILE (c_disk c))).
  { eapply spec_post; [|apply spec_open_manifest]. intros [|] c Hh; [done|by eapply holding_Inv]. }
  intros _. eapply spec_bind with (R := λ _, holding (opened a) key); [|intros _; by apply spec_ret].
  apply spec_on_active; [by intros c [?%holding_disk _]|].
  intros c x st [(Hh & Hs & Hf) Hp] Hx Hst. assert (x = a) as -> by (destruct Hh as [_ _ _ Ha]; unfold active_is in Ha; congruence).
  destruct Hh as [Hd [Hm Hsm Hu _] Hr _]. split_and!; [|done|done].
  split; [by apply disk_ok_store| |by apply receipts_ok_store|done]. split; simpl_all; try done. by right.
Qed.

(** The batch's file. *)
Definition written (a : Active) (key : BatchKey) (body : string) (c : Core) : Prop :=
  holding a key c ∧ (op_id (ac_open a) ∈ c_half c ∨ in_open (c_disk c) key (op_id (ac_open a)) body).
#[local] Instance written_stable a key body : Stable (written a key body).
Proof.
  intros c d' [Hh Hk] Ha. split; [by apply holding_stable|]. destruct Hk as [?|?]; [by left|right].
  eapply view_in_open; [by apply agree_view|done].
Qed.

Lemma spec_write_batch a key body :
  proper key → op_has_dir (ac_open a) = true →
  spec (holding a key) (write_bytes_atomic (In OpenRoot (op_id (ac_open a))) (batch_name (ac_next_seq a) key) body)
    (λ r c, match r with Ok _ => written a key body c | Err _ => holding a key c end).
Proof.
  intros Hk Hdir. apply (spec_write_atomic (holding a key)); [|apply holding_disk| |done].
  { unfold batch_name. rewrite <- !str_app_assoc. apply not_partial_jsonl. }
  intros c d' (Hh & Hs & Hf) Hd Ha.
  assert (Hw : written a key body (with_disk (change_file (In OpenRoot (op_id (ac_open a))) (batch_name (ac_next_seq a) key) (Some body) (c_disk c)) c)).
  { split; [split_and!; [|done|done]|].
    - apply held_open_file; [by intros ?%batch_name_not_period| |done].
      intros key' id' b. rewrite parse_batch_name_of by done. intros [= <-] Hin. by apply Hf in Hin.
    - simpl_core. destruct (oo_dir _ _ (hd_open _ _ _ _ Hh) Hdir) as [?|Hp]; [by left|right]. split.
      + rewrite file_at_change. case_decide; by eauto.
      + exists (batch_name (ac_next_seq a) key). rewrite file_at_change. rewrite decide_True by done.
        split; [done|by apply parse_batch_name_of]. }
  by apply (written_stable a key body _ d' Hw).
Qed.

(** What a successful commit leaves: the batch and its receipt. *)
Definition committed (key : BatchKey) (id body : string) (c : Core) : Prop :=
  Inv c ∧ fresh_key key (c_accepted c) ∧ ∃ a r, cu_active (c_store c) = Some a ∧ op_id (ac_open a) = id ∧
  ac_receipts a !! key = Some r ∧ rf_period_id r = id ∧ rf_state r = RPending ∧
  (id ∈ c_half c ∨ in_open (c_disk c) key id body).

Lemma written_store a a' st key body c :
  written a key body c → cu_active st = Some a' → op_id (ac_open a') = op_id (ac_open a) →
  op_start_ms (ac_open a') = op_start_ms (ac_open a) → op_has_dir (ac_open a') = op_has_dir (ac_open a) →
  ac_receipts a' = ac_receipts a → (0 ≤ ac_next_seq a')%Z → written a' key body (with_store st c).
Proof.
  intros [(Hh & Hs & Hf) Hk] Ha' Hid Hst Hdir Hr Hseq. split; [split_and!; [|done|done]|by rewrite Hid].
  eapply held_open_same in Hh; [|exact Hid|exact Hst|by rewrite Hdir].
  destruct Hh as [Hd Ho Hro _]. rewrite Hr.
  split; [by apply disk_ok_store|by apply open_ok_store|by apply receipts_ok_store|done].
Qed.

Definition receipted (a : Active) (key : BatchKey) (body : string) (r : ReceiptFile) (c : Core) : Prop :=
  held (ac_open a) (<[key := r]> (ac_receipts a)) (active_is a) c ∧
  (0 ≤ ac_next_seq a)%Z ∧ fresh_key key (c_accepted c) ∧
  (op_id (ac_open a) ∈ c_half c ∨ in_open (c_disk c) key (op_id (ac_open a)) body).

Lemma spec_commit_receipt a key body r :
  proper key → rf_state r = RPending →
  spec (written a key body) (write_receipt key r)
    (λ res c, match res with Ok _ => receipted a key body r c | Err _ => written a key body c end).
Proof.
  intros Hk Hr. assert (Hst : Stable (receipted a key body r)).
  { intros c d' (Hh & Hs & Hf & Hw) Ha. split_and!; [by apply held_stable|done|done|].
    destruct Hw as [?|?]; [by left|right]. eapply view_in_open; [by apply agree_view|done]. }
  apply (spec_write_json (written a key body) (receipted a key body r)); [apply not_partial_receipt|by intros c [?%holding_disk _]|].
  intros c bytes Hj [(Hh & Hs & Hf) Hw] Hd. apply receipt_back in Hj. split_and!; [|done|done|].
  - apply held_receipt; try done. intros id b Hin. by apply Hf in Hin.
  - destruct Hw as [?|[Hp (n & Hn & Hpn)]]; [by left|right]. simpl_core. split.
    + rewrite file_at_change. by rewrite decide_False by (by intros [? _]).
    + exists n. split; [|done]. rewrite file_at_change. by rewrite decide_False by (by intros [? _]).
Qed.

Lemma spec_commit key body id now :
  proper key →
  spec (λ c, Inv c ∧ fresh_key key (c_accepted c) ∧ ∀ a, cu_active (c_store c) = Some a → op_id (ac_open a) = id)
    (commit key body (mkReceiptFile id now RPending))
    (λ r c, match r with Ok _ => committed key id body c | Err _ => Inv c end).
Proof.
  intros Hk. unfold commit. eapply spec_bind; [apply spec_active|]. intros [a|].
  2: { apply spec_panic. by intros c [[?%Inv_disk _] _]. }
  set (φ := op_id (ac_open a) = id).
  eapply spec_pre with (P := λ c, φ ∧ holding a key c).
  { intros c [(Hi & Hf & Hid) Ha]. destruct (Inv_held c a Hi (eq_sym Ha)) as [Hh Hs].
    split; [by apply Hid|by split_and!]. }
  eapply spec_try with (R := λ _ c, φ ∧ holding (opened a) key c).
  { eapply spec_post; [|apply (spec_pure φ (holding a key)); [|intros _; apply spec_open_dir]].
    - intros [|] c [? ?]; done.
    - unfold create_period_dir, on_active, active, set_active. calm_walk. }
  intros _. eapply spec_try with (R := λ _ c, φ ∧ written (opened a) key body c).
  { eapply spec_post; [|apply (spec_pure φ (holding (opened a) key)); [calm_walk|intros _; by apply (spec_write_batch (opened a))]].
    intros [|] c [? Hh]; [done|by eapply holding_Inv]. }
  intros _. set (a2 := count_batch (Z.of_nat (String.length body)) (opened a)).
  eapply spec_bind with (R := λ _ c, φ ∧ written a2 key body c).
  { apply spec_on_active; [by intros c (_ & ?%holding_disk & _)|]. intros c x st [Hφ Hw] Hx Hst. split; [done|].
    assert (x = opened a) as ->.
    { destruct Hw as [([_ _ _ Ha] & _) _]. unfold active_is in Ha. congruence. }
    eapply (written_store (opened a)); try done. cbn. pose proof (wrap_u64_range (ac_next_seq a + 1)) as [? _]. done. }
  intros _. set (r := mkReceiptFile id now RPending).
  eapply spec_try with (R := λ _ c, φ ∧ receipted a2 key body r c).
  { eapply spec_post; [|apply (spec_pure φ (written a2 key body)); [unfold write_receipt; calm_walk|
      intros _; by apply (spec_commit_receipt a2 key body r)]].
    intros [|] c [? Hw]; [done|]. destruct Hw as [Hh _]. by eapply holding_Inv. }
  intros _. eapply spec_bind with (R := λ _, committed key id body); [|intros _; by apply spec_ret].
  apply spec_on_active; [by intros c (_ & [? _ _ _] & _)|]. intros c x st (Hφ & Hh & Hs & Hf & Hw) Hx Hst.
  assert (x = a2) as ->.
  { destruct Hh as [_ _ _ Ha]. unfold active_is in Ha. congruence. }
  split_and!; [eapply held_to_Inv; [exact Hh|exact Hst|done|done|done]|done|].
  exists (with_receipt key r a2), r. split_and!; try done.
  - simpl_all. by rewrite lookup_insert_eq.
  - by rewrite <- Hφ.
Qed.

(** ** Offering a batch *)

Lemma lacks_substring ch n s : lacks ch s = true → lacks ch (String.substring 0 n s) = true.
Proof.
  unfold lacks. revert n. induction s as [|x s IH]; intros [|n]; cbn [String.substring all_bytes]; try done.
  intros [Hx Hs]%andb_true_iff. by rewrite Hx, IH.
Qed.
Lemma hex_digit_dash d : (0 ≤ d < 16)%Z → Ascii.eqb (hex_digit d) "-" = false.
Proof.
  intros Hd. assert (Hall : Forall (λ d, Ascii.eqb (hex_digit d) "-" = false) (seqZ 0 16)) by (vm_compute; repeat constructor).
  rewrite Forall_forall in Hall. apply Hall, elem_of_seqZ. lia.
Qed.
Lemma hex_lacks_dash s : lacks "-"%char (hex s) = true.
Proof.
  unfold lacks. induction s as [|b s IH]; cbn [hex all_bytes]; [done|]. rewrite IH.
  pose proof (N_ascii_bounded b) as Hb. unfold byte_val.
  rewrite !hex_digit_dash; [done| |].
  - change 15%Z with (Z.ones 4). rewrite Z.land_ones by done. by apply Z.mod_pos_bound.
  - rewrite Z.shiftr_div_pow2 by done. split; [by apply Z.div_pos; lia|]. apply Z.div_lt_upper_bound; lia.
Qed.
Lemma inst_hash_proper inst batch : proper (inst_hash inst, batch).
Proof. unfold proper, inst_hash. cbn [fst]. apply lacks_substring, hex_lacks_dash. Qed.

(** Before the commit: the key is new, and the open period is [id]. *)
Definition offering (key : BatchKey) (id : string) (c : Core) : Prop :=
  Inv c ∧ fresh_key key (c_accepted c) ∧ ∀ a, cu_active (c_store c) = Some a → op_id (ac_open a) = id.
#[local] Instance offering_full_free key id : FullFree (offering key id).
Proof.
  intros c st (Hi & Hf & Ha) Hst. split_and!; [by apply Inv_store|done|]. intros a. simpl_all. rewrite Hst. apply Ha.
Qed.
Lemma offering_disk key id c : offering key id c → disk_ok c.
Proof. by intros [?%Inv_disk _]. Qed.

Lemma spec_note_committed key id body :
  proper key →
  spec (committed key id body)
    (a ← active;
     match a with
     | None => panic
     | Some a => _ ← note_accepted key (op_id (ac_open a)) body; mret (Accepted (op_id (ac_open a)))
     end) (λ _, Inv).
Proof.
  intros Hk. eapply spec_bind; [apply spec_active|]. intros [a|]; [|apply spec_panic; by intros c [[?%Inv_disk _] _]].
  eapply spec_bind with (R := λ _, Inv); [|intros _; by apply spec_ret].
  apply spec_note_accepted. intros c [(Hi & Hf & a' & r & Ha' & Hid & Hr & Hpid & Hst & Hk') Ha].
  rewrite Ha' in Ha. injection Ha as ->. destruct (Inv_held _ _ Hi Ha') as [Hh Hs].
  eapply (held_Inv _ a'); [|done|done]. rewrite <- Hid in *. eapply held_accept; [done|done|done| |done|done].
  destruct r. cbn in *. by subst.
Qed.

Lemma spec_note_context key id body f :
  (∀ o, op_id (f o) = op_id o ∧ op_start_ms (f o) = op_start_ms o ∧ op_has_dir (f o) = op_has_dir o) →
  spec (committed key id body) (on_active (with_open f)) (λ _, committed key id body).
Proof.
  intros Hof. apply spec_on_active; [by intros c [?%Inv_disk _]|].
  intros c a st (Hi & Hf & a' & r & Ha' & Hid & Hr & Hp & Hst' & Hk) Ha Hst. rewrite Ha in Ha'. injection Ha' as <-.
  destruct (Hof (ac_open a)) as (Hof1 & Hof2 & Hof3). destruct (Inv_held _ _ Hi Ha) as [_ Hs].
  split_and!; [eapply (Inv_active_same _ _ a); try done; cbn; by rewrite ?Hof3|done|].
  exists (with_open f a), r. split_and!; try done. simpl_all. by rewrite Hof1.
Qed.

(** The key is new, unless there is no open period. *)
Definition new_key (key : BatchKey) (c : Core) : Prop :=
  Inv c ∧ (is_Some (cu_active (c_store c)) → fresh_key key (c_accepted c)).

Lemma spec_offer_into_open key batch body now :
  proper key →
  spec (new_key key) (offer_into_open key batch body now) (λ _, Inv).
Proof.
  intros Hk. unfold offer_into_open.
  eapply spec_bind with (R := λ _, new_key key); [eapply spec_post; [|apply spec_policy]; by intros ? ? [? _]|]. intros pol.
  eapply spec_bind; [apply spec_active|]. intros [a|]; [|apply spec_panic; by intros c [[?%Inv_disk _] _]].
  set (id := op_id (ac_open a)). eapply spec_pre with (P := offering key id).
  { intros c [[Hi Hf] Ha]. split_and!; [done|apply Hf; rewrite <- Ha; by eauto|]. intros a'. rewrite <- Ha. by intros [= <-]. }
  spec_case; [|apply spec_ret; by intros c [? _]].
  eapply spec_bind; [apply spec_quiet; [apply quiet_spool_bytes|apply offering_disk]|]. intros used.
  spec_case.
  { eapply spec_bind; [by apply spec_set_full, offering_full_free|]. intros []. apply spec_ret. by intros c [? _]. }
  eapply spec_bind; [apply spec_refresh_full; [apply _|apply offering_disk]|]. intros [].
  eapply spec_bind; [apply spec_active|]. intros [a'|]; [|apply spec_panic; by intros c [?%offering_disk _]].
  spec_case; [apply spec_ret; by intros c [[? _] _]|].
  eapply spec_bind; [eapply spec_pre; [|by apply (spec_commit key body id now)]; by intros c [? _]|].
  intros [[]|e]; [|by apply spec_ret].
  eapply spec_bind with (R := λ _, committed key id body).
  { spec_case; [by apply spec_ret|by apply spec_note_context]. }
  intros _. by apply spec_note_committed.
Qed.

Lemma calm_refresh : calm refresh_full.
Proof. unfold refresh_full, policy, set_full. calm_walk. Qed.
#[local] Hint Resolve calm_refresh calm_finalize_dir : calm.
Lemma calm_rotate now early : calm (rotate now early).
Proof. unfold rotate, active, new_open, policy, on_active, active, set_active. calm_walk. Qed.

(** Without an open period there is nothing to rotate. *)
Lemma rotate_inactive now early w : cu_active (w_store w) = None → (rotate now early w).1 = None.
Proof. intros Ha. unfold rotate, active, getw, mbind, io_bind. cbn. by rewrite Ha. Qed.

Lemma spec_rotate_new key now early : (0 ≤ now)%Z → spec (new_key key) (rotate now early) (λ _, new_key key).
Proof.
  intros Hnow w Hw Hd. destruct (calm_rotate now early w) as [Hn Hacc]. specialize (Hw (Hn Hd)) as [Hi Hf].
  pose proof (spec_rotate now early Hnow w (λ _, Hi) Hd) as Hs. pose proof (rotate_inactive now early w) as Hr.
  destruct (rotate now early w) as [[r|] w']; cbn in *; [|done]. split; [done|]. intros _. change (fresh_key key (w_accepted w')). rewrite Hacc. apply Hf. cbn.
  destruct (cu_active (w_store w)); [by eauto|]. by specialize (Hr eq_refl).
Qed.

Lemma new_batch c a key : Inv c → cu_active (c_store c) = Some a → ac_receipts a !! key = None → proper key →
  fresh_key key (c_accepted c).
Proof.
  intros [Hd Hm] Ha Hn Hk id b Hin. destruct (Hm a Ha) as (_ & [_ Hr] & _). rewrite Hr in Hn by done.
  destruct (ok_accepted _ Hd _ _ _ Hin) as (_ & _ & r & Hr' & _). congruence.
Qed.

Lemma spec_offer batch now : (0 ≤ now)%Z → spec Inv (offer batch now) (λ _, Inv).
Proof.
  intros Hnow. unfold offer.
  eapply spec_bind with (R := λ _, Inv); [by apply spec_quiet_Inv, quiet_getw|]. intros [|]; [by apply spec_ret|].
  eapply spec_bind with (R := λ _, Inv); [by apply spec_quiet_Inv, quiet_getw|]. intros pol.
  eapply spec_bind; [apply spec_active|]. intros a. set (key := (inst_hash _, _)).
  destruct (a ≫= _) as [r|] eqn:Hr; [apply spec_ret; by intros c [? _]|].
  assert (Hk : proper key) by apply inst_hash_proper.
  eapply spec_pre with (P := new_key key).
  { intros c [Hi Ha]. split; [done|]. intros [x Hx]. rewrite Hx in Ha. subst a.
    by eapply new_batch. }
  assert (Hdisk : ∀ c, new_key key c → disk_ok c) by by intros c [?%Inv_disk _].
  assert (Hinv : ∀ c, new_key key c → Inv c) by by intros c [? _].
  eapply spec_bind; [apply spec_quiet; [apply quiet_blocked|done]|]. intros [|]; [by apply spec_ret|].
  spec_case; [by apply spec_ret|]. spec_case; [|by apply spec_ret]. spec_case; [by apply spec_ret|].
  eapply spec_bind with (R := λ _, new_key key).
  { spec_case; [by apply spec_rotate_new|by apply spec_ret]. }
  intros r1. destruct r1; [|by apply spec_ret].
  eapply spec_bind with (R := λ _, new_key key); [eapply spec_post; [|apply spec_active]; by intros ? ? [? _]|]. intros a'.
  eapply spec_bind with (R := λ _, new_key key).
  { spec_case; [by apply spec_rotate_new|by apply spec_ret]. }
  intros r2. destruct r2; [by apply spec_offer_into_open|by apply spec_ret].
Qed.
End moves.
#[export] Hint Resolve quiet_read_file quiet_is_dir quiet_file_exists quiet_read_dir quiet_read_root quiet_next_entry
  quiet_read_json quiet_batch_files quiet_list_dirs quiet_file_len quiet_dir_payload_bytes quiet_dir_file_bytes
  quiet_root_payload_bytes quiet_receipt_bytes quiet_period_bytes quiet_dirs_or_none quiet_spool_bytes quiet_blocked
  quiet_outbox_entry quiet_all_outbox quiet_waiting : quiet.
#[export] Hint Resolve calm_next_token calm_note_minted calm_write_bytes calm_write_json calm_remove_dir calm_copy
  calm_finalize_dir calm_refresh calm_rotate : calm.
#[export] Existing Instance Inv_full_free.
