(* ===== verification/CustodyEnds.v ===== *)
(** * Giving up text: delivery and discarding

    [reserve], [release], [delivered] and [discard_waiting], each under any
    verdicts on its calls. A period is given up in a fixed order: the marker in
    its directory, then its receipts, then the directory. *)
From Stdlib Require Import Ascii String.
From stdpp Require Import sorting.
From S2P Require Import Prelude RustStr PauseStore Ingest Admission Custody CustodyLogic CustodySteps CustodyOps CustodyMoves.

Local Open Scope list_scope.

Section ends.
Context `{CustodyLib} `{!CustodyLaws} `{DirOrder} `{HashOrder}.

(** ** Reservations *)

Lemma spec_drop_reserved dir : spec Inv (drop_reserved dir) (λ _, Inv).
Proof.
  unfold drop_reserved. eapply spec_bind; [apply spec_active|]. intros [a|]; [|by apply spec_ret; intros c [? _]].
  apply spec_set_active. intros c st [Hi Ha] Hst _. symmetry in Ha. destruct (Inv_held _ _ Hi Ha) as [_ Hs].
  by eapply Inv_active_same.
Qed.
Lemma spec_release entry : spec Inv (release entry) (λ _, Inv).
Proof.
  unfold release. eapply spec_bind; [apply spec_drop_reserved|]. intros []. apply spec_refresh_full; [apply _|apply Inv_disk].
Qed.
Lemma spec_reserve entry : spec Inv (reserve entry) (λ _, Inv).
Proof.
  unfold reserve. eapply spec_bind; [apply spec_quiet_Inv, quiet_file_exists|]. intros marked. destruct marked; [by apply spec_ret|].
  eapply spec_bind; [apply spec_quiet_Inv, quiet_is_dir|]. intros there. destruct there; [|by apply spec_ret]. cbn [negb].
  eapply spec_bind; [apply spec_active|]. intros [a|]; [|by apply spec_ret; intros c [? _]].
  eapply spec_bind with (R := λ _, Inv); [|intros _; by apply spec_ret].
  apply spec_set_active. intros c st [Hi Ha] Hst _. symmetry in Ha. destruct (Inv_held _ _ Hi Ha) as [_ Hs].
  by eapply Inv_active_same.
Qed.

(** ** The marker *)

(** The store is working, on the open period [oid]. *)
Definition working (oid : string) (c : Core) : Prop :=
  Inv c ∧ ∃ a, cu_active (c_store c) = Some a ∧ op_id (ac_open a) = oid.
Definition disposing (oid period : string) (c : Core) : Prop := working oid c ∧ period ∈ c_disposed c.

Lemma working_disk oid c : working oid c → disk_ok c.
Proof. by intros [?%Inv_disk _]. Qed.
#[local] Instance working_stable oid : Stable (working oid).
Proof. intros c d' [Hi Ha] Hag. split; [by apply Inv_stable|done]. Qed.
#[local] Instance disposing_stable oid period : Stable (disposing oid period).
Proof. intros c d' [Hw Hd] Hag. split; [by apply working_stable|done]. Qed.
#[local] Instance working_full_free oid : FullFree (working oid).
Proof. intros c st [Hi (a & Ha & Ho)] Hst. split; [by apply Inv_store|]. exists a. simpl_all. by rewrite Hst. Qed.

(** A change of the disk that the open period and the receipts outlive. *)
Lemma working_change oid c c' :
  (∀ o m st, held o m st c → held o m st c') → c_store c' = c_store c → working oid c → working oid c'.
Proof.
  intros Hh Hst [Hi (a & Ha & Ho)]. destruct (Inv_held _ _ Hi Ha) as [Hheld Hs].
  split; [|exists a; by rewrite Hst]. eapply held_Inv; [by apply Hh|done|by rewrite Hst].
Qed.

(** The directory of a finished period. *)
Definition fits (dir period : string) : Prop := ∃ start, (0 ≤ start)%Z ∧ dir = final_name start period.

Lemma spec_write_outbox_terminal oid period dir target :
  target ≠ RPending → fits dir period →
  spec (disposing oid period) (write_outbox_terminal dir target)
    (λ r c, match r with Ok state => state ≠ RPending ∧ disposing oid period c | Err _ => disposing oid period c end).
Proof.
  intros Ht (start & Hs & ->). unfold write_outbox_terminal.
  assert (Hns := final_name_not_staging start period Hs).
  eapply spec_try with (R := λ marker c, disposing oid period c ∧ match marker with Some s => s ≠ RPending | None => True end).
  { eapply spec_reads; [apply reads_read_json|by intros c [?%working_disk _]|].
    intros c [[s|]|e] Hd Hv; [|by split|done]. split; [done|]. destruct Hv as (x & Hf & Hx).
    destruct Hd as [?%working_disk _]. by eapply ok_marker. }
  intros [s|]; [by apply spec_ret; intros c [? ?]|].
  eapply spec_try with (R := λ _, disposing oid period).
  - eapply spec_pre; [|apply (spec_write_json (disposing oid period) (disposing oid period)); [done|by intros c [?%working_disk _]|]].
    { by intros c [? _]. }
    intros c bytes Hj [Hw Hd] Hf. apply terminal_back in Hj. split; [|done].
    apply (working_change oid c); [|done|done]. intros o m st. apply (held_marker o m st c _ _ target); try done.
    intros s id Hs' He. by apply final_name_inj in He as <-.
  - intros _. by apply spec_ret.
Qed.

(** ** The receipts *)

(** The receipts of [period] are those of [keys]; those of [done] are settled. *)
Record marks (period : string) (keys done : list BatchKey) (m : Receipts) : Prop := {
  mk_all : ∀ key r, m !! key = Some r → rf_period_id r = period → rf_state r = RPending → key ∈ keys;
  mk_only : ∀ key, key ∈ keys → ∃ r, m !! key = Some r ∧ rf_period_id r = period;
  mk_done : ∀ key r, key ∈ done → m !! key = Some r → rf_state r ≠ RPending
}.

Lemma marks_settled period keys done m key r :
  marks period keys done m → m !! key = Some r → rf_state r ≠ RPending → marks period keys (done ++ [key]) m.
Proof.
  intros [Ha Ho Hd] Hr Hs. split; [done|done|]. intros key' r' [Hk|Hk%list_elem_of_singleton]%elem_of_app Hr'; [by eapply Hd|].
  subst key'. by rewrite Hr in Hr'; injection Hr' as <-.
Qed.
Lemma marks_insert period keys done m key r :
  marks period keys done m → key ∈ keys → rf_period_id r = period → rf_state r ≠ RPending →
  marks period keys (done ++ [key]) (<[key := r]> m).
Proof.
  intros [Ha Ho Hd] Hk Hp Hs. split.
  - intros key' r' [[<- <-]|[_ ?]]%lookup_insert_Some Hp' Hs'; [done|by eapply Ha].
  - intros key' Hk'. destruct (decide (key = key')) as [->|Hne]; [exists r; by rewrite lookup_insert_eq|].
    rewrite lookup_insert_ne by done. by apply Ho.
  - intros key' r' Hin [[<- <-]|[Hne Hr']]%lookup_insert_Some; [done|].
    apply elem_of_app in Hin as [?|?%list_elem_of_singleton]; [by eapply Hd|congruence].
Qed.
Lemma marks_period a period : marks period (period_keys (Some a) period) [] (ac_receipts a).
Proof.
  assert (Hk : ∀ key, key ∈ period_keys (Some a) period ↔ ∃ r, ac_receipts a !! key = Some r ∧ rf_period_id r = period).
  { intros key. cbn. rewrite list_elem_of_omap. split.
    - intros ([k r] & Hin & Hb). rewrite hash_list_spec in Hin. apply elem_of_map_to_list in Hin. cbn in Hb.
      case_bool_decide; [|done]. injection Hb as <-. by exists r.
    - intros (r & Hr & Hp). exists (key, r). rewrite hash_list_spec. split; [by apply elem_of_map_to_list|].
      cbn. by rewrite bool_decide_true. }
  split; [intros key r ? ? _; apply Hk; by exists r|intros key; apply Hk|by intros key r ?%not_elem_of_nil].
Qed.

Definition marking (oid period : string) (keys done : list BatchKey) (a : Active) (m : Receipts) (c : Core) : Prop :=
  held (ac_open a) m (active_is a) c ∧ (0 ≤ ac_next_seq a)%Z ∧ op_id (ac_open a) = oid ∧ period ∈ c_disposed c ∧
  marks period keys done m.
#[local] Instance marking_stable oid period keys done a m : Stable (marking oid period keys done a m).
Proof. intros c d' (Hh & Hrest) Ha. split; [by apply held_stable|done]. Qed.
Lemma marking_working oid period keys done a c : marking oid period keys done a (ac_receipts a) c → disposing oid period c.
Proof.
  intros (Hh & Hs & Ho & Hp & Hm). assert (Ha : cu_active (c_store c) = Some a) by apply Hh.
  split; [|done]. split; [by eapply held_Inv|by exists a].
Qed.
Lemma disposing_marking oid period c a :
  disposing oid period c → cu_active (c_store c) = Some a →
  marking oid period (period_keys (Some a) period) [] a (ac_receipts a) c.
Proof.
  intros [[Hi (a' & Ha' & Ho)] Hp] Ha. rewrite Ha in Ha'. injection Ha' as <-.
  destruct (Inv_held _ _ Hi Ha). split_and!; [done|done|done|done|apply marks_period].
Qed.

Definition marked (oid period : string) (keys done : list BatchKey) (c : Core) : Prop :=
  ∃ a, marking oid period keys done a (ac_receipts a) c.
Lemma marked_disk oid period keys done c : marked oid period keys done c → disk_ok c.
Proof. by intros [a [[? _ _ _] _]]. Qed.

Lemma spec_mark_one oid period target at_ms key keys done :
  target ≠ RPending → key ∈ keys →
  spec (marked oid period keys done) (mark_one target at_ms key)
    (λ r c, match r with Ok _ => marked oid period keys (done ++ [key]) c | Err _ => working oid c end).
Proof.
  intros Ht Hk. unfold mark_one. eapply spec_bind; [apply spec_active|]. intros x.
  destruct x as [a|]; cbn [mbind option_bind]; [|apply spec_panic; by intros c [?%marked_disk _]].
  destruct (ac_receipts a !! key) as [r|] eqn:Hr; [|apply spec_panic; by intros c [?%marked_disk _]].
  eapply spec_pre with (P := marking oid period keys done a (ac_receipts a)).
  { intros c [[b Hb] Ha]. assert (a = b) as -> by (destruct Hb as [[_ _ _ Hb] _]; unfold active_is in Hb; congruence). done. }
  case_bool_decide as Hst.
  2: { apply spec_ret. intros c (Hh & Hs & Ho & Hp & Hm). exists a. split_and!; try done. by eapply marks_settled. }
  set (r' := mkReceiptFile _ _ _).
  eapply spec_try with (R := λ _, marking oid period keys (done ++ [key]) a (<[key := r']> (ac_receipts a))).
  - unfold write_receipt. eapply spec_post; [|apply (spec_write_json (marking oid period keys done a (ac_receipts a))
      (marking oid period keys (done ++ [key]) a (<[key := r']> (ac_receipts a)))); [apply not_partial_receipt|by intros c [[? _ _ _] _]|]].
    { intros [|] c; [done|]. intros Hm. by apply marking_working in Hm as [? _]. }
    intros c bytes Hj (Hh & Hs & Ho & Hp & Hm) Hd. apply receipt_back in Hj.
    destruct (mk_only _ _ _ _ Hm key Hk) as (r0 & Hr0 & Hp0). rewrite Hr in Hr0. injection Hr0 as <-.
    split_and!; try done; [|by apply marks_insert]. destruct Hh as [Hdk Hop Hre Hac].
    pose proof (ro_proper _ _ Hre key r Hr) as Hpk.
    apply held_receipt; try done.
    + cbn. by rewrite Hp0.
    + intros id body Hin. split; [|done]. cbn. rewrite (ro_disk _ _ Hre) in Hr by done.
      destruct (ok_accepted _ Hdk _ _ _ Hin) as (_ & _ & r1 & Hr1 & Hid & _). congruence.
  - intros _. eapply spec_bind with (R := λ _, marked oid period keys (done ++ [key])); [|intros _; by apply spec_ret].
    apply spec_on_active; [by intros c [[? _ _ _] _]|].
    intros c x st (Hh & Hs & Ho & Hp & Hm) Hx Hst'. destruct Hh as [Hdk Hop Hre Hac]. unfold active_is in Hac.
    assert (x = a) as -> by congruence. exists (with_receipt key r' a).
    split_and!; try done. split; [by apply disk_ok_store|by apply open_ok_store|by apply receipts_ok_store|done].
Qed.

(** No batch of the period is pending. *)
Definition settled (period : string) (c : Core) : Prop :=
  ∀ key body, (key, (period, body)) ∈ c_accepted c → ¬ pending (c_disk c) key.

Lemma marked_settled oid period keys c : marked oid period keys keys c → settled period c.
Proof.
  intros [a ([Hd _ Hr _] & _ & _ & _ & Hm)] key body Hin [r [Hre Hst]].
  destruct (ok_accepted _ Hd _ _ _ Hin) as (Hk & _ & r' & Hr' & Hid & _). rewrite Hre in Hr'. injection Hr' as <-.
  rewrite <- (ro_disk _ _ Hr) in Hre by done. by eapply (mk_done _ _ _ _ Hm); [eapply (mk_all _ _ _ _ Hm)| |].
Qed.

Lemma spec_mark_period oid period target at_ms :
  target ≠ RPending →
  spec (disposing oid period) (mark_period period target at_ms)
    (λ r c, match r with Ok _ => disposing oid period c ∧ settled period c | Err _ => working oid c end).
Proof.
  intros Ht. unfold mark_period. eapply spec_bind; [apply spec_active|]. intros a.
  set (keys := period_keys a period).
  eapply spec_pre with (P := marked oid period keys []).
  { intros c [Hd Ha]. destruct Hd as [[Hi (a' & Ha' & Ho)] Hp]. unfold keys. rewrite Ha, Ha'. exists a'.
    apply disposing_marking; [|done]. split; [split; [done|by exists a']|done]. }
  apply (spec_fold (λ done _, marked oid period keys done)).
  - intros done [] key rest Hl. apply spec_mark_one; [done|]. rewrite Hl. apply elem_of_app. right. by left.
  - intros [] c Hm. split; [|by eapply marked_settled]. destruct Hm as [x Hm]. by eapply marking_working.
Qed.

(** ** The directory *)

Lemma settled_shrink r dir period c d' :
  shrinks (In r dir) (c_disk c) d' → settled period c → settled period (with_disk d' c).
Proof. intros Hsh Hs key body Hin Hp. simpl_core. rewrite shrinks_pending in Hp by done. by eapply Hs. Qed.

Lemma spec_remove_boxed oid period dir :
  fits dir period →
  spec (λ c, disposing oid period c ∧ settled period c) (remove_payload_dir (In OutboxRoot dir)) (λ _, working oid).
Proof.
  intros (start & Hs & ->). apply spec_remove.
  - intros c [[Hw _] _]. split; [by eapply working_disk|done].
  - intros c d' [[Hw _] Hset] Hsh. assert (Hw' : working oid (with_disk d' c)).
    { apply (working_change oid c); [|done|done]. intros o m st. apply (held_shrink_outbox o m st c _ d' Hsh).
      right. intros s id key body Hs' He Hin Hp. apply final_name_inj in He as <-; [|done|done].
      by destruct (Hset key body Hin). }
    split; [by eapply working_disk|done].
Qed.

(** The open period, its directory gone or in doubt. *)
Definition cleared (o : OpenPeriod) : OpenPeriod := mkOpenPeriod (op_id o) (op_start_ms o) (op_end_ms o) 0 ∅ false.
Definition emptied (oid : string) (c : Core) : Prop :=
  ∃ a, held (cleared (ac_open a)) (ac_receipts a) (active_is a) c ∧ (0 ≤ ac_next_seq a)%Z ∧ op_id (ac_open a) = oid.
Lemma working_emptied oid c : working oid c → emptied oid c.
Proof.
  intros [Hi (a & Ha & Ho)]. destruct (Inv_held _ _ Hi Ha) as [Hh Hs]. exists a. split_and!; [|done|done].
  by eapply held_open_same; [| | |exact Hh].
Qed.
Lemma emptied_disk oid c : emptied oid c → disk_ok c.
Proof. by intros (a & [? _ _ _] & _). Qed.

Lemma spec_remove_open oid :
  spec (λ c, working oid c ∧ settled oid c) (remove_payload_dir (In OpenRoot oid)) (λ _, emptied oid).
Proof.
  apply spec_remove.
  - intros c [Hw _]. split; [by eapply working_disk|]. intros _. by apply working_emptied.
  - intros c d' [Hw Hset] Hsh. apply working_emptied in Hw as (a & Hh & Hs & Ho).
    assert (He : emptied oid (with_disk d' c)).
    { exists a. split_and!; [|done|done]. eapply held_shrink_open; [exact Hsh|done| |done].
      intros key body Hin Hp. by destruct (Hset key body Hin). }
    split; [by eapply emptied_disk|done].
Qed.

(** The memory after a removal that worked, and after one that did not. *)
Lemma spec_clear_open oid :
  spec (emptied oid)
    (a ← active;
     match a with
     | Some a => set_active (Some (with_open (λ o, mkOpenPeriod (op_id o) (op_start_ms o) (op_end_ms o) 0 ∅ false) a))
     | None => mret tt
     end) (λ _, working oid).
Proof.
  eapply spec_bind; [apply spec_active|]. intros x. eapply spec_pre with (P := λ c, emptied oid c ∧ cu_active (c_store c) = x).
  { by intros c [? ->]. }
  destruct x as [a|].
  - apply spec_set_active. intros c st [(b & Hh & Hs & Ho) Ha] Hst _.
    assert (b = a) as -> by (destruct Hh as [_ _ _ Hb]; unfold active_is in Hb; congruence).
    split; [|by eexists]. by eapply (held_to_Inv (cleared (ac_open a)) (ac_receipts a)).
  - apply spec_ret. intros c [(b & [_ _ _ Hb] & _) Ha]. unfold active_is in Hb. congruence.
Qed.
Lemma spec_keep_half oid : spec (emptied oid) (note_half oid) (λ _, working oid).
Proof.
  apply spec_note_half. intros c (a & Hh & Hs & Ho). apply (held_more _ _ _ [] [] [oid]) in Hh as [Hd [Hm Hst Hu _] Hr Ha].
  split; [|exists a; split; [exact Ha|done]].
  eapply (held_Inv _ a (λ _, True)); [|done|exact Ha]. split; [done| |done|done].
  split; simpl_all; try done. intros _. left. rewrite Ho. apply elem_of_cons. by left.
Qed.

Lemma spec_dispose oid period : spec (working oid) (note_disposed period) (λ _, disposing oid period).
Proof.
  apply spec_note_disposed. intros c [Hi (a & Ha & Ho)]. split; [split; [by apply Inv_more|by exists a]|].
  simpl_all. apply elem_of_cons. by left.
Qed.

Lemma calm_mark_period period target at_ms : calm (mark_period period target at_ms).
Proof.
  unfold mark_period, each_io, active, mark_one, write_receipt, on_active, active, set_active.
  calm_walk.
Qed.

(** ** Delivery *)

Lemma spec_ex {A B} (P : B → Core → Prop) (m : IO A) Q :
  calm m → (∀ b, spec (P b) m Q) → spec (λ c, ∃ b, P b c) m Q.
Proof.
  intros Hcalm Hm w Hw Hd. destruct (Hw (proj1 (Hcalm w) Hd)) as [b Hb]. by apply (Hm b w).
Qed.

Lemma calm_drop_reserved dir : calm (drop_reserved dir).
Proof. unfold drop_reserved, active, set_active. calm_walk. Qed.
Lemma calm_terminal dir target : calm (write_outbox_terminal dir target).
Proof. unfold write_outbox_terminal. calm_walk. Qed.
#[local] Hint Resolve calm_mark_period calm_drop_reserved calm_terminal : calm.
Lemma calm_delivered entry : calm (delivered entry).
Proof. unfold delivered, note_disposed, active. calm_walk. Qed.

Lemma spec_pull {A} (φ : Prop) (P : Core → Prop) (m : IO A) Q :
  calm m → (φ → spec P m Q) → spec (λ c, φ ∧ P c) m Q.
Proof. intros Hcalm Hm. eapply spec_post; [|by apply (spec_pure φ P)]. by intros a c [_ ?]. Qed.

(** Marking a period settles it or leaves the store working. *)
Lemma spec_mark oid period state at_ms :
  spec (λ c, state ≠ RPending ∧ disposing oid period c) (mark_period period state at_ms)
    (λ r c, match r with Ok _ => disposing oid period c ∧ settled period c | Err _ => working oid c end).
Proof.
  apply spec_pull; [apply calm_mark_period|apply spec_mark_period].
Qed.

Lemma spec_delivered entry :
  fits (oe_dir entry) (oe_period_id entry) →
  spec (λ c, Inv c ∧ is_Some (cu_active (c_store c))) (delivered entry) (λ _, Inv).
Proof.
  intros Hfit. eapply spec_pre with (P := λ c, ∃ oid, working oid c).
  { intros c [Hi [a Ha]]. exists (op_id (ac_open a)). split; [done|by exists a]. }
  apply spec_ex; [apply calm_delivered|]. intros oid. unfold delivered.
  eapply spec_bind; [apply spec_dispose|]. intros [].
  eapply spec_try with (R := λ state c, state ≠ RPending ∧ disposing oid (oe_period_id entry) c).
  { eapply spec_post; [|by apply spec_write_outbox_terminal]. intros [|] c; [done|]. by intros [[? _] _]. }
  intros state. eapply spec_bind; [apply spec_active|]. intros a.
  eapply spec_try with (R := λ _ c, disposing oid (oe_period_id entry) c ∧ settled (oe_period_id entry) c).
  { eapply spec_pre; [|eapply spec_post; [|apply spec_mark]]; [by intros c [? _]|]. intros [|] c; [done|by intros [? _]]. }
  intros _. eapply spec_try with (R := λ _, Inv).
  { eapply spec_post; [|by apply spec_remove_boxed]. by intros [|] c [? _]. }
  intros _. eapply spec_bind; [apply spec_drop_reserved|]. intros [].
  eapply spec_bind with (R := λ _, Inv); [apply spec_refresh_full; [apply _|apply Inv_disk]|]. intros _. by apply spec_ret.
Qed.

(** ** Discarding *)

Lemma reads_collect {A B} (f : A → IO (option B)) (V : A → Disk → B → Prop) l :
  (∀ a, reads (f a) (λ d o, match o with Some b => V a d b | None => True end)) →
  reads (collect_io f l) (λ d out, ∀ b, b ∈ out → ∃ a, a ∈ l ∧ V a d b).
Proof.
  intros Hf. induction l as [|a l IH]; cbn [collect_io].
  { eapply reads_weaken; [|apply reads_ret]. by intros d out -> b ?%not_elem_of_nil. }
  eapply reads_weaken; [|eapply reads_bind; [apply Hf|intros o; eapply reads_bind; [apply IH|intros rest; apply reads_ret]]].
  intros d out (o & Ho & rest & Hrest & ->) b Hb. destruct o as [x|].
  - apply elem_of_cons in Hb as [->|Hb]; [exists a; split; [by left|done]|].
    destruct (Hrest b Hb) as (a' & Hin & Hv). exists a'. split; [by right|done].
  - destruct (Hrest b Hb) as (a' & Hin & Hv). exists a'. split; [by right|done].
Qed.

(** Every entry was read from the manifest of a finished period. *)
Definition read_from (d : Disk) (e : OutboxEntry) : Prop :=
  is_staging (oe_dir e) = false ∧ ∃ json meta, file_at (In OutboxRoot (oe_dir e)) PERIOD_FILE d = Some json ∧
    outbox_period_of json = Some meta ∧ oe_period_id e = obf_period_id meta.
Lemma reads_all_outbox : reads all_outbox (λ d l, ∀ e, e ∈ l → read_from d e).
Proof.
  unfold all_outbox.
  set (V := λ name d e, oe_dir e = name ∧ ∃ json meta, file_at (In OutboxRoot name) PERIOD_FILE d = Some json ∧
    outbox_period_of json = Some meta ∧ oe_period_id e = obf_period_id meta).
  eapply reads_weaken; [|eapply reads_bind; [apply reads_quiet, quiet_list_dirs|intros l; eapply reads_bind; [apply (reads_collect _ V)|intros es; apply reads_ret]]].
  - cbv zeta. intros d out (l & _ & es & Hes & ->) e He. rewrite merge_sort_Permutation in He.
    destruct (Hes e He) as (name & Hin & <- & Hv). apply list_elem_of_filter in Hin as [Hn _].
    split; [by destruct (is_staging (oe_dir e))|done].
  - intros name. unfold outbox_entry. eapply reads_weaken; [|eapply reads_bind; [apply reads_read_json|intros r; apply reads_ret]].
    intros d o (r & Hr & ->). destruct r as [[meta|]|]; [|done|done]. destruct Hr as (x & Hx & Hm). split; [done|]. by exists x, meta.
Qed.
Lemma read_from_fits c e : disk_ok c → read_from (c_disk c) e → fits (oe_dir e) (oe_period_id e).
Proof.
  intros Hd (Hns & json & meta & Hf & Hm & Hid). destruct (ok_outbox_meta _ Hd _ _ _ Hns Hf Hm) as [Hs Hn].
  exists (obf_start_ms meta). by rewrite Hid.
Qed.

(** An item to discard: a finished period, or the open one. *)
Definition item_fits (oid : string) (item : string * string * bool) : Prop :=
  let '(period, dir, is_open) := item in
  if is_open then period = oid ∧ dir = oid else fits dir period.

Lemma spec_discard_marker oid period dir (is_open : bool) :
  item_fits oid (period, dir, is_open) →
  spec (disposing oid period) (if is_open then ok RDiscarded else write_outbox_terminal dir RDiscarded)
    (λ r c, match r with Ok state => state ≠ RPending ∧ disposing oid period c | Err _ => disposing oid period c end).
Proof. intros Hf. destruct is_open; [by apply spec_ret|by apply spec_write_outbox_terminal]. Qed.

Lemma spec_discard_one oid now item : item_fits oid item → spec (working oid) (discard_one now item) (λ _, working oid).
Proof.
  destruct item as [[period dir] is_open]. intros Hf. unfold discard_one.
  eapply spec_bind; [apply spec_dispose|]. intros [].
  eapply spec_bind; [by apply spec_discard_marker|]. intros [state|e]; [|by apply spec_ret; intros c [? _]].
  eapply spec_bind; [apply spec_mark|]. intros [[]|e]; [|by apply spec_ret].
  destruct is_open; cbn in Hf.
  - destruct Hf as [-> ->]. eapply spec_bind with (R := λ _, emptied oid).
    { eapply spec_pre; [|apply spec_remove_open]. by intros c [[? _] ?]. }
    intros r. destruct (is_ok r); [apply spec_clear_open|apply spec_keep_half].
  - eapply spec_bind; [by apply spec_remove_boxed|]. intros r. rewrite andb_false_r. by apply spec_ret.
Qed.
Lemma spec_discard_each oid now items :
  Forall (item_fits oid) items → spec (working oid) (discard_each now items) (λ _, working oid).
Proof.
  induction 1 as [|item items Hi _ IH]; cbn [discard_each]; [by apply spec_ret|].
  eapply spec_bind; [by apply spec_discard_one|]. by intros [].
Qed.

Lemma calm_discard_each now items : calm (discard_each now items).
Proof.
  induction items as [|[[period dir] is_open] items IH]; cbn [discard_each]; [calm_walk|].
  unfold discard_one, note_disposed, note_half, set_active, active. calm_walk.
Qed.

Lemma spec_discard_waiting now : spec Inv (discard_waiting now) (λ _, Inv).
Proof.
  unfold discard_waiting. eapply spec_bind; [apply spec_active|]. intros [a|]; [|by apply spec_ret; intros c [? _]].
  set (oid := op_id (ac_open a)). eapply spec_pre with (P := working oid).
  { intros c [Hi Ha]. split; [done|]. by exists a. }
  eapply spec_bind with (R := λ es c, (∀ e, e ∈ es → fits (oe_dir e) (oe_period_id e)) ∧ working oid c).
  { eapply spec_reads; [apply reads_all_outbox|apply working_disk|]. intros c es Hw Hes. split; [|done].
    intros e He. eapply read_from_fits; [by eapply working_disk|by apply Hes]. }
  intros es. set (φ := ∀ e, e ∈ es → fits (oe_dir e) (oe_period_id e)).
  eapply spec_bind with (R := λ opened c, (Forall (item_fits oid) opened ∧ φ) ∧ working oid c).
  { destruct (op_has_dir (ac_open a)); [|apply spec_ret; intros c [? ?]; by split_and!].
    eapply spec_bind; [apply spec_quiet; [apply quiet_dir_payload_bytes|by intros c [_ ?%working_disk]]|].
    intros n. apply spec_ret. intros c [? ?]. split_and!; [|done|done]. case_match; by repeat constructor. }
  intros opened. eapply spec_bind with (R := λ _, working oid).
  { apply spec_pull; [apply calm_discard_each|]. intros [Ho He]. apply spec_discard_each, Forall_app. split; [|done].
    apply Forall_fmap, Forall_forall. intros e Hin%list_elem_of_filter. exact (He e (proj2 Hin)). }
  intros _. eapply spec_bind with (R := λ _, working oid); [apply spec_refresh_full; [apply _|apply working_disk]|].
  intros _. eapply spec_bind with (R := λ _, Inv); [|intros left; by apply spec_ret].
  eapply spec_pre; [|apply spec_quiet_Inv; quiet_walk]. by intros c [? _].
Qed.
End ends.
#[export] Hint Resolve calm_mark_period calm_drop_reserved calm_terminal calm_delivered calm_discard_each : calm.
