(* ===== verification/CustodyLoad.v ===== *)
(** * Opening the custody store after any stop

    [load], from any disk the store can have left behind: the receipts are
    read back, repaired and settled, the open periods of the previous process
    are cleaned and finished, and the store starts on a period of its own. *)
From Stdlib Require Import Ascii String.
From stdpp Require Import sorting.
From S2P Require Import Prelude RustStr PauseStore Ingest Admission Custody CustodyLogic CustodySteps CustodyOps CustodyMoves CustodyEnds.

Local Open Scope list_scope.

Section loading.
Context `{CustodyLib} `{!CustodyLaws} `{DirOrder} `{HashOrder}.

(** The store has no memory yet. *)
Definition idle (c : Core) : Prop := disk_ok c ∧ cu_active (c_store c) = None.
Lemma idle_Inv c : idle c → Inv c.
Proof. intros [Hd Ha]. split; [done|]. intros a Ha'. congruence. Qed.
Lemma idle_disk c : idle c → disk_ok c.
Proof. by intros [? _]. Qed.

(** Calls that leave every period and every receipt as it is. *)
Lemma spec_same_files P (f : Disk → Disk) (Q : result unit io_error → Core → Prop) :
  (∀ c, P c → disk_ok c) → (∀ c, P c → same_files c (f (c_disk c))) →
  (∀ c d' r, P c → same_files c d' → disk_ok (with_disk d' c) → Q r (with_disk d' c)) →
  spec P (call (λ d, (Ok tt, f d)) (λ _ d, d)) Q.
Proof.
  intros HP Hf HQ. apply spec_call; simpl_core.
  - intros c Hp. apply HQ; [done|by apply Hf|]. apply disk_ok_same_files; auto.
  - intros c Hp. split; [by apply HP|]. rewrite <- (with_disk_same c). apply HQ; [done| |rewrite with_disk_same; by apply HP].
    split; auto.
  - intros c keep Hp. rewrite with_disk_same. split; [by apply HP|]. rewrite <- (with_disk_same c).
    apply HQ; [done| |rewrite with_disk_same; by apply HP]. split; auto.
Qed.
Lemma spec_remove_legacy name : spec idle (remove_legacy name) (λ _, idle).
Proof.
  unfold remove_legacy. eapply spec_bind; [apply spec_quiet; [apply quiet_probe|apply idle_disk]|].
  intros there. destruct there; [|by apply spec_ret]. apply spec_same_files; [apply idle_disk| |by intros c d' r [_ ?]].
  intros c _. split; auto.
Qed.
Lemma files_at_root r d p : files_at p (set_root r (Some (default ∅ (root_at r d))) d) = files_at p d.
Proof. destruct p as [[] dir|], r; cbn; try done; unfold files_at; cbn; [by destruct (d_open d)|by destruct (d_outbox d)]. Qed.
Lemma spec_create_root r : spec idle (create_root r) (λ _, idle).
Proof.
  unfold create_root. apply (spec_same_files _ (λ d, set_root r (Some (default ∅ (root_at r d))) d)); [apply idle_disk| |by intros c d' res [_ ?]].
  intros c _. split; intros; unfold receipt_at, file_at in *; rewrite files_at_root in *; auto.
Qed.
Lemma spec_create_receipts : spec idle create_receipts (λ _, idle).
Proof.
  unfold create_receipts. apply (spec_same_files _ (λ d, put_files InReceipts (Some (default ∅ (d_receipts d))) d)); [apply idle_disk| |by intros c d' res [_ ?]].
  intros c _. split; auto. intros key. unfold receipt_at, file_at. cbn. by destruct (d_receipts (c_disk c)).
Qed.

(** ** The new period *)

Definition ready (o : OpenPeriod) (c : Core) : Prop := idle c ∧ fresh_open o c.
Lemma ready_disk o c : ready o c → disk_ok c.
Proof. by intros [?%idle_disk _]. Qed.
Lemma spec_load_open now : (0 ≤ now)%Z → spec idle (new_open now false) ready.
Proof.
  intros Hnow. eapply spec_weaken; [| |by apply (spec_new_open now false None)].
  - intros c Hi. split; [by apply idle_Inv|by destruct Hi].
  - intros o c ([Hd _] & Ha & Ho). by split.
Qed.
Lemma fresh_same_files o c d' :
  same_files c d' → (∀ dir, files_at (In OpenRoot dir) d' = files_at (In OpenRoot dir) (c_disk c)) →
  fresh_open o c → fresh_open o (with_disk d' c).
Proof. intros Hsf Hd [Ho Hdir Hno Hnew]. split; [by apply open_ok_same_files|done|simpl_core; by rewrite Hd|done]. Qed.

(** ** Reading the receipts *)

(** What has been read of the receipts named in [done]. *)
Record gathered (names done : list string) (m : Receipts) (d : Disk) : Prop := {
  ga_names : ∀ name, is_Some (file_at InReceipts name d) → name ∈ names;
  ga_proper : ∀ key r, m !! key = Some r → proper key;
  ga_read : ∀ key, proper key → m !! key = if decide (receipt_name key ∈ done) then receipt_at d key else None
}.

Lemma gathered_all c names m : gathered names names m (c_disk c) → receipts_ok c m.
Proof.
  intros [Hn Hp Hr]. split; [done|]. intros key Hk. rewrite Hr by done. case_decide as He; [done|].
  unfold receipt_at. destruct (file_at InReceipts (receipt_name key) (c_disk c)) eqn:Hf; [|done].
  destruct He. apply Hn. by rewrite Hf.
Qed.
Lemma gathered_skip names done m d name :
  (∀ key, proper key → receipt_name key ≠ name) → gathered names done m d → gathered names (done ++ [name]) m d.
Proof.
  intros Hne [Hn Hp Hr]. split; [done|done|]. intros key Hk. rewrite Hr by done. apply decide_ext.
  rewrite elem_of_app, list_elem_of_singleton. specialize (Hne key Hk). tauto.
Qed.
Lemma gathered_read names done m d key r :
  proper key → receipt_at d key = r → gathered names done m d →
  gathered names (done ++ [receipt_name key]) (match r with Some r => <[key := r]> m | None => m end) d.
Proof.
  intros Hk Hre [Hn Hp Hr].
  assert (Hd : ∀ key', proper key' → receipt_name key' ∈ done ++ [receipt_name key] ↔ receipt_name key' ∈ done ∨ key' = key).
  { intros key' Hk'. rewrite elem_of_app, list_elem_of_singleton. split; (intros [?|?]; [by left|right]); [by apply receipt_name_inj|by subst]. }
  split; [done| |].
  - intros key' r' Hm. destruct r as [x|]; [|by eapply Hp]. apply lookup_insert_Some in Hm as [[<- _]|[_ ?]]; [done|by eapply Hp].
  - intros key' Hk'. destruct (decide (key' = key)) as [->|Hne].
    + rewrite decide_True by (apply Hd; [done|by right]). rewrite Hre. destruct r; [by rewrite lookup_insert_eq|].
      rewrite Hr by done. case_decide; [by rewrite Hre|done].
    + assert (Hm : (match r with Some r => <[key := r]> m | None => m end) !! key' = m !! key').
      { destruct r; [by rewrite lookup_insert_ne|done]. }
      rewrite Hm, Hr by done. apply decide_ext. rewrite Hd by done. tauto.
Qed.

(** Leftovers that are no receipts are removed. *)
Lemma receipt_at_junk name d key : parse_receipt_name name = None →
  receipt_at (change_file InReceipts name None d) key = receipt_at d key.
Proof.
  intros Hn. unfold receipt_at. rewrite file_at_change. case_decide as He; [|done]. destruct He as (_ & -> & _).
  unfold parse_receipt_name, receipt_name in Hn. rewrite <- !str_app_assoc, strip_suffix_app in Hn. done.
Qed.
Lemma ready_junk o names done m name c :
  parse_receipt_name name = None → ready o c → gathered names done m (c_disk c) →
  ready o (with_disk (change_file InReceipts name None (c_disk c)) c) ∧
  gathered names (done ++ [name]) m (change_file InReceipts name None (c_disk c)).
Proof.
  intros Hn [[Hd Ha] Ho] Hg. set (d' := change_file _ _ _ _).
  assert (Hfd : ∀ r dir, files_at (In r dir) d' = files_at (In r dir) (c_disk c)).
  { intros. unfold d'. rewrite files_at_change. by rewrite decide_False. }
  assert (Hsf : same_files c d').
  { split; [intros; unfold file_at; by rewrite Hfd|intros; by apply receipt_at_junk|intros dir _; by rewrite Hfd|].
    intros dir. rewrite Hfd. by left. }
  split; [split; [split; [by apply disk_ok_same_files|done]|by apply fresh_same_files]|].
  apply gathered_skip; [intros key Hk He; by rewrite <- He, parse_receipt_name_of in Hn|].
  destruct Hg as [Hnm Hp Hr]. split; [|done|].
  - intros n Hs. apply Hnm. unfold d' in Hs. rewrite file_at_change in Hs. case_decide; [by destruct Hs|done].
  - intros key Hk. rewrite Hr by done. unfold d'. by rewrite receipt_at_junk.
Qed.

Lemma spec_load_receipts o :
  spec (ready o) load_receipts (λ r c, match r with Ok m => ready o c ∧ receipts_ok c m | Err _ => idle c end).
Proof.
  unfold load_receipts.
  eapply spec_try with (R := λ names c, ready o c ∧ gathered names [] ∅ (c_disk c)).
  { eapply spec_reads; [apply reads_read_dir|apply ready_disk|]. intros c [names|e] Hr Hn; [|by destruct Hr].
    split; [done|]. split; [by intros name ?%Hn|by intros key r ?%lookup_empty_Some|]. intros key Hk.
    rewrite decide_False by apply not_elem_of_nil. by rewrite lookup_empty. }
  intros names. apply (spec_fold (λ done m c, ready o c ∧ gathered names done m (c_disk c))).
  2: { intros m c [Hr Hg]. split; [done|by eapply gathered_all]. }
  intros done m name rest _. set (P := λ c, ready o c ∧ gathered names done m (c_disk c)).
  assert (HP : ∀ c, P c → disk_ok c) by by intros c [?%ready_disk _].
  eapply spec_try with (R := λ _, P).
  { apply spec_look; [done|by intros c ?|by intros c [[? _] _]]. }
  intros _. destruct (parse_receipt_name name) as [[key|]|] eqn:Hname.
  - apply parse_receipt_name_inv in Hname as [-> Hk].
    eapply spec_try with (R := λ r c, P c ∧ receipt_at (c_disk c) key = r); [|intros r; apply spec_ret].
    + eapply spec_reads; [apply reads_read_json|done|]. intros c [[r|]|e] Hp Hv; [| |by destruct Hp as [[? _] _]].
      * split; [done|]. destruct Hv as (x & Hf & Hx). unfold receipt_at. by rewrite Hf.
      * split; [done|]. unfold receipt_at. by rewrite Hv.
    + intros c [[Hr Hg] Hre]. split; [done|by apply gathered_read].
  - apply spec_ret. intros c [Hr Hg]. split; [done|]. apply gathered_skip; [|done].
    intros key Hk <-. by rewrite parse_receipt_name_of in Hname.
  - eapply spec_bind with (R := λ _ c, ready o c ∧ gathered names (done ++ [name]) m (c_disk c)); [|intros ?; by apply spec_ret].
    apply spec_remove_file.
    + intros c [Hr Hg]. split; [by eapply ready_disk|]. intros _. split; [done|]. apply gathered_skip; [|done].
      intros key Hk <-. by rewrite parse_receipt_name_of in Hname.
    + intros c [Hr Hg] _. by apply ready_junk.
Qed.

(** ** The previous process's open periods *)

Definition loading (o : OpenPeriod) (m : Receipts) : Core → Prop := held o m (λ st, cu_active st = None).
Lemma loading_idle o m c : loading o m c → idle c.
Proof. by intros [? _ _ ?]. Qed.
Lemma loading_disk o m c : loading o m c → disk_ok c.
Proof. by intros [? _ _ _]. Qed.

Lemma no_manifest_elsewhere c dir :
  disk_ok c → file_at (In OpenRoot dir) PERIOD_FILE (c_disk c) = None → elsewhere c dir.
Proof.
  intros Hd Hn key body Hin [r [Hr Hp]]. destruct (ok_accepted _ Hd _ _ _ Hin) as (_ & _ & r' & Hr' & _ & Hk).
  rewrite Hr in Hr'. injection Hr' as <-. destruct (Hk Hp) as [?|[?|[[Hm _]|?]]]; [by left|by right; left| |by right; right].
  rewrite Hn in Hm. by destruct Hm.
Qed.
Lemma no_batches_elsewhere c dir :
  disk_ok c → complete (In OpenRoot dir) (c_disk c) [] → elsewhere c dir.
Proof.
  intros Hd [Hc _] key body Hin [r [Hr Hp]]. destruct (ok_accepted _ Hd _ _ _ Hin) as (_ & _ & r' & Hr' & _ & Hk).
  rewrite Hr in Hr'. injection Hr' as <-. destruct (Hk Hp) as [?|[?|[[_ (n & Hf & Hn)]|?]]]; [by left|by right; left| |by right; right].
  exfalso. eapply not_elem_of_nil, (Hc n key); [by rewrite Hf|done].
Qed.

Lemma spec_remove_spent o m dir :
  dir ≠ op_id o →
  spec (λ c, loading o m c ∧ elsewhere c dir) (remove_payload_dir (In OpenRoot dir)) (λ _, loading o m).
Proof.
  intros Hne. apply spec_remove.
  - intros c [Hl _]. split; [by eapply loading_disk|done].
  - intros c d' [Hl He] Hsh. assert (loading o m (with_disk d' c)) by by eapply held_shrink_open.
    split; [by eapply loading_disk|done].
Qed.

Lemma spec_read_batches o m dir :
  spec (loading o m) (batch_files (In OpenRoot dir))
    (λ r c, match r with Ok l => loading o m c ∧ complete (In OpenRoot dir) (c_disk c) l | Err _ => idle c end).
Proof.
  eapply spec_reads; [apply reads_batch_files|by intros c ?%loading_disk|].
  intros c [l|e] Hl Hc; [done|by apply loading_idle in Hl].
Qed.
(** The manifest names its directory. *)
Lemma spec_read_manifest o m dir :
  spec (loading o m) (read_json (In OpenRoot dir) PERIOD_FILE open_period_of)
    (λ r c, match r with
            | Ok (Some meta) => (opf_period_id meta = dir ∧ (0 ≤ opf_start_ms meta)%Z) ∧ loading o m c ∧ dir ∈ c_minted c
            | Ok None => loading o m c ∧ elsewhere c dir
            | Err _ => idle c end).
Proof.
  eapply spec_reads; [apply reads_read_json|by intros c ?%loading_disk|].
  intros c [[meta|]|e] Hl Hv; [| |by eapply loading_idle].
  - destruct Hv as (x & Hf & Hx). pose proof (loading_disk _ _ _ Hl) as Hd.
    destruct (ok_open_meta _ Hd _ _ Hf) as (meta' & Hm & ? & ?). rewrite Hx in Hm. injection Hm as <-.
    split_and!; [done|done|done|]. apply (ok_open_minted _ Hd). by eapply file_at_dir.
  - split; [done|]. apply no_manifest_elsewhere; [by eapply loading_disk|done].
Qed.

(** *** Missing receipts *)

Lemma spec_repair_one o m now period key :
  proper key →
  spec (loading o m) (repair_one now period m key)
    (λ r c, match r with Ok m' => loading o m' c | Err _ => idle c end).
Proof.
  intros Hk. unfold repair_one. destruct (m !! key) eqn:Hm; [by apply spec_ret|].
  set (r := mkReceiptFile period now RPending).
  eapply spec_try with (R := λ _, loading o (<[key := r]> m)); [|intros _; by apply spec_ret].
  eapply spec_post; [|eapply spec_pre; [|by apply spec_write_receipt]].
  { intros [[]|e] c; [done|by intros ?%loading_idle]. }
  intros c Hl. split_and!; [done|done|]. intros id body Hin. exfalso. destruct Hl as [Hd _ Hr _].
  destruct (ok_accepted _ Hd _ _ _ Hin) as (_ & _ & r' & Hr' & _). rewrite (ro_disk _ _ Hr) in Hm by done. congruence.
Qed.
Lemma spec_repair_keys o m now period keys :
  (∀ key, key ∈ keys → proper key) →
  spec (loading o m) (fold_io (repair_one now period) m keys)
    (λ r c, match r with Ok m' => loading o m' c | Err _ => idle c end).
Proof.
  intros Hk. apply (spec_fold (λ _ m, loading o m)); [|done].
  intros done b key rest Hl. apply spec_repair_one, Hk. rewrite Hl. apply elem_of_app. right. by left.
Qed.

Lemma calm_repair now period m keys : calm (fold_io (repair_one now period) m keys).
Proof. unfold repair_one, write_receipt. calm_walk. Qed.
#[local] Hint Resolve calm_repair : calm.

Lemma spec_repair_dir o m now dir :
  dir ≠ op_id o →
  spec (loading o m) (repair_dir now m dir) (λ r c, match r with Ok m' => loading o m' c | Err _ => idle c end).
Proof.
  intros Hne. unfold repair_dir.
  assert (Hremove : spec (λ c, loading o m c ∧ elsewhere c dir) (_ ←? remove_payload_dir (In OpenRoot dir); ok m)
    (λ r c, match r with Ok m' => loading o m' c | Err _ => idle c end)).
  { eapply spec_try with (R := λ _, loading o m); [|intros _; by apply spec_ret].
    eapply spec_post; [|by apply spec_remove_spent]. intros [|] c; [done|apply loading_idle]. }
  eapply spec_bind; [apply spec_read_manifest|]. intros [[meta|]|e]; [|done|by apply spec_ret].
  eapply spec_pre with (P := loading o m); [by intros c (_ & ? & _)|].
  eapply spec_try; [apply spec_read_batches|]. intros files.
  destruct files as [|f files].
  { eapply spec_pre; [|exact Hremove]. intros c [Hl Hc]. split; [done|]. apply no_batches_elsewhere; [by eapply loading_disk|done]. }
  eapply spec_pre with (P := λ c, (∀ key, key ∈ (f :: files).*2 → proper key) ∧ loading o m c).
  { intros c [Hl [_ Hc]]. split; [|done]. intros key ([n k] & -> & Hin)%list_elem_of_fmap.
    apply Hc in Hin. by apply parse_batch_name_inv in Hin as [_ ?]. }
  apply spec_pull; [apply calm_repair|]. intros Hk. by apply spec_repair_keys.
Qed.

(** *** Outbox directories with a marker *)

Definition settling (o : OpenPeriod) (period : string) (keys done : list BatchKey) (m : Receipts) (c : Core) : Prop :=
  loading o m c ∧ period ∈ c_disposed c ∧ marks period keys done m.
#[local] Instance settling_stable o period keys done m : Stable (settling o period keys done m).
Proof. intros c d' (Hl & Hp & Hm) Ha. split_and!; [by apply held_stable|done|done]. Qed.

Lemma spec_settle_one o period keys done m state kr :
  state ≠ RPending → kr.1 ∈ keys → rf_period_id kr.2 = period →
  spec (settling o period keys done m) (settle_one state m kr)
    (λ r c, match r with Ok m' => settling o period keys (done ++ [kr.1]) m' c | Err _ => idle c end).
Proof.
  intros Hs Hk Hp. unfold settle_one. set (r := mkReceiptFile _ _ _). set (m' := <[kr.1 := r]> m).
  eapply spec_try with (R := λ _, settling o period keys (done ++ [kr.1]) m'); [|intros _; by apply spec_ret].
  unfold write_receipt. eapply spec_post; [|apply (spec_write_json (settling o period keys done m) (settling o period keys (done ++ [kr.1]) m'));
    [apply not_partial_receipt|by intros c [?%loading_disk _]|]].
  { intros [|] c; [done|]. by intros [?%loading_idle _]. }
  intros c bytes Hj (Hl & Hd & Hm) Hf. apply receipt_back in Hj.
  destruct (mk_only _ _ _ _ Hm _ Hk) as (r0 & Hr0 & Hp0). destruct Hl as [Hdk Hop Hre Hac].
  pose proof (ro_proper _ _ Hre _ _ Hr0) as Hpk. split_and!; [|done|by apply marks_insert].
  apply held_receipt; try done.
  - intros _. cbn. by rewrite Hp.
  - intros id body Hin. split; [|done]. cbn. rewrite Hp. rewrite (ro_disk _ _ Hre) in Hr0 by done.
    destruct (ok_accepted _ Hdk _ _ _ Hin) as (_ & _ & r1 & Hr1 & Hid & _). congruence.
Qed.

Lemma pending_of_spec period m kr :
  kr ∈ pending_of period m ↔ m !! kr.1 = Some kr.2 ∧ rf_period_id kr.2 = period ∧ rf_state kr.2 = RPending.
Proof.
  unfold pending_of. rewrite list_elem_of_filter, hash_list_spec. destruct kr as [key r]. rewrite elem_of_map_to_list. cbn. tauto.
Qed.
Lemma marks_pending period m : marks period (pending_of period m).*1 [] m.
Proof.
  split.
  - intros key r Hr Hp Hs. apply list_elem_of_fmap. exists (key, r). split; [done|]. by apply pending_of_spec.
  - intros key ([k r] & -> & (Hr & Hp & _)%pending_of_spec)%list_elem_of_fmap. by exists r.
  - by intros key r ?%not_elem_of_nil.
Qed.

Lemma spec_settle_pending o period m state :
  state ≠ RPending →
  spec (λ c, loading o m c ∧ period ∈ c_disposed c) (fold_io (settle_one state) m (pending_of period m))
    (λ r c, match r with Ok m' => loading o m' c ∧ settled period c | Err _ => idle c end).
Proof.
  intros Hs. set (l := pending_of period m). set (keys := l.*1).
  eapply spec_pre with (P := settling o period keys (([] : list (BatchKey * ReceiptFile)).*1) m).
  { intros c [Hl Hp]. split_and!; [done|done|apply marks_pending]. }
  apply (spec_fold (λ (done : list (BatchKey * ReceiptFile)) m, settling o period keys done.*1 m) (settle_one state) _ m l).
  - intros done b kr rest Hl. assert (Hin : kr ∈ l) by (rewrite Hl; apply elem_of_app; right; by left).
    pose proof Hin as (_ & Hp & _)%pending_of_spec. rewrite fmap_app.
    apply spec_settle_one; [done| |done]. by apply list_elem_of_fmap_2.
  - intros m' c (Hl & Hp & Hm). split; [done|]. destruct Hl as [Hd _ Hr _].
    intros key body Hin [r [Hre Hst]]. destruct (ok_accepted _ Hd _ _ _ Hin) as (Hk & _ & r' & Hr' & Hid & _).
    rewrite Hre in Hr'. injection Hr' as <-. rewrite <- (ro_disk _ _ Hr) in Hre by done.
    by eapply (mk_done _ _ _ _ Hm); [eapply (mk_all _ _ _ _ Hm)| |].
Qed.

Lemma calm_settle state m l : calm (fold_io (settle_one state) m l).
Proof. unfold settle_one, write_receipt. calm_walk. Qed.
#[local] Hint Resolve calm_settle : calm.

Lemma spec_remove_unneeded o m dir :
  spec (λ c, loading o m c ∧ unneeded c dir) (remove_payload_dir (In OutboxRoot dir)) (λ _, loading o m).
Proof.
  apply spec_remove.
  - intros c [Hl _]. split; [by eapply loading_disk|done].
  - intros c d' [Hl Hu] Hsh. assert (loading o m (with_disk d' c)) by by eapply held_shrink_outbox.
    split; [by eapply loading_disk|done].
Qed.
Lemma spec_remove_outbox o m dir :
  spec (λ c, loading o m c ∧ unneeded c dir) (_ ←? remove_payload_dir (In OutboxRoot dir); ok m)
    (λ r c, match r with Ok m' => loading o m' c | Err _ => idle c end).
Proof.
  eapply spec_try with (R := λ _, loading o m); [|intros _; by apply spec_ret].
  eapply spec_post; [|apply spec_remove_unneeded]. intros [|] c; [done|apply loading_idle].
Qed.
Lemma settled_unneeded c dir period : fits dir period → settled period c → unneeded c dir.
Proof.
  intros (s & Hs & ->) Hset. right. intros s' id key body Hs' He Hin Hp. apply final_name_inj in He as <-; [|done|done].
  by destruct (Hset key body Hin).
Qed.

Lemma spec_settle_dir o m dir :
  spec (loading o m) (settle_dir m dir) (λ r c, match r with Ok m' => loading o m' c | Err _ => idle c end).
Proof.
  unfold settle_dir. destruct (is_staging dir) eqn:Hns; [by apply spec_ret|].
  eapply spec_try with (R := λ marker c, loading o m c ∧ match marker with
    | Some state => state ≠ RPending ∧ ∀ start id, (0 ≤ start)%Z → dir = final_name start id → id ∈ c_disposed c
    | None => True end).
  { eapply spec_reads; [apply reads_read_json|by intros c ?%loading_disk|].
    intros c [[state|]|e] Hl Hv; [|done|by eapply loading_idle]. split; [done|]. destruct Hv as (x & Hf & Hx).
    apply loading_disk in Hl. by eapply ok_marker. }
  intros [state|]; [|by apply spec_ret; intros c [? _]].
  eapply spec_try with (R := λ meta c, match meta with
    | Some meta => (state ≠ RPending ∧ fits dir (obf_period_id meta)) ∧ loading o m c ∧ obf_period_id meta ∈ c_disposed c
    | None => loading o m c ∧ unneeded c dir end).
  { eapply spec_reads; [apply reads_read_json|by intros c [?%loading_disk _]|].
    intros c [[meta|]|e] [Hl [Hs Hd]] Hv; [|by split; [|left]|by eapply loading_idle]. destruct Hv as (x & Hf & Hx).
    destruct (ok_outbox_meta _ (loading_disk _ _ _ Hl) _ _ _ Hns Hf Hx) as [Hst Hn].
    split_and!; [done|by eexists|done|by eapply Hd]. }
  intros [meta|]; [|apply spec_remove_outbox].
  apply spec_pull; [calm_walk|]. intros [Hs Hfit].
  eapply spec_try; [by apply spec_settle_pending|]. intros m'. eapply spec_pre; [|apply spec_remove_outbox].
  intros c [Hl Hset]. split; [done|by eapply settled_unneeded].
Qed.

(** *** Open files whose batch is settled *)

Local Notation leaves o m := (λ r c, match r with Ok _ => loading o m c | Err _ => idle c end).

Lemma spec_clean_file o m dir name key :
  parse_batch_name name = Some key →
  spec (loading o m) (if terminal_in m key then remove_file (In OpenRoot dir) name else ok tt) (leaves o m).
Proof.
  intros Hn. destruct (terminal_in m key) eqn:Ht; [|by apply spec_ret].
  pose proof (parse_batch_name_inv _ _ Hn) as [_ Hk].
  apply spec_remove_file.
  - intros c Hl. split; [by eapply loading_disk|]. intros [|]; [done|by eapply loading_idle].
  - intros c Hl. assert (Hl' : loading o m (with_disk (change_file (In OpenRoot dir) name None (c_disk c)) c)).
    { apply held_open_file; [intros ->; by vm_compute in Hn| |done].
      intros key' id body Hn' _ [r [Hr Hp]]. assert (key' = key) as -> by congruence.
      destruct Hl as [_ _ Hre _]. unfold terminal_in in Ht. rewrite (ro_disk _ _ Hre), Hr in Ht by done.
      by rewrite bool_decide_true in Ht. }
    intros [|]; [done|by eapply loading_idle].
Qed.
Lemma spec_clean_files o m dir files :
  (∀ name key, (name, key) ∈ files → parse_batch_name name = Some key) →
  spec (loading o m) (each_io (λ f, if terminal_in m f.2 then remove_file (In OpenRoot dir) f.1 else ok tt) files) (leaves o m).
Proof.
  intros Hf. apply (spec_fold (λ _ _, loading o m)); [|done].
  intros done [] [name key] rest Hl. apply spec_clean_file, Hf. rewrite Hl. apply elem_of_app. right. by left.
Qed.

Lemma spec_clean_dir o m dir : dir ≠ op_id o → spec (loading o m) (clean_dir m dir) (leaves o m).
Proof.
  intros Hne. unfold clean_dir. eapply spec_bind; [apply spec_quiet; [apply quiet_is_dir|by intros c ?%loading_disk]|].
  intros there. destruct there; [|by apply spec_ret]. cbn [negb].
  eapply spec_try; [apply spec_read_batches|]. intros files.
  eapply spec_pre with (P := λ c, (∀ name key, (name, key) ∈ files → parse_batch_name name = Some key) ∧ loading o m c).
  { by intros c [? [_ ?]]. }
  apply spec_pull; [unfold each_io, remove_file; calm_walk|]. intros Hf.
  eapply spec_try; [by apply spec_clean_files|]. intros [].
  eapply spec_try; [apply spec_read_batches|]. intros [|f rest]; [|by apply spec_ret; intros c [? _]].
  eapply spec_pre; [|eapply spec_post; [|by apply (spec_remove_spent o m)]].
  - intros c [Hl Hc]. split; [done|]. apply no_batches_elsewhere; [by eapply loading_disk|done].
  - intros [|] c; [done|apply loading_idle].
Qed.

(** *** Finishing them *)

Lemma spec_finish_dir o m now dir : dir ≠ op_id o → spec (loading o m) (finish_dir now dir) (leaves o m).
Proof.
  intros Hne. unfold finish_dir. eapply spec_bind; [apply spec_quiet; [apply quiet_is_dir|by intros c ?%loading_disk]|].
  intros there. destruct there; [|by apply spec_ret]. cbn [negb].
  eapply spec_bind; [apply spec_read_manifest|]. intros [[meta|]|e]; [|by apply spec_ret; intros c [? _]|by apply spec_ret].
  apply spec_pull; [calm_walk|]. intros [<- Hst].
  set (P := λ c, loading o m c ∧ opf_period_id meta ∈ c_minted c). assert (HP : ∀ c, P c → disk_ok c) by by intros c [?%loading_disk _].
  eapply spec_bind; [apply (spec_quiet P); [apply quiet_batch_files|done]|]. intros files. unfold P.
  destruct files as [files|e]; [|apply spec_ret; by intros c [?%loading_idle _]].
  destruct files as [|f files]; [apply spec_ret; by intros c [? _]|].
  eapply spec_bind; [apply (spec_quiet P); [apply quiet_dir_payload_bytes|done]|]. intros n.
  set (period := mkOpenPeriod _ _ _ _ _ _).
  eapply spec_try with (R := λ _, loading o m); [|intros _; by apply spec_ret].
  eapply spec_post; [|apply (spec_finalize_dir o m (λ st, cu_active st = None) period); [done|done]].
  intros [|] c [Hh _]; [done|by apply loading_idle in Hh].
Qed.

Lemma spec_drop_staging_dir o m dir : spec (loading o m) (drop_staging dir) (leaves o m).
Proof.
  unfold drop_staging. destruct (is_staging dir) eqn:Hst; [|by apply spec_ret].
  eapply spec_pre; [|eapply spec_post; [|apply (spec_remove_unneeded o m)]].
  - intros c Hl. split; [done|]. right. intros s id key body Hs ->. by rewrite final_name_not_staging in Hst.
  - intros [|] c; [done|apply loading_idle].
Qed.

(** A pass over directories. *)
Lemma spec_pass o m (f : string → IO (result unit io_error)) dirs :
  (∀ dir, dir ∈ dirs → spec (loading o m) (f dir) (leaves o m)) →
  spec (loading o m) (each_io f dirs) (leaves o m).
Proof.
  intros Hf. apply (spec_fold (λ _ _, loading o m)); [|done].
  intros done [] dir rest Hl. apply Hf. rewrite Hl. apply elem_of_app. right. by left.
Qed.
Lemma spec_gather (o : OpenPeriod) (f : Receipts → string → IO (result Receipts io_error)) (m : Receipts) (dirs : list string) :
  (∀ m dir, dir ∈ dirs → spec (loading o m) (f m dir) (λ r c, match r with Ok m' => loading o m' c | Err _ => idle c end)) →
  spec (loading o m) (fold_io f m dirs) (λ r c, match r with Ok m' => loading o m' c | Err _ => idle c end).
Proof.
  intros Hf. apply (spec_fold (λ _ m, loading o m)); [|done].
  intros done b dir rest Hl. apply Hf. rewrite Hl. apply elem_of_app. right. by left.
Qed.

(** ** The whole load *)

Lemma reads_filter {A} (f : A → IO bool) l : (∀ a, quiet (f a)) → reads (filter_io f l) (λ _ out, ∀ a, a ∈ out → a ∈ l).
Proof.
  intros Hf. induction l as [|x l IH]; cbn [filter_io].
  { eapply reads_weaken; [|apply reads_ret]. by intros d out ->. }
  eapply reads_weaken; [|eapply reads_bind; [apply reads_quiet, Hf|intros b; eapply reads_bind; [apply IH|intros rest; apply reads_ret]]].
  intros d out (b & _ & rest & Hr & ->) a Ha. destruct b; [|right; by apply Hr].
  apply elem_of_cons in Ha as [->|Ha]; [by left|right; by apply Hr].
Qed.
Lemma reads_read_root r : reads (read_root r) (λ d res, match res with
  | Ok names => ∀ name, name ∈ names → is_Some (files_at (In r name) d) | Err _ => True end).
Proof.
  eapply reads_weaken; [|apply reads_look]. intros d res [->| ->]; [|done].
  destruct (root_at r d) as [f|] eqn:Hf; cbn; [|done]. intros name. unfold files_at. rewrite Hf. cbn.
  rewrite list_elem_of_fmap. intros ([k v] & -> & Hin). rewrite dir_list_spec in Hin. apply elem_of_map_to_list in Hin. by eauto.
Qed.

Lemma calm_repair_dir now m dir : calm (repair_dir now m dir).
Proof. unfold repair_dir. calm_walk. Qed.
Lemma calm_settle_dir m dir : calm (settle_dir m dir).
Proof. unfold settle_dir. calm_walk. Qed.
Lemma calm_clean_dir m dir : calm (clean_dir m dir).
Proof. unfold clean_dir, each_io, remove_file. calm_walk. Qed.
Lemma calm_finish_dir now dir : calm (finish_dir now dir).
Proof. unfold finish_dir. calm_walk. Qed.
Lemma calm_drop_staging dir : calm (drop_staging dir).
Proof. unfold drop_staging. calm_walk. Qed.
#[local] Hint Resolve calm_repair_dir calm_settle_dir calm_clean_dir calm_finish_dir calm_drop_staging : calm.

(** The tail of [load], once the receipts and the previous open periods are known. *)
Definition load_rest (now_ms : Z) (open : OpenPeriod) (receipts : Receipts) (open_dirs : list string) : IO (result unit io_error) :=
  receipts ←? fold_io (repair_dir now_ms) receipts open_dirs;
  outbox_dirs ←? list_dirs OutboxRoot;
  receipts ←? fold_io settle_dir receipts outbox_dirs;
  _ ←? each_io (clean_dir receipts) open_dirs;
  _ ←? each_io (finish_dir now_ms) open_dirs;
  outbox_dirs ←? list_dirs OutboxRoot;
  _ ←? each_io drop_staging outbox_dirs;
  _ ← set_active (Some (mkActive open receipts 0 ∅));
  _ ← refresh_full;
  ok tt.

Local Notation loaded := (λ r c, match r with Ok _ => Inv c | Err _ => idle c end).

Lemma spec_list_dirs o m r : spec (loading o m) (list_dirs r) (leaves o m).
Proof.
  eapply spec_post; [|apply spec_quiet; [apply quiet_list_dirs|by intros c ?%loading_disk]].
  intros [|] c; [done|apply loading_idle].
Qed.

Lemma spec_load_rest now o m dirs :
  (∀ dir, dir ∈ dirs → dir ≠ op_id o) → spec (loading o m) (load_rest now o m dirs) loaded.
Proof.
  intros Hd. unfold load_rest.
  eapply spec_try; [apply spec_gather; intros m' dir Hin; by apply spec_repair_dir, Hd|]. intros m1.
  eapply spec_try; [apply spec_list_dirs|]. intros boxes.
  eapply spec_try; [apply spec_gather; intros m' dir _; apply spec_settle_dir|]. intros m2.
  eapply spec_try; [apply spec_pass; intros dir Hin; by apply spec_clean_dir, Hd|]. intros [].
  eapply spec_try; [apply spec_pass; intros dir Hin; by apply spec_finish_dir, Hd|]. intros [].
  eapply spec_try; [apply spec_list_dirs|]. intros boxes'.
  eapply spec_try; [apply spec_pass; intros dir _; apply spec_drop_staging_dir|]. intros [].
  eapply spec_bind with (R := λ _, Inv).
  { apply spec_set_active. intros c st Hl Hst _. by eapply held_to_Inv. }
  intros _. eapply spec_bind with (R := λ _, Inv); [apply spec_refresh_full; [apply _|apply Inv_disk]|].
  intros _. by apply spec_ret.
Qed.

Lemma calm_load_rest now o m dirs : calm (load_rest now o m dirs).
Proof. unfold load_rest, each_io, set_active. calm_walk. Qed.

Lemma spec_load now : (0 ≤ now)%Z → spec idle (load now) loaded.
Proof.
  intros Hnow. unfold load.
  assert (Hidle : ∀ (m : IO (result unit io_error)), spec idle m (λ _, idle) →
    spec idle m (λ r c, match r with Ok _ => idle c | Err _ => idle c end)).
  { intros m Hm. eapply spec_post; [|exact Hm]. by intros [|]. }
  eapply spec_try with (R := λ _, idle).
  { apply Hidle. apply (spec_fold (λ _ _, idle)); [|done]. intros. eapply spec_post; [|apply spec_remove_legacy]. by intros [|]. }
  intros _. eapply spec_try with (R := λ _, idle); [apply Hidle, spec_create_root|].
  intros _. eapply spec_try with (R := λ _, idle); [apply Hidle, spec_create_receipts|].
  intros _. eapply spec_try with (R := λ _, idle); [apply Hidle, spec_create_root|].
  intros _. eapply spec_bind; [by apply spec_load_open|]. intros o.
  eapply spec_try with (R := λ m c, ready o c ∧ receipts_ok c m); [apply spec_load_receipts|]. intros m.
  eapply spec_try with (R := λ names c, (∀ name, name ∈ names → name ≠ op_id o) ∧ loading o m c).
  { eapply spec_reads; [apply reads_read_root|by intros c [?%ready_disk _]|].
    intros c [names|e] [[[Hd Ha] Ho] Hr] Hn; [|done]. split; [|by split; [| apply Ho| |]].
    intros name Hin ->. destruct (Hn _ Hin) as [x Hx]. rewrite (fo_no_dir _ _ Ho) in Hx. done. }
  intros names.
  eapply spec_bind with (R := λ dirs c, (∀ name, name ∈ dirs → name ≠ op_id o) ∧ loading o m c).
  { eapply spec_reads; [apply reads_filter; intros; apply quiet_is_dir|by intros c [_ ?%loading_disk]|].
    intros c dirs [Hn Hl] Hd. split; [|done]. intros name Hin. by apply Hn, Hd. }
  intros dirs. apply (spec_pull (∀ name, name ∈ dirs → name ≠ op_id o) (loading o m) (load_rest now o m (merge_sort String.le dirs)));
    [apply calm_load_rest|].
  intros Hn. apply spec_load_rest. intros dir. rewrite merge_sort_Permutation. apply Hn.
Qed.

Lemma calm_load now : calm (load now).
Proof.
  unfold load. unfold each_io, remove_legacy, create_root, create_receipts, load_receipts, new_open, policy, set_active, remove_file.
  calm_walk.
Qed.
Lemma calm_open_store pol now : calm (open_store pol now).
Proof. unfold open_store. apply calm_bind; [by intros w|]. intros []. apply calm_bind; [apply calm_load|]. intros [[]|e]; by intros w. Qed.

(** Opening needs nothing but a disk in order. *)
Lemma spec_open_store pol now : (0 ≤ now)%Z → spec disk_ok (open_store pol now) (λ _, Inv).
Proof.
  intros Hnow. unfold open_store. eapply spec_bind with (R := λ _, idle).
  { apply spec_store_with. intros c Hd. split; [by apply disk_ok_store|done]. }
  intros _. eapply spec_bind; [by apply spec_load|]. intros [[]|e]; [by apply spec_ret|].
  apply spec_store_with. intros c Hi. apply Inv_store; [by apply idle_Inv|]. by destruct Hi as [_ ->].
Qed.
End loading.
