(* ===== verification/BrowserHub.v ===== *)
(** * The browser hub (crates/browser-host/src/hub.rs, upload.rs)

    The app's side of the browser host: the capture gate it advertises, the
    sessions of the connected browsers, the batches it offers to the custody
    store, and the passes that deliver finished periods to the journal. A hub
    operation runs on the hub's own record and on the custody store's [World];
    [hb_sent] records what was broadcast to the sessions.

    A session's loop is one function per event. A delivery pass is cut at its
    awaits, where other operations may come between: listing, reserving and
    reading the next entry, the upload, and its outcome. *)
From Stdlib Require Import Ascii String.
From stdpp Require Import sorting.
From S2P Require Import Prelude RustStr PauseStore Ingest Admission About Custody.

Local Open Scope list_scope.

(** ** Data *)

Definition MAX_SESSIONS : Z := 16.

Inductive Pairing : Type := NotPaired | Paired (identity : option string).
#[global] Instance Pairing_eq_dec : EqDecision Pairing.
Proof. solve_decision. Defined.

Record Gates : Type := mkGates { g_pairing : Pairing; g_paused : bool; g_away : bool }.
#[global] Instance Gates_eq_dec : EqDecision Gates.
Proof. solve_decision. Defined.
Definition default_gates : Gates := mkGates NotPaired false false.

Inductive Publication : Type :=
  | PState (about : NativeAboutSnapshot)
  | PBoundary
  | PBye (reason : string) (target : option Z).

Record SessionEntry : Type := mkSessionEntry { se_brand : string; se_inst : string; se_connected_at : Z }.

Record Hub : Type := mkHub {
  hb_development : bool;
  hb_version : string;
  hb_generation : option string;
  hb_counter : Z;
  hb_gates : Gates;
  hb_about : NativeAboutSnapshot;
  hb_failure : option string;
  hb_quiescing : bool;
  hb_sessions : gmap Z SessionEntry;
  hb_next : Z;
  hb_sent : list Publication
}.

Definition with_generation (g : option string) (h : Hub) : Hub :=
  mkHub (hb_development h) (hb_version h) g (hb_counter h) (hb_gates h) (hb_about h) (hb_failure h) (hb_quiescing h)
    (hb_sessions h) (hb_next h) (hb_sent h).
Definition with_counter (n : Z) (h : Hub) : Hub :=
  mkHub (hb_development h) (hb_version h) (hb_generation h) n (hb_gates h) (hb_about h) (hb_failure h) (hb_quiescing h)
    (hb_sessions h) (hb_next h) (hb_sent h).
Definition with_gates (g : Gates) (h : Hub) : Hub :=
  mkHub (hb_development h) (hb_version h) (hb_generation h) (hb_counter h) g (hb_about h) (hb_failure h) (hb_quiescing h)
    (hb_sessions h) (hb_next h) (hb_sent h).
Definition with_about (a : NativeAboutSnapshot) (h : Hub) : Hub :=
  mkHub (hb_development h) (hb_version h) (hb_generation h) (hb_counter h) (hb_gates h) a (hb_failure h) (hb_quiescing h)
    (hb_sessions h) (hb_next h) (hb_sent h).
Definition with_failure (f : option string) (h : Hub) : Hub :=
  mkHub (hb_development h) (hb_version h) (hb_generation h) (hb_counter h) (hb_gates h) (hb_about h) f (hb_quiescing h)
    (hb_sessions h) (hb_next h) (hb_sent h).
Definition with_quiescing (q : bool) (h : Hub) : Hub :=
  mkHub (hb_development h) (hb_version h) (hb_generation h) (hb_counter h) (hb_gates h) (hb_about h) (hb_failure h) q
    (hb_sessions h) (hb_next h) (hb_sent h).
Definition with_sessions (s : gmap Z SessionEntry) (next : Z) (h : Hub) : Hub :=
  mkHub (hb_development h) (hb_version h) (hb_generation h) (hb_counter h) (hb_gates h) (hb_about h) (hb_failure h)
    (hb_quiescing h) s next (hb_sent h).
Definition published (p : Publication) (h : Hub) : Hub :=
  mkHub (hb_development h) (hb_version h) (hb_generation h) (hb_counter h) (hb_gates h) (hb_about h) (hb_failure h)
    (hb_quiescing h) (hb_sessions h) (hb_next h) (hb_sent h ++ [p]).

(** The messages of a session. *)
Record StateMessage : Type := mkStateMessage {
  sm_capture : string;
  sm_delivery : string;
  sm_generation : option string;
  sm_period : option string;
  sm_failure : option string;
  sm_full : bool;
  sm_stale : bool;
  sm_away : bool;
  sm_version : string;
  sm_about : NativeAboutSnapshot
}.
Inductive BatchAnswer : Type :=
  | AnsweredAccepted (period : string)
  | AnsweredDuplicate (period : string)
  | AnsweredRejected (reason class : string).
Inductive HostMessage : Type :=
  | MHelloAck (m : StateMessage)
  | MState (m : StateMessage)
  | MAccepted (answer : BatchAnswer) (generation inst batch_id : string)
  | MBoundary (generation period : string)
  | MBye (reason : string).

(** ** Hub operations *)

Definition HIO (A : Type) : Type := Hub → IO (A * Hub).
Definition hret {A} (a : A) : HIO A := λ h, mret (a, h).
Definition hbind {A B} (m : HIO A) (k : A → HIO B) : HIO B := λ h, r ← m h; k r.1 r.2.
Notation "x ⇐ m ; k" := (hbind m (λ x, k)) (at level 20, m at level 100, k at level 200, only parsing).
Definition lift {A} (m : IO A) : HIO A := λ h, a ← m; mret (a, h).
Definition hub_get {A} (f : Hub → A) : HIO A := λ h, mret (f h, h).
Definition hub_put (f : Hub → Hub) : HIO unit := λ h, mret (tt, f h).

Definition publish (p : Publication) : HIO unit := hub_put (published p).
Definition publish_state : HIO unit := λ h, publish (PState (hb_about h)) h.

Definition destination_key (g : Gates) : option string :=
  match g_pairing g with NotPaired => None | Paired identity => Some (default EmptyString identity) end.
Definition is_paired (g : Gates) : bool := match g_pairing g with Paired _ => true | NotPaired => false end.

(** A digest of the salt, the clock, the counter and the process id; the
    world supplies it. *)
Definition take_token : IO string := λ w,
  (Some (default EmptyString (head (w_tokens w))),
   mkWorld (w_disk w) (w_store w) (w_verdicts w) (tail (w_tokens w)) (w_minted w) (w_accepted w) (w_disposed w) (w_half w)).
Definition mint_generation (salt : string) : HIO string :=
  token ⇐ lift take_token;
  _ ⇐ hub_put (λ h, with_counter (wrap_u64 (hb_counter h + 1)) h);
  hret (String.substring 0 32 token).

Definition update_gates (gates : Gates) : HIO unit := λ h,
  (if bool_decide (hb_gates h = gates) then hret tt
   else
     let destination_changed := negb (bool_decide (destination_key (hb_gates h) = destination_key gates)) in
     _ ⇐ hub_put (with_gates gates);
     _ ⇐ (if destination_changed
          then hub_put (λ h, with_about (unknown (sn_os (hb_about h)) (sn_os_version (hb_about h)) (sn_arch (hb_about h))) h)
          else hret tt);
     state_about ⇐ hub_get hb_about;
     _ ⇐ (if destination_changed then
            g ⇐ mint_generation (default EmptyString (destination_key gates));
            _ ⇐ hub_put (with_generation (Some g));
            hub_put (with_failure None)
          else hret tt);
     publish (PState state_about)) h.

Definition update_about_snapshot (snapshot : NativeAboutSnapshot) : HIO unit := λ h,
  (if negb (is_ok (validate snapshot)) then hret tt
   else
     let snapshot := if is_paired (hb_gates h) then snapshot
                     else unknown (sn_os snapshot) (sn_os_version snapshot) (sn_arch snapshot) in
     if bool_decide (hb_about h = snapshot) then hret tt
     else _ ⇐ hub_put (with_about snapshot); publish_state) h.

Definition set_delivery_failure (failure : option string) : HIO unit := λ h,
  (if bool_decide (hb_failure h = failure) then hret tt
   else _ ⇐ hub_put (with_failure failure); publish_state) h.

Definition generation_for_pairing (gates : Gates) : HIO (option string) :=
  if negb (is_paired gates) then hret None
  else
    g ⇐ hub_get hb_generation;
    match g with
    | Some g => hret (Some g)
    | None =>
      g ⇐ mint_generation (default EmptyString (destination_key gates));
      _ ⇐ hub_put (with_generation (Some g));
      hret (Some g)
    end.

Definition resume : HIO unit := hub_put (with_quiescing false).

(** *** Sessions *)

Definition same_browser (brand inst : string) (s : SessionEntry) : Prop := se_brand s = brand ∧ se_inst s = inst.
#[global] Instance same_browser_dec brand inst s : Decision (same_browser brand inst s).
Proof. unfold same_browser. apply _. Defined.

(** [order] is the order in which the map gives up its entries. *)
Definition register (order : gmap Z SessionEntry → list (Z * SessionEntry)) (brand inst : string) (now : Z) : HIO (option Z) := λ h,
  (let replaced := (filter (λ e, same_browser brand inst e.2) (order (hb_sessions h))).*1 in
   if (MAX_SESSIONS <=? Z.of_nat (size (hb_sessions h)) - Z.of_nat (length replaced))%Z then hret None
   else
     _ ⇐ hub_put (λ h, foldl (λ h id, published (PBye "replaced" (Some id)) (with_sessions (delete id (hb_sessions h)) (hb_next h) h)) h replaced);
     id ⇐ hub_get hb_next;
     _ ⇐ hub_put (λ h, with_sessions (<[id := mkSessionEntry brand inst now]> (hb_sessions h)) (wrap_u64 (id + 1)) h);
     hret (Some id)) h.

Definition unregister (id : Z) : HIO unit := hub_put (λ h, with_sessions (delete id (hb_sessions h)) (hb_next h) h).

Section hub.
Context `{CustodyLib} `{DirOrder} `{HashOrder}.

Definition hub_tick (now : Z) : HIO unit :=
  rotated ⇐ lift (custody_tick now);
  if rotated : bool then _ ⇐ publish PBoundary; publish_state else hret tt.

Definition hub_delivered (entry : OutboxEntry) : HIO (result unit io_error) :=
  r ⇐ lift (delivered entry); _ ⇐ publish_state; hret r.
Definition hub_discard_waiting (now : Z) : HIO Z :=
  left ⇐ lift (discard_waiting now); _ ⇐ publish_state; hret left.

(** [quiesce] up to its wait for the sessions to leave. *)
Definition quiesce (now : Z) : HIO unit :=
  _ ⇐ hub_put (with_quiescing true);
  _ ⇐ publish (PBye "update" None);
  _ ⇐ lift (finalize_now now);
  hret tt.

Record Computed : Type := mkComputed {
  co_capture : string;
  co_delivery : string;
  co_failure : option string;
  co_generation : option string;
  co_period : option string;
  co_custody : CustodyStatus;
  co_away : bool
}.

Definition delivery_failure (custody : CustodyStatus) (upload_failure : option string) : option string :=
  if cs_failed custody then Some "local_io"
  else if (0 <? cs_held_bytes custody)%Z then upload_failure else None.
Definition delivery_word (custody : CustodyStatus) (upload_failure : option string) (paired : bool) : string :=
  match delivery_failure custody upload_failure with
  | Some _ => "failed"
  | None => if (0 <? cs_held_bytes custody)%Z then "kept_locally" else if paired then "idle" else "unknown"
  end.
Definition capture_word (quiescing : bool) (custody : CustodyStatus) (gates : Gates) : string :=
  if quiescing || cs_failed custody then "unavailable"
  else if negb (is_paired gates) then "not_paired"
  else if g_paused gates then "paused"
  else if cs_full custody then "intake_off"
  else "permitted".

Definition compute (now : Z) : HIO Computed := λ h,
  (custody ⇐ lift (custody_status now);
   let gates := hb_gates h in
   let capture := capture_word (hb_quiescing h) custody gates in
   let df := delivery_failure custody (hb_failure h) in
   let failure := match df with Some f => Some f | None => if cs_full custody then Some "queue_full" else None end in
   gp ⇐ (if bool_decide (capture = "unavailable") || bool_decide (capture = "not_paired") then hret (None, None)
         else g ⇐ generation_for_pairing gates; hret (g, cs_period_id custody));
   hret (mkComputed capture (delivery_word custody (hb_failure h) (is_paired gates)) failure gp.1 gp.2 custody (g_away gates))) h.

Definition state_message (now : Z) (about : NativeAboutSnapshot) : HIO StateMessage :=
  c ⇐ compute now;
  version ⇐ hub_get hb_version;
  hret (mkStateMessage (co_capture c) (co_delivery c) (co_generation c) (co_period c) (co_failure c)
          (cs_full (co_custody c)) (cs_stale (co_custody c)) (co_away c) version about).

Record ConnectedBrowser : Type := mkConnected { cb_brand : string; cb_connected_at : Z }.
Definition connected_le (a b : ConnectedBrowser) : Prop :=
  if String.eqb (cb_brand a) (cb_brand b) then (cb_connected_at a ≤ cb_connected_at b)%Z else String.le (cb_brand a) (cb_brand b).
#[local] Instance connected_le_dec a b : Decision (connected_le a b).
Proof. unfold connected_le. destruct (String.eqb _ _); apply _. Defined.
Definition hub_status (order : gmap Z SessionEntry → list (Z * SessionEntry)) (now : Z) : HIO (Computed * list ConnectedBrowser) :=
  c ⇐ compute now;
  sessions ⇐ hub_get hb_sessions;
  hret (c, merge_sort connected_le ((λ e, mkConnected (se_brand e.2) (se_connected_at e.2)) <$> order sessions)).

(** *** Offering a batch *)

Definition json_records (v : JsonValue) : list JsonValue :=
  match v with JObject m => match json_get "records" m with Some (JArray l) => l | _ => [] end | _ => [] end.
Definition json_queued_at (v : JsonValue) : Z :=
  match v with JObject m => default 0%Z (json_get "queued_at_ms" m ≫= as_u64) | _ => 0%Z end.
Definition open_period_id : IO (option string) :=
  a ← active; mret (op_id ∘ ac_open <$> a).
Definition answer (r : BatchResult) : BatchAnswer :=
  match r with
  | Accepted period => AnsweredAccepted period
  | Duplicate period => AnsweredDuplicate period
  | Rejected reason => AnsweredRejected reason (rejection_class reason)
  end.

Definition hub_offer (batch : JsonValue) (inst : string) (now : Z) : HIO HostMessage := λ h,
  (let batch_generation := default EmptyString (json_field "destination_generation" batch) in
   let batch_id := default EmptyString (json_field "batch_id" batch) in
   let gates := hb_gates h in
   result ⇐ (if hb_quiescing h || negb (is_paired gates) then hret exhausted
             else
               let input := mkBatchInput batch_generation inst batch_id (json_queued_at batch) (json_records batch) in
               before ⇐ lift open_period_id;
               r ⇐ lift (offer input now);
               after ⇐ lift open_period_id;
               _ ⇐ (if bool_decide (before = after) then hret tt else publish PBoundary);
               _ ⇐ (match r with
                    | Accepted _ => publish_state
                    | Rejected reason => if bool_decide (reason = "queue_full") then publish_state else hret tt
                    | Duplicate _ => hret tt
                    end);
               hret r);
   g ⇐ generation_for_pairing gates;
   hret (MAccepted (answer result) (default batch_generation g) inst batch_id)) h.

(** *** A session's loop *)

Record Session : Type := mkSession { ss_id : Z; ss_inst : string; ss_generation : option string; ss_period : option string }.
Inductive SessionEvent : Type :=
  | EvBatch (batch : JsonValue) | EvBadFrame | EvPublication (p : Publication) | EvLagged | EvRenew.

Definition mark_sent (s : Session) (m : StateMessage) : Session :=
  mkSession (ss_id s) (ss_inst s) (sm_generation m) (sm_period m).
Definition hello (id : Z) (inst : string) (now : Z) : HIO (Session * list HostMessage) := λ h,
  (m ⇐ state_message now (hb_about h);
   hret (mkSession id inst (sm_generation m) (sm_period m), [MHelloAck m])) h.
Definition send_state (s : Session) (now : Z) (about : NativeAboutSnapshot) : HIO (option Session * list HostMessage) :=
  m ⇐ state_message now about;
  hret (Some (mark_sent s m), [MState m]).

(** One turn of the loop: the session that goes on, or none when it ends, and
    what is sent. *)
Definition session_turn (s : Session) (now : Z) (e : SessionEvent) : HIO (option Session * list HostMessage) := λ h,
  (match e with
   | EvBadFrame => hret (None, [])
   | EvBatch batch =>
     if bool_decide (json_field "inst" batch = Some (ss_inst s)) then
       reply ⇐ hub_offer batch (ss_inst s) now; hret (Some s, [reply])
     else hret (None, [])
   | EvPublication (PBye reason target) =>
     if match target with None => true | Some t => (t =? ss_id s)%Z end then hret (None, [MBye reason]) else hret (Some s, [])
   | EvPublication PBoundary =>
     m ⇐ state_message now (hb_about h);
     match sm_generation m, sm_period m with
     | Some g, Some p =>
       if bool_decide (sm_generation m = ss_generation s) && negb (bool_decide (sm_period m = ss_period s))
       then hret (Some (mkSession (ss_id s) (ss_inst s) (ss_generation s) (sm_period m)), [MBoundary g p])
       else hret (Some s, [])
     | _, _ => hret (Some s, [])
     end
   | EvPublication (PState about) => send_state s now about
   | EvLagged => send_state s now (hb_about h)
   | EvRenew => send_state s now (hb_about h)
   end) h.

(** ** Delivery *)

Inductive UploadOutcome : Type := UploadDelivered | UploadHeld | UploadFailed (code : string).
Record PassSummary : Type := mkSummary { ps_delivered : Z; ps_remaining : Z }.

(** Where a pass stands between two awaits. *)
Inductive Pass : Type :=
  | Looping (summary : PassSummary) (entries : list OutboxEntry)
  | Unreadable (summary : PassSummary) (entry : OutboxEntry)
  | Sending (summary : PassSummary) (entry : OutboxEntry) (body : string) (entries : list OutboxEntry)
  | Ended (summary : PassSummary).

Definition start_pass : HIO Pass :=
  entries ⇐ lift outbox;
  hret (Looping (mkSummary 0 (Z.of_nat (length entries))) entries).

Definition body_matches (entry : OutboxEntry) (body : string) : bool :=
  (Z.of_nat (String.length body) =? oe_size entry)%Z && String.eqb (hex (sha256_digest body)) (oe_sha256 entry).

(** The client has been loaded ([journal]): reserve the next entry and read it. *)
Definition pass_next (journal : bool) (summary : PassSummary) (entries : list OutboxEntry) : HIO Pass :=
  match entries with
  | [] => hret (Ended summary)
  | entry :: entries =>
    if negb journal then hret (Ended summary)
    else
      reserved ⇐ lift (reserve entry);
      if negb reserved then hret (Looping summary entries)
      else
        r ⇐ lift (read_file (In OutboxRoot (oe_dir entry)) PAGES_FILE);
        match r with
        | Ok body => if body_matches entry body then hret (Sending summary entry body entries) else hret (Unreadable summary entry)
        | Err _ => hret (Unreadable summary entry)
        end
  end.

Definition note_failure (still : bool) (failure : option string) : HIO unit :=
  if still then set_delivery_failure failure else hret tt.

(** The pages could not be read back: the reservation drops on return. *)
Definition pass_unreadable (still : bool) (summary : PassSummary) (entry : OutboxEntry) : HIO Pass :=
  _ ⇐ note_failure still (Some "local_io");
  _ ⇐ lift (release entry);
  hret (Ended summary).

(** The upload's outcome; [still] says the connection is still the current one. *)
Definition pass_outcome (still : bool) (outcome : UploadOutcome) (summary : PassSummary) (entry : OutboxEntry)
    (entries : list OutboxEntry) : HIO Pass :=
  match outcome with
  | UploadDelivered =>
    r ⇐ hub_delivered entry;
    match r with
    | Err _ => _ ⇐ note_failure still (Some "local_io"); _ ⇐ lift (release entry); hret (Ended summary)
    | Ok _ =>
      _ ⇐ note_failure still None;
      hret (Looping (mkSummary (wrap_u64 (ps_delivered summary + 1)) (sat_sub (ps_remaining summary) 1)) entries)
    end
  | UploadHeld => _ ⇐ note_failure still None; _ ⇐ lift (release entry); hret (Ended summary)
  | UploadFailed code => _ ⇐ note_failure still (Some code); _ ⇐ lift (release entry); hret (Ended summary)
  end.
End hub.
