(* ===== verification/BrowserRun.v ===== *)
(** * Runs of the browser host

    The browser host as one system: the hub, the custody store and its disk,
    the sessions of connected browsers, and any number of delivery passes. Each
    step is one operation between two awaits, with verdicts for its calls on
    the file system and tokens for the ids it mints; the process may stop
    inside any operation and between any two, and then only the disk is left. *)
From Stdlib Require Import Ascii String.
From stdpp Require Import sorting.
From S2P Require Import Prelude RustStr PauseStore Ingest Admission About Custody BrowserHub.

Local Open Scope list_scope.

Record Host : Type := mkHost {
  ho_hub : Hub;
  ho_world : World;
  ho_up : bool;
  ho_sessions : gmap Z Session;
  ho_passes : list Pass
}.

Inductive Act : Type :=
  | ActConnect (brand inst : string) (now : Z)
  | ActTurn (id : Z) (now : Z) (e : SessionEvent)
  | ActGates (g : Gates)
  | ActAbout (a : NativeAboutSnapshot)
  | ActTick (now : Z)
  | ActQuiesce (now : Z)
  | ActResume
  | ActStatus (now : Z)
  | ActDiscard (now : Z)
  | ActStartPass
  | ActPass (i : nat) (journal still : bool) (outcome : UploadOutcome)
  | ActDropPass (i : nat)
  | ActRestart (pol : Policy) (now : Z).

(** The clock of an action; milliseconds since the epoch, unsigned. *)
Definition act_now (a : Act) : Z :=
  match a with
  | ActConnect _ _ now | ActTurn _ now _ | ActTick now | ActQuiesce now | ActStatus now | ActDiscard now | ActRestart _ now => now
  | _ => 0
  end.

Record Input : Type := mkInput { in_verdicts : list Verdict; in_tokens : list string; in_act : Act }.

Definition refill (i : Input) (w : World) : World :=
  mkWorld (w_disk w) (w_store w) (in_verdicts i) (in_tokens i) (w_minted w) (w_accepted w) (w_disposed w) (w_half w).

Section run.
Context `{CustodyLib} `{DirOrder} `{HashOrder}.
Context (order : gmap Z SessionEntry → list (Z * SessionEntry)).
Context (development : bool) (version : string) (about0 : NativeAboutSnapshot).

Definition new_hub : Hub :=
  mkHub development version None 1 default_gates (unknown (sn_os about0) (sn_os_version about0) (sn_arch about0))
    None false ∅ 1 [].

(** The process stopped. *)
Definition stopped (w : World) : Host := mkHost new_hub w false ∅ [].

Definition perform {A} (m : HIO A) (s : Host) (k : A → Host → Host) : Host :=
  match m (ho_hub s) (ho_world s) with
  | (Some (a, h), w) => k a (mkHost h w true (ho_sessions s) (ho_passes s))
  | (None, w) => stopped w
  end.
Definition with_passes (ps : list Pass) (s : Host) : Host :=
  mkHost (ho_hub s) (ho_world s) (ho_up s) (ho_sessions s) ps.
Definition with_live (m : gmap Z Session) (s : Host) : Host :=
  mkHost (ho_hub s) (ho_world s) (ho_up s) m (ho_passes s).

(** [serve], from the extension's hello to the acknowledgement. *)
Definition connect (brand inst : string) (now : Z) : HIO (option (Session * list HostMessage)) := λ h,
  (if hb_quiescing h then hret None
   else
     id ⇐ register order brand inst now;
     match id with
     | None => hret None
     | Some id => r ⇐ hello id inst now; hret (Some r)
     end) h.

(** One turn of a session, which leaves the table when it ends. *)
Definition turn (s : Session) (now : Z) (e : SessionEvent) : HIO (option Session) :=
  r ⇐ session_turn s now e;
  match r.1 with
  | Some s => hret (Some s)
  | None => _ ⇐ unregister (ss_id s); hret None
  end.

(** One stretch of a pass, from an await to the next. *)
Definition pass_turn (journal still : bool) (outcome : UploadOutcome) (p : Pass) : HIO Pass :=
  match p with
  | Looping summary entries => pass_next journal summary entries
  | Unreadable summary entry => pass_unreadable still summary entry
  | Sending summary entry _ entries => pass_outcome still outcome summary entry entries
  | Ended summary => hret (Ended summary)
  end.
(** Dropping a pass drops its reservation. *)
Definition drop_pass (p : Pass) : HIO Pass :=
  match p with
  | Looping summary _ => hret (Ended summary)
  | Unreadable summary entry => _ ⇐ lift (release entry); hret (Ended summary)
  | Sending summary entry _ _ => _ ⇐ lift (release entry); hret (Ended summary)
  | Ended summary => hret (Ended summary)
  end.
Definition on_pass (i : nat) (f : Pass → HIO Pass) (s : Host) : Host :=
  match ho_passes s !! i with
  | None => s
  | Some p => perform (f p) s (λ p s, with_passes (<[i := p]> (ho_passes s)) s)
  end.

Definition act (a : Act) (s : Host) : Host :=
  match a with
  | ActConnect brand inst now =>
    perform (connect brand inst now) s (λ r s,
      match r with Some (x, _) => with_live (<[ss_id x := x]> (ho_sessions s)) s | None => s end)
  | ActTurn id now e =>
    match ho_sessions s !! id with
    | None => s
    | Some x => perform (turn x now e) s (λ r s,
        with_live (match r with Some x => <[id := x]> (ho_sessions s) | None => delete id (ho_sessions s) end) s)
    end
  | ActGates g => perform (update_gates g) s (λ _ s, s)
  | ActAbout a => perform (update_about_snapshot a) s (λ _ s, s)
  | ActTick now => perform (hub_tick now) s (λ _ s, s)
  | ActQuiesce now => perform (quiesce now) s (λ _ s, s)
  | ActResume => perform resume s (λ _ s, s)
  | ActStatus now => perform (hub_status order now) s (λ _ s, s)
  | ActDiscard now => perform (hub_discard_waiting now) s (λ _ s, s)
  | ActStartPass => perform start_pass s (λ p s, with_passes (ho_passes s ++ [p]) s)
  | ActPass i journal still outcome => on_pass i (pass_turn journal still outcome) s
  | ActDropPass i => on_pass i drop_pass s
  | ActRestart pol now => perform (lift (open_store pol now)) (stopped (ho_world s)) (λ _ s, s)
  end.

Definition is_restart (a : Act) : bool := match a with ActRestart _ _ => true | _ => false end.
Definition step (s : Host) (i : Input) : Host :=
  let s := mkHost (ho_hub s) (refill i (ho_world s)) (ho_up s) (ho_sessions s) (ho_passes s) in
  if ho_up s || is_restart (in_act i) then act (in_act i) s else s.
Definition run (s : Host) (inputs : list Input) : Host := foldl step s inputs.

(** A disk the store has never written to. *)
Definition blank : World :=
  mkWorld (mkDisk None None None ∅) (mkCustodyStore default_policy None false false 0) [] [] [] [] [] [].
Definition fresh_host : Host := stopped blank.
End run.
