(* ===== verification/BrowserFlight.v ===== *)
(** * What an upload in flight can count on

    While a delivery pass holds a period, the period is reserved in memory and
    its pages stay on the disk as they were read: every operation of the store
    keeps a claim, apart from the holder's own delivery and release. *)
From Stdlib Require Import Ascii String.
From stdpp Require Import sorting.
From S2P Require Import Prelude RustStr PauseStore Ingest Admission About Custody CustodyLogic CustodySteps CustodyOps CustodyMoves CustodyEnds CustodyLoad BrowserHub BrowserRun.

Local Open Scope list_scope.

(** A pass holds the period in a directory, and may have read its pages. *)
Notation Claim := (string * option string)%type.

Section flight.
Context `{CustodyLib} `{!CustodyLaws} `{DirOrder} `{HashOrder}.

Definition pages_ok (x : Claim) (d : Disk) : Prop :=
  ∀ body, x.2 = Some body → file_at (In OutboxRoot x.1) PAGES_FILE d = Some body.
Definition claim_ok (x : Claim) (w : World) : Prop :=
  is_staging x.1 = false ∧ (∃ a, cu_active (w_store w) = Some a ∧ x.1 ∈ ac_reserved a) ∧ pages_ok x (w_disk w).

(** [safe P m Q]: from [P], [m] returns in [Q] or the process stops. *)
Definition safe {A} (P : World → Prop) (m : IO A) (Q : A → World → Prop) : Prop :=
  ∀ w, P w → match (m w).1 with Some a => Q a (m w).2 | None => True end.

Lemma safe_io_ret {A} (a : A) (P : World → Prop) (Q : A → World → Prop) : (∀ w, P w → Q a w) → safe P (mret a) Q.
Proof. intros HQ w. apply HQ. Qed.
Lemma safe_io_bind {A B} (P : World → Prop) (R : A → World → Prop) (Q : B → World → Prop) m k :
  safe P m R → (∀ a, safe (R a) (k a) Q) → safe P (m ≫= k) Q.
Proof.
  intros Hm Hk w Hp. specialize (Hm w Hp). unfold mbind, io_bind. destruct (m w) as [[a|] w']; cbn in *; [|done]. by apply Hk.
Qed.
Lemma safe_try {A B} P (R : A → World → Prop) Q (m : IO (result A io_error)) (k : A → IO (result B io_error)) :
  safe P m (λ r w, match r with Ok a => R a w | Err e => Q (Err e) w end) → (∀ a, safe (R a) (k a) Q) → safe P (try m k) Q.
Proof. intros Hm Hk. eapply safe_io_bind; [exact Hm|]. intros [a|e]; [apply Hk|by apply safe_io_ret]. Qed.
Lemma safe_io_weaken {A} (P P' : World → Prop) (m : IO A) (Q Q' : A → World → Prop) :
  (∀ w, P' w → P w) → (∀ a w, Q a w → Q' a w) → safe P m Q → safe P' m Q'.
Proof. intros HP HQ Hm w Hw. specialize (Hm w (HP _ Hw)). destruct (m w).1; [by apply HQ|done]. Qed.
Lemma safe_panic {A} P (Q : A → World → Prop) : safe P panic Q.
Proof. done. Qed.
Lemma safe_active (P : World → Prop) : safe P active (λ a w, P w ∧ a = cu_active (w_store w)).
Proof. by intros w. Qed.

Section claim.
Context (x : Claim).
Local Notation F := (claim_ok x).

(** The memory [a] is current, and reserves the claim. *)
Definition memory (a : Active) (w : World) : Prop :=
  F w ∧ cu_active (w_store w) = Some a ∧ x.1 ∈ ac_reserved a.

Lemma safe_with_active {B} (k : option Active → IO B) Q :
  (∀ a, safe (memory a) (k (Some a)) Q) → safe F (active ≫= k) Q.
Proof.
  intros Hk w Hf. pose proof Hf as (_ & (a & Ha & Hin) & _). unfold active, getw, mbind, io_bind. cbn. rewrite Ha.
  by apply Hk.
Qed.

(** Computations that leave the memory and the claimed pages alone. *)
Definition still {A} (m : IO A) : Prop := ∀ w,
  is_staging x.1 = false →
  cu_active (w_store (m w).2) = cu_active (w_store w) ∧ (pages_ok x (w_disk w) → pages_ok x (w_disk (m w).2)).

Lemma still_quiet {A} (m : IO A) : quiet m → still m.
Proof. intros Hq w _. specialize (Hq w). injection Hq as Hd Hs _ _ _. by rewrite Hd, Hs. Qed.
Lemma still_bind {A B} (m : IO A) (k : A → IO B) : still m → (∀ a, still (k a)) → still (m ≫= k).
Proof.
  intros Hm Hk w Hns. unfold mbind, io_bind. destruct (Hm w Hns) as [Ha Hp]. destruct (m w) as [[a|] w1]; cbn in *; [|done].
  destruct (Hk a w1 Hns) as [Ha' Hp']. split; [congruence|auto].
Qed.
Lemma still_try {A B} (m : IO (result A io_error)) (k : A → IO (result B io_error)) :
  still m → (∀ a, still (k a)) → still (try m k).
Proof. intros Hm Hk. apply still_bind; [done|]. intros [a|e]; [apply Hk|by intros w]. Qed.
Lemma still_fold {A B} (f : B → A → IO (result B io_error)) b l : (∀ b a, still (f b a)) → still (fold_io f b l).
Proof. intros Hf. revert b. induction l as [|a l IH]; intros b; [by intros w|]. by apply still_try. Qed.
Lemma still_call {A} (whole : Disk → result A io_error * Disk) torn :
  (is_staging x.1 = false → ∀ d, pages_ok x d → pages_ok x (whole d).2 ∧ ∀ keep, pages_ok x (torn keep d)) → still (call whole torn).
Proof.
  intros Hc w Hns. specialize (Hc Hns (w_disk w)). unfold call, mbind, io_bind, next_verdict. cbn.
  destruct (default Good (head (w_verdicts w))); cbn; try done.
  - destruct (whole (w_disk w)) as [r d] eqn:He. cbn in *. split; [done|]. intros Hp. by apply Hc.
  - split; [done|]. intros Hp. by apply Hc.
  - split; [done|]. intros Hp. by apply Hc.
Qed.
Lemma still_store f : (∀ st, cu_active (f st) = cu_active st) → still (store_with f).
Proof. intros Hf w _. by split; [apply Hf|]. Qed.
Lemma still_putw f : (∀ w, w_store (f w) = w_store w ∧ w_disk (f w) = w_disk w) → still (putw f).
Proof. intros Hf w _. cbn. by destruct (Hf w) as [-> ->]. Qed.

Lemma safe_still {A} P (m : IO A) : still m →
  (∀ w w', P w → cu_active (w_store w') = cu_active (w_store w) → (pages_ok x (w_disk w) → pages_ok x (w_disk w')) → P w') →
  (∀ w, P w → is_staging x.1 = false) → safe P m (λ _, P).
Proof.
  intros Hm HP Hns w Hw. destruct (Hm w (Hns w Hw)) as [Ha Hp]. specialize (HP w (m w).2 Hw Ha Hp). by destruct (m w).1.
Qed.
Lemma safe_still_F {A} (m : IO A) : still m → safe F m (λ _, F).
Proof.
  intros Hm. apply safe_still; [done| |by intros w [? _]]. intros w w' (Hn & (a & Ha & Hin) & Hp) He Hd.
  split_and!; [done|exists a; by rewrite He|auto].
Qed.
Lemma safe_still_memory {A} a (m : IO A) : still m → safe (memory a) m (λ _, memory a).
Proof.
  intros Hm. apply safe_still; [done| |by intros w [[? _] _]]. intros w w' ((Hn & _ & Hp) & Ha & Hin) He Hd.
  split_and!; [split_and!; [done|exists a; by rewrite He|auto]|by rewrite He|done].
Qed.
Lemma safe_set_active a b : x.1 ∈ ac_reserved b → safe (memory a) (set_active (Some b)) (λ _, memory b).
Proof. intros Hin w ((Hn & _ & Hp) & _ & _). cbn. split_and!; [split_and!; [done|by exists b|done]|done|done]. Qed.
Lemma memory_F a w : memory a w → F w.
Proof. by intros [? _]. Qed.
Lemma safe_on_active f : (∀ a, ac_reserved (f a) = ac_reserved a) → safe F (on_active f) (λ _, F).
Proof.
  intros Hf. unfold on_active. apply safe_with_active. intros a w Hm.
  assert (Hin : x.1 ∈ ac_reserved (f a)) by (rewrite Hf; apply Hm). by destruct (safe_set_active a (f a) Hin w Hm).
Qed.

(** *** The disk *)

Lemma pages_change p name c d : p ≠ In OutboxRoot x.1 ∨ name ≠ PAGES_FILE → pages_ok x d → pages_ok x (change_file p name c d).
Proof.
  intros Hne Hp body Hb. rewrite file_at_change. rewrite decide_False; [by apply Hp|]. naive_solver.
Qed.
Lemma pages_put p f d : is_Some (files_at p d) → p ≠ In OutboxRoot x.1 → pages_ok x d → pages_ok x (put_files p f d).
Proof. intros Hs Hne Hp body Hb. rewrite file_at_put by done. rewrite decide_False by done. by apply Hp. Qed.
Lemma pages_keep keep p d : p ≠ In OutboxRoot x.1 → pages_ok x d → pages_ok x (keep_files keep p d).
Proof. intros Hne Hp body Hb. rewrite file_at_keep_ne by done. by apply Hp. Qed.

Lemma with_extension_not_pages name : with_extension name "partial" ≠ PAGES_FILE.
Proof. intros He. pose proof (partial_with_extension name) as Hp. rewrite He in Hp. by vm_compute in Hp. Qed.

Lemma still_create_file p name : p ≠ In OutboxRoot x.1 ∨ name ≠ PAGES_FILE → still (create_file p name).
Proof. intros Hne. apply still_call. intros _ d Hp. cbn. split; [|intros _]; by apply pages_change. Qed.
Lemma still_write_all p name bytes : p ≠ In OutboxRoot x.1 ∨ name ≠ PAGES_FILE → still (write_all p name bytes).
Proof. intros Hne. apply still_call. intros _ d Hp. cbn. split; [|intros keep]; by apply pages_change. Qed.
Lemma still_rename_file p a b : p ≠ In OutboxRoot x.1 ∨ (a ≠ PAGES_FILE ∧ b ≠ PAGES_FILE) → still (rename_file p a b).
Proof.
  intros Hne. apply still_call. intros _ d Hp. cbn. split; [|done]. destruct (file_at p a d); cbn; [|done].
  apply pages_change; [naive_solver|]. apply pages_change; [naive_solver|done].
Qed.
Lemma still_remove_file p name : p ≠ In OutboxRoot x.1 ∨ name ≠ PAGES_FILE → still (remove_file p name).
Proof.
  intros Hne. apply still_call. intros _ d Hp. cbn. split; [|done]. destruct (file_at p name d); cbn; [|done]. by apply pages_change.
Qed.
Lemma still_remove_dir p : p ≠ In OutboxRoot x.1 → still (remove_payload_dir p).
Proof.
  intros Hne. unfold remove_payload_dir. apply still_bind; [|by intros a w]. apply still_call. intros _ d Hp. cbn. split.
  - destruct (files_at p d) eqn:Hf; cbn; [|done]. apply pages_put; [by rewrite Hf|done|done].
  - intros keep. by apply pages_keep.
Qed.
Lemma still_write_atomic p name bytes : p ≠ In OutboxRoot x.1 ∨ name ≠ PAGES_FILE → still (write_bytes_atomic p name bytes).
Proof.
  intros Hne. pose proof (with_extension_not_pages name) as Ht. unfold write_bytes_atomic.
  apply still_bind.
  - apply still_try; [apply still_create_file; by right|]. intros []. apply still_try; [apply still_write_all; by right|].
    intros []. apply still_try; [apply still_quiet, quiet_look|]. intros []. apply still_rename_file. naive_solver.
  - intros [[]|e]; [by intros w|]. apply still_bind; [apply still_remove_file; by right|by intros a w].
Qed.
Lemma still_write_json p name json : p ≠ In OutboxRoot x.1 ∨ name ≠ PAGES_FILE → still (write_json_atomic p name json).
Proof. intros Hne. unfold write_json_atomic. destruct json; [|by intros w]. case_match; [by intros w|]. by apply still_write_atomic. Qed.
Lemma files_at_create_dir r dir d p f :
  files_at p d = Some f →
  files_at p (set_root r (Some (match (default ∅ (root_at r d) : gmap string Files) !! dir with
    | Some _ => default ∅ (root_at r d) | None => <[dir := ∅]> (default ∅ (root_at r d)) end)) d) = Some f.
Proof.
  assert (Hins : ∀ (m : gmap string Files) dir', m !! dir' = Some f →
    (match m !! dir with Some _ => m | None => <[dir := ∅]> m end) !! dir' = Some f).
  { intros m dir' Hm. destruct (m !! dir) eqn:Hd; [done|]. rewrite lookup_insert_ne; [done|congruence]. }
  destruct p as [r' dir'|]; [|by destruct r]. destruct r, r'; unfold files_at; cbn; try done.
  - destruct (d_open d) as [m|]; cbn; [|done]. apply Hins.
  - destruct (d_outbox d) as [m|]; cbn; [|done]. apply Hins.
Qed.
Lemma still_create_dir r dir : still (create_period_dir r dir).
Proof.
  apply still_call. intros _ d Hp. cbn [snd]. split; [|done]. intros body Hb. specialize (Hp body Hb). unfold file_at in *.
  destruct (files_at (In OutboxRoot x.1) d) as [f|] eqn:Hf; [|done]. by rewrite (files_at_create_dir _ _ _ _ f Hf).
Qed.
(** Nothing is renamed over a directory that exists, and no claim is staged. *)
Lemma still_rename_dir a b : is_staging a = true → still (rename_dir OutboxRoot a b).
Proof.
  intros Hst. apply still_call. intros Hns d Hp. split; [|done].
  destruct (files_at (In OutboxRoot a) d) as [f|] eqn:Hf; [|done].
  destruct (files_at (In OutboxRoot b) d) as [g|] eqn:Hg; [done|]. cbn [snd].
  intros body Hb. specialize (Hp body Hb). assert (Hax : a ≠ x.1) by congruence.
  assert (Hbx : b ≠ x.1) by (intros ->; unfold file_at in Hp; by rewrite Hg in Hp).
  assert (Hab : a ≠ b) by congruence.
  change (file_at (In OutboxRoot x.1) PAGES_FILE (moved a b f d) = Some body). rewrite file_at_moved by done.
  rewrite !decide_False by congruence. done.
Qed.
End claim.
End flight.

(** ** Walking through computations that leave a claim alone *)

Create HintDb still.
Ltac still_step :=
  match goal with
  | |- still _ (_ ≫= _) => apply still_bind; [|intros ?]
  | |- still _ (try _ _) => apply still_try; [|intros ?]
  | |- still _ (fold_io _ _ _) => apply still_fold; intros ? ?
  | |- still _ (match ?x with _ => _ end) => destruct x
  | |- still _ (let '_ := ?x in _) => destruct x
  | |- still _ (store_with _) => by apply still_store
  | |- still _ (putw _) => by apply still_putw
  | |- still _ (create_period_dir _ _) => apply still_create_dir
  | |- still _ (remove_payload_dir _) => apply still_remove_dir
  | |- still _ (create_file _ _) => apply still_create_file
  | |- still _ (write_all _ _ _) => apply still_write_all
  | |- still _ (write_bytes_atomic _ _ _) => apply still_write_atomic
  | |- still _ (write_json_atomic _ _ _) => apply still_write_json
  | |- still _ _ => solve [apply still_quiet; quiet_walk]
  | |- still _ _ => solve [auto with still]
  end.
Ltac still_walk := repeat still_step.

Section operations.
Context `{CustodyLib} `{!CustodyLaws} `{DirOrder} `{HashOrder}.
Context (x : Claim).
Local Notation F := (claim_ok x).
Local Notation memory := (memory x).
Local Notation still := (still x).

Lemma still_next_token : still next_token.
Proof. by intros w _. Qed.
Lemma still_refresh : still refresh_full.
Proof. unfold refresh_full, policy, set_full. still_walk. Qed.
#[local] Hint Resolve still_next_token still_refresh : still.
Lemma still_new_open now early : still (new_open now early).
Proof. unfold new_open, policy, note_minted. still_walk. Qed.
Lemma still_write_receipt key r : still (write_receipt key r).
Proof. unfold write_receipt. still_walk. by left. Qed.
#[local] Hint Resolve still_new_open still_write_receipt : still.

(** Finishing a period writes to a staging directory only. *)
Section staged.
Context (s : string) (Hs : is_staging s = true).
Lemma still_copy from names acc : still (copy_batches from (In OutboxRoot s) names acc).
Proof.
  revert acc. induction names as [|n names IH]; intros acc; cbn [copy_batches]; [still_walk|].
  apply still_try; [still_walk|]. intros bytes. apply still_try; [|by intros ?].
  intros w Hns. apply still_write_all; [|done]. left. congruence.
Qed.
Lemma still_staged {A} (m : IO A) : (s ≠ x.1 → still m) → still m.
Proof. intros Hm w Hns. apply Hm; [congruence|done]. Qed.
End staged.

Lemma still_finalize_dir period dir end_ms : still (finalize_dir period dir end_ms).
Proof.
  unfold finalize_dir. pose proof (staging_is_staging (final_name (op_start_ms period) (op_id period))) as Hst.
  set (staging := ".tmp-" +:+ _) in *. apply (still_staged staging Hst). intros Hne.
  still_walk; try (by apply still_copy); try (by apply still_rename_dir); try congruence; try (left; congruence); by right.
Qed.
#[local] Hint Resolve still_finalize_dir : still.

Ltac after_still := eapply safe_io_bind; [apply safe_still_F; still_walk|intros ?].

Lemma safe_rotate now early : safe F (rotate now early) (λ _, F).
Proof.
  unfold rotate. apply safe_with_active. intros a.
  eapply safe_io_bind; [apply safe_still_memory, still_quiet, quiet_blocked|]. intros blocked.
  destruct blocked; [apply safe_io_ret, memory_F|].
  eapply safe_io_bind; [apply safe_still_memory, still_new_open|]. intros next.
  eapply safe_io_bind with (R := λ _, F).
  { intros w Hw. assert (Hin : x.1 ∈ ac_reserved (with_open (λ _, next) a)) by apply Hw.
    by destruct (safe_set_active x a _ Hin w Hw). }
  intros _. destruct (op_has_dir (ac_open a)); [|by apply safe_io_ret].
  eapply safe_try with (R := λ _, F).
  { eapply safe_io_weaken; [done| |apply safe_still_F, still_finalize_dir]. by intros [|]. }
  intros size. eapply safe_io_bind with (R := λ _, F); [by apply safe_on_active|]. intros _.
  eapply safe_io_bind with (R := λ _, F); [apply safe_still_F; still_walk|]. intros _. by apply safe_io_ret.
Qed.

Lemma safe_F_try {A B} (m : IO (result A io_error)) (k : A → IO (result B io_error)) :
  safe F m (λ _, F) → (∀ a, safe F (k a) (λ _, F)) → safe F (try m k) (λ _, F).
Proof.
  intros Hm Hk. eapply safe_try with (R := λ _, F); [|done]. eapply safe_io_weaken; [done| |exact Hm]. by intros [|].
Qed.
Lemma safe_F_bind {A B} (m : IO A) (k : A → IO B) :
  safe F m (λ _, F) → (∀ a, safe F (k a) (λ _, F)) → safe F (m ≫= k) (λ _, F).
Proof. apply safe_io_bind. Qed.

Create HintDb claim.
Ltac claim_step :=
  match goal with
  | |- safe _ (try _ _) _ => apply safe_F_try; [|intros ?]
  | |- safe _ (active ≫= _) _ => apply safe_F_bind; [apply safe_still_F; still_walk|intros ?]
  | |- safe _ (_ ≫= _) _ => apply safe_F_bind; [|intros ?]
  | |- safe _ (on_active _) _ => by apply safe_on_active
  | |- safe _ panic _ => apply safe_panic
  | |- safe _ (match ?y with _ => _ end) _ => destruct y
  | |- safe _ _ _ => solve [auto with claim]
  | |- safe _ _ _ => solve [apply safe_still_F; still_walk; by left]
  end.
Ltac claim_walk := repeat claim_step.
#[local] Hint Resolve safe_rotate : claim.

Lemma safe_commit key body r : safe F (commit key body r) (λ _, F).
Proof. unfold commit. claim_walk. Qed.
#[local] Hint Resolve safe_commit : claim.
Lemma still_note_accepted key id body : still (note_accepted key id body).
Proof. by apply still_putw. Qed.
#[local] Hint Resolve still_note_accepted : still.
Lemma safe_offer_into_open key batch body now : safe F (offer_into_open key batch body now) (λ _, F).
Proof. unfold offer_into_open, policy, set_full. claim_walk. Qed.
#[local] Hint Resolve safe_offer_into_open : claim.
Lemma safe_offer batch now : safe F (offer batch now) (λ _, F).
Proof. unfold offer, policy. claim_walk. Qed.
Lemma safe_tick now : safe F (custody_tick now) (λ _, F).
Proof. unfold custody_tick. claim_walk. Qed.
Lemma safe_finalize_now now : safe F (finalize_now now) (λ _, F).
Proof. unfold finalize_now. claim_walk. Qed.
Lemma safe_mark_period period target at_ms : safe F (mark_period period target at_ms) (λ _, F).
Proof.
  unfold mark_period. apply safe_F_bind; [apply safe_still_F; still_walk|]. intros a.
  unfold each_io. induction (period_keys a period) as [|key keys IH]; cbn [fold_io]; [by apply safe_io_ret|].
  apply safe_F_try; [unfold mark_one; claim_walk|]. by intros [].
Qed.
#[local] Hint Resolve safe_mark_period : claim.

(** Memory whose reservations still hold the claim. *)
Lemma safe_change_active (f : Active → Active) :
  (∀ a, x.1 ∈ ac_reserved a → x.1 ∈ ac_reserved (f a)) →
  safe F (a ← active; match a with Some a => set_active (Some (f a)) | None => mret tt end) (λ _, F).
Proof.
  intros Hf. apply safe_with_active. intros a w Hw. assert (Hin : x.1 ∈ ac_reserved (f a)) by apply Hf, Hw.
  by destruct (safe_set_active x a _ Hin w Hw).
Qed.
Lemma safe_drop_reserved dir : dir ≠ x.1 → safe F (drop_reserved dir) (λ _, F).
Proof. intros Hne. apply (safe_change_active (with_reserved (λ s, s ∖ {[dir]}))). cbn. set_solver. Qed.
Lemma safe_release entry : oe_dir entry ≠ x.1 → safe F (release entry) (λ _, F).
Proof. intros Hne. unfold release. apply safe_F_bind; [by apply safe_drop_reserved|]. intros []. claim_walk. Qed.

Lemma still_terminal dir target : dir ≠ x.1 → still (write_outbox_terminal dir target).
Proof. intros Hne. unfold write_outbox_terminal. still_walk. left. congruence. Qed.

(** Another pass's delivery. *)
Lemma safe_delivered entry : oe_dir entry ≠ x.1 → safe F (delivered entry) (λ _, F).
Proof.
  intros Hne. unfold delivered, note_disposed. apply safe_F_bind; [claim_walk|]. intros [].
  apply safe_F_try; [by apply safe_still_F, still_terminal|]. intros state.
  apply safe_F_bind; [apply safe_still_F; still_walk|]. intros a. apply safe_F_try; [claim_walk|]. intros [].
  apply safe_F_try; [apply safe_still_F, still_remove_dir; congruence|]. intros [].
  apply safe_F_bind; [by apply safe_drop_reserved|]. intros []. claim_walk.
Qed.

(** Discarding passes over what is reserved. *)
Definition spares (item : string * string * bool) : Prop := item.2 = true ∨ item.1.2 ≠ x.1.
Lemma spares_place dir is_open period : spares (period, dir, is_open) → item_place dir is_open ≠ In OutboxRoot x.1.
Proof. unfold spares, item_place. cbn. destruct is_open; [done|]. intros [?|?]; congruence. Qed.
Lemma safe_discard_one now item : spares item → safe F (discard_one now item) (λ _, F).
Proof.
  destruct item as [[period dir] is_open]. intros Hs. unfold discard_one, note_disposed.
  apply safe_F_bind; [claim_walk|]. intros []. apply safe_F_bind.
  { destruct is_open; [by apply safe_io_ret|]. apply safe_still_F, still_terminal. destruct Hs as [?|?]; done. }
  intros [state|e]; [|by apply safe_io_ret]. apply safe_F_bind; [claim_walk|]. intros [[]|e]; [|by apply safe_io_ret].
  apply safe_F_bind; [apply safe_still_F, still_remove_dir; by eapply spares_place|]. intros r.
  destruct (is_ok r && is_open); [by apply (safe_change_active (with_open _))|].
  destruct is_open; [unfold note_half; claim_walk|by apply safe_io_ret].
Qed.
Lemma safe_discard_each now items : Forall spares items → safe F (discard_each now items) (λ _, F).
Proof.
  induction 1 as [|item items Hi _ IH]; cbn [discard_each]; [by apply safe_io_ret|].
  apply safe_F_bind; [by apply safe_discard_one|]. by intros [].
Qed.
Lemma safe_discard_waiting now : safe F (discard_waiting now) (λ _, F).
Proof.
  unfold discard_waiting. apply safe_with_active. intros a.
  eapply safe_io_bind; [apply safe_still_memory, still_quiet, quiet_all_outbox|]. intros entries.
  eapply safe_io_bind with (R := λ opened w, F w ∧ x.1 ∈ ac_reserved a ∧ ∀ item, item ∈ opened → item.2 = true).
  { destruct (op_has_dir (ac_open a)); [|apply safe_io_ret; intros w (? & _ & ?); split_and!; [done|done|by intros item ?%not_elem_of_nil]].
    eapply safe_io_bind; [apply safe_still_memory, still_quiet, quiet_dir_payload_bytes|]. intros n. apply safe_io_ret.
    intros w (? & _ & ?). split_and!; [done|done|]. intros item. destruct (0 <? n)%Z; [|by intros ?%not_elem_of_nil].
    by intros ->%list_elem_of_singleton. }
  intros opened w (Hf & Hin & Ho). revert w Hf.
  change (safe F (_ ← discard_each now (((λ e, (oe_period_id e, oe_dir e, false)) <$> filter (λ e, oe_dir e ∉ ac_reserved a) entries) ++ opened);
    _ ← refresh_full;
    left ← filter_io (λ item, is_dir (item_place item.1.2 item.2))
      (((λ e, (oe_period_id e, oe_dir e, false)) <$> filter (λ e, oe_dir e ∉ ac_reserved a) entries) ++ opened);
    mret (Z.of_nat (length left))) (λ _, F)).
  apply safe_F_bind; [apply safe_discard_each, Forall_app; split|].
  - apply Forall_fmap, Forall_forall. intros e [Hn _]%list_elem_of_filter. right. cbn. congruence.
  - apply Forall_forall. intros item Hi. left. by apply Ho.
  - intros []. claim_walk.
Qed.

Lemma safe_reserve entry : safe F (reserve entry) (λ _, F).
Proof.
  unfold reserve. apply safe_F_bind; [claim_walk|]. intros marked. destruct marked; [by apply safe_io_ret|].
  apply safe_F_bind; [claim_walk|]. intros there. destruct there; [|by apply safe_io_ret]. cbn [negb].
  apply safe_with_active. intros a. eapply safe_io_bind with (R := λ _, F); [|intros _; by apply safe_io_ret].
  intros w Hw. assert (Hin : x.1 ∈ ac_reserved (with_reserved (λ s, {[oe_dir entry]} ∪ s) a)) by (cbn; apply elem_of_union; right; apply Hw).
  by destruct (safe_set_active x a _ Hin w Hw).
Qed.
End operations.

(** ** A new claim *)

Section claiming.
Context `{CustodyLib} `{DirOrder} `{HashOrder}.

Lemma safe_any {A} (m : IO A) : safe (λ _, True) m (λ _ _, True).
Proof. intros w _. by destruct (m w).1. Qed.

(** A reservation that succeeds takes what nobody holds. *)
Lemma reserve_claims entry :
  is_staging (oe_dir entry) = false →
  safe (λ _, True) (reserve entry) (λ r w, r = true → claim_ok (oe_dir entry, None) w).
Proof.
  intros Hns. unfold reserve. eapply safe_io_bind; [apply safe_any|]. intros marked.
  destruct marked; [by apply safe_io_ret|]. eapply safe_io_bind; [apply safe_any|]. intros there.
  destruct there; [|by apply safe_io_ret]. cbn [negb]. eapply safe_io_bind; [apply safe_any|]. intros [a|]; [|by apply safe_io_ret].
  intros w _. cbn. intros _. split_and!; [done| |done]. eexists. split; [done|]. cbn. set_solver.
Qed.
Lemma reserve_excludes entry body :
  safe (claim_ok (oe_dir entry, body)) (reserve entry) (λ r _, r = false).
Proof.
  unfold reserve. set (x := (oe_dir entry, body)).
  eapply safe_io_bind; [apply safe_still_F, still_quiet, quiet_file_exists|]. intros marked. destruct marked; [by apply safe_io_ret|].
  eapply safe_io_bind; [apply safe_still_F, still_quiet, quiet_is_dir|]. intros there. destruct there; [|by apply safe_io_ret]. cbn [negb].
  apply safe_with_active. intros a. eapply safe_io_bind with (R := λ _ _, oe_dir entry ∈ ac_reserved a); [by intros w (_ & _ & ?)|].
  intros _. apply safe_io_ret. intros _ Hin. by rewrite bool_decide_true.
Qed.
(** Pages that were read are the pages on the disk. *)
Lemma read_claims dir :
  safe (claim_ok (dir, None)) (read_file (In OutboxRoot dir) PAGES_FILE)
    (λ r w, match r with Ok body => claim_ok (dir, Some body) w | Err _ => claim_ok (dir, None) w end).
Proof.
  intros w Hc. pose proof (reads_read_file (In OutboxRoot dir) PAGES_FILE) as [Hq Hv].
  specialize (Hq w). specialize (Hv w). destruct (read_file _ _ w) as [[r|] w']; [|done]. cbn in *.
  specialize (Hv r eq_refl). injection Hq as Hd Hs _ _ _ _. destruct Hc as (Hn & Ha & _).
  destruct r as [body|e]; (split_and!; [done|by rewrite Hs|]); [|done].
  intros b [= <-]. by rewrite Hd.
Qed.
(** Entries are never staging directories. *)
Lemma outbox_names : safe (λ _, True) outbox (λ es _, ∀ e, e ∈ es → is_staging (oe_dir e) = false).
Proof.
  unfold outbox. eapply safe_io_bind with (R := λ es _, ∀ e, e ∈ es → is_staging (oe_dir e) = false).
  - intros w _. pose proof (reads_all_outbox) as [_ Hv]. specialize (Hv w). destruct (all_outbox w) as [[es|] w']; [|done]. cbn in *.
    intros e He. by destruct (Hv es eq_refl e He).
  - intros es w Hes. assert (Hr : reads (filter_io (λ e, marked ← file_exists (In OutboxRoot (oe_dir e)) TERMINAL_FILE; mret (negb marked)) es)
      (λ _ out, ∀ a, a ∈ out → a ∈ es)) by (apply reads_filter; intros; quiet_walk).
    destruct Hr as [_ Hv]. specialize (Hv w). destruct (filter_io _ es w) as [[out|] w']; [|done]. cbn in *.
    intros e He. by apply Hes, (Hv out eq_refl).
Qed.
End claiming.
