(* ===== verification/BrowserKeeps.v ===== *)
(** * What the store promises to the hub

    [StoreKeeps G may]: a property [G] of computations that the store's
    operations have and that sequencing keeps; [may e] are the entries that can
    be released. Every operation of the hub then has it. The store's invariant
    and the claims of the passes are the two instances. *)
From Stdlib Require Import Ascii String.
From stdpp Require Import sorting.
From S2P Require Import Prelude RustStr PauseStore Ingest Admission About Custody CustodyLogic CustodySteps CustodyOps CustodyMoves CustodyEnds CustodyLoad BrowserHub BrowserRun BrowserFlight.

Local Open Scope list_scope.

(** The period a pass holds. *)
Definition held_entry (p : Pass) : option OutboxEntry :=
  match p with Unreadable _ e | Sending _ e _ _ => Some e | _ => None end.

Class StoreKeeps `{CustodyLib} `{DirOrder} `{HashOrder} (G : ∀ A, IO A → Prop) (may : OutboxEntry → Prop) : Prop := {
  gk_ret : ∀ A (a : A), G A (mret a);
  gk_bind : ∀ A B (m : IO A) (k : A → IO B), G A m → (∀ a, G B (k a)) → G B (m ≫= k);
  gk_quiet : ∀ A (m : IO A), quiet m → G A m;
  gk_token : G string take_token;
  gk_tick : ∀ now, (0 ≤ now)%Z → G bool (custody_tick now);
  gk_finalize : ∀ now, (0 ≤ now)%Z → G bool (finalize_now now);
  gk_offer : ∀ batch now, (0 ≤ now)%Z → G BatchResult (offer batch now);
  gk_discard : ∀ now, G Z (discard_waiting now);
  gk_reserve : ∀ e, G bool (reserve e);
  gk_release : ∀ e, may e → G unit (release e)
}.

Section keeps.
Context `{CustodyLib} `{DirOrder} `{HashOrder} (G : ∀ A, IO A → Prop) (may : OutboxEntry → Prop) `{!StoreKeeps G may}.

Lemma gk_hbind {A B} (m : HIO A) (k : A → HIO B) h : G _ (m h) → (∀ a h, G _ (k a h)) → G _ (hbind m k h).
Proof. intros Hm Hk. apply gk_bind; [done|]. by intros [a h']. Qed.
Lemma gk_hret {A} (a : A) h : G _ (hret a h).
Proof. apply gk_ret. Qed.
Lemma gk_lift {A} (m : IO A) h : G _ m → G _ (lift m h).
Proof. intros Hm. apply gk_bind; [done|]. intros a. apply gk_ret. Qed.
Lemma gk_get {A} (f : Hub → A) h : G _ (hub_get f h).
Proof. apply gk_ret. Qed.
Lemma gk_put f h : G _ (hub_put f h).
Proof. apply gk_ret. Qed.
Lemma gk_publish_state h : G _ (publish_state h).
Proof. apply gk_put. Qed.
End keeps.

Section operations.
Context `{CustodyLib} `{DirOrder} `{HashOrder} (G : ∀ A, IO A → Prop) (may : OutboxEntry → Prop) `{!StoreKeeps G may}.
Create HintDb keeps.
Ltac hub_step :=
  match goal with
  | |- G _ (hret _ _) => apply (gk_hret G may)
  | |- G _ (hub_get _ _) => apply (gk_get G may)
  | |- G _ (hub_put _ _) => apply (gk_put G may)
  | |- G _ (publish _ _) => apply (gk_put G may)
  | |- G _ (publish_state _) => apply (gk_publish_state G may)
  | |- G _ (hbind _ _ _) => apply (gk_hbind G may); [|intros ? ?]
  | |- G _ (lift _ _) => apply (gk_lift G may)
  | |- G _ ((match ?x with _ => _ end) _) => destruct x
  | |- _ => solve [auto with keeps]
  end.
Ltac hub_walk := repeat hub_step.
#[local] Hint Extern 1 (G _ _) =>
  first [apply (gk_token (may := may)) | by apply (gk_tick (may := may)) | by apply (gk_finalize (may := may)) | by apply (gk_offer (may := may)) |
    apply (gk_discard (may := may)) | apply (gk_reserve (may := may)) | by apply (gk_release (may := may))] : keeps.

Lemma quiet_status now : quiet (custody_status now).
Proof.
  unfold custody_status. apply quiet_io_bind; [apply quiet_getw|]. intros st. destruct (cu_active st); quiet_walk.
Qed.
Lemma keeps_status now : G _ (custody_status now).
Proof. apply (gk_quiet (may := may)), quiet_status. Qed.
#[local] Hint Resolve keeps_status : keeps.

Lemma keeps_mint salt h : G _ (mint_generation salt h).
Proof. unfold mint_generation. hub_walk. Qed.
#[local] Hint Resolve keeps_mint : keeps.
Lemma keeps_generation g h : G _ (generation_for_pairing g h).
Proof. unfold generation_for_pairing. hub_walk. Qed.
#[local] Hint Resolve keeps_generation : keeps.
Lemma keeps_update_gates g h : G _ (update_gates g h).
Proof. unfold update_gates. hub_walk. Qed.
Lemma keeps_update_about a h : G _ (update_about_snapshot a h).
Proof. unfold update_about_snapshot. hub_walk. Qed.
Lemma keeps_delivery_failure f h : G _ (set_delivery_failure f h).
Proof. unfold set_delivery_failure. hub_walk. Qed.
Lemma keeps_compute now h : G _ (compute now h).
Proof. unfold compute. hub_walk. Qed.
#[local] Hint Resolve keeps_delivery_failure keeps_compute : keeps.
Lemma keeps_state_message now about h : G _ (state_message now about h).
Proof. unfold state_message. hub_walk. Qed.
#[local] Hint Resolve keeps_state_message : keeps.
Lemma keeps_hub_status order now h : G _ (hub_status order now h).
Proof. unfold hub_status. hub_walk. Qed.
Lemma keeps_hub_tick now h : (0 ≤ now)%Z → G _ (hub_tick now h).
Proof. intros Hn. unfold hub_tick. hub_walk. Qed.
Lemma keeps_quiesce now h : (0 ≤ now)%Z → G _ (quiesce now h).
Proof. intros Hn. unfold quiesce. hub_walk. Qed.
Lemma keeps_hub_discard now h : G _ (hub_discard_waiting now h).
Proof. unfold hub_discard_waiting. hub_walk. Qed.
Lemma keeps_hub_offer batch inst now h : (0 ≤ now)%Z → G _ (hub_offer batch inst now h).
Proof.
  intros Hn. unfold hub_offer. assert (G _ open_period_id) by (apply (gk_quiet (may := may)); unfold open_period_id, active; quiet_walk). hub_walk.
Qed.
#[local] Hint Resolve keeps_hub_offer : keeps.
Lemma keeps_session_turn s now e h : (0 ≤ now)%Z → G _ (session_turn s now e h).
Proof. intros Hn. unfold session_turn, send_state. hub_walk. Qed.
#[local] Hint Resolve keeps_session_turn : keeps.
Lemma keeps_turn s now e h : (0 ≤ now)%Z → G _ (turn s now e h).
Proof. intros Hn. unfold turn, unregister. hub_walk. Qed.
Lemma keeps_connect order brand inst now h : G _ (connect order brand inst now h).
Proof. unfold connect, register, hello. hub_walk. Qed.

Lemma keeps_start_pass h : G _ (start_pass h).
Proof. unfold start_pass. hub_walk. apply (gk_quiet (may := may)). unfold outbox. quiet_walk. Qed.
Lemma keeps_pass_next journal summary entries h : G _ (pass_next journal summary entries h).
Proof. unfold pass_next. hub_walk. apply (gk_quiet (may := may)), quiet_read_file. Qed.
Lemma keeps_note_failure b f h : G _ (note_failure b f h).
Proof. unfold note_failure. hub_walk. Qed.
#[local] Hint Resolve keeps_note_failure : keeps.
Lemma keeps_unreadable b summary e h : may e → G _ (pass_unreadable b summary e h).
Proof. intros He. unfold pass_unreadable. hub_walk. Qed.
Lemma keeps_drop_pass p h : (∀ e, held_entry p = Some e → may e) → G _ (drop_pass p h).
Proof. intros He. destruct p; cbn [drop_pass held_entry] in *; try (pose proof (He _ eq_refl)); hub_walk. Qed.
Lemma keeps_pass_outcome b o summary e es h : G _ (delivered e) → may e → G _ (pass_outcome b o summary e es h).
Proof. intros Hd He. unfold pass_outcome, hub_delivered. hub_walk. Qed.
End operations.

(** ** The two instances *)

Section instances.
Context `{CustodyLib} `{!CustodyLaws} `{DirOrder} `{HashOrder}.

Definition keeps_Inv (A : Type) (m : IO A) : Prop := spec Inv m (λ _, Inv).
#[global] Instance keeps_Inv_store : StoreKeeps keeps_Inv (λ _, True).
Proof.
  split; unfold keeps_Inv.
  - intros A a. by apply spec_ret.
  - intros A B m k Hm Hk. by eapply spec_bind.
  - intros A m Hq. by apply spec_quiet_Inv.
  - intros w Hw Hd. apply Hw, Hd.
  - apply spec_custody_tick.
  - apply spec_finalize_now.
  - apply spec_offer.
  - apply spec_discard_waiting.
  - apply spec_reserve.
  - intros e _. apply spec_release.
Qed.

Definition keeps_claim (x : Claim) (A : Type) (m : IO A) : Prop := safe (claim_ok x) m (λ _, claim_ok x).
#[global] Instance keeps_claim_store x : StoreKeeps (keeps_claim x) (λ e, oe_dir e ≠ x.1).
Proof.
  split; unfold keeps_claim.
  - intros A a. by apply safe_io_ret.
  - intros A B m k Hm Hk. by eapply safe_io_bind.
  - intros A m Hq. by apply safe_still_F, still_quiet.
  - by apply safe_still_F.
  - intros now _. apply safe_tick.
  - intros now _. apply safe_finalize_now.
  - intros batch now _. apply safe_offer.
  - apply safe_discard_waiting.
  - apply safe_reserve.
  - intros e. apply safe_release.
Qed.

(** Minted ids and accepted batches are never forgotten. *)
Definition grows (A : Type) (m : IO A) : Prop := ∀ w,
  (NoDup (w_minted (m w).2) → NoDup (w_minted w)) ∧ w_accepted w `suffix_of` w_accepted (m w).2.
Lemma grows_calm {A} (m : IO A) : calm m → grows A m.
Proof. intros Hc w. destruct (Hc w) as [Hn Ha]. split; [done|by rewrite Ha]. Qed.
Lemma grows_bind {A B} (m : IO A) (k : A → IO B) : grows A m → (∀ a, grows B (k a)) → grows B (m ≫= k).
Proof.
  intros Hm Hk w. unfold mbind, io_bind. destruct (Hm w) as [Hn Ha]. destruct (m w) as [[a|] w1]; cbn in *; [|done].
  destruct (Hk a w1) as [Hn' Ha']. split; [auto|by etrans].
Qed.
Lemma grows_commit key body r : grows _ (commit key body r).
Proof. apply grows_calm. unfold commit, on_active, active, set_active, write_receipt, create_period_dir. calm_walk. Qed.
Lemma grows_accept key id body : grows _ (note_accepted key id body).
Proof. intros w. split; [done|]. by exists [(key, (id, body))]. Qed.

Ltac grow_step :=
  match goal with
  | |- grows _ _ => solve [apply grows_calm; calm_walk]
  | |- grows _ (_ ≫= _) => apply grows_bind; [|intros ?]
  | |- grows _ (match ?x with _ => _ end) => destruct x
  | |- grows _ _ => first [apply grows_commit | apply grows_accept]
  end.
Lemma grows_offer batch now : grows _ (offer batch now).
Proof. unfold offer, offer_into_open, policy, active, set_full, on_active, active, set_active. repeat grow_step. Qed.

#[global] Instance grows_store : StoreKeeps grows (λ _, True).
Proof.
  split.
  - intros A a. apply grows_calm. calm_walk.
  - intros A B m k. apply grows_bind.
  - intros A m Hq. by apply grows_calm, calm_quiet.
  - apply grows_calm. by intros w.
  - intros now _. apply grows_calm. unfold custody_tick, active. calm_walk.
  - intros now _. apply grows_calm. unfold finalize_now, active. calm_walk.
  - intros batch now _. apply grows_offer.
  - intros now. apply grows_calm. unfold discard_waiting, active. calm_walk.
  - intros e. apply grows_calm. unfold reserve, active, set_active. calm_walk.
  - intros e _. apply grows_calm. unfold release. calm_walk.
Qed.
End instances.
