(* ===== verification/BrowserProps.v ===== *)
(** * What the browser host promises over any run

    The invariants of the runs of [BrowserRun], by induction over the steps:
    the store's promises hold whatever calls fail and wherever the process
    stops, and what a delivery pass holds stays as it read it. *)
From Stdlib Require Import Ascii String.
From stdpp Require Import sorting.
From S2P Require Import Prelude RustStr PauseStore Ingest Admission About Custody CustodyLogic CustodySteps CustodyOps CustodyMoves CustodyEnds CustodyLoad BrowserHub BrowserRun BrowserFlight BrowserKeeps.

Local Open Scope list_scope.

Section host.
Context `{CustodyLib} `{!CustodyLaws} `{DirOrder} `{HashOrder}.
Context (order : gmap Z SessionEntry → list (Z * SessionEntry)).
Context (development : bool) (version : string) (about0 : NativeAboutSnapshot).
Local Notation act := (act order development version about0).
Local Notation step := (step order development version about0).
Local Notation run := (run order development version about0).
Local Notation stopped := (stopped development version about0).
Local Notation perform := (perform development version about0).
Local Notation fresh_host := (fresh_host development version about0).

(** ** What a pass holds *)

Definition claim_of (p : Pass) : option Claim :=
  match p with
  | Unreadable _ e => Some (oe_dir e, None)
  | Sending _ e body _ => Some (oe_dir e, Some body)
  | _ => None
  end.
(** The entries a pass still has to look at. *)
Definition entries_of (p : Pass) : list OutboxEntry :=
  match p with Looping _ es | Sending _ _ _ es => es | _ => [] end.

Record pass_ok (w : World) (p : Pass) : Prop := {
  po_claim : ∀ x, claim_of p = Some x → claim_ok x w;
  po_names : ∀ e, e ∈ entries_of p → is_staging (oe_dir e) = false;
  po_body : ∀ s e body es, p = Sending s e body es → body_matches e body = true
}.
Record flight_ok (w : World) (ps : list Pass) : Prop := {
  fl_pass : ∀ p, p ∈ ps → pass_ok w p;
  fl_apart : ∀ i j p q x y, ps !! i = Some p → ps !! j = Some q → claim_of p = Some x → claim_of q = Some y →
    x.1 = y.1 → i = j
}.

Lemma flight_nil w : flight_ok w [].
Proof. split; [by intros p ?%not_elem_of_nil|]. intros i j p q x y Hp. by rewrite lookup_nil in Hp. Qed.

(** A pass without a claim. *)
Lemma pass_ok_idle w p : claim_of p = None → (∀ e, e ∈ entries_of p → is_staging (oe_dir e) = false) → pass_ok w p.
Proof. intros Hc He. split; [|done|]; [intros x; congruence|]. intros s e body es ->. done. Qed.

Lemma safe_hret {A} (a : A) h (P : World → Prop) (Q : A * Hub → World → Prop) : (∀ w, P w → Q (a, h) w) → safe P (hret a h) Q.
Proof. apply safe_io_ret. Qed.
Lemma safe_hbind {A B} (m : HIO A) (k : A → HIO B) h P R Q :
  safe P (m h) R → (∀ a h', safe (R (a, h')) (k a h') Q) → safe P (hbind m k h) Q.
Proof. intros Hm Hk. eapply safe_io_bind; [exact Hm|]. intros [a h']. apply Hk. Qed.
Lemma safe_io_skip {A B} (m : HIO A) (k : A → HIO B) h P Q :
  (∀ a h', safe (λ _, True) (k a h') Q) → safe P (hbind m k h) Q.
Proof. intros Hk. eapply safe_hbind with (R := λ _ _, True); [|done]. intros w _. by destruct (m h w).1. Qed.
Lemma safe_lift {A} (m : IO A) h P (R : A → World → Prop) (Q : A * Hub → World → Prop) :
  safe P m R → (∀ a w, R a w → Q (a, h) w) → safe P (lift m h) Q.
Proof. intros Hm HQ. eapply safe_io_bind; [exact Hm|]. intros a. by apply safe_io_ret, HQ. Qed.

Lemma pass_next_ok journal s es h :
  (∀ e, e ∈ es → is_staging (oe_dir e) = false) →
  safe (λ _, True) (pass_next journal s es h) (λ r w, pass_ok w r.1).
Proof.
  intros Hes. unfold pass_next. destruct es as [|e es]; [by apply safe_hret; intros w _; apply pass_ok_idle|].
  assert (Hrest : ∀ e, e ∈ es → is_staging (oe_dir e) = false) by (intros e' ?; apply Hes; by right).
  destruct journal; cbn [negb]; [|by apply safe_hret; intros w _; apply pass_ok_idle; [|intros ? ?%not_elem_of_nil]].
  eapply safe_hbind with (R := λ r w, r.1 = true → claim_ok (oe_dir e, None) w).
  { eapply safe_lift; [apply reserve_claims, Hes; by left|done]. }
  intros reserved h1. destruct reserved; cbn [negb]; [|by apply safe_hret; intros w _; apply pass_ok_idle].
  eapply safe_hbind with (R := λ r w, match r.1 with Ok body => claim_ok (oe_dir e, Some body) w | Err _ => claim_ok (oe_dir e, None) w end).
  { eapply safe_lift; [eapply safe_io_weaken; [|done|apply read_claims]; intros w Hw; by apply Hw|done]. }
  intros r h2. destruct r as [body|err].
  - destruct (body_matches e body) eqn:Hb; apply safe_hret; intros w Hc.
    + split; [by intros x [= <-]|done|]. by intros ? ? ? ? [= <- <- <- <-].
    + split; [|by intros ? ?%not_elem_of_nil|done]. intros x [= <-]. destruct Hc as (? & ? & _). by split_and!.
  - apply safe_hret. intros w Hc. split; [by intros x [= <-]|by intros ? ?%not_elem_of_nil|done].
Qed.

(** Every turn leaves the pass in order... *)
Lemma pass_turn_ok journal still outcome p h w :
  pass_ok w p → safe (λ _, True) (pass_turn journal still outcome p h) (λ r w, pass_ok w r.1).
Proof.
  intros Hp. destruct p as [s es|s e|s e body es|s]; cbn [pass_turn].
  - apply pass_next_ok. apply (po_names _ _ Hp).
  - unfold pass_unreadable. apply safe_io_skip. intros _ h1. apply safe_io_skip.
    intros _ h2. apply safe_hret. intros w' _. apply pass_ok_idle; [done|by intros ? ?%not_elem_of_nil].
  - assert (Hend : ∀ (m : HIO unit) h, safe (λ _, True) (hbind m (λ _, hbind (lift (release e)) (λ _, hret (Ended s))) h) (λ r w, pass_ok w r.1)).
    { intros m h'. apply safe_io_skip. intros _ h1. apply safe_io_skip.
      intros _ h2. apply safe_hret. intros w' _. apply pass_ok_idle; [done|by intros ? ?%not_elem_of_nil]. }
    unfold pass_outcome. destruct outcome; [|apply Hend|apply Hend].
    apply safe_io_skip. intros [[]|err] h1; [|apply Hend]. apply safe_io_skip.
    intros _ h2. apply safe_hret. intros w' _. apply pass_ok_idle; [done|apply (po_names _ _ Hp)].
  - apply safe_hret. intros w' _. apply pass_ok_idle; [done|by intros ? ?%not_elem_of_nil].
Qed.
(** ...and never takes what another one holds. *)
Definition apart (x : Claim) (p : Pass) : Prop := ∀ y, claim_of p = Some y → y.1 ≠ x.1.
Lemma pass_turn_apart x journal still outcome p h :
  safe (claim_ok x) (pass_turn journal still outcome p h) (λ r _, apart x r.1).
Proof.
  assert (Hnone : ∀ s h, safe (claim_ok x) (hret (Ended s) h) (λ r _, apart x r.1)) by (intros; by apply safe_hret).
  assert (Hend : ∀ (m : HIO unit) e s h, safe (λ _, True) (hbind m (λ _, hbind (lift (release e)) (λ _, hret (Ended s))) h) (λ r _, apart x r.1)).
  { intros m e s h'. apply safe_io_skip. intros _ h1. apply safe_io_skip.
    intros _ h2. by apply safe_hret. }
  destruct p as [s es|s e|s e body es|s]; cbn [pass_turn]; [| | |done].
  - unfold pass_next. destruct es as [|e es]; [done|]. destruct journal; [|done]. cbn [negb].
    destruct (decide (oe_dir e = x.1)) as [He|Hne].
    + eapply safe_hbind with (R := λ r _, r.1 = false).
      { pose proof (reserve_excludes e x.2) as Hr. rewrite He in Hr. eapply safe_lift; [destruct x; exact Hr|done]. }
      intros reserved h1. destruct reserved; [by intros w|]. by apply safe_hret.
    + apply safe_io_skip. intros reserved h1. destruct reserved; [|by apply safe_hret]. cbn [negb].
      apply safe_io_skip. intros r h2. destruct r as [body|err]; [destruct (body_matches e body)|];
        apply safe_hret; intros w _ y [= <-]; done.
  - unfold pass_unreadable. eapply safe_io_weaken; [| |apply Hend]; done.
  - unfold pass_outcome. destruct outcome; [|eapply safe_io_weaken; [| |apply Hend]; done|eapply safe_io_weaken; [| |apply Hend]; done].
    apply safe_io_skip. intros [[]|err] h1; [|apply Hend]. apply safe_io_skip. intros _ h2. by apply safe_hret.
Qed.
(** It keeps the claims of the others. *)
Lemma pass_turn_keeps x journal still outcome p h :
  apart x p → keeps_claim x _ (pass_turn journal still outcome p h).
Proof.
  intros Hx. destruct p as [s es|s e|s e body es|s]; cbn [pass_turn].
  - by eapply keeps_pass_next, keeps_claim_store.
  - eapply keeps_unreadable; [apply keeps_claim_store|]. apply (Hx _ eq_refl).
  - eapply keeps_pass_outcome; [apply keeps_claim_store|apply safe_delivered|]; apply (Hx _ eq_refl).
  - by apply safe_hret.
Qed.
Lemma drop_pass_ok p h : safe (λ _, True) (drop_pass p h) (λ r w, pass_ok w r.1).
Proof.
  assert (Hend : ∀ w s, pass_ok w (Ended s)) by (intros; apply pass_ok_idle; [done|by intros ? ?%not_elem_of_nil]).
  destruct p; cbn [drop_pass]; try (by apply safe_hret; intros w _; apply Hend);
    (apply safe_io_skip; intros _ h1; apply safe_hret; intros w _; apply Hend).
Qed.
Lemma drop_pass_apart x p h P : safe P (drop_pass p h) (λ r _, apart x r.1).
Proof.
  destruct p; cbn [drop_pass]; try (by apply safe_hret);
    (apply safe_io_skip; intros _ h1; by apply safe_hret).
Qed.
Lemma drop_pass_keeps x p h : apart x p → keeps_claim x _ (drop_pass p h).
Proof.
  intros Hx. eapply keeps_drop_pass; [apply keeps_claim_store|]. intros e He.
  destruct p; cbn in He; try done; injection He as <-; apply (Hx _ eq_refl).
Qed.

(** ** Steps *)

Definition flight (s : Host) : Prop := flight_ok (ho_world s) (ho_passes s).
Lemma flight_stopped w : flight (stopped w).
Proof. apply flight_nil. Qed.

(** The operation keeps every claim, and no pass changes. *)
Lemma flight_keep {A} (m : IO A) w ps a w' :
  (∀ x, keeps_claim x _ m) → m w = (Some a, w') → flight_ok w ps → flight_ok w' ps.
Proof.
  intros Hm He [Hp Ha]. split; [|done]. intros p Hin. destruct (Hp p Hin) as [Hc Hn Hb]. split; [|done|done].
  intros x Hx. specialize (Hm x w (Hc x Hx)). by rewrite He in Hm.
Qed.
Lemma flight_perform {A} (m : HIO A) s k :
  (∀ x h, keeps_claim x _ (m h)) →
  (∀ a s, ho_world (k a s) = ho_world s ∧ ho_passes (k a s) = ho_passes s) →
  flight s → flight (perform m s k).
Proof.
  intros Hm Hk Hf. unfold BrowserRun.perform. destruct (m (ho_hub s) (ho_world s)) as [[[a h]|] w] eqn:He; [|apply flight_stopped].
  unfold flight. destruct (Hk a (mkHost h w true (ho_sessions s) (ho_passes s))) as [-> ->]. cbn.
  by eapply flight_keep.
Qed.

Lemma flight_start s :
  flight s → flight (perform start_pass s (λ p s, with_passes (ho_passes s ++ [p]) s)).
Proof.
  intros Hf. unfold BrowserRun.perform. destruct (start_pass (ho_hub s) (ho_world s)) as [[[p h]|] w] eqn:He; [|apply flight_stopped].
  assert (Hf' : flight_ok w (ho_passes s)).
  { eapply flight_keep; [|exact He|exact Hf]. intros x. eapply keeps_start_pass, keeps_claim_store. }
  assert (Hp : pass_ok w p ∧ claim_of p = None).
  { assert (Hsafe : safe (λ _, True) (start_pass (ho_hub s)) (λ r w, pass_ok w r.1 ∧ claim_of r.1 = None)).
    { unfold start_pass. eapply safe_hbind with (R := λ r _, ∀ e, e ∈ r.1 → is_staging (oe_dir e) = false).
      - eapply safe_lift; [apply outbox_names|done].
      - intros es h'. apply safe_hret. intros w' Hes. split; [by apply pass_ok_idle|done]. }
    specialize (Hsafe (ho_world s) I). by rewrite He in Hsafe. }
  destruct Hp as [Hp Hn]. unfold flight. cbn. destruct Hf' as [Hpass Hapart]. split.
  - intros q [Hq|Hq%list_elem_of_singleton]%elem_of_app; [by apply Hpass|by subst q].
  - intros i j q r x y Hq Hr Hx Hy. apply lookup_snoc_Some in Hq as [[_ Hq]|[_ <-]]; [|congruence].
    apply lookup_snoc_Some in Hr as [[_ Hr]|[_ <-]]; [|congruence]. by eapply Hapart.
Qed.

Lemma flight_on_pass i f s :
  (∀ p h w, pass_ok w p → safe (λ _, True) (f p h) (λ r w, pass_ok w r.1)) →
  (∀ x p h, safe (claim_ok x) (f p h) (λ r _, apart x r.1)) →
  (∀ x p h, apart x p → keeps_claim x _ (f p h)) →
  flight s → flight (on_pass development version about0 i f s).
Proof.
  intros Hok Hap Hkeep [Hpass Hapart]. unfold on_pass, BrowserRun.perform. destruct (ho_passes s !! i) as [p|] eqn:Hi; [|by split].
  destruct (f p (ho_hub s) (ho_world s)) as [[[p' h]|] w] eqn:He; [|apply flight_stopped].
  assert (Hp : pass_ok (ho_world s) p) by (apply Hpass; by eapply list_elem_of_lookup_2).
  assert (Hp' : pass_ok w p').
  { pose proof (Hok p (ho_hub s) _ Hp (ho_world s) I) as Hs. by rewrite He in Hs. }
  assert (Hother : ∀ j q x, ho_passes s !! j = Some q → i ≠ j → claim_of q = Some x → claim_ok x w ∧ apart x p').
  { intros j q x Hj Hne Hx. assert (Hc : claim_ok x (ho_world s)).
    { eapply (po_claim _ q); [apply Hpass; by eapply list_elem_of_lookup_2|done]. }
    assert (Hxp : apart x p). { intros y Hy Hxy. apply Hne. by eapply (Hapart i j). }
    pose proof (Hkeep x p (ho_hub s) Hxp _ Hc) as Hk. pose proof (Hap x p (ho_hub s) _ Hc) as Ha. by rewrite He in Hk, Ha. }
  unfold flight. cbn. split.
  - intros q Hq. apply list_elem_of_lookup_1 in Hq as [j Hj]. apply list_lookup_insert_Some in Hj as [(_ & <- & _)|[Hne Hj]]; [done|].
    destruct (Hpass q) as [Hc Hn Hb]; [by eapply list_elem_of_lookup_2|]. split; [|done|done].
    intros x Hx. by eapply Hother.
  - intros j k q r x y Hq Hr Hx Hy Hxy.
    apply list_lookup_insert_Some in Hq as [(-> & <- & _)|[Hne Hq]]; apply list_lookup_insert_Some in Hr as [(-> & <- & _)|[Hne' Hr]].
    + done.
    + destruct (Hother k r y Hr Hne' Hy) as [_ Ha]. by destruct (Ha x Hx).
    + destruct (Hother j q x Hq Hne Hx) as [_ Ha]. by destruct (Ha y Hy).
    + by eapply Hapart.
Qed.

Lemma flight_step s i : (0 ≤ act_now (in_act i))%Z → flight s → flight (step s i).
Proof.
  intros Hnow Hf. unfold BrowserRun.step. set (s0 := mkHost _ _ _ _ _).
  assert (Hf0 : flight s0).
  { destruct Hf as [Hp Ha]. split; [|done]. intros p Hin. destruct (Hp p Hin) as [Hc Hn Hb]. by split. }
  destruct (ho_up s0 || is_restart (in_act i)); [|done].
  destruct (in_act i) as [brand inst now|id now e|g|a|now|now| |now|now| |k j b o|k|pol now]; cbn [act_now] in Hnow; unfold BrowserRun.act.
  - apply flight_perform; [intros; eapply keeps_connect, keeps_claim_store| |done].
    by intros [[x ms]|] s'.
  - destruct (ho_sessions s0 !! id) as [x|]; [|done]. apply flight_perform; [|done|done].
    intros y h. by eapply keeps_turn; [apply keeps_claim_store|].
  - apply flight_perform; [|done|done]. intros. eapply keeps_update_gates, keeps_claim_store.
  - apply flight_perform; [|done|done]. intros. eapply keeps_update_about, keeps_claim_store.
  - apply flight_perform; [|done|done]. intros. by eapply keeps_hub_tick; [apply keeps_claim_store|].
  - apply flight_perform; [|done|done]. intros. by eapply keeps_quiesce; [apply keeps_claim_store|].
  - apply flight_perform; [|done|done]. by intros x h w Hw.
  - apply flight_perform; [|done|done]. intros. eapply keeps_hub_status, keeps_claim_store.
  - apply flight_perform; [|done|done]. intros. eapply keeps_hub_discard, keeps_claim_store.
  - by apply flight_start.
  - apply flight_on_pass; [intros; by eapply pass_turn_ok|intros; apply pass_turn_apart|intros; by apply pass_turn_keeps|done].
  - apply flight_on_pass; [intros; apply drop_pass_ok|intros; apply drop_pass_apart|intros; by apply drop_pass_keeps|done].
  - unfold BrowserRun.perform. destruct (lift _ _ _) as [[[a h]|] w]; [|apply flight_stopped]. apply flight_nil.
Qed.

(** ** The store's promises *)

Definition pass_fits (p : Pass) : Prop :=
  ∀ e, e ∈ entries_of p ∨ held_entry p = Some e → fits (oe_dir e) (oe_period_id e).
(** Relative to the minted ids being distinct. *)
Definition stored (s : Host) : Prop := NoDup (w_minted (ho_world s)) →
  (if ho_up s then Inv (core (ho_world s)) else disk_ok (core (ho_world s))) ∧ ∀ p, p ∈ ho_passes s → pass_fits p.

Lemma stored_perform {A} (m : HIO A) s k (P : Core → Prop) (Q : A * Hub → Core → Prop) :
  (∀ c, P c → disk_ok c) → spec P (m (ho_hub s)) Q → grows _ (m (ho_hub s)) →
  (NoDup (w_minted (ho_world s)) → P (core (ho_world s)) ∧ ∀ p, p ∈ ho_passes s → pass_fits p) →
  (∀ a h w, m (ho_hub s) (ho_world s) = (Some (a, h), w) → Q (a, h) (core w) → (∀ p, p ∈ ho_passes s → pass_fits p) →
    ho_world (k a (mkHost h w true (ho_sessions s) (ho_passes s))) = w ∧
    ho_up (k a (mkHost h w true (ho_sessions s) (ho_passes s))) = true ∧ Inv (core w) ∧
    ∀ p, p ∈ ho_passes (k a (mkHost h w true (ho_sessions s) (ho_passes s))) → pass_fits p) →
  (∀ a h w, m (ho_hub s) (ho_world s) = (Some (a, h), w) → ho_world (k a (mkHost h w true (ho_sessions s) (ho_passes s))) = w) →
  stored (perform m s k).
Proof.
  intros HP Hm Hg Hs Hk Hw. unfold BrowserRun.perform.
  specialize (Hm (ho_world s) (λ Hn, proj1 (Hs Hn))). destruct (Hg (ho_world s)) as [Hn _].
  destruct (m (ho_hub s) (ho_world s)) as [[[a h]|] w] eqn:He; cbn in *.
  - intros Hd. rewrite (Hw a h w) in Hd by done. destruct (Hs (Hn Hd)) as [_ Hf].
    destruct (Hk a h w eq_refl (Hm Hd) Hf) as (-> & -> & Hi & Hp). by split.
  - intros Hd. split; [by apply Hm|]. by intros p ?%not_elem_of_nil.
Qed.

(** Operations that leave the passes alone. *)
Lemma stored_plain {A} (m : HIO A) s k :
  (∀ h, keeps_Inv _ (m h)) → (∀ h, grows _ (m h)) →
  (∀ a s, ho_world (k a s) = ho_world s ∧ ho_up (k a s) = ho_up s ∧ ho_passes (k a s) = ho_passes s) →
  ho_up s = true → stored s → stored (perform m s k).
Proof.
  intros Hm Hg Hk Hup Hs. unfold stored in Hs. rewrite Hup in Hs.
  apply (stored_perform m s k Inv (λ _, Inv)); [apply Inv_disk|apply Hm|apply Hg|exact Hs| |].
  - intros a h w _ Hi Hf. destruct (Hk a (mkHost h w true (ho_sessions s) (ho_passes s))) as (-> & -> & ->). done.
  - intros a h w _. by destruct (Hk a (mkHost h w true (ho_sessions s) (ho_passes s))) as (-> & _ & _).
Qed.

Lemma spec_start_pass h : spec Inv (start_pass h) (λ r c, Inv c ∧ pass_fits r.1).
Proof.
  unfold start_pass, hbind, lift. set (Q := λ (es : list OutboxEntry) c, Inv c ∧ ∀ e, e ∈ es → fits (oe_dir e) (oe_period_id e)).
  eapply spec_bind with (R := λ r c, Q r.1 c).
  - eapply spec_bind with (R := Q); [|intros es; by apply spec_ret]. unfold outbox.
    eapply spec_bind with (R := Q).
    + eapply spec_reads; [apply reads_all_outbox|apply Inv_disk|]. intros c es Hi Hes. split; [done|].
      intros e He. eapply read_from_fits; [by apply Inv_disk|by apply Hes].
    + intros es. eapply spec_reads; [apply reads_filter; intros; quiet_walk|by intros c [?%Inv_disk _]|].
      intros c out [Hi He] Hout. split; [done|]. intros e Hin. by apply He, Hout.
  - intros [es h1]. apply spec_ret. intros c [Hi He]. split; [done|]. cbn. intros e [Hin|Hn]; [by apply He|done].
Qed.

(** What a turn leaves to do was there before. *)
Lemma pass_turn_fits journal still outcome p h :
  safe (λ _, True) (pass_turn journal still outcome p h) (λ r _, pass_fits p → pass_fits r.1).
Proof.
  assert (Hended : ∀ s, pass_fits (Ended s)) by (intros s e [?%not_elem_of_nil|?]; done).
  assert (Hend : ∀ (m : HIO unit) e s h, safe (λ _, True) (hbind m (λ _, hbind (lift (release e)) (λ _, hret (Ended s))) h)
    (λ r _, pass_fits p → pass_fits r.1)).
  { intros m e s h'. apply safe_io_skip. intros _ h1. apply safe_io_skip. intros _ h2. (apply safe_hret; intros ? _ _; apply Hended). }
  destruct p as [s es|s e|s e body es|s]; cbn [pass_turn].
  - unfold pass_next. destruct es as [|e es]; [(apply safe_hret; intros ? _ _; apply Hended)|]. destruct journal; [|(apply safe_hret; intros ? _ _; apply Hended)]. cbn [negb].
    assert (Hall : pass_fits (Looping s (e :: es)) → fits (oe_dir e) (oe_period_id e) ∧ ∀ e', e' ∈ es → fits (oe_dir e') (oe_period_id e')).
    { intros Hf. split; [apply Hf; left; by left|]. intros e' ?. apply Hf. left. by right. }
    apply safe_io_skip. intros reserved h1. destruct reserved; cbn [negb].
    + assert (Hbad : pass_fits (Looping s (e :: es)) → pass_fits (Unreadable s e)).
      { intros [He _]%Hall e' [Hin%not_elem_of_nil|Hh]; [done|]. injection Hh as <-. done. }
      apply safe_io_skip. intros r h2. destruct r as [body|err]; [destruct (body_matches e body)|]; apply safe_hret; intros w _; try done.
      intros [He Hes]%Hall e' [Hin|Hh]; [by apply Hes|]. injection Hh as <-. done.
    + apply safe_hret. intros w _ [_ Hes]%Hall e' [Hin|?]; [by apply Hes|done].
  - apply Hend.
  - unfold pass_outcome. destruct outcome; [|apply Hend|apply Hend]. apply safe_io_skip. intros [[]|err] h1; [|apply Hend].
    apply safe_io_skip. intros _ h2. apply safe_hret. intros w _ Hf e' [Hin|?]; [apply Hf; by left|done].
  - apply safe_hret; intros ? _ _; apply Hended.
Qed.
Lemma drop_pass_fits p h : safe (λ _, True) (drop_pass p h) (λ r _, pass_fits p → pass_fits r.1).
Proof.
  assert (Hended : ∀ s, pass_fits (Ended s)) by (intros s e [?%not_elem_of_nil|?]; done).
  destruct p; cbn [drop_pass]; try ((apply safe_hret; intros ? _ _; apply Hended)); (apply safe_io_skip; intros _ h1; (apply safe_hret; intros ? _ _; apply Hended)).
Qed.

(** A pass that holds a period has a store to report to. *)
Definition ready_pass (p : Pass) (c : Core) : Prop :=
  Inv c ∧ (is_Some (held_entry p) → is_Some (cu_active (c_store c))).
Lemma spec_pass_turn journal still outcome p h :
  spec (λ c, pass_fits p ∧ ready_pass p c) (pass_turn journal still outcome p h) (λ _, Inv).
Proof.
  assert (Hplain : ∀ m : IO (Pass * Hub), keeps_Inv _ m → spec (λ c, pass_fits p ∧ ready_pass p c) m (λ _, Inv)).
  { intros m Hm. eapply spec_pre; [|exact Hm]. by intros c (_ & ? & _). }
  destruct p as [s es|s e|s e body es|s]; cbn [pass_turn].
  - eapply Hplain, keeps_pass_next, keeps_Inv_store.
  - eapply Hplain, keeps_unreadable; [apply keeps_Inv_store|done].
  - assert (Hend : ∀ f h, keeps_Inv _ (hbind (note_failure still f) (λ _, hbind (lift (release e)) (λ _, hret (Ended s))) h)).
    { intros f h'. eapply gk_hbind; [apply keeps_Inv_store|eapply keeps_note_failure, keeps_Inv_store|]. intros _ h1.
      eapply spec_bind with (R := λ _, Inv); [|intros r; by apply spec_ret].
      eapply spec_bind with (R := λ _, Inv); [apply spec_release|]. intros []. by apply spec_ret. }
    unfold pass_outcome. destruct outcome; [|apply Hplain, Hend|apply Hplain, Hend]. unfold hub_delivered.
    eapply spec_bind with (R := λ _, Inv).
    { eapply spec_bind with (R := λ _, Inv).
      - eapply spec_bind with (R := λ _, Inv); [|intros ?; by apply spec_ret].
        eapply spec_pre; [|apply (spec_pull (fits (oe_dir e) (oe_period_id e)) _ _ _ (calm_delivered e) (spec_delivered e))].
        intros c [Hf [Hi Ha]]. split; [apply Hf; by right|]. split; [done|apply Ha; by eauto].
      - intros r. eapply spec_bind with (R := λ _, Inv); [by apply spec_ret|]. intros r'. by apply spec_ret. }
    intros [[[]|err] h1]; [|apply Hend]. eapply spec_bind with (R := λ _, Inv); [eapply keeps_note_failure, keeps_Inv_store|].
    intros r. by apply spec_ret.
  - by apply Hplain, spec_ret.
Qed.

Lemma grows_pass_turn journal still outcome p h : grows _ (pass_turn journal still outcome p h).
Proof.
  destruct p as [s es|s e|s e body es|s]; cbn [pass_turn].
  - eapply keeps_pass_next, grows_store.
  - eapply keeps_unreadable; [apply grows_store|done].
  - eapply keeps_pass_outcome; [apply grows_store|apply grows_calm, calm_delivered|done].
  - eapply gk_hret, grows_store.
Qed.
Lemma grows_drop_pass p h : grows _ (drop_pass p h).
Proof. eapply keeps_drop_pass; [apply grows_store|done]. Qed.

Lemma stored_on_pass i f s :
  (∀ p h, spec (λ c, pass_fits p ∧ ready_pass p c) (f p h) (λ _, Inv)) → (∀ p h, grows _ (f p h)) →
  (∀ p h, safe (λ _, True) (f p h) (λ r _, pass_fits p → pass_fits r.1)) →
  ho_up s = true → flight s → stored s → stored (on_pass development version about0 i f s).
Proof.
  intros Hf Hg Hfit Hup Hfl Hs. unfold stored in Hs. rewrite Hup in Hs. unfold on_pass.
  destruct (ho_passes s !! i) as [p|] eqn:Hi; [|unfold stored; by rewrite Hup].
  assert (Hin : p ∈ ho_passes s) by by eapply list_elem_of_lookup_2.
  apply (stored_perform _ s _ (λ c, pass_fits p ∧ ready_pass p c) (λ _, Inv)); [by intros c (_ & ?%Inv_disk & _)|apply Hf|apply Hg| | |done].
  - intros Hn. destruct (Hs Hn) as [Hi' Hfits]. split; [|done]. split; [by apply Hfits|]. split; [done|].
    destruct (fl_pass _ _ Hfl p Hin) as [Hc _ _]. intros [e He].
    assert (∃ x, claim_of p = Some x) as [x Hx] by (destruct p; cbn in *; try done; eauto).
    destruct (Hc x Hx) as (_ & (a & Ha & _) & _). cbn. by rewrite Ha.
  - intros p' h w He HI Hfits. cbn. split_and!; [done|done|done|].
    intros q Hq. apply list_elem_of_lookup_1 in Hq as [j Hj]. apply list_lookup_insert_Some in Hj as [(_ & <- & _)|[_ Hj]].
    + specialize (Hfit p (ho_hub s) (ho_world s) I). rewrite He in Hfit. by apply Hfit, Hfits.
    + apply Hfits. by eapply list_elem_of_lookup_2.
Qed.

Lemma stored_restart pol now s :
  (0 ≤ now)%Z → stored s → stored (perform (lift (open_store pol now)) (stopped (ho_world s)) (λ _ s, s)).
Proof.
  intros Hnow Hs.
  apply (stored_perform _ (stopped (ho_world s)) _ disk_ok (λ _, Inv)); [done| | | | |done].
  - eapply spec_bind; [by apply spec_open_store|]. intros []. by apply spec_ret.
  - eapply gk_lift; [apply grows_store|]. apply grows_calm, calm_open_store.
  - intros Hn. destruct (Hs Hn) as [Hi _]. split; [|by intros p ?%not_elem_of_nil]. destruct (ho_up s); [by apply Inv_disk|done].
  - intros a h w _ Hi _. cbn. split_and!; [done|done|done|by intros p ?%not_elem_of_nil].
Qed.

Ltac plain L := apply stored_plain;
  [intros; by eapply L; [apply keeps_Inv_store|..]|intros; by eapply L; [apply grows_store|..]|done|done|done].

Lemma stored_step s i : (0 ≤ act_now (in_act i))%Z → flight s → stored s → stored (step s i).
Proof.
  intros Hnow Hfl Hs. unfold BrowserRun.step. set (s0 := mkHost _ _ _ _ _).
  assert (Hs0 : stored s0) by done.
  assert (Hf0 : flight s0).
  { destruct Hfl as [Hp Ha]. split; [|done]. intros p Hin. destruct (Hp p Hin) as [Hc Hn Hb]. by split. }
  destruct (is_restart (in_act i)) eqn:Hr.
  { rewrite orb_true_r. destruct (in_act i); try done. by apply stored_restart. }
  rewrite orb_false_r. destruct (ho_up s0) eqn:Hup; [|done].
  destruct (in_act i) as [brand inst now|id now e|g|a|now|now| |now|now| |k j b o|k|pol now]; cbn [act_now] in Hnow; unfold BrowserRun.act.
  - apply stored_plain; [intros; eapply keeps_connect, keeps_Inv_store|intros; eapply keeps_connect, grows_store| |done|done].
    by intros [[x ms]|] s'.
  - destruct (ho_sessions s0 !! id) as [x|]; [|done]. plain @keeps_turn.
  - plain @keeps_update_gates.
  - plain @keeps_update_about.
  - plain @keeps_hub_tick.
  - plain @keeps_quiesce.
  - apply stored_plain; [intros; by apply spec_ret|intros h; eapply (gk_ret (G := grows))|done|done|done].
  - plain @keeps_hub_status.
  - plain @keeps_hub_discard.
  - unfold stored in Hs0. rewrite Hup in Hs0.
    apply (stored_perform _ s0 _ Inv (λ r c, Inv c ∧ pass_fits r.1)); [apply Inv_disk|apply spec_start_pass| |done| |done].
    + eapply keeps_start_pass, grows_store.
    + intros p h w _ [Hi Hp] Hfits. cbn. split_and!; [done|done|done|].
      intros q [?|Hq%list_elem_of_singleton]%elem_of_app; [by apply Hfits|by subst].
  - apply stored_on_pass; [intros; apply spec_pass_turn|intros; apply grows_pass_turn|intros; apply pass_turn_fits|done|done|done].
  - apply stored_on_pass; [|intros; apply grows_drop_pass|intros; apply drop_pass_fits|done|done|done].
    intros p h. eapply spec_pre; [|eapply keeps_drop_pass; [apply keeps_Inv_store|done]]. by intros c (_ & ? & _).
  - done.
Qed.

(** ** Runs *)

Definition clocked (inputs : list Input) : Prop := Forall (λ i, 0 ≤ act_now (in_act i))%Z inputs.

Lemma run_ok s inputs : clocked inputs → flight s → stored s → flight (run s inputs) ∧ stored (run s inputs).
Proof.
  intros Hc. revert s. induction Hc as [|i inputs Hi _ IH]; intros s Hf Hs; [done|]. cbn.
  apply IH; [by apply flight_step|by apply stored_step].
Qed.

Lemma fresh_ok : flight fresh_host ∧ stored fresh_host.
Proof.
  split; [apply flight_stopped|]. intros _. split; [|by intros p ?%not_elem_of_nil]. cbn. split; cbn; try done.
  - by intros ? ? ? ?%not_elem_of_nil.
  - apply NoDup_nil_2.
Qed.

(** ** Properties *)

Lemma run_disk inputs : clocked inputs → NoDup (w_minted (ho_world (run fresh_host inputs))) →
  disk_ok (core (ho_world (run fresh_host inputs))).
Proof.
  intros Hc Hn. destruct fresh_ok as [Hf Hs]. destruct (run_ok fresh_host inputs Hc Hf Hs) as [_ Hst].
  destruct (Hst Hn) as [Hi _]. destruct (ho_up _); [by apply Inv_disk|done].
Qed.

(** C9. Whatever calls on the file system fail, whole or half way, and wherever
    the process stops and starts again: a batch of page text that was accepted
    keeps a receipt that names its period; while the receipt is pending, the
    text is on the disk, in an open period the next start will finish or in a
    finished one whose manifest matches its pages, unless the removal of that
    open period's directory had failed after a discard; and the receipt is
    settled only for a period that was delivered or discarded. *)
Theorem accepted_text_is_kept inputs key id body :
  clocked inputs → let w := ho_world (run fresh_host inputs) in
  NoDup (w_minted w) → (key, (id, body)) ∈ w_accepted w →
  ∃ r, receipt_at (w_disk w) key = Some r ∧ rf_period_id r = id ∧
    match rf_state r with
    | RPending => id ∈ w_half w ∨ kept (w_disk w) key id body
    | _ => id ∈ w_disposed w
    end.
Proof.
  intros Hc w Hn Hin. pose proof (run_disk inputs Hc Hn) as Hd.
  destruct (ok_accepted _ Hd _ _ _ Hin) as (_ & _ & r & Hr & Hid & Hk). exists r. split_and!; [done|done|].
  destruct (rf_state r) eqn:Hst; [by apply Hk| |]; rewrite <- Hid; apply (ok_settled _ Hd key r Hr); by rewrite Hst.
Qed.

(** C10. No batch is accepted twice, over any number of restarts: its key is in
    the log once, and a working store answers a repetition with the period it
    went to, without writing anything. *)
Theorem no_batch_is_accepted_twice inputs :
  clocked inputs → let s := run fresh_host inputs in let w := ho_world s in
  NoDup (w_minted w) →
  NoDup (w_accepted w).*1 ∧
  ∀ batch now id body, ho_up s = true → cu_failed (w_store w) = false → is_Some (cu_active (w_store w)) →
    ((inst_hash (bi_inst batch), bi_batch_id batch), (id, body)) ∈ w_accepted w →
    offer batch now w = (Some (Duplicate id), w).
Proof.
  intros Hc s w Hn. pose proof (run_disk inputs Hc Hn) as Hd. split; [apply (ok_once _ Hd)|].
  intros batch now id body Hup Hfail [a Ha] Hin.
  destruct fresh_ok as [Hf Hs]. destruct (run_ok fresh_host inputs Hc Hf Hs) as [_ Hst].
  destruct (Hst Hn) as [Hi _]. fold s in Hi. rewrite Hup in Hi. destruct Hi as [_ Hm].
  destruct (Hm a Ha) as (_ & [_ Hr] & _). destruct (ok_accepted _ Hd _ _ _ Hin) as (Hk & _ & r & Hre & Hid & _).
  assert (Hlook : ac_receipts a !! (inst_hash (bi_inst batch), bi_batch_id batch) = Some r) by (rewrite (Hr _ Hk); exact Hre).
  unfold offer, policy, active, getw, mbind, io_bind. cbn [fst snd]. rewrite Hfail, Ha. cbn [option_bind].
  rewrite Hlook. by rewrite <- Hid.
Qed.

(** C11. A period that is being uploaded is reserved by one pass alone, and its
    pages on the disk are exactly the bytes being sent, of the size and digest
    its manifest names, whatever the browsers, the owner and other passes do
    meanwhile and whatever calls fail. *)
Theorem uploads_in_flight_are_undisturbed inputs i s e body es :
  clocked inputs → let host := run fresh_host inputs in
  ho_passes host !! i = Some (Sending s e body es) →
  file_at (In OutboxRoot (oe_dir e)) PAGES_FILE (w_disk (ho_world host)) = Some body ∧
  body_matches e body = true ∧
  (∃ a, cu_active (w_store (ho_world host)) = Some a ∧ oe_dir e ∈ ac_reserved a) ∧
  ∀ j s' e' body' es', ho_passes host !! j = Some (Sending s' e' body' es') → oe_dir e' = oe_dir e → j = i.
Proof.
  intros Hc host Hi. destruct fresh_ok as [Hf Hs]. destruct (run_ok fresh_host inputs Hc Hf Hs) as [[Hp Ha] _].
  destruct (Hp _ (list_elem_of_lookup_2 _ _ _ Hi)) as [Hcl _ Hb]. destruct (Hcl _ eq_refl) as (_ & Hres & Hpg).
  split_and!; [by apply Hpg|by eapply Hb|done|]. intros j s' e' body' es' Hj He. by eapply (Ha j i).
Qed.
End host.
