(* ===== verification/BrowserSessions.v ===== *)
(** * The sessions of the browser host

    The table of connected browsers over any run of the host, and what a
    browser has been told: the record a session keeps of what it sent is what
    its browser holds. *)
From Stdlib Require Import Ascii String.
From stdpp Require Import sorting.
From S2P Require Import Prelude RustStr PauseStore Ingest Admission About Custody BrowserHub BrowserRun.

Local Open Scope list_scope.

(** ** Hub assertions *)

Definition htriple {A} (I : Hub → Prop) (m : HIO A) (Q : A → Hub → Prop) : Prop :=
  ∀ h w, I h → match (m h w).1 with Some r => Q r.1 r.2 | None => True end.

Lemma ht_ret {A} (a : A) (I : Hub → Prop) (Q : A → Hub → Prop) : (∀ h, I h → Q a h) → htriple I (hret a) Q.
Proof. intros HQ h w Hi. by apply HQ. Qed.
Lemma ht_bind {A B} (I : Hub → Prop) (R : A → Hub → Prop) (Q : B → Hub → Prop) m k :
  htriple I m R → (∀ a, htriple (R a) (k a) Q) → htriple I (hbind m k) Q.
Proof.
  intros Hm Hk h w Hi. specialize (Hm h w Hi). unfold hbind, mbind, io_bind.
  destruct (m h w) as [[[a h']|] w']; cbn in *; [|done]. by apply Hk.
Qed.
Lemma ht_lift {A} (m : IO A) I : htriple I (lift m) (λ _, I).
Proof. intros h w Hi. unfold lift, mbind, io_bind. by destruct (m w) as [[a|] w']. Qed.
Lemma ht_any {A} (m : HIO A) : htriple (λ _, True) m (λ _ _, True).
Proof. intros h w _. by destruct (m h w).1. Qed.
Lemma ht_get {A} (f : Hub → A) I : htriple I (hub_get f) (λ a h, I h ∧ a = f h).
Proof. by intros h w Hi. Qed.
Lemma ht_put f (I : Hub → Prop) Q : (∀ h, I h → Q tt (f h)) → htriple I (hub_put f) Q.
Proof. intros HQ h w Hi. by apply HQ. Qed.
Lemma ht_weaken {A} (I I' : Hub → Prop) (m : HIO A) (Q Q' : A → Hub → Prop) :
  (∀ h, I' h → I h) → (∀ a h, Q a h → Q' a h) → htriple I m Q → htriple I' m Q'.
Proof. intros HI HQ Hm h w Hi. specialize (Hm h w (HI h Hi)). destruct (m h w).1 as [[a h']|]; [by apply HQ|done]. Qed.

(** Assertions about the table and the broadcasts alone. *)
Class Tabular (I : Hub → Prop) : Prop := tabular : ∀ h h',
  hb_sessions h' = hb_sessions h → (∃ l, hb_sent h' = hb_sent h ++ l) → I h → I h'.
Lemma tab_same I `{!Tabular I} h h' : hb_sessions h' = hb_sessions h → hb_sent h' = hb_sent h → I h → I h'.
Proof. intros Hs Ht. apply tabular; [done|]. exists []. by rewrite app_nil_r. Qed.

Ltac tab_step :=
  match goal with
  | |- htriple _ (hret _) _ => by apply ht_ret
  | |- htriple _ (lift _) _ => apply ht_lift
  | |- htriple ?I (hub_get _) _ => eapply ht_weaken; [| |apply (ht_get _ I)]; [done|by intros ? ? [? _]]
  | |- htriple _ (hub_put _) _ => apply ht_put; intros ?; by apply tab_same
  | |- htriple ?I (hbind _ _) _ => apply (ht_bind I (λ _, I)); [|intros ?]
  | |- htriple _ (match ?x with _ => _ end) _ => destruct x
  end.
Ltac tab_walk := repeat tab_step.

Section tables.
Context `{CustodyLib} `{DirOrder} `{HashOrder}.
Context (I : Hub → Prop) `{!Tabular I}.

Lemma ht_point {A} (f : Hub → HIO A) Q : (∀ h0, htriple I (f h0) Q) → htriple I (λ h, f h h) Q.
Proof. intros Hf h w Hi. by apply Hf. Qed.

Lemma tab_publish p : htriple I (publish p) (λ _, I).
Proof. apply ht_put. intros h. apply tabular; [done|by eexists]. Qed.
Lemma tab_publish_state : htriple I publish_state (λ _, I).
Proof. apply (ht_point (λ h0, publish (PState (hb_about h0)))). intros h0. apply tab_publish. Qed.
Lemma tab_mint salt : htriple I (mint_generation salt) (λ _, I).
Proof. unfold mint_generation. tab_walk. Qed.
Lemma tab_generation g : htriple I (generation_for_pairing g) (λ _, I).
Proof. unfold generation_for_pairing. tab_walk. apply tab_mint. Qed.
Lemma tab_update_gates g : htriple I (update_gates g) (λ _, I).
Proof.
  unfold update_gates. apply (ht_point (λ h0, _)). intros h0.
  destruct (bool_decide (hb_gates h0 = g)); [by apply ht_ret|]. tab_walk; apply tab_mint || apply tab_publish.
Qed.
Lemma tab_update_about a : htriple I (update_about_snapshot a) (λ _, I).
Proof.
  unfold update_about_snapshot. apply (ht_point (λ h0, _)). intros h0. destruct (negb _); [by apply ht_ret|].
  cbv zeta. destruct (bool_decide _); [by apply ht_ret|]. tab_walk. apply tab_publish_state.
Qed.
Lemma tab_failure f : htriple I (set_delivery_failure f) (λ _, I).
Proof.
  unfold set_delivery_failure. apply (ht_point (λ h0, _)). intros h0. destruct (bool_decide _); [by apply ht_ret|].
  tab_walk. apply tab_publish_state.
Qed.
Lemma tab_compute now : htriple I (compute now) (λ _, I).
Proof.
  unfold compute. apply (ht_point (λ h0, _)). intros h0. tab_walk; try apply tab_generation.
Qed.
Lemma tab_state_message now a : htriple I (state_message now a) (λ _, I).
Proof. unfold state_message. tab_walk. apply tab_compute. Qed.
Lemma tab_offer batch inst now : htriple I (hub_offer batch inst now) (λ _, I).
Proof.
  unfold hub_offer. apply (ht_point (λ h0, _)). intros h0. cbv zeta.
  tab_walk; first [apply tab_publish | apply tab_publish_state | apply tab_generation].
Qed.

Lemma tab_session_turn x now e :
  htriple I (session_turn x now e) (λ r h, I h ∧ ∀ x', r.1 = Some x' → ss_id x' = ss_id x).
Proof.
  assert (Hst : ∀ about, htriple I (send_state x now about) (λ r h, I h ∧ ∀ x', r.1 = Some x' → ss_id x' = ss_id x)).
  { intros about. unfold send_state. eapply (ht_bind I (λ _, I)); [apply tab_state_message|]. intros m. apply ht_ret.
    intros h Hi. split; [done|]. by intros x' [= <-]. }
  unfold session_turn. apply (ht_point (λ h0, _)). intros h0. destruct e as [batch| |p| |]; [| | |apply Hst|apply Hst].
  - case_bool_decide; [|by apply ht_ret]. eapply (ht_bind I (λ _, I)); [apply tab_offer|]. intros m. apply ht_ret.
    intros h Hi. split; [done|]. by intros x' [= <-].
  - by apply ht_ret.
  - destruct p as [about| |reason target]; [apply Hst| |].
    + eapply (ht_bind I (λ _, I)); [apply tab_state_message|]. intros m.
      assert (Hsame : htriple I (hret (Some x, [] : list HostMessage)) (λ r h, I h ∧ ∀ x', r.1 = Some x' → ss_id x' = ss_id x)).
      { apply ht_ret. intros h Hi. split; [done|]. by intros x' [= <-]. }
      destruct (sm_generation m); [|done]. destruct (sm_period m); [|done]. destruct (_ && _); [|done].
      apply ht_ret. intros h Hi. split; [done|]. by intros x' [= <-].
    + destruct (match target with Some t => _ | None => _ end); apply ht_ret; intros h Hi; (split; [done|]); by intros x' [= <-].
Qed.

Lemma tab_note_failure b f : htriple I (note_failure b f) (λ _, I).
Proof. unfold note_failure. destruct b; [apply tab_failure|by apply ht_ret]. Qed.
Lemma tab_pass_turn journal still outcome p : htriple I (pass_turn journal still outcome p) (λ _, I).
Proof.
  destruct p as [s es|s e|s e body es|s]; cbn [pass_turn]; unfold pass_next, pass_unreadable, pass_outcome, hub_delivered;
    tab_walk; first [apply tab_note_failure | apply tab_publish_state].
Qed.
Lemma tab_drop_pass p : htriple I (drop_pass p) (λ _, I).
Proof. destruct p; cbn [drop_pass]; tab_walk. Qed.
Lemma tab_tick now : htriple I (hub_tick now) (λ _, I).
Proof. unfold hub_tick. tab_walk; [apply tab_publish|apply tab_publish_state]. Qed.
Lemma tab_quiesce now : htriple I (quiesce now) (λ _, I).
Proof. unfold quiesce. tab_walk. apply tab_publish. Qed.
Lemma tab_discard now : htriple I (hub_discard_waiting now) (λ _, I).
Proof. unfold hub_discard_waiting. tab_walk. apply tab_publish_state. Qed.
Lemma tab_status order now : htriple I (hub_status order now) (λ _, I).
Proof. unfold hub_status. tab_walk. apply tab_compute. Qed.
Lemma tab_start_pass : htriple I start_pass (λ _, I).
Proof. unfold start_pass. tab_walk. Qed.
Lemma tab_hello id inst now : htriple I (hello id inst now) (λ r h, I h ∧ ss_id r.1 = id).
Proof.
  unfold hello. apply (ht_point (λ h0, _)). intros h0. eapply (ht_bind I (λ _, I)); [apply tab_state_message|].
  intros m. by apply ht_ret.
Qed.
End tables.

(** ** Registering *)

Definition dropped (ids : list Z) (h : Hub) : Hub :=
  foldl (λ h id, published (PBye "replaced" (Some id)) (with_sessions (delete id (hb_sessions h)) (hb_next h) h)) h ids.

Lemma dropped_sessions ids h k : hb_sessions (dropped ids h) !! k = if decide (k ∈ ids) then None else hb_sessions h !! k.
Proof.
  revert h. induction ids as [|id ids IH]; intros h; cbn [dropped foldl]; [by rewrite decide_False by apply not_elem_of_nil|].
  unfold dropped in IH. rewrite IH. cbn. destruct (decide (k = id)) as [->|Hne].
  - rewrite lookup_delete_eq. rewrite (decide_True (P := id ∈ id :: ids)) by by left. by case_decide.
  - rewrite lookup_delete_ne by done. apply decide_ext. rewrite elem_of_cons. tauto.
Qed.
Lemma dropped_sent ids h : ∃ l, hb_sent (dropped ids h) = hb_sent h ++ l ∧ ∀ id, id ∈ ids → PBye "replaced" (Some id) ∈ l.
Proof.
  revert h. induction ids as [|id ids IH]; intros h; cbn [dropped foldl].
  { exists []. split; [by rewrite app_nil_r|by intros id ?%not_elem_of_nil]. }
  destruct (IH (published (PBye "replaced" (Some id)) (with_sessions (delete id (hb_sessions h)) (hb_next h) h))) as (l & Hl & Hin).
  exists (PBye "replaced" (Some id) :: l). unfold dropped in Hl. rewrite Hl. cbn. split; [by rewrite <- app_assoc|].
  intros id' [->|Hid']%elem_of_cons; [by left|right; by apply Hin].
Qed.
Lemma dropped_size ids h : NoDup ids → (∀ id, id ∈ ids → is_Some (hb_sessions h !! id)) →
  (size (hb_sessions (dropped ids h)) + length ids = size (hb_sessions h))%nat.
Proof.
  intros Hn. revert h. induction Hn as [|id ids Hid _ IH]; intros h Hin; cbn [dropped foldl length]; [lia|].
  destruct (Hin id) as [s Hs]; [by left|].
  set (h1 := published _ _). assert (IHh : (size (hb_sessions (dropped ids h1)) + length ids = size (hb_sessions h1))%nat).
  { apply IH. intros k Hk. cbn. rewrite lookup_delete_ne by (intros ->; done). apply Hin. by right. }
  change (foldl _ h1 ids) with (dropped ids h1).
  cbn in IHh |- *. rewrite map_size_delete_Some in IHh by (by rewrite Hs).
  assert (size (hb_sessions h) ≠ 0%nat). { rewrite map_size_non_empty_iff. intros He. by rewrite He, lookup_empty in Hs. }
  lia.
Qed.

(** ** The table over a run *)

(** At most [MAX_SESSIONS] browsers, each once. *)
Record table_ok (m : gmap Z SessionEntry) : Prop := {
  tb_bound : (Z.of_nat (size m) ≤ MAX_SESSIONS)%Z;
  tb_once : ∀ i j s t, m !! i = Some s → m !! j = Some t → se_brand s = se_brand t → se_inst s = se_inst t → i = j
}.
(** Every browser in the table has a session, and every session is in the
    table or has been told to go. *)
Record linked (live : gmap Z Session) (h : Hub) : Prop := {
  li_table : table_ok (hb_sessions h);
  li_live : ∀ id, is_Some (hb_sessions h !! id) → is_Some (live !! id);
  li_told : ∀ id, is_Some (live !! id) → is_Some (hb_sessions h !! id) ∨ PBye "replaced" (Some id) ∈ hb_sent h
}.
#[global] Instance linked_tabular live : Tabular (linked live).
Proof.
  intros h h' Hs [l Hl] [Ht Hv Ho]. split; rewrite Hs; [done|done|].
  intros id Hid. destruct (Ho id Hid) as [?|?]; [by left|right]. rewrite Hl. apply elem_of_app. by left.
Qed.
#[global] Instance forall_tabular {A} (I : A → Hub → Prop) : (∀ a, Tabular (I a)) → Tabular (λ h, ∀ a, I a h).
Proof. intros Hi h h' Hs Hl Ha a. by eapply tabular. Qed.

Section registering.
Context (order : gmap Z SessionEntry → list (Z * SessionEntry)) (order_spec : ∀ m, order m ≡ₚ map_to_list m).

Definition replaced_by (brand inst : string) (m : gmap Z SessionEntry) : list Z :=
  (filter (λ e, same_browser brand inst e.2) (order m)).*1.
Lemma replaced_spec brand inst m k : k ∈ replaced_by brand inst m ↔ ∃ s, m !! k = Some s ∧ same_browser brand inst s.
Proof.
  unfold replaced_by. rewrite list_elem_of_fmap. split.
  - intros ([k' s] & -> & [Hs Hin]%list_elem_of_filter). rewrite order_spec in Hin. apply elem_of_map_to_list in Hin. by exists s.
  - intros (s & Hm & Hs). exists (k, s). split; [done|]. apply list_elem_of_filter. split; [done|].
    rewrite order_spec. by apply elem_of_map_to_list.
Qed.
Lemma replaced_NoDup brand inst m : NoDup (replaced_by brand inst m).
Proof.
  unfold replaced_by. apply (sublist_NoDup _ (order m).*1).
  - rewrite order_spec. apply NoDup_fst_map_to_list.
  - apply fmap_sublist, sublist_filter.
Qed.

Lemma table_insert brand inst now m m' id :
  table_ok m → (Z.of_nat (size m') < MAX_SESSIONS)%Z →
  (∀ k s, m' !! k = Some s → m !! k = Some s ∧ ¬ same_browser brand inst s) →
  table_ok (<[id := mkSessionEntry brand inst now]> m').
Proof.
  intros [Hb Ho] Hsz Hm'. split.
  - pose proof (map_size_insert id (mkSessionEntry brand inst now) m') as Hs. destruct (m' !! id); cbn in Hs; rewrite Hs; lia.
  - intros i j s t [[<- <-]|[Hi Hs]]%lookup_insert_Some [[<- <-]|[Hj Ht]]%lookup_insert_Some Hbr Hin; [done| | |].
    + cbn in *. destruct (Hm' _ _ Ht) as [_ Hn]. by destruct Hn.
    + cbn in *. destruct (Hm' _ _ Hs) as [_ Hn]. by destruct Hn.
    + eapply Ho; [by apply Hm'|by apply Hm'|done|done].
Qed.

(** Room was made for the new session. *)
Lemma linked_register live h brand inst now :
  let ids := replaced_by brand inst (hb_sessions h) in
  linked live h → (Z.of_nat (size (hb_sessions h)) - Z.of_nat (length ids) < MAX_SESSIONS)%Z →
  ∀ id next x, linked (<[id := x]> live)
    (with_sessions (<[id := mkSessionEntry brand inst now]> (hb_sessions (dropped ids h))) next (dropped ids h)).
Proof.
  intros ids [Ht Hv Ho] Hsz id next x.
  assert (Hsize : (size (hb_sessions (dropped ids h)) + length ids = size (hb_sessions h))%nat).
  { apply dropped_size; [apply replaced_NoDup|]. intros k (s & Hs & _)%replaced_spec. by rewrite Hs. }
  destruct (dropped_sent ids h) as (l & Hl & Hin). split; cbn.
  - eapply (table_insert brand inst now (hb_sessions h)); [done|lia|]. intros k s. rewrite dropped_sessions.
    case_decide as Hk; [done|]. intros Hs. split; [done|]. intros Hsame. apply Hk, replaced_spec. by exists s.
  - intros k. destruct (decide (k = id)) as [->|Hne]; [intros _; rewrite lookup_insert_eq; by eauto|].
    rewrite !lookup_insert_ne by done. rewrite dropped_sessions. case_decide; [by intros []|apply Hv].
  - intros k. destruct (decide (k = id)) as [->|Hne]; [intros _; left; rewrite lookup_insert_eq; by eauto|].
    rewrite !lookup_insert_ne by done. intros Hk. rewrite dropped_sessions. case_decide as Hd.
    + right. rewrite Hl. apply elem_of_app. right. by apply Hin.
    + destruct (Ho k Hk) as [?|?]; [by left|right]. rewrite Hl. apply elem_of_app. by left.
Qed.

Lemma ht_register live brand inst now :
  htriple (linked live) (register order brand inst now)
    (λ r h, match r with None => linked live h | Some id => ∀ x, linked (<[id := x]> live) h end).
Proof.
  intros h w Hl. unfold register, hbind, hub_put, hub_get, hret, mbind, io_bind, mret, io_ret.
  change (filter _ (order (hb_sessions h))).*1 with (replaced_by brand inst (hb_sessions h)).
  destruct (Z.leb_spec MAX_SESSIONS (Z.of_nat (size (hb_sessions h)) - Z.of_nat (length (replaced_by brand inst (hb_sessions h))))) as [Hle|Hlt];
    cbn; [done|].
  intros x. by apply linked_register.
Qed.
Lemma linked_unregister live h id : linked live h → linked (delete id live) (with_sessions (delete id (hb_sessions h)) (hb_next h) h).
Proof.
  intros [[Hb Ho] Hv Ht]. split; cbn.
  - split.
    + destruct (hb_sessions h !! id) eqn:Hid; [|by rewrite delete_id].
      rewrite map_size_delete_Some by (by rewrite Hid). lia.
    + intros i j s t [_ Hs]%lookup_delete_Some [_ Ht']%lookup_delete_Some. by eapply Ho.
  - intros k. destruct (decide (k = id)) as [->|Hne]; [rewrite lookup_delete_eq; by intros []|]. rewrite !lookup_delete_ne by done. apply Hv.
  - intros k. destruct (decide (k = id)) as [->|Hne]; [rewrite lookup_delete_eq; by intros []|]. rewrite !lookup_delete_ne by done. apply Ht.
Qed.
End registering.

Section host_sessions.
Context `{CustodyLib} `{DirOrder} `{HashOrder}.
Context (order : gmap Z SessionEntry → list (Z * SessionEntry)) (order_spec : ∀ m, order m ≡ₚ map_to_list m).
Context (development : bool) (version : string) (about0 : NativeAboutSnapshot).
Local Notation step := (step order development version about0).
Local Notation perform := (perform development version about0).

Record tabled (s : Host) : Prop := {
  ta_ids : ∀ id x, ho_sessions s !! id = Some x → ss_id x = id;
  ta_linked : linked (ho_sessions s) (ho_hub s)
}.
Lemma tabled_stopped w : tabled (stopped development version about0 w).
Proof.
  split; cbn; [intros id x; by rewrite lookup_empty|]. split; cbn.
  - split; [rewrite map_size_empty; done|intros i j s t; by rewrite lookup_empty].
  - intros id. rewrite lookup_empty. by intros [].
  - intros id. rewrite lookup_empty. by intros [].
Qed.

Lemma tabled_perform {A} (m : HIO A) s k (Q : A → Hub → Prop) :
  tabled s → htriple (linked (ho_sessions s)) m Q →
  (∀ a h w, Q a h → tabled (k a (mkHost h w true (ho_sessions s) (ho_passes s)))) → tabled (perform m s k).
Proof.
  intros [_ Hl] Hm Hk. unfold BrowserRun.perform. specialize (Hm (ho_hub s) (ho_world s) Hl).
  destruct (m (ho_hub s) (ho_world s)) as [[[a h]|] w]; [by apply Hk|apply tabled_stopped].
Qed.
(** Operations that leave the sessions alone. *)
Lemma tabled_plain {A} (m : HIO A) s k :
  tabled s → htriple (linked (ho_sessions s)) m (λ _, linked (ho_sessions s)) →
  (∀ a s, ho_hub (k a s) = ho_hub s ∧ ho_sessions (k a s) = ho_sessions s) → tabled (perform m s k).
Proof.
  intros Ht Hm Hk. eapply tabled_perform; [done|exact Hm|]. intros a h w Hl.
  destruct (Hk a (mkHost h w true (ho_sessions s) (ho_passes s))) as [Hh Hs]. destruct Ht as [Hi _].
  split; rewrite ?Hh, Hs; done.
Qed.

Lemma ht_connect live brand inst now :
  htriple (linked live) (connect order brand inst now)
    (λ r h, match r with Some (x, _) => linked (<[ss_id x := x]> live) h | None => linked live h end).
Proof.
  unfold connect. intros h w Hl. destruct (hb_quiescing h); [done|]. revert h w Hl.
  change (htriple (linked live) (hbind (register order brand inst now) (λ id, match id with
    | None => hret None | Some id => hbind (hello id inst now) (λ r, hret (Some r)) end))
    (λ r h, match r with Some (x, _) => linked (<[ss_id x := x]> live) h | None => linked live h end)).
  eapply ht_bind; [by apply ht_register|]. intros [id|]; [|by apply ht_ret].
  pose proof (forall_tabular (λ x : Session, linked (<[id := x]> live)) _) as Htab.
  eapply ht_bind; [apply (tab_hello (λ h, ∀ x, linked (<[id := x]> live) h))|]. intros [x ms]. apply ht_ret.
  intros h [Hx He]. cbn in He. rewrite He. apply Hx.
Qed.
Lemma ht_turn live x now e :
  live !! ss_id x = Some x →
  htriple (linked live) (turn x now e)
    (λ r h, match r with Some x' => ss_id x' = ss_id x ∧ linked live h | None => linked (delete (ss_id x) live) h end).
Proof.
  intros Hx. unfold turn. eapply ht_bind; [apply (tab_session_turn (linked live))|].
  intros [[x'|] ms]; cbn [fst].
  - apply ht_ret. intros h [Hl Hi]. split; [by apply Hi|done].
  - eapply ht_bind with (R := λ _, linked (delete (ss_id x) live)); [|intros _; by apply ht_ret].
    apply ht_put. intros h [Hl _]. by apply linked_unregister.
Qed.

Lemma tabled_step s i : tabled s → tabled (step s i).
Proof.
  intros Hs. unfold BrowserRun.step. set (s0 := mkHost _ _ _ _ _).
  assert (Hs0 : tabled s0) by (destruct Hs; by split).
  destruct (ho_up s0 || is_restart (in_act i)); [|done]. pose proof Hs0 as [Hids Hl].
  destruct (in_act i) as [brand inst now|id now e|g|a|now|now| |now|now| |k j b o|k|pol now]; unfold BrowserRun.act.
  - eapply tabled_perform; [done|by apply ht_connect|]. intros [[x ms]|] h w Hx; cbn; [|by split].
    split; cbn; [|done]. intros id y [[<- <-]|[_ Hy]]%lookup_insert_Some; [done|by apply Hids].
  - destruct (ho_sessions s0 !! id) as [x|] eqn:Hx; [|done]. pose proof (Hids id x Hx) as Hid.
    eapply tabled_perform; [done|apply ht_turn; by rewrite Hid|]. intros [x'|] h w Hx'; cbn.
    + destruct Hx' as [He Hl']. split; cbn; [intros id' y [[<- <-]|[_ Hy]]%lookup_insert_Some; [congruence|by apply Hids]|].
      destruct Hl' as [Ht Hv Ho]. split; [done| |].
      * intros id' [y Hy]%Hv. destruct (decide (id' = id)) as [->|Hne]; [rewrite lookup_insert_eq; by eauto|]. rewrite lookup_insert_ne by done. by exists y.
      * intros id'. destruct (decide (id' = id)) as [->|Hne]; [intros _; apply Ho; by exists x|]. rewrite lookup_insert_ne by done. apply Ho.
    + rewrite Hid in Hx'. split; cbn; [|done]. intros id' y [_ Hy]%lookup_delete_Some. by apply Hids.
  - apply tabled_plain; [done|apply tab_update_gates, _|done].
  - apply tabled_plain; [done|apply tab_update_about, _|done].
  - apply tabled_plain; [done|apply tab_tick, _|done].
  - apply tabled_plain; [done|apply tab_quiesce, _|done].
  - apply tabled_plain; [done| |done]. apply ht_put. intros h. by apply tab_same; [apply _|..].
  - apply tabled_plain; [done|apply tab_status, _|done].
  - apply tabled_plain; [done|apply tab_discard, _|done].
  - apply tabled_plain; [done|apply tab_start_pass|done].
  - unfold on_pass. destruct (ho_passes s0 !! k); [|done]. apply tabled_plain; [done|apply tab_pass_turn, _|done].
  - unfold on_pass. destruct (ho_passes s0 !! k); [|done]. apply tabled_plain; [done|apply tab_drop_pass|done].
  - unfold BrowserRun.perform. destruct (lift _ _ _) as [[[a h]|] w] eqn:He; [|apply tabled_stopped].
    assert (h = new_hub development version about0) as ->.
    { unfold lift, mbind, io_bind in He. destruct (open_store _ _ _) as [[]]; [|done]. by injection He. }
    destruct (tabled_stopped w) as [Hi Hk]. by split.
Qed.

(** Over any run there are never more than sixteen browsers in the table,
    and each browser instance is in it once; every browser in the table has a
    running session, and a session that runs on outside the table has been told
    that it was replaced. *)
Theorem sessions_are_bounded_and_told inputs :
  let s := run order development version about0 (fresh_host development version about0) inputs in
  (Z.of_nat (size (hb_sessions (ho_hub s))) ≤ 16)%Z ∧
  (∀ i j a b, hb_sessions (ho_hub s) !! i = Some a → hb_sessions (ho_hub s) !! j = Some b →
    se_brand a = se_brand b → se_inst a = se_inst b → i = j) ∧
  ∀ id, (is_Some (hb_sessions (ho_hub s) !! id) → is_Some (ho_sessions s !! id)) ∧
        (is_Some (ho_sessions s !! id) →
         is_Some (hb_sessions (ho_hub s) !! id) ∨ PBye "replaced" (Some id) ∈ hb_sent (ho_hub s)).
Proof.
  intros s. assert (Ht : tabled s).
  { unfold s, run, fresh_host. assert (Hfold : ∀ l s0, tabled s0 → tabled (foldl step s0 l)).
    { induction l as [|i l IH]; intros s0 Hs0; [done|]. by apply IH, tabled_step. }
    apply Hfold, tabled_stopped. }
  destruct Ht as [_ [[Hb Ho] Hv Ht]]. split_and!; [done|done|]. intros id. by split; [apply Hv|apply Ht].
Qed.
End host_sessions.

(** ** What a browser has been told *)

Section talk.
Context `{CustodyLib} `{DirOrder} `{HashOrder}.

(** The destination generation and period a browser holds. *)
Notation View := (option string * option string)%type.
Definition hears (v : View) (m : HostMessage) : View :=
  match m with
  | MHelloAck m | MState m => (sm_generation m, sm_period m)
  | MBoundary g p => if bool_decide (v.1 = Some g) then (v.1, Some p) else v
  | MAccepted _ _ _ _ | MBye _ => v
  end.
Definition held_view (s : Session) : View := (ss_generation s, ss_period s).

(** A boundary is announced only to a browser that holds its generation and
    another period. *)
Definition fair (v : View) (m : HostMessage) : Prop :=
  match m with MBoundary g p => v.1 = Some g ∧ v.2 ≠ Some p | _ => True end.
Fixpoint all_fair (v : View) (ms : list HostMessage) : Prop :=
  match ms with [] => True | m :: ms => fair v m ∧ all_fair (hears v m) ms end.
Lemma all_fair_app v l k : all_fair v (l ++ k) ↔ all_fair v l ∧ all_fair (foldl hears v l) k.
Proof. revert v. induction l as [|m l IH]; intros v; cbn; [tauto|]. rewrite IH. tauto. Qed.

(** Between two turns the hub, the store and the clock are whatever the rest of
    the host made of them. *)
Record Turn : Type := mkTurn { tn_hub : Hub; tn_world : World; tn_now : Z; tn_event : SessionEvent }.
Fixpoint talk (s : Session) (turns : list Turn) : option Session * list HostMessage :=
  match turns with
  | [] => (Some s, [])
  | t :: turns =>
    match (session_turn s (tn_now t) (tn_event t) (tn_hub t) (tn_world t)).1 with
    | None => (None, [])
    | Some ((None, ms), _) => (None, ms)
    | Some ((Some s, ms), _) => let '(r, rest) := talk s turns in (r, ms ++ rest)
    end
  end.

Definition agrees (s : Session) (r : option Session * list HostMessage) : Prop :=
  all_fair (held_view s) r.2 ∧ ∀ s', r.1 = Some s' → foldl hears (held_view s) r.2 = held_view s'.

Lemma send_state_agrees s now about : htriple (λ _, True) (send_state s now about) (λ r _, agrees s r).
Proof.
  unfold send_state. eapply (ht_bind _ (λ _ _, True)); [apply ht_any|].
  intros m. apply ht_ret. intros _ _. split; [done|]. by intros s' [= <-].
Qed.
Lemma session_turn_agrees s now e : htriple (λ _, True) (session_turn s now e) (λ r _, agrees s r).
Proof.
  assert (Hsame : htriple (λ _, True) (hret (Some s, [])) (λ r _, agrees s r)).
  { apply ht_ret. intros _ _. split; [done|]. by intros s' [= <-]. }
  unfold session_turn. intros h w Hw. destruct e as [batch| |p| |]; [| | |by apply send_state_agrees|by apply send_state_agrees].
  - case_bool_decide; [|done].
    assert (Hm : htriple (λ _, True) (hbind (hub_offer batch (ss_inst s) now) (λ reply, hret (Some s, [reply]))) (λ r _, agrees s r));
      [|by apply Hm].
    clear h w Hw. apply (ht_bind _ (λ r _, ∃ a g i b, r = MAccepted a g i b)).
    + unfold hub_offer. apply (ht_point _ (λ h0, _)). intros h0. cbv zeta. eapply ht_bind; [apply ht_any|]. intros x.
      eapply ht_bind; [apply ht_any|]. intros g. apply ht_ret. intros h _. by eexists _, _, _, _.
    + intros m. apply ht_ret. intros h (a & g & i & b & ->). split; [done|]. by intros s' [= <-].
  - done.
  - destruct p as [about| |reason target]; [by apply send_state_agrees| |].
    + revert Hw. generalize (hb_about h) as about. intros about _. revert h w.
      assert (Hm : htriple (λ _, True) (hbind (state_message now about) (λ m, match sm_generation m, sm_period m with
        | Some g, Some p => if bool_decide (sm_generation m = ss_generation s) && negb (bool_decide (sm_period m = ss_period s))
            then hret (Some (mkSession (ss_id s) (ss_inst s) (ss_generation s) (sm_period m)), [MBoundary g p]) else hret (Some s, [])
        | _, _ => hret (Some s, []) end)) (λ r _, agrees s r)); [|intros h w; by apply Hm].
      eapply (ht_bind _ (λ _ _, True)); [apply ht_any|]. intros m.
      destruct (sm_generation m) as [g|]; [|done]. destruct (sm_period m) as [p|]; [|done].
      case_bool_decide as Hg; [|done]. case_bool_decide as Hp; [done|]. cbn [andb negb]. apply ht_ret. intros _ _.
      split; [cbn; split; [|done]; by split; [|congruence]|]. intros s' [= <-]. cbn. by rewrite bool_decide_true.
    + destruct (match target with Some t => _ | None => _ end); [done|]. by apply Hsame.
Qed.

(** What a session records as sent is what its browser holds: after the
    acknowledgement and any turns, with the hub and the store changing in any
    way between them, the generation and period the messages leave the browser
    with are the session's, and no boundary is announced to a browser that
    holds another generation or that period already. *)
Theorem browser_holds_what_was_sent id inst now h w s ack h' turns r msgs :
  (hello id inst now h w).1 = Some ((s, ack), h') → talk s turns = (r, msgs) →
  all_fair (None, None) (ack ++ msgs) ∧
  ∀ s', r = Some s' → foldl hears (None, None) (ack ++ msgs) = held_view s'.
Proof.
  intros Hh Ht.
  assert (Hack : all_fair (None, None) ack ∧ foldl hears (None, None) ack = held_view s).
  { unfold hello, hbind at 1, mbind, io_bind in Hh. destruct (state_message _ _ _ _) as [[[m h1]|] w1]; [|done].
    cbn in Hh. by injection Hh as <- <- <-. }
  destruct Hack as [Hf Hv]. rewrite all_fair_app, foldl_app, Hv.
  assert (Hall : agrees s (r, msgs)); [|destruct Hall as [Hf' Hv']; by split].
  clear Hh Hf Hv h w h' ack. revert s r msgs Ht. induction turns as [|t turns IH]; intros s r msgs; cbn [talk].
  { intros [= <- <-]. split; [done|]. by intros s' [= <-]. }
  pose proof (session_turn_agrees s (tn_now t) (tn_event t) (tn_hub t) (tn_world t) I) as Ha.
  destruct (session_turn _ _ _ _ _).1 as [[[[s1|] ms] h1]|]; cbn [fst] in Ha.
  - destruct (talk s1 turns) as [r1 rest] eqn:Hr. intros [= <- <-]. destruct (IH _ _ _ Hr) as [Hf2 Hv2].
    destruct Ha as [Hf1 Hv1]. specialize (Hv1 s1 eq_refl). split.
    + cbn [snd]. rewrite all_fair_app. cbn [snd] in Hv1. rewrite Hv1. by split.
    + intros s' Hs'. cbn [fst snd] in *. rewrite foldl_app, Hv1. by apply Hv2.
  - intros [= <- <-]. exact Ha.
  - intros [= <- <-]. split; [done|]. by intros s'.
Qed.
End talk.
