(* ===== verification/BrowserDemo.v ===== *)
(** * Concrete runs of the browser host

    One instance of the parameters, small enough to compute with: a textual
    encoding that writes a value only when it reads back, a stand-in digest,
    and listings in map order. The runs here are the witnesses of the theorems
    of [BrowserProps], and the run in which accepted text is lost. *)
From Stdlib Require Import Ascii String.
From stdpp Require Import sorting.
From S2P Require Import Prelude RustStr PauseStore Ingest Admission About Custody CustodyLogic CustodySteps CustodyOps CustodyMoves CustodyEnds CustodyLoad BrowserHub BrowserRun BrowserFlight BrowserKeeps BrowserProps BrowserSessions.

Local Open Scope list_scope.

#[local] Instance OpenPeriodFile_eq_dec : EqDecision OpenPeriodFile.
Proof. solve_decision. Defined.
#[local] Instance OutboxPeriodFile_eq_dec : EqDecision OutboxPeriodFile.
Proof. solve_decision. Defined.
#[local] Instance ReceiptFile_eq_dec : EqDecision ReceiptFile.
Proof. solve_decision. Defined.

(** ** The instance *)

(** Writes only what reads back. *)
Definition checked {A} `{EqDecision A} (write : A → string) (read : string → option A) (v : A) : option string :=
  if bool_decide (read (write v) = Some v) then Some (write v) else None.
Lemma checked_back {A} `{EqDecision A} (write : A → string) read v s : checked write read v = Some s → read s = Some v.
Proof. unfold checked. case_bool_decide; [|done]. by intros [= <-]. Qed.

Definition field (s : string) : option (string * string) := split_once "|" s.
Definition state_name (st : ReceiptState) : string := match st with RPending => "p" | RDiscarded => "x" | RDelivered => "d" end.
Definition read_state (s : string) : option ReceiptState :=
  if String.eqb s "p" then Some RPending else if String.eqb s "x" then Some RDiscarded
  else if String.eqb s "d" then Some RDelivered else None.
Definition write_receipt_file (r : ReceiptFile) : string :=
  rf_period_id r +:+ "|" +:+ fmt_dec (rf_at_ms r) +:+ "|" +:+ state_name (rf_state r).
Definition read_receipt_file (s : string) : option ReceiptFile :=
  '(id, s) ← field s; '(at_ms, s) ← field s; n ← parse_u64 at_ms; st ← read_state s; Some (mkReceiptFile id n st).
Definition write_open_file (o : OpenPeriodFile) : string :=
  opf_period_id o +:+ "|" +:+ fmt_dec (opf_start_ms o) +:+ "|" +:+ fmt_dec (opf_end_ms o).
Definition read_open_file (s : string) : option OpenPeriodFile :=
  '(id, s) ← field s; '(a, b) ← field s; a ← parse_u64 a; b ← parse_u64 b; Some (mkOpenPeriodFile id a b).
Definition write_outbox_file (o : OutboxPeriodFile) : string :=
  obf_period_id o +:+ "|" +:+ obf_day o +:+ "|" +:+ obf_segment o +:+ "|" +:+ fmt_dec (obf_start_ms o) +:+ "|" +:+
  fmt_dec (obf_len_secs o) +:+ "|" +:+ fmt_dec (obf_size o) +:+ "|" +:+ obf_sha256 o.
Definition read_outbox_file (s : string) : option OutboxPeriodFile :=
  '(id, s) ← field s; '(day, s) ← field s; '(seg, s) ← field s; '(a, s) ← field s; '(b, s) ← field s; '(c, sha) ← field s;
  a ← parse_u64 a; b ← parse_u64 b; c ← parse_u64 c; Some (mkOutboxPeriodFile id day seg a b c sha).

#[local] Instance demo_lib : CustodyLib := {|
  canonical_stringify v := match v with JString s => Some s | _ => None end;
  sha256_digest s := s;
  open_period_json := checked write_open_file read_open_file;
  open_period_of := read_open_file;
  outbox_period_json := checked write_outbox_file read_outbox_file;
  outbox_period_of := read_outbox_file;
  receipt_json := checked write_receipt_file read_receipt_file;
  receipt_of := read_receipt_file;
  terminal_json := checked state_name read_state;
  terminal_of := read_state;
  namer start len := ("20260101", fmt_dec start +:+ "_" +:+ fmt_dec len)
|}.
#[local] Instance demo_laws : CustodyLaws.
Proof. split; intros v s; apply checked_back. Qed.
#[local] Instance demo_dirs : DirOrder := {| dir_list := λ A m, map_to_list m; dir_list_spec := λ A m, Permutation_refl _ |}.
#[local] Instance demo_hash : HashOrder := {| hash_list := map_to_list; hash_list_spec := λ m, Permutation_refl _ |}.
Definition demo_order (m : gmap Z SessionEntry) : list (Z * SessionEntry) := map_to_list m.

(** ** Inputs *)

Definition demo_about : NativeAboutSnapshot := unknown "windows" "" "".
Definition demo_batch (id text : string) : JsonValue :=
  JObject [("batch_id", JString id); ("inst", JString "i1"); ("queued_at_ms", JNumber (Some 1000%Z)); ("records", JArray [JString text])].
Definition quietly (tokens : list string) (a : Act) : Input := mkInput [] tokens a.
Local Notation demo_run inputs := (run demo_order false "1" demo_about (fresh_host false "1" demo_about) inputs).

Definition started : list Input :=
  [quietly ["aaaaaaaa"] (ActRestart default_policy 1000); quietly ["g"] (ActGates (mkGates (Paired (Some "j")) false false));
   quietly [] (ActConnect "chrome" "i1" 1000); quietly [] (ActTurn 1 2000 (EvBatch (demo_batch "b1" "one")))].

Example accepted_once : (w_accepted (ho_world (demo_run started))).*2 = [("0-aaaaaaaa", "one" +:+ String "010" EmptyString)].
Proof. vm_compute. reflexivity. Qed.

(** Text accepted, the process stopped while the period was being finished, and
    started again. *)
Definition interrupted : list Input :=
  started ++ [mkInput (replicate 14 Good ++ [HaltTorn ["x"]]) ["bbbbbbbb"] (ActTick 400000);
              quietly ["cccccccc"] (ActRestart default_policy 500000)].
(** The period finished, and two passes after it at once. *)
Definition uploading : list Input :=
  started ++ [quietly ["bbbbbbbb"] (ActQuiesce 3000); quietly [] ActStartPass; quietly [] ActStartPass;
              quietly [] (ActPass 0 true true UploadHeld); quietly [] (ActPass 1 true true UploadHeld); quietly [] (ActDiscard 4000)].
(** A discard whose removal empties the directory and then fails, a second
    batch, and a restart. *)
Definition losing : list Input :=
  started ++ [mkInput (replicate 7 Good ++ [BadTorn []]) [] (ActDiscard 3000);
              quietly [] (ActTurn 1 4000 (EvBatch (demo_batch "b2" "two"))); quietly ["cccccccc"] (ActRestart default_policy 5000)].

(** ** Witnesses *)

Definition one : string := "one" +:+ String "010" EmptyString.
Definition two : string := "two" +:+ String "010" EmptyString.

Lemma accepted_text_is_kept_witness :
  clocked interrupted ∧ ∃ r, receipt_at (w_disk (ho_world (demo_run interrupted))) ("6931", "b1") = Some r ∧
    rf_period_id r = "0-aaaaaaaa" ∧
    match rf_state r with
    | RPending => "0-aaaaaaaa" ∈ w_half (ho_world (demo_run interrupted)) ∨
        kept (w_disk (ho_world (demo_run interrupted))) ("6931", "b1") "0-aaaaaaaa" one
    | _ => "0-aaaaaaaa" ∈ w_disposed (ho_world (demo_run interrupted))
    end.
Proof.
  assert (Hc : clocked interrupted) by (repeat constructor; cbn; lia). split; [done|].
  apply (accepted_text_is_kept demo_order false "1" demo_about interrupted ("6931", "b1") "0-aaaaaaaa" one Hc).
  - apply (bool_decide_unpack _). vm_compute. exact I.
  - apply (list_elem_of_lookup_2 _ 0). vm_compute. reflexivity.
Defined.

Lemma no_batch_is_accepted_twice_witness :
  clocked interrupted ∧
  offer (mkBatchInput "" "i1" "b1" 1000 [JString "one"]) 600000 (ho_world (demo_run interrupted)) =
    (Some (Duplicate "0-aaaaaaaa"), ho_world (demo_run interrupted)).
Proof.
  assert (Hc : clocked interrupted) by (repeat constructor; cbn; lia). split; [done|].
  destruct (no_batch_is_accepted_twice demo_order false "1" demo_about interrupted Hc) as [_ Hdup].
  - apply (bool_decide_unpack _). vm_compute. exact I.
  - apply (Hdup _ _ _ one).
    + vm_compute. reflexivity.
    + vm_compute. reflexivity.
    + apply (bool_decide_unpack _). vm_compute. exact I.
    + apply (list_elem_of_lookup_2 _ 0). vm_compute. reflexivity.
Defined.

(** The first pass sends; the second found the period reserved, and the owner's
    discard passed over it. *)
Definition sent_entry : OutboxEntry :=
  mkOutboxEntry "000000000000000-0-aaaaaaaa" "0-aaaaaaaa" "20260101" "0_3" 0 3 4 "6f6e650a".
Lemma uploads_in_flight_are_undisturbed_witness :
  clocked uploading ∧
  ho_passes (demo_run uploading) !! 0%nat = Some (Sending (mkSummary 0 1) sent_entry one []) ∧
  file_at (In OutboxRoot (oe_dir sent_entry)) PAGES_FILE (w_disk (ho_world (demo_run uploading))) = Some one.
Proof.
  assert (Hc : clocked uploading) by (repeat constructor; cbn; lia).
  assert (Hp : ho_passes (demo_run uploading) !! 0%nat = Some (Sending (mkSummary 0 1) sent_entry one [])) by (vm_compute; reflexivity).
  split_and!; [done|done|].
  apply (uploads_in_flight_are_undisturbed demo_order false "1" demo_about uploading 0 (mkSummary 0 1) sent_entry one [] Hc Hp).
Defined.

(** The same browser connects again: the first session is told. *)
Definition reconnected : list Input := started ++ [quietly [] (ActConnect "chrome" "i1" 2500)].
Lemma sessions_are_bounded_and_told_witness :
  is_Some (ho_sessions (demo_run reconnected) !! 1%Z) ∧ hb_sessions (ho_hub (demo_run reconnected)) !! 1%Z = None ∧
  (is_Some (hb_sessions (ho_hub (demo_run reconnected)) !! 1%Z) ∨ PBye "replaced" (Some 1%Z) ∈ hb_sent (ho_hub (demo_run reconnected))).
Proof.
  assert (Hlive : is_Some (ho_sessions (demo_run reconnected) !! 1%Z)) by (apply (bool_decide_unpack _); vm_compute; exact I).
  split_and!; [done|vm_compute; reflexivity|].
  destruct (sessions_are_bounded_and_told demo_order (λ m, Permutation_refl _) false "1" demo_about reconnected) as (_ & _ & Hid).
  by apply (proj2 (Hid 1%Z)).
Defined.

(** A browser acknowledged, answered, and told of the next period. *)
Definition demo_turns : list Turn :=
  [mkTurn (ho_hub (demo_run started)) (ho_world (demo_run started)) 2000 (EvBatch (demo_batch "b9" "nine"));
   mkTurn (ho_hub (demo_run (started ++ [quietly ["bbbbbbbb"] (ActTick 400000)])))
     (ho_world (demo_run (started ++ [quietly ["bbbbbbbb"] (ActTick 400000)]))) 400000 (EvPublication PBoundary)].
Lemma browser_holds_what_was_sent_witness :
  ∃ s ack h' r msgs,
    (hello 7 "i1" 2000 (ho_hub (demo_run started)) (ho_world (demo_run started))).1 = Some ((s, ack), h') ∧
    talk s demo_turns = (r, msgs) ∧ all_fair (None, None) (ack ++ msgs).
Proof.
  destruct (hello 7 "i1" 2000 (ho_hub (demo_run started)) (ho_world (demo_run started))).1 as [[[s ack] h']|] eqn:He;
    [|exfalso; vm_compute in He; discriminate He].
  destruct (talk s demo_turns) as [r msgs] eqn:Ht. exists s, ack, h', r, msgs. split_and!; [done|done|].
  apply (browser_holds_what_was_sent _ _ _ _ _ _ _ _ _ _ _ He Ht).
Defined.
Example boundary_is_told :
  (match (hello 7 "i1" 2000 (ho_hub (demo_run started)) (ho_world (demo_run started))).1 with
   | Some ((s, _), _) => last (talk s demo_turns).2
   | None => None
   end) = Some (MBoundary "g" "300-bbbbbbbb").
Proof. vm_compute. reflexivity. Qed.

(** ** Accepted text that is lost *)

(** C12. A discard of the open period whose removal empties the directory and then
    fails leaves [has_dir] set: the next batch is accepted into a directory
    without its manifest, and the next start removes it. Its receipt stays
    pending, so the browser is told it is a duplicate. *)
Theorem failed_discard_loses_later_text :
  clocked losing ∧ let w := ho_world (demo_run losing) in
  NoDup (w_minted w) ∧ (("6931", "b2"), ("0-aaaaaaaa", two)) ∈ w_accepted w ∧
  receipt_at (w_disk w) ("6931", "b2") = Some (mkReceiptFile "0-aaaaaaaa" 4000 RPending) ∧
  ¬ kept (w_disk w) ("6931", "b2") "0-aaaaaaaa" two ∧
  (offer (mkBatchInput "" "i1" "b2" 1000 [JString "two"]) 6000 w).1 = Some (Duplicate "0-aaaaaaaa").
Proof.
  assert (Hopen : d_open (w_disk (ho_world (demo_run losing))) = Some ∅) by (vm_compute; reflexivity).
  assert (Hbox : d_outbox (w_disk (ho_world (demo_run losing))) = Some ∅) by (vm_compute; reflexivity).
  assert (Hnone : ∀ r dir name, file_at (In r dir) name (w_disk (ho_world (demo_run losing))) = None).
  { intros [] dir name; unfold file_at, files_at, root_at; [rewrite Hopen|rewrite Hbox]; cbn; by rewrite lookup_empty. }
  cbv zeta. split_and!.
  - repeat constructor; cbn; lia.
  - apply (bool_decide_unpack _). vm_compute. exact I.
  - apply (list_elem_of_lookup_2 _ 0). vm_compute. reflexivity.
  - vm_compute. reflexivity.
  - intros [?|[[[x Hx] _]|(start & pages & json & meta & _ & Hp & _)]]; [done|by rewrite Hnone in Hx|by rewrite Hnone in Hp].
  - vm_compute. reflexivity.
Qed.
