(* ===== verification/OwnerFs.v ===== *)
(** * The owner's directory: files that can fail, and a crash logic

    The pairing of this computer with a journal lives in a few small files of
    one directory. Every call on them takes its verdict from the world: it is
    carried out, fails with nothing done, fails although it was done, fails
    half way, or is the last the process makes (before, after or half way
    through its effect). A staged file is published by a rename that replaces
    its target, so a target holds its old bytes or the new ones.

    [oht P m Q C]: from files and log that satisfy [P], [m] returns [a] where
    [Q a] holds or the process stops where [C] holds, whatever the verdicts. *)
From Stdlib Require Import Ascii String.
From S2P Require Import Prelude RustStr PauseStore Model Ingest Transport.

Local Open Scope list_scope.

Inductive Verdict : Type :=
  | Good | Bad | BadDone | BadTorn (bytes : string) | Halt | HaltDone | HaltTorn (bytes : string).

(** What the system says to a request to wrap or unwrap a secret. *)
Inductive Guard : Type := Grants | Refuses | Breaks.

(** What was asked of the journal; the code never reads the log. *)
Inductive Asked : Type :=
  | AskedRetire (cert client_id : string)
  | AskedDecision (bytes : string).

Record Owned : Type := mkOwned { o_files : gmap string string; o_log : list Asked }.
Record OWorld : Type := mkOWorld { ow_own : Owned; ow_verdicts : list Verdict; ow_guards : list Guard }.

Definition set_files (f : gmap string string) (o : Owned) : Owned := mkOwned f (o_log o).
Definition set_own (o : Owned) (w : OWorld) : OWorld := mkOWorld o (ow_verdicts w) (ow_guards w).

Definition OIO (A : Type) : Type := OWorld → option A * OWorld.
#[global] Instance oio_ret : MRet OIO := λ A a w, (Some a, w).
#[global] Instance oio_bind : MBind OIO := λ A B k m w,
  match m w with (Some a, w) => k a w | (None, w) => (None, w) end.

(** The [?] operator, and [map_err]. *)
Definition tryo {A B E} (m : OIO (result A E)) (k : A → OIO (result B E)) : OIO (result B E) :=
  r ← m; match r with Ok a => k a | Err e => mret (Err e) end.
Notation "x ←! m ; k" := (tryo m (λ x, k)) (at level 20, m at level 100, k at level 200, only parsing).
Definition map_err {A E F} (f : E → F) (m : OIO (result A E)) : OIO (result A F) :=
  r ← m; mret (match r with Ok a => Ok a | Err e => Err (f e) end).
Definition oko {A E} (a : A) : OIO (result A E) := mret (Ok a).
Definition erro {A E} (e : E) : OIO (result A E) := mret (Err e).

Definition next_verdict : OIO Verdict := λ w,
  (Some (default Good (head (ow_verdicts w))), mkOWorld (ow_own w) (tail (ow_verdicts w)) (ow_guards w)).
Definition next_guard : OIO Guard := λ w,
  (Some (default Grants (head (ow_guards w))), mkOWorld (ow_own w) (ow_verdicts w) (tail (ow_guards w))).
Definition asked (a : Asked) : OIO unit := λ w, (Some tt, set_own (mkOwned (o_files (ow_own w)) (o_log (ow_own w) ++ [a])) w).

Notation Files := (gmap string string).

Definition ocall {A} (whole : Files → result A io_error * Files) (torn : string → Files → Files) : OIO (result A io_error) :=
  v ← next_verdict;
  match v return OIO (result A io_error) with
  | Good => λ w, let '(r, f) := whole (o_files (ow_own w)) in (Some r, set_own (set_files f (ow_own w)) w)
  | Bad => mret (Err OtherError)
  | BadDone => λ w, (Some (Err OtherError), set_own (set_files (whole (o_files (ow_own w))).2 (ow_own w)) w)
  | BadTorn s => λ w, (Some (Err OtherError), set_own (set_files (torn s (o_files (ow_own w))) (ow_own w)) w)
  | Halt => λ w, (None, w)
  | HaltDone => λ w, (None, set_own (set_files (whole (o_files (ow_own w))).2 (ow_own w)) w)
  | HaltTorn s => λ w, (None, set_own (set_files (torn s (o_files (ow_own w))) (ow_own w)) w)
  end.

Definition found_file (o : option string) : result string io_error := match o with Some a => Ok a | None => Err NotFound end.

Definition oread (name : string) : OIO (result string io_error) :=
  ocall (λ f, (found_file (f !! name), f)) (λ _ f, f).
(** [Path::exists]: a failed call counts as no. *)
Definition oexists (name : string) : OIO bool :=
  r ← ocall (λ f, (Ok (bool_decide (is_Some (f !! name))), f)) (λ _ f, f);
  mret (match r with Ok b => b | Err _ => false end).
Definition ocreate (name : string) : OIO (result unit io_error) :=
  ocall (λ f, (Ok tt, <[name := EmptyString]> f)) (λ _ f, <[name := EmptyString]> f).
Definition ocreate_new (name : string) : OIO (result unit io_error) :=
  ocall (λ f, match f !! name with
              | Some _ => (Err OtherError, f)
              | None => (Ok tt, <[name := EmptyString]> f)
              end) (λ _ f, f).
Definition owrite (name bytes : string) : OIO (result unit io_error) :=
  ocall (λ f, (Ok tt, <[name := bytes]> f)) (λ s f, <[name := s]> f).
Definition osync : OIO (result unit io_error) := ocall (λ f, (Ok tt, f)) (λ _ f, f).
Definition ocreate_dir : OIO (result unit io_error) := ocall (λ f, (Ok tt, f)) (λ _ f, f).
(** [MoveFileExW] with [MOVEFILE_REPLACE_EXISTING]. *)
Definition omove (from to : string) : OIO (result unit io_error) :=
  ocall (λ f, match f !! from with
              | Some c => (Ok tt, <[to := c]> (delete from f))
              | None => (Err NotFound, f)
              end) (λ _ f, f).
Definition oremove (name : string) : OIO (result unit io_error) :=
  ocall (λ f, match f !! name with
              | Some _ => (Ok tt, delete name f)
              | None => (Err NotFound, f)
              end) (λ _ f, f).

(** ** Storage errors and the publication of a staged file *)

Inductive StorageError : Type :=
  | SCasMismatch
  | SWriteFailed (e : io_error)
  | SDurabilityUncertain (e : io_error)
  | STransport (e : TransportError)
  | SCrypto (detail : string).

(** [impl From<StorageError> for TransportError]. *)
Definition transport_of (e : StorageError) : TransportError :=
  match e with
  | STransport e => e
  | SWriteFailed e | SDurabilityUncertain e => TIo e
  | SCrypto msg => TCrypto msg
  | SCasMismatch => TPairing "cas mismatch"
  end.

(** The Windows build: the move waits until it is on disk, and an error with
    the staged file gone leaves it unknown which bytes are in place. *)
Definition publish_staged_file (staged destination : string) : OIO (result unit StorageError) :=
  r ← omove staged destination;
  match r with
  | Ok _ => oko tt
  | Err _ => there ← oexists staged; erro (if there : bool then SWriteFailed OtherError else SDurabilityUncertain OtherError)
  end.

(** Create, write and sync a staged file: the steps every writer begins with. *)
Definition stage {E} (of_io : io_error → E) (tmp bytes : string) : OIO (result unit E) :=
  _ ←! map_err of_io (ocreate tmp);
  _ ←! map_err of_io (owrite tmp bytes);
  map_err of_io osync.

(** ** The logic *)

Definition oht {A} (P : Owned → Prop) (m : OIO A) (Q : A → Owned → Prop) (C : Owned → Prop) : Prop :=
  ∀ w, P (ow_own w) →
  match m w with
  | (Some a, w') => Q a (ow_own w')
  | (None, w') => C (ow_own w')
  end.

Section logic.
Implicit Types P C : Owned → Prop.

Lemma oht_ret {A} (a : A) P Q C : (∀ o, P o → Q a o) → oht P (mret a) Q C.
Proof. intros H w Hw. by apply H. Qed.
Lemma oht_bind {A B} (m : OIO A) (k : A → OIO B) P R Q C :
  oht P m R C → (∀ a, oht (R a) (k a) Q C) → oht P (m ≫= k) Q C.
Proof.
  intros Hm Hk w Hw. specialize (Hm w Hw). unfold mbind, oio_bind. destruct (m w) as [[a|] w'] eqn:He; [|done]. by apply Hk.
Qed.
Lemma oht_weaken {A} (m : OIO A) P P' Q Q' C C' :
  oht P' m Q' C' → (∀ o, P o → P' o) → (∀ a o, Q' a o → Q a o) → (∀ o, C' o → C o) → oht P m Q C.
Proof. intros Hm HP HQ HC w Hw. specialize (Hm w (HP _ Hw)). destruct (m w) as [[a|] w']; auto. Qed.
Lemma oht_pre {A} (m : OIO A) P P' Q C : oht P' m Q C → (∀ o, P o → P' o) → oht P m Q C.
Proof. intros Hm HP. by eapply oht_weaken. Qed.
Lemma oht_post {A} (m : OIO A) P (Q' Q : A → Owned → Prop) C : oht P m Q' C → (∀ a o, Q' a o → Q a o) → oht P m Q C.
Proof. intros Hm HQ. by eapply oht_weaken. Qed.
Lemma oht_both {A} (m : OIO A) P Q Q' C : oht P m Q C → oht P m Q' C → oht P m (λ a o, Q a o ∧ Q' a o) C.
Proof. intros Hm Hm' w Hw. specialize (Hm w Hw). specialize (Hm' w Hw). by destruct (m w) as [[a|] w']. Qed.
Lemma oht_pure {A} (φ : Prop) (m : OIO A) P Q C : (φ → oht P m Q C) → oht (λ o, φ ∧ P o) m Q C.
Proof. intros H w [Hp Hw]. by apply H. Qed.
Lemma oht_at {A} (m : OIO A) P Q C : (∀ o, P o → oht (λ o', o' = o) m Q C) → oht P m Q C.
Proof. intros H w Hw. by apply (H _ Hw w). Qed.
Lemma oht_try {A B E} (m : OIO (result A E)) (k : A → OIO (result B E)) P (R : result A E → Owned → Prop) Q C :
  oht P m R C → (∀ a, oht (R (Ok a)) (k a) Q C) → (∀ e o, R (Err e) o → Q (Err e) o) → oht P (tryo m k) Q C.
Proof. intros Hm Hk He. eapply oht_bind; [exact Hm|]. intros [a|e]; [apply Hk|]. apply oht_ret. apply He. Qed.
Lemma oht_map_err {A E F} (f : E → F) (m : OIO (result A E)) P (R : result A E → Owned → Prop) Q C :
  oht P m R C → (∀ a o, R (Ok a) o → Q (Ok a) o) → (∀ e o, R (Err e) o → Q (Err (f e)) o) → oht P (map_err f m) Q C.
Proof. intros Hm Ho He. eapply oht_bind; [exact Hm|]. intros [a|e]; apply oht_ret; auto. Qed.

(** A call: nothing done, everything done, or half. *)
Lemma oht_call {A} (whole : Files → result A io_error * Files) torn P Q C :
  (∀ o, P o → Q (whole (o_files o)).1 (set_files (whole (o_files o)).2 o) ∧ Q (Err OtherError) o ∧
    Q (Err OtherError) (set_files (whole (o_files o)).2 o) ∧ C o ∧ C (set_files (whole (o_files o)).2 o) ∧
    ∀ s, Q (Err OtherError) (set_files (torn s (o_files o)) o) ∧ C (set_files (torn s (o_files o)) o)) →
  oht P (ocall whole torn) Q C.
Proof.
  intros H w Hw. specialize (H _ Hw) as (Hg & Hb & Hd & Hc & Hcd & Ht).
  unfold ocall, mbind, oio_bind, next_verdict. cbn.
  destruct (default Good (head (ow_verdicts w))); cbn; try done; try apply Ht.
  by destruct (whole _).
Qed.
Lemma set_files_same o : set_files (o_files o) o = o.
Proof. by destruct o. Qed.

(** Calls that only look. *)
Lemma oht_look {A} (f : Files → result A io_error) P C :
  (∀ o, P o → C o) →
  oht P (ocall (λ d, (f d, d)) (λ _ d, d)) (λ r o, P o ∧ (r = f (o_files o) ∨ r = Err OtherError)) C.
Proof. intros HC. apply oht_call. intros o Ho. cbn. rewrite set_files_same. split_and!; eauto 6. Qed.
Lemma oht_read name P C :
  (∀ o, P o → C o) → oht P (oread name) (λ r o, P o ∧ (r = found_file (o_files o !! name) ∨ r = Err OtherError)) C.
Proof. apply oht_look. Qed.
Lemma oht_exists name P C :
  (∀ o, P o → C o) → oht P (oexists name) (λ b o, P o ∧ (b = true → is_Some (o_files o !! name))) C.
Proof.
  intros HC. eapply oht_bind; [by apply oht_look|]. intros r. apply oht_ret. intros o [Ho Hr]. split; [done|].
  destruct Hr as [->| ->]; [|done]. intros Hb. by apply bool_decide_eq_true in Hb.
Qed.
Lemma oht_quiet_call P C : (∀ o, P o → C o) → oht P osync (λ _, P) C.
Proof. intros HC. eapply oht_post; [by apply oht_look|]. by intros ? ? [? _]. Qed.
Lemma oht_guard P C : oht P next_guard (λ _, P) C.
Proof. by intros w Hw. Qed.
End logic.

(** A world in which no call fails. *)
Definition calm (o : Owned) : OWorld := mkOWorld o [] [].

(** ** What a publication leaves *)

(** Nothing but the files named has changed. *)
Definition same_but (names : list string) (o o' : Owned) : Prop :=
  o_log o' = o_log o ∧ ∀ n, n ∉ names → o_files o' !! n = o_files o !! n.

Lemma same_but_refl names o : same_but names o o.
Proof. done. Qed.
Lemma same_but_trans names o1 o2 o3 : same_but names o1 o2 → same_but names o2 o3 → same_but names o1 o3.
Proof. intros [Hl Hf] [Hl' Hf']. split; [congruence|]. intros n Hn. by rewrite Hf', Hf. Qed.
Lemma same_but_subset names names' o o' : same_but names o o' → (∀ n, n ∈ names → n ∈ names') → same_but names' o o'.
Proof. intros [Hl Hf] Hs. split; [done|]. intros n Hn. apply Hf. auto. Qed.
Lemma same_but_insert names n c o o' :
  same_but names o o' → n ∈ names → same_but names o (set_files (<[n := c]> (o_files o')) o').
Proof. intros [Hl Hf] Hn. split; [done|]. intros m Hm. cbn. rewrite lookup_insert_ne by set_solver. by apply Hf. Qed.
Lemma same_but_delete names n o o' :
  same_but names o o' → n ∈ names → same_but names o (set_files (delete n (o_files o')) o').
Proof. intros [Hl Hf] Hn. split; [done|]. intros m Hm. cbn. rewrite lookup_delete_ne by set_solver. by apply Hf. Qed.

(** The destination holds its old bytes or the new ones. *)
Definition maybe_put (tmp dest bytes : string) (o o' : Owned) : Prop :=
  same_but [tmp; dest] o o' ∧ (o_files o' !! dest = o_files o !! dest ∨ o_files o' !! dest = Some bytes).
Definition has_put (tmp dest bytes : string) (o o' : Owned) : Prop :=
  same_but [tmp; dest] o o' ∧ o_files o' !! dest = Some bytes.
Definition not_put (tmp dest : string) (o o' : Owned) : Prop :=
  same_but [tmp; dest] o o' ∧ o_files o' !! dest = o_files o !! dest.

Lemma has_maybe tmp dest bytes o o' : has_put tmp dest bytes o o' → maybe_put tmp dest bytes o o'.
Proof. intros [? ?]. split; auto. Qed.
Lemma not_maybe tmp dest bytes o o' : not_put tmp dest o o' → maybe_put tmp dest bytes o o'.
Proof. intros [? ?]. split; auto. Qed.

Definition put_result (tmp dest bytes : string) (o : Owned) (r : result unit StorageError) (o' : Owned) : Prop :=
  match r with
  | Ok _ => has_put tmp dest bytes o o'
  | Err (SDurabilityUncertain _) => maybe_put tmp dest bytes o o'
  | Err _ => not_put tmp dest o o'
  end.

Section publish.
Context (tmp dest bytes : string) (Hne : tmp ≠ dest).

Definition staged_only (o o' : Owned) : Prop := same_but [tmp] o o'.
Lemma staged_not_put o o' : staged_only o o' → not_put tmp dest o o'.
Proof using Hne.
  intros [Hl Hf]. split; [|apply Hf; set_solver]. split; [done|]. intros n Hn. apply Hf. set_solver.
Qed.

Lemma oht_stage {E} (of_io : io_error → E) o :
  oht (staged_only o) (stage of_io tmp bytes)
    (λ r o', staged_only o o' ∧ match r with Ok _ => o_files o' !! tmp = Some bytes | Err e => ∃ i, e = of_io i end) (staged_only o).
Proof using.
  clear Hne dest. unfold stage.
  eapply (oht_try _ _ _ (λ r o', staged_only o o' ∧ ∀ e, r = Err e → ∃ i, e = of_io i)).
  { eapply (oht_map_err _ _ _ (λ _, staged_only o)); [apply oht_call| |].
    - intros o' Ho. cbn. assert (staged_only o (set_files (<[tmp:=""]> (o_files o')) o')) by (apply same_but_insert; set_solver).
      split_and!; auto.
    - by intros a o' Ho.
    - intros e o' Ho. split; [done|]. intros e' [= <-]. eauto. }
  2: intros e o' [? He]; split; auto.
  intros a. eapply (oht_try _ _ _ (λ r o', staged_only o o' ∧ match r with Ok _ => o_files o' !! tmp = Some bytes | Err e => ∃ i, e = of_io i end)).
  { eapply (oht_map_err _ _ _ (λ r o', staged_only o o' ∧ (is_ok r = true → o_files o' !! tmp = Some bytes))).
    - apply oht_call. intros o' [Ho _]. cbn.
      assert (Hs : ∀ c, staged_only o (set_files (<[tmp:=c]> (o_files o')) o')) by (intros c; apply same_but_insert; set_solver).
      split_and!; try done. intros _. by rewrite lookup_insert_eq.
    - intros u o' [? Hu]. split; [done|]. by apply Hu.
    - intros e o' [? _]. eauto. }
  2: done.
  intros u. eapply oht_map_err; [apply (oht_quiet_call (λ o', staged_only o o' ∧ o_files o' !! tmp = Some bytes))| |].
  - by intros ? [? _].
  - by intros ? ? [? ?].
  - intros e o' [? ?]. eauto.
Qed.

Lemma oht_publish o :
  oht (λ o', staged_only o o' ∧ o_files o' !! tmp = Some bytes) (publish_staged_file tmp dest)
    (put_result tmp dest bytes o) (maybe_put tmp dest bytes o).
Proof using Hne.
  unfold publish_staged_file.
  eapply (oht_bind _ _ _ (λ r o', match r with
            | Ok _ => has_put tmp dest bytes o o'
            | Err _ => (staged_only o o' ∧ o_files o' !! tmp = Some bytes) ∨ (has_put tmp dest bytes o o' ∧ o_files o' !! tmp = None)
            end)).
  - apply oht_call. intros o' [Hs Ht]. rewrite Ht. cbn.
    assert (Hp : has_put tmp dest bytes o (set_files (<[dest:=bytes]> (delete tmp (o_files o'))) o')).
    { split; [|by cbn; rewrite lookup_insert_eq]. destruct Hs as [Hl Hf]. split; [done|]. intros n Hn. cbn.
      rewrite lookup_insert_ne, lookup_delete_ne by set_solver. apply Hf. set_solver. }
    assert (Hg : o_files (set_files (<[dest:=bytes]> (delete tmp (o_files o'))) o') !! tmp = None).
    { cbn. rewrite lookup_insert_ne by done. by rewrite lookup_delete_eq. }
    pose proof (not_maybe tmp dest bytes _ _ (staged_not_put _ _ Hs)). pose proof (has_maybe _ _ _ _ _ Hp).
    rewrite set_files_same. split_and!; auto.
  - intros [[]|e]; [by apply oht_ret|].
    eapply oht_bind; [apply oht_exists|].
    + intros o' [[Hs _]|[Hp _]]; [by apply not_maybe, staged_not_put|by apply has_maybe].
    + intros there. apply oht_ret. intros o' [Hc Ht]. destruct there; cbn.
      * destruct (Ht eq_refl) as [c Hc']. destruct Hc as [[Hs _]|[_ Hn]]; [by apply staged_not_put|congruence].
      * destruct Hc as [[Hs _]|[Hp _]]; [by apply not_maybe, staged_not_put|by apply has_maybe].
Qed.

End publish.

(** Stage, publish, read back: the whole of an atomic write. *)
Definition stage_and_publish (tmp dest bytes : string) (mismatch : StorageError) : OIO (result unit StorageError) :=
  _ ←! stage SWriteFailed tmp bytes;
  _ ←! publish_staged_file tmp dest;
  readback ←! map_err SDurabilityUncertain (oread dest);
  if String.eqb readback bytes then oko tt else erro mismatch.

Lemma oht_stage_and_publish tmp dest bytes i o :
  tmp ≠ dest →
  oht (λ o', o' = o) (stage_and_publish tmp dest bytes (SDurabilityUncertain i)) (put_result tmp dest bytes o) (maybe_put tmp dest bytes o).
Proof.
  intros Hne. unfold stage_and_publish. eapply oht_try.
  - eapply oht_weaken; [apply (oht_stage tmp bytes SWriteFailed o)| | |].
    + intros o' ->. apply same_but_refl.
    + intros r o' Hr. exact Hr.
    + intros o' Ho. by apply not_maybe, staged_not_put.
  - intros u. eapply oht_try; [by apply oht_publish| |by intros e o' Ho].
    intros u'. cbn. eapply (oht_try _ _ _ (λ r o', has_put tmp dest bytes o o' ∧ ∀ e, r = Err e → ∃ i, e = SDurabilityUncertain i)).
    + eapply oht_map_err; [apply oht_read; apply has_maybe| |].
      * by intros ? ? [? _].
      * intros e o' [? _]. split; [done|]. intros e' [= <-]. eauto.
    + intros a. destruct (String.eqb a bytes); apply oht_ret; intros o' [Ho _]; [done|by apply has_maybe].
    + intros e o' [Ho He]. destruct (He e eq_refl) as [j ->]. by apply has_maybe.
  - intros e o' [Hs [j ->]]. by apply staged_not_put.
Qed.
