(* ===== verification/Paired.v ===== *)
(** * The saved pairing (crates/pl-transport-win/src/credential.rs)

    [PairedState] is the durable identity of this computer: the credential,
    an intent to retire it, the setup handoff it came from and the handoffs
    that are over. It is one JSON file, written by staging and renaming; its
    secrets are wrapped by the system's protector. Every mutation runs under
    one process-wide lock, so each operation below is one step. The JSON codec,
    base64, SHA-256, the certificate reader and the protector are parameters. *)
From Stdlib Require Import Ascii String.
From S2P Require Import Prelude RustStr PauseStore Model Ingest Transport OwnerFs.

Local Open Scope list_scope.

(** ** Data *)

Record EndpointAddr : Type := mkEndpointAddr { ea_host : string; ea_port : Z }.

Record Credential : Type := mkCredential {
  client_key_pem : string;
  client_cert_pem : string;
  ca_chain_pem : list string;
  cr_ca_fp_prefix : string;
  cr_instance_id : string;
  home_label : string;
  endpoints : list EndpointAddr;
  relay_origin : option string;
  device_token : option string;
  device_token_expires_at : option Z
}.

Inductive ProtectionError : Type := Refused | Failure (e : TransportError).

Inductive RetirementPhase : Type := Prepared | PhaseUnknown | Succeeded.

Record RetirementIntent : Type := mkIntent {
  ri_schema : Z;
  operation_id : string;
  ri_phase : RetirementPhase;
  owner_generation : string;
  ri_access_generation : Z;
  client_id : string;
  ri_credential : Credential
}.

Record SetupActivation : Type := mkActivation { handoff_id : string; sa_binding : string }.

Record PairedState : Type := mkPaired {
  credential : option Credential;
  access_mutation_generation : Z;
  retirement_intent : option RetirementIntent;
  setup_activation : option SetupActivation;
  setup_browser_opened : bool;
  retired_setup_handoffs : gset string;
  setup_history_unavailable : bool
}.
Definition default_paired : PairedState := mkPaired None 0 None None false ∅ false.

Record CasKey : Type := mkCasKey { ck_pairing : string; ck_access : Z }.
Inductive BrowserOpenSave : Type := Recorded | AlreadyOpen.

#[global] Instance EndpointAddr_eq_dec : EqDecision EndpointAddr.
Proof. solve_decision. Defined.
#[global] Instance Credential_eq_dec : EqDecision Credential.
Proof. solve_decision. Defined.
#[global] Instance RetirementPhase_eq_dec : EqDecision RetirementPhase.
Proof. solve_decision. Defined.
#[global] Instance RetirementIntent_eq_dec : EqDecision RetirementIntent.
Proof. solve_decision. Defined.
#[global] Instance SetupActivation_eq_dec : EqDecision SetupActivation.
Proof. solve_decision. Defined.
#[global] Instance PairedState_eq_dec : EqDecision PairedState.
Proof. solve_decision. Defined.

Definition set_key (k : string) (c : Credential) : Credential :=
  mkCredential k (client_cert_pem c) (ca_chain_pem c) (cr_ca_fp_prefix c) (cr_instance_id c) (home_label c) (endpoints c)
    (relay_origin c) (device_token c) (device_token_expires_at c).
Definition set_token (t : option string) (expires : option Z) (c : Credential) : Credential :=
  mkCredential (client_key_pem c) (client_cert_pem c) (ca_chain_pem c) (cr_ca_fp_prefix c) (cr_instance_id c) (home_label c)
    (endpoints c) (relay_origin c) t expires.
Definition set_credential (c : option Credential) (s : PairedState) : PairedState :=
  mkPaired c (access_mutation_generation s) (retirement_intent s) (setup_activation s) (setup_browser_opened s)
    (retired_setup_handoffs s) (setup_history_unavailable s).
Definition set_access (g : Z) (s : PairedState) : PairedState :=
  mkPaired (credential s) g (retirement_intent s) (setup_activation s) (setup_browser_opened s)
    (retired_setup_handoffs s) (setup_history_unavailable s).
Definition set_intent (i : option RetirementIntent) (s : PairedState) : PairedState :=
  mkPaired (credential s) (access_mutation_generation s) i (setup_activation s) (setup_browser_opened s)
    (retired_setup_handoffs s) (setup_history_unavailable s).
Definition set_opened (b : bool) (s : PairedState) : PairedState :=
  mkPaired (credential s) (access_mutation_generation s) (retirement_intent s) (setup_activation s) b
    (retired_setup_handoffs s) (setup_history_unavailable s).
Definition set_retired (ids : gset string) (s : PairedState) : PairedState :=
  mkPaired (credential s) (access_mutation_generation s) (retirement_intent s) (setup_activation s) (setup_browser_opened s)
    ids (setup_history_unavailable s).
Definition set_unavailable (b : bool) (s : PairedState) : PairedState :=
  mkPaired (credential s) (access_mutation_generation s) (retirement_intent s) (setup_activation s) (setup_browser_opened s)
    (retired_setup_handoffs s) b.
Definition set_phase (p : RetirementPhase) (i : RetirementIntent) : RetirementIntent :=
  mkIntent (ri_schema i) (operation_id i) p (owner_generation i) (ri_access_generation i) (client_id i) (ri_credential i).
Definition set_intent_credential (c : Credential) (i : RetirementIntent) : RetirementIntent :=
  mkIntent (ri_schema i) (operation_id i) (ri_phase i) (owner_generation i) (ri_access_generation i) (client_id i) c.

(** ** Parameters *)

Class PairLib := {
  b64_encode : string → string;
  b64_decode : string → option string;
  dpapi_protect : string → result string ProtectionError;
  dpapi_unprotect : string → result string ProtectionError;
  cert_sha256 : string → string;
  parse_certs : string → result (list string) TransportError;
  paired_json : PairedState → option string;
  paired_of : string → option PairedState
}.

Class PairLaws `{PairLib} : Prop := {
  b64_round x : b64_decode (b64_encode x) = Some x;
  dpapi_round x b : dpapi_protect x = Ok b → dpapi_unprotect b = Ok x;
  paired_round s b : paired_json s = Some b → paired_of b = Some s;
  paired_total s : is_Some (paired_json s)
}.

(** ** Names and constants *)

Definition CREDENTIAL_WRAP_MARKER : string := "dpapi:v1:".
Definition PAIRED_STATE_FILE_NAME : string := "pairing.json".
Definition PAIRED_TMP : string := "pairing.json.tmp".
Definition key_recovery_evidence_path : string := "pairing-key-recovery.bin".
Definition EVIDENCE_TMP : string := "pairing-key-recovery.bin.tmp".
Definition refused_pairing_path : string := "pairing-refused.json".
Definition MAX_SETUP_HANDOFF_IDS : nat := 256.

(** [observer_contract::is_canonical_uuid]. *)
Fixpoint uuid_bytes (index : nat) (s : string) : bool :=
  match s with
  | EmptyString => true
  | String byte s =>
    (if bool_decide (index ∈ [8; 13; 18; 23]%nat) then Ascii.eqb byte "-"
     else byte_in 48 57 byte || byte_in 97 102 byte) && uuid_bytes (S index) s
  end.
Definition is_canonical_uuid (value : string) : bool :=
  (String.length value =? 36)%nat && uuid_bytes 0 value.

Fixpoint hex_lower (bytes : string) : string :=
  match bytes with
  | EmptyString => EmptyString
  | String b bytes =>
    String (hex_digit (Z.shiftr (byte_val b) 4)) (String (hex_digit (Z.land (byte_val b) 15)) (hex_lower bytes))
  end.

Section paired.
Context `{PairLib}.

Definition pairing_generation (cert : string) : string := cert_sha256 cert.
(** [JournalIdentity::from_credential]. *)
Definition from_credential (c : Credential) : JournalIdentity :=
  mkJournalIdentity (cr_instance_id c) (hex_lower (cr_ca_fp_prefix c)) (hex_lower (cert_sha256 (client_cert_pem c))).
Definition binding_of (c : Credential) : string := client_cert_sha256 (from_credential c).

(** ** Secrets at rest *)

Definition protect (plain : string) : OIO (result string ProtectionError) :=
  g ← next_guard;
  mret (match g with
        | Grants => dpapi_protect plain
        | Refuses => Err Refused
        | Breaks => Err (Failure (TCrypto "dpapi protect"))
        end).
Definition unprotect (blob : string) : OIO (result string ProtectionError) :=
  g ← next_guard;
  mret (match g with
        | Grants => dpapi_unprotect blob
        | Refuses => Err Refused
        | Breaks => Err (Failure (TIo OtherError))
        end).

Definition wrap_secret (plain : string) : OIO (result string TransportError) :=
  blob ←! map_err (λ e, match e with Refused => TCrypto "credential protection refused" | Failure e => e end) (protect plain);
  oko (CREDENTIAL_WRAP_MARKER +:+ b64_encode blob).

Definition from_utf8 (s : string) : option string := if String.eqb (from_utf8_lossy s) s then Some s else None.

Definition unwrap_secret (stored : string) (client_key : bool) : OIO (result string TransportError) :=
  match strip_prefix CREDENTIAL_WRAP_MARKER stored with
  | Some b64 =>
    match b64_decode b64 with
    | None => erro TCredentialMalformed
    | Some blob =>
      plain ←! map_err (λ e, match e with
                             | Refused => if client_key then TClientKeyProtectionRefused else TRelayTokenProtectionRefused
                             | Failure e => e
                             end) (unprotect blob);
      match from_utf8 plain with Some s => oko s | None => erro TCredentialMalformed end
    end
  | None => if starts_with "dpapi:" stored then erro TCredentialMalformed else oko stored
  end.

Definition protect_credential (c : Credential) : OIO (result Credential StorageError) :=
  key ←! map_err STransport (wrap_secret (client_key_pem c));
  match device_token c with
  | None => oko (set_key key c)
  | Some token =>
    token ←! map_err STransport (wrap_secret token);
    oko (set_token (Some token) (device_token_expires_at c) (set_key key c))
  end.

Definition extract_protected_blob (stored : string) : option string :=
  strip_prefix CREDENTIAL_WRAP_MARKER stored ≫= b64_decode.

Definition persist_key_recovery_evidence (bytes : string) : OIO (result unit io_error) :=
  there ← oexists key_recovery_evidence_path;
  if there : bool then
    held ←! oread key_recovery_evidence_path;
    (if String.eqb held bytes then oko tt else erro OtherError)
  else
    left ← oexists EVIDENCE_TMP;
    _ ←! (if left : bool then
            held ←! oread EVIDENCE_TMP;
            (if String.eqb held bytes then oko tt else erro OtherError)
          else
            _ ←! ocreate_new EVIDENCE_TMP;
            _ ←! owrite EVIDENCE_TMP bytes;
            osync);
    held ←! oread EVIDENCE_TMP;
    if negb (String.eqb held bytes) then erro OtherError
    else
      _ ←! map_err (λ e, match e with SWriteFailed e | SDurabilityUncertain e => e | _ => OtherError end)
             (publish_staged_file EVIDENCE_TMP key_recovery_evidence_path);
      held ←! oread key_recovery_evidence_path;
      if String.eqb held bytes then oko tt else erro OtherError.

(** The credential in the clear, and whether the relay token was refused. *)
Definition unwrap_credential (c : Credential) (refused : bool) : OIO (result (Credential * bool) TransportError) :=
  let stored_key := client_key_pem c in
  r ← unwrap_secret stored_key true;
  match r with
  | Err TClientKeyProtectionRefused =>
    match extract_protected_blob stored_key with
    | None => erro TCredentialMalformed
    | Some evidence =>
      _ ←! map_err (λ _, TCredentialRecoveryRequired) (persist_key_recovery_evidence evidence);
      erro TClientKeyProtectionRefused
    end
  | Err e => erro e
  | Ok key =>
    let c := set_key key c in
    match device_token c with
    | None => oko (c, refused)
    | Some token =>
      r ← unwrap_secret token false;
      match r with
      | Ok token => oko (set_token (Some token) (device_token_expires_at c) c, refused)
      | Err TRelayTokenProtectionRefused => oko (set_token None None c, true)
      | Err e => erro e
      end
    end
  end.

(** ** Handoffs that are over *)

Definition HISTORY_UNAVAILABLE : TransportError := TPairing "setup continuation history is unavailable".

Definition valid_setup_ids (ids : gset string) : bool :=
  (size ids <=? MAX_SETUP_HANDOFF_IDS)%nat && forallb is_canonical_uuid (elements ids).
Definition validate_setup_ids (ids : gset string) : result unit TransportError :=
  if valid_setup_ids ids then Ok tt else Err HISTORY_UNAVAILABLE.

Definition read_setup_metadata (path : string) : OIO (result (option PairedState) TransportError) :=
  r ← oread path;
  match r with
  | Err NotFound => oko None
  | Err e => erro (TIo e)
  | Ok bytes =>
    match paired_of bytes with
    | None => erro TCredentialMalformed
    | Some state => mret (match validate_setup_ids (retired_setup_handoffs state) with Ok _ => Ok (Some state) | Err e => Err e end)
    end
  end.

Definition activation_ids (s : PairedState) : gset string :=
  match setup_activation s with Some a => {[handoff_id a]} | None => ∅ end.
(** The activation of a file is over when the file was set aside, its browser
    was opened, its credential is gone or being retired. *)
Definition is_over (archived : bool) (s : PairedState) : bool :=
  archived || setup_browser_opened s || bool_decide (credential s = None) || bool_decide (is_Some (retirement_intent s)).
Definition over_ids (archived : bool) (s : PairedState) : gset string :=
  retired_setup_handoffs s ∪ (if is_over archived s then activation_ids s else ∅).

Definition history_step (archived : bool) (path : string) (ids : gset string) : OIO (result (gset string) TransportError) :=
  m ←! read_setup_metadata path;
  match m with
  | None => oko ids
  | Some s => if setup_history_unavailable s then erro HISTORY_UNAVAILABLE else oko (ids ∪ over_ids archived s)
  end.
Definition setup_handoff_history : OIO (result (gset string) TransportError) :=
  ids ←! history_step false PAIRED_STATE_FILE_NAME ∅;
  ids ←! history_step true refused_pairing_path ids;
  mret (match validate_setup_ids ids with Ok _ => Ok ids | Err e => Err e end).

Definition check_setup_handoff_capacity (progress_id : option string) (candidate_id : string) : OIO (result unit TransportError) :=
  ids ←! setup_handoff_history;
  m ←! read_setup_metadata PAIRED_STATE_FILE_NAME;
  let ids := match m with Some s => ids ∪ activation_ids s | None => ids end in
  let ids := match progress_id with Some id => ids ∪ {[id]} | None => ids end in
  mret (validate_setup_ids (ids ∪ {[candidate_id]})).

(** ** Loading *)

Definition unwrap_held (c : option Credential) : OIO (result (option Credential * bool) TransportError) :=
  match c with
  | None => oko (None, false)
  | Some c => r ←! unwrap_credential c false; oko (Some r.1, r.2)
  end.
Definition unwrap_intent (i : option RetirementIntent) (refused : bool) : OIO (result (option RetirementIntent * bool) TransportError) :=
  match i with
  | None => oko (None, refused)
  | Some i => r ←! unwrap_credential (ri_credential i) refused; oko (Some (set_intent_credential r.1 i), r.2)
  end.
(** The state in the clear, and whether a relay token was refused. *)
Definition open_stored (s : PairedState) : OIO (result (PairedState * bool) TransportError) :=
  cr ←! unwrap_held (credential s);
  ir ←! unwrap_intent (retirement_intent s) cr.2;
  oko (set_intent ir.1 (set_credential cr.1 s), ir.2).
Definition load_detailed : OIO (result (PairedState * bool) TransportError) :=
  r ← oread PAIRED_STATE_FILE_NAME;
  match r with
  | Err NotFound => oko (default_paired, false)
  | Err e => erro (TIo e)
  | Ok bytes =>
    match paired_of bytes with
    | None => erro TCredentialMalformed
    | Some s => open_stored s
    end
  end.
Definition load : OIO (result PairedState TransportError) :=
  r ←! load_detailed; oko r.1.

Definition set_aside_refused_client_key : OIO (result bool TransportError) :=
  r ← oread PAIRED_STATE_FILE_NAME;
  match r with
  | Err NotFound => oko false
  | Err e => erro (TIo e)
  | Ok bytes =>
    match paired_of bytes with
    | None => erro TCredentialMalformed
    | Some state =>
      match credential state with
      | None => oko false
      | Some c =>
        r ← unwrap_secret (client_key_pem c) true;
        match r with
        | Ok _ => oko false
        | Err TClientKeyProtectionRefused =>
          match extract_protected_blob (client_key_pem c) with
          | None => erro TCredentialMalformed
          | Some evidence =>
            held ←! map_err (λ _, TCredentialRecoveryRequired) (oread key_recovery_evidence_path);
            if negb (String.eqb held evidence) then erro TCredentialRecoveryRequired
            else
              r ← oread refused_pairing_path;
              match r with
              | Ok existing =>
                if String.eqb existing bytes
                then _ ←! map_err transport_of (publish_staged_file PAIRED_STATE_FILE_NAME refused_pairing_path); oko true
                else erro TCredentialRecoveryRequired
              | Err NotFound =>
                _ ←! map_err transport_of (publish_staged_file PAIRED_STATE_FILE_NAME refused_pairing_path); oko true
              | Err e => erro (TIo e)
              end
          end
        | Err e => erro e
        end
      end
    end
  end.

(** ** Saving *)

Definition absorb (archived : bool) (metadata : option PairedState) (state : PairedState) : PairedState :=
  match metadata with
  | None => state
  | Some m =>
    set_retired (retired_setup_handoffs state ∪ over_ids archived m)
      (set_unavailable (setup_history_unavailable state || setup_history_unavailable m) state)
  end.
Definition read_for_save (path : string) (state : PairedState) : OIO (result (option PairedState) StorageError) :=
  r ← read_setup_metadata path;
  match r with
  | Ok m => oko m
  | Err e => if setup_history_unavailable state then oko None else erro (STransport e)
  end.
Definition settle_previous (previous : option PairedState) (state : PairedState) : PairedState :=
  match previous with
  | None => state
  | Some p =>
    let same_activation := bool_decide (setup_activation p = setup_activation state) in
    let same_credential := bool_decide (client_cert_pem <$> credential p = client_cert_pem <$> credential state) in
    let state := if same_activation && same_credential && setup_browser_opened p then set_opened true state else state in
    if negb same_activation || negb same_credential
    then set_retired (retired_setup_handoffs state ∪ activation_ids p) state else state
  end.
Definition retire_own (state : PairedState) : PairedState :=
  if is_over false state then set_retired (retired_setup_handoffs state ∪ activation_ids state) state else state.

Definition protect_state (state : PairedState) : OIO (result PairedState StorageError) :=
  c ←! match credential state with
       | None => oko None
       | Some c => c ←! protect_credential c; oko (Some c)
       end;
  i ←! match retirement_intent state with
       | None => oko None
       | Some i => c ←! protect_credential (ri_credential i); oko (Some (set_intent_credential c i))
       end;
  oko (set_intent i (set_credential c state)).

Definition write_paired (bytes : string) : OIO (result unit StorageError) :=
  stage_and_publish PAIRED_TMP PAIRED_STATE_FILE_NAME bytes (SDurabilityUncertain OtherError).

Definition save_inner (state : PairedState) : OIO (result unit StorageError) :=
  previous ←! read_for_save PAIRED_STATE_FILE_NAME state;
  let state := absorb false previous state in
  archive ←! read_for_save refused_pairing_path state;
  let state := absorb true archive state in
  let state := retire_own (settle_previous previous state) in
  match validate_setup_ids (retired_setup_handoffs state) with
  | Err e => erro (STransport e)
  | Ok _ =>
    state ←! protect_state state;
    _ ←! map_err SWriteFailed ocreate_dir;
    match paired_json state with
    | None => erro (STransport TJson)
    | Some bytes => write_paired bytes
    end
  end.

Definition save (state : PairedState) : OIO (result unit TransportError) :=
  map_err (λ e, match e with
                | STransport e => e
                | SWriteFailed e | SDurabilityUncertain e => TIo e
                | SCrypto msg => TCrypto msg
                | SCasMismatch => TIo OtherError
                end) (save_inner state).

(** ** Owner operations *)

Definition retire_setup_handoff (id : string) : OIO (result unit TransportError) :=
  state ←! load;
  map_err (λ _, TIo OtherError) (save_inner (set_retired (retired_setup_handoffs state ∪ {[id]}) state)).

Definition mark_setup_browser_opened (expected_binding : string) : OIO (result BrowserOpenSave StorageError) :=
  state ←! map_err STransport load;
  let binding_matches :=
    bool_decide (sa_binding <$> setup_activation state = Some expected_binding) &&
    bool_decide (binding_of <$> credential state = Some expected_binding) &&
    bool_decide (retirement_intent state = None) in
  if negb binding_matches then erro (STransport (TPairing "setup activation binding does not match"))
  else if setup_browser_opened state then oko AlreadyOpen
  else
    _ ←! save_inner (set_opened true state);
    oko Recorded.

Definition owner_of (state : PairedState) : option string :=
  (λ c, pairing_generation (client_cert_pem c)) <$> credential state.

Definition install_pair_rejection_intent (expected_owner : string) (expected_access : Z) (intent : RetirementIntent)
    : OIO (result unit StorageError) :=
  state ←! map_err STransport load;
  match credential state with
  | None => erro SCasMismatch
  | Some incumbent =>
    if bool_decide (is_Some (retirement_intent state))
       || negb (String.eqb (pairing_generation (client_cert_pem incumbent)) expected_owner)
       || negb (access_mutation_generation state =? expected_access)%Z
       || negb (ri_schema intent =? 1)%Z
       || negb (String.eqb (owner_generation intent) expected_owner)
       || negb (ri_access_generation intent =? expected_access)%Z
       || negb (String.eqb (pairing_generation (client_cert_pem (ri_credential intent))) expected_owner)
    then erro SCasMismatch
    else save_inner (set_intent (Some intent) state)
  end.

Definition is_attempted (p : RetirementPhase) : bool := match p with Succeeded | PhaseUnknown => true | Prepared => false end.

Definition finish_pair_rejection (op owner : string) (access : Z) (clear_answer : OIO (result unit StorageError))
    : OIO (result bool StorageError) :=
  state ←! map_err STransport load;
  match retirement_intent state with
  | None => oko false
  | Some intent =>
    if negb (ri_schema intent =? 1)%Z
       || negb (String.eqb (operation_id intent) op)
       || negb (String.eqb (owner_generation intent) owner)
       || negb (ri_access_generation intent =? access)%Z
       || negb (is_attempted (ri_phase intent))
       || negb (bool_decide (owner_of state = Some owner))
       || negb (access_mutation_generation state =? access)%Z
    then oko false
    else
      _ ←! clear_answer;
      _ ←! save_inner (set_access (wrap_u64 (access_mutation_generation state + 1)) (set_intent None (set_credential None state)));
      oko true
  end.

Definition update_retirement_phase (op owner : string) (expected phase : RetirementPhase) : OIO (result unit StorageError) :=
  state ←! map_err STransport load;
  match retirement_intent state with
  | None => erro SCasMismatch
  | Some intent =>
    let owner_matches := bool_decide (owner_of state = Some (owner_generation intent)) &&
                         (access_mutation_generation state =? ri_access_generation intent)%Z in
    if negb (ri_schema intent =? 1)%Z
       || negb (String.eqb (operation_id intent) op)
       || negb (String.eqb (owner_generation intent) owner)
       || negb (String.eqb owner (pairing_generation (client_cert_pem (ri_credential intent))))
       || negb owner_matches
       || negb (bool_decide (ri_phase intent = expected))
    then erro SCasMismatch
    else save_inner (set_intent (Some (set_phase phase intent)) state)
  end.

Definition mutate (expected : CasKey) (f : Credential → result Credential StorageError) : OIO (result Z StorageError) :=
  state ←! map_err STransport load;
  if bool_decide (is_Some (retirement_intent state)) then erro SCasMismatch
  else
    match credential state with
    | None => erro SCasMismatch
    | Some c =>
      if negb (String.eqb (pairing_generation (client_cert_pem c)) (ck_pairing expected))
         || negb (access_mutation_generation state =? ck_access expected)%Z
      then erro SCasMismatch
      else
        match f c with
        | Err e => erro e
        | Ok c =>
          let g := wrap_u64 (access_mutation_generation state + 1) in
          _ ←! save_inner (set_access g (set_credential (Some c) state));
          oko g
        end
    end.

Definition is_paired (s : PairedState) : bool := bool_decide (is_Some (credential s)).
End paired.
