(* ===== verification/PairedLogic.v ===== *)
(** * What the operations on the saved pairing do to its files

    Each operation reads the pairing file, and at most replaces it as a whole;
    the bytes it may put there are determined up to the wrapping of secrets. *)
From Stdlib Require Import Ascii String.
From S2P Require Import Prelude RustStr PauseStore Model Ingest Transport OwnerFs Paired.

Local Open Scope list_scope.

(** ** Computations that only look *)

Definition peeks {A} (m : OIO A) (φ : Owned → A → Prop) : Prop :=
  ∀ w, match m w with
       | (Some a, w') => ow_own w' = ow_own w ∧ φ (ow_own w) a
       | (None, w') => ow_own w' = ow_own w
       end.

Lemma peeks_ret {A} (a : A) (φ : Owned → A → Prop) : (∀ o, φ o a) → peeks (mret a) φ.
Proof. intros H w. by split. Qed.
Lemma peeks_bind {A B} (m : OIO A) (k : A → OIO B) φ ψ :
  peeks m φ → (∀ a, peeks (k a) (λ o b, φ o a → ψ o b)) → peeks (m ≫= k) ψ.
Proof.
  intros Hm Hk w. specialize (Hm w). unfold mbind, oio_bind. destruct (m w) as [[a|] w'] eqn:He; [|done].
  destruct Hm as [Hs Hφ]. specialize (Hk a w'). destruct (k a w') as [[b|] w''].
  - destruct Hk as [Hs' Hψ]. rewrite Hs', Hs in *. split; [done|]. by apply Hψ.
  - congruence.
Qed.
Lemma peeks_weaken {A} (m : OIO A) (φ ψ : Owned → A → Prop) : peeks m φ → (∀ o a, φ o a → ψ o a) → peeks m ψ.
Proof. intros Hm Hw w. specialize (Hm w). destruct (m w) as [[a|] w']; [|done]. destruct Hm. split; auto. Qed.
Lemma peeks_try {A B E} (m : OIO (result A E)) (k : A → OIO (result B E)) φ (ψ : Owned → result B E → Prop) :
  peeks m φ → (∀ a, peeks (k a) (λ o b, φ o (Ok a) → ψ o b)) → (∀ o e, φ o (Err e) → ψ o (Err e)) → peeks (tryo m k) ψ.
Proof. intros Hm Hk He. eapply peeks_bind; [done|]. intros [a|e]; [apply Hk|]. apply peeks_ret. auto. Qed.
Lemma peeks_map_err {A E F} (f : E → F) (m : OIO (result A E)) φ (ψ : Owned → result A F → Prop) :
  peeks m φ → (∀ o a, φ o (Ok a) → ψ o (Ok a)) → (∀ o e, φ o (Err e) → ψ o (Err (f e))) → peeks (map_err f m) ψ.
Proof. intros Hm Ho He. eapply peeks_bind; [done|]. intros [a|e]; apply peeks_ret; auto. Qed.
Lemma peeks_read name : peeks (oread name) (λ o r, r = found_file (o_files o !! name) ∨ r = Err OtherError).
Proof.
  intros w. unfold oread, ocall, mbind, oio_bind, next_verdict.
  destruct (default Good (head (ow_verdicts w))); cbn; rewrite ?set_files_same; auto.
Qed.
Lemma peeks_guard : peeks next_guard (λ _ _, True).
Proof. by intros w. Qed.
Lemma oht_peeks {A} (m : OIO A) φ (P C : Owned → Prop) :
  peeks m φ → (∀ o, P o → C o) → oht P m (λ a o, P o ∧ φ o a) C.
Proof.
  intros Hm HC w Hw. specialize (Hm w). destruct (m w) as [[a|] w'].
  - destruct Hm as [-> ?]. by split.
  - rewrite Hm. auto.
Qed.

(** ** States without their secrets *)

Definition bare_credential (c : Credential) : Credential := set_token None None (set_key EmptyString c).
Definition bare (s : PairedState) : PairedState :=
  set_intent ((λ i, set_intent_credential (bare_credential (ri_credential i)) i) <$> retirement_intent s)
    (set_credential (bare_credential <$> credential s) s).

Section logic.
Context `{PairLib}.

(** [c'] is [c] with its secrets wrapped. *)
Definition sealed (plain stored : string) : Prop :=
  ∃ blob, dpapi_protect plain = Ok blob ∧ stored = CREDENTIAL_WRAP_MARKER +:+ b64_encode blob.
Definition sealed_credential (c c' : Credential) : Prop :=
  sealed (client_key_pem c) (client_key_pem c') ∧
  match device_token c, device_token c' with
  | None, None => True
  | Some t, Some t' => sealed t t'
  | _, _ => False
  end ∧ device_token_expires_at c' = device_token_expires_at c ∧ bare_credential c' = bare_credential c.
Definition sealed_option (c c' : option Credential) : Prop :=
  match c, c' with None, None => True | Some c, Some c' => sealed_credential c c' | _, _ => False end.
Definition sealed_intent (i i' : option RetirementIntent) : Prop :=
  match i, i' with
  | None, None => True
  | Some i, Some i' => sealed_credential (ri_credential i) (ri_credential i') ∧ i' = set_intent_credential (ri_credential i') i
  | _, _ => False
  end.
Definition sealed_state (s s' : PairedState) : Prop :=
  sealed_option (credential s) (credential s') ∧ sealed_intent (retirement_intent s) (retirement_intent s') ∧
  s' = set_intent (retirement_intent s') (set_credential (credential s') s).

Lemma sealed_bare s s' : sealed_state s s' → bare s' = bare s.
Proof.
  intros (Hc & Hi & ->). unfold bare. destruct s as [c g i a b r u], s' as [c' g' i' a' b' r' u']. cbn in *.
  assert (bare_credential <$> c' = bare_credential <$> c) as Hc'.
  { destruct c, c'; try done. cbn. f_equal. apply Hc. }
  unfold set_intent, set_credential. cbn. rewrite Hc'. f_equal.
  destruct i, i'; try done. cbn. destruct Hi as [(_ & _ & _ & Hb) ->]. cbn. by rewrite Hb.
Qed.

Lemma peeks_wrap plain : peeks (wrap_secret plain) (λ _ r, ∀ s, r = Ok s → sealed plain s).
Proof.
  unfold wrap_secret, protect. eapply (peeks_try _ _ (λ _ r, ∀ b, r = Ok b → dpapi_protect plain = Ok b)).
  - eapply (peeks_map_err _ _ (λ _ r, ∀ b, r = Ok b → dpapi_protect plain = Ok b)).
    + eapply peeks_bind; [apply peeks_guard|]. intros g. apply peeks_ret. intros _ _ b Hb. by destruct g.
    + intros o a Ha b [= <-]. by apply Ha.
    + done.
  - intros b. apply peeks_ret. intros o Hb s [= <-]. exists b. auto.
  - done.
Qed.

Lemma peeks_protect_credential c : peeks (protect_credential c) (λ _ r, ∀ c', r = Ok c' → sealed_credential c c').
Proof.
  unfold protect_credential. eapply (peeks_try _ _ (λ _ r, ∀ s, r = Ok s → sealed (client_key_pem c) s)).
  { eapply peeks_map_err; [apply peeks_wrap|intros o a Ha ? [= <-]; by apply Ha|done]. }
  2: done.
  intros key. destruct (device_token c) as [t|] eqn:Ht.
  - eapply (peeks_try _ _ (λ _ r, ∀ s, r = Ok s → sealed t s)).
    { eapply peeks_map_err; [apply peeks_wrap|intros o a Ha ? [= <-]; by apply Ha|done]. }
    2: done.
    intros tok. apply peeks_ret. intros o Hs Hk c' [= <-]. split_and!; cbn; [by apply Hk| |done|by destruct c].
    rewrite Ht. by apply Hs.
  - apply peeks_ret. intros o Hk c' [= <-]. split_and!; cbn; [by apply Hk| |done|by destruct c]. by rewrite Ht.
Qed.

Lemma peeks_protect_state s : peeks (protect_state s) (λ _ r, ∀ s', r = Ok s' → sealed_state s s').
Proof.
  unfold protect_state. eapply (peeks_try _ _ (λ _ r, ∀ c', r = Ok c' → sealed_option (credential s) c')).
  { destruct (credential s) as [c|]; [|by apply peeks_ret; intros o c' [= <-]].
    eapply peeks_try; [apply peeks_protect_credential| |done]. intros c'. apply peeks_ret. intros o Hc c0 [= <-]. by apply Hc. }
  2: done.
  intros c'. eapply (peeks_try _ _ (λ _ r, ∀ i', r = Ok i' → sealed_intent (retirement_intent s) i')).
  { destruct (retirement_intent s) as [i|]; [|by apply peeks_ret; intros o i' [= <-]].
    eapply peeks_try; [apply peeks_protect_credential| |done]. intros c0. apply peeks_ret. intros o Hc i0 [= <-]. cbn. auto. }
  2: done.
  intros i'. apply peeks_ret. intros o Hi Hc s' [= <-]. split_and!; cbn; [by apply Hc|by apply Hi|by destruct s].
Qed.

(** ** Reading *)

Definition stored_at (path : string) (f : gmap string string) : option (option PairedState) :=
  match f !! path with None => Some None | Some bytes => Some <$> paired_of bytes end.
(** What [read_setup_metadata] finds when its call succeeds. *)
Definition metadata_at (path : string) (f : gmap string string) : option (option PairedState) :=
  match stored_at path f with
  | Some (Some s) => if valid_setup_ids (retired_setup_handoffs s) then Some (Some s) else None
  | m => m
  end.

Lemma peeks_metadata path :
  peeks (read_setup_metadata path) (λ o r, ∀ m, r = Ok m → metadata_at path (o_files o) = Some m).
Proof.
  unfold read_setup_metadata. eapply peeks_bind; [apply peeks_read|]. intros r.
  unfold metadata_at, stored_at.
  destruct r as [bytes|[]].
  - destruct (paired_of bytes) as [s|] eqn:Hp; apply peeks_ret; [|done]. intros o [Hr|Hr]; [|done].
    unfold found_file in Hr. destruct (o_files o !! path) as [b|] eqn:Hb; [|done]. injection Hr as ->. rewrite Hp. cbn.
    unfold validate_setup_ids. destruct (valid_setup_ids _); [|done]. by intros m [= <-].
  - apply peeks_ret. intros o [Hr|Hr]; [|done]. unfold found_file in Hr. destruct (o_files o !! path) eqn:Hb; [done|].
    by intros m [= <-].
  - by apply peeks_ret.
Qed.

Lemma peeks_for_save path state :
  peeks (read_for_save path state) (λ o r, ∀ m, r = Ok m →
    metadata_at path (o_files o) = Some m ∨ (setup_history_unavailable state = true ∧ m = None)).
Proof.
  unfold read_for_save. eapply peeks_bind; [apply peeks_metadata|]. intros [m|e].
  - apply peeks_ret. intros o Hm m' [= <-]. auto.
  - destruct (setup_history_unavailable state); apply peeks_ret; [|done]. intros o _ m [= <-]. auto.
Qed.

(** Loading looks, unless the system refuses the client key: then the wrapped
    key is kept as evidence, and nothing else is touched. *)
Definition EVIDENCE_FILES : list string := [key_recovery_evidence_path; EVIDENCE_TMP].
Definition unsealed_credential (c' c : Credential) : Prop := bare_credential c = bare_credential c'.

Lemma oht_evidence bytes o :
  oht (same_but EVIDENCE_FILES o) (persist_key_recovery_evidence bytes) (λ _, same_but EVIDENCE_FILES o) (same_but EVIDENCE_FILES o).
Proof.
  set (P := same_but EVIDENCE_FILES o).
  assert (Hread : ∀ name, oht P (oread name) (λ _, P) P).
  { intros name. eapply oht_post; [by apply oht_read|]. by intros ? ? [? _]. }
  assert (Hex : ∀ name, oht P (oexists name) (λ _, P) P).
  { intros name. eapply oht_post; [by apply oht_exists|]. by intros ? ? [? _]. }
  assert (Hret : ∀ A (a : A), oht P (mret a) (λ _, P) P) by (intros; by apply oht_ret).
  assert (Htmp : EVIDENCE_TMP ∈ EVIDENCE_FILES) by set_solver.
  assert (Hkey : key_recovery_evidence_path ∈ EVIDENCE_FILES) by set_solver.
  assert (Hcall : ∀ A (whole : gmap string string → result A io_error * gmap string string) torn,
    (∀ o', P o' → P (set_files (whole (o_files o')).2 o')) → (∀ s o', P o' → P (set_files (torn s (o_files o')) o')) →
    oht P (ocall whole torn) (λ _, P) P).
  { intros A whole torn Hw Ht. apply oht_call. intros o' Ho. split_and!; auto. }
  unfold persist_key_recovery_evidence. eapply oht_bind; [apply Hex|]. intros [].
  { eapply oht_try; [apply Hread| |done]. intros held. destruct (String.eqb _ _); apply Hret. }
  eapply oht_bind; [apply Hex|]. intros left.
  eapply (oht_try _ _ _ (λ _, P)); [|intros _|done].
  { destruct left.
    - eapply oht_try; [apply Hread| |done]. intros held. destruct (String.eqb _ _); apply Hret.
    - eapply oht_try; [apply (Hcall unit)| |done].
      + intros o' Ho. destruct (o_files o' !! EVIDENCE_TMP); cbn; [by rewrite set_files_same|by apply same_but_insert].
      + intros s o' Ho. by rewrite set_files_same.
      + intros []. eapply oht_try; [apply (Hcall unit)| |done].
        * intros o' Ho. by apply same_but_insert.
        * intros s o' Ho. by apply same_but_insert.
        * intros []. by apply oht_quiet_call. }
  eapply oht_try; [apply Hread| |done]. intros held. destruct (negb _); [apply Hret|].
  eapply (oht_try _ _ _ (λ _, P)); [|intros _|done].
  { eapply (oht_map_err _ _ _ (λ _, P)); [|done|done]. unfold publish_staged_file.
    eapply oht_bind; [apply (Hcall unit)|].
    - intros o' Ho. destruct (o_files o' !! EVIDENCE_TMP) as [c|]; cbn; [|by rewrite set_files_same].
      exact (same_but_insert _ _ c o (set_files (delete EVIDENCE_TMP (o_files o')) o') (same_but_delete _ _ o o' Ho Htmp) Hkey).
    - intros s o' Ho. by rewrite set_files_same.
    - intros [[]|e]; [apply Hret|]. eapply oht_bind; [apply Hex|]. intros there. apply Hret. }
  eapply oht_try; [apply Hread| |done]. intros held'. destruct (String.eqb _ _); apply Hret.
Qed.

Lemma peeks_unwrap_secret stored key : peeks (unwrap_secret stored key) (λ _ _, True).
Proof.
  unfold unwrap_secret. destruct (strip_prefix _ _) as [b|].
  - destruct (b64_decode b) as [blob|]; [|by apply peeks_ret].
    eapply (peeks_try _ _ (λ _ _, True)); [|intros plain|done].
    + eapply (peeks_map_err _ _ (λ _ _, True)); [|done|done]. eapply peeks_bind; [apply peeks_guard|]. intros g. by apply peeks_ret.
    + destruct (from_utf8 plain); by apply peeks_ret.
  - destruct (starts_with _ _); by apply peeks_ret.
Qed.

(** After [m]: a value and nothing changed, or an error and perhaps evidence. *)
Definition reads {A E} (m : OIO (result A E)) (φ : Owned → A → Prop) : Prop :=
  ∀ o, oht (λ o', o' = o) m
    (λ r o', match r with Ok a => o' = o ∧ φ o a | Err _ => same_but EVIDENCE_FILES o o' end) (same_but EVIDENCE_FILES o).

Lemma oreads_peeks {A E} (m : OIO (result A E)) φ : peeks m (λ o r, ∀ a, r = Ok a → φ o a) → reads m φ.
Proof.
  intros Hm o. eapply oht_post; [apply (oht_peeks _ _ _ _ Hm)|].
  - by intros ? ->.
  - intros [a|e] o'; intros [-> Hφ]; [|done]. split; auto.
Qed.
Lemma oreads_ret {A E} (r : result A E) φ : (∀ o a, r = Ok a → φ o a) → reads (mret r) φ.
Proof. intros Hr. apply oreads_peeks, peeks_ret. auto. Qed.
Lemma oreads_try {A B E} (m : OIO (result A E)) (k : A → OIO (result B E)) φ ψ :
  reads m φ → (∀ a, reads (k a) (λ o b, φ o a → ψ o b)) → reads (tryo m k) ψ.
Proof.
  intros Hm Hk o. eapply oht_try; [apply Hm| |done]. intros a. apply (oht_pre _ _ (λ o', φ o a ∧ o' = o)); [|by intros ? [-> ?]].
  apply oht_pure. intros Hφ. eapply oht_post; [apply Hk|]. intros [b|e] o'; [|done]. intros [-> Hψ]. auto.
Qed.
Lemma oreads_bind {A B E} (m : OIO A) (k : A → OIO (result B E)) φ ψ :
  peeks m φ → (∀ a, reads (k a) (λ o b, φ o a → ψ o b)) → reads (m ≫= k) ψ.
Proof.
  intros Hm Hk o. eapply oht_bind; [apply (oht_peeks _ _ _ _ Hm); by intros ? ->|]. intros a.
  apply (oht_pre _ _ (λ o', φ o a ∧ o' = o)); [|by intros ? [-> ?]].
  apply oht_pure. intros Hφ. eapply oht_post; [apply Hk|]. intros [b|e] o'; [|done]. intros [-> Hψ]. auto.
Qed.
Lemma oreads_map_err {A E F} (f : E → F) (m : OIO (result A E)) φ : reads m φ → reads (map_err f m) φ.
Proof. intros Hm o. eapply oht_map_err; [apply Hm|done|done]. Qed.
Lemma oreads_weaken {A E} (m : OIO (result A E)) (φ ψ : Owned → A → Prop) :
  reads m φ → (∀ o a, φ o a → ψ o a) → reads m ψ.
Proof. intros Hm Hw o. eapply oht_post; [apply Hm|]. intros [a|e] o'; [|done]. intros [-> ?]. auto. Qed.

Lemma oreads_both {A E} (m : OIO (result A E)) (φ ψ : Owned → A → Prop) : reads m φ → reads m ψ → reads m (λ o a, φ o a ∧ ψ o a).
Proof.
  intros H1 H2 o w Hw. specialize (H1 o w Hw). specialize (H2 o w Hw). destruct (m w) as [[[a|e]|] w']; [|done..]. naive_solver.
Qed.
Lemma oreads_when {A E} (m : OIO (result A E)) (P : Prop) φ (ψ : Owned → A → Prop) :
  reads m φ → (P → reads m ψ) → reads m (λ o a, P → ψ o a).
Proof.
  intros H1 H2 o w Hw. specialize (H1 o w Hw).
  destruct (m w) as [[[a|e]|] w'] eqn:He; [|done..]. destruct H1 as [-> _]. split; [done|].
  intros HP. specialize (H2 HP o w Hw). rewrite He in H2. apply H2.
Qed.

Lemma oreads_unwrap c b : reads (unwrap_credential c b) (λ _ r, unsealed_credential c r.1).
Proof.
  unfold unwrap_credential. eapply oreads_bind; [apply peeks_unwrap_secret|]. intros [key|e].
  - destruct (device_token _) as [t|] eqn:Ht.
    + eapply oreads_bind; [apply peeks_unwrap_secret|]. intros [t'|e'].
      * apply oreads_ret. intros o a [= <-] _ _. by destruct c.
      * destruct e'; apply oreads_ret; try done. intros o a [= <-] _ _. by destruct c.
    + apply oreads_ret. intros o a [= <-] _. by destruct c.
  - destruct e; try (by apply oreads_ret).
    destruct (extract_protected_blob _) as [blob|]; [|by apply oreads_ret].
    intros o. eapply (oht_try _ _ _ (λ _ o', same_but EVIDENCE_FILES o o')); [|intros a; by apply oht_ret|done].
    eapply oht_map_err; [eapply oht_pre; [apply oht_evidence|by intros ? ->]|done|done].
Qed.

Lemma unsealed_bare s c i :
  match credential s, c with None, None => True | Some c', Some c => unsealed_credential c' c | _, _ => False end →
  match retirement_intent s, i with
  | None, None => True
  | Some i', Some i => unsealed_credential (ri_credential i') (ri_credential i) ∧ i = set_intent_credential (ri_credential i) i'
  | _, _ => False
  end → bare (set_intent i (set_credential c s)) = bare s.
Proof.
  destruct s as [c' g i' a b r u]. unfold bare, unsealed_credential, set_intent, set_credential. cbn. intros Hc Hi.
  assert (bare_credential <$> c = bare_credential <$> c') as -> by (destruct c', c; try done; cbn; by rewrite Hc).
  f_equal. destruct i', i; try done. cbn. destruct Hi as [Hb ->]. cbn. by rewrite Hb.
Qed.

(** What a successful load returns: the stored state with secrets unwrapped,
    or the default when there is no file. *)
Definition loaded (f : gmap string string) (s : PairedState) : Prop :=
  match stored_at PAIRED_STATE_FILE_NAME f with
  | Some (Some s') => bare s = bare s'
  | Some None => s = default_paired
  | None => False
  end.

Lemma oreads_open s : reads (open_stored s) (λ _ r, bare r.1 = bare s).
Proof.
  unfold open_stored.
  eapply (oreads_try _ _ (λ _ r, match credential s, r.1 with
                                | None, None => True | Some c', Some c => unsealed_credential c' c | _, _ => False end)).
  { unfold unwrap_held. destruct (credential s) as [c|]; [|apply oreads_ret; by intros o a [= <-]].
    eapply oreads_try; [apply oreads_unwrap|]. intros [c' b']. apply oreads_ret. by intros o a [= <-]. }
  intros [c b].
  eapply (oreads_try _ _ (λ _ r, match retirement_intent s, r.1 with
          | None, None => True
          | Some i', Some i => unsealed_credential (ri_credential i') (ri_credential i) ∧ i = set_intent_credential (ri_credential i) i'
          | _, _ => False end)).
  { unfold unwrap_intent. destruct (retirement_intent s) as [i|]; [|apply oreads_ret; by intros o a [= <-]].
    eapply oreads_try; [apply oreads_unwrap|]. intros [c' b']. apply oreads_ret. by intros o a [= <-]. }
  intros [i b']. apply oreads_ret. intros o a [= <-] Hi Hc. by apply unsealed_bare.
Qed.

(** Loading, given what opening a stored state does. *)
Lemma oreads_load_with (φ : Owned → PairedState → Prop) :
  (∀ s', reads (open_stored s') (λ o r, stored_at PAIRED_STATE_FILE_NAME (o_files o) = Some (Some s') → φ o r.1)) →
  (∀ o, stored_at PAIRED_STATE_FILE_NAME (o_files o) = Some None → φ o default_paired) →
  reads load φ.
Proof.
  intros Hopen Hnone. unfold load.
  eapply (oreads_try _ _ (λ o r, φ o r.1)); [|intros a; apply oreads_ret; by intros o b [= <-]].
  unfold load_detailed. eapply oreads_bind; [apply peeks_read|]. intros r.
  destruct r as [bytes|[]].
  - destruct (paired_of bytes) as [s|] eqn:Hp; [|by apply oreads_ret].
    eapply oreads_weaken; [apply Hopen|]. intros o a Ha [Hr|Hr]; [|done]. apply Ha.
    unfold found_file in Hr. unfold stored_at. destruct (o_files o !! _) as [bs|]; [|done]. injection Hr as ->. by rewrite Hp.
  - apply oreads_ret. intros o a [= <-] [Hr|Hr]; [|done]. apply Hnone. unfold found_file in Hr. unfold stored_at. by destruct (o_files o !! _).
  - by apply oreads_ret.
Qed.
Lemma oreads_load : reads load (λ o s, loaded (o_files o) s).
Proof.
  apply oreads_load_with; unfold loaded.
  - intros s'. eapply oreads_weaken; [apply oreads_open|]. by intros o r Hr ->.
  - by intros o ->.
Qed.
End logic.
