(* ===== verification/PairedSave.v ===== *)
(** * Saving the pairing, and the handoffs that are over

    [Saved] and [Unsaved] are the only two outcomes of a save, whatever fails
    and wherever the process stops. A handoff that is over for the files stays
    over: no operation on the pairing reopens it. *)
From Stdlib Require Import Ascii String.
From S2P Require Import Prelude RustStr PauseStore Model Ingest Transport OwnerFs Paired PairedLogic.

Local Open Scope list_scope.

Section saving.
Context `{PairLib} `{!PairLaws}.

Definition merge (previous archive : option PairedState) (state : PairedState) : PairedState :=
  retire_own (settle_previous previous (absorb true archive (absorb false previous state))).

(** [s'] can be what saving [state] over the files [f] stores. *)
Definition may_store (f : gmap string string) (state s' : PairedState) : Prop :=
  ∃ previous archive,
    (metadata_at PAIRED_STATE_FILE_NAME f = Some previous ∨ (setup_history_unavailable state = true ∧ previous = None)) ∧
    (metadata_at refused_pairing_path f = Some archive ∨
       (setup_history_unavailable (absorb false previous state) = true ∧ archive = None)) ∧
    valid_setup_ids (retired_setup_handoffs (merge previous archive state)) = true ∧
    sealed_state (merge previous archive state) s'.

Definition Saved (o : Owned) (state : PairedState) (o' : Owned) : Prop :=
  ∃ bytes s', paired_of bytes = Some s' ∧ may_store (o_files o) state s' ∧
    has_put PAIRED_TMP PAIRED_STATE_FILE_NAME bytes o o'.
Definition Unsaved (o o' : Owned) : Prop := not_put PAIRED_TMP PAIRED_STATE_FILE_NAME o o'.

Definition save_result (o : Owned) (state : PairedState) (r : result unit StorageError) (o' : Owned) : Prop :=
  match r with
  | Ok _ => Saved o state o'
  | Err (SDurabilityUncertain _) => Saved o state o' ∨ Unsaved o o'
  | Err _ => Unsaved o o'
  end.

Lemma Unsaved_refl o : Unsaved o o.
Proof. by split. Qed.

Lemma oht_write_paired bytes o :
  oht (λ o', o' = o) (write_paired bytes) (put_result PAIRED_TMP PAIRED_STATE_FILE_NAME bytes o)
    (maybe_put PAIRED_TMP PAIRED_STATE_FILE_NAME bytes o).
Proof. by apply oht_stage_and_publish. Qed.

Lemma maybe_saved o state s' bytes o' :
  paired_of bytes = Some s' → may_store (o_files o) state s' →
  maybe_put PAIRED_TMP PAIRED_STATE_FILE_NAME bytes o o' → Saved o state o' ∨ Unsaved o o'.
Proof. intros Hb Hm [Hs [Hd|Hd]]; [right; by split|left]. exists bytes, s'. by split_and!. Qed.

Lemma oht_fix {A} (m : OIO A) (φ : Prop) o Q C : (φ → oht (λ o', o' = o) m Q C) → oht (λ o', o' = o ∧ φ) m Q C.
Proof. intros Hm. eapply oht_pre; [apply (oht_pure φ), Hm|]. by intros o' [-> ?]. Qed.
Lemma oht_peek {A B E} (m : OIO (result A E)) (k : A → OIO (result B E)) φ o (Q : result B E → Owned → Prop) C :
  peeks m (λ o r, ∀ a, r = Ok a → φ o a) → C o → (∀ a, φ o a → oht (λ o', o' = o) (k a) Q C) → (∀ e, Q (Err e) o) →
  oht (λ o', o' = o) (tryo m k) Q C.
Proof.
  intros Hm HC Hk He. eapply oht_try; [apply (oht_peeks _ _ _ _ Hm); by intros ? ->| |].
  - intros a. eapply oht_pre; [apply (oht_fix _ (φ o a)), Hk|]. intros o' [-> Hr]. split; [done|]. by apply Hr.
  - intros e o' [-> _]. apply He.
Qed.

Lemma oht_save_inner state o :
  oht (λ o', o' = o) (save_inner state) (save_result o state) (λ o', Saved o state o' ∨ Unsaved o o').
Proof.
  unfold save_inner. pose proof (Unsaved_refl o) as Hu.
  assert (He : ∀ e : StorageError, save_result o state (Err e) o) by (intros []; cbn; auto).
  eapply oht_peek; [apply peeks_for_save|by right| |done]. intros previous Hp.
  eapply oht_peek; [apply peeks_for_save|by right| |done]. intros archive Ha.
  fold (merge previous archive state). unfold validate_setup_ids.
  destruct (valid_setup_ids _) eqn:Hv; [|apply oht_ret; by intros o' ->].
  eapply oht_peek; [apply peeks_protect_state|by right| |done]. intros s' Hs.
  eapply (oht_try _ _ _ (λ _ o', o' = o)).
  { eapply oht_map_err; [apply (oht_quiet_call (λ o', o' = o))|done|done]. intros ? ->; by right. }
  2: by intros e o' ->.
  intros u. destruct (paired_json s') as [bytes|] eqn:Hj; [|apply oht_ret; by intros o' ->].
  assert (Hm : may_store (o_files o) state s') by (exists previous, archive; by split_and!).
  pose proof (paired_round _ _ Hj) as Hb.
  eapply oht_weaken; [apply (oht_write_paired bytes o)|by intros ? ->| |].
  - intros [u'|[]] o' Hr; cbn in *; try done; [exists bytes, s'; by split_and!|by eapply maybe_saved].
  - intros o' Hr. by eapply maybe_saved.
Qed.

(** ** What an operation leaves in the pairing files *)

Definition PAIRED_FILES : list string := [PAIRED_TMP; PAIRED_STATE_FILE_NAME; refused_pairing_path; key_recovery_evidence_path; EVIDENCE_TMP].

(** No other file is touched, the set-aside file is as it was, and the pairing
    file is as it was or stores a state that [T] allows. *)
Definition outcome (o : Owned) (T : PairedState → Prop) (o' : Owned) : Prop :=
  same_but PAIRED_FILES o o' ∧
  o_files o' !! refused_pairing_path = o_files o !! refused_pairing_path ∧
  (o_files o' !! PAIRED_STATE_FILE_NAME = o_files o !! PAIRED_STATE_FILE_NAME ∨
   ∃ st bytes s', T st ∧ paired_of bytes = Some s' ∧ may_store (o_files o) st s' ∧
     o_files o' !! PAIRED_STATE_FILE_NAME = Some bytes).

Lemma outcome_evidence o T o' : same_but EVIDENCE_FILES o o' → outcome o T o'.
Proof.
  intros Hs. split; [eapply same_but_subset; [exact Hs|set_solver]|]. destruct Hs as [_ Hf]. split; [|left]; apply Hf; set_solver.
Qed.
Lemma outcome_refl o T : outcome o T o.
Proof. split_and!; auto. by apply same_but_refl. Qed.
Lemma outcome_unsaved o T o' : Unsaved o o' → outcome o T o'.
Proof.
  intros [Hs Hd]. split; [eapply same_but_subset; [exact Hs|set_solver]|]. destruct Hs as [_ Hf]. split; [apply Hf; set_solver|by left].
Qed.
Lemma outcome_saved o st T o' : Saved o st o' → T st → outcome o T o'.
Proof.
  intros (bytes & s' & Hb & Hm & [Hs Hd]) Ht. split; [eapply same_but_subset; [exact Hs|set_solver]|]. destruct Hs as [_ Hf].
  split; [apply Hf; set_solver|]. right. by exists st, bytes, s'.
Qed.
Lemma outcome_weaken o (T T' : PairedState → Prop) o' : outcome o T o' → (∀ st, T st → T' st) → outcome o T' o'.
Proof. intros (Hs & Hr & [Hp|(st & b & s' & ? & ?)]) Ht; split_and!; auto. right. exists st, b, s'. naive_solver. Qed.

Definition updates {A E} (m : OIO (result A E)) (T : Owned → PairedState → Prop) : Prop :=
  ∀ o, oht (λ o', o' = o) m (λ _ o', outcome o (T o) o') (λ o', outcome o (T o) o').

Lemma updates_ret {A E} (r : result A E) T : updates (mret r) T.
Proof. intros o. apply oht_ret. intros o' ->. apply outcome_refl. Qed.
Lemma updates_save state : updates (save_inner state) (λ _ st, st = state).
Proof.
  intros o. eapply oht_weaken; [apply (oht_save_inner state o)|by intros ? ->| |].
  - intros [u|[]] o' Hr; cbn in Hr; try (by apply outcome_unsaved); [by eapply outcome_saved|].
    destruct Hr; [by eapply outcome_saved|by apply outcome_unsaved].
  - intros o' [?|?]; [by eapply outcome_saved|by apply outcome_unsaved].
Qed.
Lemma updates_map_err {A E F} (f : E → F) (m : OIO (result A E)) T : updates m T → updates (map_err f m) T.
Proof. intros Hm o. eapply oht_map_err; [apply Hm|done|done]. Qed.
Lemma updates_then {A B E} (m : OIO (result A E)) (f : A → result B E) T : updates m T → updates (a ←! m; mret (f a)) T.
Proof. intros Hm o. eapply oht_try; [apply Hm| |done]. intros a. by apply oht_ret. Qed.
Lemma updates_weaken {A E} (m : OIO (result A E)) (T T' : Owned → PairedState → Prop) :
  updates m T → (∀ o st, T o st → T' o st) → updates m T'.
Proof. intros Hm Ht o. eapply oht_weaken; [apply (Hm o)|by intros ? ->| |].
  - intros a o' Ho. eapply outcome_weaken; [exact Ho|apply Ht].
  - intros o' Ho. eapply outcome_weaken; [exact Ho|apply Ht].
Qed.
Lemma updates_reads {A B E} (m : OIO (result A E)) (k : A → OIO (result B E)) φ T :
  reads m φ → (∀ a, updates (k a) (λ o st, φ o a → T o st)) → updates (tryo m k) T.
Proof.
  intros Hm Hk o. eapply oht_try.
  - eapply oht_weaken; [apply (Hm o)|by intros ? ->|intros a o' Ha; exact Ha|]. intros o' Ho. by apply outcome_evidence.
  - intros a. cbn. eapply oht_pre; [apply (oht_fix _ (φ o a) o)|by intros ? [-> ?]].
    intros Hφ. eapply oht_weaken; [apply (Hk a o)|by intros ? ->| |].
    + intros b o' Ho. eapply outcome_weaken; [exact Ho|auto].
    + intros o' Ho. eapply outcome_weaken; [exact Ho|auto].
  - intros e o' Ho. by apply outcome_evidence.
Qed.

(** ** The operations *)

Lemma updates_retire id :
  updates (retire_setup_handoff id) (λ o st, ∃ s, loaded (o_files o) s ∧ st = set_retired (retired_setup_handoffs s ∪ {[id]}) s).
Proof.
  eapply updates_reads; [apply oreads_load|]. intros s. eapply updates_weaken; [apply updates_map_err, updates_save|].
  intros o st -> Hl. eauto.
Qed.

Lemma updates_opened b :
  updates (mark_setup_browser_opened b) (λ o st, ∃ s, loaded (o_files o) s ∧ st = set_opened true s).
Proof.
  eapply updates_reads; [apply oreads_map_err, oreads_load|]. intros s. cbv zeta. destruct (negb _); [apply updates_ret|].
  destruct (setup_browser_opened s); [apply updates_ret|].
  eapply updates_weaken; [apply (updates_then _ (λ _, Ok Recorded)), updates_save|]. intros o st -> Hl. eauto.
Qed.

Lemma updates_install owner access intent :
  updates (install_pair_rejection_intent owner access intent)
    (λ o st, ∃ s, loaded (o_files o) s ∧ retirement_intent s = None ∧ owner_of s = Some owner ∧
       access_mutation_generation s = access ∧ ri_schema intent = 1%Z ∧ owner_generation intent = owner ∧
       ri_access_generation intent = access ∧ pairing_generation (client_cert_pem (ri_credential intent)) = owner ∧
       st = set_intent (Some intent) s).
Proof.
  eapply updates_reads; [apply oreads_map_err, oreads_load|]. intros s.
  destruct (credential s) as [c|] eqn:Hc; [|apply updates_ret].
  destruct (bool_decide _ || _ || _ || _ || _ || _ || _) eqn:Hg; [apply updates_ret|].
  rewrite !orb_false_iff, !negb_false_iff, bool_decide_eq_false, !String.eqb_eq, !Z.eqb_eq in Hg.
  destruct Hg as ((((((Hi & Ho) & Ha) & Hs) & Hio) & Hia) & Hic).
  eapply updates_weaken; [apply updates_save|]. intros o st -> Hl. exists s. unfold owner_of. rewrite Hc. cbn.
  split_and!; try done; [by apply eq_None_not_Some|by rewrite Ho].
Qed.

Lemma updates_phase op owner expected phase :
  updates (update_retirement_phase op owner expected phase)
    (λ o st, ∃ s i, loaded (o_files o) s ∧ retirement_intent s = Some i ∧ ri_schema i = 1%Z ∧ operation_id i = op ∧
       owner_generation i = owner ∧ owner_of s = Some owner ∧ access_mutation_generation s = ri_access_generation i ∧
       ri_phase i = expected ∧ st = set_intent (Some (set_phase phase i)) s).
Proof.
  eapply updates_reads; [apply oreads_map_err, oreads_load|]. intros s.
  destruct (retirement_intent s) as [i|] eqn:Hi; [|apply updates_ret].
  cbv zeta. destruct (_ || _ || _ || _ || _ || _) eqn:Hg; [apply updates_ret|].
  rewrite !orb_false_iff, !negb_false_iff, andb_true_iff, !bool_decide_eq_true, !String.eqb_eq, !Z.eqb_eq in Hg.
  destruct Hg as (((((Hs & Ho) & Hg) & Hc) & [Hw Ha]) & Hp).
  eapply updates_weaken; [apply updates_save|]. intros o st -> Hl. exists s, i. by rewrite Hw, <- Hg.
Qed.

Lemma updates_mutate key f :
  updates (mutate key f)
    (λ o st, ∃ s c c', loaded (o_files o) s ∧ retirement_intent s = None ∧ credential s = Some c ∧ f c = Ok c' ∧
       pairing_generation (client_cert_pem c) = ck_pairing key ∧ access_mutation_generation s = ck_access key ∧
       st = set_access (wrap_u64 (ck_access key + 1)) (set_credential (Some c') s)).
Proof.
  eapply updates_reads; [apply oreads_map_err, oreads_load|]. intros s.
  case_bool_decide as Hi; [apply updates_ret|]. destruct (credential s) as [c|] eqn:Hc; [|apply updates_ret].
  destruct (negb _ || negb _) eqn:Hg; [apply updates_ret|].
  rewrite !orb_false_iff, !negb_false_iff, !String.eqb_eq, !Z.eqb_eq in Hg. destruct Hg as [Hp Ha].
  destruct (f c) as [c'|e] eqn:Hf; [|apply updates_ret].
  eapply updates_weaken; [apply (updates_then _ (λ _, Ok (wrap_u64 (access_mutation_generation s + 1)))), updates_save|].
  intros o st -> Hl. exists s, c, c'. rewrite Ha. split_and!; try done. by apply eq_None_not_Some.
Qed.
End saving.
