(* ===== verification/PairedHistory.v ===== *)
(** * Handoffs that are over stay over

    [history f] is what the files say about handoffs that are over, or nothing
    when they cannot say; [gone f h] holds when no reader of [f] can take the
    handoff [h] for a live one. Every operation on the pairing keeps [gone]. *)
From Stdlib Require Import Ascii String.
From S2P Require Import Prelude RustStr PauseStore Model Ingest Transport OwnerFs Paired PairedLogic PairedSave.

Local Open Scope list_scope.

Section history.
Context `{PairLib} `{!PairLaws}.

Definition opt_over (archived : bool) (m : option PairedState) : gset string :=
  match m with Some s => over_ids archived s | None => ∅ end.
Definition opt_unavailable (m : option PairedState) : bool :=
  match m with Some s => setup_history_unavailable s | None => false end.

Definition history (f : gmap string string) : option (gset string) :=
  match metadata_at PAIRED_STATE_FILE_NAME f, metadata_at refused_pairing_path f with
  | Some p, Some a =>
    let ids := opt_over false p ∪ opt_over true a in
    if negb (opt_unavailable p) && negb (opt_unavailable a) && valid_setup_ids ids then Some ids else None
  | _, _ => None
  end.
Definition gone (f : gmap string string) (h : string) : Prop := ∀ ids, history f = Some ids → h ∈ ids.
Definition closes (o o' : Owned) : Prop := ∀ h, gone (o_files o) h → gone (o_files o') h.

Lemma closes_refl o : closes o o.
Proof. by intros h. Qed.
Lemma closes_trans o1 o2 o3 : closes o1 o2 → closes o2 o3 → closes o1 o3.
Proof. intros H1 H2 h Hh. by apply H2, H1. Qed.

Lemma peeks_history_step archived path ids :
  peeks (history_step archived path ids) (λ o r, ∀ ids', r = Ok ids' →
    ∃ m, metadata_at path (o_files o) = Some m ∧ opt_unavailable m = false ∧ ids' = ids ∪ opt_over archived m).
Proof.
  unfold history_step. eapply peeks_try; [apply peeks_metadata| |done]. intros [s|].
  - destruct (setup_history_unavailable s) eqn:Hu; apply peeks_ret; [done|]. intros o Hm ids' [= <-]. exists (Some s). auto.
  - apply peeks_ret. intros o Hm ids' [= <-]. exists None. split_and!; auto. cbn. set_solver.
Qed.
Lemma peeks_history : peeks setup_handoff_history (λ o r, ∀ ids, r = Ok ids → history (o_files o) = Some ids).
Proof.
  unfold setup_handoff_history. eapply peeks_try; [apply peeks_history_step| |done]. intros ids1.
  eapply peeks_try; [apply peeks_history_step| |done]. intros ids2. apply peeks_ret.
  intros o Ha Hp ids. destruct (Hp _ eq_refl) as (p & Hmp & Hup & ->). destruct (Ha _ eq_refl) as (a & Hma & Hua & ->).
  unfold history. rewrite Hmp, Hma, Hup, Hua. cbn. unfold validate_setup_ids.
  replace (∅ ∪ opt_over false p ∪ opt_over true a) with (opt_over false p ∪ opt_over true a) by set_solver.
  destruct (valid_setup_ids _); [|done]. by intros [= <-].
Qed.

(** ** Merging loses nothing *)

Lemma valid_setup_ids_subset (a b : gset string) : a ⊆ b → valid_setup_ids b = true → valid_setup_ids a = true.
Proof.
  unfold valid_setup_ids. rewrite !andb_true_iff, !Nat.leb_le, !forallb_forall. intros Hs [Hn Hu].
  pose proof (subseteq_size _ _ Hs). split; [lia|]. intros x Hx. apply Hu.
  apply list_elem_of_In, elem_of_elements, Hs, elem_of_elements, list_elem_of_In, Hx.
Qed.

Lemma settle_grows p s : retired_setup_handoffs s ⊆ retired_setup_handoffs (settle_previous p s).
Proof.
  destruct p as [p|]; [|done]. unfold settle_previous. cbv zeta. destruct (_ && _ && _), (negb _ || negb _); cbn; set_solver.
Qed.
Lemma settle_unavailable p s : setup_history_unavailable (settle_previous p s) = setup_history_unavailable s.
Proof. destruct p as [p|]; [|done]. unfold settle_previous. cbv zeta. by destruct (_ && _ && _), (negb _ || negb _). Qed.
Lemma own_grows s : retired_setup_handoffs s ⊆ retired_setup_handoffs (retire_own s).
Proof. unfold retire_own. destruct (is_over false s); cbn; set_solver. Qed.
Lemma own_unavailable s : setup_history_unavailable (retire_own s) = setup_history_unavailable s.
Proof. unfold retire_own. by destruct (is_over false s). Qed.
Lemma absorb_over archived m s :
  retired_setup_handoffs (absorb archived m s) = retired_setup_handoffs s ∪ opt_over archived m.
Proof. destruct m; cbn; set_solver. Qed.
Lemma absorb_unavailable archived m s :
  setup_history_unavailable (absorb archived m s) = setup_history_unavailable s || opt_unavailable m.
Proof. destruct m; cbn; [done|]. by rewrite orb_false_r. Qed.

Lemma merge_over p a s : retired_setup_handoffs s ∪ (opt_over false p ∪ opt_over true a) ⊆ retired_setup_handoffs (merge p a s).
Proof.
  unfold merge. etrans; [|apply own_grows]. etrans; [|apply settle_grows]. rewrite !absorb_over. set_solver.
Qed.
Lemma merge_unavailable p a s :
  setup_history_unavailable (merge p a s) = setup_history_unavailable s || opt_unavailable p || opt_unavailable a.
Proof. unfold merge. by rewrite own_unavailable, settle_unavailable, !absorb_unavailable. Qed.

Lemma metadata_same path f f' : f' !! path = f !! path → metadata_at path f' = metadata_at path f.
Proof. unfold metadata_at, stored_at. by intros ->. Qed.
Lemma history_same f f' :
  f' !! PAIRED_STATE_FILE_NAME = f !! PAIRED_STATE_FILE_NAME → f' !! refused_pairing_path = f !! refused_pairing_path →
  history f' = history f.
Proof. intros Hp Hr. unfold history. by rewrite (metadata_same _ _ _ Hp), (metadata_same _ _ _ Hr). Qed.
Lemma history_Some f ids :
  history f = Some ids → ∃ p a, metadata_at PAIRED_STATE_FILE_NAME f = Some p ∧ metadata_at refused_pairing_path f = Some a ∧
    opt_unavailable p = false ∧ opt_unavailable a = false ∧ ids = opt_over false p ∪ opt_over true a ∧ valid_setup_ids ids = true.
Proof.
  unfold history. destruct (metadata_at _ f) as [p|]; [|done]. destruct (metadata_at refused_pairing_path f) as [a|]; [|done].
  destruct (negb _ && negb _ && _) eqn:Hg; [|done]. rewrite !andb_true_iff, !negb_true_iff in Hg. intros [= <-].
  exists p, a. naive_solver.
Qed.
Lemma history_of f p a :
  metadata_at PAIRED_STATE_FILE_NAME f = Some p → metadata_at refused_pairing_path f = Some a →
  opt_unavailable p = false → opt_unavailable a = false → valid_setup_ids (opt_over false p ∪ opt_over true a) = true →
  history f = Some (opt_over false p ∪ opt_over true a).
Proof. unfold history. by intros -> -> -> -> ->. Qed.
Lemma metadata_put path f bytes s : f !! path = Some bytes → paired_of bytes = Some s →
  metadata_at path f = if valid_setup_ids (retired_setup_handoffs s) then Some (Some s) else None.
Proof. unfold metadata_at, stored_at. by intros -> ->. Qed.

Lemma outcome_closes o T o' : outcome o T o' → closes o o'.
Proof.
  intros (_ & Hr & [Hp|(st & bytes & s' & _ & Hb & Hm & Hp)]) h Hg ids' Hh.
  { rewrite (history_same _ _ Hp Hr) in Hh. by apply Hg. }
  apply history_Some in Hh as (p' & a & Hmp & Hma & Hup & Hua & -> & Hv).
  rewrite (metadata_same _ _ _ Hr) in Hma.
  rewrite (metadata_put _ _ _ _ Hp Hb) in Hmp. destruct (valid_setup_ids (retired_setup_handoffs s')); [|done]. injection Hmp as <-.
  destruct Hm as (previous & archive & Hpr & Har & Hvm & (_ & _ & Hs')).
  assert (Hu : setup_history_unavailable (merge previous archive st) = false) by (rewrite Hs' in Hup; exact Hup).
  rewrite merge_unavailable, !orb_false_iff in Hu. destruct Hu as [[Hus Hup'] Hua'].
  destruct Hpr as [Hpr|[Hpr _]]; [|congruence].
  destruct Har as [Har|[Har _]]; [|rewrite absorb_unavailable, Hus, Hup' in Har; done].
  rewrite Har in Hma. injection Hma as <-.
  pose proof (merge_over previous archive st) as Hover.
  assert (Hin : h ∈ opt_over false previous ∪ opt_over true archive).
  { apply Hg. apply history_of; try done. eapply valid_setup_ids_subset; [|exact Hvm]. set_solver. }
  assert (Hret : retired_setup_handoffs s' = retired_setup_handoffs (merge previous archive st)) by (by rewrite Hs').
  cbn. unfold over_ids. rewrite Hret. set_solver.
Qed.

(** ** Setting a refused pairing aside *)

Definition moved (from to : string) (o o' : Owned) : Prop :=
  ∃ c, o_files o !! from = Some c ∧ o' = set_files (<[to := c]> (delete from (o_files o))) o.
Lemma oht_publish_exact from to o :
  oht (λ o', o' = o) (publish_staged_file from to) (λ _ o', o' = o ∨ moved from to o o') (λ o', o' = o ∨ moved from to o o').
Proof.
  unfold publish_staged_file. set (P := λ o', o' = o ∨ moved from to o o').
  eapply (oht_bind _ _ _ (λ _, P)).
  - apply oht_call. intros o' ->. destruct (o_files o !! from) as [c|] eqn:Hc; cbn; rewrite ?set_files_same.
    + assert (P (set_files (<[to:=c]> (delete from (o_files o))) o)) by (right; by exists c).
      assert (P o) by by left. split_and!; auto.
    + assert (P o) by by left. split_and!; auto.
  - intros [u|e]; [by apply oht_ret|]. eapply oht_bind; [by apply (oht_exists from P)|]. intros there. apply oht_ret. by intros ? [? _].
Qed.

Lemma moved_closes o o' bytes s :
  o_files o !! PAIRED_STATE_FILE_NAME = Some bytes → paired_of bytes = Some s →
  (o_files o !! refused_pairing_path = None ∨ o_files o !! refused_pairing_path = Some bytes) →
  moved PAIRED_STATE_FILE_NAME refused_pairing_path o o' → closes o o'.
Proof.
  intros Hp Hb Hr (c & Hc & ->) h Hg ids' Hh. rewrite Hp in Hc. injection Hc as <-.
  apply history_Some in Hh as (p' & a & Hmp & Hma & Hup & Hua & -> & Hv). cbn in *.
  assert (Hnone : p' = None).
  { unfold metadata_at, stored_at in Hmp. rewrite lookup_insert_ne, lookup_delete_eq in Hmp by done. by injection Hmp. }
  subst p'. rewrite (metadata_put _ _ bytes s) in Hma; [|by rewrite lookup_insert_eq|done].
  destruct (valid_setup_ids (retired_setup_handoffs s)) eqn:Hvs; [|done]. injection Hma as <-.
  assert (Hmp' : metadata_at PAIRED_STATE_FILE_NAME (o_files o) = Some (Some s)) by (by rewrite (metadata_put _ _ _ _ Hp Hb), Hvs).
  assert (Hma' : ∃ a, metadata_at refused_pairing_path (o_files o) = Some a ∧ opt_unavailable a = false ∧
                   over_ids false s ∪ opt_over true a ⊆ over_ids true s).
  { assert (Hsub : over_ids false s ⊆ over_ids true s) by (unfold over_ids; destruct (is_over false s); cbn; set_solver).
    destruct Hr as [Hr|Hr].
    - exists None. unfold metadata_at, stored_at. rewrite Hr. split_and!; [done..|cbn; set_solver].
    - exists (Some s). rewrite (metadata_put _ _ _ _ Hr Hb), Hvs. split_and!; [done..|cbn; set_solver]. }
  destruct Hma' as (a & Hma' & Hua' & Hsub).
  assert (Hin : h ∈ opt_over false (Some s) ∪ opt_over true a).
  { apply Hg. apply history_of; try done. eapply valid_setup_ids_subset; [|exact Hv]. cbn. set_solver. }
  cbn in *. set_solver.
Qed.

(** Closed, and no other file touched. *)
Definition shut (o o' : Owned) : Prop := closes o o' ∧ same_but PAIRED_FILES o o'.
Lemma moved_same_but o o' : moved PAIRED_STATE_FILE_NAME refused_pairing_path o o' → same_but PAIRED_FILES o o'.
Proof.
  intros (c & _ & ->). split; [done|]. intros n Hn. cbn. rewrite lookup_insert_ne, lookup_delete_ne by set_solver. done.
Qed.
Lemma oht_set_aside o : oht (λ o', o' = o) set_aside_refused_client_key (λ _ o', shut o o') (shut o).
Proof.
  assert (Hrefl : shut o o) by (split; [apply closes_refl|apply same_but_refl]). unfold set_aside_refused_client_key.
  assert (Hret : ∀ (r : result bool TransportError), oht (λ o', o' = o) (mret r) (λ _ o', shut o o') (shut o)) by
    (intros; apply oht_ret; by intros ? ->).
  eapply oht_bind; [apply (oht_read _ (λ o', o' = o)); by intros ? ->|]. intros r.
  destruct r as [bytes|[]].
  2: { eapply oht_pre; [apply Hret|]. by intros ? [? _]. }
  2: { eapply oht_pre; [apply Hret|]. by intros ? [? _]. }
  destruct (paired_of bytes) as [s|] eqn:Hb; [|eapply oht_pre; [apply Hret|by intros ? [? _]]].
  destruct (credential s) as [c|]; [|eapply oht_pre; [apply Hret|by intros ? [? _]]].
  eapply (oht_pre _ _ (λ o', o' = o ∧ o_files o !! PAIRED_STATE_FILE_NAME = Some bytes)).
  2: { intros o' [-> [Hr|Hr]]; [|done]. split; [done|]. unfold found_file in Hr. destruct (o_files o !! _); [congruence|done]. }
  apply oht_fix. intros Hp.
  eapply oht_bind; [apply (oht_peeks _ _ _ (shut o) (peeks_unwrap_secret _ _)); by intros ? ->|]. intros r.
  apply (oht_pre _ _ (λ o', o' = o)); [|by intros ? [? _]].
  destruct r as [u|e]; [apply Hret|]. destruct e; try apply Hret.
  destruct (extract_protected_blob _) as [evidence|]; [|apply Hret].
  eapply (oht_try _ _ _ (λ _ o', o' = o)); [eapply oht_map_err; [apply oht_read; by intros ? ->| |]; by intros ? ? [? _]| |by intros ? ? ->].
  intros held. destruct (negb _); [apply Hret|].
  eapply oht_bind; [apply (oht_read _ (λ o', o' = o)); by intros ? ->|]. intros r.
  assert (Hmove : (o_files o !! refused_pairing_path = None ∨ o_files o !! refused_pairing_path = Some bytes) →
    oht (λ o', o' = o) (_ ←! map_err transport_of (publish_staged_file PAIRED_STATE_FILE_NAME refused_pairing_path); oko true)
      (λ _ o', shut o o') (shut o)).
  { intros Hr. assert (Hcl : ∀ o', o' = o ∨ moved PAIRED_STATE_FILE_NAME refused_pairing_path o o' → shut o o').
    { intros o' [->|Hm]; [done|]. split; [by eapply moved_closes|by apply moved_same_but]. }
    eapply (oht_try _ _ _ (λ _ o', shut o o')); [|intros u; by apply oht_ret|done].
    eapply oht_map_err; [eapply oht_weaken; [apply (oht_publish_exact _ _ o)|by intros ? ->|intros ? ? Hx; exact (Hcl _ Hx)|exact Hcl]|done|done]. }
  destruct r as [existing|[]].
  - destruct (String.eqb_spec existing bytes) as [->|]; [|eapply oht_pre; [apply Hret|by intros ? [? _]]].
    eapply oht_pre; [apply oht_fix, Hmove|]. intros o' [-> [Hr|Hr]]; [|done]. split; [done|]. right.
    unfold found_file in Hr. destruct (o_files o !! refused_pairing_path); [congruence|done].
  - eapply oht_pre; [apply oht_fix, Hmove|]. intros o' [-> [Hr|Hr]]; [|done]. split; [done|]. left.
    unfold found_file in Hr. by destruct (o_files o !! refused_pairing_path).
  - eapply oht_pre; [apply Hret|by intros ? [? _]].
Qed.
End history.
