(* ===== verification/Answer.v ===== *)
(** * The owner's answer about a journal's mark (crates/pl-transport-win/src/answer.rs)

    A small file in one canonical form says which pairing the owner confirmed
    and which one was rejected. *)
From Stdlib Require Import Ascii String.
From S2P Require Import Prelude RustStr PauseStore Model Ingest Transport OwnerFs Paired PairedLogic.

Local Open Scope list_scope.

Definition answer_path : string := "pairing-answer.json".
Definition ANSWER_TMP : string := "pairing-answer.json.tmp".

Record AnswerState : Type := mkAnswer { confirmed : string; rejected : string }.
Definition default_answer : AnswerState := mkAnswer EmptyString EmptyString.
#[global] Instance AnswerState_eq_dec : EqDecision AnswerState.
Proof. solve_decision. Defined.

Definition is_valid_digest (s : string) : bool :=
  is_empty s || ((String.length s =? 64)%nat && all_bytes (λ c, byte_in 48 57 c || byte_in 97 102 c) s).

Definition dquote : string := String "034" EmptyString.
Definition newline : string := String "010" EmptyString.
Definition ANSWER_PREFIX : string := "{" +:+ dquote +:+ "confirmed" +:+ dquote +:+ ":" +:+ dquote.
Definition ANSWER_MIDDLE : string := dquote +:+ "," +:+ dquote +:+ "rejected" +:+ dquote +:+ ":" +:+ dquote.
Definition ANSWER_SUFFIX : string := dquote +:+ "}".

Definition encode_answer (state : AnswerState) : result string StorageError :=
  if negb (is_valid_digest (confirmed state)) || negb (is_valid_digest (rejected state)) then Err (SWriteFailed OtherError)
  else Ok (ANSWER_PREFIX +:+ confirmed state +:+ ANSWER_MIDDLE +:+ rejected state +:+ ANSWER_SUFFIX +:+ newline).

(** [strip_suffix] of a text, at the end. *)
Definition cut_suffix (suffix s : string) : option string :=
  if ends_with s suffix then Some (String.substring 0 (String.length s - String.length suffix) s) else None.

(** [None] is a panic: the slice [s[prefix.len()..s.len() - suffix.len()]] is
    taken although prefix and suffix may overlap. *)
Definition parse_answer (bytes : string) : option (result AnswerState StorageError) :=
  if negb (String.eqb (from_utf8_lossy bytes) bytes) then Some (Err (SWriteFailed OtherError))
  else
    match cut_suffix newline bytes with
    | None => Some (Err (SWriteFailed OtherError))
    | Some s =>
      if negb (starts_with ANSWER_PREFIX s) || negb (ends_with s ANSWER_SUFFIX) then Some (Err (SWriteFailed OtherError))
      else
        let from := String.length ANSWER_PREFIX in
        let to := (String.length s - String.length ANSWER_SUFFIX)%nat in
        if (to <? from)%nat then None
        else
          match split_once ANSWER_MIDDLE (String.substring from (to - from) s) with
          | None => Some (Err (SWriteFailed OtherError))
          | Some (c, r) =>
            if negb (is_valid_digest c) || negb (is_valid_digest r) then Some (Err (SWriteFailed OtherError))
            else Some (Ok (mkAnswer c r))
          end
    end.

Definition read_answer : OIO (result (option AnswerState) StorageError) :=
  r ← oread answer_path;
  match r with
  | Err NotFound => oko None
  | Err e => erro (SWriteFailed e)
  | Ok bytes =>
    match parse_answer bytes with
    | None => λ w, (None, w)
    | Some (Ok a) => oko (Some a)
    | Some (Err e) => erro e
    end
  end.

Definition write_answer (state : AnswerState) : OIO (result unit StorageError) :=
  match encode_answer state with
  | Err e => erro e
  | Ok bytes =>
    _ ←! map_err SWriteFailed ocreate_dir;
    _ ←! stage SWriteFailed ANSWER_TMP bytes;
    staged ←! map_err SWriteFailed (oread ANSWER_TMP);
    if negb (String.eqb staged bytes) then erro (SWriteFailed OtherError)
    else
      _ ←! publish_staged_file ANSWER_TMP answer_path;
      published ←! map_err SDurabilityUncertain (oread answer_path);
      if negb (String.eqb published bytes) then erro (SDurabilityUncertain OtherError) else oko tt
  end.

Definition unreadable_answer_path (nonce : Z) : string := "pairing-answer-unreadable-" +:+ fmt_dec nonce +:+ ".json".

Definition read_answer_or_reset (nonce : Z) : OIO (result (option AnswerState) StorageError) :=
  r ← read_answer;
  match r with
  | Ok a => oko a
  | Err _ =>
    r ← read_answer;
    match r with
    | Ok a => oko a
    | Err _ =>
      _ ←! publish_staged_file answer_path (unreadable_answer_path nonce);
      _ ←! write_answer default_answer;
      oko (Some default_answer)
    end
  end.

Definition unverified_path : string := "pairing-unverified".
Definition UNVERIFIED_TMP : string := "pairing-unverified.tmp".

(** Where the stored chain's journal id comes from. *)
Class CaReader := tls_pinned_ca_jid : list string → string → option string.

Section settle.
Context `{PairLib} `{CaReader}.

Definition pinned_ca_jid (c : Credential) : option string := tls_pinned_ca_jid (ca_chain_pem c) (cr_ca_fp_prefix c).
Definition mark_jid (c : Credential) : string := default EmptyString (pinned_ca_jid c).

Definition note_unverified_pairing (c : Credential) (binding : string) : OIO (result unit StorageError) :=
  match pinned_ca_jid c with
  | Some _ => oko tt
  | None =>
    _ ←! map_err SWriteFailed (ocreate UNVERIFIED_TMP);
    _ ←! map_err SWriteFailed (owrite UNVERIFIED_TMP binding);
    publish_staged_file UNVERIFIED_TMP unverified_path
  end.

Definition set_instance (jid : string) (c : Credential) : Credential :=
  mkCredential (client_key_pem c) (client_cert_pem c) (ca_chain_pem c) (cr_ca_fp_prefix c) jid (home_label c) (endpoints c)
    (relay_origin c) (device_token c) (device_token_expires_at c).

(** [cache] is the confirmed pairing the app holds in memory; each operation
    returns it with its result. *)
Definition settle_answer_file (cache : string) : OIO (result unit StorageError * string) :=
  r ← read_answer;
  match r with
  | Ok (Some a) => mret (Ok tt, confirmed a)
  | Ok None =>
    r ← load;
    match r with
    | Ok paired =>
      let digest :=
        match setup_activation paired with
        | Some _ => EmptyString
        | None => match credential paired with Some c => binding_of c | None => EmptyString end
        end in
      r ← write_answer (mkAnswer digest EmptyString);
      mret (match r with Ok _ => (Ok tt, digest) | Err e => (Err e, cache) end)
    | Err (TIo NotFound) =>
      r ← write_answer default_answer;
      mret (match r with Ok _ => (Ok tt, EmptyString) | Err e => (Err e, cache) end)
    | Err _ => mret (Ok tt, cache)
    end
  | Err _ => mret (Ok tt, cache)
  end.

Definition hold_stored_pairing_that_cant_stand (nonce : Z) (cache : string) : OIO (result unit StorageError * string) :=
  r ← load;
  match r with
  | Err _ => mret (Ok tt, cache)
  | Ok paired =>
    match credential paired with
    | None => mret (Ok tt, cache)
    | Some c =>
      let jid := pinned_ca_jid c in
      if bool_decide (jid = Some (cr_instance_id c)) then mret (Ok tt, cache)
      else
        let binding := binding_of c in
        noted ← (if bool_decide (jid = None) then r ← oread unverified_path; mret (match r with Ok text => String.eqb text binding | Err _ => false end) else mret false);
        if noted : bool then mret (Ok tt, cache)
        else
          r ← read_answer_or_reset nonce;
          match r with
          | Err e => mret (Err e, cache)
          | Ok a =>
            r ← write_answer (mkAnswer EmptyString (rejected (default default_answer a)));
            match r with
            | Err e => mret (Err e, cache)
            | Ok _ =>
              match jid with
              | None => mret (Ok tt, EmptyString)
              | Some jid =>
                r ← map_err STransport (save (set_credential (Some (set_instance jid c)) paired));
                mret (r, EmptyString)
              end
            end
          end
    end
  end.

Definition settle_grandfather (nonce : Z) (cache : string) : OIO (result unit StorageError * string) :=
  rc ← settle_answer_file cache;
  match rc.1 with
  | Err e => mret (Err e, rc.2)
  | Ok _ => hold_stored_pairing_that_cant_stand nonce rc.2
  end.
End settle.

(** ** The canonical form *)

Lemma substring_prefix a b : String.substring 0 (String.length a) (a +:+ b) = a.
Proof. induction a as [|c a IH]; cbn; [by destruct b|]. by rewrite IH. Qed.
Lemma substring_from a n b : String.substring (String.length a) n (a +:+ b) = String.substring 0 n b.
Proof. induction a as [|c a IH]; cbn; [done|]. exact IH. Qed.
Lemma length_text_app a b : String.length (a +:+ b) = (String.length a + String.length b)%nat.
Proof. induction a as [|c a IH]; cbn; [done|]. by rewrite IH. Qed.

Lemma cut_suffix_app suffix s : cut_suffix suffix (s +:+ suffix) = Some s.
Proof.
  unfold cut_suffix. assert (ends_with (s +:+ suffix) suffix = true) as -> by (apply ends_with_spec; by eauto).
  rewrite length_text_app. replace (_ + _ - _)%nat with (String.length s) by lia. by rewrite substring_prefix.
Qed.
Lemma cut_suffix_inv suffix s r : cut_suffix suffix s = Some r → s = r +:+ suffix.
Proof.
  unfold cut_suffix. destruct (ends_with s suffix) eqn:He; [|done]. apply ends_with_spec in He as [l ->].
  rewrite length_text_app. replace (_ + _ - _)%nat with (String.length l) by lia. rewrite substring_prefix. by intros [= ->].
Qed.

Lemma split_once_inv pat s a b : split_once pat s = Some (a, b) → s = a +:+ pat +:+ b.
Proof.
  revert a. induction s as [|c s IH]; intros a; cbn [split_once].
  - destruct (strip_prefix pat EmptyString) as [r|] eqn:Hs; [|done]. intros [= <- <-]. by apply strip_prefix_inv in Hs.
  - destruct (strip_prefix pat (String c s)) as [r|] eqn:Hs.
    + intros [= <- <-]. by apply strip_prefix_inv in Hs.
    + destruct (split_once pat s) as [[l r]|] eqn:Hr; [|done]. intros [= <- <-]. cbn. by rewrite (IH l eq_refl).
Qed.

(** A digest has no quote, so the delimiter is found where it was put. *)
Lemma digest_hex s : is_valid_digest s = true → all_bytes (λ c, byte_in 48 57 c || byte_in 97 102 c) s = true.
Proof.
  unfold is_valid_digest. destruct s as [|c s]; [done|]. cbn [is_empty orb]. by intros [_ ?]%andb_true_iff.
Qed.
Lemma hex_lacks_quote s : all_bytes (λ c, byte_in 48 57 c || byte_in 97 102 c) s = true → lacks "034"%char s = true.
Proof.
  unfold lacks. induction s as [|c s IH]; cbn [all_bytes]; [done|]. intros [Hc Hs]%andb_true_iff. rewrite (IH Hs), andb_true_r.
  destruct (Ascii.eqb_spec c "034") as [->|]; done.
Qed.
Lemma hex_ascii s : all_bytes (λ c, byte_in 48 57 c || byte_in 97 102 c) s = true → all_bytes (byte_in 0 127) s = true.
Proof.
  induction s as [|c s IH]; cbn [all_bytes]; [done|]. intros [Hc Hs]%andb_true_iff. rewrite (IH Hs), andb_true_r.
  revert Hc. unfold byte_in. lia.
Qed.
Lemma split_once_lacks c t s rest :
  lacks c s = true → split_once (String c t) (s +:+ String c t +:+ rest) = Some (s, rest).
Proof.
  induction s as [|x s IH].
  - intros _. pose proof (strip_prefix_app (String c t) rest) as Hp. cbn in *. by rewrite Hp.
  - intros [Hx Hs]%andb_true_iff. change (String x s +:+ String c t +:+ rest) with (String x (s +:+ String c t +:+ rest)).
    cbn [split_once strip_prefix]. destruct (Ascii.eqb_spec c x) as [->|]; [by rewrite Ascii.eqb_refl in Hx|].
    by rewrite (IH Hs).
Qed.

(** What is left between prefix and suffix. *)
Definition answer_body (a : AnswerState) : string := confirmed a +:+ ANSWER_MIDDLE +:+ rejected a.
Definition framed (body : string) : string := ANSWER_PREFIX +:+ body +:+ ANSWER_SUFFIX.

Lemma body_of_framed body :
  let s := framed body in
  String.substring (String.length ANSWER_PREFIX) (String.length s - String.length ANSWER_SUFFIX - String.length ANSWER_PREFIX) s = body.
Proof.
  cbv zeta. unfold framed. rewrite substring_from, !length_text_app.
  replace (_ - _ - _)%nat with (String.length body) by lia. by rewrite substring_prefix.
Qed.
Lemma starts_framed body : starts_with ANSWER_PREFIX (framed body) = true.
Proof. apply starts_with_spec. by exists (body +:+ ANSWER_SUFFIX). Qed.
Lemma ends_framed body : ends_with (framed body) ANSWER_SUFFIX = true.
Proof. apply ends_with_spec. exists (ANSWER_PREFIX +:+ body). unfold framed. by rewrite str_app_assoc. Qed.

Lemma length_prefix : String.length ANSWER_PREFIX = 14%nat.
Proof. reflexivity. Qed.
Lemma length_suffix : String.length ANSWER_SUFFIX = 2%nat.
Proof. reflexivity. Qed.

Lemma app_prefix p r l q : p +:+ r = l +:+ q → (String.length p ≤ String.length l)%nat → ∃ b, l = p +:+ b.
Proof.
  revert l. induction p as [|c p IH]; intros l He Hle; [by exists l|]. destruct l as [|d l]; [cbn in Hle; lia|].
  cbn in He, Hle. injection He as -> He. destruct (IH _ He) as [b ->]; [lia|]. by exists b.
Qed.

(** A text with both ends has a body, or they overlap. *)
Lemma framed_or_overlap s :
  starts_with ANSWER_PREFIX s = true → ends_with s ANSWER_SUFFIX = true →
  (∃ body, s = framed body) ∨ s = ANSWER_PREFIX +:+ "}".
Proof.
  intros [r ->]%starts_with_spec [l Hl]%ends_with_spec.
  assert (Hlen : (14 + String.length r = String.length l + 2)%nat).
  { apply (f_equal String.length) in Hl. rewrite !length_text_app in Hl. exact Hl. }
  destruct (decide (2 ≤ String.length r)%nat) as [Hr|Hr].
  - left. destruct (app_prefix _ _ _ _ Hl) as [body ->]; [rewrite length_prefix; lia|].
    exists body. unfold framed. rewrite Hl. by rewrite str_app_assoc.
  - right. f_equal. destruct r as [|c [|d r]]; cbn in Hr; [| |lia].
    + exfalso. rewrite str_app_nil_r in Hl. apply (f_equal rev_string) in Hl. rewrite rev_string_app in Hl. discriminate Hl.
    + apply (f_equal rev_string) in Hl. rewrite !rev_string_app in Hl. cbn in Hl. by injection Hl as ->.
Qed.

Lemma parse_framed body :
  all_bytes (byte_in 0 127) body = true →
  parse_answer (framed body +:+ newline) =
  match split_once ANSWER_MIDDLE body with
  | None => Some (Err (SWriteFailed OtherError))
  | Some (c, r) => if negb (is_valid_digest c) || negb (is_valid_digest r) then Some (Err (SWriteFailed OtherError)) else Some (Ok (mkAnswer c r))
  end.
Proof.
  intros Ha. unfold parse_answer. rewrite from_utf8_lossy_ascii.
  2: { unfold framed. rewrite !all_bytes_app, Ha. reflexivity. }
  rewrite String.eqb_refl. cbn [negb]. rewrite cut_suffix_app, starts_framed, ends_framed. cbn [negb orb].
  assert (Hlt : (String.length (framed body) - String.length ANSWER_SUFFIX <? String.length ANSWER_PREFIX)%nat = false).
  { apply Nat.ltb_ge. unfold framed. rewrite !length_text_app. lia. }
  rewrite Hlt, body_of_framed. done.
Qed.

Lemma encode_inv a b : encode_answer a = Ok b → is_valid_digest (confirmed a) = true ∧ is_valid_digest (rejected a) = true ∧
  b = framed (answer_body a) +:+ newline.
Proof.
  unfold encode_answer. destruct (is_valid_digest (confirmed a)), (is_valid_digest (rejected a)); try done. cbn. intros [= <-].
  split_and!; try done. unfold framed, answer_body. by rewrite !str_app_assoc.
Qed.
Lemma parse_split a body : split_once ANSWER_MIDDLE body = Some (confirmed a, rejected a) → body = answer_body a.
Proof. intros Hs. by apply split_once_inv in Hs. Qed.

Lemma parse_inv b a : parse_answer b = Some (Ok a) → encode_answer a = Ok b.
Proof.
  unfold parse_answer. destruct (negb (String.eqb _ b)); [done|]. destruct (cut_suffix newline b) as [s|] eqn:Hc; [|done].
  apply cut_suffix_inv in Hc as ->. destruct (starts_with ANSWER_PREFIX s) eqn:Hp; [|done].
  destruct (ends_with s ANSWER_SUFFIX) eqn:Hs; [|done]. cbn [negb orb].
  destruct (framed_or_overlap _ Hp Hs) as [[body ->]| ->]; [|by vm_compute].
  destruct (_ <? _)%nat; [done|]. rewrite body_of_framed. destruct (split_once _ body) as [[c r]|] eqn:Hsp; [|done].
  apply split_once_inv in Hsp as ->. unfold encode_answer.
  destruct (is_valid_digest c) eqn:Hdc, (is_valid_digest r) eqn:Hdr; try done. cbn [negb orb]. intros [= <-]. cbn [confirmed rejected].
  rewrite Hdc, Hdr. cbn [negb orb]. unfold framed. by rewrite !str_app_assoc.
Qed.
Lemma parse_encode a b : encode_answer a = Ok b → parse_answer b = Some (Ok a).
Proof.
  intros (Hc & Hr & ->)%encode_inv. pose proof (digest_hex _ Hc) as Hhc. pose proof (digest_hex _ Hr) as Hhr.
  rewrite parse_framed.
  - unfold answer_body. change ANSWER_MIDDLE with (String "034" ("," +:+ dquote +:+ "rejected" +:+ dquote +:+ ":" +:+ dquote)).
    rewrite split_once_lacks by by apply hex_lacks_quote. rewrite Hc, Hr. by destruct a.
  - unfold answer_body. rewrite !all_bytes_app, (hex_ascii _ Hhc), (hex_ascii _ Hhr). reflexivity.
Qed.

(** C29. The answer file has one canonical text for each answer: what was
    written reads back, a text is read as an answer only if it is exactly the
    text that answer is written as; and the reader gives an answer or an error
    on every text but one, on which it panics. *)
Theorem answer_text_is_canonical a b :
  (encode_answer a = Ok b ↔ parse_answer b = Some (Ok a)) ∧
  (parse_answer b = None ↔ b = ANSWER_PREFIX +:+ "}" +:+ newline).
Proof.
  split; [split; [apply parse_encode|apply parse_inv]|]. split; [|intros ->; by vm_compute].
  unfold parse_answer. destruct (negb (String.eqb _ b)); [done|]. destruct (cut_suffix newline b) as [s|] eqn:Hc; [|done].
  apply cut_suffix_inv in Hc as ->. destruct (starts_with ANSWER_PREFIX s) eqn:Hp; [|done].
  destruct (ends_with s ANSWER_SUFFIX) eqn:Hs; [|done]. cbn [negb orb].
  destruct (framed_or_overlap _ Hp Hs) as [[body ->]| ->]; [|by rewrite str_app_assoc].
  assert (Hlt : (String.length (framed body) - String.length ANSWER_SUFFIX <? String.length ANSWER_PREFIX)%nat = false).
  { apply Nat.ltb_ge. unfold framed. rewrite !length_text_app. lia. }
  rewrite Hlt. destruct (split_once _ _) as [[c r]|]; [|done]. by destruct (negb _ || negb _).
Qed.
