(* ===== verification/PairedOpen.v ===== *)
(** * Secrets, and runs in which no call fails

    What is wrapped on saving is unwrapped on loading; a state whose secrets
    can be wrapped is saved and loaded back whole when no call fails. *)
From Stdlib Require Import Ascii String.
From S2P Require Import Prelude RustStr PauseStore Model Ingest Transport OwnerFs Paired PairedLogic PairedSave PairedHistory.

Local Open Scope list_scope.

(** ** Runs in a calm world *)

Notation runs m o a o' := (m (calm o) = (Some a, calm o')).

Lemma runs_bind {A B} (m : OIO A) (k : A → OIO B) o a o1 b o2 : runs m o a o1 → runs (k a) o1 b o2 → runs (m ≫= k) o b o2.
Proof. intros Hm Hk. unfold mbind, oio_bind. by rewrite Hm. Qed.
Lemma runs_try {A B E} (m : OIO (result A E)) (k : A → OIO (result B E)) o a o1 b o2 :
  runs m o (Ok a) o1 → runs (k a) o1 b o2 → runs (tryo m k) o b o2.
Proof. intros Hm Hk. unfold tryo. by eapply runs_bind. Qed.
Lemma runs_map_err {A E F} (f : E → F) (m : OIO (result A E)) o a o1 : runs m o (Ok a) o1 → runs (map_err f m) o (Ok a) o1.
Proof. intros Hm. unfold map_err. by eapply runs_bind. Qed.
Lemma runs_read name o : runs (oread name) o (found_file (o_files o !! name)) o.
Proof. unfold oread, ocall, mbind, oio_bind, next_verdict. cbn. by destruct o. Qed.

Lemma runs_create_dir o : runs ocreate_dir o (Ok tt) o.
Proof. unfold ocreate_dir, ocall, mbind, oio_bind, next_verdict. cbn. by destruct o. Qed.

Definition moved_to (tmp dest bytes : string) (o : Owned) : Owned :=
  set_files (<[dest := bytes]> (delete tmp (<[tmp := bytes]> (<[tmp := EmptyString]> (o_files o))))) o.
Lemma runs_stage_and_publish tmp dest bytes e o :
  runs (stage_and_publish tmp dest bytes e) o (Ok tt) (moved_to tmp dest bytes o).
Proof.
  unfold stage_and_publish, stage, publish_staged_file, ocreate, owrite, osync, omove, oread, ocall, tryo, map_err, mbind, oio_bind, next_verdict.
  cbn. rewrite lookup_insert_eq. cbn. rewrite lookup_insert_eq. cbn. by rewrite String.eqb_refl.
Qed.

Section secrets.
Context `{PairLib} `{!PairLaws}.

Definition unwrap_pure (stored : string) : option string :=
  match strip_prefix CREDENTIAL_WRAP_MARKER stored with
  | Some b64 =>
    match b64_decode b64 with
    | Some blob => match dpapi_unprotect blob with Ok plain => from_utf8 plain | Err _ => None end
    | None => None
    end
  | None => if starts_with "dpapi:" stored then None else Some stored
  end.
(** A secret the protector can wrap and a [String] can hold. *)
Definition secret_ok (x : string) : Prop := from_utf8 x = Some x ∧ is_ok (dpapi_protect x) = true.
Definition openable (stored : string) : Prop := ∃ x, unwrap_pure stored = Some x ∧ secret_ok x.

Definition each_secret (φ : string → Prop) (c : Credential) : Prop :=
  φ (client_key_pem c) ∧ ∀ t, device_token c = Some t → φ t.
Definition all_secrets (φ : string → Prop) (s : PairedState) : Prop :=
  (∀ c, credential s = Some c → each_secret φ c) ∧ (∀ i, retirement_intent s = Some i → each_secret φ (ri_credential i)).

Lemma sealed_opens plain stored : sealed plain stored → from_utf8 plain = Some plain → unwrap_pure stored = Some plain.
Proof.
  intros (blob & Hp & ->) Hu. unfold unwrap_pure. rewrite strip_prefix_app, b64_round, (dpapi_round _ _ Hp). done.
Qed.
Lemma sealed_openable plain stored : sealed plain stored → secret_ok plain → openable stored.
Proof. intros Hs Ho. exists plain. split; [by apply sealed_opens; [|apply Ho]|done]. Qed.
Lemma sealed_credential_openable c c' : sealed_credential c c' → each_secret secret_ok c → each_secret openable c'.
Proof.
  intros (Hk & Ht & _) [Ok Ot]. split; [by eapply sealed_openable|]. intros t' Ht'. rewrite Ht' in Ht.
  destruct (device_token c) as [t|] eqn:Hd; [|done]. eapply sealed_openable; [done|]. by apply Ot.
Qed.
Lemma sealed_state_openable s s' : sealed_state s s' → all_secrets secret_ok s → all_secrets openable s'.
Proof.
  intros (Hc & Hi & _) [Oc Oi]. split.
  - intros c' Hc'. rewrite Hc' in Hc. destruct (credential s) as [c|] eqn:He; [|done]. by eapply sealed_credential_openable; [|apply Oc].
  - intros i' Hi'. rewrite Hi' in Hi. destruct (retirement_intent s) as [i|] eqn:He; [|done]. destruct Hi as [Hi _].
    by eapply sealed_credential_openable; [|apply Oi].
Qed.

(** ** Loading keeps secrets good *)

Lemma peeks_unwrap_exact stored key : peeks (unwrap_secret stored key) (λ _ r, ∀ x, r = Ok x → unwrap_pure stored = Some x).
Proof.
  unfold unwrap_secret, unwrap_pure. destruct (strip_prefix _ _) as [b|].
  - destruct (b64_decode b) as [blob|]; [|by apply peeks_ret].
    eapply (peeks_try _ _ (λ _ r, ∀ x, r = Ok x → dpapi_unprotect blob = Ok x)); [|intros plain|done].
    + eapply (peeks_map_err _ _ (λ _ r, ∀ x, r = Ok x → dpapi_unprotect blob = Ok x)).
      * eapply peeks_bind; [apply peeks_guard|]. intros g. apply peeks_ret. intros o _ x Hx. by destruct g.
      * intros o a Ha x [= <-]. by apply Ha.
      * done.
    + destruct (from_utf8 plain) as [s|] eqn:Hu; apply peeks_ret; [|done]. intros o Hp x [= <-]. by rewrite (Hp _ eq_refl).
  - destruct (starts_with _ _); apply peeks_ret; [done|]. by intros o x [= <-].
Qed.
Lemma openable_unwrapped stored x : openable stored → unwrap_pure stored = Some x → secret_ok x.
Proof. intros (y & Hy & Ho) Hx. congruence. Qed.

Lemma oreads_unwrap_ok c b :
  each_secret openable c → reads (unwrap_credential c b) (λ _ r, each_secret secret_ok r.1).
Proof.
  intros [Hk Ht]. unfold unwrap_credential. eapply oreads_bind; [apply peeks_unwrap_exact|]. intros [key|e].
  - destruct (device_token (set_key key c)) as [t|] eqn:Hd.
    + eapply oreads_bind; [apply peeks_unwrap_exact|]. intros [t'|e'].
      * apply oreads_ret. intros o a [= <-] Ht' Hk'. split; cbn; [by eapply openable_unwrapped; [|apply Hk']|].
        intros t0 [= <-]. eapply openable_unwrapped; [by apply Ht|by apply Ht'].
      * destruct e'; apply oreads_ret; try done. intros o a [= <-] _ Hk'. split; cbn; [by eapply openable_unwrapped; [|apply Hk']|done].
    + apply oreads_ret. intros o a [= <-] Hk'. split; cbn; [by eapply openable_unwrapped; [|apply Hk']|]. intros t' Ht'.
      cbn in Hd. congruence.
  - destruct e; try (by apply oreads_ret).
    destruct (extract_protected_blob _) as [blob|]; [|by apply oreads_ret].
    intros o. eapply (oht_try _ _ _ (λ _ o', same_but EVIDENCE_FILES o o')); [|intros a; by apply oht_ret|done].
    eapply oht_map_err; [eapply oht_pre; [apply oht_evidence|by intros ? ->]|done|done].
Qed.

Definition stored_good (f : gmap string string) : Prop :=
  ∀ s', stored_at PAIRED_STATE_FILE_NAME f = Some (Some s') → all_secrets openable s'.

Lemma oreads_open_ok s : all_secrets openable s → reads (open_stored s) (λ _ r, all_secrets secret_ok r.1).
Proof.
  intros [Hc Hi]. unfold open_stored. eapply (oreads_try _ _ (λ _ r, ∀ c, r.1 = Some c → each_secret secret_ok c)).
  { unfold unwrap_held. destruct (credential s) as [c|]; [|apply oreads_ret; by intros ? ? [= <-]].
    eapply oreads_try; [by apply oreads_unwrap_ok, Hc|]. intros [c' b']. apply oreads_ret. by intros o a [= <-] ? c0 [= <-]. }
  intros [c b]. eapply (oreads_try _ _ (λ _ r, ∀ i, r.1 = Some i → each_secret secret_ok (ri_credential i))).
  { unfold unwrap_intent. destruct (retirement_intent s) as [i|]; [|apply oreads_ret; by intros ? ? [= <-]].
    eapply oreads_try; [by apply oreads_unwrap_ok, Hi|]. intros [c' b']. apply oreads_ret. by intros o a [= <-] ? i0 [= <-]. }
  intros [i b']. apply oreads_ret. intros o a [= <-] Hi' Hc'. by split.
Qed.
Lemma oreads_load_ok : reads load (λ o s, stored_good (o_files o) → all_secrets secret_ok s).
Proof.
  apply oreads_load_with; [|done]. intros s'. eapply oreads_weaken.
  - eapply (oreads_when _ (all_secrets openable s')); [apply oreads_open|apply oreads_open_ok].
  - cbn. intros o r Hr Hs Hg. apply Hr. by apply Hg.
Qed.

(** ** Loading and saving when no call fails *)

Lemma runs_unwrap_secret stored k x o : unwrap_pure stored = Some x → runs (unwrap_secret stored k) o (Ok x) o.
Proof.
  unfold unwrap_pure, unwrap_secret. destruct (strip_prefix _ _) as [b|].
  - destruct (b64_decode b) as [blob|]; [|done]. destruct (dpapi_unprotect blob) as [plain|] eqn:Hd; [|done]. intros Hu.
    eapply runs_try; [eapply runs_map_err; unfold unprotect; eapply runs_bind; [reflexivity|by cbn; rewrite Hd]|]. by rewrite Hu.
  - destruct (starts_with _ _); [done|]. by intros [= ->].
Qed.
Lemma runs_unwrap c k t b o :
  unwrap_pure (client_key_pem c) = Some k →
  match device_token c, t with None, None => True | Some t', Some t => unwrap_pure t' = Some t | _, _ => False end →
  runs (unwrap_credential c b) o (Ok (set_token t (device_token_expires_at c) (set_key k c), b)) o.
Proof.
  intros Hk Ht. unfold unwrap_credential. eapply runs_bind; [by apply runs_unwrap_secret|]. cbn [device_token set_key].
  destruct (device_token c) as [t'|] eqn:Hd, t as [t|]; try done.
  - eapply runs_bind; [by apply runs_unwrap_secret|]. done.
  - unfold oko, mret, oio_ret. by destruct c; cbn in *; subst.
Qed.
Lemma runs_unwrap_any c b o : each_secret openable c → ∃ c', runs (unwrap_credential c b) o (Ok (c', b)) o.
Proof.
  intros [(k & Hk & _) Ht]. destruct (device_token c) as [t'|] eqn:Hd.
  - destruct (Ht _ eq_refl) as (t & Ht' & _). eexists. apply (runs_unwrap c k (Some t)); [done|]. by rewrite Hd.
  - eexists. apply (runs_unwrap c k None); [done|]. by rewrite Hd.
Qed.
Lemma runs_open_any s o : all_secrets openable s → ∃ r, runs (open_stored s) o (Ok r) o.
Proof.
  intros [Hc Hi]. unfold open_stored.
  assert (∃ c, runs (unwrap_held (credential s)) o (Ok (c, false)) o) as [c Hrc].
  { unfold unwrap_held. destruct (credential s) as [c|]; [|by eexists].
    destruct (runs_unwrap_any c false o (Hc _ eq_refl)) as [c' Hr]. eexists. by eapply runs_try. }
  assert (∃ i, runs (unwrap_intent (retirement_intent s) false) o (Ok (i, false)) o) as [i Hri].
  { unfold unwrap_intent. destruct (retirement_intent s) as [i|]; [|by eexists].
    destruct (runs_unwrap_any (ri_credential i) false o (Hi _ eq_refl)) as [c' Hr]. eexists. by eapply runs_try. }
  eexists. eapply runs_try; [exact Hrc|]. by eapply runs_try; [exact Hri|].
Qed.
Lemma runs_load_open s' r o :
  stored_at PAIRED_STATE_FILE_NAME (o_files o) = Some (Some s') → runs (open_stored s') o (Ok r) o → runs load o (Ok r.1) o.
Proof.
  intros Hs Hr. unfold load. eapply runs_try; [|done]. unfold load_detailed. eapply runs_bind; [apply runs_read|].
  unfold stored_at in Hs. destruct (o_files o !! _) as [bytes|]; [|done]. cbn. by destruct (paired_of bytes); simplify_eq/=.
Qed.
Lemma runs_load_any s' o :
  stored_at PAIRED_STATE_FILE_NAME (o_files o) = Some (Some s') → all_secrets openable s' →
  ∃ s, runs load o (Ok s) o ∧ bare s = bare s' ∧ all_secrets secret_ok s.
Proof.
  intros Hs Ho. destruct (runs_open_any s' o Ho) as [r Hr]. pose proof (runs_load_open _ _ _ Hs Hr) as Hl. exists r.1.
  split; [done|]. pose proof (oreads_load o (calm o) eq_refl) as H1. pose proof (oreads_load_ok o (calm o) eq_refl) as H2.
  rewrite Hl in H1, H2. destruct H1 as [_ H1], H2 as [_ H2]. unfold loaded in H1. rewrite Hs in H1. split; [done|].
  apply H2. intros s0 Hs0. rewrite Hs in Hs0. by injection Hs0 as <-.
Qed.

Lemma runs_wrap x o : is_ok (dpapi_protect x) = true → ∃ s, runs (wrap_secret x) o (Ok s) o.
Proof.
  intros Hx. destruct (dpapi_protect x) as [blob|] eqn:Hp; [|done]. eexists. unfold wrap_secret.
  eapply runs_try; [eapply runs_map_err; unfold protect; eapply runs_bind; [reflexivity|by cbn; rewrite Hp]|done].
Qed.
Lemma runs_protect_credential c o : each_secret secret_ok c → ∃ c', runs (protect_credential c) o (Ok c') o.
Proof.
  intros [[_ Hk] Ht]. destruct (runs_wrap _ o Hk) as [k Hrk]. unfold protect_credential.
  destruct (device_token c) as [t|].
  - destruct (runs_wrap t o (proj2 (Ht _ eq_refl))) as [t' Hrt]. eexists. eapply runs_try; [by eapply runs_map_err|].
    by eapply runs_try; [by eapply runs_map_err|].
  - eexists. by eapply runs_try; [by eapply runs_map_err|].
Qed.
Lemma runs_protect_state s o : all_secrets secret_ok s → ∃ s', runs (protect_state s) o (Ok s') o.
Proof.
  intros [Hc Hi]. unfold protect_state.
  assert (∃ c, runs (match credential s with None => oko None | Some c => c ←! protect_credential c; oko (Some c) end) o (Ok c) o) as [c Hrc].
  { destruct (credential s) as [c|]; [|by eexists]. destruct (runs_protect_credential c o (Hc _ eq_refl)) as [c' Hr].
    eexists. by eapply runs_try. }
  assert (∃ i, runs (match retirement_intent s with None => oko None
     | Some i => c ←! protect_credential (ri_credential i); oko (Some (set_intent_credential c i)) end) o (Ok i) o) as [i Hri].
  { destruct (retirement_intent s) as [i|]; [|by eexists]. destruct (runs_protect_credential (ri_credential i) o (Hi _ eq_refl)) as [c' Hr].
    eexists. by eapply runs_try. }
  eexists. eapply runs_try; [exact Hrc|]. by eapply runs_try; [exact Hri|].
Qed.

Lemma runs_metadata path m o : metadata_at path (o_files o) = Some m → runs (read_setup_metadata path) o (Ok m) o.
Proof.
  intros Hm. unfold read_setup_metadata. eapply runs_bind; [apply runs_read|]. unfold metadata_at, stored_at in Hm.
  destruct (o_files o !! path) as [bytes|]; cbn; [|by injection Hm as <-].
  destruct (paired_of bytes) as [s|]; [|done]. cbn in Hm. unfold validate_setup_ids. destruct (valid_setup_ids _); [|done].
  by injection Hm as <-.
Qed.
Lemma all_secrets_merge φ p a s : all_secrets φ s → all_secrets φ (merge p a s).
Proof.
  intros [Hc Hi]. assert (Hsame : credential (merge p a s) = credential s ∧ retirement_intent (merge p a s) = retirement_intent s).
  { unfold merge, retire_own, settle_previous, absorb. cbv zeta. destruct p, a; cbn;
      repeat match goal with |- context [if ?b then _ else _] => destruct b; cbn end; done. }
  destruct Hsame as [Ec Ei]. by split; rewrite ?Ec, ?Ei.
Qed.

Lemma runs_save p a state o :
  metadata_at PAIRED_STATE_FILE_NAME (o_files o) = Some p → metadata_at refused_pairing_path (o_files o) = Some a →
  valid_setup_ids (retired_setup_handoffs (merge p a state)) = true → all_secrets secret_ok state →
  ∃ s' bytes, paired_of bytes = Some s' ∧ sealed_state (merge p a state) s' ∧
    runs (save_inner state) o (Ok tt) (moved_to PAIRED_TMP PAIRED_STATE_FILE_NAME bytes o).
Proof.
  intros Hp Ha Hv Hs. destruct (runs_protect_state (merge p a state) o (all_secrets_merge _ _ _ _ Hs)) as [s' Hr].
  destruct (paired_total s') as [bytes Hb]. exists s', bytes. split_and!; [by apply paired_round| |].
  { pose proof (peeks_protect_state (merge p a state) (calm o)) as Hpk. rewrite Hr in Hpk. by apply Hpk. }
  unfold save_inner. eapply runs_try; [unfold read_for_save; eapply runs_bind; [by apply runs_metadata|done]|].
  eapply runs_try; [unfold read_for_save; eapply runs_bind; [by apply runs_metadata|done]|]. cbv zeta.
  fold (merge p a state). unfold validate_setup_ids. rewrite Hv. eapply runs_try; [exact Hr|].
  eapply runs_try; [apply runs_map_err, runs_create_dir|].
  rewrite Hb. apply runs_stage_and_publish.
Qed.

(** Opening what was sealed gives back the state. *)
Lemma sealed_credential_unwrap c c' b o :
  sealed_credential c c' → each_secret secret_ok c → runs (unwrap_credential c' b) o (Ok (c, b)) o.
Proof.
  intros (Hk & Ht & He & Hb) [[Uk _] Ut].
  assert (Hc : c = set_token (device_token c) (device_token_expires_at c') (set_key (client_key_pem c) c')).
  { rewrite He. destruct c, c'. unfold bare_credential, set_token, set_key in *. cbn in *. injection Hb as -> -> -> -> -> -> ->. by subst. }
  assert (Hr : runs (unwrap_credential c' b) o (Ok (set_token (device_token c) (device_token_expires_at c') (set_key (client_key_pem c) c'), b)) o);
    [|by rewrite <- Hc in Hr].
  apply runs_unwrap; [by apply sealed_opens|].
  destruct (device_token c') as [t'|], (device_token c) as [t|]; try done. apply sealed_opens; [done|]. by apply Ut.
Qed.
Lemma sealed_opens_back m s' o : sealed_state m s' → all_secrets secret_ok m → runs (open_stored s') o (Ok (m, false)) o.
Proof.
  intros (Hc & Hi & Hs) [Oc Oi]. unfold open_stored.
  eapply (runs_try _ _ _ (credential m, false)).
  { unfold unwrap_held. destruct (credential s') as [c'|], (credential m) as [c|]; try done.
    eapply runs_try; [apply sealed_credential_unwrap; [done|by apply Oc]|done]. }
  eapply (runs_try _ _ _ (retirement_intent m, false)).
  { unfold unwrap_intent. destruct (retirement_intent s') as [i'|], (retirement_intent m) as [i|]; try done.
    destruct Hi as [Hi Hi']. eapply runs_try; [apply sealed_credential_unwrap; [done|by apply Oi]|]. rewrite Hi'. cbn. by destruct i. }
  cbn. rewrite Hs. unfold oko, mret, oio_ret. by destruct m.
Qed.
Lemma stored_moved tmp dest bytes s' o : paired_of bytes = Some s' → stored_at dest (o_files (moved_to tmp dest bytes o)) = Some (Some s').
Proof. intros Hb. unfold stored_at, moved_to. cbn. by rewrite lookup_insert_eq, Hb. Qed.

(** What saving makes of a pairing, over the pairing [p] that was on disk and
    the one [a] that was set aside: the pairing itself unchanged, marked opened
    if it was or if the same one was on disk, and with every handoff that is
    over: known as over before, of a pairing it replaces, or its own. *)
Definition same_pairing (p state : PairedState) : Prop :=
  setup_activation p = setup_activation state ∧ client_cert_pem <$> credential p = client_cert_pem <$> credential state.
Definition saved_as (p a : option PairedState) (state s : PairedState) : Prop :=
  credential s = credential state ∧ access_mutation_generation s = access_mutation_generation state ∧
  retirement_intent s = retirement_intent state ∧ setup_activation s = setup_activation state ∧
  (setup_browser_opened s = true ↔
     setup_browser_opened state = true ∨ ∃ q, p = Some q ∧ setup_browser_opened q = true ∧ same_pairing q state) ∧
  ∀ h, h ∈ retired_setup_handoffs s ↔
    h ∈ retired_setup_handoffs state ∨ h ∈ opt_over false p ∨ h ∈ opt_over true a ∨
    (∃ q, p = Some q ∧ h ∈ activation_ids q ∧ ¬ same_pairing q state) ∨ (h ∈ activation_ids state ∧ is_over false s = true).
Lemma absorb_kept archived m s :
  credential (absorb archived m s) = credential s ∧ access_mutation_generation (absorb archived m s) = access_mutation_generation s ∧
  retirement_intent (absorb archived m s) = retirement_intent s ∧ setup_activation (absorb archived m s) = setup_activation s ∧
  setup_browser_opened (absorb archived m s) = setup_browser_opened s ∧
  retired_setup_handoffs (absorb archived m s) = retired_setup_handoffs s ∪ opt_over archived m.
Proof. destruct m; cbn; split_and!; try done. set_solver. Qed.
Lemma retire_own_saved s :
  saved_as None None s (retire_own s) ∧ setup_browser_opened (retire_own s) = setup_browser_opened s.
Proof.
  assert (Ho : is_over false (retire_own s) = is_over false s) by (unfold retire_own; destruct (is_over false s) eqn:Hx; exact Hx).
  split; [|unfold retire_own; by destruct (is_over false s)].
  unfold saved_as. rewrite Ho. unfold retire_own. destruct (is_over false s); cbn; split_and!; try done;
    (split; [by left|intros [?|(q & ? & _)]; done]) || set_solver.
Qed.
Lemma settle_saved p a s s1 :
  credential s1 = credential s → access_mutation_generation s1 = access_mutation_generation s → retirement_intent s1 = retirement_intent s →
  setup_activation s1 = setup_activation s → setup_browser_opened s1 = setup_browser_opened s →
  retired_setup_handoffs s1 = retired_setup_handoffs s ∪ opt_over false p ∪ opt_over true a →
  saved_as p a s (retire_own (settle_previous p s1)).
Proof.
  intros K1 K2 K3 K4 K5 K6.
  destruct (retire_own_saved (settle_previous p s1)) as [(E1 & E2 & E3 & E4 & _ & E6) E5]. unfold saved_as. rewrite E1, E2, E3, E4, E5.
  setoid_rewrite E6. clear E1 E2 E3 E4 E5 E6.
  assert (Ha : ∀ x y, setup_activation x = setup_activation y → activation_ids x = activation_ids y) by (unfold activation_ids; by intros x y ->).
  destruct p as [q|]; cbn.
  - rewrite K4, K1. assert (Hs : same_pairing q s ↔ bool_decide (setup_activation q = setup_activation s) && bool_decide (client_cert_pem <$> credential q = client_cert_pem <$> credential s) = true).
    { unfold same_pairing. by rewrite andb_true_iff, !bool_decide_eq_true. }
    rewrite <- negb_andb. destruct (_ && _); cbn.
    + assert (Hq : same_pairing q s) by by apply Hs. destruct (setup_browser_opened q) eqn:Hq'; cbn; rewrite ?K1, ?K2, ?K3, ?K4, ?K5, ?K6.
      * split_and!; try done; [split; [intros _; right; by exists q|done]|]. intros h. rewrite (Ha (set_opened true s1) s) by done. set_solver.
      * split_and!; try done; [split; [by left|intros [?|(q' & [= <-] & ? & _)]; congruence]|]. intros h. rewrite (Ha s1 s) by done. set_solver.
    + assert (Hq : ¬ same_pairing q s) by (intros Hq; by apply Hs in Hq). rewrite ?K1, ?K2, ?K3, ?K4, ?K5, ?K6.
      split_and!; try done; [split; [by left|intros [?|(q' & [= <-] & _ & ?)]; done]|].
      intros h. rewrite (Ha (set_retired _ s1) s) by done.
      assert (Hr : (∃ q', Some q = Some q' ∧ h ∈ activation_ids q' ∧ ¬ same_pairing q' s) ↔ h ∈ activation_ids q).
      { split; [by intros (q' & [= <-] & ? & _)|intros ?; by exists q]. }
      rewrite Hr, !elem_of_union, elem_of_empty. clear. split; [|tauto]. intros [H|[[]|[[]|[(q' & [=] & _)|H]]]]; tauto.
  - rewrite ?K1, ?K2, ?K3, ?K4, ?K5, ?K6. split_and!; try done; [split; [by left|intros [?|(q' & ? & _)]; done]|].
    intros h. rewrite (Ha s1 s) by done. cbn. set_solver.
Qed.
Lemma merge_saved p a state : saved_as p a state (merge p a state).
Proof.
  destruct (absorb_kept false p state) as (E1 & E2 & E3 & E4 & E5 & E6). destruct (absorb_kept true a (absorb false p state)) as (F1 & F2 & F3 & F4 & F5 & F6).
  apply settle_saved; congruence.
Qed.

(** C22. A pairing that is saved loads back as it was, with the handoffs that are
    over added, when no call fails; and on disk the client key and the relay
    token are only ever wrapped by the system's protector. *)
Theorem saved_pairing_loads_back p a state o :
  metadata_at PAIRED_STATE_FILE_NAME (o_files o) = Some p → metadata_at refused_pairing_path (o_files o) = Some a →
  valid_setup_ids (retired_setup_handoffs (merge p a state)) = true → all_secrets secret_ok state →
  ∃ o' s, runs (save_inner state) o (Ok tt) o' ∧ runs load o' (Ok s) o' ∧ saved_as p a state s ∧
    ∃ s', stored_at PAIRED_STATE_FILE_NAME (o_files o') = Some (Some s') ∧
      all_secrets (λ x, starts_with CREDENTIAL_WRAP_MARKER x = true) s'.
Proof.
  intros Hp Ha Hv Hs. destruct (runs_save p a state o Hp Ha Hv Hs) as (s' & bytes & Hb & Hsl & Hr).
  exists (moved_to PAIRED_TMP PAIRED_STATE_FILE_NAME bytes o), (merge p a state).
  pose proof (stored_moved PAIRED_TMP PAIRED_STATE_FILE_NAME _ _ o Hb) as Hst.
  pose proof (all_secrets_merge _ p a _ Hs) as Hm. split_and!; [done| |apply merge_saved|].
  { exact (runs_load_open s' (merge p a state, false) _ Hst (sealed_opens_back _ _ _ Hsl Hm)). }
  exists s'. split; [done|]. destruct Hsl as (Hc & Hi & _).
  assert (Hmark : ∀ x y, sealed x y → starts_with CREDENTIAL_WRAP_MARKER y = true).
  { intros x y (blob & _ & ->). apply starts_with_spec. eauto. }
  assert (Heach : ∀ c c', sealed_credential c c' → each_secret (λ x, starts_with CREDENTIAL_WRAP_MARKER x = true) c').
  { intros c c' (Hk & Ht & _). split; [by eapply Hmark|]. intros t Hd. rewrite Hd in Ht. destruct (device_token c); [by eapply Hmark|done]. }
  split.
  - intros c' Hc'. rewrite Hc' in Hc. destruct (credential (merge p a state)); [by eapply Heach|done].
  - intros i' Hi'. rewrite Hi' in Hi. destruct (retirement_intent (merge p a state)); [|done]. destruct Hi as [Hi _]. by eapply Heach.
Qed.
End secrets.
