(* ===== verification/Retire.v ===== *)
(** * Retiring a rejected pairing (crates/pl-transport-win/src/retirement.rs)

    An owner who rejects a journal at its mark check makes this computer drop
    the pairing. The intent is saved first; the journal is asked to drop the
    client, the answer is recorded, and the pairing is cleared. A launch takes
    up a saved intent where it was left. [retire] stands for the request to
    the journal: [retire_credential] notes it in the log and returns what the
    network gave, which is an argument. *)
From Stdlib Require Import Ascii String.
From S2P Require Import Prelude RustStr PauseStore Model Ingest Transport OwnerFs Paired PairedLogic PairedSave PairedHistory Answer PairedOpen.

Local Open Scope list_scope.

Inductive ReconcileOutcome : Type := RNone | RCompleted | RSuperseded.
#[global] Instance ReconcileOutcome_eq_dec : EqDecision ReconcileOutcome.
Proof. solve_decision. Defined.

Definition RETIREMENT_SCHEMA : Z := 1.

(** [spl_core::ca::sha256_hex]: never an empty text. *)
Class RetireLib := { sha256_hex : string → string; sha256_hex_some x : sha256_hex x ≠ EmptyString }.

(** The request was not sent, or the journal or the timeout answered it. *)
Inductive Reply : Type := NotSent (e : TransportError) | Answered (r : result unit TransportError).

Section retire.
Context `{PairLib} `{RetireLib}.

Definition credential_cid (c : Credential) : result string TransportError :=
  match parse_certs (client_cert_pem c) with
  | Err e => Err e
  | Ok [] => Err TCredentialMalformed
  | Ok (cert :: _) => Ok ("sha256:" +:+ sha256_hex cert)
  end.

Definition retire_credential (reply : Reply) (c : Credential) (cid : string) : OIO (result unit TransportError) :=
  match reply with
  | NotSent e => erro e
  | Answered r => asked (AskedRetire (client_cert_pem c) cid);; mret r
  end.

(** [pid] and [nanos] are the process id and the clock, [None] before 1970. *)
Definition new_pair_rejection_intent (pid : Z) (nanos : option Z) (paired : PairedState) (c : Credential) : result RetirementIntent TransportError :=
  let owner := pairing_generation (client_cert_pem c) in
  match credential_cid c with
  | Err e => Err e
  | Ok cid =>
    match nanos with
    | None => Err TCredentialMalformed
    | Some nonce =>
      let op := sha256_hex (fmt_dec pid +:+ ":" +:+ hex_lower owner +:+ ":" +:+ fmt_dec nonce) in
      Ok (mkIntent RETIREMENT_SCHEMA op Prepared owner (access_mutation_generation paired) cid c)
    end
  end.

Definition validate_intent (intent : RetirementIntent) : OIO (result unit TransportError) :=
  paired ←! load;
  match credential paired with
  | None => erro TCredentialMalformed
  | Some incumbent =>
    if negb (ri_schema intent =? RETIREMENT_SCHEMA)%Z
       || is_empty (operation_id intent)
       || is_empty (client_id intent)
       || negb (String.eqb (pairing_generation (client_cert_pem (ri_credential intent))) (owner_generation intent))
       || negb (String.eqb (pairing_generation (client_cert_pem incumbent)) (owner_generation intent))
       || negb (ri_access_generation intent =? access_mutation_generation paired)%Z
    then erro TCredentialMalformed
    else
      match credential_cid incumbent with
      | Err e => erro e
      | Ok cid => if String.eqb cid (client_id intent) then oko tt else erro TCredentialMalformed
      end
  end.

Definition matches_owner_generation (intent : RetirementIntent) : OIO (result bool TransportError) :=
  state ←! load;
  oko (match retirement_intent state with
       | None => false
       | Some current =>
         String.eqb (operation_id current) (operation_id intent) &&
         String.eqb (owner_generation current) (owner_generation intent) &&
         (ri_schema current =? RETIREMENT_SCHEMA)%Z &&
         (ri_access_generation current =? ri_access_generation intent)%Z
       end &&
       match credential state with
       | None => false
       | Some c =>
         String.eqb (pairing_generation (client_cert_pem c)) (owner_generation intent) &&
         (access_mutation_generation state =? ri_access_generation intent)%Z
       end).

Definition set_phase_or_superseded (intent : RetirementIntent) (phase : RetirementPhase) : OIO (result bool TransportError) :=
  r ← update_retirement_phase (operation_id intent) (owner_generation intent) (ri_phase intent) phase;
  match r with
  | Ok _ => oko true
  | Err SCasMismatch =>
    same ←! matches_owner_generation intent;
    if same : bool then erro TReplayUnsafe else oko false
  | Err e => erro (transport_of e)
  end.

Definition clear_answer : OIO (result unit StorageError) :=
  _ ←! read_answer;
  write_answer default_answer.
Definition finish_rejection (intent : RetirementIntent) : OIO (result ReconcileOutcome TransportError) :=
  completed ←! map_err transport_of
    (finish_pair_rejection (operation_id intent) (owner_generation intent) (ri_access_generation intent) clear_answer);
  oko (if completed : bool then RCompleted else RSuperseded).

Section remote.
Context (retire : Credential → string → OIO (result unit TransportError)).

Definition reconcile_intent_with (intent : RetirementIntent) : OIO (result ReconcileOutcome TransportError) :=
  _ ←! validate_intent intent;
  if bool_decide (ri_phase intent = Succeeded) then finish_rejection intent
  else
    paired ←! load;
    match credential paired with
    | None => erro TCredentialMalformed
    | Some incumbent =>
      if negb (String.eqb (pairing_generation (client_cert_pem incumbent)) (owner_generation intent))
         || negb (access_mutation_generation paired =? ri_access_generation intent)%Z
      then oko RSuperseded
      else
        r ← retire incumbent (client_id intent);
        let phase := match r with Ok _ => Succeeded | Err _ => PhaseUnknown end in
        kept ←! set_phase_or_superseded intent phase;
        if negb kept then oko RSuperseded
        else finish_rejection (set_phase phase intent)
    end.

Definition reconcile_with : OIO (result ReconcileOutcome TransportError) :=
  paired ←! load;
  match retirement_intent paired with
  | None => oko RNone
  | Some intent => reconcile_intent_with intent
  end.

Definition stage_legacy_rejection (pid : Z) (nanos : option Z) : OIO (result unit TransportError) :=
  a ←! map_err transport_of read_answer;
  match a with
  | None => oko tt
  | Some answer =>
    if is_empty (rejected answer) then oko tt
    else
      paired ←! load;
      if bool_decide (is_Some (retirement_intent paired)) then oko tt
      else
        match credential paired with
        | None => map_err transport_of (write_answer (mkAnswer (confirmed answer) EmptyString))
        | Some c =>
          if negb (String.eqb (rejected answer) (binding_of c))
          then map_err transport_of (write_answer (mkAnswer (confirmed answer) EmptyString))
          else
            match new_pair_rejection_intent pid nanos paired c with
            | Err e => erro e
            | Ok intent =>
              map_err transport_of
                (install_pair_rejection_intent (owner_generation intent) (ri_access_generation intent) intent)
            end
        end
  end.

Definition reconcile_on_launch_with (pid : Z) (nanos : option Z) : OIO (result ReconcileOutcome TransportError) :=
  _ ←! stage_legacy_rejection pid nanos;
  reconcile_with.

Definition reject_pair_with (pid : Z) (nanos : option Z) (binding : string) (before_retire : OIO (result unit TransportError))
    : OIO (result ReconcileOutcome TransportError) :=
  paired ←! load;
  match credential paired with
  | None => erro TNotPaired
  | Some c =>
    if negb (String.eqb (binding_of c) binding) then oko RSuperseded
    else
      match new_pair_rejection_intent pid nanos paired c with
      | Err e => erro e
      | Ok intent =>
        _ ←! map_err transport_of (install_pair_rejection_intent (owner_generation intent) (ri_access_generation intent) intent);
        _ ←! before_retire;
        reconcile_intent_with intent
      end
  end.
End remote.
End retire.
