(* ===== verification/RetireLogic.v ===== *)
(** * A rejection on disk, and what each step of it leaves there

    [at_stage i ids stage f]: the files [f] hold the rejection [i], with the
    journal still to be asked, with its consent recorded, or carried out; the
    handoffs [ids] are over. *)
From Stdlib Require Import Ascii String.
From S2P Require Import Prelude RustStr PauseStore Model Ingest Transport OwnerFs Paired PairedLogic PairedSave PairedHistory Answer PairedOpen Retire.

Local Open Scope list_scope.

(** ** Steps that leave the pairing alone *)

Definition answer_ok (f : gmap string string) : Prop :=
  match f !! answer_path with None => True | Some b => ∃ a, parse_answer b = Some (Ok a) end.

Definition keeps (o o' : Owned) : Prop :=
  o_log o' = o_log o ∧
  o_files o' !! PAIRED_STATE_FILE_NAME = o_files o !! PAIRED_STATE_FILE_NAME ∧
  o_files o' !! refused_pairing_path = o_files o !! refused_pairing_path ∧
  (answer_ok (o_files o) → answer_ok (o_files o')).

Lemma keeps_refl o : keeps o o.
Proof. done. Qed.
Lemma keeps_trans o1 o2 o3 : keeps o1 o2 → keeps o2 o3 → keeps o1 o3.
Proof. intros (Hl & Hp & Hr & Ha) (Hl' & Hp' & Hr' & Ha'). split_and!; try congruence. auto. Qed.
Lemma keeps_same_but names o o' :
  same_but names o o' → PAIRED_STATE_FILE_NAME ∉ names → refused_pairing_path ∉ names → answer_path ∉ names → keeps o o'.
Proof.
  intros [Hl Hf] Hp Hr Ha. split_and!; [done|by apply Hf..|]. unfold answer_ok. by rewrite (Hf answer_path).
Qed.
Lemma keeps_evidence o o' : same_but EVIDENCE_FILES o o' → keeps o o'.
Proof. intros Hs. by eapply keeps_same_but; [done|set_solver..]. Qed.
Lemma keeps_unsaved o o' : Unsaved o o' → keeps o o'.
Proof.
  intros [[Hl Hf] Hd]. split_and!; [done..|apply Hf; set_solver|]. unfold answer_ok. by rewrite (Hf answer_path) by set_solver.
Qed.
(** The answer file is as it was, or holds [a]. *)
Definition answer_put (a : AnswerState) (o o' : Owned) : Prop :=
  same_but [ANSWER_TMP; answer_path] o o' ∧
  (o_files o' !! answer_path = o_files o !! answer_path ∨ ∃ b, encode_answer a = Ok b ∧ o_files o' !! answer_path = Some b).
Lemma keeps_answer o o' a : answer_put a o o' → keeps o o'.
Proof.
  intros [[Hl Hf] Hd]. split_and!; [done|apply Hf; set_solver..|]. unfold answer_ok.
  destruct Hd as [->|(b & Hb & ->)]; [done|]. apply parse_encode in Hb. by eauto.
Qed.

Lemma peeks_read_answer : peeks read_answer (λ _ _, True).
Proof.
  unfold read_answer. eapply peeks_bind; [apply peeks_read|]. intros [b|[]]; [|by apply peeks_ret..].
  destruct (parse_answer b) as [[a|e]|]; by apply peeks_ret || by intros w.
Qed.

Lemma oht_write_answer_put a o : oht (λ o', o' = o) (write_answer a) (λ _, answer_put a o) (answer_put a o).
Proof.
  assert (Hrefl : answer_put a o o) by (split; [apply same_but_refl|by left]).
  unfold write_answer. destruct (encode_answer a) as [bytes|e] eqn:He; [|apply oht_ret; by intros ? ->].
  assert (Hm : ∀ o', maybe_put ANSWER_TMP answer_path bytes o o' → answer_put a o o').
  { intros o' [Hs [Hd|Hd]]; (split; [done|]); [by left|right; by exists bytes]. }
  assert (Hs : ∀ o', staged_only ANSWER_TMP o o' → answer_put a o o') by (intros o' Ho; by apply Hm, not_maybe, staged_not_put).
  eapply (oht_try _ _ _ (λ _ o', o' = o)).
  { eapply oht_map_err; [apply (oht_quiet_call (λ o', o' = o))|done|done]. by intros ? ->. }
  2: by intros e o' ->.
  intros u. eapply oht_try; [eapply oht_weaken; [apply (oht_stage ANSWER_TMP bytes SWriteFailed o)| |intros r o' Hr; exact Hr|exact Hs]| |].
  - intros o' ->. apply same_but_refl.
  - intros u'. cbn. eapply (oht_try _ _ _ (λ r o', (staged_only ANSWER_TMP o o' ∧ o_files o' !! ANSWER_TMP = Some bytes))).
    + eapply oht_map_err; [apply oht_read; intros o' [? _]; by apply Hs|by intros ? ? [? _]..].
    + intros staged. destruct (negb _); [apply oht_ret; intros o' [? _]; by apply Hs|].
      eapply (oht_try _ _ _ (λ _ o', maybe_put ANSWER_TMP answer_path bytes o o')).
      * eapply oht_weaken; [by apply (oht_publish ANSWER_TMP answer_path bytes) with (o := o)|by intros o' Ho| |exact Hm].
        intros [|[]] o' Hr; cbn in Hr; try done; [by apply has_maybe|by apply not_maybe..].
      * intros v. eapply (oht_try _ _ _ (λ _ o', answer_put a o o')); [|intros p; destruct (negb _); by apply oht_ret|done].
        eapply oht_map_err; [apply oht_read; intros o' Ho; by apply Hm|intros ? o' [Ho _]; by apply Hm..].
      * intros e o' Ho. by apply Hm.
    + intros e o' [? _]. by apply Hs.
  - intros e o' [? _]. by apply Hs.
Qed.

Lemma oht_write_answer a o : oht (λ o', o' = o) (write_answer a) (λ _, keeps o) (keeps o).
Proof.
  eapply oht_weaken; [apply (oht_write_answer_put a o)|done|intros r o' Ho; exact (keeps_answer _ _ _ Ho)|intros o' Ho; exact (keeps_answer _ _ _ Ho)].
Qed.

Lemma oht_clear_answer o : oht (λ o', o' = o) clear_answer (λ _, keeps o) (keeps o).
Proof.
  unfold clear_answer. eapply (oht_try _ _ _ (λ _ o', o' = o)).
  - eapply oht_weaken; [apply (oht_peeks _ _ (λ o', o' = o) (λ o', o' = o) peeks_read_answer)|done|by intros ? ? [? _]|]; [done|by intros ? ->].
  - intros a. apply oht_write_answer.
  - by intros e o' ->.
Qed.

Section stages.
Context `{PairLib} `{!PairLaws} `{RetireLib}.

(** The same rejection, whatever was recorded about the journal's answer. *)
Definition same_rejection (i i' : RetirementIntent) : Prop :=
  ri_schema i' = ri_schema i ∧ operation_id i' = operation_id i ∧ owner_generation i' = owner_generation i ∧
  ri_access_generation i' = ri_access_generation i ∧ client_id i' = client_id i ∧
  client_cert_pem (ri_credential i') = client_cert_pem (ri_credential i).

(** An intent that is in order, for the certificate [client_cert_pem (ri_credential i)]. *)
Definition intent_ok (i : RetirementIntent) : Prop :=
  ri_schema i = 1%Z ∧ operation_id i ≠ EmptyString ∧
  owner_generation i = pairing_generation (client_cert_pem (ri_credential i)) ∧
  credential_cid (ri_credential i) = Ok (client_id i).

Inductive Stage : Type := Asking | Settled | Finished.
#[global] Instance Stage_eq_dec : EqDecision Stage.
Proof. solve_decision. Defined.
Definition stage_of (p : RetirementPhase) : Stage := match p with Succeeded => Settled | _ => Asking end.
Definition stage_rank (s : Stage) : nat := match s with Asking => 0 | Settled => 1 | Finished => 2 end.

(** [s] is a state, sealed or not, in which the rejection [i] is at [stage]. *)
Definition in_stage (i : RetirementIntent) (stage : Stage) (s : PairedState) : Prop :=
  match stage with
  | Finished => credential s = None ∧ retirement_intent s = None ∧
      access_mutation_generation s = wrap_u64 (ri_access_generation i + 1)
  | _ => ∃ c i', credential s = Some c ∧ retirement_intent s = Some i' ∧ same_rejection i i' ∧ stage_of (ri_phase i') = stage ∧
      client_cert_pem c = client_cert_pem (ri_credential i) ∧ access_mutation_generation s = ri_access_generation i
  end.

Definition at_stage (i : RetirementIntent) (ids : gset string) (stage : Stage) (f : gmap string string) : Prop :=
  ∃ s, stored_at PAIRED_STATE_FILE_NAME f = Some (Some s) ∧ in_stage i stage s ∧ all_secrets openable s ∧
    history f = Some ids ∧ activation_ids s ⊆ ids ∧ answer_ok f.

Lemma at_stage_keeps i ids stage o o' : at_stage i ids stage (o_files o) → keeps o o' → at_stage i ids stage (o_files o').
Proof.
  intros (s & Hs & Hi & Ho & Hh & Hsub & Ha) (_ & Hp & Hr & Hk). exists s. split_and!; auto.
  - unfold stored_at in *. by rewrite Hp.
  - by rewrite (history_same _ _ Hp Hr).
Qed.

(** Sealing does not change the stage. *)
Lemma bare_fields s s' : bare s = bare s' →
  bare_credential <$> credential s = bare_credential <$> credential s' ∧
  (λ i, set_intent_credential (bare_credential (ri_credential i)) i) <$> retirement_intent s =
  (λ i, set_intent_credential (bare_credential (ri_credential i)) i) <$> retirement_intent s' ∧
  access_mutation_generation s = access_mutation_generation s' ∧ setup_activation s = setup_activation s' ∧
  setup_browser_opened s = setup_browser_opened s' ∧ retired_setup_handoffs s = retired_setup_handoffs s' ∧
  setup_history_unavailable s = setup_history_unavailable s'.
Proof. destruct s, s'. unfold bare, set_intent, set_credential. cbn. intros [= ? ? ? ? ? ? ?]. by split_and!. Qed.
Lemma bare_cert c c' : bare_credential c = bare_credential c' → client_cert_pem c = client_cert_pem c'.
Proof. destruct c, c'. unfold bare_credential, set_token, set_key. cbn. by intros [= ]. Qed.
Lemma same_trans i1 i2 i3 : same_rejection i1 i2 → same_rejection i2 i3 → same_rejection i1 i3.
Proof. unfold same_rejection. intros (-> & -> & -> & -> & -> & ->). done. Qed.
Lemma bare_rejection i i' :
  set_intent_credential (bare_credential (ri_credential i)) i = set_intent_credential (bare_credential (ri_credential i')) i' →
  same_rejection i' i ∧ ri_phase i = ri_phase i'.
Proof.
  destruct i, i'. unfold set_intent_credential, same_rejection. cbn. intros [= -> -> -> -> -> -> Hc].
  split_and!; try done; by destruct ri_credential, ri_credential0.
Qed.
Lemma bare_in_stage i stage s s' : bare s = bare s' → in_stage i stage s' → in_stage i stage s.
Proof.
  intros Hb Hi. destruct (bare_fields _ _ Hb) as (Hc & Hin & Hg & _).
  assert (Hmid : ∀ st, (∃ c i', credential s' = Some c ∧ retirement_intent s' = Some i' ∧ same_rejection i i' ∧ stage_of (ri_phase i') = st ∧
      client_cert_pem c = client_cert_pem (ri_credential i) ∧ access_mutation_generation s' = ri_access_generation i) →
    ∃ c i', credential s = Some c ∧ retirement_intent s = Some i' ∧ same_rejection i i' ∧ stage_of (ri_phase i') = st ∧
      client_cert_pem c = client_cert_pem (ri_credential i) ∧ access_mutation_generation s = ri_access_generation i).
  { intros st (c' & i' & Hc' & Hi' & Hsame & Hst & Hcert & Ha). rewrite Hc' in Hc. rewrite Hi' in Hin.
    destruct (credential s) as [c|]; [|done]. destruct (retirement_intent s) as [i0|]; [|done]. cbn in Hc, Hin.
    apply (inj Some) in Hc, Hin. apply bare_cert in Hc. apply bare_rejection in Hin as [Hi0 Hp].
    exists c, i0. split_and!; try done; [by eapply same_trans|congruence..]. }
  destruct stage; cbn in *; [by apply Hmid..|]. destruct Hi as (Hn & Hni & Ha).
  rewrite Hn in Hc. rewrite Hni in Hin. destruct (credential s), (retirement_intent s); try done. by rewrite Hg.
Qed.

(** ** A save over a rejection *)

Lemma merge_same p a s :
  credential (merge p a s) = credential s ∧ retirement_intent (merge p a s) = retirement_intent s ∧
  access_mutation_generation (merge p a s) = access_mutation_generation s ∧ setup_activation (merge p a s) = setup_activation s.
Proof.
  unfold merge, retire_own, settle_previous, absorb. cbv zeta. destruct p, a; cbn;
    repeat match goal with |- context [if ?b then _ else _] => destruct b; cbn end; done.
Qed.
Lemma merge_in_stage i stage p a s : in_stage i stage s → in_stage i stage (merge p a s).
Proof. destruct (merge_same p a s) as (Hc & Hi & Ha & _). unfold in_stage. by rewrite Hc, Hi, Ha. Qed.

Lemma settle_same p s :
  credential (settle_previous p s) = credential s ∧ retirement_intent (settle_previous p s) = retirement_intent s ∧
  setup_activation (settle_previous p s) = setup_activation s ∧
  (setup_browser_opened s = true → setup_browser_opened (settle_previous p s) = true) ∧
  retired_setup_handoffs (settle_previous p s) ⊆ retired_setup_handoffs s ∪ from_option activation_ids ∅ p.
Proof.
  destruct p as [p|]; [|split_and!; set_solver]. unfold settle_previous. cbv zeta.
  destruct (_ && _ && _), (negb _ || negb _); cbn; split_and!; set_solver.
Qed.
Lemma absorb_same b m s :
  credential (absorb b m s) = credential s ∧ retirement_intent (absorb b m s) = retirement_intent s ∧
  setup_activation (absorb b m s) = setup_activation s ∧ setup_browser_opened (absorb b m s) = setup_browser_opened s.
Proof. by destruct m. Qed.

(** What is retired once a state that is over is saved over [s']. *)
Lemma merge_retired s' a st :
  retired_setup_handoffs st = retired_setup_handoffs s' → setup_activation st = setup_activation s' → is_over false st = true →
  retired_setup_handoffs (merge (Some s') a st) = opt_over false (Some s') ∪ opt_over true a ∪ activation_ids s'.
Proof.
  intros Hr Hact Ho. unfold merge. set (s1 := absorb true a (absorb false (Some s') st)).
  assert (Hr1 : retired_setup_handoffs s1 = opt_over false (Some s') ∪ opt_over true a).
  { unfold s1. rewrite !absorb_over, Hr. cbn. unfold over_ids. set_solver. }
  destruct (settle_same (Some s') s1) as (Hc & Hi & Ha & Hb & Hsub). pose proof (settle_grows (Some s') s1) as Hg.
  destruct (absorb_same true a (absorb false (Some s') st)) as (Hc1 & Hi1 & Ha1 & Hb1).
  destruct (absorb_same false (Some s') st) as (Hc2 & Hi2 & Ha2 & Hb2). fold s1 in Hc1, Hi1, Ha1, Hb1.
  set (s2 := settle_previous (Some s') s1) in *.
  assert (Hover : is_over false s2 = true).
  { unfold is_over in *. rewrite Hc, Hc1, Hc2, Hi, Hi1, Hi2. cbn [orb] in *. apply orb_true_iff in Ho as [[Ho|Ho]%orb_true_iff|Ho].
    - rewrite Hb; [done|]. by rewrite Hb1, Hb2.
    - by rewrite Ho, orb_true_r.
    - by rewrite Ho, orb_true_r. }
  assert (activation_ids s2 = activation_ids s') as Hid by (unfold activation_ids; by rewrite Ha, Ha1, Ha2, Hact).
  clearbody s2. unfold retire_own. rewrite Hover. cbn. rewrite Hid.
  cbn in Hsub. rewrite Hr1 in Hsub, Hg. cbn [opt_over] in *. set_solver.
Qed.

Lemma saved_over s' st o o' ids :
  stored_at PAIRED_STATE_FILE_NAME (o_files o) = Some (Some s') → history (o_files o) = Some ids →
  retired_setup_handoffs st = retired_setup_handoffs s' → setup_activation st = setup_activation s' →
  setup_history_unavailable st = setup_history_unavailable s' → is_over false st = true → Saved o st o' →
  ∃ m s'', sealed_state m s'' ∧ (∃ a, m = merge (Some s') a st) ∧ stored_at PAIRED_STATE_FILE_NAME (o_files o') = Some (Some s'') ∧
    history (o_files o') = Some (ids ∪ activation_ids s') ∧ setup_activation s'' = setup_activation s' ∧
    o_log o' = o_log o ∧ o_files o' !! answer_path = o_files o !! answer_path.
Proof.
  intros Hst Hh Hr Hact Hu Hover (bytes & s'' & Hb & (p & a & Hp & Ha & Hv & Hsl) & [[Hl Hf] Hd]).
  apply history_Some in Hh as (p0 & a0 & Hmp & Hma & Hup & Hua & -> & Hvi).
  assert (p0 = Some s') as ->.
  { unfold metadata_at in Hmp. rewrite Hst in Hmp. destruct (valid_setup_ids _); [|done]. by injection Hmp. }
  cbn in Hup. rewrite <- Hu in Hup. destruct Hp as [Hp|[Hp _]]; [|congruence]. rewrite Hmp in Hp. injection Hp as <-.
  destruct Ha as [Ha|[Ha _]]; [|rewrite absorb_unavailable, Hup in Ha; cbn in Ha; congruence]. rewrite Hma in Ha. injection Ha as <-.
  pose proof (merge_retired s' a0 st Hr Hact Hover) as Hm. rewrite Hm in Hv.
  assert (Hret : retired_setup_handoffs s'' = retired_setup_handoffs (merge (Some s') a0 st)).
  { destruct Hsl as (_ & _ & ->). done. }
  assert (Hac : setup_activation s'' = setup_activation s').
  { destruct Hsl as (_ & _ & ->). destruct (merge_same (Some s') a0 st) as (_ & _ & _ & Hx). cbn. by rewrite Hx. }
  assert (Hun : setup_history_unavailable s'' = false).
  { destruct Hsl as (_ & _ & ->). cbn. rewrite merge_unavailable, Hup, Hua. cbn. by rewrite <- Hu, Hup. }
  exists (merge (Some s') a0 st), s''. split_and!; try done; [by eauto|by unfold stored_at; rewrite Hd, Hb| |apply Hf; set_solver].
  assert (Hids : opt_over false (Some s'') ∪ opt_over true a0 = opt_over false (Some s') ∪ opt_over true a0 ∪ activation_ids s').
  { assert (activation_ids s'' = activation_ids s') as Hid by (unfold activation_ids; by rewrite Hac).
    cbn. unfold over_ids at 1. rewrite Hret, Hm, Hid. cbn.
    destruct (is_over false s''); set_solver. }
  rewrite <- Hids. apply history_of; try done.
  - rewrite (metadata_put _ _ _ _ Hd Hb), Hret, Hm, Hv. done.
  - rewrite (metadata_same _ (o_files o)); [done|]. apply Hf. set_solver.
  - by rewrite Hids.
Qed.

(** A state of the rejection, saved over it, is a stage of it on disk. *)
Lemma saved_stage i ids stage s' st o o' :
  stored_at PAIRED_STATE_FILE_NAME (o_files o) = Some (Some s') → history (o_files o) = Some ids → answer_ok (o_files o) →
  retired_setup_handoffs st = retired_setup_handoffs s' → setup_activation st = setup_activation s' →
  setup_history_unavailable st = setup_history_unavailable s' → in_stage i stage st → all_secrets secret_ok st →
  Saved o st o' → at_stage i (ids ∪ activation_ids s') stage (o_files o') ∧ o_log o' = o_log o.
Proof.
  intros Hst Hh Hans Hr Hact Hu Hin Hsec Hsv.
  assert (Hover : is_over false st = true).
  { unfold is_over. destruct stage; cbn in Hin; [destruct Hin as (? & ? & _ & -> & _)|destruct Hin as (? & ? & _ & -> & _)|destruct Hin as (-> & _)];
      rewrite ?orb_true_r; done. }
  destruct (saved_over s' st o o' ids) as (m & s'' & Hsl & [a ->] & Hst' & Hh' & Hac & Hl & Ha); try done.
  split; [|done]. exists s''. split_and!; try done.
  - eapply bare_in_stage; [by apply sealed_bare|by apply merge_in_stage].
  - eapply sealed_state_openable; [done|by apply all_secrets_merge].
  - unfold activation_ids. rewrite Hac. set_solver.
  - unfold answer_ok. by rewrite Ha.
Qed.
End stages.
