(* ===== verification/RetireSteps.v ===== *)
(** * A rejection under failures

    Whatever calls fail and wherever the process stops, each operation of the
    retirement leaves the rejection at the stage it found it or at a later
    one, and asks the journal only while its consent is not on record. *)
From Stdlib Require Import Ascii String.
From S2P Require Import Prelude RustStr PauseStore Model Ingest Transport OwnerFs Paired PairedLogic PairedSave PairedHistory Answer PairedOpen Retire RetireLogic.

Local Open Scope nat_scope.
Local Open Scope list_scope.

Section steps.
Context `{PairLib} `{!PairLaws} `{RetireLib}.
Context (i : RetirementIntent) (ids : gset string).

(** What is asked of the journal for this rejection. *)
Definition ask : Asked := AskedRetire (client_cert_pem (ri_credential i)) (client_id i).

(** From stage [x] at [o]: a stage no earlier, after at most [k] requests. *)
Definition after (x : Stage) (k : nat) (o o' : Owned) : Prop :=
  ∃ y n, stage_rank x ≤ stage_rank y ∧ at_stage i ids y (o_files o') ∧ o_log o' = o_log o ++ replicate n ask ∧ n ≤ k ∧
    (x ≠ Asking → n = 0).

Lemma after_stage x y k o o' : stage_rank x ≤ stage_rank y → at_stage i ids y (o_files o') → o_log o' = o_log o → after x k o o'.
Proof. intros Hxy Hs Hl. exists y, 0. rewrite Hl, app_nil_r. split_and!; (done || lia). Qed.
Lemma after_keeps x k o o' : at_stage i ids x (o_files o) → keeps o o' → after x k o o'.
Proof. intros Hs Hk. apply (after_stage x x); [done|by eapply at_stage_keeps|apply Hk]. Qed.
Lemma after_trans x y k1 k2 o1 o2 o3 n :
  stage_rank x ≤ stage_rank y → o_log o2 = o_log o1 ++ replicate n ask → n ≤ k1 → (x ≠ Asking → n = 0) →
  after y k2 o2 o3 → after x (k1 + k2) o1 o3.
Proof.
  intros Hxy Hl Hn Hx (z & m & Hyz & Hs & Hl' & Hm & Hy). exists z, (n + m).
  rewrite replicate_add, Hl', Hl, app_assoc. split_and!; try (done || lia).
  intros Hxa. rewrite Hx, Hy by (done || (intros ->; destruct x; cbn in *; (done || lia))). done.
Qed.

Definition stays_at {A} (x : Stage) (k : nat) (m : OIO A) : Prop :=
  ∀ o, at_stage i ids x (o_files o) → oht (λ o', o' = o) m (λ _ o', after x k o o') (λ o', after x k o o').
Definition stays {A} (k : nat) (m : OIO A) : Prop := ∀ x, stays_at x k m.

Lemma stays_ret {A} x k (a : A) : stays_at x k (mret a).
Proof. intros o Hs. apply oht_ret. intros o' ->. by apply after_keeps. Qed.
Lemma stays_bind {A B} x k1 k2 (m : OIO A) (f : A → OIO B) :
  stays_at x k1 m → (∀ a, stays k2 (f a)) → stays_at x (k1 + k2) (m ≫= f).
Proof.
  intros Hm Hf o Hs. eapply (oht_bind _ _ _ (λ _ o', after x k1 o o')).
  - eapply oht_weaken; [by apply Hm|done|done|]. intros o' (y & n & Hxy & Hy & Hl & Hn & Hx).
    eapply (after_trans x y); try done. by apply after_keeps.
  - intros a. apply oht_at. intros o1 (y & n & Hxy & Hy & Hl & Hn & Hx).
    eapply oht_weaken; [by apply (Hf a y o1)|done|..]; intros; by eapply (after_trans x y).
Qed.
Lemma stays_try {A B E} x k1 k2 (m : OIO (result A E)) (f : A → OIO (result B E)) :
  stays_at x k1 m → (∀ a, stays k2 (f a)) → stays_at x (k1 + k2) (tryo m f).
Proof. intros Hm Hf. apply stays_bind; [done|]. intros [a|e] y; [apply Hf|apply stays_ret]. Qed.
Lemma stays_more {A} x k k' (m : OIO A) : stays_at x k m → stays_at x (k + k') m.
Proof.
  intros Hm o Hs. assert (Hle : ∀ o', after x k o o' → after x (k + k') o o').
  { intros o' (y & n & ? & ? & ? & ? & ?). exists y, n. split_and!; (done || lia). }
  eapply oht_weaken; [by apply Hm|done|..]; auto.
Qed.
Lemma stays_map_err {A E F} x k (f : E → F) (m : OIO (result A E)) : stays_at x k m → stays_at x k (map_err f m).
Proof. intros Hm. replace k with (k + 0) by lia. apply stays_bind; [done|]. intros a y. apply stays_ret. Qed.
Lemma stays_keeps {A} x k (m : OIO A) : (∀ o, oht (λ o', o' = o) m (λ _, keeps o) (keeps o)) → stays_at x k m.
Proof. intros Hm o Hs. eapply oht_weaken; [apply (Hm o)|done|..]; intros; by apply after_keeps. Qed.
Lemma stays_peeks {A} x k (m : OIO A) : peeks m (λ _ _, True) → stays_at x k m.
Proof.
  intros Hm. apply stays_keeps. intros o. eapply oht_weaken; [apply (oht_peeks _ _ (λ o', o' = o) (λ o', o' = o) Hm); done|done|..].
  - by intros a o' [-> _].
  - by intros o' ->.
Qed.

(** Loading gives the state of the stage. *)
Definition loads (o : Owned) (s : PairedState) : Prop :=
  ∀ x, at_stage i ids x (o_files o) →
    in_stage i x s ∧ all_secrets secret_ok s ∧
    ∃ s', stored_at PAIRED_STATE_FILE_NAME (o_files o) = Some (Some s') ∧ bare s = bare s'.
Lemma reads_loads : reads load loads.
Proof.
  eapply oreads_weaken; [apply oreads_both; [apply oreads_load|apply oreads_load_ok]|]. cbn.
  intros o s [Hl Ho] x (s' & Hs & Hin & Hop & _). unfold loaded in Hl. rewrite Hs in Hl. split_and!.
  - by eapply bare_in_stage.
  - apply Ho. intros s0 Hs0. rewrite Hs in Hs0. by injection Hs0 as <-.
  - eauto.
Qed.
Lemma stays_load {B E} x k (m : OIO (result PairedState E)) (f : PairedState → OIO (result B E)) :
  reads m loads →
  (∀ s o, at_stage i ids x (o_files o) → loads o s → oht (λ o', o' = o) (f s) (λ _ o', after x k o o') (λ o', after x k o o')) →
  stays_at x k (tryo m f).
Proof.
  intros Hm Hf o Hs. eapply oht_try; [eapply oht_weaken; [apply (Hm o)|done|intros r o' Hr; exact Hr|]| |].
  - intros o' He. by apply after_keeps, keeps_evidence.
  - intros s. cbn. eapply oht_pre; [apply (oht_fix _ (loads o s) o)|by intros ? [-> ?]]. intros Hl. by apply Hf.
  - intros e o' He. by apply after_keeps, keeps_evidence.
Qed.

(** Saving a state of a stage that is no earlier. *)
Lemma stays_save x y k s st o :
  at_stage i ids x (o_files o) → loads o s → stage_rank x ≤ stage_rank y → in_stage i y st → all_secrets secret_ok st →
  retired_setup_handoffs st = retired_setup_handoffs s → setup_activation st = setup_activation s →
  setup_history_unavailable st = setup_history_unavailable s →
  oht (λ o', o' = o) (save_inner st) (λ _ o', after x k o o') (λ o', after x k o o').
Proof.
  intros Hs Hl Hxy Hin Hsec Hr Ha Hu. destruct (Hl x Hs) as (_ & _ & s' & Hst & Hb).
  destruct (bare_fields _ _ Hb) as (_ & _ & _ & Hba & _ & Hbr & Hbu).
  assert (Hsaved : ∀ o', Saved o st o' → after x k o o').
  { intros o' Hsv. destruct Hs as (s0 & Hs0 & _ & _ & Hh & Hsub & Hans). rewrite Hst in Hs0. injection Hs0 as <-.
    destruct (saved_stage i ids y s' st o o') as [Hy Hlog]; try congruence.
    replace (ids ∪ activation_ids s') with ids in Hy by set_solver. by apply (after_stage x y). }
  assert (Hun : ∀ o', Unsaved o o' → after x k o o') by (intros; by apply after_keeps, keeps_unsaved).
  eapply oht_weaken; [apply (oht_save_inner st o)|done|..].
  - intros [u|[]] o' Hr'; cbn in Hr'; try (by apply Hun); [by apply Hsaved|]. destruct Hr'; auto.
  - intros o' [?|?]; auto.
Qed.

Lemma in_stage_secrets x s c i' :
  in_stage i x s → all_secrets secret_ok s → credential s = Some c → retirement_intent s = Some i' →
  ∀ p, all_secrets secret_ok (set_intent (Some (set_phase p i')) s).
Proof. intros _ [Hc Hi] Hsc Hsi p. split; cbn; [done|]. intros i0 [= <-]. cbn. by apply Hi. Qed.

Lemma stays_phase op owner expected phase : expected ≠ Succeeded → stays 0 (update_retirement_phase op owner expected phase).
Proof.
  intros Hne x. apply stays_load; [apply oreads_map_err, reads_loads|]. intros s o Hs Hl.
  assert (Hret : ∀ r : result unit StorageError, oht (λ o', o' = o) (mret r) (λ _ o', after x 0 o o') (λ o', after x 0 o o'))
    by (intros; by apply stays_ret).
  destruct (retirement_intent s) as [i'|] eqn:Hi'; [|apply Hret]. cbv zeta. destruct (_ || _) eqn:Hg; [apply Hret|].
  rewrite !orb_false_iff, !negb_false_iff, !bool_decide_eq_true in Hg. destruct Hg as [_ Hp].
  destruct (Hl x Hs) as (Hin & Hsec & _).
  destruct x; cbn in Hin; [| |by destruct Hin as (_ & ? & _); congruence].
  - destruct Hin as (c & i0 & Hc & Hi0 & Hsame & _ & Hcert & Hacc). rewrite Hi' in Hi0. injection Hi0 as <-.
    eapply (stays_save Asking (stage_of phase) 0 s); try done; [cbn; lia| |].
    + assert (Hmid : ∃ c0 i0, credential (set_intent (Some (set_phase phase i')) s) = Some c0 ∧
        retirement_intent (set_intent (Some (set_phase phase i')) s) = Some i0 ∧ same_rejection i i0 ∧ stage_of (ri_phase i0) = stage_of phase ∧
        client_cert_pem c0 = client_cert_pem (ri_credential i) ∧
        access_mutation_generation (set_intent (Some (set_phase phase i')) s) = ri_access_generation i).
      { exists c, (set_phase phase i'). split_and!; done. }
      by destruct phase.
    + split; cbn; [apply Hsec|]. intros i0 [= <-]. cbn. by apply Hsec.
  - destruct Hin as (c & i0 & _ & Hi0 & _ & Hst & _). rewrite Hi' in Hi0. injection Hi0 as <-.
    destruct (ri_phase i'); simplify_eq/=.
Qed.

Lemma stays_set_phase intent phase : ri_phase intent ≠ Succeeded → stays 0 (set_phase_or_superseded intent phase).
Proof.
  intros Hne x. apply (stays_bind x 0 0); [by apply stays_phase|]. intros [u|e] y; [apply stays_ret|].
  destruct e; try apply stays_ret. apply (stays_try y 0 0).
  - apply stays_load; [apply reads_loads|]. intros s o Hs _. by apply stays_ret.
  - intros [] z; apply stays_ret.
Qed.

Lemma stays_finish intent : stays 0 (finish_rejection intent).
Proof.
  intros x. apply (stays_try x 0 0); [|intros [] y; apply stays_ret]. apply stays_map_err. unfold finish_pair_rejection.
  apply stays_load; [apply oreads_map_err, reads_loads|]. intros s o Hs Hl.
  assert (Hret : ∀ r : result bool StorageError, oht (λ o', o' = o) (mret r) (λ _ o', after x 0 o o') (λ o', after x 0 o o'))
    by (intros; by apply stays_ret).
  destruct (retirement_intent s) as [i'|] eqn:Hi'; [|apply Hret]. destruct (_ || _) eqn:Hg; [apply Hret|].
  destruct (Hl x Hs) as (Hin & Hsec & _).
  eapply (oht_try _ _ _ (λ _ o', keeps o o')); [eapply oht_weaken; [apply (oht_clear_answer o)|done|done|]; intros o' Hk; by apply after_keeps| |].
  2: intros e o' Hk; by apply after_keeps.
  intros u. apply oht_at. intros o1 Hk. pose proof (at_stage_keeps _ _ _ _ _ Hs Hk) as Hs1.
  assert (Hback : ∀ o', after x 0 o1 o' → after x 0 o o').
  { intros o' Ho. eapply (after_trans x x 0 0 o o1 o' 0); try done. rewrite app_nil_r. apply Hk. }
  assert (Hl1 : loads o1 s).
  { intros z Hz. assert (Hz0 : at_stage i ids z (o_files o)).
    { destruct Hk as (_ & Hp & Hrf & _). destruct Hz as (s0 & Hs0 & ? & ? & Hh & ? & ?). exists s0.
      unfold stored_at in *. rewrite Hp in Hs0. rewrite (history_same _ _ Hp Hrf) in Hh. split_and!; try done. by destruct Hs as (? & _ & _ & _ & _ & _ & ?). }
    destruct (Hl z Hz0) as (? & ? & s' & Hst & ?). split_and!; try done. exists s'. split; [|done].
    destruct Hk as (_ & Hp & _). unfold stored_at in *. by rewrite Hp. }
  eapply (oht_try _ _ _ (λ _ o', after x 0 o o')); [|intros u'; by apply oht_ret|done].
  assert (Hrank : stage_rank x ≤ stage_rank Finished) by (destruct x; cbn; lia).
  eapply oht_weaken; [apply (stays_save x Finished 0 s _ o1 Hs1 Hl1 Hrank); try done|done|intros r o' Ho; by apply Hback|intros o' Ho; by apply Hback].
  cbn. split_and!; [done..|]. destruct x; cbn in Hin; [| |by destruct Hin as (_ & ? & _); congruence];
    destruct Hin as (? & ? & _ & _ & _ & _ & _ & ->); done.
Qed.

Lemma oreads_validate intent : reads (validate_intent intent) (λ _ _, True).
Proof.
  eapply oreads_try; [apply oreads_load|]. intros s. cbn. destruct (credential s) as [c|]; [|by apply oreads_ret].
  destruct (_ || _); [by apply oreads_ret|]. destruct (credential_cid c) as [cid|e]; [|by apply oreads_ret].
  destruct (String.eqb _ _); by apply oreads_ret.
Qed.
Lemma stays_reads {A B E} x k (m : OIO (result A E)) (f : A → OIO (result B E)) φ :
  reads m φ → (∀ a, stays_at x k (f a)) → stays_at x k (tryo m f).
Proof.
  intros Hm Hf o Hs. eapply oht_try; [eapply oht_weaken; [apply (Hm o)|done|intros r o' Hr; exact Hr|]| |].
  - intros o' He. by apply after_keeps, keeps_evidence.
  - intros a. cbn. eapply oht_pre; [by apply Hf|by intros ? [-> ?]].
  - intros e o' He. by apply after_keeps, keeps_evidence.
Qed.

Lemma stays_retire reply c :
  client_cert_pem c = client_cert_pem (ri_credential i) → stays_at Asking 1 (retire_credential reply c (client_id i)).
Proof.
  intros Hc. unfold retire_credential. destruct reply as [e|r]; [apply stays_ret|].
  replace 1 with (1 + 0) by done. apply stays_bind; [|intros u y; apply stays_ret].
  intros o Hs w Hw. cbn in Hw. subst o. cbn. exists Asking, 1. split_and!; try done. by rewrite Hc.
Qed.

Lemma stays_reconcile_intent reply intent x :
  client_id intent = client_id i → (ri_phase intent ≠ Succeeded → x = Asking) →
  stays_at x 1 (reconcile_intent_with (retire_credential reply) intent).
Proof.
  intros Hcid Hx. eapply stays_reads; [apply oreads_validate|]. intros u.
  case_bool_decide as Hp; [by apply (stays_more x 0), stays_finish|]. specialize (Hx Hp) as ->.
  apply stays_load; [apply reads_loads|]. intros s o Hs Hl. destruct (Hl Asking Hs) as ((c & i' & Hc & _ & _ & _ & Hcert & _) & _). rewrite Hc.
  destruct (negb _ || negb _); [by apply stays_ret|]. rewrite Hcid.
  revert o Hs Hl. intros o Hs _. revert o Hs. apply (stays_bind Asking 1 0); [by apply stays_retire|].
  intros r y. cbv zeta. apply (stays_try y 0 0); [by apply stays_set_phase|]. intros [] z; cbn [negb]; [apply stays_finish|apply stays_ret].
Qed.
Lemma stays_reconcile reply : stays 1 (reconcile_with (retire_credential reply)).
Proof.
  intros x. apply stays_load; [apply reads_loads|]. intros s o Hs Hl.
  destruct (retirement_intent s) as [i'|] eqn:Hi; [|by apply stays_ret].
  destruct (Hl x Hs) as (Hin & _). apply stays_reconcile_intent; [| |done].
  - destruct x; cbn in Hin; [| |by destruct Hin as (_ & ? & _); congruence];
      destruct Hin as (? & i0 & _ & Hi0 & (_ & _ & _ & _ & Hc & _) & _); rewrite Hi in Hi0; by injection Hi0 as <-.
  - intros Hp. destruct x; cbn in Hin; [done| |by destruct Hin as (_ & ? & _); congruence].
    destruct Hin as (? & i0 & _ & Hi0 & _ & Hst & _). rewrite Hi in Hi0. injection Hi0 as <-. by destruct (ri_phase i').
Qed.

Lemma stays_legacy pid nanos : stays 0 (stage_legacy_rejection pid nanos).
Proof.
  intros x. apply (stays_try x 0 0); [apply stays_map_err, stays_peeks, peeks_read_answer|]. intros [a|] y; [|apply stays_ret].
  destruct (is_empty _); [apply stays_ret|]. apply stays_load; [apply reads_loads|]. intros s o Hs Hl.
  case_bool_decide as Hi; [by apply stays_ret|]. destruct (Hl y Hs) as (Hin & _).
  destruct y; cbn in Hin; [by destruct Hin as (? & ? & _ & He & _); rewrite He in Hi; destruct Hi..|].
  destruct Hin as (Hc & _). rewrite Hc. apply stays_map_err; [|done]. apply stays_keeps. intros o'. apply oht_write_answer.
Qed.
Lemma stays_launch reply pid nanos : stays 1 (reconcile_on_launch_with (retire_credential reply) pid nanos).
Proof. intros x. apply (stays_try x 0 1); [apply stays_legacy|]. intros u. apply stays_reconcile. Qed.
End steps.
