(* ===== verification/RetireProps.v ===== *)
(** * A rejection is never lost, and is carried out

    A launch in which no call fails carries a saved rejection out, whatever
    the journal answers and however many launches failed before; a rejection
    that was overtaken by a newer pairing leaves that pairing alone. *)
From Stdlib Require Import Ascii String.
From S2P Require Import Prelude RustStr PauseStore Model Ingest Transport OwnerFs Paired PairedLogic PairedSave PairedHistory Answer PairedOpen Retire RetireLogic RetireSteps.

Local Open Scope nat_scope.
Local Open Scope list_scope.

(** What a calm run of a triple ends in. *)
Lemma oht_runs {A} (m : OIO A) P Q C o a o' : oht P m Q C → P o → runs m o a o' → Q a o'.
Proof. intros Hm Hp Hr. specialize (Hm (calm o) Hp). by rewrite Hr in Hm. Qed.

Lemma runs_read_answer o : answer_ok (o_files o) → ∃ a, runs read_answer o (Ok a) o ∧
  ∀ s, a = Some s → is_valid_digest (confirmed s) = true.
Proof.
  unfold answer_ok, read_answer. intros Ha. destruct (o_files o !! answer_path) as [b|] eqn:Hb.
  - destruct Ha as [a Ha]. exists (Some a). split; [|intros s [= <-]; by apply parse_inv, encode_inv in Ha as (? & _)].
    eapply runs_bind; [apply runs_read|]. rewrite Hb. cbn. by rewrite Ha.
  - exists None. split; [|done]. eapply runs_bind; [apply runs_read|]. by rewrite Hb.
Qed.
Lemma runs_write_answer a o :
  is_valid_digest (confirmed a) = true → is_valid_digest (rejected a) = true → ∃ o', runs (write_answer a) o (Ok tt) o' ∧ keeps o o'.
Proof.
  intros Hc Hr. assert (∃ b, encode_answer a = Ok b) as [b Hb] by (unfold encode_answer; rewrite Hc, Hr; cbn; eauto).
  assert (Hrun : runs (write_answer a) o (Ok tt) (moved_to ANSWER_TMP answer_path b o)).
  { unfold write_answer. rewrite Hb. unfold stage, publish_staged_file, ocreate_dir, ocreate, owrite, osync, omove, oread, ocall, tryo, map_err, mbind, oio_bind, next_verdict.
    cbn. rewrite lookup_insert_eq. cbn. rewrite String.eqb_refl. cbn. rewrite lookup_insert_eq. cbn.
    rewrite lookup_insert_eq. cbn. rewrite String.eqb_refl. done. }
  eexists. split; [exact Hrun|]. by apply (oht_runs _ _ _ _ _ _ _ (oht_write_answer a o) eq_refl Hrun).
Qed.
Lemma runs_clear_answer o : answer_ok (o_files o) → ∃ o', runs clear_answer o (Ok tt) o' ∧ keeps o o'.
Proof.
  intros Ha. destruct (runs_read_answer o Ha) as (a & Hr & _). destruct (runs_write_answer default_answer o) as (o' & Hw & Hk); [done..|].
  exists o'. split; [|done]. by eapply runs_try.
Qed.

Section props.
Context `{PairLib} `{!PairLaws} `{RetireLib}.
Context (i : RetirementIntent) (ids : gset string).

Lemma runs_load_stage x o : at_stage i ids x (o_files o) → ∃ s, runs load o (Ok s) o ∧ loads i ids o s.
Proof.
  intros (s' & Hs & _ & Ho & _). destruct (runs_load_any s' o Hs Ho) as (s & Hr & _). exists s. split; [done|].
  by apply (oht_runs _ _ _ _ _ _ _ (reads_loads i ids o) eq_refl Hr).
Qed.

(** The phase the file has on record. *)
Definition on_record (o : Owned) (p : RetirementPhase) : Prop :=
  ∀ s' i', stored_at PAIRED_STATE_FILE_NAME (o_files o) = Some (Some s') → retirement_intent s' = Some i' → ri_phase i' = p.
Lemma saved_phase o st o' i' : Saved o st o' → retirement_intent st = Some i' → on_record o' (ri_phase i').
Proof.
  intros (bytes & s'' & Hb & (p & a & _ & _ & _ & (_ & Hi & _)) & [_ Hd]) Hst s' i0 Hs' Hi0. unfold stored_at in Hs'. rewrite Hd, Hb in Hs'.
  injection Hs' as <-. destruct (merge_same p a st) as (_ & Hm & _). rewrite Hm, Hst, Hi0 in Hi. by destruct Hi as [_ ->].
Qed.
Lemma loads_phase x o s i' p :
  at_stage i ids x (o_files o) → loads i ids o s → retirement_intent s = Some i' → on_record o p → ri_phase i' = p.
Proof.
  intros Hs Hl Hi Hp. destruct (Hl x Hs) as (_ & _ & s' & Hst & Hb). apply bare_fields in Hb as (_ & Hbi & _).
  rewrite Hi in Hbi. destruct (retirement_intent s') as [i0|] eqn:Hi0; [|done]. apply (inj Some), bare_rejection in Hbi as [_ ->].
  by apply (Hp s').
Qed.

Lemma loads_record x o s i' : at_stage i ids x (o_files o) → loads i ids o s → retirement_intent s = Some i' → on_record o (ri_phase i').
Proof.
  intros Hs Hl Hi s' i0 Hs' Hi0. destruct (Hl x Hs) as (_ & _ & s1 & Hst & Hb). rewrite Hs' in Hst. injection Hst as <-.
  apply bare_fields in Hb as (_ & Hbi & _). rewrite Hi, Hi0 in Hbi. by apply (inj Some), bare_rejection in Hbi as [_ ->].
Qed.

Lemma runs_save_stage x y s st o :
  at_stage i ids x (o_files o) → loads i ids o s → in_stage i y st → all_secrets secret_ok st →
  retired_setup_handoffs st = retired_setup_handoffs s → setup_activation st = setup_activation s →
  setup_history_unavailable st = setup_history_unavailable s → is_over false st = true →
  ∃ o', runs (save_inner st) o (Ok tt) o' ∧ at_stage i ids y (o_files o') ∧ o_log o' = o_log o ∧ Saved o st o'.
Proof.
  intros Hs Hl Hin Hsec Hr Ha Hu Hov. destruct (Hl x Hs) as (_ & _ & s' & Hst & Hb).
  destruct (bare_fields _ _ Hb) as (_ & _ & _ & Hba & _ & Hbr & Hbu).
  destruct Hs as (s0 & Hs0 & _ & _ & Hh & Hsub & Hans). rewrite Hst in Hs0. injection Hs0 as <-.
  pose proof Hh as (p & a & Hmp & Hma & Hup & Hua & Hids & Hv)%history_Some.
  assert (p = Some s') as ->.
  { unfold metadata_at in Hmp. rewrite Hst in Hmp. destruct (valid_setup_ids (retired_setup_handoffs s')); [|done]. by injection Hmp. }
  destruct (runs_save (Some s') a st o Hmp Hma) as (s'' & bytes & _ & _ & Hrun); [|done|].
  { rewrite merge_retired by congruence. rewrite <- Hids. by replace (ids ∪ activation_ids s') with ids by set_solver. }
  eexists. split; [exact Hrun|]. pose proof (oht_runs _ _ _ _ _ _ _ (oht_save_inner st o) eq_refl Hrun) as Hsv. cbn in Hsv.
  destruct (saved_stage i ids y s' st o (moved_to PAIRED_TMP PAIRED_STATE_FILE_NAME bytes o) Hst Hh Hans) as [Hy Hlog]; try congruence.
  replace (ids ∪ activation_ids s') with ids in Hy by set_solver. by split_and!.
Qed.

Context (Hok : intent_ok i).

Lemma rejection_cid c : client_cert_pem c = client_cert_pem (ri_credential i) → credential_cid c = Ok (client_id i).
Proof using Hok. destruct Hok as (_ & _ & _ & Hc). unfold credential_cid in *. by intros ->. Qed.
Lemma client_id_some : is_empty (client_id i) = false.
Proof using Hok.
  destruct Hok as (_ & _ & _ & Hc). unfold credential_cid in Hc. destruct (parse_certs _) as [[|c l]|]; try done. by injection Hc as <-.
Qed.

(** A stage before the last, spelled out for the state that was loaded. *)
Definition pending (x : Stage) (s : PairedState) (c : Credential) (i' : RetirementIntent) : Prop :=
  credential s = Some c ∧ retirement_intent s = Some i' ∧ same_rejection i i' ∧ stage_of (ri_phase i') = x ∧
  client_cert_pem c = client_cert_pem (ri_credential i) ∧ access_mutation_generation s = ri_access_generation i.
Lemma pending_of x s : in_stage i x s → x ≠ Finished → ∃ c i', pending x s c i'.
Proof using. destruct x; cbn; [done..|]. by intros _ []. Qed.

Lemma runs_validate x o intent :
  at_stage i ids x (o_files o) → x ≠ Finished → same_rejection i intent → runs (validate_intent intent) o (Ok tt) o.
Proof using H0 Hok.
  intros Hs Hx (Hsc & Hop & How & Hac & Hci & Hce). destruct (runs_load_stage x o Hs) as (s & Hr & Hl).
  destruct (Hl x Hs) as (Hin & _). destruct (pending_of x s Hin Hx) as (c & i' & Hc & _ & _ & _ & Hcert & Hacc).
  unfold validate_intent. eapply runs_try; [exact Hr|]. rewrite Hc.
  rewrite Hsc, Hop, How, Hac, Hci, Hce, Hcert, Hacc, (rejection_cid c Hcert), client_id_some. pose proof Hok as (-> & Hne & -> & _).
  rewrite !Z.eqb_refl, !String.eqb_refl. cbn. by destruct (operation_id i).
Qed.

Lemma runs_phase o s c i' p :
  at_stage i ids Asking (o_files o) → loads i ids o s → runs load o (Ok s) o → pending Asking s c i' →
  ∃ o', runs (update_retirement_phase (operation_id i) (owner_generation i) (ri_phase i') p) o (Ok tt) o' ∧
    at_stage i ids (stage_of p) (o_files o') ∧ o_log o' = o_log o ∧ on_record o' p.
Proof using H0 Hok.
  intros Hs Hl Hr (Hc & Hi & (Hsc & Hop & How & Hac & Hci & Hce) & _ & Hcert & Hacc). destruct (Hl _ Hs) as (Hin & Hsec & _).
  assert (Hmid : in_stage i (stage_of p) (set_intent (Some (set_phase p i')) s)).
  { assert (Hex : ∃ c0 i0, credential (set_intent (Some (set_phase p i')) s) = Some c0 ∧
      retirement_intent (set_intent (Some (set_phase p i')) s) = Some i0 ∧ same_rejection i i0 ∧ stage_of (ri_phase i0) = stage_of p ∧
      client_cert_pem c0 = client_cert_pem (ri_credential i) ∧
      access_mutation_generation (set_intent (Some (set_phase p i')) s) = ri_access_generation i).
    { exists c, (set_phase p i'). by split_and!. }
    by destruct p. }
  destruct (runs_save_stage Asking (stage_of p) s (set_intent (Some (set_phase p i')) s) o) as (o' & Hsv & Hst & Hlog & Hsaved); try done.
  { split; cbn; [apply Hsec|]. intros i0 [= <-]. cbn. by apply Hsec. }
  { unfold is_over. cbn. by rewrite orb_true_r. }
  exists o'. split_and!; try done; [|by apply (saved_phase _ _ _ (set_phase p i') Hsaved)]. unfold update_retirement_phase. eapply runs_try; [by apply runs_map_err|].
  rewrite Hi. cbv zeta. unfold owner_of. rewrite Hc. cbn [fmap option_fmap option_map].
  rewrite Hsc, Hop, How, Hac, Hce, Hcert, Hacc. pose proof Hok as (-> & _ & -> & _).
  rewrite !Z.eqb_refl, !String.eqb_refl, !bool_decide_eq_true_2 by done. exact Hsv.
Qed.

Lemma runs_finish x o intent p :
  at_stage i ids x (o_files o) → x ≠ Finished → same_rejection i intent → on_record o p → is_attempted p = true →
  ∃ o', runs (finish_rejection intent) o (Ok RCompleted) o' ∧ at_stage i ids Finished (o_files o') ∧ o_log o' = o_log o.
Proof using H0 Hok.
  intros Hs Hx (_ & Hop' & How' & Hac' & _) Hrec Hatt. destruct (runs_load_stage x o Hs) as (s & Hr & Hl).
  destruct (Hl x Hs) as (Hin & Hsec & _). destruct (pending_of x s Hin Hx) as (c & i' & Hc & Hi & (Hsc & Hop & How & Hac & _) & _ & Hcert & Hacc).
  rewrite <- (loads_phase _ _ _ _ _ Hs Hl Hi Hrec) in Hatt. pose proof Hs as (s0 & Hs0 & _ & _ & _ & _ & Hans). destruct (runs_clear_answer o Hans) as (o1 & Hclear & Hk).
  assert (Hl1 : loads i ids o1 s).
  { intros z (s1 & Hs1 & Hz1 & Hz2 & Hh & Hsub & Ha1). destruct Hk as (_ & Hp & Hrf & _).
    assert (Hz : at_stage i ids z (o_files o)).
    { exists s1. unfold stored_at in *. rewrite Hp in Hs1. rewrite (history_same _ _ Hp Hrf) in Hh. by split_and!. }
    destruct (Hl z Hz) as (? & ? & s' & Hst & ?). split_and!; try done. exists s'. split; [|done]. unfold stored_at in *. by rewrite Hp. }
  destruct (runs_save_stage x Finished s (set_access (wrap_u64 (access_mutation_generation s + 1)) (set_intent None (set_credential None s))) o1)
    as (o2 & Hsave & Hfin & Hlog & _); try done.
  { by eapply at_stage_keeps. }
  { cbn. by rewrite Hacc. }
  { unfold is_over. cbn. by rewrite orb_true_r. }
  exists o2. split_and!; [|done|by rewrite Hlog; destruct Hk as (-> & _)]. unfold finish_rejection.
  eapply (runs_try _ _ _ true); [apply runs_map_err|done]. unfold finish_pair_rejection.
  eapply runs_try; [by apply runs_map_err|]. rewrite Hi. unfold owner_of. rewrite Hc. cbn [fmap option_fmap option_map].
  rewrite Hsc, Hop, Hop', How, How', Hac, Hac', Hatt, Hcert, Hacc. pose proof Hok as (-> & _ & -> & _).
  rewrite !Z.eqb_refl, !String.eqb_refl, bool_decide_eq_true_2 by done. cbn [negb orb].
  eapply runs_try; [exact Hclear|]. eapply runs_try; [rewrite <- Hacc; exact Hsave|done].
Qed.

Definition asks (x : Stage) (reply : Reply) : list Asked :=
  match x, reply with Asking, Answered _ => [ask i] | _, _ => [] end.

Lemma runs_reconcile_intent x o i0 reply :
  at_stage i ids x (o_files o) → x ≠ Finished → same_rejection i i0 → on_record o (ri_phase i0) →
  ∃ o', runs (reconcile_intent_with (retire_credential reply) i0) o (Ok RCompleted) o' ∧ at_stage i ids Finished (o_files o') ∧
    o_log o' = o_log o ++ asks x reply.
Proof using H0 Hok.
  intros Hs Hx Hsame Hrec. pose proof (runs_validate x o i0 Hs Hx Hsame) as Hval. unfold reconcile_intent_with.
  destruct (runs_load_stage x o Hs) as (s & Hr & Hl). destruct (Hl x Hs) as (Hin & _).
  destruct (pending_of x s Hin Hx) as (c & i' & Hc & Hi & _ & Hstage & Hcert & Hacc).
  pose proof (loads_phase x o s i' _ Hs Hl Hi Hrec) as Hph. rewrite Hph in Hstage.
  destruct x; [| |done].
  - assert (Hne : ri_phase i0 ≠ Succeeded) by (by intros He; rewrite He in Hstage).
    set (phase := match reply with Answered (Ok _) => Succeeded | _ => PhaseUnknown end).
    set (o1 := mkOwned (o_files o) (o_log o ++ asks Asking reply)).
    assert (Hs1 : at_stage i ids Asking (o_files o1)) by done.
    destruct (runs_load_stage Asking o1 Hs1) as (s1 & Hr1 & Hl1).
    destruct (Hl1 Asking Hs1) as (Hin1 & _). destruct (pending_of Asking s1 Hin1 Hx) as (c1 & i1 & Hp1).
    assert (Hphase : ri_phase i1 = ri_phase i0) by exact (loads_phase Asking o1 s1 i1 _ Hs1 Hl1 (proj1 (proj2 Hp1)) Hrec).
    destruct (runs_phase o1 s1 c1 i1 phase Hs1 Hl1 Hr1 Hp1) as (o2 & Hset & Hst2 & Hlog2 & Hrec2). rewrite Hphase in Hset.
    destruct (runs_finish (stage_of phase) o2 (set_phase phase i0) phase Hst2) as (o3 & Hfin & Hst3 & Hlog3); [by destruct reply as [|[]]|done..|by destruct reply as [|[]]|].
    exists o3. split_and!; [|done|by rewrite Hlog3, Hlog2].
    eapply runs_try; [exact Hval|]. rewrite bool_decide_eq_false_2 by done. eapply runs_try; [exact Hr|]. rewrite Hc.
    pose proof Hsame as (Hsc & Hop & How & Hac & Hci & Hce). rewrite How, Hac, Hcert, Hacc. pose proof Hok as (_ & _ & Howner & _).
    rewrite <- Howner, String.eqb_refl, Z.eqb_refl. cbn [negb orb].
    eapply (runs_bind _ _ _ (match reply with NotSent e => Err e | Answered r => r end) o1).
    { unfold retire_credential, o1. destruct reply as [e|r]; cbn; [by rewrite app_nil_r; destruct o|]. unfold ask. by rewrite Hci, Hcert. }
    cbv zeta. replace (match match reply with NotSent e => Err e | Answered r => r end with Ok _ => Succeeded | Err _ => PhaseUnknown end)
      with phase by (by destruct reply as [|[]]).
    eapply runs_try; [unfold set_phase_or_superseded; rewrite Hop, How; by eapply runs_bind|]. exact Hfin.
  - assert (Hp0 : ri_phase i0 = Succeeded) by (by destruct (ri_phase i0)).
    destruct (runs_finish Settled o i0 Succeeded Hs) as (o3 & Hfin & Hst3 & Hlog3); try done; [by rewrite <- Hp0|].
    exists o3. split_and!; [|done|by rewrite Hlog3, app_nil_r]. eapply runs_try; [exact Hval|]. by rewrite bool_decide_eq_true_2.
Qed.

Lemma runs_legacy x o pid nanos :
  at_stage i ids x (o_files o) → ∃ o', runs (stage_legacy_rejection pid nanos) o (Ok tt) o' ∧ keeps o o'.
Proof using H0 Hok.
  intros Hs. pose proof Hs as (s0 & _ & _ & _ & _ & _ & Hans). destruct (runs_read_answer o Hans) as (a & Hr & Ha).
  unfold stage_legacy_rejection. destruct a as [a|]; [|exists o; split; [by eapply runs_try; [by apply runs_map_err|]|done]].
  destruct (is_empty (rejected a)) eqn:He.
  { exists o. split; [|done]. eapply runs_try; [apply runs_map_err; exact Hr|]. cbv beta iota. by rewrite He. }
  destruct (runs_load_stage x o Hs) as (s & Hrl & Hl). destruct (Hl x Hs) as (Hin & _).
  destruct (decide (x = Finished)) as [->|Hx].
  - destruct Hin as (Hc & Hi & _). destruct (runs_write_answer (mkAnswer (confirmed a) EmptyString) o) as (o' & Hw & Hk); [exact (Ha a eq_refl)|done|].
    exists o'. split; [|done]. eapply runs_try; [apply runs_map_err; exact Hr|]. cbv beta iota. rewrite He. eapply runs_try; [exact Hrl|].
    rewrite bool_decide_eq_false_2 by (rewrite Hi; by intros [? ?]). rewrite Hc. by apply runs_map_err.
  - destruct (pending_of x s Hin Hx) as (c & i' & _ & Hi & _). exists o. split; [|done].
    eapply runs_try; [apply runs_map_err; exact Hr|]. cbv beta iota. rewrite He. eapply runs_try; [exact Hrl|]. by rewrite bool_decide_eq_true_2 by (rewrite Hi; eauto).
Qed.

Lemma runs_launch x o reply pid nanos :
  at_stage i ids x (o_files o) →
  ∃ r o', runs (reconcile_on_launch_with (retire_credential reply) pid nanos) o (Ok r) o' ∧ at_stage i ids Finished (o_files o') ∧
    r = (if bool_decide (x = Finished) then RNone else RCompleted).
Proof using H0 Hok.
  intros Hs0. destruct (runs_legacy x o pid nanos Hs0) as (o1 & Hleg & Hk). pose proof (at_stage_keeps _ _ _ _ _ Hs0 Hk) as Hs.
  destruct (runs_load_stage x o1 Hs) as (s & Hr & Hl). destruct (Hl x Hs) as (Hin & _).
  case_bool_decide as Hx.
  - subst x. exists RNone, o1. split_and!; [|done..]. eapply runs_try; [exact Hleg|]. eapply runs_try; [exact Hr|].
    destruct Hin as (_ & Hi & _). by rewrite Hi.
  - destruct (pending_of x s Hin Hx) as (c & i' & _ & Hi & Hsame & _).
    destruct (runs_reconcile_intent x o1 i' reply Hs Hx Hsame) as (o2 & Hrun & Hf & _); [by eapply loads_record|].
    exists RCompleted, o2. split_and!; [|done..]. eapply runs_try; [exact Hleg|]. eapply runs_try; [exact Hr|]. by rewrite Hi.
Qed.
End props.

(** ** Launches *)

(** A launch: what the network gave, the clock, and which calls fail. *)
Record Attempt : Type := mkAttempt { at_reply : Reply; at_pid : Z; at_nanos : option Z; at_verdicts : list Verdict; at_guards : list Guard }.

Section theorems.
Context `{PairLib} `{!PairLaws} `{RetireLib}.

Definition attempt (o : Owned) (a : Attempt) : Owned :=
  ow_own (reconcile_on_launch_with (retire_credential (at_reply a)) (at_pid a) (at_nanos a) (mkOWorld o (at_verdicts a) (at_guards a))).2.

Lemma attempt_after i ids x o a : at_stage i ids x (o_files o) → after i ids x 1 o (attempt o a).
Proof.
  intros Hs. pose proof (stays_launch i ids (at_reply a) (at_pid a) (at_nanos a) x o Hs (mkOWorld o (at_verdicts a) (at_guards a)) eq_refl) as Ha.
  unfold attempt. destruct (reconcile_on_launch_with _ _ _ _) as [[r|] w']; exact Ha.
Qed.
Lemma attempts_after i ids x o l : at_stage i ids x (o_files o) → after i ids x (length l) o (foldl attempt o l).
Proof.
  revert x o. induction l as [|a l IH]; intros x o Hs; [by apply after_keeps|]. cbn [foldl length].
  destruct (attempt_after i ids x o a Hs) as (y & n & Hxy & Hy & Hl & Hn & Hx). change (S (length l)) with (1 + length l).
  eapply (after_trans i ids x y); try done. by apply IH.
Qed.

(** C23. A rejection that is saved survives any number of launches, whatever
    calls fail and wherever the process stops: it never goes back to an earlier
    stage, the journal is asked at most once a launch and never again once its
    consent is on record; and the first launch in which no call fails carries
    it out, whatever the journal answers, so that the owner can pair again. *)
Theorem interrupted_rejection_is_carried_out i ids x o l reply pid nanos :
  intent_ok i → at_stage i ids x (o_files o) →
  after i ids x (length l) o (foldl attempt o l) ∧
  ∃ r o', runs (reconcile_on_launch_with (retire_credential reply) pid nanos) (foldl attempt o l) (Ok r) o' ∧
    r ≠ RSuperseded ∧ at_stage i ids Finished (o_files o').
Proof.
  intros Hok Hs. pose proof (attempts_after i ids x o l Hs) as Ha. split; [done|]. destruct Ha as (y & n & _ & Hy & _).
  destruct (runs_launch i ids Hok y _ reply pid nanos Hy) as (r & o' & Hr & Hf & ->). eexists _, _. split_and!; [exact Hr| |done].
  by case_bool_decide.
Qed.

(** ** Rejecting *)

Lemma new_intent_ok pid nanos s c i : new_pair_rejection_intent pid nanos s c = Ok i → intent_ok i ∧
  ri_phase i = Prepared ∧ ri_credential i = c ∧ ri_access_generation i = access_mutation_generation s.
Proof.
  unfold new_pair_rejection_intent. cbv zeta. destruct (credential_cid c) as [cid|] eqn:Hc; [|done]. destruct nanos; [|done]. intros [= <-].
  split_and!; try done. split_and!; cbn; try done. apply sha256_hex_some.
Qed.

(** A pairing that stands: what the file holds and what loading it gives. *)
Record standing (ids : gset string) (o : Owned) (s' : PairedState) : Prop := {
  st_stored : stored_at PAIRED_STATE_FILE_NAME (o_files o) = Some (Some s');
  st_intent : retirement_intent s' = None;
  st_secrets : all_secrets openable s';
  st_history : history (o_files o) = Some ids;
  st_answer : answer_ok (o_files o) }.
Definition loads_standing (o : Owned) (s : PairedState) : Prop :=
  ∀ s', stored_at PAIRED_STATE_FILE_NAME (o_files o) = Some (Some s') → bare s = bare s' ∧ (all_secrets openable s' → all_secrets secret_ok s).
Lemma reads_standing : reads load loads_standing.
Proof.
  eapply oreads_weaken; [apply oreads_both; [apply oreads_load|apply oreads_load_ok]|]. cbn.
  intros o s [Hl Ho] s' Hs. unfold loaded in Hl. rewrite Hs in Hl. split; [done|]. intros Hop. apply Ho. intros s0 Hs0.
  rewrite Hs in Hs0. by injection Hs0 as <-.
Qed.

(** The state an intent is saved in. *)
Lemma install_in_stage ids o s' s s1 c pid nanos i :
  standing ids o s' → loads_standing o s → loads_standing o s1 → credential s = Some c → new_pair_rejection_intent pid nanos s c = Ok i →
  in_stage i Asking (set_intent (Some i) s1) ∧ all_secrets secret_ok (set_intent (Some i) s1) ∧
  retired_setup_handoffs s1 = retired_setup_handoffs s' ∧ setup_activation s1 = setup_activation s' ∧
  setup_history_unavailable s1 = setup_history_unavailable s'.
Proof.
  intros [Hst Hni Hsec _ _] Hl Hl1 Hc Hnew. destruct (new_intent_ok _ _ _ _ _ Hnew) as (Hok & Hph & Hcr & Hac).
  destruct (Hl _ Hst) as [Hb Hs]. destruct (Hl1 _ Hst) as [Hb1 Hs1]. specialize (Hs Hsec). specialize (Hs1 Hsec).
  destruct (bare_fields _ _ Hb) as (Hbc & _ & Hba & _). destruct (bare_fields _ _ Hb1) as (Hbc1 & _ & Hba1 & Hact & _ & Hret & Hun).
  split_and!; try done.
  - rewrite Hc in Hbc. rewrite <- Hbc1 in Hbc. destruct (credential s1) as [c1|] eqn:Hc1; [|done]. apply (inj Some), bare_cert in Hbc.
    exists c1, i. split_and!; try done; cbn; [by rewrite Hph|by rewrite Hcr|congruence].
  - split; cbn; [apply Hs1|]. intros i0 [= <-]. rewrite Hcr. by apply Hs.
Qed.

Lemma oht_install ids o s' s c pid nanos i :
  standing ids o s' → loads_standing o s → credential s = Some c → new_pair_rejection_intent pid nanos s c = Ok i →
  let started o' := at_stage i (ids ∪ activation_ids s') Asking (o_files o') ∧ o_log o' = o_log o in
  oht (λ o', o' = o) (install_pair_rejection_intent (owner_generation i) (ri_access_generation i) i)
    (λ r o', match r with Ok _ => started o' | Err _ => keeps o o' ∨ started o' end) (λ o', keeps o o' ∨ started o').
Proof.
  intros Hst Hl Hc Hnew started. unfold install_pair_rejection_intent.
  eapply oht_try; [eapply oht_weaken; [apply (oreads_map_err STransport _ _ reads_standing o)|done|intros r o' Hr; exact Hr|]| |].
  - intros o' He. left. by apply keeps_evidence.
  - intros s1. cbn. eapply oht_pre; [apply (oht_fix _ (loads_standing o s1) o)|by intros ? [-> ?]]. intros Hl1.
    assert (Hret : ∀ e : StorageError, oht (λ o', o' = o) (erro (A:=unit) e)
       (λ r o', match r with Ok _ => started o' | Err _ => keeps o o' ∨ started o' end) (λ o', keeps o o' ∨ started o'))
      by (intros; apply oht_ret; intros ? ->; by left).
    destruct (credential s1) as [c1|]; [|apply Hret]. destruct (_ || _); [apply Hret|].
    destruct (install_in_stage ids o s' s s1 c pid nanos i Hst Hl Hl1 Hc Hnew) as (Hin & Hsec & Hr & Ha & Hu).
    assert (Hsv : ∀ o', Saved o (set_intent (Some i) s1) o' → started o').
    { intros o' Hsv. destruct Hst as [Hst Hni Hse Hh Hans]. by apply (saved_stage i ids Asking s' (set_intent (Some i) s1) o o'). }
    eapply oht_weaken; [apply (oht_save_inner _ o)|done|..].
    + intros [u|[]] o' Hr'; cbn in Hr'; [by apply Hsv| | |..]; try (left; by apply keeps_unsaved).
      destruct Hr'; [right; by apply Hsv|left; by apply keeps_unsaved].
    + intros o' [?|?]; [right; by apply Hsv|left; by apply keeps_unsaved].
  - intros e o' He. left. by apply keeps_evidence.
Qed.

Lemma runs_load_standing ids o s' : standing ids o s' → ∃ s, runs load o (Ok s) o ∧ loads_standing o s.
Proof.
  intros [Hst _ Hsec _ _]. destruct (runs_load_any s' o Hst Hsec) as (s & Hr & _). exists s. split; [done|].
  by apply (oht_runs _ _ _ _ _ _ _ (reads_standing o) eq_refl Hr).
Qed.
Lemma standing_credential ids o s' s c' :
  standing ids o s' → loads_standing o s → credential s' = Some c' →
  ∃ c, credential s = Some c ∧ client_cert_pem c = client_cert_pem c' ∧ retirement_intent s = None.
Proof.
  intros [Hst Hni _ _ _] Hl Hc'. destruct (Hl _ Hst) as [(Hbc & Hbi & _)%bare_fields _]. rewrite Hc' in Hbc. rewrite Hni in Hbi.
  destruct (credential s) as [c|]; [|done]. destruct (retirement_intent s); [done|]. apply (inj Some), bare_cert in Hbc. eauto.
Qed.

Lemma runs_install ids o s' s c pid nanos i :
  standing ids o s' → runs load o (Ok s) o → loads_standing o s → credential s = Some c → retirement_intent s = None →
  new_pair_rejection_intent pid nanos s c = Ok i → valid_setup_ids (ids ∪ activation_ids s') = true →
  ∃ o', runs (install_pair_rejection_intent (owner_generation i) (ri_access_generation i) i) o (Ok tt) o' ∧
    at_stage i (ids ∪ activation_ids s') Asking (o_files o') ∧ on_record o' Prepared.
Proof.
  intros Hst Hr Hl Hc Hni Hnew Hv. destruct (new_intent_ok _ _ _ _ _ Hnew) as ((Hsc & _ & How & _) & Hph & Hcr & Hac).
  destruct (install_in_stage ids o s' s s c pid nanos i Hst Hl Hl Hc Hnew) as (Hin & Hsec & Hre & Ha & Hu). destruct Hst as [Hst _ _ Hh Hans].
  pose proof Hh as (p & a & Hmp & Hma & Hup & Hua & Hids & Hvi)%history_Some.
  assert (p = Some s') as ->.
  { unfold metadata_at in Hmp. rewrite Hst in Hmp. destruct (valid_setup_ids (retired_setup_handoffs s')); [|done]. by injection Hmp. }
  destruct (runs_save (Some s') a (set_intent (Some i) s) o Hmp Hma) as (s'' & bytes & _ & _ & Hrun); [|done|].
  { rewrite merge_retired; [by rewrite <- Hids|done..|]. unfold is_over. cbn. by rewrite orb_true_r. }
  pose proof (oht_runs _ _ _ _ _ _ _ (oht_save_inner _ o) eq_refl Hrun) as Hsv. cbn in Hsv.
  destruct (saved_stage i ids Asking s' (set_intent (Some i) s) o _ Hst Hh Hans Hre Ha Hu Hin Hsec Hsv) as [Hy _].
  eexists. split_and!; [|exact Hy|rewrite <- Hph; by apply (saved_phase _ _ _ i Hsv)].
  unfold install_pair_rejection_intent. eapply runs_try; [by apply runs_map_err|]. rewrite Hc, Hni, Hsc, How, Hac, Hcr.
  rewrite bool_decide_eq_false_2 by (by intros [? ?]). rewrite !String.eqb_refl, !Z.eqb_refl. exact Hrun.
Qed.

Lemma runs_reject ids o s' c' pid nonce cid before reply :
  standing ids o s' → credential s' = Some c' → credential_cid c' = Ok cid → valid_setup_ids (ids ∪ activation_ids s') = true →
  (∀ o1, runs before o1 (Ok tt) o1) →
  ∃ i o', intent_ok i ∧ runs (reject_pair_with (retire_credential reply) pid (Some nonce) (binding_of c') before) o (Ok RCompleted) o' ∧
    at_stage i (ids ∪ activation_ids s') Finished (o_files o').
Proof.
  intros Hst Hc' Hcid Hv Hbefore. destruct (runs_load_standing ids o s' Hst) as (s & Hr & Hl).
  destruct (standing_credential ids o s' s c' Hst Hl Hc') as (c & Hc & Hcert & Hni).
  assert (∃ i, new_pair_rejection_intent pid (Some nonce) s c = Ok i) as [i Hnew].
  { unfold new_pair_rejection_intent, credential_cid in *. rewrite Hcert. cbv zeta. rewrite Hcid. eauto. }
  destruct (new_intent_ok _ _ _ _ _ Hnew) as (Hok & Hph & _).
  destruct (runs_install ids o s' s c pid (Some nonce) i Hst Hr Hl Hc Hni Hnew Hv) as (o1 & Hins & Hs1 & Hrec).
  destruct (runs_reconcile_intent i (ids ∪ activation_ids s') Hok Asking o1 i reply Hs1) as (o2 & Hrun & Hf & _); [done|done|by rewrite Hph|].
  exists i, o2. split_and!; try done. unfold reject_pair_with. eapply runs_try; [exact Hr|]. rewrite Hc. unfold binding_of, from_credential. cbn.
  rewrite Hcert, String.eqb_refl. cbn. rewrite Hnew. eapply runs_try; [apply runs_map_err; exact Hins|]. by eapply runs_try; [apply Hbefore|].
Qed.

(** C24. Rejecting a journal, whatever calls fail and wherever the process
    stops, leaves the pairing as it was with the journal not asked for
    anything, or a rejection in order saved (and the journal asked at most
    once); and when no call fails the pairing is dropped, whatever the journal
    answers, with its setup handoff over. *)
Theorem rejecting_is_all_or_nothing ids o s' binding pid nanos before reply :
  standing ids o s' → peeks before (λ _ _, True) →
  let rejected i o' := intent_ok i ∧ after i (ids ∪ activation_ids s') Asking 1 o o' in
  oht (λ o', o' = o) (reject_pair_with (retire_credential reply) pid nanos binding before)
    (λ _ o', keeps o o' ∨ ∃ i, rejected i o') (λ o', keeps o o' ∨ ∃ i, rejected i o') ∧
  ∀ c' cid nonce, credential s' = Some c' → credential_cid c' = Ok cid → valid_setup_ids (ids ∪ activation_ids s') = true →
    (∀ o1, runs before o1 (Ok tt) o1) →
    ∃ i o', intent_ok i ∧ runs (reject_pair_with (retire_credential reply) pid (Some nonce) (binding_of c') before) o (Ok RCompleted) o' ∧
      at_stage i (ids ∪ activation_ids s') Finished (o_files o').
Proof.
  intros Hst Hbefore rej. split; [|intros; by eapply runs_reject]. unfold reject_pair_with.
  eapply oht_try; [eapply oht_weaken; [apply (reads_standing o)|done|intros r o' Hr; exact Hr|]| |].
  - intros o' He. left. by apply keeps_evidence.
  - intros s. cbn. eapply oht_pre; [apply (oht_fix _ (loads_standing o s) o)|by intros ? [-> ?]]. intros Hl.
    destruct (credential s) as [c|] eqn:Hc; [|apply oht_ret; intros ? ->; by left].
    destruct (negb _); [apply oht_ret; intros ? ->; by left|].
    destruct (new_pair_rejection_intent pid nanos s c) as [i|e] eqn:Hnew; [|apply oht_ret; intros ? ->; by left].
    destruct (new_intent_ok _ _ _ _ _ Hnew) as (Hok & Hph & _).
    assert (Hstart : ∀ o', at_stage i (ids ∪ activation_ids s') Asking (o_files o') ∧ o_log o' = o_log o → rej i o').
    { intros o' [Hs Hlog]. split; [done|]. by apply (after_stage _ _ Asking Asking). }
    set (started o' := at_stage i (ids ∪ activation_ids s') Asking (o_files o') ∧ o_log o' = o_log o) in *.
    eapply (oht_try _ _ _ (λ r o', match r with Ok _ => started o' | Err _ => keeps o o' ∨ started o' end)).
    + eapply oht_map_err; [eapply oht_weaken; [exact (oht_install ids o s' s c pid nanos i Hst Hl Hc Hnew)|done|intros r o' Hr; exact Hr|]|done|done].
      intros o' [?|?]; [by left|right; eauto].
    + intros u. apply oht_at. intros o1 [Hs1 Hlog1].
      assert (Hin : ∀ o', after i (ids ∪ activation_ids s') Asking 1 o1 o' → keeps o o' ∨ ∃ i, rej i o').
      { intros o' Ho. right. exists i. split; [done|]. eapply (after_trans _ _ Asking Asking 0 1 o o1 o' 0); try done. by rewrite app_nil_r. }
      assert (Hall : stays_at i (ids ∪ activation_ids s') Asking 1 (_ ←! before; reconcile_intent_with (retire_credential reply) i)).
      { assert (Hb : reads before (λ _ _, True)) by (apply oreads_peeks; eapply peeks_weaken; [exact Hbefore|done]).
        eapply stays_reads; [exact Hb|]. intros v. by apply stays_reconcile_intent. }
      eapply oht_weaken; [by apply (Hall o1)|done|intros r o' Ho; by apply Hin|intros o' Ho; by apply Hin].
    + intros e o' [?|?]; [by left|right; eauto].
  - intros e o' He. left. by apply keeps_evidence.
Qed.

(** ** A rejection that was overtaken *)

(** The files hold no pairing of the rejection's owner, or another rejection. *)
Definition overtaken (i : RetirementIntent) (f : gmap string string) : Prop :=
  ∀ s', stored_at PAIRED_STATE_FILE_NAME f = Some (Some s') →
    owner_of s' ≠ Some (owner_generation i) ∨ operation_id <$> retirement_intent s' ≠ Some (operation_id i).
Lemma overtaken_loaded i f s : overtaken i f → loaded f s →
  owner_of s ≠ Some (owner_generation i) ∨ operation_id <$> retirement_intent s ≠ Some (operation_id i).
Proof.
  unfold overtaken, loaded. intros Ho Hl. destruct (stored_at _ f) as [[s'|]|]; [|left; by subst s|done].
  destruct (bare_fields _ _ Hl) as (Hc & Hi & _).
  assert (owner_of s = owner_of s') as ->.
  { unfold owner_of. destruct (credential s), (credential s'); try done. apply (inj Some), bare_cert in Hc. cbn. by rewrite Hc. }
  assert (operation_id <$> retirement_intent s = operation_id <$> retirement_intent s') as ->; [|by apply Ho].
  destruct (retirement_intent s), (retirement_intent s'); try done. apply (inj Some), bare_rejection in Hi as [(_ & Hop & _) _]. cbn. by rewrite Hop.
Qed.
Lemma overtaken_evidence i o o' : overtaken i (o_files o) → same_but EVIDENCE_FILES o o' → overtaken i (o_files o').
Proof. intros Ho [_ Hf] s'. unfold stored_at. rewrite Hf by set_solver. apply Ho. Qed.

(** An operation that only reads, and does not succeed, on overtaken files. *)
Definition gives_up {A E} (i : RetirementIntent) (m : OIO (result A E)) (φ : A → Prop) : Prop :=
  ∀ o, overtaken i (o_files o) →
    oht (λ o', o' = o) m (λ r o', same_but EVIDENCE_FILES o o' ∧ ∀ a, r = Ok a → φ a) (same_but EVIDENCE_FILES o).
Lemma gives_up_load {B E} i (m : OIO (result PairedState E)) (f : PairedState → OIO (result B E)) φ :
  reads m (λ o s, loaded (o_files o) s) →
  (∀ s o, owner_of s ≠ Some (owner_generation i) ∨ operation_id <$> retirement_intent s ≠ Some (operation_id i) →
     oht (λ o', o' = o) (f s) (λ r o', same_but EVIDENCE_FILES o o' ∧ ∀ a, r = Ok a → φ a) (same_but EVIDENCE_FILES o)) →
  gives_up i (tryo m f) φ.
Proof.
  intros Hm Hf o Ho. eapply oht_try; [apply (Hm o)| |by intros e o' He].
  intros s. cbn. eapply oht_pre; [apply (oht_fix _ (loaded (o_files o) s) o)|by intros ? [-> ?]]. intros Hl. apply Hf. by eapply overtaken_loaded.
Qed.
Lemma oht_still {A E} o (r : result A E) (φ : A → Prop) : (∀ a, r = Ok a → φ a) →
  oht (λ o', o' = o) (mret r) (λ r o', same_but EVIDENCE_FILES o o' ∧ ∀ a, r = Ok a → φ a) (same_but EVIDENCE_FILES o).
Proof. intros Hr. apply oht_ret. intros o' ->. split; [apply same_but_refl|done]. Qed.

Lemma gives_up_phase i expected phase :
  gives_up i (update_retirement_phase (operation_id i) (owner_generation i) expected phase) (λ _, False).
Proof.
  apply gives_up_load; [apply oreads_map_err, oreads_load|]. intros s o Hov.
  destruct (retirement_intent s) as [i'|]; [|by apply oht_still]. cbv zeta. destruct (_ || _) eqn:Hg; [by apply oht_still|].
  exfalso. rewrite !orb_false_iff, !negb_false_iff, andb_true_iff, !bool_decide_eq_true, !String.eqb_eq in Hg.
  destruct Hg as (((((_ & Hop) & How) & _) & [Hw _]) & _). cbn in Hov. destruct Hov as [Hov|Hov]; apply Hov; congruence.
Qed.
Lemma gives_up_matches i : gives_up i (matches_owner_generation i) (λ b, b = false).
Proof.
  apply gives_up_load; [apply oreads_load|]. intros s o Hov. apply oht_still. intros b [= <-].
  destruct (retirement_intent s) as [i'|]; [|done]. destruct (String.eqb_spec (operation_id i') (operation_id i)) as [Ho|]; [|done].
  unfold owner_of in Hov. destruct (credential s) as [c|]; [|by rewrite andb_false_r]. cbn in Hov.
  destruct (String.eqb_spec (pairing_generation (client_cert_pem c)) (owner_generation i)) as [Hw|]; [|by rewrite andb_false_r].
  destruct Hov as [Hov|Hov]; exfalso; apply Hov; congruence.
Qed.
Lemma gives_up_then {A B E F} i (m : OIO (result A E)) (k : result A E → OIO (result B F)) φ ψ :
  gives_up i m φ → (∀ r, (∀ a, r = Ok a → φ a) → gives_up i (k r) ψ) → gives_up i (m ≫= k) ψ.
Proof.
  intros Hm Hk o Ho. eapply oht_bind; [by apply Hm|]. intros r. apply oht_at. intros o1 [Hs Hr].
  eapply oht_weaken; [apply (Hk r Hr o1); by eapply overtaken_evidence|done|..].
  - intros b o' [Hs' Hb]. split; [by eapply same_but_trans|done].
  - intros o' Hs'. by eapply same_but_trans.
Qed.
Lemma gives_up_ret {A E} i (r : result A E) (φ : A → Prop) : (∀ a, r = Ok a → φ a) → gives_up i (mret r) φ.
Proof. intros Hr o _. by apply oht_still. Qed.
Lemma gives_up_set_phase i phase : gives_up i (set_phase_or_superseded i phase) (λ b, b = false).
Proof.
  eapply gives_up_then; [apply gives_up_phase|]. intros [u|e] Hr; [by destruct (Hr u eq_refl)|].
  destruct e; try (by apply gives_up_ret). eapply gives_up_then; [apply gives_up_matches|].
  intros [b|e] Hb; [|by apply gives_up_ret]. rewrite (Hb b eq_refl). apply gives_up_ret. by intros a [= <-].
Qed.

(** A rejection overtaken while the journal is asked, because the files came
    to hold another pairing or none, leaves what it finds alone (the wrapped
    key kept as evidence apart), whatever the journal answers and whatever
    fails, and does not report the rejection as carried out. *)
Theorem overtaken_rejection_touches_nothing i o newer answer :
  ri_phase i ≠ Succeeded → overtaken i (o_files newer) →
  let untouched o' := same_but EVIDENCE_FILES o o' ∨ same_but EVIDENCE_FILES newer o' in
  oht (λ o', o' = o) (reconcile_intent_with (λ _ _ w, (Some answer, set_own newer w)) i)
    (λ r o', untouched o' ∧ r ≠ Ok RCompleted) untouched.
Proof.
  intros Hp Hov untouched. unfold reconcile_intent_with.
  eapply oht_try; [eapply oht_weaken; [apply (oreads_validate i o)|done|intros r o' Hr; exact Hr|by left]| |intros e o' He; by split; [left|]].
  intros u. cbn. rewrite bool_decide_eq_false_2 by done. eapply oht_pre; [|intros o' [Ho _]; exact Ho].
  eapply oht_try; [eapply oht_weaken; [apply (oreads_load o)|done|intros r o' Hr; exact Hr|by left]| |intros e o' He; by split; [left|]].
  intros s. cbn. eapply (oht_pre _ _ (λ o', o' = o)); [|by intros o' [Ho _]].
  assert (Hret : ∀ r : result ReconcileOutcome TransportError, r ≠ Ok RCompleted → oht (λ o', o' = o) (mret r) (λ r o', untouched o' ∧ r ≠ Ok RCompleted) untouched).
  { intros r Hr. apply oht_ret. intros o' ->. split; [by left|done]. }
  destruct (credential s) as [c|]; [|by apply Hret]. destruct (negb _ || negb _); [by apply Hret|].
  eapply (oht_bind _ _ _ (λ _ o', o' = newer)); [by intros w _|]. intros r. cbv zeta.
  assert (Hgu : ∀ phase, gives_up i (kept ←! set_phase_or_superseded i phase; if negb kept then oko RSuperseded else finish_rejection (set_phase phase i))
     (λ r, r = RSuperseded)).
  { intros phase. eapply gives_up_then; [apply gives_up_set_phase|]. intros [b|e] Hb; [|by apply gives_up_ret].
    rewrite (Hb b eq_refl). apply gives_up_ret. by intros a [= <-]. }
  eapply oht_weaken; [by apply Hgu|done| |by right]. intros r' o' [Hs Hr']. split; [by right|]. intros ->. by specialize (Hr' _ eq_refl).
Qed.
End theorems.
