(* ===== verification/Handoff.v ===== *)
(** * The setup handoff (crates/pl-transport-win/src/handoff.rs)

    A setup page drops a pairing link into a mailbox file. The app takes it at
    most once: it records its progress with the link, answers with a receipt
    and removes the mailbox, under a file lock it shares with the sender. The
    JSON codecs and the link parser are parameters. *)
From Stdlib Require Import Ascii String.
From S2P Require Import Prelude RustStr PauseStore Model Ingest Transport OwnerFs Paired.

Local Open Scope list_scope.

(** ** Contract constants (crates/observer-contract/src/lib.rs) *)

Definition MAILBOX_SCHEMA : string := "solstone.windows-setup-handoff.v1".
Definition PROGRESS_SCHEMA : string := "solstone.setup-handoff-progress.v1".
Definition RECEIPT_SCHEMA : string := "solstone.windows-setup-receipt.v1".
Definition MAILBOX_FILE_NAME : string := "solstone-setup-handoff.json".
Definition PROGRESS_FILE_NAME : string := "setup-handoff-progress.json".
Definition RECEIPT_FILE_NAME : string := "solstone-setup-handoff-receipt.json".
Definition LOCK_FILE_NAME : string := "solstone-setup-handoff.lock".
Definition MAILBOX_MAX_BYTES : Z := 16384.
Definition RECEIPT_MAX_BYTES : Z := 4096.
Definition PROGRESS_MAX_BYTES : Z := 4096.
Definition UNPAIRED_DRAFT_MAX_AGE_SECS : Z := 900.
Definition CANONICAL_PREFIX : string := "https://go.solstone.app/p#".
Definition HANDOFF_REQUIRED_STEP : Z := 5.

(** ** Documents *)

Record SetupHandoffMailbox : Type := mkMailbox {
  mb_schema : string; mb_handoff_id : string; mb_step : Z; mb_instance_id : string; mb_fingerprint : string;
  mb_link : string; mb_expires : Z }.
Record SetupHandoffProgress : Type := mkProgress {
  pg_schema : string; pg_handoff_id : string; pg_link : string; pg_fingerprint : string; pg_instance_id : string;
  pg_accepted : Z; pg_expires : Z }.
Record SetupHandoffReceipt : Type := mkReceipt { rc_schema : string; rc_handoff_id : string; rc_accepted : bool }.

Inductive MailboxOutcome : Type := Absent | Accepted | Replay | Deferred | Rejected | Busy.
#[global] Instance MailboxOutcome_eq_dec : EqDecision MailboxOutcome.
Proof. solve_decision. Defined.

Class HandoffLib := {
  pairlink_parses : string → bool;
  mailbox_of : string → option SetupHandoffMailbox;
  progress_of : string → option SetupHandoffProgress;
  progress_json : SetupHandoffProgress → option string;
  receipt_of : string → option SetupHandoffReceipt;
  receipt_json : SetupHandoffReceipt → option string
}.
Class HandoffLaws `{HandoffLib} : Prop := {
  mailbox_range b m : mailbox_of b = Some m → (0 <= mb_expires m)%Z;
  progress_round p b : progress_json p = Some b → progress_of b = Some p;
  receipt_round r b : receipt_json r = Some b → receipt_of b = Some r
}.

Definition str_len (s : string) : Z := Z.of_nat (String.length s).
Definition any_whitespace (s : string) : bool := existsb (contains s) whitespace_chars.

Section handoff.
Context `{HandoffLib}.

Definition canonical_https_pair_link (link : string) : bool :=
  match strip_prefix CANONICAL_PREFIX link with
  | None => false
  | Some fragment =>
    if is_empty fragment || contains fragment "#" || contains fragment "/" || contains fragment "?" || any_whitespace fragment
    then false
    else pairlink_parses link
  end.
Definition valid_expectations (fingerprint instance_id link : string) : bool :=
  (str_len fingerprint =? 64)%Z && all_bytes (λ c, byte_in 48 57 c || byte_in 97 102 c) fingerprint &&
  negb (is_empty instance_id) && (str_len instance_id <=? 128)%Z && negb (any_whitespace instance_id) &&
  canonical_https_pair_link link.
Definition mailbox_valid (m : SetupHandoffMailbox) : bool :=
  if negb (String.eqb (mb_schema m) MAILBOX_SCHEMA) || negb (is_canonical_uuid (mb_handoff_id m)) then false
  else if negb (mb_step m =? HANDOFF_REQUIRED_STEP)%Z || (mb_expires m =? 0)%Z then false
  else valid_expectations (mb_fingerprint m) (mb_instance_id m) (mb_link m).
Definition progress_valid (p : SetupHandoffProgress) : bool :=
  String.eqb (pg_schema p) PROGRESS_SCHEMA && (0 <? pg_expires p)%Z && is_canonical_uuid (pg_handoff_id p) &&
  valid_expectations (pg_fingerprint p) (pg_instance_id p) (pg_link p).
Definition is_expired (p : SetupHandoffProgress) (now : Z) : bool :=
  (pg_expires p <=? now)%Z || (UNPAIRED_DRAFT_MAX_AGE_SECS * 1000 <=? sat_sub now (pg_accepted p))%Z.

(** ** Files *)

Definition read_bounded (path : string) (limit : Z) : OIO (result string io_error) :=
  buf ←! oread path;
  if (limit <? str_len buf)%Z then erro OtherError else oko buf.

(** [tag] is the process id and the clock, which make the staged name. *)
Definition staged_name (path tag : string) : string := path +:+ "." +:+ tag +:+ ".tmp".
Definition io_of_storage (_ : StorageError) : io_error := OtherError.
Definition write_atomic_json (path tag : string) (json : option string) (limit : Z) : OIO (result unit io_error) :=
  match json with
  | None => erro OtherError
  | Some bytes =>
    if (limit <? str_len bytes)%Z then erro OtherError
    else
      let tmp := staged_name path tag in
      r ← (_ ←! stage (λ e, e) tmp bytes;
           map_err io_of_storage (publish_staged_file tmp path));
      match r with
      | Ok _ => oko tt
      | Err e => oremove tmp;; erro e
      end
  end.

Definition read_progress : OIO (result (option SetupHandoffProgress) io_error) :=
  r ← read_bounded PROGRESS_FILE_NAME PROGRESS_MAX_BYTES;
  match r with
  | Err NotFound => oko None
  | Err e => erro e
  | Ok bytes =>
    match progress_of bytes with
    | None => erro OtherError
    | Some p => if negb (progress_valid p) then erro OtherError else oko (Some p)
    end
  end.
Definition read_receipt_doc : OIO (option SetupHandoffReceipt) :=
  r ← read_bounded RECEIPT_FILE_NAME RECEIPT_MAX_BYTES;
  mret (match r with Ok bytes => receipt_of bytes | Err _ => None end).
Definition read_mailbox_doc : OIO (result (option SetupHandoffMailbox) io_error) :=
  r ← read_bounded MAILBOX_FILE_NAME MAILBOX_MAX_BYTES;
  match r with
  | Err NotFound => oko None
  | Err e => erro e
  | Ok bytes =>
    match mailbox_of bytes with
    | None => erro OtherError
    | Some m => if mailbox_valid m then oko (Some m) else erro OtherError
    end
  end.

(** [true] is [HandoffLock::Held]; [busy]: the sender holds the lock until the
    timeout. The lock file is created if it is not there. *)
Definition acquire_handoff_lock (busy : bool) : OIO (result bool io_error) :=
  _ ←! ocreate_dir;
  _ ←! ocall (λ f, (Ok tt, match f !! LOCK_FILE_NAME with Some _ => f | None => <[LOCK_FILE_NAME := EmptyString]> f end)) (λ _ f, f);
  oko (negb busy).

(** The receipt says that [id] was accepted. *)
Definition receipt_for (id : string) (r : SetupHandoffReceipt) : bool :=
  String.eqb (rc_schema r) RECEIPT_SCHEMA && String.eqb (rc_handoff_id r) id && rc_accepted r.
Definition invalidate_matching_receipt (id : string) : OIO (result unit io_error) :=
  r ← read_receipt_doc;
  match r with
  | Some r => if receipt_for id r then oremove RECEIPT_FILE_NAME else oko tt
  | None => oko tt
  end.
Definition repair_receipt (tag id : string) : OIO (result unit io_error) :=
  r ← read_receipt_doc;
  let needs_receipt :=
    match r with
    | Some r => negb (String.eqb (rc_schema r) RECEIPT_SCHEMA) || negb (String.eqb (rc_handoff_id r) id) || negb (rc_accepted r)
    | None => true
    end in
  if needs_receipt then write_atomic_json RECEIPT_FILE_NAME tag (receipt_json (mkReceipt RECEIPT_SCHEMA id true)) RECEIPT_MAX_BYTES
  else oko tt.
Definition consume_mailbox_if_same (id : string) : OIO unit :=
  r ← read_mailbox_doc;
  match r with
  | Ok (Some current) => if String.eqb (mb_handoff_id current) id then oremove MAILBOX_FILE_NAME;; mret tt else mret tt
  | _ => mret tt
  end.

(** ** The mailbox *)

Section mailbox.
Context `{PairLib}.

Definition read_active_progress : OIO (result (option SetupHandoffProgress) io_error) :=
  progress ←! read_progress;
  retired ←! map_err (λ _, OtherError) setup_handoff_history;
  oko (match progress with
       | Some p => if bool_decide (pg_handoff_id p ∈ retired) then None else Some p
       | None => None
       end).

Definition progress_for (m : SetupHandoffMailbox) (now : Z) : SetupHandoffProgress :=
  mkProgress PROGRESS_SCHEMA (mb_handoff_id m) (mb_link m) (mb_fingerprint m) (mb_instance_id m) now (mb_expires m).

(** Taking the link: capacity, the old link retired, progress, receipt. *)
Definition accept_mailbox (tag : string) (now : Z) (m : SetupHandoffMailbox) (retired : gset string)
    (existing : option SetupHandoffProgress) : OIO (result MailboxOutcome io_error) :=
  _ ←! map_err (λ _, OtherError) (check_setup_handoff_capacity (pg_handoff_id <$> existing) (mb_handoff_id m));
  _ ←! match existing with
       | Some p =>
         if bool_decide (pg_handoff_id p ∈ retired) then oko tt
         else map_err (λ _, OtherError) (retire_setup_handoff (pg_handoff_id p))
       | None => oko tt
       end;
  _ ←! write_atomic_json PROGRESS_FILE_NAME tag (progress_json (progress_for m now)) PROGRESS_MAX_BYTES;
  _ ←! write_atomic_json RECEIPT_FILE_NAME tag (receipt_json (mkReceipt RECEIPT_SCHEMA (mb_handoff_id m) true)) RECEIPT_MAX_BYTES;
  consume_mailbox_if_same (mb_handoff_id m);;
  oko Accepted.

Definition replay_mailbox (tag id : string) : OIO (result MailboxOutcome io_error) :=
  _ ←! repair_receipt tag id;
  consume_mailbox_if_same id;;
  oko Replay.

Definition handle_mailbox (tag : string) (now : Z) (ceremony_active : bool) (m : SetupHandoffMailbox) : OIO (result MailboxOutcome io_error) :=
  r ← setup_handoff_history;
  match r with
  | Err _ => _ ←! invalidate_matching_receipt (mb_handoff_id m); erro OtherError
  | Ok retired =>
    if bool_decide (mb_handoff_id m ∈ retired) then replay_mailbox tag (mb_handoff_id m)
    else
      r ← read_progress;
      match r with
      | Err e => _ ←! invalidate_matching_receipt (mb_handoff_id m); erro e
      | Ok existing =>
        if bool_decide (pg_handoff_id <$> existing = Some (mb_handoff_id m)) then replay_mailbox tag (mb_handoff_id m)
        else
          _ ←! invalidate_matching_receipt (mb_handoff_id m);
          if (mb_expires m <=? now)%Z then oko Rejected
          else if ceremony_active then oko Deferred
          else if match existing with
                  | Some p => negb (bool_decide (pg_handoff_id p ∈ retired)) && negb (is_expired p now)
                  | None => false
                  end then oko Deferred
          else accept_mailbox tag now m retired existing
      end
  end.

(** The hooks of [process_mailbox_with_hooks] do nothing in the app. *)
Definition process_mailbox_live (tag : string) (busy : bool) (now : Z) (ceremony_active : bool) : OIO (result MailboxOutcome io_error) :=
  there ← oexists MAILBOX_FILE_NAME;
  if negb there then oko Absent
  else
    held ←! acquire_handoff_lock busy;
    if negb held then oko Busy
    else
      r ← read_mailbox_doc;
      match r with
      | Ok None => oko Absent
      | Err _ => oko Rejected
      | Ok (Some m) => handle_mailbox tag now ceremony_active m
      end.
End mailbox.
End handoff.
