(* ===== verification/HandoffLogic.v ===== *)
(** * A link is taken once

    [used f h]: the link of handoff [h] is the one in progress, or is over for
    every reader of [f]. No operation makes a used link unused, and a link is
    accepted only while it is not used. *)
From Stdlib Require Import Ascii String.
From S2P Require Import Prelude RustStr PauseStore Model Ingest Transport OwnerFs Paired PairedLogic PairedSave PairedHistory Handoff.

Local Open Scope list_scope.

Section handoff.
Context `{PairLib} `{!PairLaws} `{HandoffLib} `{!HandoffLaws}.

(** ** What the files say *)

Definition bounded_at (path : string) (limit : Z) (f : gmap string string) : option string :=
  match f !! path with Some b => if (limit <? str_len b)%Z then None else Some b | None => None end.
Definition progress_doc (f : gmap string string) : option SetupHandoffProgress :=
  match bounded_at PROGRESS_FILE_NAME PROGRESS_MAX_BYTES f ≫= progress_of with
  | Some p => if progress_valid p then Some p else None
  | None => None
  end.
Definition progress_at (f : gmap string string) : option string := pg_handoff_id <$> progress_doc f.
Definition receipt_at (f : gmap string string) : option SetupHandoffReceipt :=
  bounded_at RECEIPT_FILE_NAME RECEIPT_MAX_BYTES f ≫= receipt_of.
Definition mailbox_at (f : gmap string string) : option SetupHandoffMailbox :=
  match bounded_at MAILBOX_FILE_NAME MAILBOX_MAX_BYTES f ≫= mailbox_of with
  | Some m => if mailbox_valid m then Some m else None
  | None => None
  end.

Definition used (f : gmap string string) (h : string) : Prop := progress_at f = Some h ∨ gone f h.
(** A receipt is given only for a link that is used. *)
Definition honest (f : gmap string string) : Prop := ∀ r h, receipt_at f = Some r → receipt_for h r = true → used f h.
Definition spends (o o' : Owned) : Prop :=
  (∀ h, used (o_files o) h → used (o_files o') h) ∧ (honest (o_files o) → honest (o_files o')).

Lemma spends_refl o : spends o o.
Proof. by split. Qed.
Lemma spends_trans o1 o2 o3 : spends o1 o2 → spends o2 o3 → spends o1 o3.
Proof. intros [Hu Hh] [Hu' Hh']. split; auto. Qed.

(** Files that decide what is used. *)
Definition same_links (o o' : Owned) : Prop :=
  o_files o' !! PROGRESS_FILE_NAME = o_files o !! PROGRESS_FILE_NAME ∧
  o_files o' !! RECEIPT_FILE_NAME = o_files o !! RECEIPT_FILE_NAME.
Lemma progress_doc_same f f' : f' !! PROGRESS_FILE_NAME = f !! PROGRESS_FILE_NAME → progress_doc f' = progress_doc f.
Proof. unfold progress_doc, bounded_at. by intros ->. Qed.
Lemma progress_at_same f f' : f' !! PROGRESS_FILE_NAME = f !! PROGRESS_FILE_NAME → progress_at f' = progress_at f.
Proof. intros Hp. unfold progress_at. by rewrite (progress_doc_same _ _ Hp). Qed.
Lemma receipt_at_same f f' : f' !! RECEIPT_FILE_NAME = f !! RECEIPT_FILE_NAME → receipt_at f' = receipt_at f.
Proof. unfold receipt_at, bounded_at. by intros ->. Qed.
Lemma closes_spends o o' : closes o o' → same_links o o' → spends o o'.
Proof.
  intros Hc [Hp Hr]. assert (Hu : ∀ h, used (o_files o) h → used (o_files o') h).
  { intros h [Hh|Hh]; [left; by rewrite (progress_at_same _ _ Hp)|right; by apply Hc]. }
  split; [done|]. intros Hh r h. rewrite (receipt_at_same _ _ Hr). intros Hr1 Hr2. apply Hu. by eapply Hh.
Qed.
Lemma same_but_history names o o' :
  same_but names o o' → PAIRED_STATE_FILE_NAME ∉ names → refused_pairing_path ∉ names → history (o_files o') = history (o_files o).
Proof. intros [_ Hf] Hp Hr. apply history_same; by apply Hf. Qed.
Lemma same_but_spends names o o' :
  same_but names o o' → PAIRED_STATE_FILE_NAME ∉ names → refused_pairing_path ∉ names →
  PROGRESS_FILE_NAME ∉ names → RECEIPT_FILE_NAME ∉ names → spends o o'.
Proof.
  intros Hs Hp Hr Hg Hc. apply closes_spends; [|destruct Hs as [_ Hf]; split; by apply Hf].
  intros h Hh ids. rewrite (same_but_history _ _ _ Hs Hp Hr). apply Hh.
Qed.

(** ** Writing the documents *)

Definition tmp_of (path tag : string) : list string := [staged_name path tag; path].
Lemma staged_long path tag : (String.length path < String.length (staged_name path tag))%nat.
Proof.
  unfold staged_name. induction path as [|c path IH]; cbn; [lia|]. cbn in IH. lia.
Qed.
Lemma staged_neq path tag : staged_name path tag ≠ path.
Proof. intros He. pose proof (staged_long path tag) as Hl. rewrite He in Hl. lia. Qed.

Definition written (path tag : string) (json : option string) (limit : Z) (o o' : Owned) : Prop :=
  ∃ b, json = Some b ∧ (str_len b <= limit)%Z ∧ same_but (tmp_of path tag) o o' ∧ o_files o' !! path = Some b.
Definition unwritten (path tag : string) (o o' : Owned) : Prop :=
  same_but (tmp_of path tag) o o' ∧ o_files o' !! path = o_files o !! path.
Lemma oht_write_json path tag json limit o :
  oht (λ o', o' = o) (write_atomic_json path tag json limit)
    (λ r o', written path tag json limit o o' ∨ (unwritten path tag o o' ∧ r ≠ Ok tt)) (λ o', written path tag json limit o o' ∨ unwritten path tag o o').
Proof using.
  clear - path tag json limit o. set (W := written path tag json limit o). set (U := unwritten path tag o). unfold write_atomic_json.
  assert (Hu0 : U o) by (split; [apply same_but_refl|done]).
  destruct json as [b|] eqn:Hj; [|apply oht_ret; intros o' ->; by right].
  destruct (limit <? str_len b)%Z eqn:Hl; [apply oht_ret; intros o' ->; by right|]. apply Z.ltb_ge in Hl. cbv zeta.
  set (tmp := staged_name path tag). assert (Hne : tmp ≠ path) by apply staged_neq.
  assert (Hm : ∀ o', maybe_put tmp path b o o' → W o' ∨ U o').
  { intros o' [Hs [Hd|Hd]]; [right; by split|left; by exists b]. }
  assert (Hst : ∀ o', staged_only tmp o o' → U o') by (intros o' Ho; destruct (staged_not_put tmp path Hne _ _ Ho); by split).
  eapply (oht_bind _ _ _ (λ r o', match r with Ok _ => W o' | Err _ => W o' ∨ U o' end)).
  - eapply oht_try; [eapply oht_weaken; [apply (oht_stage tmp b (λ e, e) o)|intros o' ->; apply same_but_refl|intros r o' Hr; exact Hr|]| |].
    + intros o' Ho. right. by apply Hst.
    + intros u. cbn. eapply oht_map_err; [eapply oht_weaken; [apply (oht_publish tmp path b Hne o)|by intros o' Ho|intros r o' Hr; exact Hr|intros o' Ho; by apply Hm]| |].
      * intros v o' [Hs Hd]. by exists b.
      * intros [] o' Ho; cbn in Ho; try (right; destruct Ho; by split). by apply Hm.
    + intros e o' [Ho _]. right. by apply Hst.
  - intros [u|e]; [apply oht_ret; intros o' Ho; by left|].
    eapply (oht_bind _ _ _ (λ _ o', W o' ∨ U o')); [|intros r; apply oht_ret; intros o' [?|?]; [by left|by right]].
    assert (Hdel : ∀ o', W o' ∨ U o' → W (set_files (delete tmp (o_files o')) o') ∨ U (set_files (delete tmp (o_files o')) o')).
    { intros o' [(b' & ? & ? & Hs & Hd)|[Hs Hd]]; [left; exists b'|right]; split_and!; try done;
        try (apply same_but_delete; [done|set_solver]); cbn; by rewrite lookup_delete_ne. }
    apply oht_call. intros o' Ho. pose proof (Hdel _ Ho) as Hd. rewrite set_files_same.
    destruct (o_files o' !! tmp); cbn; rewrite ?set_files_same; by split_and!.
Qed.

Lemma bounded_put path limit f b : f !! path = Some b → (str_len b <= limit)%Z → bounded_at path limit f = Some b.
Proof. intros Hf Hl. unfold bounded_at. rewrite Hf. destruct (limit <? str_len b)%Z eqn:He; [apply Z.ltb_lt in He; lia|done]. Qed.

(** Replacing a used link's progress, and giving a receipt. *)
Lemma progress_spends tag p limit o o' :
  (∀ h, progress_at (o_files o) = Some h → gone (o_files o) h) → written PROGRESS_FILE_NAME tag (progress_json p) limit o o' → spends o o'.
Proof.
  intros Hold (b & _ & _ & Hs & Hd).
  assert (Hh : history (o_files o') = history (o_files o)) by (eapply same_but_history; [exact Hs|set_solver..]).
  assert (Hr : o_files o' !! RECEIPT_FILE_NAME = o_files o !! RECEIPT_FILE_NAME) by (destruct Hs as [_ Hf]; apply Hf; set_solver).
  assert (Hu : ∀ h, used (o_files o) h → used (o_files o') h).
  { intros h Hu. right. intros ids. rewrite Hh. destruct Hu as [Hu|Hu]; [by apply (Hold h Hu)|by apply Hu]. }
  split; [done|]. intros Hhon r h. rewrite (receipt_at_same _ _ Hr). intros Hr1 Hr2. apply Hu. by eapply Hhon.
Qed.
Lemma receipt_spends tag id o o' :
  used (o_files o) id → written RECEIPT_FILE_NAME tag (receipt_json (mkReceipt RECEIPT_SCHEMA id true)) RECEIPT_MAX_BYTES o o' → spends o o'.
Proof.
  intros Hid (b & Hj & Hl & Hs & Hd).
  assert (Hh : history (o_files o') = history (o_files o)) by (eapply same_but_history; [exact Hs|set_solver..]).
  assert (Hp : o_files o' !! PROGRESS_FILE_NAME = o_files o !! PROGRESS_FILE_NAME) by (destruct Hs as [_ Hf]; apply Hf; set_solver).
  assert (Hu : ∀ h, used (o_files o) h → used (o_files o') h).
  { intros h [Hu|Hu]; [left; by rewrite (progress_at_same _ _ Hp)|right; intros ids; rewrite Hh; apply Hu]. }
  split; [done|]. intros _ r h Hrc Hrf. unfold receipt_at in Hrc. rewrite (bounded_put _ _ _ _ Hd Hl) in Hrc. cbn in Hrc.
  rewrite (receipt_round _ _ Hj) in Hrc. injection Hrc as <-. unfold receipt_for in Hrf. cbn in Hrf.
  rewrite !andb_true_iff, String.eqb_eq in Hrf. destruct Hrf as [<- _]. by apply Hu.
Qed.
Lemma unwritten_spends path tag o o' :
  unwritten path tag o o' → staged_name path tag ∉ [PAIRED_STATE_FILE_NAME; refused_pairing_path; PROGRESS_FILE_NAME; RECEIPT_FILE_NAME] → spends o o'.
Proof.
  intros [[Hl Hf] Hd] Hn. assert (Hall : ∀ n, n ∈ [PAIRED_STATE_FILE_NAME; refused_pairing_path; PROGRESS_FILE_NAME; RECEIPT_FILE_NAME] →
    o_files o' !! n = o_files o !! n).
  { intros n Hin. destruct (decide (n = path)) as [->|]; [done|]. apply Hf. unfold tmp_of. set_solver. }
  apply closes_spends; [|split; apply Hall; set_solver]. intros h Hh ids.
  rewrite (history_same (o_files o) (o_files o')) by (apply Hall; set_solver). apply Hh.
Qed.
End handoff.
