(* ===== verification/HandoffSteps.v ===== *)
(** * The mailbox under failures

    Processing the mailbox keeps used links used and receipts honest, whatever
    fails and wherever the process stops; it reports [Accepted] only for a
    link that was not used, which is then in progress with its receipt. *)
From Stdlib Require Import Ascii String.
From S2P Require Import Prelude RustStr PauseStore Model Ingest Transport OwnerFs Paired PairedLogic PairedSave PairedHistory Handoff HandoffLogic.

Local Open Scope list_scope.

Section steps.
Context `{PairLib} `{!PairLaws} `{HandoffLib} `{!HandoffLaws}.

(** ** Reading *)

Lemma peeks_bounded path limit :
  peeks (read_bounded path limit) (λ o r, match r with
    | Ok b => bounded_at path limit (o_files o) = Some b
    | Err NotFound => o_files o !! path = None
    | Err _ => True
    end).
Proof.
  unfold read_bounded. eapply peeks_try; [apply peeks_read| |].
  - intros b. destruct (limit <? str_len b)%Z eqn:Hl; apply peeks_ret; [done|]. intros o [Hr|Hr]; [|done].
    unfold found_file in Hr. unfold bounded_at. destruct (o_files o !! path); [|done]. injection Hr as ->. by rewrite Hl.
  - intros o [] [Hr|Hr]; try done. unfold found_file in Hr. by destruct (o_files o !! path).
Qed.
Lemma peeks_progress : peeks read_progress (λ o r, ∀ p, r = Ok p → progress_doc (o_files o) = p).
Proof.
  unfold read_progress. eapply peeks_bind; [apply peeks_bounded|]. unfold progress_doc. intros [b|[]].
  - destruct (progress_of b) as [p|] eqn:Hp; [|by apply peeks_ret]. destruct (progress_valid p) eqn:Hv; apply peeks_ret; [|done].
    intros o Hb q [= <-]. rewrite Hb. cbn. by rewrite Hp, Hv.
  - apply peeks_ret. intros o Hn q [= <-]. unfold bounded_at. by rewrite Hn.
  - by apply peeks_ret.
Qed.
Lemma peeks_receipt : peeks read_receipt_doc (λ o r, ∀ d, r = Some d → receipt_at (o_files o) = Some d).
Proof.
  unfold read_receipt_doc. eapply peeks_bind; [apply peeks_bounded|]. intros [b|e]; apply peeks_ret; [|done].
  intros o Hb d Hd. unfold receipt_at. by rewrite Hb.
Qed.
Lemma peeks_mailbox : peeks read_mailbox_doc (λ o r, ∀ m, r = Ok (Some m) → mailbox_at (o_files o) = Some m).
Proof.
  unfold read_mailbox_doc. eapply peeks_bind; [apply peeks_bounded|]. unfold mailbox_at. intros [b|[]]; [|by apply peeks_ret..].
  destruct (mailbox_of b) as [m|] eqn:Hm; [|by apply peeks_ret]. destruct (mailbox_valid m) eqn:Hv; apply peeks_ret; [|done].
  intros o Hb q [= <-]. rewrite Hb. cbn. by rewrite Hm, Hv.
Qed.
Lemma peeks_capacity id c : peeks (check_setup_handoff_capacity id c) (λ _ _, True).
Proof.
  unfold check_setup_handoff_capacity. eapply (peeks_try _ _ (λ _ _, True)); [eapply peeks_weaken; [apply peeks_history|done]| |done].
  intros ids. eapply (peeks_try _ _ (λ _ _, True)); [eapply peeks_weaken; [apply peeks_metadata|done]| |done]. intros m. by apply peeks_ret.
Qed.

(** ** Computations that spend links *)

Definition spender {A} (m : OIO A) (Q : Owned → A → Owned → Prop) : Prop :=
  ∀ o, oht (λ o', o' = o) m (λ a o', spends o o' ∧ Q o a o') (spends o).

Lemma spender_ret {A} (a : A) (Q : Owned → A → Owned → Prop) : (∀ o, Q o a o) → spender (mret a) Q.
Proof. intros HQ o. apply oht_ret. intros o' ->. split; [apply spends_refl|done]. Qed.
Lemma spender_weaken {A} (m : OIO A) (Q Q' : Owned → A → Owned → Prop) :
  spender m Q → (∀ o a o', Q o a o' → Q' o a o') → spender m Q'.
Proof. intros Hm HQ o. eapply oht_post; [apply Hm|]. intros a o' [? ?]. auto. Qed.
Lemma spender_bind {A B} (m : OIO A) (k : A → OIO B) Q Q' :
  spender m Q → (∀ a, spender (k a) (λ o1 b o2, ∀ o, Q o a o1 → Q' o b o2)) → spender (m ≫= k) Q'.
Proof.
  intros Hm Hk o. eapply oht_bind; [apply Hm|]. intros a. apply oht_at. intros o1 [Hs Hq].
  eapply oht_weaken; [apply (Hk a o1)|done|..].
  - intros b o' [Hs' Hq']. split; [by eapply spends_trans|by apply Hq'].
  - intros o' Hs'. by eapply spends_trans.
Qed.
Lemma spender_try {A B E} (m : OIO (result A E)) (k : A → OIO (result B E)) Q Q' :
  spender m Q → (∀ a, spender (k a) (λ o1 b o2, ∀ o, Q o (Ok a) o1 → Q' o b o2)) →
  (∀ o e o', Q o (Err e) o' → Q' o (Err e) o') → spender (tryo m k) Q'.
Proof. intros Hm Hk He. eapply spender_bind; [done|]. intros [a|e]; [apply Hk|]. apply spender_ret. auto. Qed.
Lemma spender_peeks {A} (m : OIO A) φ : peeks m φ → spender m (λ o a o', o' = o ∧ φ o a).
Proof.
  intros Hm o. eapply oht_weaken; [apply (oht_peeks _ _ (λ o', o' = o) (λ o', o' = o) Hm); done|done|..].
  - intros a o' [-> ?]. split; [apply spends_refl|done].
  - intros o' ->. apply spends_refl.
Qed.
(** After a read the rest runs from the same files. *)
Lemma spender_look {A B} (m : OIO A) (k : A → OIO B) φ (Q : Owned → B → Owned → Prop) :
  peeks m φ → (∀ a o, φ o a → oht (λ o', o' = o) (k a) (λ b o', spends o o' ∧ Q o b o') (spends o)) → spender (m ≫= k) Q.
Proof.
  intros Hm Hk o. eapply oht_bind; [apply (oht_peeks _ _ (λ o', o' = o) (spends o) Hm); intros ? ->; apply spends_refl|].
  intros a. cbn. eapply oht_pre; [apply (oht_fix _ (φ o a) o)|by intros ? [-> ?]]. by apply Hk.
Qed.
Lemma spender_only {A} names (m : OIO A) :
  (∀ o, oht (λ o', o' = o) m (λ _ o', same_but names o o') (same_but names o)) →
  (∀ n, n ∈ names → n ∉ [PAIRED_STATE_FILE_NAME; refused_pairing_path; PROGRESS_FILE_NAME; RECEIPT_FILE_NAME]) →
  spender m (λ o _ o', same_but names o o').
Proof.
  intros Hm Hn o. assert (Hs : ∀ o', same_but names o o' → spends o o') by (intros o' Hs; eapply same_but_spends; [exact Hs|set_solver..]).
  eapply oht_weaken; [apply (Hm o)|done|..]; auto.
Qed.

Lemma lock_only busy o :
  oht (λ o', o' = o) (acquire_handoff_lock busy) (λ _ o', same_but [LOCK_FILE_NAME] o o') (same_but [LOCK_FILE_NAME] o).
Proof using.
  clear - busy o. unfold acquire_handoff_lock.
  eapply (oht_try _ _ _ (λ _ o', o' = o)); [apply oht_quiet_call; intros o' ->; apply same_but_refl| |intros e o' ->; apply same_but_refl].
  intros u. eapply (oht_try _ _ _ (λ _ o', same_but [LOCK_FILE_NAME] o o')); [|intros v; by apply oht_ret|done].
  apply oht_call. intros o' ->. rewrite set_files_same. pose proof (same_but_refl [LOCK_FILE_NAME] o) as Hr.
  assert (Hi : same_but [LOCK_FILE_NAME] o (set_files (<[LOCK_FILE_NAME := EmptyString]> (o_files o)) o)) by (apply same_but_insert; [done|set_solver]).
  destruct (o_files o !! LOCK_FILE_NAME); cbn; rewrite ?set_files_same; by split_and!.
Qed.
Lemma spender_lock busy : spender (acquire_handoff_lock busy) (λ o _ o', same_but [LOCK_FILE_NAME] o o').
Proof. apply spender_only; [intros o; apply lock_only|set_solver]. Qed.

Lemma oht_remove name o :
  oht (λ o', o' = o) (oremove name) (λ r o', same_but [name] o o' ∧ (o_files o' !! name = o_files o !! name ∨ o_files o' !! name = None))
    (λ o', same_but [name] o o' ∧ (o_files o' !! name = o_files o !! name ∨ o_files o' !! name = None)).
Proof using.
  clear - name o. pose proof (same_but_refl [name] o) as Hr. unfold oremove. apply oht_call. intros o' ->. rewrite set_files_same.
  assert (Hd : same_but [name] o (set_files (delete name (o_files o)) o) ∧ o_files (set_files (delete name (o_files o)) o) !! name = None).
  { split; [apply same_but_delete; [done|set_solver]|]. cbn. by rewrite lookup_delete_eq. }
  destruct (o_files o !! name) eqn:Hn; cbn; rewrite ?set_files_same; destruct Hd; split_and!; auto.
Qed.

Lemma removed_receipt o o' :
  same_but [RECEIPT_FILE_NAME] o o' ∧ (o_files o' !! RECEIPT_FILE_NAME = o_files o !! RECEIPT_FILE_NAME ∨ o_files o' !! RECEIPT_FILE_NAME = None) →
  spends o o'.
Proof.
  intros [Hs Hd]. assert (Hh : history (o_files o') = history (o_files o)) by (eapply same_but_history; [exact Hs|set_solver..]).
  assert (Hp : o_files o' !! PROGRESS_FILE_NAME = o_files o !! PROGRESS_FILE_NAME) by (destruct Hs as [_ Hf]; apply Hf; set_solver).
  assert (Hu : ∀ h, used (o_files o) h → used (o_files o') h).
  { intros h [Hu|Hu]; [left; by rewrite (progress_at_same _ _ Hp)|right; intros ids; rewrite Hh; apply Hu]. }
  split; [done|]. intros Hhon r h Hrc Hrf. apply Hu. destruct Hd as [Hd|Hd].
  - eapply Hhon; [by rewrite <- (receipt_at_same _ _ Hd)|done].
  - unfold receipt_at, bounded_at in Hrc. by rewrite Hd in Hrc.
Qed.
Lemma spender_invalidate id : spender (invalidate_matching_receipt id) (λ o _ o', same_but [RECEIPT_FILE_NAME] o o').
Proof.
  unfold invalidate_matching_receipt. eapply spender_look; [apply peeks_receipt|]. intros r o _.
  assert (Hret : oht (λ o', o' = o) (oko tt) (λ (_ : result unit io_error) o', spends o o' ∧ same_but [RECEIPT_FILE_NAME] o o') (spends o)).
  { apply oht_ret. intros o' ->. split; [apply spends_refl|apply same_but_refl]. }
  destruct r as [r|]; [|apply Hret]. destruct (receipt_for id r); [|apply Hret].
  eapply oht_weaken; [apply (oht_remove _ o)|done|..].
  - intros a o' Ho. split; [by apply removed_receipt|apply Ho].
  - intros o' Ho. by apply removed_receipt.
Qed.
Lemma spender_consume id : spender (consume_mailbox_if_same id) (λ o _ o', same_but [MAILBOX_FILE_NAME] o o').
Proof.
  apply spender_only; [|set_solver]. intros o. unfold consume_mailbox_if_same. pose proof (same_but_refl [MAILBOX_FILE_NAME] o) as Hr.
  eapply oht_bind; [apply (oht_peeks _ _ (λ o', o' = o) _ peeks_mailbox); by intros ? ->|]. intros r. cbn.
  eapply (oht_pre _ _ (λ o', o' = o)); [|by intros ? [? _]].
  assert (Hret : oht (λ o', o' = o) (mret tt) (λ _ o', same_but [MAILBOX_FILE_NAME] o o') (same_but [MAILBOX_FILE_NAME] o))
    by (apply oht_ret; by intros ? ->).
  destruct r as [[m|]|]; [|apply Hret..]. destruct (String.eqb _ _); [|apply Hret].
  eapply oht_bind; [eapply oht_weaken; [apply (oht_remove _ o)|done|intros a o' [Ho _]; exact Ho|by intros o' [Ho _]]|].
  intros a. by apply oht_ret.
Qed.

(** ** Receipts and progress *)

Notation LINK_FILES := [PAIRED_STATE_FILE_NAME; refused_pairing_path; PROGRESS_FILE_NAME; RECEIPT_FILE_NAME].
Lemma staged_receipt tag : staged_name RECEIPT_FILE_NAME tag ∉ LINK_FILES.
Proof. pose proof (staged_neq RECEIPT_FILE_NAME tag). set_solver. Qed.
Lemma staged_progress tag : staged_name PROGRESS_FILE_NAME tag ∉ LINK_FILES.
Proof. pose proof (staged_neq PROGRESS_FILE_NAME tag). set_solver. Qed.

Definition has_receipt (id : string) (f : gmap string string) : Prop := ∃ r, receipt_at f = Some r ∧ receipt_for id r = true.
Definition receipt_text (id : string) : option string := receipt_json (mkReceipt RECEIPT_SCHEMA id true).
Lemma written_receipt tag id o o' : written RECEIPT_FILE_NAME tag (receipt_text id) RECEIPT_MAX_BYTES o o' → has_receipt id (o_files o').
Proof.
  intros (b & Hj & Hl & _ & Hd). exists (mkReceipt RECEIPT_SCHEMA id true). unfold receipt_at. rewrite (bounded_put _ _ _ _ Hd Hl). cbn.
  rewrite (receipt_round _ _ Hj). split; [done|]. unfold receipt_for. cbn. by rewrite String.eqb_refl.
Qed.
Lemma oht_receipt tag id o :
  used (o_files o) id →
  oht (λ o', o' = o) (write_atomic_json RECEIPT_FILE_NAME tag (receipt_text id) RECEIPT_MAX_BYTES)
    (λ r o', spends o o' ∧ same_but (tmp_of RECEIPT_FILE_NAME tag) o o' ∧ (r = Ok tt → has_receipt id (o_files o'))) (spends o).
Proof.
  intros Hu. eapply oht_weaken; [apply (oht_write_json _ _ _ _ o)|done|..].
  - intros r o' [Hw|[Hn Hr]]; [|split; [by eapply unwritten_spends, staged_receipt|split; [apply Hn|done]]].
    split; [by eapply receipt_spends|]. split; [|intros _; by eapply written_receipt]. by destruct Hw as (? & _ & _ & ? & _).
  - intros o' [Hw|Hn]; [by eapply receipt_spends|by eapply unwritten_spends, staged_receipt].
Qed.

Lemma oht_repair tag id o :
  used (o_files o) id →
  oht (λ o', o' = o) (repair_receipt tag id) (λ r o', spends o o' ∧ (r = Ok tt → has_receipt id (o_files o'))) (spends o).
Proof.
  intros Hu. unfold repair_receipt.
  eapply oht_bind; [apply (oht_peeks _ _ (λ o', o' = o) (spends o) peeks_receipt); intros ? ->; apply spends_refl|].
  intros r. cbn. eapply oht_pre; [apply (oht_fix _ (∀ d, r = Some d → receipt_at (o_files o) = Some d) o)|by intros ? [-> ?]]. intros Hr.
  destruct (match r with Some _ => _ | None => true end) eqn:Hn.
  - eapply oht_post; [by apply oht_receipt|]. intros a o' (? & _ & ?). by split.
  - apply oht_ret. intros o' ->. split; [apply spends_refl|]. intros _. destruct r as [r|]; [|done].
    rewrite !orb_false_iff, !negb_false_iff in Hn. destruct Hn as [[Hs Hi] Ha]. exists r. split; [by apply Hr|]. unfold receipt_for. by rewrite Hs, Hi, Ha.
Qed.
Lemma mailbox_only_receipt id o o' : same_but [MAILBOX_FILE_NAME] o o' → has_receipt id (o_files o) → has_receipt id (o_files o').
Proof. intros [_ Hf] (r & Hr & Hi). exists r. split; [|done]. rewrite (receipt_at_same (o_files o)); [done|]. apply Hf. set_solver. Qed.

Lemma oht_replay tag id o :
  used (o_files o) id →
  oht (λ o', o' = o) (replay_mailbox tag id)
    (λ r o', spends o o' ∧ (is_ok r = true → r = Ok Replay ∧ has_receipt id (o_files o'))) (spends o).
Proof.
  intros Hu. unfold replay_mailbox. eapply oht_try; [by apply oht_repair| |by intros e o' [? _]].
  intros u. cbn. apply oht_at. intros o1 [Hs Hr]. destruct u. specialize (Hr eq_refl).
  eapply oht_bind; [eapply oht_weaken; [apply (spender_consume id o1)|done|intros a o' Ho; exact Ho|intros o' Ho; by eapply spends_trans]|].
  intros a. apply oht_ret. intros o' [Hs' Hb]. split; [by eapply spends_trans|]. intros _. split; [done|]. by eapply mailbox_only_receipt.
Qed.

(** ** The link that is replaced is retired first *)

Lemma saved_gone o st o' id : Saved o st o' → id ∈ retired_setup_handoffs st → gone (o_files o') id.
Proof.
  intros (bytes & s' & Hb & (p & a & _ & _ & _ & (_ & _ & Hs')) & [_ Hd]) Hin ids (p' & a' & Hmp & _ & _ & _ & -> & _)%history_Some.
  rewrite (metadata_put _ _ _ _ Hd Hb) in Hmp. destruct (valid_setup_ids (retired_setup_handoffs s')); [|done]. injection Hmp as <-.
  assert (retired_setup_handoffs s' = retired_setup_handoffs (merge p a st)) as Hr by (by rewrite Hs').
  pose proof (merge_over p a st) as Hm. cbn. unfold over_ids. rewrite Hr. set_solver.
Qed.
Lemma outcome_spends o T o' : outcome o T o' → spends o o'.
Proof.
  intros Ho. apply closes_spends; [by eapply outcome_closes|]. destruct Ho as ([_ Hf] & _). split; apply Hf; set_solver.
Qed.
Lemma oht_retire_handoff id o :
  oht (λ o', o' = o) (retire_setup_handoff id)
    (λ r o', spends o o' ∧ same_but PAIRED_FILES o o' ∧ (r = Ok tt → gone (o_files o') id)) (spends o).
Proof.
  assert (He : ∀ o', same_but EVIDENCE_FILES o o' → spends o o' ∧ same_but PAIRED_FILES o o').
  { intros o' Hs. pose proof (outcome_evidence o (λ _, False) o' Hs) as Ho. split; [by eapply outcome_spends|apply Ho]. }
  unfold retire_setup_handoff. eapply oht_try; [eapply oht_weaken; [apply (oreads_load o)|done|intros r o' Hr; exact Hr|intros o' Ho; by apply He]| |].
  2: intros e o' Ho; destruct (He _ Ho); by split_and!.
  intros s. cbn. eapply (oht_pre _ _ (λ o', o' = o)); [|by intros ? [? _]]. set (st := set_retired _ s).
  assert (Hsv : ∀ o', Saved o st o' → spends o o' ∧ same_but PAIRED_FILES o o' ∧ gone (o_files o') id).
  { intros o' Hsv. pose proof (outcome_saved o st (λ _, True) o' Hsv I) as Ho. split_and!; [by eapply outcome_spends|apply Ho|].
    eapply saved_gone; [done|]. cbn. set_solver. }
  assert (Hun : ∀ o', Unsaved o o' → spends o o' ∧ same_but PAIRED_FILES o o').
  { intros o' Hun. pose proof (outcome_unsaved o (λ _, False) o' Hun) as Ho. split; [by eapply outcome_spends|apply Ho]. }
  eapply oht_map_err; [eapply oht_weaken; [apply (oht_save_inner st o)|done|intros r o' Hr; exact Hr|]| |].
  - intros o' [Ho|Ho]; [by destruct (Hsv _ Ho)|by destruct (Hun _ Ho)].
  - intros u o' Ho. cbn in Ho. destruct (Hsv _ Ho) as (? & ? & ?). by split_and!.
  - intros [] o' Ho; cbn in Ho; try (destruct (Hun _ Ho); by split_and!). destruct Ho as [Ho|Ho]; [destruct (Hsv _ Ho) as (? & ? & ?)|destruct (Hun _ Ho)]; by split_and!.
Qed.
End steps.
