(* ===== verification/HandoffProps.v ===== *)
(** * The mailbox as a whole, beside the owner's other operations

    The system: the sender changes the mailbox, the app processes it, and the
    app saves, retires, sets aside and rejects pairings, in any order and with
    any failures. Each link is accepted at most once. *)
From Stdlib Require Import Ascii String.
From S2P Require Import Prelude RustStr PauseStore Model Ingest Transport OwnerFs Paired PairedLogic PairedSave PairedHistory Answer Retire Handoff HandoffLogic HandoffSteps.

Local Open Scope list_scope.

Section props.
Context `{PairLib} `{!PairLaws} `{HandoffLib} `{!HandoffLaws}.

(** ** Accepting *)

Lemma progress_for_valid m now : mailbox_valid m = true → (0 <= mb_expires m)%Z → progress_valid (progress_for m now) = true.
Proof.
  unfold mailbox_valid, progress_valid, progress_for. cbn [pg_schema pg_expires pg_handoff_id pg_fingerprint pg_instance_id pg_link].
  destruct (String.eqb (mb_schema m) _), (is_canonical_uuid _); try done. cbn [negb orb].
  destruct (mb_step m =? _)%Z; [|done]. destruct (Z.eqb_spec (mb_expires m) 0) as [|Hne]; [done|]. cbn [negb orb]. intros -> Hr.
  rewrite String.eqb_refl. assert ((0 <? mb_expires m)%Z = true) as -> by lia. done.
Qed.
Lemma written_progress tag m now o o' :
  mailbox_valid m = true → (0 <= mb_expires m)%Z →
  written PROGRESS_FILE_NAME tag (progress_json (progress_for m now)) PROGRESS_MAX_BYTES o o' →
  progress_at (o_files o') = Some (mb_handoff_id m).
Proof.
  intros Hv Hr (b & Hj & Hl & _ & Hd). unfold progress_at, progress_doc. rewrite (bounded_put _ _ _ _ Hd Hl). cbn.
  by rewrite (progress_round _ _ Hj), (progress_for_valid m now Hv Hr).
Qed.

(** The old link is over before the new one is taken. *)
Lemma oht_retire_existing existing retired o :
  history (o_files o) = Some retired → progress_doc (o_files o) = existing →
  oht (λ o', o' = o)
    (match existing with
     | Some p => if bool_decide (pg_handoff_id p ∈ retired) then oko tt else map_err (λ _, OtherError) (retire_setup_handoff (pg_handoff_id p))
     | None => oko tt
     end)
    (λ (r : result unit io_error) o', spends o o' ∧ (r = Ok tt → ∀ h, progress_at (o_files o') = Some h → gone (o_files o') h)) (spends o).
Proof.
  intros Hh Hp. assert (Hat : progress_at (o_files o) = pg_handoff_id <$> existing) by (unfold progress_at; by rewrite Hp).
  destruct existing as [p|].
  - case_bool_decide as Hin.
    + apply oht_ret. intros o' ->. split; [apply spends_refl|]. intros _ h. rewrite Hat. intros [= <-] ids. rewrite Hh. by intros [= <-].
    + eapply oht_map_err; [apply (oht_retire_handoff (pg_handoff_id p) o)| |].
      * intros [] o' (Hs & [_ Hf] & Hg). split; [done|]. intros _ h.
        rewrite (progress_at_same (o_files o)) by (apply Hf; set_solver). rewrite Hat. intros [= <-]. by apply Hg.
      * intros e o' (Hs & _). by split.
  - apply oht_ret. intros o' ->. split; [apply spends_refl|]. intros _ h. by rewrite Hat.
Qed.

Definition taken (id : string) (f : gmap string string) : Prop := progress_at f = Some id ∧ has_receipt id f.

Lemma oht_accept tag now m retired existing o :
  history (o_files o) = Some retired → progress_doc (o_files o) = existing → mailbox_valid m = true → (0 <= mb_expires m)%Z →
  oht (λ o', o' = o) (accept_mailbox tag now m retired existing)
    (λ r o', spends o o' ∧ (is_ok r = true → r = Ok Accepted ∧ taken (mb_handoff_id m) (o_files o'))) (spends o).
Proof.
  intros Hh Hp Hv Hr. unfold accept_mailbox.
  eapply (oht_try _ _ _ (λ _ o', o' = o)); [eapply oht_map_err; [apply (oht_peeks _ _ (λ o', o' = o) (spends o) (peeks_capacity _ _)); intros ? ->; apply spends_refl|by intros a o' [Ho _]..]| |].
  2: intros e o' ->; split; [apply spends_refl|done].
  intros u. cbn. eapply oht_try; [by apply oht_retire_existing| |by intros e o' [? _]]. intros u1. cbn. destruct u1. apply oht_at. intros o1 [Hs1 Hold].
  specialize (Hold eq_refl). eapply (oht_try _ _ _ (λ r o', spends o o' ∧ (r = Ok tt → progress_at (o_files o') = Some (mb_handoff_id m)))).
  { eapply oht_weaken; [apply (oht_write_json _ _ _ _ o1)|done|..].
    - intros r o' [Hw|[Hn Hr']].
      + split; [eapply spends_trans; [done|by eapply progress_spends]|]. intros _. by eapply written_progress.
      + split; [eapply spends_trans; [done|by eapply unwritten_spends, staged_progress]|done].
    - intros o' [Hw|Hn]; eapply spends_trans; try done; [by eapply progress_spends|by eapply unwritten_spends, staged_progress]. }
  2: by intros e o' [? _].
  intros u2. destruct u2. apply oht_at. intros o2 [Hs2 Hp2]. specialize (Hp2 eq_refl).
  eapply (oht_try _ _ _ (λ r o', spends o o' ∧ (r = Ok tt → taken (mb_handoff_id m) (o_files o')))).
  { eapply oht_weaken; [apply (oht_receipt tag (mb_handoff_id m) o2); by left|done|..].
    - intros r o' (Hs3 & [_ Hf] & Hrc). split; [by eapply spends_trans|]. intros ->. split; [|by apply Hrc].
      rewrite (progress_at_same (o_files o2)); [done|]. apply Hf. unfold tmp_of. pose proof (staged_receipt tag). set_solver.
    - intros o' Hs3. by eapply spends_trans. }
  2: by intros e o' [? _].
  intros u3. destruct u3. apply oht_at. intros o3 [Hs3 Ht]. specialize (Ht eq_refl).
  eapply oht_bind; [eapply oht_weaken; [apply (spender_consume (mb_handoff_id m) o3)|done|intros a o' Ho; exact Ho|intros o' Ho; by eapply spends_trans]|].
  intros a. apply oht_ret. intros o' [Hs' Hb]. split; [by eapply spends_trans|]. intros _. split; [done|]. destruct Ht as [Hpr Hrc].
  split; [|by eapply mailbox_only_receipt]. destruct Hb as [_ Hf]. rewrite (progress_at_same (o_files o3)); [done|]. apply Hf. set_solver.
Qed.

(** ** Deciding *)

(** What a result tells about the link [id]: accepted only if it was not used,
    answered as a replay only if it was. *)
Definition decided (id : string) (o : Owned) (r : result MailboxOutcome io_error) (o' : Owned) : Prop :=
  (r = Ok Accepted → ¬ used (o_files o) id ∧ taken id (o_files o')) ∧
  (r = Ok Replay → used (o_files o) id ∧ has_receipt id (o_files o')).

Lemma used_dec_not f id ids : history f = Some ids → id ∉ ids → progress_at f ≠ Some id → ¬ used f id.
Proof. intros Hh Hn Hp [Hu|Hu]; [done|]. by apply Hn, Hu. Qed.

Lemma oht_handle tag now active m o :
  mailbox_valid m = true → (0 <= mb_expires m)%Z →
  oht (λ o', o' = o) (handle_mailbox tag now active m) (λ r o', spends o o' ∧ decided (mb_handoff_id m) o r o') (spends o).
Proof.
  intros Hv Hr. set (id := mb_handoff_id m).
  assert (Hrep : used (o_files o) id → oht (λ o', o' = o) (replay_mailbox tag id) (λ r o', spends o o' ∧ decided id o r o') (spends o)).
  { intros Hu. eapply oht_post; [by apply oht_replay|]. intros r o' [Hs Hok]. split; [done|].
    split; intros ->; destruct (Hok eq_refl) as [? ?]; [done|by split]. }
  assert (Hinv : ∀ e, oht (λ o', o' = o) (_ ←! invalidate_matching_receipt id; erro e) (λ r o', spends o o' ∧ decided id o r o') (spends o)).
  { intros e. eapply oht_try; [apply (spender_invalidate id o)| |intros e' o' [? _]; by split].
    intros u. apply oht_ret. intros o' [? _]. by split. }
  unfold handle_mailbox. eapply oht_bind; [apply (oht_peeks _ _ (λ o', o' = o) (spends o) peeks_history); intros ? ->; apply spends_refl|].
  intros r. cbn. eapply oht_pre; [apply (oht_fix _ (∀ ids, r = Ok ids → history (o_files o) = Some ids) o)|by intros ? [-> ?]]. intros Hh.
  destruct r as [retired|e]; [|apply Hinv]. specialize (Hh _ eq_refl).
  case_bool_decide as Hin; [apply Hrep; right; intros ids; rewrite Hh; by intros [= <-]|].
  eapply oht_bind; [apply (oht_peeks _ _ (λ o', o' = o) (spends o) peeks_progress); intros ? ->; apply spends_refl|].
  intros r. cbn. eapply oht_pre; [apply (oht_fix _ (∀ p, r = Ok p → progress_doc (o_files o) = p) o)|by intros ? [-> ?]]. intros Hp.
  destruct r as [existing|e]; [|apply Hinv]. specialize (Hp _ eq_refl).
  assert (Hat : progress_at (o_files o) = pg_handoff_id <$> existing) by (unfold progress_at; by rewrite Hp).
  case_bool_decide as Hsame; [apply Hrep; left; by rewrite Hat|].
  eapply oht_try; [apply (spender_invalidate id o)| |intros e' o' [? _]; by split].
  intros u. cbn. apply oht_at. intros o1 [Hs1 Hb1].
  assert (Hret : ∀ out, out ≠ Accepted → out ≠ Replay → oht (λ o', o' = o1) (oko out) (λ r o', spends o o' ∧ decided id o r o') (spends o)).
  { intros out Ha Hre. apply oht_ret. intros o' ->. split; [done|]. split; congruence. }
  destruct (_ <=? _)%Z; [by apply Hret|]. destruct active; [by apply Hret|].
  destruct (match existing with Some _ => _ | None => false end); [by apply Hret|].
  eapply oht_weaken; [apply (oht_accept tag now m retired existing o1)|done|..]; try done.
  - by rewrite (same_but_history _ _ _ Hb1) by set_solver.
  - rewrite <- Hp. apply progress_doc_same. destruct Hb1 as [_ Hf]. apply Hf. set_solver.
  - intros r o' [Hs Hok]. split; [by eapply spends_trans|]. split; intros ->; destruct (Hok eq_refl) as [He Ht]; [|by injection He].
    split; [|done]. eapply used_dec_not; [done|done|]. by rewrite Hat.
  - intros o' Hs. by eapply spends_trans.
Qed.

Lemma mailbox_at_ok f m : mailbox_at f = Some m → mailbox_valid m = true ∧ (0 <= mb_expires m)%Z.
Proof.
  unfold mailbox_at. destruct (bounded_at _ _ f) as [b|]; [|done]. cbn. destruct (mailbox_of b) as [m'|] eqn:Hm; [|done].
  destruct (mailbox_valid m') eqn:Hv; [|done]. intros [= <-]. split; [done|]. by eapply mailbox_range.
Qed.
Lemma used_same_but names o o' id :
  same_but names o o' → PAIRED_STATE_FILE_NAME ∉ names → refused_pairing_path ∉ names → PROGRESS_FILE_NAME ∉ names →
  used (o_files o') id ↔ used (o_files o) id.
Proof.
  intros Hs Hp Hr Hg. unfold used, gone. rewrite (same_but_history _ _ _ Hs Hp Hr).
  destruct Hs as [_ Hf]. by rewrite (progress_at_same (o_files o)) by by apply Hf.
Qed.

(** Processing the mailbox, for the link it holds. *)
Lemma oht_process tag busy now active o :
  oht (λ o', o' = o) (process_mailbox_live tag busy now active)
    (λ r o', spends o o' ∧ (r = Ok Accepted ∨ r = Ok Replay → ∃ m, mailbox_at (o_files o) = Some m ∧ decided (mb_handoff_id m) o r o'))
    (spends o).
Proof.
  unfold process_mailbox_live.
  eapply oht_bind; [apply (oht_exists _ (λ o', o' = o)); intros ? ->; apply spends_refl|]. intros there. cbn.
  eapply (oht_pre _ _ (λ o', o' = o)); [|by intros ? [? _]].
  assert (Hret : ∀ o1 out, spends o o1 → out ≠ Accepted → out ≠ Replay → oht (λ o', o' = o1) (oko out)
    (λ r o', spends o o' ∧ (r = Ok Accepted ∨ r = Ok Replay → ∃ m, mailbox_at (o_files o) = Some m ∧ decided (mb_handoff_id m) o r o')) (spends o)).
  { intros o1 out Hs Ha Hre. apply oht_ret. intros o' ->. split; [done|]. intros [?|?]; congruence. }
  destruct (negb there); [by apply Hret; [apply spends_refl|..]|].
  eapply oht_try; [apply (spender_lock busy o)| |intros e o' [? _]; split; [done|]; by intros [?|?]].
  intros held. apply oht_at. intros o1 [Hs1 Hb1]. destruct (negb held); [by apply Hret|].
  eapply oht_bind; [apply (oht_peeks _ _ (λ o', o' = o1) (spends o) peeks_mailbox); by intros ? ->|].
  intros r. cbn. eapply oht_pre; [apply (oht_fix _ (∀ m, r = Ok (Some m) → mailbox_at (o_files o1) = Some m) o1)|by intros ? [-> ?]]. intros Hm.
  destruct r as [[m|]|e]; [|by apply Hret..]. specialize (Hm _ eq_refl). destruct (mailbox_at_ok _ _ Hm) as [Hv Hrg].
  eapply oht_weaken; [by apply (oht_handle tag now active m o1)|done|..].
  - intros r o' [Hs Hd]. split; [by eapply spends_trans|]. intros _. exists m. split.
    + rewrite <- Hm. unfold mailbox_at, bounded_at. destruct Hb1 as [_ Hf]. by rewrite Hf by set_solver.
    + assert (Hu : used (o_files o1) (mb_handoff_id m) ↔ used (o_files o) (mb_handoff_id m)) by (eapply used_same_but; [exact Hb1|set_solver..]).
      destruct Hd as [Ha Hre]. split; intros Hx; [destruct (Ha Hx) as [Hn ?]|destruct (Hre Hx) as [Hn ?]]; (split; [|done]); [|by apply Hu].
      intros Hc. by apply Hn, Hu.
  - intros o' Hs. by eapply spends_trans.
Qed.
End props.
