(* ===== verification/HandoffSystem.v ===== *)
(** * The mailbox beside the owner's other operations

    The sender changes the mailbox, the app processes it, and the app saves,
    retires, sets aside and rejects pairings and records the owner's answer,
    in any order, with any failures and with the process stopping anywhere. *)
From Stdlib Require Import Ascii String.
From S2P Require Import Prelude RustStr PauseStore Model Ingest Transport OwnerFs Paired PairedLogic PairedSave PairedHistory Answer Retire RetireLogic RetireSteps Handoff HandoffLogic HandoffSteps HandoffProps PairedOpen.

Local Open Scope list_scope.

Section system.
Context `{PairLib} `{!PairLaws} `{RetireLib} `{HandoffLib} `{!HandoffLaws}.

(** ** Operations that leave the links alone *)

Definition leaves {A} (m : OIO A) : Prop := spender m (λ _ _ _, True).

Lemma leaves_ret {A} (a : A) : leaves (mret a).
Proof. by apply spender_ret. Qed.
Lemma leaves_bind {A B} (m : OIO A) (k : A → OIO B) : leaves m → (∀ a, leaves (k a)) → leaves (m ≫= k).
Proof. intros Hm Hk. eapply spender_bind; [done|]. intros a. eapply spender_weaken; [apply Hk|done]. Qed.
Lemma leaves_try {A B E} (m : OIO (result A E)) (k : A → OIO (result B E)) : leaves m → (∀ a, leaves (k a)) → leaves (tryo m k).
Proof. intros Hm Hk. apply leaves_bind; [done|]. intros [a|e]; [apply Hk|apply leaves_ret]. Qed.
Lemma leaves_map_err {A E F} (f : E → F) (m : OIO (result A E)) : leaves m → leaves (map_err f m).
Proof. intros Hm. apply leaves_bind; [done|]. intros a. apply leaves_ret. Qed.
Lemma leaves_peeks {A} (m : OIO A) φ : peeks m φ → leaves m.
Proof. intros Hm. eapply spender_weaken; [by apply spender_peeks|done]. Qed.
Lemma leaves_updates {A E} (m : OIO (result A E)) T : updates m T → leaves m.
Proof.
  intros Hm o. eapply oht_weaken; [apply (Hm o)|done|..].
  - intros a o' Ho. split; [exact (outcome_spends _ _ _ Ho)|done].
  - intros o' Ho. exact (outcome_spends _ _ _ Ho).
Qed.
Lemma leaves_reads {A E} (m : OIO (result A E)) φ : reads m φ → leaves m.
Proof.
  intros Hm o. eapply oht_weaken; [apply (Hm o)|done|..].
  - intros [a|e] o'; [intros [-> _]; split; [apply spends_refl|done]|]. intros He. split; [|done].
    exact (outcome_spends _ (λ _, False) _ (outcome_evidence _ _ _ He)).
  - intros o' He. exact (outcome_spends _ (λ _, False) _ (outcome_evidence _ _ _ He)).
Qed.
Lemma leaves_load : leaves load.
Proof. eapply leaves_reads, oreads_load. Qed.
Lemma leaves_write_answer a : leaves (write_answer a).
Proof.
  eapply (spender_weaken _ (λ o _ o', same_but [ANSWER_TMP; answer_path] o o')); [|done]. apply spender_only; [|set_solver]. intros o.
  eapply oht_weaken; [apply (oht_write_answer_put a o)|done|by intros r o' [Ho _]|by intros o' [Ho _]].
Qed.
Lemma leaves_read_answer : leaves read_answer.
Proof. eapply leaves_peeks, peeks_read_answer. Qed.
Lemma leaves_asked a : leaves (asked a).
Proof. intros o w Hw. cbn in Hw. subst o. cbn. split; [|done]. by split. Qed.
Lemma leaves_set_aside : leaves set_aside_refused_client_key.
Proof.
  intros o. assert (Hs : ∀ o', shut o o' → spends o o').
  { intros o' [Hc [_ Hf]]. apply closes_spends; [done|]. split; apply Hf; set_solver. }
  eapply oht_weaken; [apply (oht_set_aside o)|done|intros r o' Ho; split; [by apply Hs|done]|intros o' Ho; by apply Hs].
Qed.
Create HintDb leaves.
#[local] Hint Resolve leaves_ret leaves_load leaves_write_answer leaves_read_answer leaves_asked leaves_set_aside leaves_map_err : leaves.

(** One step of the search for a proof that a computation leaves the links alone. *)
Ltac leaves_step :=
  match goal with
  | |- leaves (mret _) => apply leaves_ret
  | |- leaves (oko _) => apply leaves_ret
  | |- leaves (erro _) => apply leaves_ret
  | |- leaves (tryo _ _) => apply leaves_try; [|intros ?]
  | |- leaves (map_err _ _) => apply leaves_map_err
  | |- leaves (match ?x with _ => _ end) => destruct x
  | |- leaves (mbind _ _) => apply leaves_bind; [|intros ?]
  | _ => solve [auto with leaves]
  end.
Ltac leaves_all := cbv zeta; repeat leaves_step.

Lemma leaves_save state : leaves (save_inner state).
Proof. eapply leaves_updates, updates_save. Qed.
#[local] Hint Resolve leaves_save : leaves.
Lemma leaves_install owner access i : leaves (install_pair_rejection_intent owner access i).
Proof. eapply leaves_updates, updates_install. Qed.
Lemma leaves_phase op owner e p : leaves (update_retirement_phase op owner e p).
Proof. eapply leaves_updates, updates_phase. Qed.
#[local] Hint Resolve leaves_install leaves_phase : leaves.
Lemma leaves_finish_pair op owner access m : leaves m → leaves (finish_pair_rejection op owner access m).
Proof. intros Hm. unfold finish_pair_rejection. leaves_all; try done. Qed.
Lemma leaves_finish i : leaves (finish_rejection i).
Proof. unfold finish_rejection. leaves_all. apply leaves_finish_pair. unfold clear_answer. leaves_all. Qed.
#[local] Hint Resolve leaves_finish : leaves.
Lemma leaves_validate i : leaves (validate_intent i).
Proof. unfold validate_intent. leaves_all. Qed.
Lemma leaves_set_phase i p : leaves (set_phase_or_superseded i p).
Proof. unfold set_phase_or_superseded, matches_owner_generation. leaves_all. Qed.
Lemma leaves_ask reply c cid : leaves (retire_credential reply c cid).
Proof. unfold retire_credential. leaves_all. Qed.
#[local] Hint Resolve leaves_validate leaves_set_phase leaves_ask : leaves.
Lemma leaves_reconcile_intent reply i : leaves (reconcile_intent_with (retire_credential reply) i).
Proof. unfold reconcile_intent_with. leaves_all. Qed.
#[local] Hint Resolve leaves_reconcile_intent : leaves.
Lemma leaves_launch reply pid nanos : leaves (reconcile_on_launch_with (retire_credential reply) pid nanos).
Proof. unfold reconcile_on_launch_with, stage_legacy_rejection, reconcile_with. leaves_all. Qed.
Lemma leaves_reject reply pid nanos binding : leaves (reject_pair_with (retire_credential reply) pid nanos binding (oko tt)).
Proof. unfold reject_pair_with. leaves_all. Qed.

(** ** The system *)

(** What the app does to the pairing; the uploader's stop touches no file. *)
Inductive OwnerOp : Type :=
  | OpSave (state : PairedState) | OpLoad | OpSetAside | OpRetire (id : string) | OpOpened (binding : string)
  | OpMutate (key : CasKey) (f : Credential → result Credential StorageError) | OpAnswer (a : AnswerState)
  | OpLaunch (reply : Reply) (pid : Z) (nanos : option Z) | OpReject (reply : Reply) (pid : Z) (nanos : option Z) (binding : string).
Definition run_owner (op : OwnerOp) : OIO unit :=
  match op with
  | OpSave s => save s;; mret tt
  | OpLoad => load;; mret tt
  | OpSetAside => set_aside_refused_client_key;; mret tt
  | OpRetire id => retire_setup_handoff id;; mret tt
  | OpOpened b => mark_setup_browser_opened b;; mret tt
  | OpMutate k f => mutate k f;; mret tt
  | OpAnswer a => write_answer a;; mret tt
  | OpLaunch reply pid nanos => reconcile_on_launch_with (retire_credential reply) pid nanos;; mret tt
  | OpReject reply pid nanos b => reject_pair_with (retire_credential reply) pid nanos b (oko tt);; mret tt
  end.
Lemma leaves_owner op : leaves (run_owner op).
Proof.
  destruct op; cbn; apply leaves_bind; auto using leaves_ret, leaves_load, leaves_set_aside, leaves_write_answer, leaves_launch, leaves_reject.
  - apply leaves_map_err, leaves_save.
  - eapply leaves_updates, updates_retire.
  - eapply leaves_updates, updates_opened.
  - eapply leaves_updates, updates_mutate.
Qed.

(** The link that a run of the mailbox accepted. *)
Definition accepted_link (o : Owned) (r : option (result MailboxOutcome io_error)) : list string :=
  match r with
  | Some (Ok Accepted) => match mailbox_at (o_files o) with Some m => [mb_handoff_id m] | None => [] end
  | _ => []
  end.

Inductive link_step : Owned → list string → Owned → Prop :=
  | step_sender o o' : same_but [MAILBOX_FILE_NAME] o o' → link_step o [] o'
  | step_owner op o vs gs : link_step o [] (ow_own (run_owner op (mkOWorld o vs gs)).2)
  | step_process tag busy now active o vs gs :
      let run := process_mailbox_live tag busy now active (mkOWorld o vs gs) in
      link_step o (accepted_link o run.1) (ow_own run.2).
Inductive link_trace : Owned → list string → Owned → Prop :=
  | trace_done o : link_trace o [] o
  | trace_step o l o1 l' o2 : link_trace o l o1 → link_step o1 l' o2 → link_trace o (l ++ l') o2.

Lemma leaves_spends {A} (m : OIO A) w : leaves m → spends (ow_own w) (ow_own (m w).2).
Proof. intros Hm. specialize (Hm (ow_own w) w eq_refl). destruct (m w) as [[a|] w']; [by destruct Hm|done]. Qed.
Lemma link_step_spends o l o' :
  link_step o l o' → spends o o' ∧ (l = [] ∨ ∃ h, l = [h] ∧ ¬ used (o_files o) h ∧ used (o_files o') h).
Proof.
  intros [o1 o2 Hs|op o1 vs gs|tag busy now active o1 vs gs].
  - split; [|by left]. eapply same_but_spends; [exact Hs|set_solver..].
  - split; [|by left]. apply (leaves_spends (run_owner op) (mkOWorld o1 vs gs)), leaves_owner.
  - cbv zeta. pose proof (oht_process tag busy now active o1 (mkOWorld o1 vs gs) eq_refl) as Hp.
    destruct (process_mailbox_live _ _ _ _ _) as [[r|] w']; cbn in *; [|by split; [|left]]. destruct Hp as [Hs Hd]. split; [done|].
    destruct r as [[]|]; try by left. destruct (Hd (or_introl eq_refl)) as (m & -> & Ha & _). destruct (Ha eq_refl) as [Hn [Hpr _]].
    right. exists (mb_handoff_id m). split_and!; try done. by left.
Qed.

(** C25. The link of a setup handoff is accepted at most once, and never after
    it was accepted or retired before, whatever the sender puts into the
    mailbox, whatever the app does to the pairing in between, whatever calls
    fail and wherever the process stops; and a receipt is only ever on disk for
    a link that is in progress or over. *)
Theorem link_is_accepted_once o l o' :
  link_trace o l o' →
  NoDup l ∧ (∀ h, h ∈ l → ¬ used (o_files o) h ∧ used (o_files o') h) ∧
  (∀ h, used (o_files o) h → used (o_files o') h) ∧ (honest (o_files o) → honest (o_files o')).
Proof.
  induction 1 as [o|o l o1 l' o2 _ (Hnd & Hl & Hu & Hh) Hstep]; [split_and!; try done; [constructor|set_solver]|].
  destruct (link_step_spends _ _ _ Hstep) as [[Hs Hhon] Hlab]. split_and!; [| |by auto..].
  - destruct Hlab as [->|(h & -> & Hn & _)]; [by rewrite app_nil_r|]. apply NoDup_app. split_and!; [done| |apply NoDup_singleton].
    intros x Hx ->%list_elem_of_singleton. by apply Hn, Hl.
  - intros h [Hin|Hin]%elem_of_app; [destruct (Hl h Hin); split; auto|].
    destruct Hlab as [->|(h' & -> & Hn & Hu')]; [by apply elem_of_nil in Hin|]. apply list_elem_of_singleton in Hin as ->. split; [|done].
    intros Hc. by apply Hn, Hu.
Qed.

(** A link in the mailbox that is over, or is already in progress, is never
    accepted: processing it, whatever fails, does not report [Accepted], and
    reports [Replay] only with a receipt for it on disk. *)
Theorem used_link_is_not_accepted tag busy now active o m :
  mailbox_at (o_files o) = Some m → used (o_files o) (mb_handoff_id m) →
  oht (λ o', o' = o) (process_mailbox_live tag busy now active)
    (λ r o', r ≠ Ok Accepted ∧ (r = Ok Replay → has_receipt (mb_handoff_id m) (o_files o'))) (λ _, True).
Proof.
  intros Hm Hu. eapply oht_weaken; [apply (oht_process tag busy now active o)|done| |done].
  intros r o' [_ Hd]. split.
  - intros ->. destruct (Hd (or_introl eq_refl)) as (m' & Hm' & Ha & _). rewrite Hm in Hm'. injection Hm' as <-. by destruct (Ha eq_refl) as [? _].
  - intros ->. destruct (Hd (or_intror eq_refl)) as (m' & Hm' & _ & Hr). rewrite Hm in Hm'. injection Hm' as <-. by destruct (Hr eq_refl) as [_ ?].
Qed.

(** ** A fresh link when no call fails *)

Lemma runs_write_json path tag b limit o :
  (str_len b <= limit)%Z → runs (write_atomic_json path tag (Some b) limit) o (Ok tt) (moved_to (staged_name path tag) path b o).
Proof.
  intros Hl. unfold write_atomic_json. assert ((limit <? str_len b)%Z = false) as -> by lia. cbv zeta. generalize (staged_name path tag). intros tmp.
  unfold stage, publish_staged_file, ocreate, owrite, osync, omove, ocall, tryo, map_err, mbind, oio_bind, next_verdict.
  cbn. by rewrite lookup_insert_eq.
Qed.
Lemma runs_bounded path limit o b : bounded_at path limit (o_files o) = Some b → runs (read_bounded path limit) o (Ok b) o.
Proof.
  unfold bounded_at, read_bounded. destruct (o_files o !! path) as [b'|] eqn:Hf; [|done].
  destruct (limit <? str_len b')%Z eqn:Hl; [done|]. intros [= ->]. eapply runs_try; [rewrite runs_read, Hf; reflexivity|]. by rewrite Hl.
Qed.
Lemma runs_mailbox o m : mailbox_at (o_files o) = Some m → runs read_mailbox_doc o (Ok (Some m)) o.
Proof.
  unfold mailbox_at, read_mailbox_doc. destruct (bounded_at _ _ _) as [b|] eqn:Hb; [|done]. cbn.
  destruct (mailbox_of b) as [m'|] eqn:Hm; [|done]. destruct (mailbox_valid m') eqn:Hv; [|done]. intros [= ->].
  eapply runs_bind; [by apply runs_bounded|]. cbv beta iota. by rewrite Hm, Hv.
Qed.
Lemma runs_history_step archived path ids m o :
  metadata_at path (o_files o) = Some m → opt_unavailable m = false →
  runs (history_step archived path ids) o (Ok (ids ∪ opt_over archived m)) o.
Proof.
  intros Hm Hu. unfold history_step. eapply runs_try; [by apply runs_metadata|]. destruct m as [s|]; cbn in *; [by rewrite Hu|].
  replace (ids ∪ ∅) with ids by set_solver. done.
Qed.
Lemma runs_history o ids : history (o_files o) = Some ids → runs setup_handoff_history o (Ok ids) o.
Proof.
  intros (p & a & Hp & Ha & Hup & Hua & -> & Hv)%history_Some. unfold setup_handoff_history.
  eapply runs_try; [by apply runs_history_step|]. eapply runs_try; [by apply runs_history_step|].
  replace (∅ ∪ opt_over false p ∪ opt_over true a) with (opt_over false p ∪ opt_over true a) by set_solver. unfold validate_setup_ids. by rewrite Hv.
Qed.
Lemma runs_remove name o : ∃ r, runs (oremove name) o r (set_files (delete name (o_files o)) o) ∧ (is_Some (o_files o !! name) → r = Ok tt).
Proof.
  unfold oremove, ocall, mbind, oio_bind, next_verdict. cbn. destruct (o_files o !! name) eqn:Hn.
  - exists (Ok tt). by split.
  - exists (Err NotFound). split; [|by intros [? ?]]. cbn. by rewrite delete_id.
Qed.
Lemma runs_invalidate id o : ∃ o', runs (invalidate_matching_receipt id) o (Ok tt) o' ∧ same_but [RECEIPT_FILE_NAME] o o'.
Proof.
  unfold invalidate_matching_receipt, read_receipt_doc, read_bounded. destruct (o_files o !! RECEIPT_FILE_NAME) as [b|] eqn:Hb.
  - assert (∃ r, runs (r ← (buf ←! oread RECEIPT_FILE_NAME; if (RECEIPT_MAX_BYTES <? str_len buf)%Z then erro OtherError else oko buf);
        mret (match r with Ok bytes => receipt_of bytes | Err _ => None end)) o r o) as [r Hr].
    { eexists. eapply runs_bind; [|reflexivity]. eapply runs_try; [rewrite runs_read, Hb; reflexivity|].
      instantiate (1 := if (RECEIPT_MAX_BYTES <? str_len b)%Z then Err OtherError else Ok b). by destruct (_ <? _)%Z. }
    destruct r as [r|]; [|exists o; split; [eapply runs_bind; [exact Hr|done]|apply same_but_refl]].
    destruct (receipt_for id r) eqn:Hf.
    + destruct (runs_remove RECEIPT_FILE_NAME o) as (r' & Hrm & Hok). rewrite Hok in Hrm by (rewrite Hb; eauto).
      eexists. split; [eapply runs_bind; [exact Hr|]; cbv beta iota; rewrite Hf; exact Hrm|]. apply same_but_delete; [apply same_but_refl|set_solver].
    + exists o. split; [eapply runs_bind; [exact Hr|]; cbv beta iota; by rewrite Hf|apply same_but_refl].
  - exists o. split; [|apply same_but_refl]. eapply (runs_bind _ _ _ None o); [|done]. eapply (runs_bind _ _ _ (Err NotFound) o); [|done].
    unfold tryo. eapply runs_bind; [apply runs_read|]. by rewrite Hb.
Qed.
Lemma runs_consume m o :
  mailbox_at (o_files o) = Some m → ∃ o', runs (consume_mailbox_if_same (mb_handoff_id m)) o tt o' ∧ same_but [MAILBOX_FILE_NAME] o o'.
Proof.
  intros Hm. destruct (runs_remove MAILBOX_FILE_NAME o) as (r & Hr & _). eexists. split.
  - unfold consume_mailbox_if_same. eapply runs_bind; [by apply runs_mailbox|]. cbv beta iota. rewrite String.eqb_refl.
    eapply runs_bind; [exact Hr|done].
  - apply same_but_delete; [apply same_but_refl|set_solver].
Qed.
Lemma runs_lock o : ∃ o', runs (acquire_handoff_lock false) o (Ok true) o' ∧ same_but [LOCK_FILE_NAME] o o'.
Proof.
  unfold acquire_handoff_lock. destruct (o_files o !! LOCK_FILE_NAME) eqn:Hl.
  - exists o. split; [|apply same_but_refl]. eapply runs_try; [apply runs_create_dir|]. eapply runs_try; [|done].
    unfold ocall, mbind, oio_bind, next_verdict. cbn. rewrite Hl. by destruct o.
  - eexists. split; [eapply runs_try; [apply runs_create_dir|]; eapply runs_try; [|done];
      unfold ocall, mbind, oio_bind, next_verdict; cbn; by rewrite Hl|].
    apply same_but_insert; [apply same_but_refl|set_solver].
Qed.
Lemma mailbox_at_same names o o' : same_but names o o' → MAILBOX_FILE_NAME ∉ names → mailbox_at (o_files o') = mailbox_at (o_files o).
Proof. intros [_ Hf] Hn. unfold mailbox_at, bounded_at. by rewrite Hf. Qed.
Lemma moved_to_same tmp path b o : same_but [tmp; path] o (moved_to tmp path b o).
Proof. split; [done|]. intros n Hn. unfold moved_to. cbn. rewrite lookup_insert_ne, lookup_delete_ne, !lookup_insert_ne by set_solver. done. Qed.
Lemma runs_capacity o ids p id :
  history (o_files o) = Some ids → metadata_at PAIRED_STATE_FILE_NAME (o_files o) = Some p →
  valid_setup_ids (ids ∪ from_option activation_ids ∅ p ∪ {[id]}) = true → runs (check_setup_handoff_capacity None id) o (Ok tt) o.
Proof.
  intros Hh Hp Hv. unfold check_setup_handoff_capacity. eapply runs_try; [by apply runs_history|]. eapply runs_try; [by apply runs_metadata|].
  unfold validate_setup_ids. destruct p as [s|]; cbn in *; [by rewrite Hv|]. by replace (ids ∪ ∅ ∪ {[id]}) with (ids ∪ {[id]}) in Hv by set_solver; rewrite Hv.
Qed.
Lemma is_some_mailbox f m : mailbox_at f = Some m → is_Some (f !! MAILBOX_FILE_NAME).
Proof. unfold mailbox_at, bounded_at. by destruct (f !! MAILBOX_FILE_NAME). Qed.
Lemma runs_exists name o : runs (oexists name) o (bool_decide (is_Some (o_files o !! name))) o.
Proof. unfold oexists, ocall, mbind, oio_bind, next_verdict. cbn. by destruct o. Qed.

Lemma runs_accept tag now m ids p pj rj o :
  history (o_files o) = Some ids → metadata_at PAIRED_STATE_FILE_NAME (o_files o) = Some p → mailbox_at (o_files o) = Some m →
  valid_setup_ids (ids ∪ from_option activation_ids ∅ p ∪ {[mb_handoff_id m]}) = true →
  progress_json (progress_for m now) = Some pj → (str_len pj <= PROGRESS_MAX_BYTES)%Z →
  receipt_text (mb_handoff_id m) = Some rj → (str_len rj <= RECEIPT_MAX_BYTES)%Z →
  ∃ o', runs (accept_mailbox tag now m ids None) o (Ok Accepted) o'.
Proof.
  intros Hh Hp Hm Hv Hpj Hpl Hrj Hrl. unfold accept_mailbox. fold (receipt_text (mb_handoff_id m)). rewrite Hpj, Hrj.
  set (o1 := moved_to (staged_name PROGRESS_FILE_NAME tag) PROGRESS_FILE_NAME pj o).
  set (o2 := moved_to (staged_name RECEIPT_FILE_NAME tag) RECEIPT_FILE_NAME rj o1).
  assert (Hm2 : mailbox_at (o_files o2) = Some m).
  { unfold o2. rewrite (mailbox_at_same _ _ _ (moved_to_same (staged_name RECEIPT_FILE_NAME tag) RECEIPT_FILE_NAME rj o1)).
    - unfold o1. by rewrite (mailbox_at_same _ _ _ (moved_to_same (staged_name PROGRESS_FILE_NAME tag) PROGRESS_FILE_NAME pj o)) by set_solver.
    - intros Hin. apply list_elem_of_In in Hin as [He|[He|[]]]; discriminate He. }
  destruct (runs_consume m o2 Hm2) as (o3 & Hc & _). exists o3.
  eapply runs_try; [apply runs_map_err; by eapply runs_capacity|]. eapply runs_try; [done|].
  eapply runs_try; [by apply runs_write_json|]. eapply runs_try; [by apply runs_write_json|]. by eapply runs_bind; [exact Hc|].
Qed.

(** A link that is in the mailbox, in time, while no pairing is under way
    and none is in progress, is accepted when no call fails and there is room
    for it: it is then in progress with a receipt for the sender. *)
Theorem fresh_link_is_accepted tag now m ids p pj rj o :
  mailbox_at (o_files o) = Some m → (now < mb_expires m)%Z → o_files o !! PROGRESS_FILE_NAME = None →
  history (o_files o) = Some ids → mb_handoff_id m ∉ ids → metadata_at PAIRED_STATE_FILE_NAME (o_files o) = Some p →
  valid_setup_ids (ids ∪ from_option activation_ids ∅ p ∪ {[mb_handoff_id m]}) = true →
  progress_json (progress_for m now) = Some pj → (str_len pj <= PROGRESS_MAX_BYTES)%Z →
  receipt_text (mb_handoff_id m) = Some rj → (str_len rj <= RECEIPT_MAX_BYTES)%Z →
  ∃ o', runs (process_mailbox_live tag false now false) o (Ok Accepted) o' ∧ taken (mb_handoff_id m) (o_files o').
Proof.
  intros Hm Hnow Hnp Hh Hin Hp Hv Hpj Hpl Hrj Hrl. destruct (runs_lock o) as (o1 & Hlock & Hb1).
  destruct (runs_invalidate (mb_handoff_id m) o1) as (o2 & Hinv & Hb2).
  assert (Hb : same_but [LOCK_FILE_NAME; RECEIPT_FILE_NAME] o o2).
  { eapply same_but_trans; [eapply same_but_subset; [exact Hb1|set_solver]|eapply same_but_subset; [exact Hb2|set_solver]]. }
  destruct (runs_accept tag now m ids p pj rj o2) as (o3 & Hacc); try done.
  { by rewrite (same_but_history _ _ _ Hb) by set_solver. }
  { rewrite (metadata_same _ (o_files o)); [done|]. destruct Hb as [_ Hf]. apply Hf. set_solver. }
  { by rewrite (mailbox_at_same _ _ _ Hb) by set_solver. }
  assert (Hrun : runs (process_mailbox_live tag false now false) o (Ok Accepted) o3).
  { unfold process_mailbox_live. eapply runs_bind; [apply runs_exists|]. rewrite bool_decide_eq_true_2 by by eapply is_some_mailbox. cbn [negb].
    eapply runs_try; [exact Hlock|]. cbn [negb]. eapply runs_bind; [apply runs_mailbox; by rewrite (mailbox_at_same _ _ _ Hb1) by set_solver|].
    cbv beta iota. unfold handle_mailbox. eapply runs_bind; [apply runs_history; by rewrite (same_but_history _ _ _ Hb1) by set_solver|].
    cbv beta iota. rewrite bool_decide_eq_false_2 by done.
    eapply (runs_bind _ _ _ (Ok None) o1).
    { unfold read_progress, read_bounded. eapply (runs_bind _ _ _ (Err NotFound) o1); [|done]. unfold tryo.
      eapply runs_bind; [apply runs_read|]. destruct Hb1 as [_ Hf]. by rewrite Hf, Hnp by set_solver. }
    cbv beta iota. cbn [fmap option_fmap option_map]. rewrite bool_decide_eq_false_2 by done.
    eapply runs_try; [exact Hinv|]. assert ((mb_expires m <=? now)%Z = false) as -> by lia. exact Hacc. }
  exists o3. split; [done|]. pose proof (oht_process tag false now false o (calm o) eq_refl) as Hd. rewrite Hrun in Hd.
  destruct Hd as [_ Hd]. destruct (Hd (or_introl eq_refl)) as (m' & Hm' & Ha & _). rewrite Hm in Hm'. injection Hm' as <-. by apply Ha.
Qed.
End system.
