(* ===== verification/Migrate.v ===== *)
(** * The replacement offer (crates/pl-transport-win/src/migration.rs)

    After a fresh pairing the owner may say that this computer replaces one of
    the journal's other devices. The offer and the decision are one record in
    one file, published only over the revision it was read at; the decision is
    saved before it is sent and replayed byte for byte. The requests to the
    journal are arguments, computations of their own: other commands of the
    app run while one of them waits. Codecs are parameters. *)
From Stdlib Require Import Ascii String.
From S2P Require Import Prelude RustStr PauseStore Model Ingest Transport OwnerFs Paired Answer Retire.

Local Open Scope list_scope.

(** ** Data *)

Inductive FreshPairEligibility : Type := Unchecked | ShowOffer | NoOtherDevice.
Inductive Choice : Type := NewDevice | ReplaceDevice.
Inductive ServerState : Type := StNone | StPending | StNewDevice | StSameDevice | StReplacedDevice.
Inductive MigrationPhase : Type := Offered | DecisionUnknown | Decided.
Inductive DecisionReconcile : Type := ReplayExactRequest | Terminal | TargetMissing | ReconcileUnknown.

Record DecisionRequest : Type := mkRequest {
  dq_version : Z; dq_operation_id : string; dq_choice : Choice; dq_replaces : option string }.
Record MigrationStateResponse : Type := mkStateResponse {
  ms_version : Z; ms_rekey : option string; ms_previous : option string; ms_state : ServerState; ms_replaced : option string }.
Record DecisionResponse : Type := mkDecisionResponse {
  dr_version : Z; dr_operation_id : string; dr_state : ServerState; dr_previous : option string; dr_cid : string;
  dr_replaced : option string; dr_label : string }.
Record SavedDecision : Type := mkSaved { sd_request : DecisionRequest; sd_bytes : string; sd_result : string }.
Record MigrationRecord : Type := mkRecord {
  mr_schema : string; revision : Z; mr_generation : string; mr_phase : MigrationPhase; mr_cid : string; mr_binding : string;
  eligibility : FreshPairEligibility; pending_decision : option SavedDecision; terminal_decisions : list SavedDecision;
  server_state : option ServerState; mr_replaced : option string; mr_label : option string;
  offer_pending : bool; offer_shown : bool }.
Record MigrationView : Type := mkView {
  mv_phase : MigrationPhase; mv_revision : Z; mv_generation : string; mv_state : option ServerState; mv_replaced : option string;
  mv_choice : option Choice; mv_result : option string; offer_available : bool; offer_binding : option string }.
Record PairedDevice : Type := mkDevice { pd_cid : string; pd_label : string }.
Record AdmittedFreshPair : Type := mkAdmitted { ad_binding : string; ad_generation : string; ad_revision : Z; ad_cid : string }.
Inductive AdmittedFreshPairRead : Type := ReadSuperseded | ReadDevices (l : list PairedDevice) | ReadUnavailable.
(** The status and body of an answer. *)
Record Response : Type := mkResponse { rs_status : Z; rs_body : string }.

#[global] Instance FreshPairEligibility_eq_dec : EqDecision FreshPairEligibility.
Proof. solve_decision. Defined.
#[global] Instance Choice_eq_dec : EqDecision Choice.
Proof. solve_decision. Defined.
#[global] Instance ServerState_eq_dec : EqDecision ServerState.
Proof. solve_decision. Defined.
#[global] Instance MigrationPhase_eq_dec : EqDecision MigrationPhase.
Proof. solve_decision. Defined.
#[global] Instance DecisionRequest_eq_dec : EqDecision DecisionRequest.
Proof. solve_decision. Defined.
#[global] Instance SavedDecision_eq_dec : EqDecision SavedDecision.
Proof. solve_decision. Defined.

Definition as_wire (c : Choice) : string := match c with NewDevice => "new_device" | ReplaceDevice => "replace_device" end.
Definition expected_state (c : Choice) : ServerState := match c with NewDevice => StNewDevice | ReplaceDevice => StReplacedDevice end.
Definition state_wire (s : ServerState) : string :=
  match s with
  | StNone => "none" | StPending => "pending" | StNewDevice => "new_device" | StSameDevice => "same_device"
  | StReplacedDevice => "replaced_device"
  end.

Definition set_revision (n : Z) (r : MigrationRecord) : MigrationRecord :=
  mkRecord (mr_schema r) n (mr_generation r) (mr_phase r) (mr_cid r) (mr_binding r) (eligibility r) (pending_decision r)
    (terminal_decisions r) (server_state r) (mr_replaced r) (mr_label r) (offer_pending r) (offer_shown r).
Definition set_decision (p : MigrationPhase) (d : option SavedDecision) (t : list SavedDecision) (r : MigrationRecord) : MigrationRecord :=
  mkRecord (mr_schema r) (revision r) (mr_generation r) p (mr_cid r) (mr_binding r) (eligibility r) d t
    (server_state r) (mr_replaced r) (mr_label r) (offer_pending r) (offer_shown r).
Definition set_answer (s : option ServerState) (replaced label : option string) (r : MigrationRecord) : MigrationRecord :=
  mkRecord (mr_schema r) (revision r) (mr_generation r) (mr_phase r) (mr_cid r) (mr_binding r) (eligibility r) (pending_decision r)
    (terminal_decisions r) s replaced label (offer_pending r) (offer_shown r).
Definition set_offer (e : FreshPairEligibility) (pending shown : bool) (r : MigrationRecord) : MigrationRecord :=
  mkRecord (mr_schema r) (revision r) (mr_generation r) (mr_phase r) (mr_cid r) (mr_binding r) e (pending_decision r)
    (terminal_decisions r) (server_state r) (mr_replaced r) (mr_label r) pending shown.
Definition set_result (result : string) (d : SavedDecision) : SavedDecision := mkSaved (sd_request d) (sd_bytes d) result.

Definition MIGRATION_RECORD_SCHEMA : string := "solstone.windows-device-migration.v1".
Definition MIGRATION_FILE : string := "pairing-migration.json".
Definition MIGRATION_TMP : string := "pairing-migration.json.tmp".

Class MigLib := {
  record_json : MigrationRecord → option string;
  record_of : string → option MigrationRecord;
  request_json : DecisionRequest → option string;
  request_of : string → option DecisionRequest;
  state_response_of : string → option MigrationStateResponse;
  decision_response_of : string → option DecisionResponse;
  body_json : string → option JsonValue
}.
Class MigLaws `{MigLib} : Prop := {
  record_round r b : record_json r = Some b → record_of b = Some r;
  request_round r b : request_json r = Some b → request_of b = Some r
}.

Definition valid_cid (cid : string) : bool :=
  match strip_prefix "sha256:" cid with
  | Some hex => (String.length hex =? 64)%nat && all_bytes (λ c, byte_in 48 57 c || byte_in 97 102 c) hex
  | None => false
  end.

Definition be_bytes (n : Z) : string :=
  string_of_list_ascii ((λ k, ascii_of_Z (Z.land (Z.shiftr n (8 * k)) 255)) <$> [7; 6; 5; 4; 3; 2; 1; 0]%Z).
Definition nth_byte (s : string) (k : nat) : Z := match String.get k s with Some c => byte_val c | None => 0 end.

Section migrate.
Context `{PairLib} `{RetireLib} `{MigLib}.

(** ** The record's file *)

Definition load_record : OIO (result (option MigrationRecord) TransportError) :=
  r ← oread MIGRATION_FILE;
  match r with
  | Err NotFound => oko None
  | Err e => erro (TIo e)
  | Ok bytes =>
    match record_of bytes with
    | None => erro TCredentialMalformed
    | Some record => if negb (String.eqb (mr_schema record) MIGRATION_RECORD_SCHEMA) then erro TCredentialMalformed else oko (Some record)
    end
  end.

(** Returns the record with the revision it now has. *)
Definition save_record (record : MigrationRecord) : OIO (result MigrationRecord TransportError) :=
  if negb (String.eqb (mr_schema record) MIGRATION_RECORD_SCHEMA) then erro TCredentialMalformed
  else
    current ←! load_record;
    match (match current with
           | Some c => if (revision c =? revision record)%Z then Some (sat_add_u64 (revision c) 1) else None
           | None => if (revision record =? 0)%Z then Some 1%Z else None
           end) with
    | None => erro TReplayUnsafe
    | Some next =>
      _ ←! map_err TIo ocreate_dir;
      match record_json (set_revision next record) with
      | None => erro TJson
      | Some bytes =>
        _ ←! stage TIo MIGRATION_TMP bytes;
        staged ←! map_err TIo (oread MIGRATION_TMP);
        if negb (String.eqb staged bytes) then erro TCredentialRecoveryRequired
        else
          _ ←! map_err transport_of (publish_staged_file MIGRATION_TMP MIGRATION_FILE);
          published ←! map_err TIo (oread MIGRATION_FILE);
          if negb (String.eqb published bytes) then erro TCredentialRecoveryRequired else oko (set_revision next record)
      end
    end.

(** ** Decisions *)

Definition decision_operation_id (record : MigrationRecord) (choice : Choice) (replaces_cid : option string) : string :=
  let material := "solstone.windows.device-decision.v1" +:+ String "000" EmptyString +:+ mr_generation record +:+
                  be_bytes (revision record) +:+ as_wire choice +:+ default EmptyString replaces_cid in
  let digest := cert_sha256 material in
  let byte k := let b := nth_byte digest k in
                if (k =? 6)%nat then Z.lor (Z.land b 15) 80 else if (k =? 8)%nat then Z.lor (Z.land b 63) 128 else b in
  let hex ks := hex_lower (string_of_list_ascii ((λ k, ascii_of_Z (byte k)) <$> ks)) in
  hex [0; 1; 2; 3]%nat +:+ "-" +:+ hex [4; 5]%nat +:+ "-" +:+ hex [6; 7]%nat +:+ "-" +:+ hex [8; 9]%nat +:+ "-" +:+
  hex [10; 11; 12; 13; 14; 15]%nat.

Definition persist_decision (record : MigrationRecord) (choice : Choice) (replaces_cid : option string)
    : OIO (result MigrationRecord TransportError) :=
  if negb (eqb (bool_decide (choice = ReplaceDevice)) (bool_decide (is_Some replaces_cid)))
     || match replaces_cid with Some cid => negb (valid_cid cid) | None => false end
     || bool_decide (replaces_cid = Some (mr_cid record))
  then erro TCredentialMalformed
  else
    let fresh :=
      if negb (offer_pending record)
         || negb (bool_decide (mr_phase record = Offered))
         || bool_decide (is_Some (server_state record))
         || negb (valid_cid (mr_cid record))
         || is_empty (mr_binding record)
      then erro TReplayUnsafe
      else
        let terminal := terminal_decisions record ++ match pending_decision record with Some s => [s] | None => [] end in
        let request := mkRequest 1 (decision_operation_id record choice replaces_cid) choice replaces_cid in
        match request_json request with
        | None => erro TJson
        | Some bytes =>
          save_record (set_decision DecisionUnknown (Some (mkSaved request (b64_encode bytes) "unknown")) terminal record)
        end in
    match pending_decision record with
    | None => fresh
    | Some saved =>
      if bool_decide (dq_choice (sd_request saved) = choice) && bool_decide (dq_replaces (sd_request saved) = replaces_cid)
      then (if String.eqb (sd_result saved) "target_missing" then erro TReplayUnsafe else oko record)
      else if negb (String.eqb (sd_result saved) "target_missing") then erro TReplayUnsafe
      else fresh
    end.

Definition decision_bytes (saved : SavedDecision) : result string TransportError :=
  match b64_decode (sd_bytes saved) with
  | None => Err TCredentialMalformed
  | Some bytes =>
    match request_of bytes with
    | None => Err TCredentialMalformed
    | Some decoded =>
      if negb (bool_decide (decoded = sd_request saved)) || negb (dq_version decoded =? 1)%Z then Err TCredentialMalformed else Ok bytes
    end
  end.

Definition mark_decision_terminal (record : MigrationRecord) (response : DecisionResponse) : OIO (result MigrationRecord TransportError) :=
  match pending_decision record with
  | None => erro TCredentialMalformed
  | Some saved =>
    if negb (dr_version response =? 1)%Z
       || negb (String.eqb (dr_operation_id response) (dq_operation_id (sd_request saved)))
       || negb (bool_decide (dr_state response = expected_state (dq_choice (sd_request saved))))
       || bool_decide (is_Some (dr_previous response))
       || negb (String.eqb (dr_cid response) (mr_cid record))
       || negb (valid_cid (dr_cid response))
       || match dq_choice (sd_request saved) with
          | ReplaceDevice => negb (bool_decide (dr_replaced response = dq_replaces (sd_request saved)))
          | NewDevice => bool_decide (is_Some (dr_replaced response))
          end
    then erro TCredentialMalformed
    else
      save_record
        (set_offer (eligibility record) false (offer_shown record)
          (set_answer (Some (dr_state response)) (dr_replaced response) (Some (dr_label response))
            (set_decision Decided (Some (set_result (state_wire (dr_state response)) saved)) (terminal_decisions record) record)))
  end.

Definition target_missing_reason (status : Z) (body : string) : bool :=
  let reason :=
    match body_json body with
    | Some (JObject m) =>
      match json_get "reason_code" m with Some v => as_str v | None => json_get "reason" m ≫= as_str end
    | _ => None
    end in
  ((status =? 404)%Z && bool_decide (reason = Some "paired_device_not_found")) ||
  ((status =? 409)%Z && bool_decide (reason = Some "migration_target_conflict")).

(** [Some] of the record when the target's absence was recorded. *)
Definition record_target_missing (record : MigrationRecord) (status : Z) (body : string) : OIO (result (option MigrationRecord) TransportError) :=
  if negb (target_missing_reason status body) then oko None
  else
    match pending_decision record with
    | None => oko None
    | Some saved =>
      if negb (bool_decide (dq_choice (sd_request saved) = ReplaceDevice)) || negb (String.eqb (sd_result saved) "unknown") then oko None
      else
        record ←! save_record (set_decision Offered (Some (set_result "target_missing" saved)) (terminal_decisions record) record);
        oko (Some record)
    end.

Definition reconcile_decision_state (record : MigrationRecord) (response : MigrationStateResponse) : result DecisionReconcile TransportError :=
  if negb (ms_version response =? 1)%Z then Err TCredentialMalformed
  else
    match pending_decision record with
    | None => Ok ReconcileUnknown
    | Some saved =>
      if String.eqb (sd_result saved) "target_missing" then Ok TargetMissing
      else if negb (String.eqb (sd_result saved) "unknown") then Ok Terminal
      else
        let replaced_matches :=
          match dq_choice (sd_request saved) with
          | ReplaceDevice => bool_decide (ms_replaced response = dq_replaces (sd_request saved))
          | NewDevice => bool_decide (ms_replaced response = None)
          end in
        if bool_decide (ms_rekey response = None) && bool_decide (ms_previous response = None) &&
           (bool_decide (ms_state response = StNone) ||
            (bool_decide (ms_state response = expected_state (dq_choice (sd_request saved))) && replaced_matches))
        then Ok ReplayExactRequest
        else Ok ReconcileUnknown
    end.

Section journal.
Context (get_state : OIO (result Response TransportError)) (put_decision : string → OIO (result Response TransportError)).

Definition reconcile_saved_decision (record : MigrationRecord) : OIO (result DecisionReconcile TransportError) :=
  match pending_decision record with
  | None => oko ReconcileUnknown
  | Some saved =>
    if String.eqb (sd_result saved) "target_missing" then oko TargetMissing
    else if negb (String.eqb (sd_result saved) "unknown") then oko Terminal
    else
      get ←! get_state;
      if negb (rs_status get =? 200)%Z then erro (TRejected (rs_status get) (from_utf8_lossy (rs_body get)))
      else
        match state_response_of (rs_body get) with
        | None => erro TCredentialMalformed
        | Some server_state =>
          match reconcile_decision_state record server_state with
          | Err e => erro e
          | Ok ReplayExactRequest =>
            match decision_bytes saved with
            | Err e => erro e
            | Ok bytes =>
              put ←! put_decision bytes;
              if negb (rs_status put =? 200)%Z && negb (rs_status put =? 201)%Z then
                missing ←! record_target_missing record (rs_status put) (rs_body put);
                match missing with
                | Some _ => oko TargetMissing
                | None => erro (TRejected (rs_status put) (from_utf8_lossy (rs_body put)))
                end
              else
                match decision_response_of (rs_body put) with
                | None => erro TCredentialMalformed
                | Some response =>
                  _ ←! mark_decision_terminal record response;
                  oko Terminal
                end
            end
          | Ok result => oko result
          end
        end
  end.

(** The owner's decision: the command that saves it and asks the journal. A
    client that cannot be made is a state request that fails; the snapshot for
    the window is [view], and the value here says which issue it carries. *)
Definition decide_replacement (choice : Choice) (replaces_cid : option string) : OIO (result DecisionReconcile TransportError) :=
  r ←! load_record;
  match r with
  | None => erro (TPairing "migration is unavailable")
  | Some record =>
    paired ←! load;
    match credential paired with
    | None => erro TNotPaired
    | Some c =>
      if negb (String.eqb (mr_binding record) (binding_of c)) || negb (String.eqb (mr_generation record) (pairing_generation (client_cert_pem c)))
      then erro (TPairing "migration owner changed")
      else
        record ←! persist_decision record choice replaces_cid;
        match pending_decision record with
        | Some saved => if String.eqb (sd_result saved) "target_missing" then oko TargetMissing else reconcile_saved_decision record
        | None => reconcile_saved_decision record
        end
    end
  end.
(** What the owner's window does with a decision that is on record, before
    it classifies the offer. *)
Definition resume_decision : OIO (result DecisionReconcile TransportError) :=
  r ←! load_record;
  match r with
  | None => oko ReconcileUnknown
  | Some record =>
    match pending_decision record with
    | Some saved =>
      if String.eqb (sd_result saved) "target_missing" then oko TargetMissing
      else if String.eqb (sd_result saved) "unknown" then reconcile_saved_decision record else oko ReconcileUnknown
    | None => oko ReconcileUnknown
    end
  end.
End journal.

(** ** The offer *)

Definition view : OIO (result (option MigrationView) TransportError) :=
  r ←! load_record;
  match r with
  | None => oko None
  | Some record =>
    a ←! map_err transport_of read_answer;
    let answer := default default_answer a in
    paired ←! load;
    let current_binding := binding_of <$> credential paired in
    let available :=
      bool_decide (eligibility record = ShowOffer) && offer_pending record && negb (offer_shown record) &&
      bool_decide (current_binding = Some (mr_binding record)) && is_empty (rejected answer) &&
      negb (is_empty (confirmed answer)) && String.eqb (confirmed answer) (mr_binding record) in
    oko (Some (mkView (mr_phase record) (revision record) (mr_generation record) (server_state record) (mr_replaced record)
      ((λ d, dq_choice (sd_request d)) <$> pending_decision record) (sd_result <$> pending_decision record) available
      (Some (mr_binding record))))
  end.

Definition fresh_record (rev : Z) (cid : string) (c : Credential) : MigrationRecord :=
  mkRecord MIGRATION_RECORD_SCHEMA rev (pairing_generation (client_cert_pem c)) Offered cid (binding_of c) Unchecked None []
    None None None true false.
Definition record_fresh_pair_offer (c : Credential) : OIO (result MigrationRecord TransportError) :=
  r ←! load_record;
  match credential_cid c with
  | Err e => erro e
  | Ok cid => save_record (fresh_record (match r with Some record => revision record | None => 0 end) cid c)
  end.

Definition needs_list (record : MigrationRecord) : bool :=
  offer_pending record && negb (offer_shown record) && bool_decide (mr_phase record = Offered) &&
  bool_decide (pending_decision record = None) && bool_decide (server_state record = None) &&
  bool_decide (eligibility record = Unchecked).
Definition fresh_pair_offer_needs_list : OIO (result bool TransportError) :=
  r ←! load_record;
  match r with
  | None => oko false
  | Some record =>
    if negb (needs_list record) then oko false
    else
      a ←! map_err transport_of read_answer;
      match a with
      | None => oko false
      | Some answer =>
        if negb (is_empty (rejected answer)) || is_empty (confirmed answer) || negb (String.eqb (confirmed answer) (mr_binding record))
        then oko false
        else
          paired ←! load;
          match credential paired with
          | None => oko false
          | Some c =>
            oko (String.eqb (binding_of c) (mr_binding record) && String.eqb (pairing_generation (client_cert_pem c)) (mr_generation record))
          end
      end
  end.

Definition without_own_cid (devices : list PairedDevice) (own_cid : string) : list PairedDevice :=
  List.filter (λ d, negb (String.eqb (pd_cid d) own_cid)) devices.
Definition admitted_of (record : MigrationRecord) : AdmittedFreshPair :=
  mkAdmitted (mr_binding record) (mr_generation record) (revision record) (mr_cid record).
Definition credential_matches_admitted_fresh_pair (c : Credential) (admitted : AdmittedFreshPair) : result bool TransportError :=
  if negb (String.eqb (binding_of c) (ad_binding admitted)) then Ok false
  else if negb (String.eqb (pairing_generation (client_cert_pem c)) (ad_generation admitted)) then Ok false
  else match credential_cid c with Err e => Err e | Ok cid => Ok (String.eqb cid (ad_cid admitted)) end.

Definition apply_classified_offer (expected : AdmittedFreshPair) (target : FreshPairEligibility) (pending : bool) : OIO (result unit TransportError) :=
  needs ←! fresh_pair_offer_needs_list;
  if negb needs then oko tt
  else
    r ←! load_record;
    match r with
    | None => oko tt
    | Some record =>
      if negb (revision record =? ad_revision expected)%Z
         || negb (String.eqb (mr_generation record) (ad_generation expected))
         || negb (String.eqb (mr_binding record) (ad_binding expected))
         || negb (String.eqb (mr_cid record) (ad_cid expected))
      then oko tt
      else
        r ← save_record (set_offer target pending (offer_shown record) record);
        match r with
        | Ok _ => oko tt
        | Err TReplayUnsafe => oko tt
        | Err e => erro e
        end
    end.

(** What the devices of the journal say about the offer. *)
Definition classification (admitted : AdmittedFreshPair) (read : AdmittedFreshPairRead) : option (FreshPairEligibility * bool) :=
  match read with
  | ReadSuperseded => None
  | ReadUnavailable => Some (ShowOffer, true)
  | ReadDevices devices =>
    match without_own_cid devices (ad_cid admitted) with [] => Some (NoOtherDevice, false) | _ => Some (ShowOffer, true) end
  end.
Definition classify_admitted_fresh_pair_offer (prepare : AdmittedFreshPair → OIO (result AdmittedFreshPairRead TransportError))
    : OIO (result unit TransportError) :=
  needs ←! fresh_pair_offer_needs_list;
  if negb needs then oko tt
  else
    r ←! load_record;
    match r with
    | None => oko tt
    | Some record =>
      let admitted := admitted_of record in
      read ←! prepare admitted;
      match classification admitted read with
      | None => oko tt
      | Some (target, pending) => apply_classified_offer admitted target pending
      end
    end.

Definition dismiss_fresh_pair_offer (expected_binding expected_generation : string) (expected_revision : Z) : OIO (result unit TransportError) :=
  r ←! load_record;
  match r with
  | None => erro TReplayUnsafe
  | Some record =>
    paired ←! load;
    if negb (revision record =? expected_revision)%Z
       || negb (String.eqb (mr_generation record) expected_generation)
       || negb (String.eqb (mr_binding record) expected_binding)
       || negb (bool_decide (binding_of <$> credential paired = Some expected_binding))
       || match credential paired with
          | None => true
          | Some c => negb (String.eqb (pairing_generation (client_cert_pem c)) expected_generation)
          end
    then erro TReplayUnsafe
    else if offer_pending record then
      _ ←! save_record (set_offer (eligibility record) false true record);
      oko tt
    else if negb (offer_shown record) then erro TReplayUnsafe
    else oko tt
  end.
End migrate.
