(* ===== verification/MigrateLogic.v ===== *)
(** * The replacement offer as a state machine

    [moves] is the machine the record is meant to follow; [evolves] is any
    number of its steps, each over the revision before it. Every command of
    the app, whatever fails and whatever the other commands do while it waits,
    makes the file follow the machine. *)
From Stdlib Require Import Ascii String.
From S2P Require Import Prelude RustStr PauseStore Model Ingest Transport OwnerFs Paired PairedLogic PairedSave Answer Retire RetireLogic Migrate.

Local Open Scope list_scope.

Section machine.
Context `{PairLib} `{!PairLaws} `{RetireLib} `{MigLib} `{!MigLaws}.

(** ** The machine *)

Inductive moves (r : MigrationRecord) : MigrationRecord → Prop :=
  | mv_decide request bytes :
      offer_pending r = true → mr_phase r = Offered → server_state r = None →
      (∀ s, pending_decision r = Some s → sd_result s = "target_missing") →
      dq_version request = 1%Z → request_json request = Some bytes →
      moves r (set_decision DecisionUnknown (Some (mkSaved request (b64_encode bytes) "unknown"))
        (terminal_decisions r ++ match pending_decision r with Some s => [s] | None => [] end) r)
  | mv_terminal s replaced label :
      pending_decision r = Some s → sd_result s = "unknown" →
      let st := expected_state (dq_choice (sd_request s)) in
      moves r (set_offer (eligibility r) false (offer_shown r) (set_answer (Some st) replaced label
        (set_decision Decided (Some (set_result (state_wire st) s)) (terminal_decisions r) r)))
  | mv_missing s :
      pending_decision r = Some s → sd_result s = "unknown" → dq_choice (sd_request s) = ReplaceDevice →
      moves r (set_decision Offered (Some (set_result "target_missing" s)) (terminal_decisions r) r)
  | mv_classify target :
      pending_decision r = None → mr_phase r = Offered → eligibility r = Unchecked → target ≠ Unchecked →
      moves r (set_offer target (bool_decide (target = ShowOffer)) (offer_shown r) r)
  | mv_dismiss :
      offer_pending r = true → moves r (set_offer (eligibility r) false true r).

(** What the file holds: nothing, a record, or [None] when it is damaged. *)
Definition disk (f : gmap string string) : option (option MigrationRecord) :=
  match f !! MIGRATION_FILE with
  | None => Some None
  | Some b => match record_of b with
              | Some r => if String.eqb (mr_schema r) MIGRATION_RECORD_SCHEMA then Some (Some r) else None
              | None => None
              end
  end.

(** [offers]: whether a new pairing can put its own record in place. *)
Context (offers : Prop).

Inductive evolve1 : option (option MigrationRecord) → option (option MigrationRecord) → Prop :=
  | ev_first cid c : evolve1 (Some None) (Some (Some (fresh_record 1 cid c)))
  | ev_offer r cid c : offers → evolve1 (Some (Some r)) (Some (Some (fresh_record (sat_add_u64 (revision r) 1) cid c)))
  | ev_move r r' : moves r r' → evolve1 (Some (Some r)) (Some (Some (set_revision (sat_add_u64 (revision r) 1) r'))).
Definition evolves : relation (option (option MigrationRecord)) := rtc evolve1.

(** *** Revisions only grow *)

Lemma evolves_from r d : evolves (Some (Some r)) d → ∃ r', d = Some (Some r').
Proof.
  remember (Some (Some r)) as x eqn:Hx. intros Hev. revert r Hx. induction Hev as [x|x y z Hstep _ IH]; intros r ->; [eauto|].
  inversion Hstep; subst; by eapply IH.
Qed.
Lemma evolves_revision r r' : evolves (Some (Some r)) (Some (Some r')) → (revision r <= u64_max)%Z → (revision r <= revision r' <= u64_max)%Z.
Proof.
  remember (Some (Some r)) as x eqn:Hx. remember (Some (Some r')) as z eqn:Hz. intros Hev. revert r Hx.
  induction Hev as [x|x y z Hstep _ IH]; intros r -> Hr; [injection Hz as ->; lia|].
  assert (∃ r1, y = Some (Some r1) ∧ revision r1 = sat_add_u64 (revision r) 1) as (r1 & -> & Hr1) by (inversion Hstep; subst; eauto).
  specialize (IH Hz r1 eq_refl). unfold sat_add_u64 in Hr1. lia.
Qed.
(** While the revision is the same, so is the record. *)
Lemma evolves_fresh r r' :
  evolves (Some (Some r)) (Some (Some r')) → (revision r < u64_max)%Z → revision r' = revision r → r' = r.
Proof.
  intros Hev Hr He. apply rtc_inv in Hev as [Heq|(y & Hstep & Hev)]; [by injection Heq|].
  assert (∃ r1, y = Some (Some r1) ∧ revision r1 = sat_add_u64 (revision r) 1) as (r1 & -> & Hr1) by (inversion Hstep; subst; eauto).
  unfold sat_add_u64 in Hr1. apply evolves_revision in Hev; lia.
Qed.

(** ** Decisions *)

Definition decisions (r : MigrationRecord) : list SavedDecision :=
  terminal_decisions r ++ match pending_decision r with Some s => [s] | None => [] end.
(** Earlier decisions were proven to have no target; the last one is unknown,
    missing its target, or confirmed by the journal. *)
Definition consistent (r : MigrationRecord) : Prop :=
  Forall (λ s, sd_result s = "target_missing") (terminal_decisions r) ∧
  Forall (λ s, is_ok (decision_bytes s) = true) (decisions r) ∧
  match mr_phase r with
  | Offered => server_state r = None ∧ ∀ s, pending_decision r = Some s → sd_result s = "target_missing"
  | DecisionUnknown => server_state r = None ∧ ∃ s, pending_decision r = Some s ∧ sd_result s = "unknown"
  | Decided => offer_pending r = false ∧ ∃ s, pending_decision r = Some s ∧
      server_state r = Some (expected_state (dq_choice (sd_request s))) ∧ sd_result s = state_wire (expected_state (dq_choice (sd_request s)))
  end.

Lemma decision_bytes_saved request bytes res :
  dq_version request = 1%Z → request_json request = Some bytes → decision_bytes (mkSaved request (b64_encode bytes) res) = Ok bytes.
Proof.
  intros Hv Hj. unfold decision_bytes. cbn. rewrite b64_round, (request_round _ _ Hj), bool_decide_eq_true_2, Hv by done. done.
Qed.
Lemma decision_bytes_result s res : decision_bytes (set_result res s) = decision_bytes s.
Proof. done. Qed.

Lemma moves_consistent r r' : consistent r → moves r r' → consistent r'.
Proof.
  intros (Ht & Hd & Hp) [request bytes Hof Hph Hss Hmiss Hv Hj|s replaced label Hs Hr st|s Hs Hr Hc|target Hn Hph He Ht'|Hof].
  - split_and!; cbn.
    + apply Forall_app. split; [done|]. destruct (pending_decision r) as [s|]; [|constructor]. apply Forall_singleton. by apply Hmiss.
    + apply Forall_app. split; [exact Hd|]. apply Forall_singleton. by rewrite decision_bytes_saved.
    + split; [done|]. by eexists.
  - unfold decisions in Hd. rewrite Hs in Hd. apply Forall_app in Hd as [Hd Hl]. rewrite Forall_singleton in Hl.
    split_and!; cbn; [done|apply Forall_app; split; [done|apply Forall_singleton; exact Hl]|]. split; [done|]. eexists. by split_and!.
  - unfold decisions in Hd. rewrite Hs in Hd. apply Forall_app in Hd as [Hd Hl]. rewrite Forall_singleton in Hl.
    split_and!; cbn; [done|apply Forall_app; split; [done|apply Forall_singleton; exact Hl]|].
    destruct (mr_phase r); [destruct Hp as [_ Hp]; specialize (Hp _ Hs); congruence| |].
    + destruct Hp as [Hss _]. split; [done|]. by intros s' [= <-].
    + destruct Hp as (_ & s' & Hs' & _ & Hw). rewrite Hs in Hs'. injection Hs' as <-. rewrite Hr in Hw. by destruct (dq_choice _).
  - split_and!; [exact Ht|exact Hd|]. cbn. rewrite Hph in *. exact Hp.
  - split_and!; [exact Ht|exact Hd|]. cbn. destruct (mr_phase r); [done..|]. destruct Hp as (_ & Hp). by split.
Qed.

(** Steps of one pairing's record. *)
Definition same_offer (r r' : MigrationRecord) : Prop := ∃ r1, moves r r1 ∧ r' = set_revision (sat_add_u64 (revision r) 1) r1.
Lemma consistent_revision n r : consistent r → consistent (set_revision n r).
Proof. done. Qed.

Definition recorded (request : DecisionRequest) (bytes : string) (r : MigrationRecord) : Prop :=
  ∃ s, s ∈ decisions r ∧ sd_request s = request ∧ sd_bytes s = bytes.
Lemma moves_recorded request bytes r r' : moves r r' → recorded request bytes r → recorded request bytes r'.
Proof.
  intros Hm (s & Hs & Hq & Hb). unfold recorded, decisions in *. destruct Hm as [q b _ _ _ _ _ _|s' replaced label Hp _ st|s' Hp _ _|target Hn _ _ _|_]; cbn.
  - exists s. split; [|done]. rewrite elem_of_app in Hs. rewrite !elem_of_app. auto.
  - rewrite Hp in Hs. rewrite elem_of_app, list_elem_of_singleton in Hs. destruct Hs as [Hs| ->].
    + exists s. rewrite elem_of_app. auto.
    + exists (set_result (state_wire st) s'). rewrite elem_of_app, list_elem_of_singleton. auto.
  - rewrite Hp in Hs. rewrite elem_of_app, list_elem_of_singleton in Hs. destruct Hs as [Hs| ->].
    + exists s. rewrite elem_of_app. auto.
    + exists (set_result "target_missing" s'). rewrite elem_of_app, list_elem_of_singleton. auto.
  - exists s. auto.
  - exists s. auto.
Qed.

(** No decision is forgotten or rewritten, and a confirmed one is final. *)
Definition continues (r r' : MigrationRecord) : Prop :=
  (∀ q b, recorded q b r → recorded q b r') ∧
  (mr_phase r = Decided → mr_phase r' = Decided ∧ decisions r' = decisions r ∧ server_state r' = server_state r ∧ mr_replaced r' = mr_replaced r).
Lemma same_offer_continues r r' : consistent r → same_offer r r' → consistent r' ∧ continues r r'.
Proof.
  intros Hc (r1 & Hm & ->). split; [by apply consistent_revision, (moves_consistent r)|]. split; [intros q b Hq; exact (moves_recorded q b r r1 Hm Hq)|].
  intros Hd. destruct Hc as (_ & _ & Hp). rewrite Hd in Hp. destruct Hp as (Hof & s & Hs & Hss & Hw).
  destruct Hm as [q b Hof' _ _ _ _ _|s' replaced label Hp Hu st|s' Hp Hu _|target Hn _ _ _|Hof']; try congruence.
  - rewrite Hs in Hp. injection Hp as <-. rewrite Hw in Hu. by destruct (dq_choice _).
  - rewrite Hs in Hp. injection Hp as <-. rewrite Hw in Hu. by destruct (dq_choice _).
Qed.
#[global] Instance continues_preorder : PreOrder continues.
Proof.
  split; [done|]. intros r1 r2 r3 [Hr Hd] [Hr' Hd']. split; [auto|]. intros Hp. destruct (Hd Hp) as (E1 & E2 & E3 & E4).
  destruct (Hd' E1) as (-> & -> & -> & ->). done.
Qed.
Lemma fresh_consistent n cid c : consistent (fresh_record n cid c).
Proof. split_and!; [constructor|constructor|]. by split. Qed.

(** The record of the file is consistent; unless a new pairing put its own in
    place, it continues the one before. *)
Lemma evolves_continues r d :
  consistent r → evolves (Some (Some r)) d → ∃ r', d = Some (Some r') ∧ consistent r' ∧ (¬ offers → continues r r').
Proof.
  remember (Some (Some r)) as x eqn:Hx. intros Hc Hev. revert r Hx Hc. induction Hev as [x|x y z Hstep _ IH]; intros r -> Hc; [by exists r|].
  inversion Hstep as [|r0 cid c Hof|r0 r1 Hm]; subst.
  - destruct (IH _ eq_refl (fresh_consistent _ cid c)) as (r' & -> & Hc' & _). exists r'. by split_and!.
  - destruct (same_offer_continues r (set_revision (sat_add_u64 (revision r) 1) r1) Hc) as [Hc1 Hcont]; [by exists r1|].
    destruct (IH _ eq_refl Hc1) as (r' & -> & Hc' & Hcont'). exists r'. split_and!; [done..|]. intros Hno. etrans; [exact Hcont|by apply Hcont'].
Qed.
End machine.
