(* ===== verification/MigrateProps.v ===== *)
(** * The commands follow the machine

    Each command of the replacement offer, with any failures and with the
    other commands running while it waits for the journal, only makes the file
    follow the machine, and sends a decision only once it is in the file. *)
From Stdlib Require Import Ascii String.
From S2P Require Import Prelude RustStr PauseStore Model Ingest Transport OwnerFs Paired PairedLogic PairedSave Answer Retire RetireLogic Migrate MigrateLogic.

Local Open Scope list_scope.

Section commands.
Context `{PairLib} `{!PairLaws} `{RetireLib} `{MigLib} `{!MigLaws}.
(** Whether new pairings are among the commands and what runs beside them. *)
Context (offers : Prop).

(** ** Publishing *)

Definition next_revision (d : option MigrationRecord) (r : MigrationRecord) : option Z :=
  match d with
  | Some c => if (revision c =? revision r)%Z then Some (sat_add_u64 (revision c) 1) else None
  | None => if (revision r =? 0)%Z then Some 1%Z else None
  end.
Definition MIGRATION_FILES : list string := [MIGRATION_TMP; MIGRATION_FILE].

Lemma peeks_load_record : peeks load_record (λ o x, ∀ d, x = Ok d → disk (o_files o) = Some d).
Proof.
  unfold load_record. eapply peeks_bind; [apply peeks_read|]. unfold disk. intros [b|[]].
  - destruct (record_of b) as [r|] eqn:Hr; [|by apply peeks_ret]. destruct (String.eqb (mr_schema r) _) eqn:Hs; apply peeks_ret; [|done].
    intros o [Hf|Hf] d [= <-]; [|done]. unfold found_file in Hf. destruct (o_files o !! _); [|done]. injection Hf as ->. by rewrite Hr, Hs.
  - apply peeks_ret. intros o [Hf|Hf] d [= <-]; [|done]. unfold found_file in Hf. by destruct (o_files o !! _).
  - by apply peeks_ret.
Qed.

(** Nothing published and no success, or the record published over the
    revision it was read at. *)
Definition published (r : MigrationRecord) (o o' : Owned) : Prop :=
  ∃ d next, disk (o_files o) = Some d ∧ next_revision d r = Some next ∧ disk (o_files o') = Some (Some (set_revision next r)).
Definition stays_put (o o' : Owned) : Prop := disk (o_files o') = disk (o_files o) ∧ o_log o' = o_log o.
Definition saves (r : MigrationRecord) (o o' : Owned) : Prop := stays_put o o' ∨ (published r o o' ∧ o_log o' = o_log o).

Lemma disk_same f f' : f' !! MIGRATION_FILE = f !! MIGRATION_FILE → disk f' = disk f.
Proof. unfold disk. by intros ->. Qed.
Lemma oht_save_record r o :
  oht (λ o', o' = o) (save_record r)
    (λ x o', saves r o o' ∧ ∀ r', x = Ok r' → ∃ d next, disk (o_files o) = Some d ∧ next_revision d r = Some next ∧
       r' = set_revision next r ∧ disk (o_files o') = Some (Some r')) (saves r o).
Proof.
  assert (H0' : stays_put o o) by done. unfold save_record.
  assert (Hret : ∀ e : TransportError, oht (λ o', o' = o) (erro e) (λ x o', saves r o o' ∧ ∀ r', x = Ok r' → ∃ d next, disk (o_files o) = Some d ∧
    next_revision d r = Some next ∧ r' = set_revision next r ∧ disk (o_files o') = Some (Some r')) (saves r o)).
  { intros e. apply oht_ret. intros o' ->. split; [by left|done]. }
  destruct (String.eqb (mr_schema r) _) eqn:Hschema; [|apply Hret]. cbn [negb].
  eapply oht_peek; [apply peeks_load_record|by left| |intros e; split; [by left|done]]. intros d Hd. fold (next_revision d r).
  destruct (next_revision d r) as [next|] eqn:Hn; [|apply Hret].
  eapply (oht_try _ _ _ (λ _ o', o' = o)).
  { eapply oht_map_err; [apply (oht_quiet_call (λ o', o' = o))|done|done]. intros ? ->; by left. }
  2: intros e o' ->; split; [by left|done].
  intros u. destruct (record_json (set_revision next r)) as [bytes|] eqn:Hj; [|apply Hret].
  assert (Hdisk : ∀ o', o_files o' !! MIGRATION_FILE = Some bytes → disk (o_files o') = Some (Some (set_revision next r))).
  { intros o' Hf. unfold disk. rewrite Hf, (record_round _ _ Hj). cbn. by rewrite Hschema. }
  assert (Hhas : ∀ o', has_put MIGRATION_TMP MIGRATION_FILE bytes o o' → published r o o' ∧ o_log o' = o_log o).
  { intros o' [[Hl _] Hf]. split; [|done]. exists d, next. split_and!; auto. }
  assert (Hnot : ∀ o', not_put MIGRATION_TMP MIGRATION_FILE o o' → stays_put o o').
  { intros o' [[Hl _] Hf]. split; [by apply disk_same|done]. }
  assert (Hmay : ∀ o', maybe_put MIGRATION_TMP MIGRATION_FILE bytes o o' → saves r o o').
  { intros o' [Hs [Hf|Hf]]; [left; by apply Hnot|right; by apply Hhas]. }
  assert (Hstg : ∀ o', staged_only MIGRATION_TMP o o' → saves r o o') by (intros o' Ho; left; by apply Hnot, staged_not_put).
  eapply oht_try; [eapply oht_weaken; [apply (oht_stage MIGRATION_TMP bytes TIo o)|intros o' ->; apply same_but_refl|intros x o' Hx; exact Hx|exact Hstg]| |].
  2: intros e o' [Ho _]; split; [by apply Hstg|done].
  intros u'. cbn. eapply (oht_try _ _ _ (λ _ o', staged_only MIGRATION_TMP o o' ∧ o_files o' !! MIGRATION_TMP = Some bytes)).
  { eapply oht_map_err; [apply oht_read; intros o' [? _]; by apply Hstg|by intros ? ? [? _]..]. }
  2: intros e o' [Ho _]; split; [by apply Hstg|done].
  intros staged. destruct (negb _); [apply oht_ret; intros o' [Ho _]; split; [by apply Hstg|done]|].
  eapply (oht_try _ _ _ (λ x o', maybe_put MIGRATION_TMP MIGRATION_FILE bytes o o' ∧ (is_ok x = true → has_put MIGRATION_TMP MIGRATION_FILE bytes o o'))).
  { eapply oht_map_err; [eapply oht_weaken; [by apply (oht_publish MIGRATION_TMP MIGRATION_FILE bytes) with (o := o)|by intros o' Ho|intros x o' Hx; exact Hx|exact Hmay]| |].
    - intros v o' Ho. cbn in Ho. split; [by apply has_maybe|done].
    - intros [] o' Ho; cbn in Ho; (split; [|done]); try (by apply not_maybe). done. }
  2: intros e o' [Ho _]; split; [by apply Hmay|done].
  intros v. apply (oht_pre _ _ (has_put MIGRATION_TMP MIGRATION_FILE bytes o)); [|intros o' [_ Ho]; by apply Ho].
  eapply (oht_try _ _ _ (λ _ o', has_put MIGRATION_TMP MIGRATION_FILE bytes o o')).
  { eapply oht_map_err; [apply oht_read; intros o' Ho; by apply Hmay, has_maybe|by intros ? ? [? _]..]. }
  2: intros e o' Ho; split; [by apply Hmay, has_maybe|done].
  intros p. destruct (negb _); apply oht_ret; intros o' Ho; (split; [by apply Hmay, has_maybe|]); [done|].
  intros r' [= <-]. exists d, next. destruct Ho as [_ Hf]. split_and!; auto.
Qed.

(** ** Runs of a command *)

(** What the file does, and what this command has asked. *)
Definition quiet (o o' : Owned) : Prop := evolves offers (disk (o_files o)) (disk (o_files o')) ∧ o_log o' = o_log o.
Definition sends (o o' : Owned) : Prop :=
  ∃ b s d, o_log o' = o_log o ++ [AskedDecision b] ∧ evolves offers (disk (o_files o)) (Some (Some d)) ∧ evolves offers (Some (Some d)) (disk (o_files o')) ∧
    pending_decision d = Some s ∧ decision_bytes s = Ok b.
Definition goes (o o' : Owned) : Prop := quiet o o' ∨ sends o o'.

Lemma quiet_refl o : quiet o o.
Proof. split; [apply rtc_refl|done]. Qed.
Lemma quiet_trans o1 o2 o3 : quiet o1 o2 → quiet o2 o3 → quiet o1 o3.
Proof. intros [He Hl] [He' Hl']. split; [by etrans|congruence]. Qed.
Lemma quiet_goes o1 o2 o3 : quiet o1 o2 → goes o2 o3 → goes o1 o3.
Proof.
  intros Hq [Hq'|(b & s & d & Hl & Hd & Hd' & Hs & Hb)]; [left; by eapply quiet_trans|]. right. exists b, s, d.
  destruct Hq as [He Hlq]. split_and!; try done; [by rewrite Hl, Hlq|by etrans].
Qed.
Lemma goes_quiet o1 o2 o3 : goes o1 o2 → quiet o2 o3 → goes o1 o3.
Proof.
  intros [Hq|(b & s & d & Hl & Hd & Hd' & Hs & Hb)] [He Hlq]; [left; by eapply quiet_trans|]. right. exists b, s, d.
  split_and!; try done; [by rewrite Hlq, Hl|by etrans].
Qed.
Lemma put_quiet o o' : stays_put o o' → quiet o o'.
Proof. intros [Hd Hl]. split; [by rewrite Hd; apply rtc_refl|done]. Qed.
Lemma evidence_quiet o o' : same_but EVIDENCE_FILES o o' → quiet o o'.
Proof using Type. clear H0 H3. intros [Hl Hf]. apply put_quiet. split; [|done]. apply disk_same, Hf. set_solver. Qed.

(** Other commands while this one waits. *)
Definition around {A} (m : OIO A) : Prop := ∀ o, oht (λ o', o' = o) m (λ _ o', quiet o o') (quiet o).
Definition going {A} (P : Owned → Prop) (m : OIO A) : Prop := ∀ o, P o → oht (λ o', o' = o) m (λ _ o', goes o o') (goes o).

Lemma goes_refl o : goes o o.
Proof. left. apply quiet_refl. Qed.
Lemma going_ret {A} P (a : A) : going P (mret a).
Proof. intros o _. apply oht_ret. intros o' ->. apply goes_refl. Qed.
Lemma going_reads {A B E} P (m : OIO (result A E)) (k : A → OIO (result B E)) φ :
  reads m φ → (∀ a, going (λ o, P o ∧ φ o a) (k a)) → going P (tryo m k).
Proof.
  intros Hm Hk o Hp. eapply oht_try; [eapply oht_weaken; [apply (Hm o)|done|intros r o' Hr; exact Hr|intros o' Ho; left; by apply evidence_quiet]| |].
  - intros a. cbn. eapply oht_pre; [apply (oht_fix _ (φ o a) o)|by intros ? [-> ?]]. intros Hφ. by apply Hk.
  - intros e o' Ho. left. by apply evidence_quiet.
Qed.
Lemma going_around {A B E} P (m : OIO (result A E)) (k : A → OIO (result B E)) :
  around m → (∀ a, going (λ o', ∃ o, P o ∧ quiet o o') (k a)) → going P (tryo m k).
Proof.
  intros Hm Hk o Hp. eapply oht_try; [eapply oht_weaken; [apply (Hm o)|done|intros r o' Hr; exact Hr|intros o' Ho; by left]| |by intros e o' Ho; left].
  intros a. apply oht_at. intros o1 Hq. eapply oht_weaken; [apply (Hk a o1); by eauto|done|..]; intros; by eapply quiet_goes.
Qed.
Lemma reads_record : reads load_record (λ o d, disk (o_files o) = Some d).
Proof. apply oreads_peeks, peeks_load_record. Qed.
Lemma reads_answer : reads (map_err transport_of read_answer) (λ _ _, True).
Proof. apply oreads_map_err, oreads_peeks. eapply peeks_weaken; [apply peeks_read_answer|done]. Qed.

(** Publishing a step of the machine. *)
Lemma saves_quiet r o o' :
  (∀ d next, disk (o_files o) = Some d → next_revision d r = Some next → evolve1 offers (Some d) (Some (Some (set_revision next r)))) →
  saves r o o' → quiet o o'.
Proof.
  intros Hev [Hs|[(d & next & Hd & Hn & Hd') Hl]]; [by apply put_quiet|]. split; [|done]. rewrite Hd, Hd'. apply rtc_once. by apply Hev.
Qed.
Lemma oht_save_quiet r o :
  (∀ d next, disk (o_files o) = Some d → next_revision d r = Some next → evolve1 offers (Some d) (Some (Some (set_revision next r)))) →
  oht (λ o', o' = o) (save_record r) (λ x o', quiet o o' ∧ ∀ r', x = Ok r' → ∃ d next, disk (o_files o) = Some d ∧
    next_revision d r = Some next ∧ r' = set_revision next r ∧ disk (o_files o') = Some (Some r')) (quiet o).
Proof.
  intros Hev. eapply oht_weaken; [apply (oht_save_record r o)|done|..].
  - intros x o' [Hs Hx]. split; [by eapply saves_quiet|done].
  - intros o' Hs. by eapply saves_quiet.
Qed.
(** A record read as [r0], which others may have replaced since. *)
Lemma stale_step r0 r o :
  evolves offers (Some (Some r0)) (disk (o_files o)) → (revision r0 < u64_max)%Z → moves r0 r → revision r = revision r0 →
  ∀ d next, disk (o_files o) = Some d → next_revision d r = Some next → evolve1 offers (Some d) (Some (Some (set_revision next r))).
Proof.
  intros Hev Hr Hm Hrev d next Hd Hn. rewrite Hd in Hev. destruct (evolves_from _ _ _ Hev) as [c Hc]. injection Hc as ->.
  unfold next_revision in Hn. destruct (Z.eqb_spec (revision c) (revision r)) as [He|]; [|done]. injection Hn as <-.
  assert (c = r0) as -> by (eapply evolves_fresh; [done|done|congruence]). by constructor.
Qed.
Lemma moves_revision r r' : moves r r' → revision r' = revision r.
Proof. by intros []. Qed.

(** ** The journal's answer *)

Lemma oht_terminal r0 s response o :
  evolves offers (Some (Some r0)) (disk (o_files o)) → (revision r0 < u64_max)%Z → pending_decision r0 = Some s → sd_result s = "unknown" →
  oht (λ o', o' = o) (mark_decision_terminal r0 response) (λ _ o', quiet o o') (quiet o).
Proof.
  intros Hev Hr Hs Hu. unfold mark_decision_terminal. rewrite Hs.
  destruct (_ || _) eqn:Hg; [apply oht_ret; intros o' ->; apply quiet_refl|].
  rewrite !orb_false_iff, !negb_false_iff, !bool_decide_eq_true in Hg. destruct Hg as ((((((_ & _) & Hst) & _) & _) & _) & _).
  eapply oht_post; [apply oht_save_quiet|by intros x o' [? _]]. eapply stale_step; [done|done| |done]. rewrite Hst. by apply mv_terminal.
Qed.
Lemma oht_missing r0 s status body o :
  evolves offers (Some (Some r0)) (disk (o_files o)) → (revision r0 < u64_max)%Z → pending_decision r0 = Some s → sd_result s = "unknown" →
  oht (λ o', o' = o) (record_target_missing r0 status body) (λ _ o', quiet o o') (quiet o).
Proof.
  intros Hev Hr Hs Hu. unfold record_target_missing.
  assert (Hret : ∀ x : result (option MigrationRecord) TransportError, oht (λ o', o' = o) (mret x) (λ _ o', quiet o o') (quiet o))
    by (intros x; apply oht_ret; intros o' ->; apply quiet_refl).
  destruct (negb _); [apply Hret|]. rewrite Hs. destruct (_ || _) eqn:Hg; [apply Hret|].
  rewrite orb_false_iff, !negb_false_iff, bool_decide_eq_true in Hg. destruct Hg as [Hc _].
  eapply (oht_try _ _ _ (λ _ o', quiet o o')); [|intros r; by apply oht_ret|done].
  eapply oht_post; [apply oht_save_quiet|by intros x o' [? _]]. eapply stale_step; [done|done| |done]. by apply mv_missing.
Qed.

Section journal.
Context (get_state : OIO (result Response TransportError)) (net_put : string → OIO (result Response TransportError)).
Context (Hget : around get_state) (Hput : ∀ b, around (net_put b)).

(** A request for a decision is noted when it goes out. *)
Definition put_decision (b : string) : OIO (result Response TransportError) := asked (AskedDecision b);; net_put b.

Lemma oht_put r0 s b o :
  evolves offers (Some (Some r0)) (disk (o_files o)) → pending_decision r0 = Some s → decision_bytes s = Ok b →
  ∀ o0, quiet o0 o → disk (o_files o0) = Some (Some r0) →
  oht (λ o', o' = o) (put_decision b) (λ _ o', goes o0 o' ∧ evolves offers (Some (Some r0)) (disk (o_files o'))) (goes o0).
Proof using Hput.
  intros Hev Hs Hb o0 [He Hl] Hd. unfold put_decision.
  set (o1 := mkOwned (o_files o) (o_log o ++ [AskedDecision b])).
  eapply (oht_bind _ _ _ (λ _ o', o' = o1)); [by intros w <-|]. intros u.
  assert (Hgo : ∀ o', quiet o1 o' → goes o0 o' ∧ evolves offers (Some (Some r0)) (disk (o_files o'))).
  { intros o' [He' Hl']. assert (Hev' : evolves offers (Some (Some r0)) (disk (o_files o'))) by (by etrans; [exact Hev|]).
    split; [|done]. right. exists b, s, r0. split_and!; try done; [by rewrite Hl'; cbn; rewrite Hl|by rewrite Hd; apply rtc_refl]. }
  eapply oht_weaken; [apply (Hput b o1)|done|intros x o' Ho; by apply Hgo|intros o' Ho; by apply Hgo].
Qed.

Lemma oht_reconcile r0 o :
  disk (o_files o) = Some (Some r0) → (revision r0 < u64_max)%Z →
  oht (λ o', o' = o) (reconcile_saved_decision get_state put_decision r0) (λ _ o', goes o o') (goes o).
Proof using Hget Hput H3.
  intros Hd Hr. unfold reconcile_saved_decision.
  assert (Hret : ∀ o1 (x : result DecisionReconcile TransportError), goes o o1 → oht (λ o', o' = o1) (mret x) (λ _ o', goes o o') (goes o))
    by (intros o1 x Hg; apply oht_ret; by intros o' ->).
  destruct (pending_decision r0) as [s|] eqn:Hs; [|apply Hret, goes_refl].
  destruct (String.eqb (sd_result s) "target_missing"); [apply Hret, goes_refl|].
  destruct (String.eqb_spec (sd_result s) "unknown") as [Hu|]; [|apply Hret, goes_refl]. cbn [negb].
  eapply oht_try; [eapply oht_weaken; [apply (Hget o)|done|intros x o' Hx; exact Hx|intros o' Hq; by left]| |intros e o' Hq; by left].
  intros get. cbn. apply oht_at. intros o1 Hq. assert (Hgo : goes o o1) by by left.
  assert (Hev1 : evolves offers (Some (Some r0)) (disk (o_files o1))) by (rewrite <- Hd; apply Hq).
  destruct (negb _); [by apply Hret|]. destruct (state_response_of _) as [st|]; [|by apply Hret].
  destruct (reconcile_decision_state r0 st) as [[]|]; try (by apply Hret).
  destruct (decision_bytes s) as [b|] eqn:Hb; [|by apply Hret].
  eapply oht_try; [by apply (oht_put r0 s b o1 Hev1 Hs Hb o Hq Hd)| |by intros e o' [? _]].
  intros put. cbn. apply oht_at. intros o2 [Hg2 Hev2].
  assert (Hthen : ∀ A (m : OIO (result A TransportError)) (k : A → OIO (result DecisionReconcile TransportError)),
    oht (λ o', o' = o2) m (λ _ o', quiet o2 o') (quiet o2) → (∀ a o', goes o o' → oht (λ o'', o'' = o') (k a) (λ _ o'', goes o o'') (goes o)) →
    oht (λ o', o' = o2) (tryo m k) (λ _ o', goes o o') (goes o)).
  { intros A m k Hm Hk. eapply oht_try; [eapply oht_weaken; [exact Hm|done|intros x o' Hx; exact Hx|intros o' Hx; by eapply goes_quiet]| |intros e o' Hx; by eapply goes_quiet].
    intros a. apply oht_at. intros o3 Hq3. apply Hk. by eapply goes_quiet. }
  destruct (_ && _).
  - apply Hthen; [by eapply oht_missing|]. intros [r'|] o' Ho; by apply Hret.
  - destruct (decision_response_of _) as [resp|]; [|by apply Hret]. apply Hthen; [by eapply oht_terminal|]. intros r' o' Ho. by apply Hret.
Qed.

Lemma oht_persist r0 choice cid o :
  disk (o_files o) = Some (Some r0) →
  oht (λ o', o' = o) (persist_decision r0 choice cid)
    (λ x o', quiet o o' ∧ ∀ r', x = Ok r' → disk (o_files o') = Some (Some r') ∧ (revision r' <= Z.max (revision r0) (revision r0 + 1))%Z) (quiet o).
Proof using H3.
  intros Hd. unfold persist_decision.
  assert (Hret : ∀ e : TransportError, oht (λ o', o' = o) (erro e) (λ x o', quiet o o' ∧ ∀ r', x = Ok r' → disk (o_files o') = Some (Some r') ∧
     (revision r' <= Z.max (revision r0) (revision r0 + 1))%Z) (quiet o)) by (intros e; apply oht_ret; intros o' ->; split; [apply quiet_refl|done]).
  destruct (_ || _); [apply Hret|]. cbv zeta.
  match goal with |- oht _ (match _ with Some _ => _ | None => ?m end) _ _ => set (fresh := m) end.
  assert (Hfresh : (∀ s, pending_decision r0 = Some s → sd_result s = "target_missing") →
    oht (λ o', o' = o) fresh (λ x o', quiet o o' ∧ ∀ r', x = Ok r' → disk (o_files o') = Some (Some r') ∧
     (revision r' <= Z.max (revision r0) (revision r0 + 1))%Z) (quiet o)).
  { intros Hmiss. unfold fresh. destruct (_ || _) eqn:Hg; [apply Hret|].
    rewrite !orb_false_iff, !negb_false_iff, bool_decide_eq_true, bool_decide_eq_false in Hg. destruct Hg as ((((Hof & Hph) & Hss) & _) & _).
    destruct (request_json _) as [bytes|] eqn:Hj; [|apply Hret].
    eapply oht_post; [apply oht_save_quiet|].
    - intros d next Hd' Hn. rewrite Hd in Hd'. injection Hd' as <-. unfold next_revision in Hn. cbn in Hn. rewrite Z.eqb_refl in Hn. injection Hn as <-.
      constructor. apply mv_decide; try done. by apply eq_None_not_Some.
    - intros x o' [Hq Hx]. split; [done|]. intros r' Hr'. destruct (Hx r' Hr') as (d & next & Hd' & Hn & -> & Hdisk). split; [done|].
      rewrite Hd in Hd'. injection Hd' as <-. unfold next_revision in Hn. cbn in Hn. rewrite Z.eqb_refl in Hn. injection Hn as <-.
      cbn. unfold sat_add_u64. lia. }
  destruct (pending_decision r0) as [s|] eqn:Hs; [|by apply Hfresh].
  destruct (_ && _).
  - destruct (String.eqb _ _); [apply Hret|]. apply oht_ret. intros o' ->. split; [apply quiet_refl|]. intros r' [= <-]. split; [done|lia].
  - destruct (String.eqb_spec (sd_result s) "target_missing") as [He|]; [|apply Hret]. cbn [negb]. apply Hfresh. by intros s' [= <-].
Qed.

(** There is room for another revision. *)
Definition room (o : Owned) : Prop := ∀ r, disk (o_files o) = Some (Some r) → (revision r + 1 < u64_max)%Z.

Lemma going_decide choice cid : going room (decide_replacement get_state put_decision choice cid).
Proof using Hget Hput H3.
  eapply going_reads; [apply reads_record|]. intros [r0|]; [|apply going_ret].
  eapply going_reads; [apply oreads_load|]. intros paired. destruct (credential paired) as [c|]; [|apply going_ret].
  destruct (negb _ || negb _); [apply going_ret|]. intros o [[Hroom Hd] _]. specialize (Hroom _ Hd).
  eapply oht_try; [eapply oht_weaken; [by apply (oht_persist r0 choice cid o)|done|intros x o' Hx; exact Hx|intros o' Hq; by left]| |by intros e o' [? _]; left].
  intros r1. cbn. apply oht_at. intros o1 [Hq Hr1]. destruct (Hr1 r1 eq_refl) as [Hd1 Hrev].
  assert (Hrec : oht (λ o', o' = o1) (reconcile_saved_decision get_state put_decision r1) (λ _ o', goes o o') (goes o)).
  { eapply oht_weaken; [apply (oht_reconcile r1 o1 Hd1); lia|done|..]; intros; by eapply quiet_goes. }
  destruct (pending_decision r1) as [s|]; [|done]. destruct (String.eqb _ _); [|done].
  apply oht_ret. intros o' ->. by left.
Qed.
Lemma going_resume : going room (resume_decision get_state put_decision).
Proof using Hget Hput H3.
  eapply going_reads; [apply reads_record|]. intros [r0|]; [|apply going_ret]. destruct (pending_decision r0) as [s|]; [|apply going_ret].
  destruct (String.eqb _ _); [apply going_ret|]. destruct (String.eqb _ _); [|apply going_ret].
  intros o [Hroom Hd]. specialize (Hroom _ Hd). apply oht_reconcile; [done|lia].
Qed.

(** ** The offer *)

Lemma going_step P r {B} (k : MigrationRecord → OIO (result B TransportError)) (f : MigrationRecord) :
  (∀ r', going (λ _, True) (k r')) → (moves r f ∧ revision f = revision r) → going (λ o, P o ∧ disk (o_files o) = Some (Some r)) (x ←! save_record f; k x).
Proof using H3.
  intros Hk [Hm Hrev] o [_ Hd].
  eapply oht_try; [eapply oht_weaken; [apply (oht_save_quiet f o)|done|intros x o' Hx; exact Hx|intros o' Hq; by left]| |by intros e o' [? _]; left].
  - intros d next Hd' Hn. rewrite Hd in Hd'. injection Hd' as <-. unfold next_revision in Hn. rewrite Hrev, Z.eqb_refl in Hn. injection Hn as <-. by constructor.
  - intros r'. apply oht_at. intros o1 [Hq _]. eapply oht_weaken; [apply (Hk r' o1 I)|done|..]; intros; by eapply quiet_goes.
Qed.

Lemma going_offer c : offers → going (λ _, True) (record_fresh_pair_offer c).
Proof using H3.
  intros Hof. eapply going_reads; [apply reads_record|]. intros d. destruct (credential_cid c) as [cid|]; [|apply going_ret].
  intros o [_ Hd]. eapply oht_weaken; [apply (oht_save_quiet _ o)|done|by intros x o' [? _]; left|by intros o' ?; left].
  intros d' next Hd' Hn. rewrite Hd in Hd'. injection Hd' as <-. destruct d as [r|]; cbn in Hn.
  - rewrite Z.eqb_refl in Hn. injection Hn as <-. by constructor.
  - injection Hn as <-. constructor.
Qed.
Lemma going_dismiss b g n : going (λ _, True) (dismiss_fresh_pair_offer b g n).
Proof using H3.
  eapply going_reads; [apply reads_record|]. intros [r|]; [|apply going_ret]. eapply going_reads; [apply oreads_load|]. intros paired.
  destruct (_ || _); [apply going_ret|]. destruct (offer_pending r) eqn:Hof; [|destruct (negb _); apply going_ret].
  intros o [Ho _]. revert o Ho. apply (going_step (λ _, True) r (λ _, oko tt)); [intros; apply going_ret|]. split; [by apply mv_dismiss|done].
Qed.

Lemma reads_needs : reads fresh_pair_offer_needs_list (λ o b, b = true → ∃ r, disk (o_files o) = Some (Some r) ∧ needs_list r = true).
Proof.
  unfold fresh_pair_offer_needs_list. eapply oreads_try; [apply reads_record|]. intros [r|]; [|apply oreads_ret; by intros o a [= <-]].
  destruct (needs_list r) eqn:Hn; [|apply oreads_ret; by intros o a [= <-]]. cbn [negb]. eapply oreads_try; [apply reads_answer|]. intros [a|]; [|apply oreads_ret; by intros o x [= <-]].
  destruct (_ || _ || _); [apply oreads_ret; by intros o x [= <-]|]. eapply oreads_try; [apply oreads_load|]. intros paired.
  destruct (credential paired) as [c|]; apply oreads_ret; [|by intros o x [= <-]]. intros o x [= <-] _ _ Hd _. by exists r.
Qed.
Lemma going_apply admitted target :
  target ≠ Unchecked → going (λ _, True) (apply_classified_offer admitted target (bool_decide (target = ShowOffer))).
Proof using H3.
  intros Ht. eapply going_reads; [apply reads_needs|]. intros [|]; cbn [negb]; [|apply going_ret].
  eapply going_reads; [apply reads_record|]. intros [r|]; [|apply going_ret]. destruct (_ || _); [apply going_ret|].
  intros o [[_ Hneeds] Hd]. destruct (Hneeds eq_refl) as (r' & Hd' & Hn). rewrite Hd in Hd'. injection Hd' as <-.
  unfold needs_list in Hn. rewrite !andb_true_iff, !bool_decide_eq_true in Hn. destruct Hn as (((((_ & _) & Hph) & Hpd) & _) & He).
  eapply oht_bind; [eapply oht_weaken; [apply (oht_save_quiet (set_offer target (bool_decide (target = ShowOffer)) (offer_shown r) r) o)|done|intros x o' [Hq _]; exact Hq|by intros o' ?; left]|].
  - intros d next Hd' Hnx. rewrite Hd in Hd'. injection Hd' as <-. unfold next_revision in Hnx. cbn in Hnx. rewrite Z.eqb_refl in Hnx. injection Hnx as <-.
    constructor. by apply mv_classify.
  - intros [r'|[]]; apply oht_ret; intros o' Hq; by left.
Qed.
Lemma going_classify prepare : (∀ a, around (prepare a)) → going (λ _, True) (classify_admitted_fresh_pair_offer prepare).
Proof using H3.
  intros Hprep. eapply going_reads; [apply reads_needs|]. intros [|]; cbn [negb]; [|apply going_ret].
  eapply going_reads; [apply reads_record|]. intros [r|]; [|apply going_ret]. cbv zeta. apply going_around; [apply Hprep|]. intros read.
  assert (Hcl : ∀ t p, classification (admitted_of r) read = Some (t, p) → t ≠ Unchecked ∧ p = bool_decide (t = ShowOffer)).
  { intros t p. unfold classification. destruct read as [|devices|]; [done| |by intros [= <- <-]]. by destruct (without_own_cid _ _); intros [= <- <-]. }
  destruct (classification _ read) as [[t p]|]; [|apply going_ret]. destruct (Hcl t p eq_refl) as [Ht ->].
  intros o _. by apply going_apply.
Qed.

(** The commands of the app. *)
Inductive MigOp : Type :=
  | MDecide (choice : Choice) (replaces : option string) | MResume | MOffer (c : Credential)
  | MDismiss (binding generation : string) (rev : Z) | MClassify (prepare : AdmittedFreshPair → OIO (result AdmittedFreshPairRead TransportError)).
Definition run_mig (op : MigOp) : OIO unit :=
  match op with
  | MDecide choice cid => decide_replacement get_state put_decision choice cid;; mret tt
  | MResume => resume_decision get_state put_decision;; mret tt
  | MOffer c => record_fresh_pair_offer c;; mret tt
  | MDismiss b g n => dismiss_fresh_pair_offer b g n;; mret tt
  | MClassify prepare => classify_admitted_fresh_pair_offer prepare;; mret tt
  end.
Definition prepares_around (op : MigOp) : Prop :=
  match op with MClassify prepare => ∀ a, around (prepare a) | MOffer _ => offers | _ => True end.

Lemma going_discard {A} P (m : OIO A) : going P m → going P (m;; mret tt).
Proof. intros Hm o Hp. eapply oht_bind; [by apply Hm|]. intros a. by apply oht_ret. Qed.
Lemma going_weaken {A} (P P' : Owned → Prop) (m : OIO A) : going P' m → (∀ o, P o → P' o) → going P m.
Proof. intros Hm Hp o Ho. by apply Hm, Hp. Qed.
Lemma going_run op : prepares_around op → going room (run_mig op).
Proof using Hget Hput H3.
  intros Hpr. destruct op; cbn; apply going_discard; [apply going_decide|apply going_resume|..]; eapply (going_weaken _ (λ _, True)); try done.
  - by apply going_offer.
  - apply going_dismiss.
  - by apply going_classify.
Qed.

(** C28. Each command of the replacement offer, whatever calls fail, wherever
    the process stops and whatever the other commands do while it waits for the
    journal, leaves a file that followed the machine; and what it sends, at most
    one decision, are the exact bytes of a decision that was in the file before
    they went out. *)
Theorem commands_follow_the_machine op o :
  prepares_around op → room o →
  oht (λ o', o' = o) (run_mig op)
    (λ _ o', evolves offers (disk (o_files o)) (disk (o_files o')) ∧ (o_log o' = o_log o ∨ sends o o'))
    (λ o', evolves offers (disk (o_files o)) (disk (o_files o')) ∧ (o_log o' = o_log o ∨ sends o o')).
Proof using Hget Hput H3.
  intros Hpr Hr. assert (Hgo : ∀ o', goes o o' → evolves offers (disk (o_files o)) (disk (o_files o')) ∧ (o_log o' = o_log o ∨ sends o o')).
  { intros o' [[He Hl]|Hs]; [by split; [|left]|]. split; [|by right]. destruct Hs as (b & s & d & _ & H1' & H2' & _). by etrans. }
  eapply oht_weaken; [by apply (going_run op Hpr o Hr)|done|intros a o' Ho; by apply Hgo|intros o' Ho; by apply Hgo].
Qed.

(** ** Any run of commands *)

(** A command run to its end, or to the call at which the process stopped. *)
Definition mig_step (o o' : Owned) : Prop :=
  ∃ op w, prepares_around op ∧ room o ∧ ow_own w = o ∧ ow_own (run_mig op w).2 = o'.
Lemma mig_step_evolves o o' : mig_step o o' → evolves offers (disk (o_files o)) (disk (o_files o')).
Proof using Hget Hput H3.
  intros (op & w & Hpr & Hr & Ho & <-). pose proof (going_run op Hpr o Hr w Ho) as Hg. destruct (run_mig op w) as [[u|] w']; cbn in *;
    (destruct Hg as [[He _]|(b & s & d & _ & H1' & H2' & _)]; [done|by etrans]).
Qed.

(** C27. Over any run of commands, with any failures and stops, the record on
    disk stays consistent: a decision is recorded only after every earlier one
    was proven to have no target. And unless a new pairing puts its own record
    in place, by a command of the run or beside one, every decision recorded
    stays recorded with its request and its bytes, and one that the journal
    confirmed is final: no decision is added, and the answer never changes. *)
Theorem one_decision_at_a_time o o' r :
  rtc mig_step o o' → disk (o_files o) = Some (Some r) → consistent r →
  ∃ r', disk (o_files o') = Some (Some r') ∧ consistent r' ∧
    (¬ offers → (∀ q b, recorded q b r → recorded q b r') ∧
       (mr_phase r = Decided → mr_phase r' = Decided ∧ decisions r' = decisions r ∧ server_state r' = server_state r ∧ mr_replaced r' = mr_replaced r)).
Proof using Hget Hput H0 H3.
  intros Hrun Hd Hc. apply (evolves_continues offers r _ Hc). rewrite <- Hd. clear Hd. induction Hrun as [o|o o1 o' Hs _ IH]; [apply rtc_refl|].
  etrans; [by apply mig_step_evolves|done].
Qed.
End journal.
End commands.
