(* ===== verification/Token.v ===== *)
(** * Publishing a relay token (crates/pl-transport-win/src/credential.rs)

    A refreshed relay token is used only once it is known to be in the pairing
    file, for the pairing it was asked for. [fence] is whether the relay fence
    allows this client's incarnation; marking it ineligible is an output. *)
From Stdlib Require Import Ascii String.
From S2P Require Import Prelude RustStr PauseStore Model Ingest Transport OwnerFs Paired PairedLogic PairedSave PairedOpen.

Local Open Scope list_scope.

Inductive TokenCommit : Type := TUnchanged | TIndeterminate | TCommitted (generation : Z).

(** What a commit does in memory: the key of the next mutation, and whether
    the relay was marked ineligible for this incarnation. *)
Record TokenEffect : Type := mkEffect { te_cas_key : option CasKey; te_ineligible : bool }.

Section token.
Context `{PairLib}.
(** The client's pairing, its incarnation and the saved path if it is known. *)
Context (generation : string) (incarnation : Z).

Definition unchanged : TokenCommit * TokenEffect := (TUnchanged, mkEffect None true).
Definition indeterminate : TokenCommit * TokenEffect := (TIndeterminate, mkEffect None true).
Definition committed (g : Z) : TokenCommit * TokenEffect := (TCommitted g, mkEffect (Some (mkCasKey generation g)) false).

Definition classify_readback (expected_next : Z) (token : string) (expires_at : Z) : OIO (TokenCommit * TokenEffect) :=
  r ← load;
  mret (match r with
        | Err _ => indeterminate
        | Ok state =>
          match credential state with
          | None => unchanged
          | Some c =>
            if negb (String.eqb (pairing_generation (client_cert_pem c)) generation) then unchanged
            else if (access_mutation_generation state =? expected_next)%Z && bool_decide (device_token c = Some token) &&
                    bool_decide (device_token_expires_at c = Some expires_at)
            then committed expected_next
            else unchanged
          end
        end).

Definition commit_token (fence has_path : bool) (ctx_incarnation : Z) (token : string) (expires_at : Z) : OIO (TokenCommit * TokenEffect) :=
  if negb (ctx_incarnation =? incarnation)%Z || negb fence then mret (TUnchanged, mkEffect None false)
  else if negb has_path then mret unchanged
  else
    r ← load;
    match r with
    | Err _ => mret indeterminate
    | Ok state =>
      match credential state with
      | None => mret unchanged
      | Some c =>
        if negb (String.eqb (pairing_generation (client_cert_pem c)) generation) then mret unchanged
        else
          let current := access_mutation_generation state in
          let expected_next := wrap_u64 (current + 1) in
          r ← mutate (mkCasKey generation current) (λ c, Ok (set_token (Some token) (Some expires_at) c));
          match r with
          | Ok g => if (g =? expected_next)%Z then mret (committed g) else classify_readback expected_next token expires_at
          | Err _ => classify_readback expected_next token expires_at
          end
      end
    end.

(** ** What a commit tells *)

(** The file holds the token for this pairing, at this access generation,
    wrapped by the protector and such that loading gives it back. *)
Definition token_on_disk (g : Z) (token : string) (expires_at : Z) (f : gmap string string) : Prop :=
  ∃ s' c' t', stored_at PAIRED_STATE_FILE_NAME f = Some (Some s') ∧ credential s' = Some c' ∧
    pairing_generation (client_cert_pem c') = generation ∧ access_mutation_generation s' = g ∧
    device_token c' = Some t' ∧ sealed token t' ∧ unwrap_pure t' = Some token ∧ device_token_expires_at c' = Some expires_at.

(** A loaded token is the one on disk, unwrapped. *)
Definition same_token (c' c : Credential) : Prop :=
  client_cert_pem c = client_cert_pem c' ∧ relay_origin c = relay_origin c' ∧
  ∀ t, device_token c = Some t → ∃ t', device_token c' = Some t' ∧ unwrap_pure t' = Some t ∧ device_token_expires_at c = device_token_expires_at c'.
Lemma oreads_token c b : reads (unwrap_credential c b) (λ _ r, same_token c r.1).
Proof.
  unfold unwrap_credential. eapply oreads_bind; [apply peeks_unwrap_exact|]. intros [key|e].
  - destruct (device_token (set_key key c)) as [t|] eqn:Ht; cbn in Ht.
    + eapply oreads_bind; [apply peeks_unwrap_exact|]. intros [t'|e'].
      * apply oreads_ret. intros o a [= <-] Hu _. split_and!; [done..|]. intros x [= <-]. exists t. split_and!; try done. by apply Hu.
      * destruct e'; apply oreads_ret; try done. intros o a [= <-] _ _. by split_and!.
    + apply oreads_ret. intros o a [= <-] _. split_and!; [done..|]. intros x Hx. cbn in Hx. congruence.
  - destruct e; try (by apply oreads_ret). destruct (extract_protected_blob _) as [blob|]; [|by apply oreads_ret].
    intros o. eapply (oht_try _ _ _ (λ _ o', same_but EVIDENCE_FILES o o')); [|intros a; by apply oht_ret|done].
    eapply oht_map_err; [eapply oht_pre; [apply oht_evidence|by intros ? ->]|done|done].
Qed.
Definition loaded_token (f : gmap string string) (s : PairedState) : Prop :=
  ∀ c, credential s = Some c → ∃ s' c', stored_at PAIRED_STATE_FILE_NAME f = Some (Some s') ∧ credential s' = Some c' ∧ same_token c' c ∧
    access_mutation_generation s = access_mutation_generation s'.
Lemma oreads_load_token : reads load (λ o s, loaded_token (o_files o) s).
Proof.
  apply oreads_load_with; [|by intros o _ c Hc]. intros s'. unfold open_stored.
  eapply (oreads_try _ _ (λ _ r, ∀ c, r.1 = Some c → ∃ c', credential s' = Some c' ∧ same_token c' c)).
  { unfold unwrap_held. destruct (credential s') as [c'|] eqn:Hc'; [|apply oreads_ret; by intros o a [= <-]].
    eapply oreads_try; [apply oreads_token|]. intros [c b]. apply oreads_ret. intros o a [= <-] Ht c0 [= <-]. eauto. }
  intros [c b]. eapply (oreads_try _ _ (λ _ _, True)).
  { unfold unwrap_intent. destruct (retirement_intent s') as [i|]; [|by apply oreads_ret].
    eapply oreads_try; [apply oreads_token|]. intros [c' b']. by apply oreads_ret. }
  intros [i b']. apply oreads_ret. intros o a [= <-] _ Hc Hs c0 Hc0. cbn in Hc0. destruct (Hc _ Hc0) as (c' & Hc' & Ht). exists s', c'. by split_and!.
Qed.

(** The answer of a commit is true of the files. *)
Definition truthful (token : string) (expires_at : Z) (r : TokenCommit * TokenEffect) (o' : Owned) : Prop :=
  match r.1 with
  | TCommitted g => token_on_disk g token expires_at (o_files o') ∧ te_cas_key r.2 = Some (mkCasKey generation g) ∧ te_ineligible r.2 = false
  | _ => te_cas_key r.2 = None
  end.

Context `{!PairLaws}.
(** What the file stores once a state with this token was saved. *)
Lemma stored_on_disk f st s' s c token expires_at f' :
  may_store f st s' → stored_at PAIRED_STATE_FILE_NAME f' = Some (Some s') →
  st = set_access s (set_credential (Some (set_token (Some token) (Some expires_at) c)) st) →
  pairing_generation (client_cert_pem c) = generation → from_utf8 token = Some token → token_on_disk s token expires_at f'.
Proof.
  intros (p & a & _ & _ & _ & (Hc & _ & Hs')) Hb Hst Hg Hu.
  assert (Hm : credential (merge p a st) = Some (set_token (Some token) (Some expires_at) c) ∧ access_mutation_generation (merge p a st) = s).
  { assert (credential (merge p a st) = credential st ∧ access_mutation_generation (merge p a st) = access_mutation_generation st) as [-> ->].
    { unfold merge, retire_own, settle_previous, absorb. cbv zeta. destruct p, a; cbn;
        repeat match goal with |- context [if ?b then _ else _] => destruct b; cbn end; done. }
    by rewrite Hst. }
  destruct Hm as [Hmc Hma]. rewrite Hmc in Hc. destruct (credential s') as [c'|] eqn:Hc'; [|done]. destruct Hc as (_ & Ht & He & Hbare).
  cbn in Ht. destruct (device_token c') as [t'|] eqn:Ht'; [|done].
  exists s', c', t'. split_and!; try done.
  - rewrite <- Hg. f_equal. destruct c, c'. unfold bare_credential, set_token, set_key in Hbare. cbn in *. by injection Hbare.
  - rewrite Hs'. cbn. exact Hma.
  - by apply sealed_opens.
Qed.

(** The pairing file after a change to this token that may have failed: as it
    was, or holding the token. *)
Definition token_tried (o : Owned) (next : Z) (token : string) (expires_at : Z) (o' : Owned) : Prop :=
  o_files o' !! PAIRED_STATE_FILE_NAME = o_files o !! PAIRED_STATE_FILE_NAME ∨ token_on_disk next token expires_at (o_files o').
Lemma oht_mutate_token current token expires_at o :
  from_utf8 token = Some token →
  oht (λ o', o' = o) (mutate (mkCasKey generation current) (λ c, Ok (set_token (Some token) (Some expires_at) c)))
    (λ _ o', token_tried o (wrap_u64 (current + 1)) token expires_at o') (λ _, True).
Proof.
  intros Hu. eapply oht_weaken; [apply (updates_mutate _ _ o)|by intros ? ->| |done]. intros r o' (_ & _ & [Hsame|Hnew]); [by left|right].
  destruct Hnew as (st & bytes & s' & (s & c & c' & _ & _ & _ & [= <-] & Hg & _ & ->) & Hb & Hm & Hd).
  eapply (stored_on_disk _ _ s'); [exact Hm|unfold stored_at; by rewrite Hd, Hb|by destruct s|exact Hg|exact Hu].
Qed.
(** A change that succeeds is in the file. *)
Lemma oht_mutate_wrote current token expires_at o :
  from_utf8 token = Some token →
  oht (λ o', o' = o) (mutate (mkCasKey generation current) (λ c, Ok (set_token (Some token) (Some expires_at) c)))
    (λ r o', ∀ g, r = Ok g → token_on_disk g token expires_at (o_files o')) (λ _, True).
Proof.
  intros Hu. unfold mutate. eapply oht_try; [eapply oht_weaken; [apply (oreads_map_err STransport _ _ oreads_load_token o)|done|intros r o' Hr; exact Hr|done]| |done].
  intros s. cbn. eapply (oht_pre _ _ (λ o', o' = o)); [|by intros ? [? _]].
  case_bool_decide; [by apply oht_ret|]. destruct (credential s) as [c|] eqn:Hc; [|by apply oht_ret].
  destruct (negb _ || negb _) eqn:Hg; [by apply oht_ret|]. rewrite !orb_false_iff, !negb_false_iff, String.eqb_eq, Z.eqb_eq in Hg. destruct Hg as [Hg Ha].
  cbn in Hg, Ha. cbv zeta.
  eapply oht_try; [eapply oht_weaken; [apply (oht_save_inner _ o)|done|intros r o' Hr; exact Hr|done]| |done].
  intros u. apply oht_ret. intros o' (bytes & s' & Hb & Hm & [_ Hd]) g [= <-]. cbn in Hm.
  eapply (stored_on_disk _ _ s'); [exact Hm|unfold stored_at; by rewrite Hd, Hb|done|exact Hg|exact Hu].
Qed.

(** Reading back after the change: the generation tells the two cases apart. *)
Lemma oht_readback current token expires_at o s0 c0 o1 :
  loaded_token (o_files o) s0 → credential s0 = Some c0 → access_mutation_generation s0 = current →
  token_tried o (wrap_u64 (current + 1)) token expires_at o1 →
  oht (λ o', o' = o1) (classify_readback (wrap_u64 (current + 1)) token expires_at) (λ r o', truthful token expires_at r o') (λ _, True).
Proof.
  intros Hl0 Hc0 Ha0 Htried. unfold classify_readback.
  eapply oht_bind; [eapply oht_weaken; [apply (oreads_load_token o1)|done|intros r o' Hr; exact Hr|done]|].
  intros [s|e]; apply oht_ret; [|done]. intros o' [-> Hl]. destruct (credential s) as [c|] eqn:Hc; [|done].
  destruct (String.eqb_spec (pairing_generation (client_cert_pem c)) generation) as [Hg|]; [|done]. cbn [negb].
  destruct (_ && _) eqn:Hb; [|done]. rewrite !andb_true_iff, Z.eqb_eq, !bool_decide_eq_true in Hb. destruct Hb as [[Ha _] _].
  split; [|done]. destruct Htried as [Hsame|Hnew]; [|exact Hnew]. exfalso.
  destruct (Hl0 _ Hc0) as (s1 & c1 & Hs1 & _ & _ & Hacc0), (Hl _ Hc) as (s2 & c2 & Hs2 & _ & _ & Hacc). unfold stored_at in Hs1, Hs2. rewrite Hsame, Hs1 in Hs2.
  injection Hs2 as ->. assert (Heq : current = wrap_u64 (current + 1)) by congruence. clear - Heq. unfold wrap_u64 in Heq.
  pose proof (Z.div_mod (current + 1) 18446744073709551616 ltac:(lia)). lia.
Qed.

(** Reading back marks the relay ineligible unless it finds the token. *)
Lemma oht_answer next token expires_at o :
  oht (λ o', o' = o) (classify_readback next token expires_at) (λ r _, te_ineligible r.2 = false → ∃ g, r.1 = TCommitted g) (λ _, True).
Proof.
  intros w _. unfold classify_readback, mbind, oio_bind. destruct (load w) as [[[s|e]|] w']; cbn; [|done..].
  destruct (credential s) as [c|]; [|done]. destruct (negb (String.eqb _ _)); [done|]. destruct (_ && _ && _); [by eauto|done].
Qed.

(** C26. A relay token is reported committed only when the pairing file holds
    it, wrapped by the system's protector, for the pairing and at the access
    generation that the next change of the pairing will name, whatever calls
    fail; in every other case the key of the next change is left alone, and
    the relay is marked ineligible unless the client was already replaced. *)
Theorem committed_token_is_on_disk fence has_path ctx token expires_at o :
  from_utf8 token = Some token →
  oht (λ o', o' = o) (commit_token fence has_path ctx token expires_at)
    (λ r o', truthful token expires_at r o' ∧
       (te_ineligible r.2 = false → (∃ g, r.1 = TCommitted g) ∨ ctx ≠ incarnation ∨ fence = false)) (λ _, True).
Proof.
  intros Hu. unfold commit_token.
  destruct (_ || _) eqn:Hg.
  { apply oht_ret. intros o' _. split; [done|]. intros _. right. apply orb_true_iff in Hg as [Hg|Hg]; [left|right; by destruct fence].
    apply negb_true_iff, Z.eqb_neq in Hg. done. }
  clear Hg. destruct (negb has_path); [by apply oht_ret|].
  eapply oht_bind; [eapply oht_weaken; [apply (oreads_load_token o)|done|intros r o' Hr; exact Hr|done]|].
  intros [s|e]; [|by apply oht_ret]. apply oht_at. intros o0 [-> Hl].
  destruct (credential s) as [c|] eqn:Hc; [|by apply oht_ret]. destruct (negb (String.eqb _ _)); [by apply oht_ret|]. cbv zeta.
  eapply oht_bind; [apply oht_both; [by apply oht_mutate_token|by apply oht_mutate_wrote]|]. intros r. apply oht_at. intros o1 [Htried Hwrote].
  assert (Hrb : oht (λ o', o' = o1) (classify_readback (wrap_u64 (access_mutation_generation s + 1)) token expires_at) (λ r o', truthful token expires_at r o' ∧
       (te_ineligible r.2 = false → (∃ g, r.1 = TCommitted g) ∨ ctx ≠ incarnation ∨ fence = false)) (λ _, True)).
  { eapply oht_weaken; [apply oht_both; [by eapply oht_readback|apply oht_answer]|done| |done]. intros r' o' [Ht Ha]. split; [exact Ht|auto]. }
  destruct r as [g|e]; [|exact Hrb]. destruct (_ =? _)%Z; [|exact Hrb]. apply oht_ret. intros o' ->. split; [|by eauto]. split; [by apply Hwrote|done].
Qed.
End token.
