(* ===== verification/OwnerDemo.v ===== *)
(** * Concrete instances of the owner's files, and runs

    The libraries of the owner's files instantiated by concrete functions: a
    codec for the pairing that is total and injective, tables for the other
    documents, identity for base64 and for the protector. *)
From Stdlib Require Import Ascii String.
From stdpp Require Import countable.
From S2P Require Import Prelude RustStr PauseStore Model Ingest Transport OwnerFs Paired PairedLogic PairedSave PairedHistory PairedOpen Answer Retire RetireLogic RetireSteps RetireProps Handoff HandoffLogic HandoffSteps HandoffProps HandoffSystem Migrate MigrateLogic MigrateProps Token.

Local Open Scope list_scope.

(** ** A codec for the pairing *)

#[local] Instance EndpointAddr_countable : Countable EndpointAddr.
Proof. refine (inj_countable' (λ e, (ea_host e, ea_port e)) (λ t, mkEndpointAddr t.1 t.2) _). by intros []. Defined.
#[local] Instance Credential_countable : Countable Credential.
Proof.
  refine (inj_countable' (λ c, (client_key_pem c, client_cert_pem c, ca_chain_pem c, cr_ca_fp_prefix c, cr_instance_id c,
      (home_label c, endpoints c, relay_origin c, device_token c, device_token_expires_at c)))
    (λ '(a, b, c, d, e, (f, g, h, i, j)), mkCredential a b c d e f g h i j) _). by intros [].
Defined.
#[local] Instance RetirementPhase_countable : Countable RetirementPhase.
Proof.
  refine (inj_countable' (λ p, match p with Prepared => 0%nat | PhaseUnknown => 1%nat | Succeeded => 2%nat end)
    (λ n, match n with 0%nat => Prepared | 1%nat => PhaseUnknown | _ => Succeeded end) _). by intros [].
Defined.
#[local] Instance RetirementIntent_countable : Countable RetirementIntent.
Proof.
  refine (inj_countable' (λ i, (ri_schema i, operation_id i, ri_phase i, owner_generation i, ri_access_generation i, client_id i, ri_credential i))
    (λ '(a, b, c, d, e, f, g), mkIntent a b c d e f g) _). by intros [].
Defined.
#[local] Instance SetupActivation_countable : Countable SetupActivation.
Proof. refine (inj_countable' (λ a, (handoff_id a, sa_binding a)) (λ t, mkActivation t.1 t.2) _). by intros []. Defined.
#[local] Instance PairedState_countable : Countable PairedState.
Proof.
  refine (inj_countable' (λ s, (credential s, access_mutation_generation s, retirement_intent s, setup_activation s, setup_browser_opened s,
      retired_setup_handoffs s, setup_history_unavailable s)) (λ '(a, b, c, d, e, f, g), mkPaired a b c d e f g) _). by intros [].
Defined.

Fixpoint bits (p : positive) : string :=
  match p with xH => EmptyString | xO p => String "0" (bits p) | xI p => String "1" (bits p) end.
Fixpoint unbits (s : string) : positive :=
  match s with EmptyString => xH | String c s => if Ascii.eqb c "0" then xO (unbits s) else xI (unbits s) end.
Lemma unbits_bits p : unbits (bits p) = p.
Proof. induction p as [p IH|p IH|]; cbn; by rewrite ?IH. Qed.

Definition demo_text (s : PairedState) : string := bits (encode s).
Definition demo_untext (b : string) : option PairedState := decode (unbits b).
Lemma demo_untext_text s : demo_untext (demo_text s) = Some s.
Proof. unfold demo_untext, demo_text. by rewrite unbits_bits, decode_encode. Qed.
#[local] Instance demo_lib : PairLib := {
  b64_encode := id; b64_decode := Some;
  dpapi_protect := Ok; dpapi_unprotect := Ok;
  cert_sha256 := id; parse_certs := λ pem, Ok [pem];
  paired_json := λ s, Some (demo_text s); paired_of := demo_untext
}.
Lemma demo_reads s : paired_of (demo_text s) = Some s.
Proof. apply demo_untext_text. Qed.
#[local] Instance demo_laws : PairLaws.
Proof. split; [done|by intros x b [= <-]|intros s b [= <-]; apply demo_reads|by eexists]. Qed.
#[local] Instance demo_retire : RetireLib := { sha256_hex := λ x, "h" +:+ x; sha256_hex_some x := ltac:(discriminate) }.

(** Pairings of two journals. *)
Definition demo_credential (cert : string) : Credential :=
  mkCredential "key" cert ["ca"] "abcd" "journal" "Home" [] None (Some "token") (Some 7%Z).
Definition demo_paired : PairedState := mkPaired (Some (demo_credential "cert")) 0 None None false ∅ false.
Definition demo_files (s : PairedState) : gmap string string := {[PAIRED_STATE_FILE_NAME := demo_text s]}.
Definition demo_owned (s : PairedState) : Owned := mkOwned (demo_files s) [].

Lemma demo_stored s : stored_at PAIRED_STATE_FILE_NAME (demo_files s) = Some (Some s).
Proof. unfold stored_at, demo_files. rewrite lookup_singleton_eq, demo_reads. done. Qed.
Lemma demo_history s :
  setup_history_unavailable s = false → valid_setup_ids (retired_setup_handoffs s) = true → valid_setup_ids (over_ids false s ∪ ∅) = true →
  history (demo_files s) = Some (over_ids false s ∪ ∅).
Proof.
  intros Hu Hv Hv'. apply (history_of _ (Some s) None); try done. unfold metadata_at. by rewrite demo_stored, Hv.
Qed.
Lemma demo_secret cert : each_secret secret_ok (demo_credential cert) ∧ each_secret openable (demo_credential cert).
Proof.
  assert (Hs : ∀ x, x = "key" ∨ x = "token" → secret_ok x ∧ openable x).
  { intros x [->| ->]; (split; [by split|]); eexists; (split; [by vm_compute|by split]). }
  split; (split; [by apply Hs; left|]); intros t [= <-]; by apply Hs; right.
Qed.

(** [saved_pairing_loads_back] at a pairing saved into an empty directory. *)
Lemma saved_pairing_loads_back_witness :
  ∃ o' s, runs (save_inner demo_paired) (mkOwned ∅ []) (Ok tt) o' ∧ runs load o' (Ok s) o' ∧ saved_as None None demo_paired s ∧
    ∃ s', stored_at PAIRED_STATE_FILE_NAME (o_files o') = Some (Some s') ∧
      all_secrets (λ x, starts_with CREDENTIAL_WRAP_MARKER x = true) s'.
Proof.
  apply (saved_pairing_loads_back None None demo_paired (mkOwned ∅ [])); [reflexivity|reflexivity|vm_compute; reflexivity|].
  split; [|done]. intros c Hc. cbn in Hc. injection Hc as <-. apply demo_secret.
Defined.

(** ** Rejections *)

Definition demo_intent : RetirementIntent := mkIntent 1 "operation" Prepared "cert" 0 ("sha256:" +:+ "hcert") (demo_credential "cert").
Definition demo_rejecting : PairedState := mkPaired (Some (demo_credential "cert")) 0 (Some demo_intent) None false ∅ false.
Lemma demo_at_stage : at_stage demo_intent ∅ Asking (o_files (demo_owned demo_rejecting)).
Proof.
  exists demo_rejecting. split_and!; [apply demo_stored| | |apply (demo_history demo_rejecting); vm_compute; reflexivity|done|by vm_compute].
  - exists (demo_credential "cert"), demo_intent. by split_and!.
  - split; [intros c Hc|intros i Hi]; [cbn in Hc; injection Hc as <-|cbn in Hi; injection Hi as <-]; apply demo_secret.
Qed.

(** [interrupted_rejection_is_carried_out]: a launch that stops, one whose
    calls fail, then one in which none fails and the journal cannot be asked. *)
Definition demo_attempts : list Attempt :=
  [mkAttempt (Answered (Ok tt)) 1 (Some 1%Z) [Good; Good; HaltTorn "x"] []; mkAttempt (NotSent TNoEndpoint) 2 None [Bad; Bad] [Refuses]].
Lemma interrupted_rejection_is_carried_out_witness :
  ∃ r o', runs (reconcile_on_launch_with (retire_credential (NotSent TNoEndpoint)) 3 None) (foldl attempt (demo_owned demo_rejecting) demo_attempts) (Ok r) o' ∧
    r ≠ RSuperseded ∧ at_stage demo_intent ∅ Finished (o_files o').
Proof.
  apply (interrupted_rejection_is_carried_out demo_intent ∅ Asking (demo_owned demo_rejecting) demo_attempts (NotSent TNoEndpoint) 3 None).
  - split_and!; vm_compute; done.
  - apply demo_at_stage.
Defined.

(** [rejecting_is_all_or_nothing] at a pairing that stands. *)
Lemma demo_standing : standing ∅ (demo_owned demo_paired) demo_paired.
Proof.
  split; [apply demo_stored|done| |apply (demo_history demo_paired); vm_compute; reflexivity|by vm_compute].
  split; [|done]. intros c Hc. cbn in Hc. injection Hc as <-. apply demo_secret.
Qed.
Lemma rejecting_is_all_or_nothing_witness :
  ∃ i o', intent_ok i ∧
    runs (reject_pair_with (retire_credential (Answered (Ok tt))) 1 (Some 5%Z) (binding_of (demo_credential "cert")) (oko tt)) (demo_owned demo_paired) (Ok RCompleted) o' ∧
    at_stage i (∅ ∪ activation_ids demo_paired) Finished (o_files o').
Proof.
  refine (proj2 (rejecting_is_all_or_nothing ∅ (demo_owned demo_paired) demo_paired (binding_of (demo_credential "cert")) 1 (Some 5%Z) (oko tt)
    (Answered (Ok tt)) demo_standing _) (demo_credential "cert") _ 5%Z eq_refl eq_refl _ _).
  - by apply peeks_ret.
  - vm_compute. reflexivity.
  - done.
Defined.

(** [overtaken_rejection_touches_nothing]: another journal was paired meanwhile. *)
Definition demo_newer : PairedState := mkPaired (Some (demo_credential "newer")) 0 None None false ∅ false.
Lemma overtaken_rejection_touches_nothing_witness :
  oht (λ o', o' = demo_owned demo_rejecting)
    (reconcile_intent_with (λ _ _ w, (Some (Ok tt), set_own (demo_owned demo_newer) w)) demo_intent)
    (λ r o', (same_but EVIDENCE_FILES (demo_owned demo_rejecting) o' ∨ same_but EVIDENCE_FILES (demo_owned demo_newer) o') ∧ r ≠ Ok RCompleted)
    (λ o', same_but EVIDENCE_FILES (demo_owned demo_rejecting) o' ∨ same_but EVIDENCE_FILES (demo_owned demo_newer) o').
Proof.
  apply (overtaken_rejection_touches_nothing demo_intent (demo_owned demo_rejecting) (demo_owned demo_newer) (Ok tt)); [done|].
  intros s' Hs. change (o_files (demo_owned demo_newer)) with (demo_files demo_newer) in Hs. rewrite demo_stored in Hs. injection Hs as <-. left. vm_compute. discriminate.
Defined.

(** ** The mailbox *)

Definition demo_id : string := "11111111-1111-4111-8111-111111111111".
Definition demo_mailbox : SetupHandoffMailbox :=
  mkMailbox MAILBOX_SCHEMA demo_id 5 "instance" "0123456789abcdef0123456789abcdef0123456789abcdef0123456789abcdef" "https://go.solstone.app/p#link" 9000.
Definition demo_progress : SetupHandoffProgress := progress_for demo_mailbox 1000.
Definition demo_receipt : SetupHandoffReceipt := mkReceipt RECEIPT_SCHEMA demo_id true.
#[local] Instance SetupHandoffProgress_eq_dec : EqDecision SetupHandoffProgress.
Proof. solve_decision. Defined.
#[local] Instance SetupHandoffReceipt_eq_dec : EqDecision SetupHandoffReceipt.
Proof. solve_decision. Defined.

#[local] Instance demo_handoff : HandoffLib := {
  pairlink_parses := λ _, true;
  mailbox_of := λ b, if String.eqb b "mailbox" then Some demo_mailbox else None;
  progress_of := λ b, if String.eqb b "progress" then Some demo_progress else None;
  progress_json := λ p, if decide (p = demo_progress) then Some "progress" else None;
  receipt_of := λ b, if String.eqb b "receipt" then Some demo_receipt else None;
  receipt_json := λ r, if decide (r = demo_receipt) then Some "receipt" else None
}.
#[local] Instance demo_handoff_laws : HandoffLaws.
Proof.
  split; cbn.
  - intros b m. destruct (String.eqb b "mailbox"); [|done]. by intros [= <-].
  - intros p b. case_decide as Hp; [|done]. by intros [= <-]; subst.
  - intros r b. case_decide as Hr; [|done]. by intros [= <-]; subst.
Qed.

Definition demo_mail : Owned := mkOwned {[MAILBOX_FILE_NAME := "mailbox"]} [].

(** [fresh_link_is_accepted] in a directory that holds only the mailbox. *)
Lemma fresh_link_is_accepted_witness :
  ∃ o', runs (process_mailbox_live "1.2" false 1000 false) demo_mail (Ok Accepted) o' ∧ taken demo_id (o_files o').
Proof.
  apply (fresh_link_is_accepted "1.2" 1000 demo_mailbox ∅ None "progress" "receipt" demo_mail); try (vm_compute; done); try set_solver.
Defined.

(** [link_is_accepted_once]: the link is accepted, the sender drops it again,
    and it is processed again, with a call that fails. *)
Definition demo_run1 := process_mailbox_live "1.2" false 1000 false (mkOWorld demo_mail [] []).
Definition demo_again : Owned := mkOwned (<[MAILBOX_FILE_NAME := "mailbox"]> (o_files (ow_own demo_run1.2))) (o_log (ow_own demo_run1.2)).
Definition demo_run2 := process_mailbox_live "1.3" false 1000 false (mkOWorld demo_again [Good; Good; Good; Good; Good; Bad] []).
Lemma link_is_accepted_once_witness : link_trace demo_mail [demo_id] (ow_own demo_run2.2) ∧ NoDup [demo_id].
Proof.
  assert (Ht : link_trace demo_mail [demo_id] (ow_own demo_run2.2)).
  { change [demo_id] with (([] ++ [demo_id]) ++ [] ++ []). rewrite app_assoc.
    eapply trace_step; [eapply trace_step; [eapply trace_step; [apply trace_done|]|]|].
    - assert (accepted_link demo_mail demo_run1.1 = [demo_id]) as <- by (vm_compute; reflexivity).
      exact (step_process "1.2" false 1000 false demo_mail [] []).
    - apply (step_sender _ demo_again). split; [done|]. intros n Hn. cbn. rewrite lookup_insert_ne by set_solver. done.
    - assert (accepted_link demo_again demo_run2.1 = []) as <- by (vm_compute; reflexivity).
      exact (step_process "1.3" false 1000 false demo_again [Good; Good; Good; Good; Good; Bad] []). }
  split; [exact Ht|]. apply (link_is_accepted_once demo_mail [demo_id] (ow_own demo_run2.2) Ht).
Defined.

(** [used_link_is_not_accepted] after the link was accepted. *)
Lemma used_link_is_not_accepted_witness :
  oht (λ o', o' = demo_again) (process_mailbox_live "1.3" false 1000 false)
    (λ r o', r ≠ Ok Accepted ∧ (r = Ok Replay → has_receipt demo_id (o_files o'))) (λ _, True).
Proof.
  apply (used_link_is_not_accepted "1.3" false 1000 false demo_again demo_mailbox); [vm_compute; reflexivity|].
  left. vm_compute. reflexivity.
Defined.

(** [committed_token_is_on_disk] where no call fails, so that the token is
    committed at the next access generation. *)
Definition demo_token_run := commit_token "cert" 4 true true 4 "fresh" 90 (mkOWorld (demo_owned demo_paired) [] []).
Lemma committed_token_is_on_disk_witness :
  from_utf8 "fresh" = Some "fresh" ∧ (∃ e, demo_token_run.1 = Some (TCommitted 1, e)) ∧
  oht (λ o', o' = demo_owned demo_paired) (commit_token "cert" 4 true true 4 "fresh" 90)
    (λ r o', truthful "cert" "fresh" 90 r o' ∧
       (te_ineligible r.2 = false → (∃ g, r.1 = TCommitted g) ∨ 4%Z ≠ 4%Z ∨ true = false)) (λ _, True).
Proof.
  split_and!; [vm_compute; reflexivity|eexists; vm_compute; reflexivity|].
  apply (committed_token_is_on_disk "cert" 4 true true 4 "fresh" 90 (demo_owned demo_paired)). vm_compute. reflexivity.
Defined.
