(* ===== verification/MigrateDemo.v ===== *)
(** * A replacement decided, concretely

    The documents of one replacement as tables: the offer, the saved decision
    and the confirmed one. *)
From Stdlib Require Import Ascii String.
From S2P Require Import Prelude RustStr PauseStore Model Ingest Transport OwnerFs Paired PairedLogic PairedSave PairedOpen Answer Retire Migrate MigrateLogic MigrateProps OwnerDemo.

Local Open Scope list_scope.

#[local] Instance MigrationRecord_eq_dec : EqDecision MigrationRecord.
Proof. solve_decision. Defined.

Definition device_cert : string := "cert".
Definition device : Credential := mkCredential "key" device_cert ["ca"] "abcd" "journal" "Home" [] None None None.
Definition device_paired : PairedState := mkPaired (Some device) 0 None None false ∅ false.

(** The pairing of the runs has a short text; other pairings have the general one. *)
#[local] Instance table_lib : PairLib := {
  b64_encode := id; b64_decode := Some; dpapi_protect := Ok; dpapi_unprotect := Ok;
  cert_sha256 := λ x, if String.eqb x device_cert then "generation-of-the-device-certif" else "0123456789abcdefghijklmnopqrstuv";
  parse_certs := λ pem, Ok [pem];
  paired_json := λ s, Some (if decide (s = device_paired) then "paired" else "x" +:+ demo_text s);
  paired_of := λ b, if String.eqb b "paired" then Some device_paired else strip_prefix "x" b ≫= demo_untext
}.
#[local] Instance table_pair_laws : PairLaws.
Proof.
  split; cbn; [done|by intros x b [= <-]| |by eexists]. intros s b [= <-]. case_decide as Hs; [by subst|]. cbn. apply demo_untext_text.
Qed.
#[local] Instance table_retire : RetireLib := {
  sha256_hex := λ _, "0123456789abcdef0123456789abcdef0123456789abcdef0123456789abcdef"; sha256_hex_some x := ltac:(discriminate) }.

Definition own_cid : string := "sha256:0123456789abcdef0123456789abcdef0123456789abcdef0123456789abcdef".
Definition other_cid : string := "sha256:ffffffffffffffffffffffffffffffffffffffffffffffffffffffffffffffff".
Definition offer : MigrationRecord := set_revision 1 (fresh_record 0 own_cid device).
Definition replace_request : DecisionRequest := mkRequest 1 (decision_operation_id offer ReplaceDevice (Some other_cid)) ReplaceDevice (Some other_cid).
Definition saved_decision : SavedDecision := mkSaved replace_request "request" "unknown".
Definition decided_once : MigrationRecord := set_revision 2 (set_decision DecisionUnknown (Some saved_decision) [] offer).
Definition decided_final : MigrationRecord :=
  set_revision 3 (set_offer Unchecked false false (set_answer (Some StReplacedDevice) (Some other_cid) (Some "Home")
    (set_decision Decided (Some (set_result "replaced_device" saved_decision)) [] decided_once))).

#[local] Instance table_mig : MigLib := {
  record_json := λ r, if decide (r = offer) then Some "offer" else if decide (r = decided_once) then Some "saved"
                      else if decide (r = decided_final) then Some "final" else None;
  record_of := λ b, if String.eqb b "offer" then Some offer else if String.eqb b "saved" then Some decided_once
                    else if String.eqb b "final" then Some decided_final else None;
  request_json := λ q, if decide (q = replace_request) then Some "request" else None;
  request_of := λ b, if String.eqb b "request" then Some replace_request else None;
  state_response_of := λ _, Some (mkStateResponse 1 None None StNone None);
  decision_response_of := λ _, Some (mkDecisionResponse 1 (dq_operation_id replace_request) StReplacedDevice None own_cid (Some other_cid) "Home");
  body_json := λ _, None
}.
#[local] Instance table_laws : MigLaws.
Proof.
  split; cbn.
  - intros r b. case_decide as H1; [by intros [= <-]; subst|]. case_decide as H2; [by intros [= <-]; subst|].
    case_decide as H3; [|done]. by intros [= <-]; subst.
  - intros q b. case_decide as Hq; [|done]. by intros [= <-]; subst.
Qed.

Definition offered : Owned := mkOwned (<[MIGRATION_FILE := "offer"]> {[PAIRED_STATE_FILE_NAME := "paired"]}) [].
Definition journal_get : OIO (result Response TransportError) := oko (mkResponse 200 "state").
Definition journal_put (_ : string) : OIO (result Response TransportError) := oko (mkResponse 200 "decision").

(** The owner decides, the journal confirms: one request, and the file holds
    the confirmed decision. *)
Example replacement_is_decided :
  let run := decide_replacement journal_get (put_decision journal_put) ReplaceDevice (Some other_cid) (calm offered) in
  run.1 = Some (Ok Terminal) ∧ disk (o_files (ow_own run.2)) = Some (Some decided_final) ∧ o_log (ow_own run.2) = [AskedDecision "request"].
Proof. vm_compute. split_and!; reflexivity. Qed.
(** The process stops while the journal answers; the decision is sent again,
    byte for byte, at the next look. *)
Example replacement_is_replayed :
  let lost (_ : string) : OIO (result Response TransportError) := λ w, (None, w) in
  let first := decide_replacement journal_get (put_decision lost) ReplaceDevice (Some other_cid) (calm offered) in
  let second := resume_decision journal_get (put_decision journal_put) (calm (ow_own first.2)) in
  first.1 = None ∧ second.1 = Some (Ok Terminal) ∧
  o_log (ow_own second.2) = [AskedDecision "request"; AskedDecision "request"].
Proof. vm_compute. split_and!; reflexivity. Qed.

Lemma around_ret {A} offers (a : A) : around offers (mret a).
Proof. intros o. apply oht_ret. intros o' ->. apply quiet_refl. Qed.

(** [one_decision_at_a_time]: the process stops while the journal answers, the
    decision is sent again and confirmed. *)
Definition stopped_run := run_mig journal_get journal_put (MDecide ReplaceDevice (Some other_cid)) (mkOWorld offered (repeat Good 12 ++ [HaltTorn "x"]) []).
Definition resumed_run := run_mig journal_get journal_put MResume (calm (ow_own stopped_run.2)).
Lemma room_at o r : disk (o_files o) = Some (Some r) → (revision r + 1 < u64_max)%Z → room o.
Proof. intros Hd Hr r' Hd'. rewrite Hd in Hd'. by injection Hd' as <-. Qed.
Lemma one_decision_at_a_time_witness :
  stopped_run.1 = None ∧ disk (o_files (ow_own stopped_run.2)) = Some (Some decided_once) ∧
  ∃ r', disk (o_files (ow_own resumed_run.2)) = Some (Some r') ∧ consistent r' ∧
    (¬ False → (∀ q b, recorded q b offer → recorded q b r') ∧ (mr_phase offer = Decided → mr_phase r' = Decided ∧
       decisions r' = decisions offer ∧ server_state r' = server_state offer ∧ mr_replaced r' = mr_replaced offer)).
Proof.
  assert (H1 : disk (o_files (ow_own stopped_run.2)) = Some (Some decided_once)) by (vm_compute; reflexivity).
  split_and!; [vm_compute; reflexivity|exact H1|].
  apply (one_decision_at_a_time False journal_get journal_put (around_ret _ _) (λ b, around_ret _ _) offered (ow_own resumed_run.2) offer).
  - eapply rtc_l; [|eapply rtc_once].
    + exists (MDecide ReplaceDevice (Some other_cid)), (mkOWorld offered (repeat Good 12 ++ [HaltTorn "x"]) []).
      split_and!; [exact I|apply (room_at _ offer); vm_compute; reflexivity|reflexivity|reflexivity].
    + exists MResume, (calm (ow_own stopped_run.2)). split_and!; [exact I|apply (room_at _ decided_once); [exact H1|vm_compute; reflexivity]|reflexivity|reflexivity].
  - vm_compute. reflexivity.
  - apply fresh_consistent.
Defined.

(** [commands_follow_the_machine] for the owner's decision. *)
Lemma commands_follow_the_machine_witness :
  oht (λ o', o' = offered) (run_mig journal_get journal_put (MDecide ReplaceDevice (Some other_cid)))
    (λ _ o', evolves True (disk (o_files offered)) (disk (o_files o')) ∧ (o_log o' = o_log offered ∨ sends True offered o'))
    (λ o', evolves True (disk (o_files offered)) (disk (o_files o')) ∧ (o_log o' = o_log offered ∨ sends True offered o')).
Proof.
  apply (commands_follow_the_machine True journal_get journal_put); [apply around_ret|intros b; apply around_ret|exact I|].
  intros r Hr. vm_compute in Hr. injection Hr as <-. vm_compute. reflexivity.
Defined.
