(* ===== verification/Tray.v ===== *)
(** * The tray and its notices

    crates/observer-model/src/tray_status.rs, what the tray shows for a state
    of the app, and notice.rs, which readings of the tray earn a desktop
    notification. The notifier is proved against a specification that looks
    only at the history of readings and notices. *)
From Stdlib Require Import Ascii String Sorted.
From S2P Require Import Prelude RustStr Model.

Local Open Scope list_scope.

(** ** What the tray shows *)

Inductive TrayVisual : Type :=
  | TrayHealthy | TrayConnecting | TrayPaused | TrayOffline | TrayNeedsPermission | TrayError | TrayOff.
#[global] Instance TrayVisual_eq_dec : EqDecision TrayVisual.
Proof. solve_decision. Defined.

Definition pause_enabled (phase : AppPhase) : bool := match phase with Starting | Observing => true | _ => false end.
Definition resume_enabled (phase : AppPhase) : bool := match phase with Paused => true | _ => false end.
Definition restart_enabled (phase : AppPhase) : bool := match phase with Error => true | _ => false end.

Definition STORAGE_FAULT_FOR_OWNER : string := "can't save on this PC".

Definition source_owner_name (kind : SourceKind) : string :=
  match kind with
  | Screen => "screen"
  | SystemAudio => "system audio"
  | Mic => "microphone"
  | DesktopActivity => "desktop activity"
  end.

Fixpoint find_map {A B} (f : A → option B) (l : list A) : option B :=
  match l with
  | [] => None
  | x :: l => match f x with Some y => Some y | None => find_map f l end
  end.

Definition stopped_text (kind : SourceKind) : string := "the " +:+ source_owner_name kind +:+ " stopped going into your journal".
Definition owner_fault_detail (sources : list SourceReport) (storage : option StorageHealth) (is_enabled : SourceKind → bool) : option string :=
  match storage with
  | Some _ => Some STORAGE_FAULT_FOR_OWNER
  | None =>
    find_map (λ source,
      match report_state source with
      | Faulted reason _ => if bool_decide (reason ≠ AccessDenied) then Some (stopped_text (report_kind source)) else None
      | _ => None
      end) (List.filter (λ source, is_enabled (report_kind source)) sources)
  end.

Definition permission_blocked (sources : list SourceReport) (is_enabled : SourceKind → bool) : option SourceKind :=
  report_kind <$> List.find (λ source, match report_state source with Faulted AccessDenied _ => true | _ => false end)
    (List.filter (λ source, is_enabled (report_kind source)) sources).

Definition format_remaining (secs : Z) : string :=
  let mins := (secs / 60)%Z in
  if (mins =? 0)%Z then "less than a minute"
  else if (mins <? 60)%Z then fmt_dec mins +:+ " min"
  else
    let h := (mins / 60)%Z in
    let m := (mins mod 60)%Z in
    if (m =? 0)%Z then fmt_dec h +:+ " hr" else fmt_dec h +:+ " hr " +:+ fmt_dec m +:+ " min".

Definition classify_phase (app : AppPhase) (sync : SyncSnapshot) (pause : option PauseSnapshot) (fault_detail : option string)
    (deliberate_off : bool) : TrayVisual * string :=
  match app with
  | Idle => if deliberate_off then (TrayOff, "off") else (TrayConnecting, "connecting")
  | Starting => (TrayConnecting, "starting…")
  | Paused =>
    (TrayPaused, match pause ≫= seconds_remaining with
                 | Some secs => "paused, " +:+ format_remaining secs +:+ " left"
                 | None => "paused"
                 end)
  | Error =>
    match fault_detail with
    | Some detail => if is_empty detail then (TrayError, "needs a restart") else (TrayError, detail)
    | None => (TrayError, "needs a restart")
    end
  | Observing =>
    match pairing_phase (sync_pairing sync) with
    | Pairing => (TrayConnecting, "connecting")
    | AwaitingConfirmation =>
      if finish_connecting (sync_pairing sync) then (TrayPaused, "finish connecting to your journal")
      else (TrayPaused, "solstone · waiting for you to confirm your journal's mark")
    | NotPaired | PairingFailed => (TrayPaused, "on, not connected to a journal")
    | Paired =>
      match journal_link sync with
      | Some Connected => (TrayHealthy, "on, connected to your journal")
      | Some Offline => (TrayOffline, "on, saved on this PC")
      | Some Connecting | None => (TrayConnecting, "connecting")
      end
    end
  end.

Definition newline_text : string := String (ascii_of_nat 10) EmptyString.
Definition classify_tray (app : AppPhase) (sync : SyncSnapshot) (pause : option PauseSnapshot) (fault_detail : option string)
    (blocked : option SourceKind) (deliberate_off : bool) : TrayVisual * string :=
  let '(visual, tooltip) :=
    match app, blocked with
    | (Idle | Starting | Observing), Some kind =>
      if negb deliberate_off then
        let needs := "the " +:+ source_owner_name kind +:+ " needs permission in windows settings" in
        (TrayNeedsPermission, if bool_decide (app = Observing) then "on, but " +:+ needs else needs)
      else classify_phase app sync pause fault_detail deliberate_off
    | _, _ => classify_phase app sync pause fault_detail deliberate_off
    end in
  match unknown_journals sync with
  | sighting :: _ =>
    let notice :=
      match sighting_address sighting with
      | Some address => "unknown journal seen at " +:+ address
      | None => "unknown journal seen through the relay"
      end in
    (visual, tooltip +:+ newline_text +:+ notice)
  | [] => (visual, tooltip)
  end.

(** *** What a visual tells *)

(** The tray is healthy only when the app observes with a connected journal and
    no enabled source is refused by Windows. *)
Lemma tray_healthy_is_earned app sync pause fault blocked off :
  (classify_tray app sync pause fault blocked off).1 = TrayHealthy ↔
  app = Observing ∧ pairing_phase (sync_pairing sync) = Paired ∧ journal_link sync = Some Connected ∧ (blocked = None ∨ off = true).
Proof.
  assert (Hs : (classify_tray app sync pause fault blocked off).1 =
    (match app, blocked with
     | (Idle | Starting | Observing), Some _ => if negb off then TrayNeedsPermission else (classify_phase app sync pause fault off).1
     | _, _ => (classify_phase app sync pause fault off).1
     end)).
  { unfold classify_tray. destruct app, blocked as [k|], off; cbn [negb]; try destruct (classify_phase _ _ _ _ _); by destruct (unknown_journals sync). }
  rewrite Hs. unfold classify_phase.
  destruct app, blocked as [k|], off; cbn; split; try done;
    repeat match goal with |- context [match ?x with _ => _ end] => destruct x eqn:?; cbn end; try done; try (by intros (? & ? & ? & [?|?]));
    intros _; split_and!; auto.
Qed.

(** An unknown journal only adds a line: the visual does not depend on it. *)
Lemma sighting_keeps_the_visual app s u pause fault blocked off :
  (classify_tray app (mkSyncSnapshot (sync_pairing s) (sync_upload s) (journal_version s) (journal_version_fresh s) (journal_display_line s)
     (journal_base_line s) (journal_seen_at_epoch_secs s) (about_app_line s) (about_block s) u (journal_link s)) pause fault blocked off).1 =
  (classify_tray app s pause fault blocked off).1.
Proof.
  unfold classify_tray, classify_phase. cbn.
  destruct app, blocked as [k|], off; cbn; destruct u; destruct (unknown_journals s);
    repeat match goal with |- context [match ?x with _ => _ end] => destruct x; cbn end; done.
Qed.

(** What the owner is told about a fault is one of five texts: no diagnostic
    detail of a source reaches the tray. *)
Lemma fault_detail_is_owner_text sources storage en t :
  owner_fault_detail sources storage en = Some t → t = STORAGE_FAULT_FOR_OWNER ∨ ∃ kind, en kind = true ∧ t = stopped_text kind.
Proof.
  unfold owner_fault_detail. destruct storage; [intros [= <-]; by left|]. induction sources as [|s l IH]; [done|]. cbn.
  destruct (en (report_kind s)) eqn:He; cbn; [|exact IH]. destruct (report_state s) as [| | |r d]; [exact IH..|].
  case_bool_decide; [|exact IH]. intros [= <-]. right. eauto.
Qed.

(** ** Notices *)

Definition OFFLINE_DWELL : Z := 30 * 60.
Definition STOPPED_DWELL : Z := 2 * 60.
Definition PERMISSION_DWELL : Z := 10.

Inductive Problem : Type := ProblemOffline | ProblemStopped | ProblemPermission (kind : SourceKind).
#[global] Instance Problem_eq_dec : EqDecision Problem.
Proof. solve_decision. Defined.

Definition from_tray (visual : TrayVisual) (blocked : option SourceKind) : option Problem :=
  match visual with
  | TrayOffline => Some ProblemOffline
  | TrayError => Some ProblemStopped
  | TrayNeedsPermission => ProblemPermission <$> blocked
  | TrayHealthy | TrayConnecting | TrayPaused | TrayOff => None
  end.
Definition problem_dwell (p : Problem) : Z :=
  match p with ProblemOffline => OFFLINE_DWELL | ProblemStopped => STOPPED_DWELL | ProblemPermission _ => PERMISSION_DWELL end.

Inductive Notice : Type := NoticeProblem (p : Problem) | NoticeRecovered (p : Problem).

Definition notice_title (n : Notice) : string :=
  match n with
  | NoticeProblem ProblemOffline => "your journal is out of reach"
  | NoticeProblem ProblemStopped => "intake ran into a problem"
  | NoticeProblem (ProblemPermission kind) => "the " +:+ source_owner_name kind +:+ " needs your permission"
  | NoticeRecovered ProblemOffline => "your journal is back in reach"
  | NoticeRecovered ProblemStopped => "intake is running again"
  | NoticeRecovered (ProblemPermission kind) => "the " +:+ source_owner_name kind +:+ " is back"
  end.
Definition notice_body (n : Notice) : string :=
  match n with
  | NoticeProblem ProblemOffline =>
    "solstone is still on. everything is saved on this PC and goes into your journal once it's back in reach."
  | NoticeProblem ProblemStopped => "the solstone icon in the taskbar says what's wrong."
  | NoticeProblem (ProblemPermission kind) =>
    "windows privacy settings are blocking it. turn on " +:+ source_owner_name kind +:+
    " access for desktop apps, and it goes into your journal again."
  | NoticeRecovered ProblemOffline => "everything saved on this PC is going into your journal now."
  | NoticeRecovered ProblemStopped => "everything you turned on is going into your journal again."
  | NoticeRecovered (ProblemPermission _) => "it's going into your journal again."
  end.

Record TransitionNotifier : Type := mkNotifier { tn_pending : option (Problem * Z); tn_announced : option Problem }.
Definition new_notifier : TransitionNotifier := mkNotifier None None.

Definition observe (n : TransitionNotifier) (visual : TrayVisual) (blocked : option SourceKind) (now_secs : Z) : option Notice * TransitionNotifier :=
  match from_tray visual blocked with
  | Some problem =>
    if bool_decide (tn_announced n = Some problem) then (None, mkNotifier None (tn_announced n))
    else
      let since := match tn_pending n with Some (p, since) => if bool_decide (p = problem) then since else now_secs | None => now_secs end in
      if (problem_dwell problem <=? sat_sub now_secs since)%Z then (Some (NoticeProblem problem), mkNotifier None (Some problem))
      else (None, mkNotifier (Some (problem, since)) (tn_announced n))
  | None =>
    match visual with
    | TrayHealthy => (NoticeRecovered <$> tn_announced n, mkNotifier None None)
    | TrayPaused | TrayOff => (None, mkNotifier None None)
    | _ => (None, mkNotifier (match tn_pending n with Some (ProblemStopped, t) => Some (ProblemStopped, t) | _ => None end) (tn_announced n))
    end
  end.

(** *** Histories

    A history is the readings so far, newest first, each with the notice it
    gave. *)
Record Reading : Type := mkReading { rd_visual : TrayVisual; rd_blocked : option SourceKind; rd_at : Z }.
Definition History : Type := list (Reading * option Notice).

Definition shows (p : Problem) (r : Reading) : Prop := from_tray (rd_visual r) (rd_blocked r) = Some p.
(** Well again, or stopped on purpose. *)
Definition settles (r : Reading) : Prop := rd_visual r ∈ [TrayHealthy; TrayPaused; TrayOff].
(** A stop is not over when the engine is starting again. *)
Definition rides_out (p : Problem) (r : Reading) : Prop :=
  p = ProblemStopped ∧ from_tray (rd_visual r) (rd_blocked r) = None ∧ ¬ settles r.

(** [p] has been there since [t], without a break. *)
Fixpoint held (p : Problem) (t : Z) (h : History) : Prop :=
  match h with
  | [] => False
  | (r, _) :: h => (shows p r ∧ rd_at r = t) ∨ ((shows p r ∨ rides_out p r) ∧ held p t h)
  end.
(** [p] is the last thing announced, and nothing has settled since. *)
Fixpoint standing_notice (p : Problem) (h : History) : Prop :=
  match h with
  | [] => False
  | (r, n) :: h => n = Some (NoticeProblem p) ∨ (n = None ∧ ¬ settles r ∧ standing_notice p h)
  end.

(** The notifier run over readings, oldest first. *)
Fixpoint notify (n : TransitionNotifier) (h : History) (l : list Reading) : TransitionNotifier * History :=
  match l with
  | [] => (n, h)
  | r :: l => let '(notice, n) := observe n (rd_visual r) (rd_blocked r) (rd_at r) in notify n ((r, notice) :: h) l
  end.

(** What each notice of a history is worth. *)
Definition earned (r : Reading) (notice : option Notice) (h : History) : Prop :=
  (∀ p, notice = Some (NoticeProblem p) ↔
     shows p r ∧ (∃ t, held p t ((r, notice) :: h) ∧ (problem_dwell p <= rd_at r - t)%Z) ∧ ¬ standing_notice p h) ∧
  (∀ p, notice = Some (NoticeRecovered p) ↔ rd_visual r = TrayHealthy ∧ standing_notice p h).
Fixpoint all_earned (h : History) : Prop :=
  match h with [] => True | (r, n) :: h => earned r n h ∧ all_earned h end.

(** *** The notifier's memory *)

Fixpoint no_later (t : Z) (h : History) : Prop :=
  match h with [] => True | (r, _) :: h => (rd_at r <= t)%Z ∧ no_later t h end.

Record remembers (n : TransitionNotifier) (h : History) : Prop := {
  rm_announced p : tn_announced n = Some p ↔ standing_notice p h;
  rm_pending p t : tn_pending n = Some (p, t) → held p t h ∧ tn_announced n ≠ Some p;
  rm_held p t : held p t h → tn_announced n ≠ Some p → ∃ t', tn_pending n = Some (p, t') ∧ (t' <= t)%Z }.

Lemma shows_inj p q r : shows p r → shows q r → p = q.
Proof. unfold shows. congruence. Qed.
Lemma held_shows p q t r n h : shows q r → held p t ((r, n) :: h) → p = q ∧ (rd_at r = t ∨ held p t h).
Proof.
  intros Hq [[Hp Ht]|[[Hp|(_ & Hn & _)] Hh]]; [|split; [by eapply shows_inj|by right]|unfold shows in Hq; congruence].
  split; [by eapply shows_inj|by left].
Qed.
Lemma shows_not_settles p r : shows p r → ¬ settles r.
Proof. unfold shows, settles, from_tray. intros Hp Hs. destruct (rd_visual r); set_solver. Qed.

Lemma held_no_later p t u h : held p t h → no_later u h → (t <= u)%Z.
Proof. induction h as [|[r n] h IH]; [done|]. intros [[_ <-]|[_ Hh]] [Hr Hn]; [done|by apply IH]. Qed.
Lemma dwell_pos p : (0 < problem_dwell p)%Z.
Proof. by destruct p. Qed.
Lemma standing_silent p r h : ¬ settles r → standing_notice p ((r, None) :: h) ↔ standing_notice p h.
Proof. intros Hs. cbn. split; [intros [?|(_ & _ & ?)]; done|auto]. Qed.
Lemma settles_iff r : settles r ↔ rd_visual r = TrayHealthy ∨ rd_visual r = TrayPaused ∨ rd_visual r = TrayOff.
Proof. unfold settles. set_solver. Qed.
Lemma healthy_settles r : rd_visual r = TrayHealthy → settles r.
Proof. rewrite settles_iff. auto. Qed.

(** The start of the current hold, as the notifier computes it. *)
Definition hold_start (n : TransitionNotifier) (q : Problem) (now : Z) : Z :=
  match tn_pending n with Some (p, since) => if bool_decide (p = q) then since else now | None => now end.
Lemma hold_start_spec n h q r notice :
  remembers n h → no_later (rd_at r) h → shows q r → tn_announced n ≠ Some q →
  held q (hold_start n q (rd_at r)) ((r, notice) :: h) ∧ ∀ t, held q t ((r, notice) :: h) → (hold_start n q (rd_at r) <= t)%Z.
Proof.
  intros [_ Hp Hh] Hl Hs Hna. unfold hold_start.
  assert (Hnew : (∀ t, tn_pending n ≠ Some (q, t)) → ∀ t, held q t ((r, notice) :: h) → rd_at r = t).
  { intros Hno t Hheld. destruct (held_shows _ _ _ _ _ _ Hs Hheld) as [_ [?|Hold]]; [done|]. destruct (Hh _ _ Hold Hna) as (t' & Ht' & _). by destruct (Hno t'). }
  destruct (tn_pending n) as [[p t0]|] eqn:Hpe; [case_bool_decide as Hpq; [subst p|]|].
  - destruct (Hp _ _ eq_refl) as [Hold _]. split; [right; auto|]. intros t Hheld.
    destruct (held_shows _ _ _ _ _ _ Hs Hheld) as [_ [<-|Hold']]; [by eapply held_no_later|].
    destruct (Hh _ _ Hold' Hna) as (t' & [= <-] & ?). done.
  - split; [by left|]. intros t Hheld. rewrite (Hnew ltac:(congruence) t Hheld). lia.
  - split; [by left|]. intros t Hheld. rewrite (Hnew ltac:(done) t Hheld). lia.
Qed.

Lemma remembers_problem n h r q :
  remembers n h → no_later (rd_at r) h → shows q r → let '(notice, n') := observe n (rd_visual r) (rd_blocked r) (rd_at r) in
  remembers n' ((r, notice) :: h) ∧ earned r notice h.
Proof.
  intros Hrm Hl Hs. pose proof (shows_not_settles _ _ Hs) as Hns. destruct (Hrm) as [Ha Hp Hh].
  assert (Hnr : ∀ p, ¬ (rd_visual r = TrayHealthy ∧ standing_notice p h)) by (intros p [Hv _]; by apply Hns, healthy_settles).
  unfold observe. unfold shows in Hs. rewrite Hs. case_bool_decide as Han.
  { split; [split|split].
    - intros p. rewrite standing_silent by done. apply Ha.
    - done.
    - intros p t Hheld Hna. cbn in Hna. destruct (held_shows p q t r None h Hs Hheld) as [-> _]. done.
    - intros p. split; [done|]. intros (Hsp & _ & Hst). destruct Hst. apply Ha. by rewrite (shows_inj _ _ _ Hsp Hs).
    - intros p. split; [done|]. intros Hx. by destruct (Hnr p). }
  fold (hold_start n q (rd_at r)). cbv zeta. pose proof (dwell_pos q). destruct (Z.leb_spec (problem_dwell q) (sat_sub (rd_at r) (hold_start n q (rd_at r)))) as [Hd|Hd];
    unfold sat_sub in Hd.
  - destruct (hold_start_spec n h q r (Some (NoticeProblem q)) Hrm Hl Hs Han) as [Hst Hmin]. split; [split|split].
    + intros p. cbn. split; [intros [= ->]; by left|intros [[= ->]|(? & _)]; done].
    + done.
    + intros p t Hheld Hna. cbn in Hna. destruct (held_shows p q t r _ h Hs Hheld) as [-> _]. done.
    + intros p. split.
      * intros [= <-]. split_and!; [done|eexists; split; [exact Hst|lia]|]. intros Hx. by apply Ha in Hx.
      * intros (Hsp & _). by rewrite (shows_inj _ _ _ Hsp Hs).
    + intros p. split; [done|]. intros Hx. by destruct (Hnr p).
  - destruct (hold_start_spec n h q r None Hrm Hl Hs Han) as [Hst Hmin]. split; [split|split].
    + intros p. rewrite standing_silent by done. apply Ha.
    + intros p t [= <- <-]. done.
    + intros p t Hheld _. destruct (held_shows p q t r None h Hs Hheld) as [-> _]. eexists. split; [done|]. by apply Hmin.
    + intros p. split; [done|]. intros (Hsp & (t & Hheld & Hdw) & _). rewrite (shows_inj _ _ _ Hsp Hs) in *. apply Hmin in Hheld. lia.
    + intros p. split; [done|]. intros Hx. by destruct (Hnr p).
Qed.

Lemma remembers_settled n h r :
  remembers n h → settles r → let '(notice, n') := observe n (rd_visual r) (rd_blocked r) (rd_at r) in
  remembers n' ((r, notice) :: h) ∧ earned r notice h.
Proof.
  intros [Ha Hp Hh] Hs. assert (Hq : from_tray (rd_visual r) (rd_blocked r) = None) by (by apply settles_iff in Hs as [->|[->| ->]]).
  assert (Hno : ∀ p t notice, ¬ held p t ((r, notice) :: h)).
  { intros p t notice [[Hx _]|[[Hx|(_ & _ & Hx)] _]]; [unfold shows in Hx; congruence..|done]. }
  assert (Hst : ∀ p x, ¬ standing_notice p ((r, NoticeRecovered <$> x) :: h)).
  { intros p x [Hx|(_ & Hx & _)]; [by destruct x|done]. }
  assert (Hrem : ∀ x, remembers new_notifier ((r, NoticeRecovered <$> x) :: h)).
  { intros x. split; [|done|]. { intros p. split; [done|]. intros Hx. by destruct (Hst p x). } intros p t Hx. by destruct (Hno p t (NoticeRecovered <$> x)). }
  assert (Hpr : ∀ p x, NoticeRecovered <$> x = Some (NoticeProblem p) ↔
     shows p r ∧ (∃ t, held p t ((r, NoticeRecovered <$> x) :: h) ∧ (problem_dwell p <= rd_at r - t)%Z) ∧ ¬ standing_notice p h).
  { intros p x. split; [by destruct x|]. intros (Hx & _). unfold shows in Hx. congruence. }
  unfold observe. rewrite Hq. apply settles_iff in Hs as [Hv|[Hv|Hv]]; rewrite Hv.
  - split; [apply Hrem|]. split; [intros p; apply Hpr|]. intros p. rewrite <- Ha, Hv. destruct (tn_announced n) as [q|]; cbn; [|split; [done|by intros [_ [=]]]].
    split; [intros [= ->]; done|intros [_ [= ->]]; done].
  - split; [apply (Hrem None)|]. split; [intros p; apply (Hpr p None)|]. intros p. rewrite Hv. split; [done|by intros [[=] _]].
  - split; [apply (Hrem None)|]. split; [intros p; apply (Hpr p None)|]. intros p. rewrite Hv. split; [done|by intros [[=] _]].
Qed.

Lemma remembers_passing n h r :
  remembers n h → from_tray (rd_visual r) (rd_blocked r) = None → ¬ settles r →
  let '(notice, n') := observe n (rd_visual r) (rd_blocked r) (rd_at r) in
  remembers n' ((r, notice) :: h) ∧ earned r notice h.
Proof.
  intros [Ha Hp Hh] Hq Hs.
  assert (Hheld : ∀ p t, held p t ((r, None) :: h) ↔ p = ProblemStopped ∧ held p t h).
  { intros p t. split; [|intros [-> Hx]; right; split; [by right|done]].
    intros [[Hx _]|[[Hx|(-> & _)] Hx']]; [unfold shows in Hx; congruence..|done]. }
  assert (Ho : observe n (rd_visual r) (rd_blocked r) (rd_at r) =
    (None, mkNotifier (match tn_pending n with Some (ProblemStopped, t) => Some (ProblemStopped, t) | _ => None end) (tn_announced n))).
  { unfold observe. rewrite Hq. rewrite settles_iff in Hs. destruct (rd_visual r); try done; destruct Hs; auto. }
  rewrite Ho. split; [split|split].
  - intros p. rewrite standing_silent by done. apply Ha.
  - intros p t Hx. cbn in Hx. rewrite Hheld. destruct (tn_pending n) as [[[| |k] t']|] eqn:Hpe; try done. injection Hx as <- <-.
    destruct (Hp _ _ eq_refl). done.
  - intros p t Hx Hna. cbn in *. apply Hheld in Hx as [-> Hx]. destruct (Hh _ _ Hx Hna) as (t' & -> & ?). eauto.
  - intros p. split; [done|]. intros (Hx & _). unfold shows in Hx. congruence.
  - intros p. split; [done|]. intros [Hx _]. destruct Hs. by apply healthy_settles.
Qed.

Lemma settles_dec r : settles r ∨ ¬ settles r.
Proof. unfold settles. destruct (decide (rd_visual r ∈ [TrayHealthy; TrayPaused; TrayOff])); auto. Qed.
Lemma remembers_step n h r :
  remembers n h → no_later (rd_at r) h → let '(notice, n') := observe n (rd_visual r) (rd_blocked r) (rd_at r) in
  remembers n' ((r, notice) :: h) ∧ earned r notice h.
Proof.
  intros Hrm Hl. destruct (from_tray (rd_visual r) (rd_blocked r)) as [q|] eqn:Hq; [by apply (remembers_problem n h r q)|].
  destruct (settles_dec r); [by apply remembers_settled|by apply remembers_passing].
Qed.

Definition in_time_order : list Reading → Prop := StronglySorted (λ r r', (rd_at r <= rd_at r')%Z).
Lemma no_later_mono t u h : (t <= u)%Z → no_later t h → no_later u h.
Proof. induction h as [|[r n] h IH]; [done|]. intros Htu [? ?]. split; [lia|auto]. Qed.
Lemma notify_earned n h l :
  remembers n h → all_earned h → in_time_order l → (∀ r, r ∈ l → no_later (rd_at r) h) → all_earned (notify n h l).2.
Proof.
  revert n h. induction l as [|r l IH]; intros n h Hr He Hs Hl; [done|]. cbn.
  pose proof (remembers_step n h r Hr (Hl r (list_elem_of_here _ _))) as Hstep.
  destruct (observe n (rd_visual r) (rd_blocked r) (rd_at r)) as [notice n'] eqn:Ho. destruct Hstep as [Hr' He'].
  apply StronglySorted_inv in Hs as [Hs Hall]. apply IH; [done|by split|done|]. intros r' Hin.
  rewrite List.Forall_forall in Hall. assert (rd_at r <= rd_at r')%Z by (apply Hall; by apply list_elem_of_In). split; [done|].
  eapply no_later_mono; [done|]. apply Hl. by left.
Qed.

(** C36. A notification is given exactly when it is earned: a problem exactly
    when the tray has shown it without a break for its dwell time (a stop rides
    out the engine's restarts) and it is not the problem announced last, with
    nothing settled since; a recovery exactly when the tray turns healthy with
    an announced problem still standing. *)
Theorem notices_are_earned l : in_time_order l → all_earned (notify new_notifier [] l).2.
Proof. intros Hs. apply notify_earned; [|done..]. by split. Qed.

(** [notices_are_earned] on a stop that holds over a restart, and its end. *)
Definition demo_readings : list Reading :=
  [mkReading TrayHealthy None 0; mkReading TrayError None 10; mkReading TrayConnecting None 60; mkReading TrayError None 100;
   mkReading TrayError None 130; mkReading TrayError None 500; mkReading TrayHealthy None 501].
Lemma notices_are_earned_witness :
  snd <$> (notify new_notifier [] demo_readings).2 =
    [Some (NoticeRecovered ProblemStopped); None; Some (NoticeProblem ProblemStopped); None; None; None; None] ∧
  all_earned (notify new_notifier [] demo_readings).2.
Proof.
  split; [reflexivity|]. apply (notices_are_earned demo_readings). repeat constructor; cbn; lia.
Defined.
