(* ===== verification/Sample.v ===== *)
(** * Video sample timing (crates/observer-sample-timing/src/lib.rs)

    Frames arrive at irregular times, or out of order; the encoder needs
    samples that follow each other without gap or overlap. [SampleTimer] holds
    one frame back and gives it the time to the next as its duration. Times are
    [i64] counts of 100 ns, with the wrap-around written out. *)
From S2P Require Import Prelude.

Local Open Scope list_scope.
Local Open Scope Z_scope.

Definition MIN_SAMPLE_DURATION_100NS : Z := 10000.

Record StampedSample : Type := mkSample { sample_time_100ns : Z; sample_duration_100ns : Z }.
Record SampleTimer : Type := mkTimer {
  st_anchor : Z; st_min : Z; st_pending : option Z; st_last_gap : Z; st_clamps : Z; st_last_end : Z }.

Definition new_timer (anchor_100ns min_duration_100ns : Z) : SampleTimer :=
  mkTimer anchor_100ns min_duration_100ns None min_duration_100ns 0 0.

Definition push (t : SampleTimer) (arrival_100ns : Z) : option StampedSample * SampleTimer :=
  let raw := wrap_i64 (arrival_100ns - st_anchor t) in
  let time := Z.max raw 0 in
  let clamped := raw <? 0 in
  let '(time, clamped) :=
    match st_pending t with
    | Some prev =>
      let min_time := wrap_i64 (prev + st_min t) in
      if time <? min_time then (min_time, true) else (time, clamped)
    | None => (time, clamped)
    end in
  let clamps := if clamped : bool then sat_add_u64 (st_clamps t) 1 else st_clamps t in
  match st_pending t with
  | Some prev =>
    let duration := wrap_i64 (time - prev) in
    (Some (mkSample prev duration), mkTimer (st_anchor t) (st_min t) (Some time) duration clamps (st_last_end t))
  | None => (None, mkTimer (st_anchor t) (st_min t) (Some time) (st_last_gap t) clamps (st_last_end t))
  end.

Definition flush (t : SampleTimer) (window_end_100ns : Z) : option StampedSample * SampleTimer :=
  match st_pending t with
  | None => (None, t)
  | Some time =>
    let ceiling := Z.max (wrap_i64 (window_end_100ns - time)) (st_min t) in
    let duration := Z.max (Z.min (st_last_gap t) ceiling) (st_min t) in
    (Some (mkSample time duration),
     mkTimer (st_anchor t) (st_min t) None (st_last_gap t) (st_clamps t) (wrap_i64 (time + duration)))
  end.

(** A segment: the frames that arrived, then the end of the window. *)
Fixpoint push_all (t : SampleTimer) (l : list Z) : list StampedSample * SampleTimer :=
  match l with
  | [] => ([], t)
  | a :: l =>
    let '(s, t) := push t a in
    let '(out, t) := push_all t l in
    (option_list s ++ out, t)
  end.
Definition segment (anchor min_duration : Z) (arrivals : list Z) (window_end : Z) : list StampedSample * SampleTimer :=
  let '(out, t) := push_all (new_timer anchor min_duration) arrivals in
  let '(s, t) := flush t window_end in
  (out ++ option_list s, t).

(** ** Where the samples are *)

Definition sample_end (s : StampedSample) : Z := sample_time_100ns s + sample_duration_100ns s.

(** Each sample begins where the one before ended. *)
Fixpoint contiguous (l : list StampedSample) : Prop :=
  match l with
  | s :: l => match l with s' :: _ => sample_time_100ns s' = sample_end s | [] => True end ∧ contiguous l
  | [] => True
  end.

(** The frames' times: at arrival, or [m] after the frame before. *)
Fixpoint times (anchor m : Z) (prev : option Z) (l : list Z) : list Z :=
  match l with
  | [] => []
  | a :: l =>
    let t := match prev with Some p => Z.max (Z.max (a - anchor) 0) (p + m) | None => Z.max (a - anchor) 0 end in
    t :: times anchor m (Some t) l
  end.

(** The samples between consecutive times. *)
Fixpoint spans (l : list Z) : list StampedSample :=
  match l with
  | a :: l => match l with b :: _ => [mkSample a (b - a)] | [] => [] end ++ spans l
  | [] => []
  end.

(** Arrivals at most [M] away from the anchor, with room for the times. *)
Definition fits (anchor m M : Z) (l : list Z) : Prop :=
  (∀ a, a ∈ l → - M <= a - anchor <= M) ∧ 0 <= M ∧ 0 < m ∧ M + (Z.of_nat (length l) + 1) * m <= i64_max.

Lemma push_first anchor m M a l gap clamps e :
  fits anchor m M (a :: l) →
  ∃ c, push (mkTimer anchor m None gap clamps e) a = (None, mkTimer anchor m (Some (Z.max (a - anchor) 0)) gap c e).
Proof.
  intros (Ha & HM & Hm & Hb). specialize (Ha a (list_elem_of_here _ _)). cbn [length] in Hb.
  unfold push. cbn. rewrite wrap_i64_id by (widths; nia). by eexists.
Qed.
Lemma push_next anchor m a p gap clamps e M :
  - M <= a - anchor <= M → 0 <= p → 0 < m → M <= i64_max → p + m <= i64_max →
  ∃ c, let t := Z.max (Z.max (a - anchor) 0) (p + m) in
    push (mkTimer anchor m (Some p) gap clamps e) a = (Some (mkSample p (t - p)), mkTimer anchor m (Some t) (t - p) c e).
Proof.
  intros Ha Hp Hm HM Hpm. unfold push. cbn. rewrite (wrap_i64_id (a - anchor)), (wrap_i64_id (p + m)) by widths.
  destruct (Z.ltb_spec (Z.max (a - anchor) 0) (p + m)); cbv zeta; rewrite wrap_i64_id by widths;
    [rewrite (Z.max_r _ (p + m)) by lia|rewrite (Z.max_l _ (p + m)) by lia]; by eexists.
Qed.

(** *** The loop *)

(** The last gap the timer knows once it holds [ts]. *)
Definition last_gap (gap : Z) (ts : list Z) : Z :=
  match last (spans ts) with Some s => sample_duration_100ns s | None => gap end.

Lemma push_all_from anchor m M l p gap clamps e :
  fits anchor m M l → 0 <= p → p + (Z.of_nat (length l) + 1) * m <= i64_max →
  ∃ c, push_all (mkTimer anchor m (Some p) gap clamps e) l =
    (spans (p :: times anchor m (Some p) l),
     mkTimer anchor m (last (p :: times anchor m (Some p) l)) (last_gap gap (p :: times anchor m (Some p) l)) c e).
Proof.
  revert p gap clamps. induction l as [|a l IH]; intros p gap clamps (Ha & HM & Hm & Hb) Hp Hpb; [by eexists|].
  cbn [length] in *. destruct (push_next anchor m a p gap clamps e M) as [c Hpush]; try (widths; nia).
  { apply Ha. by left. }
  cbn [push_all]. cbv zeta in Hpush. rewrite Hpush. set (t := Z.max (Z.max (a - anchor) 0) (p + m)) in *.
  assert (Hat : - M <= a - anchor <= M) by (apply Ha; by left).
  destruct (IH t (t - p) c) as [c' Hrest]; [split_and!; try done; try (widths; nia); intros x Hx; apply Ha; by right|unfold t; lia|unfold t; nia|].
  rewrite Hrest. eexists. f_equal. f_equal. cbn [times]. fold t. unfold last_gap. cbn [spans]. cbn [app].
  destruct (times anchor m (Some t) l) as [|t' ts]; [done|]. cbn [app]. rewrite !last_cons. by destruct (last (spans (t' :: ts))).
Qed.

(** *** The times *)

Lemma times_bounds anchor m M prev l :
  (∀ a, a ∈ l → a - anchor <= M) → 0 <= M → 0 < m → (∀ p, prev = Some p → 0 <= p) →
  ∀ t, t ∈ times anchor m prev l → 0 <= t <= Z.max M (default 0 prev) + Z.of_nat (length l) * m.
Proof.
  revert prev. induction l as [|a l IH]; intros prev Ha HM Hm Hp t Ht; [by apply elem_of_nil in Ht|]. cbn [times length] in *.
  pose proof (Ha a (list_elem_of_here _ _)) as Haa. apply elem_of_cons in Ht as [->|Ht].
  - destruct prev as [p|]; cbn; [specialize (Hp p eq_refl)|]; nia.
  - apply IH in Ht; [|intros x Hx; apply Ha; by right|done|done|].
    + destruct prev as [p|]; cbn in *; [specialize (Hp p eq_refl)|]; nia.
    + intros p [= <-]. destruct prev as [p'|]; [specialize (Hp p' eq_refl)|]; nia.
Qed.
Lemma length_times anchor m prev l : length (times anchor m prev l) = length l.
Proof. revert prev. induction l as [|a l IH]; intros prev; cbn; [done|]. by rewrite IH. Qed.

(** Times are at least [m] apart, so spans are at least [m] long. *)
Lemma spans_long anchor m p l s : s ∈ spans (p :: times anchor m (Some p) l) → m <= sample_duration_100ns s.
Proof.
  revert p. induction l as [|a l IH]; intros p; cbn [times spans app]; [by intros ?%elem_of_nil|].
  intros [->|Hs]%elem_of_cons; [cbn; lia|]. by eapply IH.
Qed.
Lemma spans_contiguous l x d : last l = Some x → contiguous (spans l ++ [mkSample x d]).
Proof.
  induction l as [|a l IH]; [done|]. destruct l as [|b l]; [done|]. intros Hl. specialize (IH Hl). cbn [spans app] in *. split; [|exact IH].
  destruct l as [|c l]; cbn [spans app]; unfold sample_end; cbn; [injection Hl as ->|]; lia.
Qed.
Lemma spans_times l x d : last l = Some x → sample_time_100ns <$> (spans l ++ [mkSample x d]) = l.
Proof.
  induction l as [|a l IH]; [done|]. destruct l as [|b l]; [by intros [= ->]|]. intros Hl. specialize (IH Hl). cbn [spans app] in *.
  rewrite fmap_cons, IH. done.
Qed.
Lemma last_span l x d : last l = Some x → last (spans l ++ [mkSample x d]) = Some (mkSample x d).
Proof. intros _. by rewrite last_snoc. Qed.

(** The [i]-th time is the earliest that is not before the arrival of any frame
    up to it and leaves [m] for each frame in between. *)
Lemma times_earliest anchor m l prev i t :
  times anchor m prev l !! i = Some t →
  (∀ j a, (j <= i)%nat → l !! j = Some a → Z.max (a - anchor) 0 + Z.of_nat (i - j) * m <= t) ∧
  ((∃ j a, (j <= i)%nat ∧ l !! j = Some a ∧ t = Z.max (a - anchor) 0 + Z.of_nat (i - j) * m) ∨
   ∃ p, prev = Some p ∧ t = p + Z.of_nat (i + 1) * m).
Proof.
  revert prev i. induction l as [|a l IH]; intros prev i; [done|]. cbn [times]. set (t0 := match prev with Some p => _ | None => _ end).
  assert (H0 : Z.max (a - anchor) 0 <= t0 ∧ (t0 = Z.max (a - anchor) 0 ∨ ∃ p, prev = Some p ∧ t0 = p + m)).
  { unfold t0. destruct prev as [p|]; [|split; [lia|by left]]. split; [lia|].
    destruct (Z.max_spec (Z.max (a - anchor) 0) (p + m)) as [[_ ->]|[_ ->]]; [right; by exists p|by left]. }
  destruct H0 as [Hle Heq]. destruct i as [|i]; cbn.
  - intros [= <-]. split.
    + intros [|j] x Hj; [|lia]. intros [= <-]. cbn. lia.
    + destruct Heq as [Heq|(p & -> & Heq)]; [left; exists 0%nat, a; cbn; split_and!; [lia|done|lia]|right; exists p; split; [done|lia]].
  - intros Ht. destruct (IH _ _ Ht) as [Hall Hex].
    assert (Hti : t0 + Z.of_nat (i + 1) * m <= t ∨ ∃ j x, (j <= i)%nat ∧ l !! j = Some x ∧ t = Z.max (x - anchor) 0 + Z.of_nat (i - j) * m).
    { destruct Hex as [Hex|(p & [= <-] & ->)]; [by right|left; lia]. }
    split.
    + intros [|j] x Hj Hx; [|apply (Hall j x); [lia|done]]. injection Hx as <-.
      assert (Hstep : ∀ k t', times anchor m (Some t0) l !! k = Some t' → t0 + Z.of_nat (k + 1) * m <= t').
      { clear -m. generalize t0. induction l as [|b l IH]; intros q k t'; [done|]. destruct k as [|k]; cbn; [intros [= <-]; lia|].
        intros Hk. specialize (IH _ _ _ Hk). lia. }
      specialize (Hstep _ _ Ht). lia.
    + destruct Hex as [(j & x & Hj & Hx & ->)|(p & [= <-] & ->)].
      * left. exists (S j), x. split_and!; [lia|done|done].
      * destruct Heq as [->|(p & Hp & ->)]; [left; exists 0%nat, a; split_and!; [lia|done|lia]|right; exists p; split; [done|lia]].
Qed.

Lemma segment_shape anchor m M a l e :
  fits anchor m M (a :: l) → 0 <= e <= i64_max →
  ∃ x d c gap, last (times anchor m None (a :: l)) = Some x ∧ m <= d <= Z.max (e - x) m ∧ 0 <= x ∧
    segment anchor m (a :: l) e =
      (spans (times anchor m None (a :: l)) ++ [mkSample x d], mkTimer anchor m None gap c (x + d)).
Proof.
  intros Hf He. destruct (push_first anchor m M a l m 0 0 Hf) as [c Hpush]. destruct (Hf) as (Ha & HM & Hm & Hb). cbn [length] in Hb.
  pose proof (Ha a (list_elem_of_here _ _)) as Haa.
  destruct (push_all_from anchor m M l (Z.max (a - anchor) 0) m c 0) as [c' Hall]; [split_and!; try done; [intros x Hx; apply Ha; by right|nia]|lia|nia|].
  unfold segment, new_timer. cbn [push_all]. rewrite Hpush, Hall. cbn [option_list app times].
  destruct (last (Z.max (a - anchor) 0 :: times anchor m (Some (Z.max (a - anchor) 0)) l)) as [x|] eqn:Hl; [|by apply last_None in Hl].
  set (gap := last_gap _ _) in *. assert (Hx : 0 <= x <= M + Z.of_nat (S (length l)) * m).
  { assert (Hin : x ∈ times anchor m None (a :: l)) by (apply last_Some_elem_of; exact Hl).
    apply (times_bounds anchor m M) in Hin; [cbn [default length] in Hin; lia|intros y Hy; specialize (Ha y Hy); lia|lia|lia|done]. }
  exists x, (Z.max (Z.min gap (Z.max (e - x) m)) m). eexists _, _. split_and!; [done|lia|lia|lia|].
  unfold flush. cbn. rewrite (wrap_i64_id (e - x)) by widths.
  assert (in_i64 (x + Z.max (Z.min gap (Z.max (e - x) m)) m)) by (widths; nia). rewrite wrap_i64_id by done. done.
Qed.

(** C37. The samples of a segment cover its time line: there is one for each
    frame, each begins where the one before ended and lasts at least the
    minimum; each begins at the earliest time that is not before any arrival up
    to it with the minimum for every frame between; and the last one ends by
    the end of the window if there is room, which is the end the timer reports.
    No time overflows. *)
Theorem samples_tile_the_segment anchor m M l e :
  fits anchor m M l → 0 <= e <= i64_max →
  let '(out, t) := segment anchor m l e in
  length out = length l ∧ contiguous out ∧ (∀ s, s ∈ out → m <= sample_duration_100ns s) ∧
  (∀ i s, out !! i = Some s →
     (∀ j a, (j <= i)%nat → l !! j = Some a → Z.max (a - anchor) 0 + Z.of_nat (i - j) * m <= sample_time_100ns s) ∧
     ∃ j a, (j <= i)%nat ∧ l !! j = Some a ∧ sample_time_100ns s = Z.max (a - anchor) 0 + Z.of_nat (i - j) * m) ∧
  (∀ s, last out = Some s → st_last_end t = sample_end s ∧ sample_end s <= Z.max e (sample_time_100ns s + m)).
Proof.
  intros Hf He. destruct l as [|a l]; [split_and!; try done; intros s Hs; by apply elem_of_nil in Hs|].
  destruct (segment_shape anchor m M a l e Hf He) as (x & d & c & gap & Hl & Hd & Hx & ->). destruct Hf as (_ & _ & Hm & _).
  assert (Ht : sample_time_100ns <$> (spans (times anchor m None (a :: l)) ++ [mkSample x d]) = times anchor m None (a :: l)) by by apply spans_times.
  split_and!.
  - rewrite <- (length_times anchor m None (a :: l)). rewrite <- Ht at 2. by rewrite length_fmap.
  - by apply spans_contiguous.
  - intros s [Hs|Hs]%elem_of_app; [by eapply spans_long|]. apply list_elem_of_singleton in Hs as ->. cbn. lia.
  - intros i s Hs. assert (Hti : times anchor m None (a :: l) !! i = Some (sample_time_100ns s)) by by rewrite <- Ht, list_lookup_fmap, Hs.
    destruct (times_earliest _ _ _ _ _ _ Hti) as [Hall [Hex|(p & [=] & _)]]. by split.
  - intros s Hs. rewrite last_snoc in Hs. injection Hs as <-. unfold sample_end. cbn. lia.
Qed.

(** Frames early, on time, out of order and late. *)
Lemma samples_tile_the_segment_witness :
  segment 1000 10 [900; 1100; 1090; 1400] 500 =
    ([mkSample 0 100; mkSample 100 10; mkSample 110 290; mkSample 400 100], mkTimer 1000 10 None 290 2 500) ∧
  contiguous (segment 1000 10 [900; 1100; 1090; 1400] 500).1.
Proof.
  assert (Heq : segment 1000 10 [900; 1100; 1090; 1400] 500 =
    ([mkSample 0 100; mkSample 100 10; mkSample 110 290; mkSample 400 100], mkTimer 1000 10 None 290 2 500)) by reflexivity.
  split; [exact Heq|].
  assert (Hf : fits 1000 10 400 [900; 1100; 1090; 1400]).
  { split_and!; [|lia|lia|unfold i64_max; cbn; lia]. intros a Ha. repeat (apply elem_of_cons in Ha as [->|Ha]; [lia|]). destruct (not_elem_of_nil _ Ha). }
  pose proof (samples_tile_the_segment 1000 10 400 [900; 1100; 1090; 1400] 500 Hf ltac:(widths)) as Hs.
  rewrite Heq in Hs |- *. destruct Hs as (_ & Hs & _). exact Hs.
Defined.
