(* ===== verification/JournalVersion.v ===== *)
(** * The journal's version (crates/pl-transport-win/src/journal_version.rs)

    One controller owns what the app knows about the version of the journal it
    is paired with, in memory, in journal-version.json and in the snapshot the
    windows read. Answers arrive long after they were asked for, and carry the
    token they were asked under. The file is what is at the controller's path;
    whether a call on it succeeds is an argument of the operation ([Io]); the
    clock reading is an argument too. The JSON codec is a parameter. *)
From Stdlib Require Import Ascii String.
From S2P Require Import Prelude RustStr PauseStore Model Ingest Transport OwnerFs Paired About.

Local Open Scope list_scope.

(** ** Checks *)

Definition is_sanitized_version (v : string) : bool := negb (is_empty (trim v)) && valid_text v 128.
Definition is_sanitized_name (v : string) : bool := negb (is_empty (trim v)) && valid_text v 80.
Definition sanitized_fact (value : string) (max_bytes : Z) : bool := valid_text value max_bytes.
Definition valid_about_facts (f : JournalAboutFacts) : bool :=
  is_sanitized_version (jf_version f) &&
  match jf_build f with Some b => sanitized_fact b 128 | None => true end &&
  sanitized_fact (jf_os f) 64 && sanitized_fact (jf_os_version f) 64 && sanitized_fact (jf_arch f) 64.

(** ** Data *)

Record PersistedJournalVersion (V : Type) : Type := mkPersisted {
  pv_instance_id : string; pv_ca_fp_prefix_hex : string; pv_version : string;
  pv_journal_name : option string; pv_updated_at : option Z; pv_facts : option V }.
Arguments mkPersisted {V} _ _ _ _ _ _.
Arguments pv_instance_id {V} _.
Arguments pv_ca_fp_prefix_hex {V} _.
Arguments pv_version {V} _.
Arguments pv_journal_name {V} _.
Arguments pv_updated_at {V} _.
Arguments pv_facts {V} _.
Record PersistedJournalFacts : Type := mkPersistedFacts {
  pf_version : string; pf_build : option string; pf_os : string; pf_os_version : string; pf_arch : string; pf_accepted_at : option Z }.

Class JvLib := {
  Value : Type;
  facts_value : PersistedJournalFacts → Value;
  facts_of_value : Value → option PersistedJournalFacts;
  version_json : PersistedJournalVersion Value → string;
  version_of : string → option (PersistedJournalVersion Value)
}.
Class JvLaws `{JvLib} := {
  version_round p : version_of (version_json p) = Some p
}.

Record JvState : Type := mkJv {
  jv_instance_id : option string; jv_fp : option string; jv_version : option string; jv_updated : option Z;
  jv_name : option string; jv_facts : option JournalAboutFacts; jv_facts_at : option Z;
  jv_base_line : string; jv_display_line : string; jv_fresh : bool;
  jv_session : Z; jv_epoch : Z; jv_in_flight : option (Z * Z);
  jv_attempt : Z; jv_accepted_attempt : option Z; jv_accepted_version : option string }.
Definition default_jv : JvState :=
  mkJv None None None None None None None EmptyString EmptyString false 0 0 None 0 None None.

(** Which calls on the file succeed: reading, writing and renaming, removing. *)
Record Io : Type := mkIo { io_read : bool; io_write : bool; io_remove : bool }.

(** The controller, its file and the shared snapshot. *)
Record Jv : Type := mkController { jc_state : JvState; jc_file : option string; jc_sync : SyncSnapshot }.
Definition with_state (s : JvState) (c : Jv) : Jv := mkController s (jc_file c) (jc_sync c).

(** *** Groups of fields that change together *)

Definition set_lines (base display : string) (s : JvState) : JvState :=
  mkJv (jv_instance_id s) (jv_fp s) (jv_version s) (jv_updated s) (jv_name s) (jv_facts s) (jv_facts_at s) base display (jv_fresh s)
    (jv_session s) (jv_epoch s) (jv_in_flight s) (jv_attempt s) (jv_accepted_attempt s) (jv_accepted_version s).
Definition set_identity (iid fp : option string) (s : JvState) : JvState :=
  mkJv iid fp (jv_version s) (jv_updated s) (jv_name s) (jv_facts s) (jv_facts_at s) (jv_base_line s) (jv_display_line s) (jv_fresh s)
    (jv_session s) (jv_epoch s) (jv_in_flight s) (jv_attempt s) (jv_accepted_attempt s) (jv_accepted_version s).
Definition set_known (version : option string) (updated : option Z) (name : option string) (s : JvState) : JvState :=
  mkJv (jv_instance_id s) (jv_fp s) version updated name (jv_facts s) (jv_facts_at s) (jv_base_line s) (jv_display_line s) (jv_fresh s)
    (jv_session s) (jv_epoch s) (jv_in_flight s) (jv_attempt s) (jv_accepted_attempt s) (jv_accepted_version s).
Definition set_host_facts (facts : option JournalAboutFacts) (at_secs : option Z) (s : JvState) : JvState :=
  mkJv (jv_instance_id s) (jv_fp s) (jv_version s) (jv_updated s) (jv_name s) facts at_secs (jv_base_line s) (jv_display_line s) (jv_fresh s)
    (jv_session s) (jv_epoch s) (jv_in_flight s) (jv_attempt s) (jv_accepted_attempt s) (jv_accepted_version s).
Definition set_fresh (b : bool) (s : JvState) : JvState :=
  mkJv (jv_instance_id s) (jv_fp s) (jv_version s) (jv_updated s) (jv_name s) (jv_facts s) (jv_facts_at s) (jv_base_line s) (jv_display_line s) b
    (jv_session s) (jv_epoch s) (jv_in_flight s) (jv_attempt s) (jv_accepted_attempt s) (jv_accepted_version s).
Definition set_counters (session epoch : Z) (s : JvState) : JvState :=
  mkJv (jv_instance_id s) (jv_fp s) (jv_version s) (jv_updated s) (jv_name s) (jv_facts s) (jv_facts_at s) (jv_base_line s) (jv_display_line s) (jv_fresh s)
    session epoch (jv_in_flight s) (jv_attempt s) (jv_accepted_attempt s) (jv_accepted_version s).
Definition set_in_flight (t : option (Z * Z)) (s : JvState) : JvState :=
  mkJv (jv_instance_id s) (jv_fp s) (jv_version s) (jv_updated s) (jv_name s) (jv_facts s) (jv_facts_at s) (jv_base_line s) (jv_display_line s) (jv_fresh s)
    (jv_session s) (jv_epoch s) t (jv_attempt s) (jv_accepted_attempt s) (jv_accepted_version s).
Definition set_accepted (attempt : Z) (a : option Z) (v : option string) (s : JvState) : JvState :=
  mkJv (jv_instance_id s) (jv_fp s) (jv_version s) (jv_updated s) (jv_name s) (jv_facts s) (jv_facts_at s) (jv_base_line s) (jv_display_line s) (jv_fresh s)
    (jv_session s) (jv_epoch s) (jv_in_flight s) attempt a v.

Section controller.
Context `{JvLib}.

Definition restore_host_facts (value : option Value) (version : string) : option (JournalAboutFacts * option Z) :=
  match value ≫= facts_of_value with
  | None => None
  | Some f =>
    let host := mkFacts (pf_version f) (pf_build f) (pf_os f) (pf_os_version f) (pf_arch f) in
    if negb (valid_about_facts host) || negb (String.eqb (normalize_version (jf_version host)) (normalize_version version)) then None
    else Some (host, pf_accepted_at f)
  end.

Definition refresh_display_line (now : Z) (s : JvState) : JvState :=
  set_lines (render_journal_base_line (jv_version s) (jv_facts s))
    (render_journal_line (jv_version s) (jv_facts s) (jv_fresh s) (jv_updated s) now) s.

Definition sync_from_state (c : Jv) : Jv :=
  let s := jc_state c in
  let y := jc_sync c in
  mkController s (jc_file c)
    (mkSyncSnapshot (sync_pairing y) (sync_upload y) (jv_version s) (jv_fresh s) (jv_display_line s) (jv_base_line s) (jv_updated s)
       (about_app_line y) (compose_about_block (about_app_line y) (jv_display_line s)) (unknown_journals y) (journal_link y)).

Definition persist_state (io : Io) (c : Jv) : Jv :=
  let s := jc_state c in
  match jv_instance_id s, jv_fp s, jv_version s with
  | Some iid, Some fp, Some version =>
    let facts := (λ f, facts_value (mkPersistedFacts (jf_version f) (jf_build f) (jf_os f) (jf_os_version f) (jf_arch f) (jv_facts_at s))) <$> jv_facts s in
    if io_write io
    then mkController s (Some (version_json (mkPersisted iid fp version (jv_name s) (jv_updated s) facts))) (jc_sync c)
    else c
  | _, _, _ => c
  end.

Definition read_version (io : Io) (file : option string) : option (PersistedJournalVersion Value) :=
  if io_read io then file ≫= version_of else None.

Definition restore (p : PersistedJournalVersion Value) (name : option string) (s : JvState) : JvState :=
  let s := set_known (Some (pv_version p)) (pv_updated_at p) name s in
  match restore_host_facts (pv_facts p) (pv_version p) with
  | Some (facts, at_secs) => set_host_facts (Some facts) at_secs s
  | None => set_host_facts None None s
  end.

Definition new_controller (io : Io) (file : option string) (sync : SyncSnapshot) (now : Z) : Jv :=
  let state :=
    match read_version io file with
    | Some p =>
      if is_sanitized_version (pv_version p) && match pv_journal_name p with Some n => is_sanitized_name n | None => true end
      then refresh_display_line now
             (set_fresh false (restore p (pv_journal_name p) (set_identity (Some (pv_instance_id p)) (Some (pv_ca_fp_prefix_hex p)) default_jv)))
      else default_jv
    | None => default_jv
    end in
  mkController state file sync.

Definition remove_file (io : Io) (file : option string) : option string := if io_remove io then None else file.

(** The state of a session with a journal that is not the bound one. *)
Definition rebind (io : Io) (iid fp : string) (file : option string) (s : JvState) : JvState * option string :=
  match read_version io file with
  | Some p =>
    if String.eqb (pv_instance_id p) iid && String.eqb (pv_ca_fp_prefix_hex p) fp && is_sanitized_version (pv_version p)
    then (set_fresh false (restore p (match pv_journal_name p with Some n => if is_sanitized_name n then Some n else None | None => None end)
            (set_identity (Some iid) (Some fp) s)), file)
    else (set_fresh false (set_host_facts None None (set_known None None None (set_identity (Some iid) (Some fp) s))), remove_file io file)
  | None =>
    (set_fresh false (set_host_facts None None (set_known None None None (set_identity (Some iid) (Some fp) s))), remove_file io file)
  end.

Definition begin_session (io : Io) (c : Credential) (now : Z) (k : Jv) : Z * Jv :=
  let iid := cr_instance_id c in
  let fp := hex_lower (cr_ca_fp_prefix c) in
  let s := jc_state k in
  let same := bool_decide (jv_instance_id s = Some iid ∧ jv_fp s = Some fp) in
  let '(s, file) := if same then (set_fresh false s, jc_file k) else rebind io iid fp (jc_file k) s in
  let s := refresh_display_line now s in
  let s := set_counters (wrap_u64 (jv_session s + 1)) (jv_epoch s) s in
  (jv_session s, sync_from_state (mkController s file (jc_sync k))).

Definition mark_disconnected_if_token (token : Z * Z) (now : Z) (k : Jv) : Jv :=
  let s := jc_state k in
  if bool_decide (token ≠ (jv_session s, jv_epoch s)) then k
  else
    let s := refresh_display_line now (set_fresh false (set_counters (jv_session s) (wrap_u64 (jv_epoch s + 1)) s)) in
    sync_from_state (with_state s k).
Definition current_token (k : Jv) : Z * Z := (jv_session (jc_state k), jv_epoch (jc_state k)).
Definition mark_disconnected (now : Z) (k : Jv) : Jv := mark_disconnected_if_token (current_token k) now k.
Definition mark_session_disconnected (generation : Z) (now : Z) (k : Jv) : Jv :=
  let token := current_token k in
  if (token.1 =? generation)%Z then mark_disconnected_if_token token now k else k.

Definition clear (io : Io) (k : Jv) : Jv :=
  let s := jc_state k in
  let s :=
    mkJv None None None None None None None unknown_journal_line unknown_journal_line false
      (wrap_u64 (jv_session s + 1)) (wrap_u64 (jv_epoch s + 1)) None (jv_attempt s) None None in
  sync_from_state (mkController s (remove_file io (jc_file k)) (jc_sync k)).

Definition capture_metadata_attempt (session : Z) (k : Jv) : option (Z * Z * Z) * Jv :=
  let s := jc_state k in
  if negb (jv_session s =? session)%Z || bool_decide (jv_instance_id s = None) then (None, k)
  else
    let a := wrap_u64 (jv_attempt s + 1) in
    (Some (jv_session s, jv_epoch s, a), with_state (set_accepted a None None s) k).

(** A version that is not the known one drops the facts of the old one. *)
Definition drop_other_facts (version : string) (s : JvState) : JvState :=
  match jv_version s with
  | Some old => if String.eqb (normalize_version old) (normalize_version version) then s else set_host_facts None None s
  | None => set_host_facts None None s
  end.

Definition publish_info (io : Io) (name : option (option string)) (version : option string) (token : Z * Z) (expected_attempt : option Z)
    (now : Z) (k : Jv) : bool * Jv :=
  let s := jc_state k in
  if bool_decide (token ≠ (jv_session s, jv_epoch s)) || bool_decide (jv_instance_id s = None) ||
     match expected_attempt with Some a => negb (a =? jv_attempt s)%Z | None => false end
  then (false, k)
  else if match mjoin name with Some n => negb (is_sanitized_name n) | None => false end ||
          match version with Some v => negb (is_sanitized_version v) | None => false end
  then (false, k)
  else
    let s := match name with Some n => set_known (jv_version s) (jv_updated s) n s | None => s end in
    match version with
    | Some v =>
      let s := drop_other_facts v s in
      let s := set_fresh true (set_known (Some v) (Some now) (jv_name s) s) in
      let s := match expected_attempt with Some a => set_accepted (jv_attempt s) (Some a) (Some v) s | None => s end in
      let k := persist_state io (with_state s k) in
      (true, sync_from_state (with_state (refresh_display_line now (jc_state k)) k))
    | None => (false, sync_from_state (with_state s k))
    end.
Definition publish_journal_metadata (io : Io) (name version : option string) (token : Z * Z) (now : Z) (k : Jv) : Jv :=
  (publish_info io (Some name) version token None now k).2.
Definition publish_info_for_attempt (io : Io) (name : option (option string)) (version : string) (token : Z * Z * Z) (now : Z) (k : Jv) : bool * Jv :=
  publish_info io name (Some version) token.1 (Some token.2) now k.
Definition publish_version (io : Io) (version : string) (token : Z * Z) (now : Z) (k : Jv) : Jv :=
  (publish_info io None (Some version) token None now k).2.

Definition same_version (a b : string) : bool := String.eqb (normalize_version a) (normalize_version b).
Definition apply_about_for_attempt (io : Io) (facts : JournalAboutFacts) (expected_version : string) (token : Z * Z * Z)
    (expected_identity : string * string) (now : Z) (k : Jv) : bool * Jv :=
  let s := jc_state k in
  if bool_decide (token ≠ (jv_session s, jv_epoch s, jv_attempt s)) ||
     bool_decide (jv_instance_id s ≠ Some expected_identity.1) || bool_decide (jv_fp s ≠ Some expected_identity.2) ||
     bool_decide (jv_accepted_attempt s ≠ Some token.2) ||
     match jv_accepted_version s with Some a => negb (same_version a expected_version) | None => true end ||
     match jv_version s with Some v => negb (same_version v expected_version) | None => true end ||
     negb (same_version (jf_version facts) expected_version)
  then (false, k)
  else if negb (valid_about_facts facts) then (false, k)
  else
    let s := refresh_display_line now (set_host_facts (Some facts) (Some now) s) in
    (true, sync_from_state (persist_state io (with_state s k))).

Definition trigger_refresh (session : Z) (k : Jv) : option (Z * Z) * Jv :=
  let s := jc_state k in
  if bool_decide (jv_instance_id s = None) || negb (jv_session s =? session)%Z then (None, k)
  else
    let token := (jv_session s, jv_epoch s) in
    if bool_decide (jv_in_flight s = Some token) then (None, k)
    else (Some token, with_state (set_in_flight (Some token) s) k).

Definition apply_result (io : Io) (token : Z * Z) (r : result string TransportError) (now : Z) (k : Jv) : Jv :=
  let s := jc_state k in
  let s := if bool_decide (jv_in_flight s = Some token) then set_in_flight None s else s in
  let k := with_state s k in
  if bool_decide (token ≠ (jv_session s, jv_epoch s)) || bool_decide (jv_instance_id s = None) then k
  else
    match r with
    | Err _ => k
    | Ok version =>
      if negb (is_sanitized_version version) then k
      else
        let s := drop_other_facts version s in
        let s := set_fresh true (set_known (Some version) (Some now) (jv_name s) s) in
        let s := refresh_display_line now (set_accepted (jv_attempt s) None None s) in
        sync_from_state (persist_state io (with_state s k))
    end.
End controller.
