(* ===== verification/JournalVersionProps.v ===== *)
(** * Whose version is shown

    The controller with every request in flight, its answers arriving in any
    order and any number of sessions later, and every call on its file free to
    fail. *)
From Stdlib Require Import Ascii String.
From stdpp Require Import countable.
From S2P Require Import Prelude RustStr PauseStore Model Ingest Transport OwnerFs Paired About JournalVersion OwnerDemo.

Local Open Scope list_scope.

Section system.
Context `{JvLib} `{!JvLaws}.

(** A journal, as the controller tells journals apart. *)
Definition Identity : Type := string * string.
Definition bound (s : JvState) : option Identity :=
  match jv_instance_id s, jv_fp s with Some i, Some f => Some (i, f) | _, _ => None end.

(** Requests that went out, with the journal they went to, and what journals
    answered: the version, and the token unless it was read from the file the
    app started with. *)
Definition Issued : Type := list (Z * Z * Identity).
Definition Told : Type := list (Identity * string * option (Z * Z)).
Record JvSys : Type := mkSys { js_ctrl : Jv; js_issued : Issued; js_told : Told; js_synced : bool }.

Definition issue (t : option (Z * Z)) (s : JvState) (l : Issued) : Issued :=
  match t, bound s with Some t, Some id => (t, id) :: l | _, _ => l end.
Definition tell (id : Identity) (v : option string) (t : Z * Z) (l : Told) : Told :=
  match v with Some v => (id, v, Some t) :: l | None => l end.

Definition from_file (file : option string) : Told :=
  match file ≫= version_of with Some p => [((pv_instance_id p, pv_ca_fp_prefix_hex p), pv_version p, None)] | None => [] end.
Definition start_sys (io : Io) (file : option string) (sync : SyncSnapshot) (now : Z) : JvSys :=
  mkSys (new_controller io file sync now) [] (from_file file) false.

(** The counters do not come to their end. *)
Definition has_room (k : Jv) : Prop := (0 <= jv_session (jc_state k) < u64_max)%Z ∧ (0 <= jv_epoch (jc_state k) < u64_max)%Z.

Inductive jv_step : JvSys → JvSys → Prop :=
  | js_begin io c now k sent told b : has_room k →
      jv_step (mkSys k sent told b) (mkSys (begin_session io c now k).2 sent told true)
  | js_disconnected token now k sent told b : has_room k →
      jv_step (mkSys k sent told b) (mkSys (mark_disconnected_if_token token now k) sent told b)
  | js_clear io k sent told b : has_room k →
      jv_step (mkSys k sent told b) (mkSys (clear io k) sent told true)
  | js_capture session k sent told b :
      let r := capture_metadata_attempt session k in
      jv_step (mkSys k sent told b) (mkSys r.2 (issue (fst <$> r.1) (jc_state k) sent) told b)
  | js_trigger session k sent told b :
      let r := trigger_refresh session k in
      jv_step (mkSys k sent told b) (mkSys r.2 (issue r.1 (jc_state k) sent) told b)
  | js_result io token id r now k sent told b : (token, id) ∈ sent →
      jv_step (mkSys k sent told b) (mkSys (apply_result io token r now k) sent (tell id (match r with Ok v => Some v | Err _ => None end) token told) b)
  | js_publish io name version token attempt id now k sent told b : (token, id) ∈ sent →
      jv_step (mkSys k sent told b) (mkSys (publish_info io name version token attempt now k).2 sent (tell id version token told) b)
  | js_about io facts version token id now k sent told b :
      jv_step (mkSys k sent told b) (mkSys (apply_about_for_attempt io facts version token id now k).2 sent told b).

(** ** The invariant *)

Record jv_ok (s : JvState) (file : option string) (sent : Issued) (told : Told) : Prop := {
  ok_identity : jv_instance_id s = None ↔ jv_fp s = None;
  ok_issued g e id : (g, e, id) ∈ sent → (g <= jv_session s)%Z ∧ (g = jv_session s → bound s = Some id);
  ok_version v : jv_version s = Some v → is_sanitized_version v = true ∧
    ∃ id t, bound s = Some id ∧ (id, v, t) ∈ told ∧ (jv_fresh s = true → t = Some (jv_session s, jv_epoch s));
  ok_fresh : jv_fresh s = true → is_Some (jv_version s);
  ok_name n : jv_name s = Some n → is_sanitized_name n = true;
  ok_facts f : jv_facts s = Some f → valid_about_facts f = true ∧ ∃ v, jv_version s = Some v ∧ same_version (jf_version f) v = true;
  ok_file p : file ≫= version_of = Some p → ∃ t, ((pv_instance_id p, pv_ca_fp_prefix_hex p), pv_version p, t) ∈ told }.

(** The lines say what the state knows, and the snapshot shows the state. *)
Definition lines_ok (s : JvState) : Prop :=
  jv_base_line s = render_journal_base_line (jv_version s) (jv_facts s) ∧
  ∃ now, jv_display_line s = render_journal_line (jv_version s) (jv_facts s) (jv_fresh s) (jv_updated s) now.
Definition mirrors (s : JvState) (y : SyncSnapshot) : Prop :=
  journal_version y = jv_version s ∧ journal_version_fresh y = jv_fresh s ∧ journal_display_line y = jv_display_line s ∧
  journal_base_line y = jv_base_line s ∧ journal_seen_at_epoch_secs y = jv_updated s ∧
  about_block y = compose_about_block (about_app_line y) (jv_display_line s).
Definition sys_ok (x : JvSys) : Prop :=
  jv_ok (jc_state (js_ctrl x)) (jc_file (js_ctrl x)) (js_issued x) (js_told x) ∧
  (js_synced x = true → lines_ok (jc_state (js_ctrl x)) ∧ mirrors (jc_state (js_ctrl x)) (jc_sync (js_ctrl x))).

(** *** What the parts of an operation keep *)

Lemma sync_shows k : lines_ok (jc_state k) → lines_ok (jc_state (sync_from_state k)) ∧ mirrors (jc_state (sync_from_state k)) (jc_sync (sync_from_state k)).
Proof. by intros. Qed.
Lemma refresh_lines now s : lines_ok (refresh_display_line now s).
Proof. split; [done|by exists now]. Qed.
Lemma ok_refresh now s file sent told : jv_ok s file sent told → jv_ok (refresh_display_line now s) file sent told.
Proof. by intros []. Qed.
Lemma ok_in_flight t s file sent told : jv_ok s file sent told → jv_ok (set_in_flight t s) file sent told.
Proof. by intros []. Qed.
Lemma ok_accepted a b v s file sent told : jv_ok s file sent told → jv_ok (set_accepted a b v s) file sent told.
Proof. by intros []. Qed.
Lemma ok_told s file sent told told' : told ⊆ told' → jv_ok s file sent told → jv_ok s file sent told'.
Proof.
  intros Hsub []. split; try done.
  - intros v Hv. destruct (ok_version0 v Hv) as (? & id & t & ? & ? & ?). split; [done|]. exists id, t. split_and!; auto.
  - intros p Hp. destruct (ok_file0 p Hp) as [t ?]. eauto.
Qed.
Lemma told_tell id v t told : told ⊆ tell id v t told.
Proof. destruct v; cbn; set_solver. Qed.
Lemma ok_unfresh s file sent told : jv_ok s file sent told → jv_ok (set_fresh false s) file sent told.
Proof.
  intros []. split; try done. intros v Hv. destruct (ok_version0 v Hv) as (? & id & t & ? & ? & _). split; [done|]. by exists id, t.
Qed.
Lemma ok_no_file s file sent told : jv_ok s file sent told → jv_ok s None sent told.
Proof. intros []. by split. Qed.
Lemma ok_remove io s file sent told : jv_ok s file sent told → jv_ok s (remove_file io file) sent told.
Proof. intros Hok. unfold remove_file. destruct (io_remove io); [by eapply ok_no_file|done]. Qed.

(** A newer session, with the same journal bound or another. *)
Lemma ok_new_session s s' file sent told :
  jv_ok s file sent told → (jv_session s < jv_session s')%Z →
  (jv_instance_id s' = None ↔ jv_fp s' = None) → jv_fresh s' = false →
  (∀ v, jv_version s' = Some v → is_sanitized_version v = true ∧ ∃ id t, bound s' = Some id ∧ (id, v, t) ∈ told) →
  (∀ n, jv_name s' = Some n → is_sanitized_name n = true) →
  (∀ f, jv_facts s' = Some f → valid_about_facts f = true ∧ ∃ v, jv_version s' = Some v ∧ same_version (jf_version f) v = true) →
  jv_ok s' file sent told.
Proof.
  intros [] Hlt Hid Hfr Hv Hn Hf. split; try done.
  - intros g e id Hi. destruct (ok_issued0 _ _ _ Hi). split; [lia|]. intros ->. lia.
  - intros v Hvv. destruct (Hv v Hvv) as (? & id & t & ? & ?). split; [done|]. exists id, t. split_and!; [done..|]. congruence.
  - congruence.
Qed.

Lemma restore_facts_ok value version f at_secs :
  restore_host_facts value version = Some (f, at_secs) → valid_about_facts f = true ∧ same_version (jf_version f) version = true.
Proof.
  unfold restore_host_facts. destruct (value ≫= facts_of_value) as [pf|]; [|done]. destruct (negb _ || negb _) eqn:Hb; [done|].
  intros [= <- _]. apply orb_false_iff in Hb as [Hv Hs]. by apply negb_false_iff in Hv, Hs.
Qed.
Lemma restore_state p name s :
  let s' := restore p name s in
  jv_version s' = Some (pv_version p) ∧ jv_name s' = name ∧ jv_instance_id s' = jv_instance_id s ∧ jv_fp s' = jv_fp s ∧
  jv_session s' = jv_session s ∧ jv_fresh s' = jv_fresh s ∧
  ∀ f, jv_facts s' = Some f → valid_about_facts f = true ∧ same_version (jf_version f) (pv_version p) = true.
Proof.
  unfold restore. destruct (restore_host_facts _ _) as [[f at_secs]|] eqn:Hr; cbn; split_and!; try done.
  intros f' [= <-]. by eapply restore_facts_ok.
Qed.

(** An answer taken: the state after it, before the lines and the file. *)
Definition accepts (v : string) (now : Z) (s : JvState) : JvState :=
  let s := drop_other_facts v s in set_fresh true (set_known (Some v) (Some now) (jv_name s) s).
Lemma drop_kept v s :
  let s' := drop_other_facts v s in
  jv_instance_id s' = jv_instance_id s ∧ jv_fp s' = jv_fp s ∧ jv_session s' = jv_session s ∧ jv_epoch s' = jv_epoch s ∧ jv_name s' = jv_name s ∧
  ∀ f, jv_facts s' = Some f → jv_facts s = Some f ∧ ∃ old, jv_version s = Some old ∧ same_version old v = true.
Proof.
  unfold drop_other_facts, same_version. destruct (jv_version s) as [old|]; [destruct (String.eqb _ _) eqn:He|]; cbn; split_and!; try done. eauto.
Qed.
Lemma same_version_trans a b c : same_version a b = true → same_version b c = true → same_version a c = true.
Proof. unfold same_version. rewrite !String.eqb_eq. congruence. Qed.
Lemma ok_accepts v now s file sent told id :
  jv_ok s file sent told → ((jv_session s, jv_epoch s), id) ∈ sent → is_sanitized_version v = true →
  jv_ok (accepts v now s) file sent ((id, v, Some (jv_session s, jv_epoch s)) :: told).
Proof.
  intros Hok Hi Hv. destruct (drop_kept v s) as (E1 & E2 & E3 & E4 & E5 & E6). destruct (ok_told s file sent told ((id, v, Some (jv_session s, jv_epoch s)) :: told) ltac:(set_solver) Hok) as [].
  assert (Hb : bound (accepts v now s) = bound s) by (unfold bound, accepts; cbn; by rewrite E1, E2).
  destruct (ok_issued0 _ _ _ Hi) as [_ Hbound]. specialize (Hbound eq_refl). split; rewrite ?Hb; cbn; rewrite ?E1, ?E2, ?E3, ?E4, ?E5; try done.
  - intros x [= <-]. split; [done|]. exists id, (Some (jv_session s, jv_epoch s)). split_and!; [done|by left|done].
  - intros f Hf. destruct (E6 f Hf) as (Hf' & old & Ho & Hsame). destruct (ok_facts0 f Hf') as (? & w & Hw & Hfw). split; [done|].
    exists v. split; [done|]. rewrite Ho in Hw. injection Hw as <-. by eapply same_version_trans.
Qed.
Lemma ok_persist io k sent told : jv_ok (jc_state k) (jc_file k) sent told → jv_ok (jc_state (persist_state io k)) (jc_file (persist_state io k)) sent told.
Proof.
  intros Hok. unfold persist_state. destruct (jv_instance_id (jc_state k)) as [i|] eqn:Hi; [|done]. destruct (jv_fp (jc_state k)) as [f|] eqn:Hf; [|done].
  destruct (jv_version (jc_state k)) as [v|] eqn:Hv; [|done]. destruct (io_write io); [|done]. destruct Hok. split; try done.
  intros p Hp. cbn in Hp. rewrite version_round in Hp. injection Hp as <-. cbn.
  destruct (ok_version0 v Hv) as (_ & id & t & Hb & Ht & _). unfold bound in Hb. rewrite Hi, Hf in Hb. injection Hb as <-. eauto.
Qed.
Lemma persist_kept io k : jc_state (persist_state io k) = jc_state k ∧ jc_sync (persist_state io k) = jc_sync k.
Proof. unfold persist_state. by repeat case_match. Qed.

(** ** Each step *)

Lemma start_ok io file sync now : sys_ok (start_sys io file sync now).
Proof.
  split; [|done]. unfold start_sys, new_controller, from_file. cbn.
  assert (Hdef : jv_ok default_jv file [] (from_file file)).
  { split; try done; [by intros ? ? ? ?%elem_of_nil|]. unfold from_file. intros p ->. eexists. by left. }
  destruct (read_version io file) as [p|] eqn:Hr; [|exact Hdef]. destruct (_ && _) eqn:Hs; [|exact Hdef].
  unfold read_version in Hr. destruct (io_read io); [|done]. unfold from_file in Hdef. rewrite Hr in *. apply andb_true_iff in Hs as [Hv Hn].
  apply ok_refresh, ok_unfresh. destruct (restore_state p (pv_journal_name p) (set_identity (Some (pv_instance_id p)) (Some (pv_ca_fp_prefix_hex p)) default_jv))
    as (E1 & E2 & E3 & E4 & E5 & E6 & E7). cbn zeta in *. destruct Hdef. split; unfold bound; rewrite ?E1, ?E2, ?E3, ?E4, ?E5, ?E6; try done.
  - by intros ? ? ? ?%elem_of_nil.
  - intros v [= <-]. split; [done|]. eexists _, None. split_and!; [done|by left|done].
  - intros n Hname. by rewrite Hname in Hn.
  - intros f Hf. destruct (E7 f Hf). eauto.
Qed.

Lemma rebind_spec io i f file s s' file' sent told :
  jv_ok s file sent told → rebind io i f file s = (s', file') →
  jv_session s' = jv_session s ∧ jv_epoch s' = jv_epoch s ∧ jv_ok (set_counters (jv_session s + 1) (jv_epoch s) s') file' sent told.
Proof.
  intros Hok. unfold rebind. set (wiped := (set_fresh false _, remove_file io file)).
  assert (Hwiped : ∀ x y, wiped = (x, y) → jv_session x = jv_session s ∧ jv_epoch x = jv_epoch s ∧ jv_ok (set_counters (jv_session s + 1) (jv_epoch s) x) y sent told).
  { intros x y [= <- <-]. split_and!; [done..|]. apply ok_remove. eapply ok_new_session; [exact Hok|cbn; lia|done..]. }
  destruct (read_version io file) as [p|] eqn:Hr; [|apply Hwiped]. destruct (_ && _ && _) eqn:Hm; [|apply Hwiped].
  rewrite !andb_true_iff, !String.eqb_eq in Hm. destruct Hm as [[<- <-] Hv]. unfold read_version in Hr. destruct (io_read io); [|done].
  set (name := match pv_journal_name p with Some n => if is_sanitized_name n then Some n else None | None => None end).
  destruct (restore_state p name (set_identity (Some (pv_instance_id p)) (Some (pv_ca_fp_prefix_hex p)) s)) as (E1 & E2 & E3 & E4 & E5 & E6 & E7). cbn zeta in *.
  intros [= <- <-]. split_and!; [exact E5|unfold restore; by destruct (restore_host_facts _ _) as [[]|]|].
  destruct (ok_file _ _ _ _ Hok p Hr) as [t Ht]. eapply ok_new_session; [exact Hok|cbn; lia|..]; unfold bound; cbn; rewrite ?E1, ?E2, ?E3, ?E4; try done.
  - intros v [= <-]. split; [done|]. eauto.
  - intros n Hn. unfold name in Hn. destruct (pv_journal_name p) as [m|]; [|done]. destruct (is_sanitized_name m) eqn:Hm; [|done]. by injection Hn as <-.
  - intros fct Hf. destruct (E7 fct Hf). eauto.
Qed.

Lemma begin_ok io c now k sent told b : has_room k → sys_ok (mkSys k sent told b) → sys_ok (mkSys (begin_session io c now k).2 sent told true).
Proof.
  intros [Hs _] [Hok _]. cbn in Hok. unfold begin_session.
  assert (Hgo : ∀ s file, jv_session s = jv_session (jc_state k) → jv_epoch s = jv_epoch (jc_state k) →
    jv_ok (set_counters (jv_session (jc_state k) + 1) (jv_epoch (jc_state k)) s) file sent told →
    let s' := set_counters (wrap_u64 (jv_session (refresh_display_line now s) + 1)) (jv_epoch (refresh_display_line now s)) (refresh_display_line now s) in
    sys_ok (mkSys (sync_from_state (mkController s' file (jc_sync k))) sent told true)).
  { intros s file E1 E2 Ho. cbn. rewrite E1, E2. rewrite wrap_u64_id by widths. split; cbn; [by apply (ok_refresh now) in Ho|].
    intros _. split; [split; [done|by exists now]|done]. }
  case_bool_decide as Hsame.
  - apply (Hgo (set_fresh false (jc_state k)) (jc_file k)); [done..|]. eapply ok_new_session; [exact Hok|cbn; lia|cbn..].
    + apply (ok_identity _ _ _ _ Hok).
    + done.
    + intros v Hv. destruct (ok_version _ _ _ _ Hok v Hv) as (? & id & t & ? & ? & _). eauto.
    + apply (ok_name _ _ _ _ Hok).
    + apply (ok_facts _ _ _ _ Hok).
  - destruct (rebind _ _ _ _ _) as [s file] eqn:Hr. destruct (rebind_spec _ _ _ _ _ _ _ _ _ Hok Hr) as (E1 & E2 & E3). by apply Hgo.
Qed.

Lemma disconnected_ok token now k sent told b :
  has_room k → sys_ok (mkSys k sent told b) → sys_ok (mkSys (mark_disconnected_if_token token now k) sent told b).
Proof.
  intros [_ He] Hok. unfold mark_disconnected_if_token. case_bool_decide; [exact Hok|]. destruct Hok as [Hok _]. cbn in Hok.
  split; [cbn|by intros _; split; [split; [done|by exists now]|]]. apply (ok_refresh now). destruct Hok. split; try done.
  intros v Hv. destruct (ok_version0 v Hv) as (? & id & t & ? & ? & _). split; [done|]. by exists id, t.
Qed.
Lemma clear_ok io k sent told b : has_room k → sys_ok (mkSys k sent told b) → sys_ok (mkSys (clear io k) sent told true).
Proof.
  intros [Hs He] [Hok _]. cbn in Hok. split; [cbn; apply ok_remove|].
  - eapply ok_new_session; [exact Hok|cbn; rewrite wrap_u64_id by widths; lia|done..].
  - intros _. split; [split; [done|by exists 0%Z]|done].
Qed.

(** Asking changes neither what is known nor what is shown. *)
Lemma ok_issue g e k sent told :
  jv_ok (jc_state k) (jc_file k) sent told → (g, e) = (jv_session (jc_state k), jv_epoch (jc_state k)) →
  jv_ok (jc_state k) (jc_file k) (issue (Some (g, e)) (jc_state k) sent) told.
Proof.
  intros Hok [= -> ->]. unfold issue. destruct (bound (jc_state k)) as [id|] eqn:Hb; [|done]. destruct Hok. split; try done.
  intros g e id' [[= -> -> ->]|Hi]%elem_of_cons; [by split; [lia|]|]. by apply (ok_issued0 g e).
Qed.
Lemma capture_ok session k sent told b :
  let r := capture_metadata_attempt session k in
  sys_ok (mkSys k sent told b) → sys_ok (mkSys r.2 (issue (fst <$> r.1) (jc_state k) sent) told b).
Proof.
  cbn zeta. intros [Hok Hsh]. unfold capture_metadata_attempt. destruct (_ || _); [by split|]. split; [|exact Hsh]. cbn -[issue].
  apply ok_accepted, (ok_issue _ _ k _ _ Hok eq_refl).
Qed.
Lemma trigger_ok session k sent told b :
  let r := trigger_refresh session k in
  sys_ok (mkSys k sent told b) → sys_ok (mkSys r.2 (issue r.1 (jc_state k) sent) told b).
Proof.
  cbn zeta. intros [Hok Hsh]. unfold trigger_refresh. destruct (_ || _); [by split|]. case_bool_decide; [by split|]. split; [|exact Hsh]. cbn -[issue].
  apply ok_in_flight, (ok_issue _ _ k _ _ Hok eq_refl).
Qed.

(** A state written to the file and shown. *)
Lemma commit_ok io s' k sent told b :
  jv_ok s' (jc_file k) sent told → lines_ok s' → sys_ok (mkSys (sync_from_state (persist_state io (with_state s' k))) sent told b).
Proof.
  intros Ho Hlin. destruct (persist_kept io (with_state s' k)) as [E1 E2]. split.
  - cbn. apply (ok_persist io (with_state s' k)). exact Ho.
  - intros _. cbn [js_ctrl]. apply (sync_shows (persist_state io (with_state s' k))). rewrite E1. exact Hlin.
Qed.
Lemma result_ok io token id r now k sent told b :
  (token, id) ∈ sent → sys_ok (mkSys k sent told b) →
  sys_ok (mkSys (apply_result io token r now k) sent (tell id (match r with Ok v => Some v | Err _ => None end) token told) b).
Proof.
  intros Hi [Hok Hsh]. cbn in Hok, Hsh. unfold apply_result. set (s := if bool_decide _ then _ else _).
  assert (Hs : jv_ok s (jc_file k) sent told ∧ (b = true → lines_ok s ∧ mirrors s (jc_sync k))).
  { unfold s. case_bool_decide; [|by split]. split; [by apply ok_in_flight|exact Hsh]. }
  clearbody s. destruct Hs as [Hs Hl].
  assert (Hkeep : sys_ok (mkSys (with_state s k) sent (tell id (match r with Ok v => Some v | Err _ => None end) token told) b)).
  { split; [|exact Hl]. cbn. eapply ok_told; [apply told_tell|done]. }
  destruct (bool_decide (token ≠ _)) eqn:Ht; [exact Hkeep|]. apply bool_decide_eq_false in Ht. apply dec_stable in Ht as ->.
  destruct (bool_decide _); [exact Hkeep|]. destruct r as [v|e]; [|exact Hkeep]. destruct (is_sanitized_version v) eqn:Hv; [|exact Hkeep]. cbn [negb orb].
  apply (commit_ok io _ (with_state s k)); [|apply refresh_lines]. apply ok_refresh, ok_accepted. exact (ok_accepts v now s _ _ _ id Hs Hi Hv).
Qed.
Lemma publish_ok io name version token attempt id now k sent told b :
  (token, id) ∈ sent → sys_ok (mkSys k sent told b) →
  sys_ok (mkSys (publish_info io name version token attempt now k).2 sent (tell id version token told) b).
Proof.
  intros Hi [Hok Hsh]. cbn in Hok, Hsh. unfold publish_info.
  assert (Hkeep : sys_ok (mkSys k sent (tell id version token told) b)) by (split; [eapply ok_told; [apply told_tell|done]|exact Hsh]).
  destruct (bool_decide (token ≠ _)) eqn:Ht; [exact Hkeep|]. apply bool_decide_eq_false in Ht. apply dec_stable in Ht as ->.
  destruct (_ || _); [exact Hkeep|]. destruct (match mjoin name with Some n => _ | None => _ end) eqn:Hn; [exact Hkeep|].
  set (s := match name with Some n => _ | None => _ end).
  assert (Hs : jv_ok s (jc_file k) sent told ∧ (b = true → lines_ok s ∧ mirrors s (jc_sync k)) ∧ jv_session s = jv_session (jc_state k) ∧ jv_epoch s = jv_epoch (jc_state k)).
  { unfold s. destruct name as [n|]; [|by split_and!]. split_and!; try done. destruct Hok. split; try done. cbn. intros m ->. cbn in Hn. by apply negb_false_iff in Hn. }
  clearbody s. destruct Hs as (Hs & Hl & Es & Ee). destruct version as [v|].
  2: { split; [cbn; exact Hs|]. intros Hb. destruct (Hl Hb) as [Hlines _]. by apply (sync_shows (with_state s k)). }
  cbn [orb]. destruct (is_sanitized_version v) eqn:Hv; [|exact Hkeep]. cbn [negb]. set (s' := match attempt with Some a => _ | None => _ end).
  assert (Ho : jv_ok s' (jc_file k) sent ((id, v, Some (jv_session s, jv_epoch s)) :: told)).
  { rewrite <- Es, <- Ee in Hi. pose proof (ok_accepts v now s _ _ _ id Hs Hi Hv) as Ha. unfold s'. destruct attempt; [by apply ok_accepted|done]. }
  cbn. rewrite <- Es, <- Ee. destruct (persist_kept io (with_state s' k)) as [E1 E2]. split.
  - cbn. apply ok_refresh. apply (ok_persist io (with_state s' k)). exact Ho.
  - intros _. apply sync_shows. cbn. apply refresh_lines.
Qed.
Lemma about_ok io facts version token id now k sent told b :
  sys_ok (mkSys k sent told b) → sys_ok (mkSys (apply_about_for_attempt io facts version token id now k).2 sent told b).
Proof.
  intros [Hok Hsh]. cbn in Hok, Hsh. unfold apply_about_for_attempt. destruct (_ || negb (same_version (jf_version facts) version)) eqn:Hg; [by split|].
  destruct (valid_about_facts facts) eqn:Hv; [|by split]. cbn [negb]. rewrite !orb_false_iff in Hg. destruct Hg as [[_ Hver] Hfv].
  set (s' := refresh_display_line now _). assert (Ho : jv_ok s' (jc_file k) sent told).
  { apply ok_refresh. destruct Hok. split; try done. intros f [= <-]. split; [done|].
    change (∃ v, jv_version (jc_state k) = Some v ∧ same_version (jf_version facts) v = true).
    destruct (jv_version (jc_state k)) as [w|]; [|done]. exists w. split; [done|]. apply negb_false_iff in Hfv, Hver. unfold same_version in *.
    apply String.eqb_eq in Hfv, Hver. apply String.eqb_eq. congruence. }
  apply (commit_ok io s' k); [exact Ho|apply refresh_lines].
Qed.
Lemma step_ok x y : jv_step x y → sys_ok x → sys_ok y.
Proof.
  intros [] Hok; [by eapply begin_ok|by eapply disconnected_ok|by eapply clear_ok|by apply capture_ok|by apply trigger_ok|by apply result_ok|by apply publish_ok|by apply about_ok].
Qed.

(** C35. Whatever order answers arrive in and whatever calls on the file fail,
    the version the windows show was told by the journal the app is bound to,
    never by one it was bound to before, and is called fresh only if it was
    told under the current connection; host facts are shown only next to the
    version they name; the lines and the snapshot agree with the state; and a
    record left on disk holds what its own journal told. *)
Theorem shown_version_is_the_journals io file sync now x :
  rtc jv_step (start_sys io file sync now) x → js_synced x = true →
  let s := jc_state (js_ctrl x) in let y := jc_sync (js_ctrl x) in
  (∀ v, journal_version y = Some v → ∃ id t, bound s = Some id ∧ (id, v, t) ∈ js_told x ∧
     (journal_version_fresh y = true → t = Some (jv_session s, jv_epoch s))) ∧
  (∀ f, jv_facts s = Some f → ∃ v, journal_version y = Some v ∧ same_version (jf_version f) v = true) ∧
  (∃ now', journal_display_line y = render_journal_line (journal_version y) (jv_facts s) (journal_version_fresh y) (journal_seen_at_epoch_secs y) now') ∧
  (∀ p, jc_file (js_ctrl x) ≫= version_of = Some p → ∃ t, ((pv_instance_id p, pv_ca_fp_prefix_hex p), pv_version p, t) ∈ js_told x).
Proof.
  intros Hr Hsy. assert (Hok : sys_ok x).
  { pose proof (start_ok io file sync now) as H0'. induction Hr as [|x0 y0 z Hstep _ IH]; [done|]. apply IH; [done|]. by eapply step_ok. }
  destruct Hok as [Hok Hsh]. destruct (Hsh Hsy) as [(_ & n & Hd) (M1 & M2 & M3 & _ & M5 & _)]. cbn zeta. rewrite M1, M2, M3, M5. split_and!.
  - intros v Hv. destruct (ok_version _ _ _ _ Hok v Hv) as (_ & ?). done.
  - intros f Hf. by destruct (ok_facts _ _ _ _ Hok f Hf) as [_ ?].
  - by exists n.
  - apply (ok_file _ _ _ _ Hok).
Qed.
End system.

(** ** Two journals, and an answer that comes too late *)

#[local] Instance PersistedJournalFacts_eq_dec : EqDecision PersistedJournalFacts.
Proof. solve_decision. Defined.
#[local] Instance PersistedJournalFacts_countable : Countable PersistedJournalFacts.
Proof.
  refine (inj_countable' (λ f, (pf_version f, pf_build f, pf_os f, pf_os_version f, pf_arch f, pf_accepted_at f))
    (λ '(a, b, c, d, e, f), mkPersistedFacts a b c d e f) _). by intros [].
Defined.
#[local] Instance Persisted_eq_dec : EqDecision (PersistedJournalVersion PersistedJournalFacts).
Proof. solve_decision. Defined.
#[local] Instance Persisted_countable : Countable (PersistedJournalVersion PersistedJournalFacts).
Proof.
  refine (inj_countable' (λ p, (pv_instance_id p, pv_ca_fp_prefix_hex p, pv_version p, pv_journal_name p, pv_updated_at p, pv_facts p))
    (λ '(a, b, c, d, e, f), mkPersisted a b c d e f) _). by intros [].
Defined.
#[local] Instance demo_jv : JvLib := {
  Value := PersistedJournalFacts; facts_value := id; facts_of_value := Some;
  version_json p := bits (encode p); version_of b := decode (unbits b) }.
#[local] Instance demo_jv_laws : JvLaws.
Proof. split. intros p. cbn. by rewrite unbits_bits, decode_encode. Qed.

Definition demo_of (journal : string) : Credential := mkCredential "key" "cert" ["ca"] "ab" journal "Home" [] None None None.
Definition all_io : Io := mkIo true true true.
Definition jv0 : Jv := new_controller all_io None default_sync_snapshot 0.
Definition jv1 : Jv := (begin_session all_io (demo_of "one") 1 jv0).2.
Definition jv2 : Jv := (trigger_refresh 1 jv1).2.
Definition jv3 : Jv := (begin_session all_io (demo_of "two") 2 jv2).2.
Definition jv4 : Jv := apply_result all_io (1, 0)%Z (Ok "0.1") 3 jv3.
Definition jv5 : Jv := (trigger_refresh 2 jv4).2.
Definition jv6 : Jv := apply_result all_io (2, 0)%Z (Ok "0.2") 4 jv5.
Definition asked1 : Issued := [(1, 0, ("one", "6162"))]%Z.
Definition asked2 : Issued := [(2, 0, ("two", "6162")); (1, 0, ("one", "6162"))]%Z.
Definition demo_told : Told := [(("two", "6162"), "0.2", Some (2, 0)); (("one", "6162"), "0.1", Some (1, 0))]%Z.
Lemma demo_jv_run : rtc jv_step (start_sys all_io None default_sync_snapshot 0) (mkSys jv6 asked2 demo_told true).
Proof.
  assert (Hroom : ∀ k, jv_session (jc_state k) = 0%Z ∨ jv_session (jc_state k) = 1%Z → jv_epoch (jc_state k) = 0%Z → has_room k).
  { intros k [Hs|Hs] He; split; rewrite ?Hs, ?He; widths. }
  assert (H1 : jv_step (mkSys jv0 [] [] false) (mkSys jv1 [] [] true)) by (unfold jv1; apply js_begin, Hroom; [by left|done]).
  assert (H2 : jv_step (mkSys jv1 [] [] true) (mkSys jv2 asked1 [] true)).
  { assert (asked1 = issue (trigger_refresh 1 jv1).1 (jc_state jv1) []) as -> by (vm_compute; reflexivity). unfold jv2. apply js_trigger. }
  assert (H3 : jv_step (mkSys jv2 asked1 [] true) (mkSys jv3 asked1 [] true)).
  { unfold jv3. apply js_begin, Hroom; [right|]; vm_compute; reflexivity. }
  assert (H4 : jv_step (mkSys jv3 asked1 [] true) (mkSys jv4 asked1 [(("one", "6162"), "0.1", Some (1, 0)%Z)] true)).
  { unfold jv4. apply (js_result all_io (1, 0)%Z ("one", "6162") (Ok "0.1")). by left. }
  assert (H5 : jv_step (mkSys jv4 asked1 [(("one", "6162"), "0.1", Some (1, 0)%Z)] true) (mkSys jv5 asked2 [(("one", "6162"), "0.1", Some (1, 0)%Z)] true)).
  { assert (asked2 = issue (trigger_refresh 2 jv4).1 (jc_state jv4) asked1) as -> by (vm_compute; reflexivity). unfold jv5. apply js_trigger. }
  assert (H6 : jv_step (mkSys jv5 asked2 [(("one", "6162"), "0.1", Some (1, 0)%Z)] true) (mkSys jv6 asked2 demo_told true)).
  { unfold jv6. apply (js_result all_io (2, 0)%Z ("two", "6162") (Ok "0.2")). by left. }
  change (rtc jv_step (mkSys jv0 [] [] false) (mkSys jv6 asked2 demo_told true)).
  eapply rtc_l; [exact H1|]. eapply rtc_l; [exact H2|]. eapply rtc_l; [exact H3|]. eapply rtc_l; [exact H4|]. eapply rtc_l; [exact H5|]. by apply rtc_once.
Qed.
Lemma shown_version_is_the_journals_witness :
  journal_version (jc_sync jv4) = None ∧ journal_version (jc_sync jv6) = Some "0.2" ∧ journal_version_fresh (jc_sync jv6) = true ∧
  ∀ v, journal_version (jc_sync jv6) = Some v → ∃ id t, bound (jc_state jv6) = Some id ∧ (id, v, t) ∈ demo_told ∧
     (journal_version_fresh (jc_sync jv6) = true → t = Some (jv_session (jc_state jv6), jv_epoch (jc_state jv6))).
Proof.
  split_and!; [vm_compute; reflexivity..|].
  pose proof (shown_version_is_the_journals all_io None default_sync_snapshot 0 (mkSys jv6 asked2 demo_told true) demo_jv_run eq_refl) as Hx.
  cbv zeta in Hx. cbn [js_ctrl js_told] in Hx. destruct Hx as [Hx _]. exact Hx.
Defined.
