(* ===== verification/Burst.v ===== *)
(** * Work after a connection (crates/pl-transport-win/src/post_connect.rs)

    Each connection starts a burst of work: a pass of two lanes (device
    metadata and relay access) and, if something changed meanwhile, one
    follow-up pass. Passes carry the token they were started under; the
    controller is modelled with every lane still running and every event that
    can come between. [RelayFence] of client.rs is the gate the lanes publish
    through. What the lanes send and what they report is not modelled here. *)
From Stdlib Require Import Ascii String.
From S2P Require Import Prelude.

Local Open Scope list_scope.
Local Open Scope Z_scope.

(** ** The relay fence (client.rs) *)

Record RelayFence : Type := mkFence { fence_disabled : bool; fence_retired : bool; fence_incarnation : Z; fence_ineligible : Z }.
Definition new_fence (enabled : bool) : RelayFence := mkFence (negb enabled) false 1 0.
Definition allows (f : RelayFence) (incarnation : Z) : bool :=
  negb (fence_retired f) && negb (fence_disabled f) && (fence_incarnation f =? incarnation) && negb (fence_ineligible f =? incarnation).
Inductive RelayPermit : Type := PermitAllow | PermitDisabled | PermitRetired.
Definition permit (f : RelayFence) (incarnation : Z) : RelayPermit :=
  if fence_retired f then PermitRetired
  else if fence_disabled f || (fence_ineligible f =? incarnation) then PermitDisabled
  else if negb (fence_incarnation f =? incarnation) then PermitRetired
  else PermitAllow.
Definition advance_from (expected : Z) (enabled : bool) (f : RelayFence) : option Z * RelayFence :=
  let next := wrap_u64 (expected + 1) in
  if fence_incarnation f =? expected then (Some next, mkFence (negb enabled) (fence_retired f) next (fence_ineligible f)) else (None, f).
Definition disable (f : RelayFence) : RelayFence := mkFence true (fence_retired f) (wrap_u64 (fence_incarnation f + 1)) (fence_ineligible f).
Definition mark_relay_ineligible (incarnation : Z) (f : RelayFence) : RelayFence :=
  mkFence (fence_disabled f) (fence_retired f) (fence_incarnation f) incarnation.
Definition retire (f : RelayFence) : RelayFence :=
  disable (mkFence (fence_disabled f) true (fence_incarnation f) (fence_ineligible f)).

Inductive RelayEligibility : Type := FromCredential | Preserve.
(** The fence's part of replacing the live client: [has_relay] says whether the
    new credential has an origin and a token, [builds] whether the new client
    could be built. The new client's incarnation, if it is in place. *)
Definition replace_from_incumbent (has_relay builds : bool) (eligibility : RelayEligibility) (f : RelayFence) : option Z * RelayFence :=
  if fence_retired f then (None, f)
  else
    let current := fence_incarnation f in
    let enabled := match eligibility with FromCredential => has_relay | Preserve => negb (fence_disabled f) end in
    if negb builds then (None, f)
    else
      let '(next, g) := advance_from current enabled f in
      (next, match eligibility with
             | Preserve => if fence_ineligible f =? current then mark_relay_ineligible (wrap_u64 (current + 1)) g else g
             | FromCredential => g
             end).

Inductive fence_step : RelayFence → RelayFence → Prop :=
  | fs_replace has_relay builds e f : fence_incarnation f < u64_max → fence_step f (replace_from_incumbent has_relay builds e f).2
  | fs_disable f : fence_incarnation f < u64_max → fence_step f (disable f)
  | fs_ineligible i f : fence_step f (mark_relay_ineligible i f)
  | fs_retire f : fence_incarnation f < u64_max → fence_step f (retire f).

Lemma allows_permit f i : allows f i = true ↔ permit f i = PermitAllow.
Proof. unfold allows, permit. destruct (fence_retired f), (fence_disabled f), (fence_ineligible f =? i), (fence_incarnation f =? i); done. Qed.
Lemma fence_step_grows f g : fence_step f g → 0 <= fence_incarnation f →
  fence_incarnation f <= fence_incarnation g ∧ (fence_retired f = true → fence_retired g = true).
Proof.
  intros [hr b e f' Hr|f' Hr|i f'|f' Hr] H0; unfold replace_from_incumbent, advance_from, disable, retire, mark_relay_ineligible; cbn.
  - destruct (fence_retired f') eqn:He; cbn; [by split; [lia|]|]. destruct b; cbn; [|by split; [lia|]]. rewrite Z.eqb_refl. cbn.
    destruct e; [|destruct (fence_ineligible f' =? fence_incarnation f')]; cbn; rewrite wrap_u64_id by widths; split; [lia|congruence|lia|congruence|lia|congruence].
  - rewrite wrap_u64_id by widths. split; [lia|done].
  - split; [lia|done].
  - rewrite wrap_u64_id by widths. split; [lia|done].
Qed.

(** A client that was replaced, or whose slot was retired, is never let
    through again, whatever happens to the fence afterwards. *)
Lemma replaced_client_stays_out f g i :
  rtc fence_step f g → 0 <= fence_incarnation f → fence_retired f = true ∨ i < fence_incarnation f → permit g i ≠ PermitAllow.
Proof.
  intros Hr H0 Hi. assert (Hg : fence_retired g = true ∨ i < fence_incarnation g).
  { clear -Hr H0 Hi. induction Hr as [|f f1 g Hs _ IH]; [done|]. destruct (fence_step_grows _ _ Hs H0) as [Hle Hret].
    apply IH; [lia|]. destruct Hi as [Hi|Hi]; [left; auto|right; lia]. }
  rewrite <- allows_permit. unfold allows. destruct Hg as [->|Hg]; [done|].
  assert (fence_incarnation g =? i = false) as -> by (apply Z.eqb_neq; lia). by rewrite andb_false_r, andb_false_l.
Qed.

(** ** The burst *)

Inductive BurstPhase : Type := BIdle | FirstPass | FollowUp | Quiesced.
Definition Token : Type := Z * Z * string.

Section controller.
Context {M : Type}.

Record PostConnectState : Type := mkPc {
  session_generation : Z; connection_epoch : Z; last_connected_epoch : option Z; pc_pairing_generation : string;
  paired_instance_id : option string; in_flight_metadata : option Token; pending_metadata : option M; last_published_metadata : option M;
  in_flight_access : option Token; pending_access_trigger : bool; burst_phase : BurstPhase }.
Definition ZERO_GENERATION : string := string_of_list_ascii (repeat Ascii.zero 32).
Definition default_pc : PostConnectState := mkPc 0 0 None ZERO_GENERATION None None None None None false BIdle.
Definition pc_token (s : PostConnectState) : Token := (session_generation s, connection_epoch s, pc_pairing_generation s).

Definition quiesce (s : PostConnectState) : PostConnectState :=
  mkPc (session_generation s) (connection_epoch s) (last_connected_epoch s) (pc_pairing_generation s) (paired_instance_id s)
    (in_flight_metadata s) None (last_published_metadata s) (in_flight_access s) false Quiesced.
Definition begin_session (generation instance_id : string) (s : PostConnectState) : Z * PostConnectState :=
  let g := wrap_u64 (session_generation s + 1) in
  (g, mkPc g (wrap_u64 (connection_epoch s + 1)) None generation (Some instance_id) None None None None false BIdle).
Definition mark_session_disconnected (generation : Z) (s : PostConnectState) : PostConnectState :=
  if session_generation s =? generation then
    let drop (claim : option Token) := match claim with Some (g, _, _) => if g =? generation then None else claim | None => claim end in
    mkPc (session_generation s) (wrap_u64 (connection_epoch s + 1)) None (pc_pairing_generation s) (paired_instance_id s)
      (drop (in_flight_metadata s)) (pending_metadata s) (last_published_metadata s) (drop (in_flight_access s)) (pending_access_trigger s) Quiesced
  else s.
(** [shutdown] takes the lock three times: to compare the session, after which
    it retires the slot; in [mark_session_disconnected]; and to forget the
    journal. Other calls can come between. *)
Definition shutdown_admitted (generation : Z) (s : PostConnectState) (f : RelayFence) : option RelayFence :=
  if negb (session_generation s =? generation) then None else Some (retire f).
Definition forget_instance (s : PostConnectState) : PostConnectState :=
  mkPc (session_generation s) (connection_epoch s) (last_connected_epoch s) (pc_pairing_generation s) None
    (in_flight_metadata s) (pending_metadata s) (last_published_metadata s) (in_flight_access s) (pending_access_trigger s) (burst_phase s).
Definition clear_all (s : PostConnectState) : PostConnectState :=
  mkPc (wrap_u64 (session_generation s + 1)) (wrap_u64 (connection_epoch s + 1)) None ZERO_GENERATION None None None None None false BIdle.

(** A pass for both lanes, under a token of its own. *)
Definition start_pass (phase : BurstPhase) (s : PostConnectState) : PostConnectState * Token :=
  let epoch := wrap_u64 (connection_epoch s + 1) in
  let token := (session_generation s, epoch, pc_pairing_generation s) in
  (mkPc (session_generation s) epoch (Some epoch) (pc_pairing_generation s) (paired_instance_id s) (Some token) None (last_published_metadata s)
     (Some token) false phase, token).
Definition trigger (sanitized : M) (s : PostConnectState) : option Token * PostConnectState :=
  match paired_instance_id s with
  | None => (None, s)
  | Some _ =>
    match burst_phase s with
    | BIdle | Quiesced => let '(s, t) := start_pass FirstPass s in (Some t, s)
    | FirstPass | FollowUp =>
      (None, mkPc (session_generation s) (connection_epoch s) (last_connected_epoch s) (pc_pairing_generation s) (paired_instance_id s)
         (in_flight_metadata s) (Some sanitized) (last_published_metadata s) (in_flight_access s) true (burst_phase s))
    end
  end.
(** [note_connected] takes the lock to mark the epoch connected, and then
    triggers if it was not marked yet; other calls can come between. *)
Definition mark_connected (generation : Z) (s : PostConnectState) : bool * PostConnectState :=
  if negb (session_generation s =? generation) || bool_decide (last_connected_epoch s = Some (connection_epoch s)) then (false, s)
  else
    (true, mkPc (session_generation s) (connection_epoch s) (Some (connection_epoch s)) (pc_pairing_generation s) (paired_instance_id s)
       (in_flight_metadata s) (pending_metadata s) (last_published_metadata s) (in_flight_access s) (pending_access_trigger s) (burst_phase s)).

Definition finish_pass_lane (token : Token) (metadata : bool) (s : PostConnectState) : option Token * PostConnectState :=
  if bool_decide (pc_token s ≠ token) then (None, s)
  else if bool_decide ((if metadata then in_flight_metadata s else in_flight_access s) ≠ Some token) then (None, s)
  else
    let s :=
      mkPc (session_generation s) (connection_epoch s) (last_connected_epoch s) (pc_pairing_generation s) (paired_instance_id s)
        (if metadata then None else in_flight_metadata s) (pending_metadata s) (last_published_metadata s)
        (if metadata then in_flight_access s else None) (pending_access_trigger s) (burst_phase s) in
    if bool_decide (is_Some (in_flight_metadata s)) || bool_decide (is_Some (in_flight_access s)) then (None, s)
    else
      let settle :=
        let epoch := wrap_u64 (connection_epoch s + 1) in
        (None, mkPc (session_generation s) epoch (Some epoch) (pc_pairing_generation s) (paired_instance_id s) (in_flight_metadata s)
           (pending_metadata s) (last_published_metadata s) (in_flight_access s) (pending_access_trigger s) Quiesced) in
      match burst_phase s with
      | FirstPass =>
        if bool_decide (is_Some (pending_metadata s)) || pending_access_trigger s then
          match paired_instance_id s with
          | None => (None, s)
          | Some _ => let '(s, t) := start_pass FollowUp s in (Some t, s)
          end
        else settle
      | FollowUp => settle
      | BIdle | Quiesced => (None, s)
      end.

Definition attempt_is_current (token : Token) (s : PostConnectState) (f : RelayFence) : bool :=
  negb (fence_retired f) && bool_decide (pc_token s = token).
End controller.
Arguments PostConnectState : clear implicits.

(** ** Bursts under every order of events *)

Section system.
Context {M : Type}.
Implicit Types s : PostConnectState M.

(** [lanes]: the lanes still running; [started]: the passes, newest first;
    [bursts] counts those an event started; [whole]: since the last pass began
    no lane was aborted and no shutdown forgot the journal. *)
Record BurstSys : Type := mkBurst {
  bs_state : PostConnectState M; bs_lanes : list (Token * bool); bs_started : list Token; bs_bursts : nat; bs_whole : bool }.

Definition launched (r : option Token) (lanes : list (Token * bool)) : list (Token * bool) :=
  match r with Some t => (t, true) :: (t, false) :: lanes | None => lanes end.
Definition logged (r : option Token) (started : list Token) : list Token := match r with Some t => t :: started | None => started end.
Definition counted (r : option Token) (n : nat) : nat := match r with Some _ => S n | None => n end.
Definition rearmed (r : option Token) (b : bool) : bool := match r with Some _ => true | None => b end.

(** The counters do not come to their end. *)
Definition below_end s : Prop := session_generation s < u64_max ∧ connection_epoch s < u64_max.

Inductive burst_step : BurstSys → BurstSys → Prop :=
  | bu_begin g i s l st n w : below_end s → burst_step (mkBurst s l st n w) (mkBurst (begin_session g i s).2 l st n w)
  | bu_disconnect g s l st n w : below_end s → burst_step (mkBurst s l st n w) (mkBurst (mark_session_disconnected g s) l st n w)
  (** The end of a shutdown whose other lock sections came at any time before. *)
  | bu_forget s l st n w : burst_step (mkBurst s l st n w) (mkBurst (forget_instance s) l st n false)
  | bu_clear s l st n w : below_end s → burst_step (mkBurst s l st n w) (mkBurst (clear_all s) l st n w)
  | bu_quiesce s l st n w : burst_step (mkBurst s l st n w) (mkBurst (quiesce s) l st n w)
  | bu_abort s l st n w : burst_step (mkBurst s l st n w) (mkBurst s [] st n false)
  | bu_trigger m s l st n w : below_end s → let r := trigger m s in
      burst_step (mkBurst s l st n w) (mkBurst r.2 (launched r.1 l) (logged r.1 st) (counted r.1 n) (rearmed r.1 w))
  | bu_connected g s l st n w : burst_step (mkBurst s l st n w) (mkBurst (mark_connected g s).2 l st n w)
  | bu_finish t lane s l1 l2 st n w : below_end s → let r := finish_pass_lane t lane s in
      burst_step (mkBurst s (l1 ++ (t, lane) :: l2) st n w) (mkBurst r.2 (launched r.1 (l1 ++ l2)) (logged r.1 st) n (rearmed r.1 w)).
Definition start_burst : BurstSys := mkBurst default_pc [] [] 0 true.

Definition active s : bool := match burst_phase s with FirstPass | FollowUp => true | _ => false end.
Definition owed (s : PostConnectState M) : nat := match burst_phase s with FirstPass => 1 | _ => 0 end.

Record burst_ok (x : BurstSys) : Prop := {
  bo_range : 0 <= session_generation (bs_state x) ∧ 0 <= connection_epoch (bs_state x);
  bo_started g e p : (g, e, p) ∈ bs_started x → e <= connection_epoch (bs_state x);
  bo_distinct : NoDup (bs_started x);
  bo_claims t : in_flight_metadata (bs_state x) = Some t ∨ in_flight_access (bs_state x) = Some t → t = pc_token (bs_state x);
  bo_active : active (bs_state x) = true → bs_whole x = true → is_Some (paired_instance_id (bs_state x)) ∧
    (is_Some (in_flight_metadata (bs_state x)) ∨ is_Some (in_flight_access (bs_state x)));
  bo_running : bs_whole x = true →
    (∀ t, in_flight_metadata (bs_state x) = Some t → (t, true) ∈ bs_lanes x) ∧
    (∀ t, in_flight_access (bs_state x) = Some t → (t, false) ∈ bs_lanes x);
  bo_count : (length (bs_started x) + owed (bs_state x) <= 2 * bs_bursts x)%nat }.

(** A state with no burst under way and a later epoch. *)
Lemma ok_rest x s lanes :
  burst_ok x → 0 <= session_generation s → connection_epoch (bs_state x) <= connection_epoch s →
  in_flight_metadata s = None → in_flight_access s = None → active s = false →
  burst_ok (mkBurst s lanes (bs_started x) (bs_bursts x) (bs_whole x)).
Proof.
  intros [] Hg He Hm Ha Hact. split; cbn; rewrite ?Hm, ?Ha; try done.
  - lia.
  - intros g e p Hin. specialize (bo_started0 g e p Hin). lia.
  - by intros t [|].
  - congruence.
  - assert (owed s = 0)%nat as -> by (unfold owed, active in *; by destruct (burst_phase s)). lia.
Qed.
(** A pass started. *)
Lemma ok_pass s started phase lanes n :
  0 <= session_generation s → 0 <= connection_epoch s → (∀ g e p, (g, e, p) ∈ started → e <= connection_epoch s) → NoDup started →
  connection_epoch s < u64_max → is_Some (paired_instance_id s) → phase = FirstPass ∨ phase = FollowUp →
  (length started + 1 + (if phase is FirstPass then 1 else 0) <= 2 * n)%nat →
  let r := start_pass phase s in
  burst_ok (mkBurst r.1 (launched (Some r.2) lanes) (logged (Some r.2) started) n true).
Proof.
  intros Hs He Hst Hnd Hr Hp Hph Hn. cbn. rewrite wrap_u64_id by widths. split; cbn; try done.
  - lia.
  - intros g e p [[= -> -> ->]|Hin]%elem_of_cons; [lia|]. specialize (Hst g e p Hin). lia.
  - apply NoDup_cons. split; [|done]. intros Hin. apply Hst in Hin. lia.
  - by intros t [[= <-]|[= <-]].
  - intros _ _. split; [done|left; by eexists].
  - intros _. split; intros t [= <-]; set_solver.
  - unfold owed. cbn. destruct Hph as [-> | ->]; lia.
Qed.

Lemma disconnect_claims x g :
  burst_ok x → session_generation (bs_state x) = g →
  in_flight_metadata (mark_session_disconnected g (bs_state x)) = None ∧ in_flight_access (mark_session_disconnected g (bs_state x)) = None.
Proof.
  intros [] Hg. unfold mark_session_disconnected. rewrite Hg, Z.eqb_refl. cbn.
  split; [destruct (in_flight_metadata _) as [[[a b] c]|] eqn:Hc|destruct (in_flight_access _) as [[[a b] c]|] eqn:Hc]; try done.
  - pose proof (bo_claims0 _ (or_introl eq_refl)) as [= -> _ _]. by rewrite Hg, Z.eqb_refl.
  - pose proof (bo_claims0 _ (or_intror eq_refl)) as [= -> _ _]. by rewrite Hg, Z.eqb_refl.
Qed.
Lemma ok_disconnect s l st n w g :
  below_end s → burst_ok (mkBurst s l st n w) → burst_ok (mkBurst (mark_session_disconnected g s) l st n w).
Proof.
  intros [_ He] Hok. destruct (Z.eqb_spec (session_generation s) g) as [Hg|Hg].
  2: { unfold mark_session_disconnected. assert (session_generation s =? g = false) as -> by by apply Z.eqb_neq. done. }
  destruct (disconnect_claims _ g Hok Hg) as [Hm Ha]. cbn in Hm, Ha. destruct (bo_range _ Hok) as [R1 R2]. cbn in R1, R2.
  apply (ok_rest (mkBurst s l st n w)); try done; unfold mark_session_disconnected; rewrite Hg, Z.eqb_refl; cbn; [lia|rewrite wrap_u64_id by widths; lia|done].
Qed.
Lemma ok_forget s l st n w : burst_ok (mkBurst s l st n w) → burst_ok (mkBurst (forget_instance s) l st n false).
Proof. intros []. by split. Qed.
Lemma ok_trigger m s l st n w :
  below_end s → burst_ok (mkBurst s l st n w) → let r := trigger m s in
  burst_ok (mkBurst r.2 (launched r.1 l) (logged r.1 st) (counted r.1 n) (rearmed r.1 w)).
Proof.
  intros [_ He] Hok. cbn zeta. unfold trigger. destruct (paired_instance_id s) as [i|] eqn:Hp; [|done]. destruct (Hok) as [R St D C A W N]. cbn in *.
  assert (Hgo : owed s = 0%nat → burst_ok (mkBurst (start_pass FirstPass s).1 (launched (Some (start_pass FirstPass s).2) l)
    (logged (Some (start_pass FirstPass s).2) st) (S n) true)).
  { intros Ho. apply (ok_pass s st FirstPass l (S n)); try done; try lia; by left. }
  assert (Hkeep : active s = true → burst_ok (mkBurst (mkPc (session_generation s) (connection_epoch s) (last_connected_epoch s) (pc_pairing_generation s) (paired_instance_id s)
         (in_flight_metadata s) (Some m) (last_published_metadata s) (in_flight_access s) true (burst_phase s)) l st n w)).
  { intros Ha. by split. }
  destruct (burst_phase s) eqn:Hph.
  - apply Hgo. unfold owed. by rewrite Hph.
  - cbn. rewrite <- Hp. apply Hkeep. unfold active. by rewrite Hph.
  - cbn. rewrite <- Hp. apply Hkeep. unfold active. by rewrite Hph.
  - apply Hgo. unfold owed. by rewrite Hph.
Qed.
Lemma ok_connected g s l st n w : burst_ok (mkBurst s l st n w) → burst_ok (mkBurst (mark_connected g s).2 l st n w).
Proof. intros Hok. unfold mark_connected. destruct (_ || _); [done|]. destruct Hok. by split. Qed.

(** The lanes that others still claim outlive the end of a lane. *)
Lemma still_running t lane t' lane' (l1 l2 : list (Token * bool)) :
  (t', lane') ∈ l1 ++ (t, lane) :: l2 → t' ≠ t ∨ lane' ≠ lane → (t', lane') ∈ l1 ++ l2.
Proof. set_solver. Qed.
Lemma ok_finish t lane s l1 l2 st n w :
  below_end s → burst_ok (mkBurst s (l1 ++ (t, lane) :: l2) st n w) → let r := finish_pass_lane t lane s in
  burst_ok (mkBurst r.2 (launched r.1 (l1 ++ l2)) (logged r.1 st) n (rearmed r.1 w)).
Proof.
  intros [_ He] Hok. cbn zeta. destruct (Hok) as [R St D C A W N]. cbn in *. unfold finish_pass_lane.
  case_bool_decide as Ht.
  { split; try done. cbn. intros Hw. destruct (W Hw) as [W1 W2]. split; intros t' Ht'; (eapply still_running; [by eauto|left]).
    - rewrite (C t') by auto. done.
    - rewrite (C t') by auto. done. }
  case_bool_decide as Hc.
  { split; try done. cbn. intros Hw. destruct (W Hw) as [W1 W2]. split; intros t' Ht'; (eapply still_running; [by eauto|]); destruct lane; try (by right);
      destruct Hc; rewrite Ht'; f_equal; rewrite (C t') by auto; exact Ht. }
  set (s1 := mkPc (session_generation s) _ _ _ _ _ _ _ _ _ _).
  destruct (bool_decide (is_Some (in_flight_metadata s1)) || bool_decide (is_Some (in_flight_access s1))) eqn:Hlast.
  { apply orb_true_iff in Hlast. rewrite !bool_decide_eq_true in Hlast. split; cbn; try done.
    - intros t' Ht'. apply C. destruct lane; naive_solver.
    - intros Ha Hw. destruct (A Ha Hw) as [A1 _]. split; [done|exact Hlast].
    - intros Hw. destruct (W Hw) as [W1 W2]. split; intros t' Ht'; destruct lane; try done; (eapply still_running; [by eauto|by right]). }
  apply orb_false_iff in Hlast. rewrite !bool_decide_eq_false in Hlast. destruct Hlast as [Hm Ha].
  apply eq_None_not_Some in Hm, Ha.
  assert (Hsettle : burst_ok (mkBurst (mkPc (session_generation s1) (wrap_u64 (connection_epoch s1 + 1)) (Some (wrap_u64 (connection_epoch s1 + 1)))
     (pc_pairing_generation s1) (paired_instance_id s1) (in_flight_metadata s1) (pending_metadata s1) (last_published_metadata s1) (in_flight_access s1)
     (pending_access_trigger s1) Quiesced) (l1 ++ l2) st n w)).
  { apply (ok_rest (mkBurst s (l1 ++ (t, lane) :: l2) st n w)); try done; cbn; rewrite ?wrap_u64_id by widths; lia. }
  assert (Hph : burst_phase s1 = burst_phase s) by done. destruct (burst_phase s1) eqn:Hp1; cbn [negb].
  - apply (ok_rest (mkBurst s (l1 ++ (t, lane) :: l2) st n w)); try done; try (cbn; lia). unfold active. cbn. by rewrite <- Hph.
  - destruct (_ || _); [|exact Hsettle]. destruct (paired_instance_id s1) as [i|] eqn:Hi1.
    2: { assert (Hw : w = false).
         { destruct w; [|done]. destruct (A ltac:(unfold active; by rewrite <- Hph) eq_refl) as [[i Hi] _]. change (paired_instance_id s = None) in Hi1. congruence. }
         subst w. split; cbn; try done. intros t'. change (in_flight_metadata s1 = Some t' ∨ in_flight_access s1 = Some t' → t' = pc_token s1). rewrite Hm, Ha. by intros [|]. }
    apply (ok_pass s1 st FollowUp (l1 ++ l2) n); try done; try (cbn; lia); [by right|].
    unfold owed in N. rewrite <- Hph in N. cbn in *. lia.
  - exact Hsettle.
  - apply (ok_rest (mkBurst s (l1 ++ (t, lane) :: l2) st n w)); try done; try (cbn; lia). unfold active. cbn. by rewrite <- Hph.
Qed.
Lemma ok_step x y : burst_step x y → burst_ok x → burst_ok y.
Proof.
  intros Hs Hok. destruct Hs as [g i s l st n w Hb|g s l st n w Hb|s l st n w|s l st n w Hb|s l st n w|s l st n w|m s l st n w Hb|g s l st n w|t lane s l1 l2 st n w Hb].
  - destruct Hb. destruct (bo_range _ Hok). cbn in *. apply (ok_rest (mkBurst s l st n w)); try done; cbn; rewrite wrap_u64_id by widths; lia.
  - by apply ok_disconnect.
  - by eapply ok_forget.
  - destruct Hb. destruct (bo_range _ Hok). cbn in *. apply (ok_rest (mkBurst s l st n w)); try done; cbn; rewrite wrap_u64_id by widths; lia.
  - destruct Hok as [R St D C A W N]. split; try done. cbn in *. unfold owed in *. cbn. lia.
  - destruct Hok. by split.
  - by apply ok_trigger.
  - by apply ok_connected.
  - by apply ok_finish.
Qed.
Lemma burst_reachable_ok x : rtc burst_step start_burst x → burst_ok x.
Proof.
  assert (H0 : burst_ok start_burst).
  { split; cbn; try done; [by intros ? ? ? ?%elem_of_nil|constructor|by intros t [|]]. }
  intros Hr. revert H0. induction Hr as [|x y z Hs _ IH]; [done|]. intros Hx. apply IH. by eapply ok_step.
Qed.

(** C34. Whatever the order of connections, disconnections, sessions, triggers
    and late completions: passes never share a token and an event starts at
    most two of them; only a pass under the current token holds a lane, so a
    completion that comes late is ignored; and a burst under way always has a
    lane still running that will settle it (unless its lanes were aborted or a
    shutdown forgot the journal under it). The lock sections of a shutdown, of a
    connection and of a trigger are steps of their own. *)
Theorem bursts_are_bounded_and_fenced x :
  rtc burst_step start_burst x →
  NoDup (bs_started x) ∧ (length (bs_started x) <= 2 * bs_bursts x)%nat ∧
  (∀ t, in_flight_metadata (bs_state x) = Some t ∨ in_flight_access (bs_state x) = Some t → t = pc_token (bs_state x)) ∧
  (∀ t lane, t ≠ pc_token (bs_state x) → finish_pass_lane t lane (bs_state x) = (None, bs_state x)) ∧
  (active (bs_state x) = true → bs_whole x = true → ∃ lane, (pc_token (bs_state x), lane) ∈ bs_lanes x ∧
     (if lane : bool then in_flight_metadata (bs_state x) else in_flight_access (bs_state x)) = Some (pc_token (bs_state x))).
Proof.
  intros Hr. destruct (burst_reachable_ok _ Hr) as [R St D C A W N]. split_and!; [done|lia|done| |].
  - intros t lane Ht. unfold finish_pass_lane. by rewrite bool_decide_eq_true_2 by done.
  - intros Ha Hw. destruct (W Hw) as [W1 W2]. destruct (A Ha Hw) as [_ [[t Ht]|[t Ht]]].
    + exists true. rewrite <- (C t) by auto. auto.
    + exists false. rewrite <- (C t) by auto. auto.
Qed.

(** What comes in during a first pass is not forgotten: the end of its last
    lane starts a pass under a token of its own. *)
Lemma late_input_gets_a_follow_up x t lane :
  rtc burst_step start_burst x → below_end (bs_state x) → is_Some (paired_instance_id (bs_state x)) →
  burst_phase (bs_state x) = FirstPass → pending_access_trigger (bs_state x) = true →
  (if lane : bool then in_flight_metadata (bs_state x) else in_flight_access (bs_state x)) = Some t →
  (if lane then in_flight_access (bs_state x) else in_flight_metadata (bs_state x)) = None →
  ∃ t', (finish_pass_lane t lane (bs_state x)).1 = Some t' ∧ t' ∉ bs_started x.
Proof.
  intros Hr [_ He] [i Hi] Hph Hpe Hc Ho. destruct (burst_reachable_ok _ Hr) as [R St D C A W N].
  assert (t = pc_token (bs_state x)) as -> by (apply C; destruct lane; auto).
  exists (session_generation (bs_state x), connection_epoch (bs_state x) + 1, pc_pairing_generation (bs_state x)). split; [|intros Hin; apply St in Hin; lia].
  unfold finish_pass_lane. rewrite bool_decide_eq_false_2 by (intros Hx; by apply Hx). rewrite Hc. rewrite bool_decide_eq_false_2 by (intros Hx; by apply Hx).
  destruct lane; cbn; rewrite Ho; cbn; rewrite Hph, Hpe, Hi, orb_true_r; cbn; by rewrite wrap_u64_id by widths.
Qed.
End system.

(** A trigger while the first pass runs, and a completion that comes late. *)
Definition demo_pc0 : PostConnectState nat := (begin_session "gen" "journal" default_pc).2.
Definition demo_pc1 : PostConnectState nat := (trigger 0%nat (mark_connected 1 demo_pc0).2).2.
Definition demo_pc2 : PostConnectState nat := (trigger 1%nat demo_pc1).2.
Definition demo_token : Token := (1, 2, "gen"%string).
Definition demo_pc3 : PostConnectState nat := (finish_pass_lane demo_token true demo_pc2).2.
Definition demo_pc4 : PostConnectState nat := (finish_pass_lane demo_token false demo_pc3).2.
Lemma bursts_are_bounded_and_fenced_witness :
  pc_token demo_pc4 = (1, 3, "gen"%string) ∧ burst_phase demo_pc4 = FollowUp ∧
  NoDup [(1, 3, "gen"%string); demo_token] ∧ finish_pass_lane demo_token true demo_pc4 = (None, demo_pc4).
Proof.
  assert (Hr : rtc burst_step start_burst (mkBurst demo_pc4 [((1, 3, "gen"%string), true); ((1, 3, "gen"%string), false)] [(1, 3, "gen"%string); demo_token] 1 true)).
  { eapply rtc_l; [apply (bu_begin "gen" "journal"); split; vm_compute; reflexivity|].
    eapply rtc_l; [apply (bu_connected 1)|].
    eapply rtc_l; [apply (bu_trigger 0%nat); split; vm_compute; reflexivity|].
    eapply rtc_l; [apply (bu_trigger 1%nat); split; vm_compute; reflexivity|].
    eapply rtc_l; [apply (bu_finish demo_token true demo_pc2 [] [(demo_token, false)]); split; vm_compute; reflexivity|].
    eapply rtc_once. apply (bu_finish demo_token false demo_pc3 [] []). split; vm_compute; reflexivity. }
  destruct (bursts_are_bounded_and_fenced _ Hr) as (Hn & _ & _ & Hf & _). split_and!; [reflexivity|reflexivity|exact Hn|]. apply (Hf demo_token true). discriminate.
Defined.
