(* ===== verification/RelayAccess.v ===== *)
(** * Relay access (crates/pl-transport-win/src/post_connect.rs)

    What the journal answers about relay access, and how the answer reaches
    the pairing file and the live client. The operations run one at a time,
    under the publication lock; the file system is that of [OwnerFs], the fence
    that of [Burst]. Reading the answer, the claims of a token and building a
    transport are third-party code and parameters. *)
From Stdlib Require Import Ascii String.
From S2P Require Import Prelude RustStr PauseStore Model Ingest Transport OwnerFs Paired PairedLogic PairedSave PairedOpen Token Burst OwnerDemo.

Local Open Scope list_scope.

#[global] Instance CasKey_eq_dec : EqDecision CasKey.
Proof. solve_decision. Defined.

(** ** The answer *)

Inductive RelayAccessValidationError : Type := EnvelopeError | ProtocolError | IdentityError | OriginError | ClaimsError.
Record ValidatedReadyAccess : Type := mkReady {
  va_relay_origin : string; va_instance_id : string; va_device_token : string; va_expires_at : Z }.
Inductive RelayAccessEnvelope : Type :=
  | EnvelopeReady (protocol_version : Z) (relay_origin instance_id device_token expires_at : string)
  | EnvelopeNotConfigured (protocol_version : Z).

Class RelayLib := {
  envelope_of : string → option RelayAccessEnvelope;
  dial_url_ok : string → bool;
  (** The expiry a token claims, if it is for this journal and in date. *)
  claims_exp : RelayAccessEnvelope → string → Z → option Z;
  (** Whether the shared transports for a credential can be constructed. *)
  constructs : Credential → bool
}.

Section access.
Context `{PairLib} `{RelayLib}.

Definition validate_relay_access_response (body paired_instance_id : string) (now_secs : Z)
    : result (option ValidatedReadyAccess) RelayAccessValidationError :=
  match envelope_of body with
  | None => Err EnvelopeError
  | Some (EnvelopeNotConfigured v) => if (v =? 2)%Z then Ok None else Err ProtocolError
  | Some (EnvelopeReady v origin instance_id token expires_at) =>
    if negb (v =? 2)%Z then Err ProtocolError
    else if negb (String.eqb instance_id paired_instance_id) then Err IdentityError
    else if negb (dial_url_ok origin) then Err OriginError
    else
      match claims_exp (EnvelopeReady v origin instance_id token expires_at) paired_instance_id now_secs with
      | None => Err ClaimsError
      | Some exp => Ok (Some (mkReady origin paired_instance_id token exp))
      end
  end.

(** ** The live client *)

Definition set_relay (origin token : option string) (expires : option Z) (c : Credential) : Credential :=
  mkCredential (client_key_pem c) (client_cert_pem c) (ca_chain_pem c) (cr_ca_fp_prefix c) (cr_instance_id c) (home_label c)
    (endpoints c) origin token expires.
Definition clear_relay : Credential → Credential := set_relay None None None.
Definition has_relay (c : Credential) : bool := bool_decide (is_Some (relay_origin c)) && bool_decide (is_Some (device_token c)).

(** [ObserverClient::build]: a client needs an address or a relay. *)
Definition relay_ready (c : Credential) : bool :=
  match relay_origin c, device_token c with Some o, Some t => negb (is_empty o) && negb (is_empty t) | _, _ => false end.
Definition builds (c : Credential) : bool :=
  (match endpoints c with [] => relay_ready c | _ => true end) && constructs c.
Definition rebuild_from (incumbent access : Credential) : Credential :=
  mkCredential (client_key_pem incumbent) (client_cert_pem incumbent) (ca_chain_pem incumbent) (cr_ca_fp_prefix incumbent)
    (cr_instance_id incumbent) (home_label incumbent) (endpoints access) (relay_origin access) (device_token access) (device_token_expires_at access).

(** The slot (its fence, the live client's credential, key and incarnation)
    and what the controller remembers. *)
Record Access : Type := mkAccess {
  ac_fence : RelayFence; ac_live : Credential; ac_cas : option CasKey; ac_incarnation : Z;
  ac_pending_clear : option CasKey; ac_token : Burst.Token }.
Definition set_fence (f : RelayFence) (x : Access) : Access :=
  mkAccess f (ac_live x) (ac_cas x) (ac_incarnation x) (ac_pending_clear x) (ac_token x).
Definition set_pending_clear (p : option CasKey) (x : Access) : Access :=
  mkAccess (ac_fence x) (ac_live x) (ac_cas x) (ac_incarnation x) p (ac_token x).
Definition disable_relay (x : Access) : Access := set_fence (disable (ac_fence x)) x.
Definition slot_replace (c : Credential) (cas : CasKey) (eligibility : RelayEligibility) (x : Access) : Access :=
  let c' := rebuild_from (ac_live x) c in
  match replace_from_incumbent (has_relay c) (builds c') eligibility (ac_fence x) with
  | (Some incarnation, f) => mkAccess f c' (Some cas) incarnation (ac_pending_clear x) (ac_token x)
  | (None, f) => set_fence f x
  end.

(** ** Applying an answer *)

Context (has_path : bool).

Definition reconcile_from_disk (x : Access) : OIO Access :=
  if negb has_path then mret x
  else
    r ← load;
    match r with
    | Err _ => mret x
    | Ok state =>
      match credential state with
      | None => mret x
      | Some c =>
        if negb (String.eqb (pairing_generation (client_cert_pem c)) (pairing_generation (client_cert_pem (ac_live x)))) then mret x
        else
          let cas := mkCasKey (pairing_generation (client_cert_pem c)) (access_mutation_generation state) in
          let is_clear := bool_decide (relay_origin c = None) && bool_decide (device_token c = None) && bool_decide (device_token_expires_at c = None) in
          let x := slot_replace c cas FromCredential x in
          mret (match ac_pending_clear x with
                | Some p =>
                  if String.eqb (ck_pairing p) (ck_pairing cas) && (ck_access p <? ck_access cas)%Z
                  then set_pending_clear (if is_clear then Some cas else None) x else x
                | None => x
                end)
      end
    end.

Definition retry_pending_durable_clear_owned (x : Access) : OIO Access :=
  if fence_retired (ac_fence x) then mret x
  else
    match ac_pending_clear x with
    | Some cas_key =>
      if negb has_path then mret x
      else
        r ← mutate cas_key (λ c, Ok (clear_relay c));
        match r with
        | Ok g =>
          mret (slot_replace (clear_relay (ac_live x)) (mkCasKey (ck_pairing cas_key) g) FromCredential (set_pending_clear None x))
        | Err (SDurabilityUncertain _) => reconcile_from_disk x
        | Err _ => mret x
        end
    | None => mret x
    end.

(** [now] is read before the file is touched and [now'] while it is changed;
    [still] is whether the attempt is then still current. *)
Definition apply_relay_access_outcome_owned (validated : option ValidatedReadyAccess) (token : Burst.Token) (captured : CasKey)
    (now now' : Z) (still : bool) (x : Access) : OIO Access :=
  if fence_retired (ac_fence x) || bool_decide (ac_token x ≠ token) || bool_decide (ac_cas x ≠ Some captured) then mret x
  else
    match validated with
    | None =>
      let x := disable_relay x in
      let x := slot_replace (clear_relay (ac_live x)) captured FromCredential x in
      let x := disable_relay x in
      if negb has_path then mret x
      else
        r ← mutate captured (λ c, Ok (clear_relay c));
        match r with
        | Ok g => mret (slot_replace (ac_live x) (mkCasKey (ck_pairing captured) g) FromCredential (set_pending_clear None x))
        | Err (SWriteFailed _) => mret (set_pending_clear (Some captured) x)
        | Err (SDurabilityUncertain _) => reconcile_from_disk (set_pending_clear (Some captured) x)
        | Err _ => mret x
        end
    | Some ready =>
      if (va_expires_at ready <=? now)%Z then mret x
      else if bool_decide (relay_origin (ac_live x) = Some (va_relay_origin ready)) && bool_decide (device_token (ac_live x) = Some (va_device_token ready)) &&
              bool_decide (device_token_expires_at (ac_live x) = Some (va_expires_at ready)) then mret x
      else if negb has_path then mret x
      else
        r ← mutate captured (λ c,
              if negb still || (va_expires_at ready <=? now')%Z then Err SCasMismatch
              else Ok (set_relay (Some (va_relay_origin ready)) (Some (va_device_token ready)) (Some (va_expires_at ready)) c));
        match r with
        | Ok g =>
          let c := set_relay (Some (va_relay_origin ready)) (Some (va_device_token ready)) (Some (va_expires_at ready)) (ac_live x) in
          let x := slot_replace c (mkCasKey (ck_pairing captured) g) FromCredential x in
          mret (if bool_decide (ac_pending_clear x = Some captured) then set_pending_clear None x else x)
        | Err (SDurabilityUncertain _) => reconcile_from_disk x
        | Err _ => mret x
        end
    end.
End access.

(** ** Which relay access is in use *)

Section in_use.
Context `{PairLib} `{!PairLaws} `{RelayLib}.
Context (has_path : bool).

(** The live client can dial the relay. *)
Definition usable (x : Access) : Prop := permit (ac_fence x) (ac_incarnation x) = PermitAllow.
(** The pairing file holds this relay access, for this pairing. *)
Definition on_record (f : gmap string string) (c : Credential) : Prop :=
  ∃ s' c' t t', stored_at PAIRED_STATE_FILE_NAME f = Some (Some s') ∧ credential s' = Some c' ∧
    pairing_generation (client_cert_pem c') = pairing_generation (client_cert_pem c) ∧ relay_origin c' = relay_origin c ∧
    device_token c = Some t ∧ device_token c' = Some t' ∧ unwrap_pure t' = Some t ∧ device_token_expires_at c' = device_token_expires_at c.
Definition in_place (x : Access) : Prop :=
  (0 <= fence_incarnation (ac_fence x) ∧ fence_incarnation (ac_fence x) + 4 < u64_max)%Z ∧
  ∀ k, ac_cas x = Some k → ck_pairing k = pairing_generation (client_cert_pem (ac_live x)).

Lemma disabled_unusable x : fence_disabled (ac_fence x) = true → ¬ usable x.
Proof. unfold usable, permit. intros ->. by destruct (fence_retired _). Qed.
Lemma rebuild_clear c : rebuild_from c (clear_relay c) = clear_relay c.
Proof. by destruct c. Qed.

(** A replacement is in place with the relay enabled if it has one, or nothing
    happened. *)
Lemma slot_replace_spec c cas x :
  (0 <= fence_incarnation (ac_fence x) < u64_max)%Z →
  let x' := slot_replace c cas FromCredential x in
  (x' = x ∧ (fence_retired (ac_fence x) = true ∨ builds (rebuild_from (ac_live x) c) = false)) ∨
  (ac_live x' = rebuild_from (ac_live x) c ∧ ac_pending_clear x' = ac_pending_clear x ∧
   fence_retired (ac_fence x') = fence_retired (ac_fence x) ∧
   fence_incarnation (ac_fence x') = (fence_incarnation (ac_fence x) + 1)%Z ∧ (usable x' → has_relay c = true)).
Proof.
  intros Hr. cbn zeta. unfold slot_replace, replace_from_incumbent. destruct (fence_retired (ac_fence x)) eqn:Hret; [left; split; [by destruct x|auto]|].
  destruct (builds _) eqn:Hb; cbn [negb]; [|left; split; [by destruct x|auto]]. unfold advance_from. rewrite Z.eqb_refl. right. cbn.
  rewrite wrap_u64_id by widths. split_and!; try done. unfold usable, permit. cbn. rewrite Hret. by destruct (has_relay c).
Qed.

Lemma on_record_loaded f s c live :
  loaded_token f s → credential s = Some c → has_relay c = true →
  pairing_generation (client_cert_pem c) = pairing_generation (client_cert_pem live) → on_record f (rebuild_from live c).
Proof.
  intros Hl Hc Hr Hg. destruct (Hl c Hc) as (s' & c' & Hs & Hc' & (Hcert & Horig & Htok) & _).
  unfold has_relay in Hr. rewrite andb_true_iff, !bool_decide_eq_true in Hr. destruct Hr as [_ [t Ht]].
  destruct (Htok t Ht) as (t' & Ht' & Hu & Hx). exists s', c', t, t'. cbn. split_and!; try done; congruence.
Qed.
(** What is read from the file is in use afterwards; a clearing that is to be
    retried stays so unless the file is newer than it. *)
Definition taken_from_disk (x : Access) (o : Owned) (x' : Access) (o' : Owned) : Prop :=
  o' = o ∧ on_record (o_files o') (ac_live x') ∧
  ∀ p, ac_pending_clear x = Some p → (∀ s', stored_at PAIRED_STATE_FILE_NAME (o_files o) = Some (Some s') → (access_mutation_generation s' <= ck_access p)%Z) →
    ac_pending_clear x' = Some p.
Lemma oht_reconcile_disk x o :
  (0 <= fence_incarnation (ac_fence x) < u64_max)%Z →
  oht (λ o', o' = o) (reconcile_from_disk has_path x)
    (λ x' o', usable x' → (usable x ∧ ac_live x' = ac_live x) ∨ taken_from_disk x o x' o') (λ _, True).
Proof.
  intros Hr. unfold reconcile_from_disk. destruct has_path; cbn [negb]; [|apply oht_ret; auto].
  eapply oht_bind; [eapply oht_weaken; [apply (oreads_load_token o)|done|intros r o' Hx; exact Hx|done]|]. intros [s|e]; [|apply oht_ret; auto].
  destruct (credential s) as [c|] eqn:Hc; [|apply oht_ret; auto]. destruct (String.eqb_spec (pairing_generation (client_cert_pem c)) (pairing_generation (client_cert_pem (ac_live x)))) as [Hg|];
    [|apply oht_ret; auto]. cbn [negb]. apply oht_ret. intros o' [-> Hl].
  destruct (Hl _ Hc) as (s' & _ & Hs' & _ & _ & Hacc).
  set (cas := mkCasKey _ _). set (is_clear := _ && _ && _). clearbody is_clear. destruct (slot_replace_spec c cas x Hr) as [[-> _]|(Hlive & Hpend & _ & _ & Hus)]; cbn zeta in *.
  - destruct (ac_pending_clear x) as [p|]; [|auto]. destruct (_ && _); auto.
  - rewrite Hpend. intros Hu. right. unfold taken_from_disk. destruct (ac_pending_clear x) as [p|] eqn:Hp; [destruct (_ && _) eqn:Hn|]; cbn -[slot_replace] in *; (split; [done|]);
      (split; [rewrite Hlive; apply (on_record_loaded _ s); auto|]); [|congruence..].
    intros p' [= <-] Hle. specialize (Hle _ Hs'). apply andb_true_iff in Hn as [_ Hn]. apply Z.ltb_lt in Hn. lia.
Qed.

Lemma oht_any {A} (m : OIO A) o : oht (λ o', o' = o) m (λ _ _, True) (λ _, True).
Proof. intros w _. by destruct (m w) as [[a|] w']. Qed.

(** A change of the relay access that succeeds is in the file. *)
Lemma saved_relay o o' k s c origin t exp :
  Saved o (set_access k (set_credential (Some (set_relay (Some origin) (Some t) (Some exp) c)) s)) o' → from_utf8 t = Some t →
  ∀ live, pairing_generation (client_cert_pem c) = pairing_generation (client_cert_pem live) →
  on_record (o_files o') (set_relay (Some origin) (Some t) (Some exp) live).
Proof.
  intros (bytes & s' & Hb & (p & a & _ & _ & _ & (Hc & _ & _)) & [_ Hd]) Hu live Hg.
  assert (Hm : credential (merge p a (set_access k (set_credential (Some (set_relay (Some origin) (Some t) (Some exp) c)) s))) = Some (set_relay (Some origin) (Some t) (Some exp) c)).
  { by destruct (merge_saved p a (set_access k (set_credential (Some (set_relay (Some origin) (Some t) (Some exp) c)) s))) as [-> _]. }
  rewrite Hm in Hc. destruct (credential s') as [c'|] eqn:Hc'; [|done]. destruct Hc as (_ & Ht & He & Hbare). cbn in Ht, He.
  destruct (device_token c') as [t'|] eqn:Ht'; [|done]. destruct c as [k0 cert ch fp iid lb eps ro dt dx], c' as [k1 cert' ch' fp' iid' lb' eps' ro' dt' dx'].
  unfold bare_credential, set_token, set_key in Hbare. cbn in *. injection Hbare as -> -> -> -> -> -> ->.
  eexists s', _, t, t'. split_and!; [unfold stored_at; by rewrite Hd, Hb|exact Hc'|done..|by apply sealed_opens|done].
Qed.
Lemma oht_mutate_ready k origin t exp (blocked : bool) live o :
  from_utf8 t = Some t → ck_pairing k = pairing_generation (client_cert_pem live) →
  oht (λ o', o' = o) (mutate k (λ c, if blocked then Err SCasMismatch else Ok (set_relay (Some origin) (Some t) (Some exp) c)))
    (λ r o', ∀ g, r = Ok g → on_record (o_files o') (set_relay (Some origin) (Some t) (Some exp) live)) (λ _, True).
Proof.
  intros Hu Hk. unfold mutate. eapply oht_try; [eapply oht_weaken; [apply (oreads_map_err STransport _ _ oreads_load_token o)|done|intros r o' Hr; exact Hr|done]| |done].
  intros s. cbn. eapply (oht_pre _ _ (λ o', o' = o)); [|by intros ? [? _]].
  case_bool_decide; [by apply oht_ret|]. destruct (credential s) as [c|] eqn:Hc; [|by apply oht_ret].
  destruct (negb _ || negb _) eqn:Hg; [by apply oht_ret|]. rewrite !orb_false_iff, !negb_false_iff, String.eqb_eq, Z.eqb_eq in Hg. destruct Hg as [Hg Ha].
  destruct blocked; [by apply oht_ret|]. cbv zeta.
  eapply oht_try; [eapply oht_weaken; [apply (oht_save_inner _ o)|done|intros r o' Hr; exact Hr|done]| |done].
  intros u. apply oht_ret. intros o' Hsv g' [= <-]. cbn in Hsv. eapply saved_relay; [exact Hsv|done|]. congruence.
Qed.
Lemma oht_mapped {A E F} (f : E → F) (m : OIO (result A E)) o :
  oht (λ o', o' = o) (map_err f m) (λ r _, ∀ e, r = Err e → ∃ t, e = f t) (λ _, True).
Proof. intros w _. unfold map_err, mbind, oio_bind. destruct (m w) as [[[a|e]|] w']; cbn; [done| |done]. intros e' [= <-]. eauto. Qed.
(** The clearing of the relay access: the file is as it was, or has no token
    left; it is uncertain only if the file was of the expected generation. *)
Definition clear_tried (k : CasKey) (o : Owned) (r : result Z StorageError) (o' : Owned) : Prop :=
  (o_files o' !! PAIRED_STATE_FILE_NAME = o_files o !! PAIRED_STATE_FILE_NAME ∨
   ∃ s', stored_at PAIRED_STATE_FILE_NAME (o_files o') = Some (Some s') ∧ ∀ c, credential s' = Some c → device_token c = None) ∧
  ∀ e, r = Err (SDurabilityUncertain e) → ∃ s', stored_at PAIRED_STATE_FILE_NAME (o_files o) = Some (Some s') ∧ access_mutation_generation s' = ck_access k.
Lemma oht_mutate_clear k o :
  oht (λ o', o' = o) (mutate k (λ c, Ok (clear_relay c))) (clear_tried k o) (λ _, True).
Proof.
  apply oht_both.
  - eapply oht_weaken; [apply (updates_mutate k _ o)|by intros ? ->| |done]. intros r o' (_ & _ & [Hsame|Hnew]); [by left|right].
    destruct Hnew as (st & bytes & s' & (s & c & c' & _ & _ & _ & [= <-] & _ & _ & ->) & Hb & (p & a & _ & _ & _ & (Hc & _ & _)) & Hd).
    exists s'. split; [unfold stored_at; by rewrite Hd, Hb|]. intros c0 Hc0. rewrite Hc0 in Hc.
    match type of Hc with sealed_option (credential (merge p a ?st)) _ => destruct (merge_saved p a st) as [Hm _] end.
    rewrite Hm in Hc. destruct Hc as (_ & Ht & _). cbn in Ht. by destruct (device_token c0).
  - unfold mutate. eapply oht_try; [apply oht_both; [eapply oht_weaken; [apply (oreads_map_err STransport _ _ oreads_load_token o)|done|intros r o' Hr; exact Hr|done]|apply oht_mapped]| |].
    2: { intros e o' [_ He] e' [= ->]. by destruct (He _ eq_refl) as [t ?]. }
    intros s. cbn. apply oht_at. intros o0 [[-> Hl] _]. case_bool_decide; [by apply oht_ret|]. destruct (credential s) as [c|] eqn:Hc; [|by apply oht_ret].
    destruct (negb _ || negb _) eqn:Hg; [by apply oht_ret|]. rewrite !orb_false_iff, !negb_false_iff, Z.eqb_eq in Hg. destruct Hg as [_ Ha].
    destruct (Hl _ Hc) as (s' & _ & Hs' & _ & _ & Hacc). cbv zeta. eapply oht_weaken; [apply (oht_any _ o)|done| |done].
    intros r o' _ e _. exists s'. split; [exact Hs'|congruence].
Qed.

(** An answer for an attempt, or a client, that is no longer current. *)
Definition stale (token : Burst.Token) (captured : CasKey) (x : Access) : Prop :=
  fence_retired (ac_fence x) = true ∨ ac_token x ≠ token ∨ ac_cas x ≠ Some captured.

(** The access in use after a revocation, if any: the clearing could not be
    seen through, the file is as it was and is what the client was built from
    again, and the clearing is to be retried. *)
Definition still_to_clear (captured : CasKey) (o : Owned) (x' : Access) (o' : Owned) : Prop :=
  on_record (o_files o') (ac_live x') ∧ o_files o' !! PAIRED_STATE_FILE_NAME = o_files o !! PAIRED_STATE_FILE_NAME ∧
  ac_pending_clear x' = Some captured.

Lemma oht_revoked x captured o :
  in_place x → fence_retired (ac_fence x) = false → builds (clear_relay (ac_live x)) = true →
  let x3 := disable_relay (slot_replace (clear_relay (ac_live x)) captured FromCredential (disable_relay x)) in
  oht (λ o', o' = o)
    (if negb has_path then mret x3
     else
       r ← mutate captured (λ c, Ok (clear_relay c));
       match r with
       | Ok g => mret (slot_replace (ac_live x3) (mkCasKey (ck_pairing captured) g) FromCredential (set_pending_clear None x3))
       | Err (SWriteFailed _) => mret (set_pending_clear (Some captured) x3)
       | Err (SDurabilityUncertain _) => reconcile_from_disk has_path (set_pending_clear (Some captured) x3)
       | Err _ => mret x3
       end)
    (λ x' o', usable x' → still_to_clear captured o x' o') (λ _, True).
Proof.
  intros [[Hr0 Hr] _] Hret Hb x3.
  assert (Hx3 : fence_disabled (ac_fence x3) = true ∧ has_relay (ac_live x3) = false ∧ (0 <= fence_incarnation (ac_fence x3) < u64_max)%Z).
  { unfold x3. set (x1 := disable_relay x). assert (E1 : fence_incarnation (ac_fence x1) = (fence_incarnation (ac_fence x) + 1)%Z) by (cbn; rewrite wrap_u64_id by widths; done).
    destruct (slot_replace_spec (clear_relay (ac_live x)) captured x1) as [[_ [Hx|Hx]]|(Hlive & _ & _ & Hi & _)]; cbn zeta in *; [lia|cbn in Hx; congruence| |].
    - change (ac_live x1) with (ac_live x) in Hx. rewrite rebuild_clear in Hx. congruence.
    - split_and!; [done|cbn -[slot_replace]; rewrite Hlive; done|cbn -[slot_replace]..]; rewrite wrap_u64_id by widths; lia. }
  clearbody x3. destruct Hx3 as (Hd & Hno & Hinc). pose proof (disabled_unusable x3 Hd) as Hu3.
  destruct has_path eqn:Hpath; cbn [negb]; [|by apply oht_ret]. eapply oht_bind; [apply (oht_mutate_clear captured o)|].
  intros r. apply oht_at. intros o1 [Hfile Hgen]. destruct r as [g|[]]; try (by apply oht_ret).
  - apply oht_ret. intros o' _ Hus. destruct (slot_replace_spec (ac_live x3) (mkCasKey (ck_pairing captured) g) (set_pending_clear None x3) Hinc) as [[Hx _]|(_ & _ & _ & _ & Hx)]; cbn zeta in *.
    + rewrite Hx in Hus. done.
    + apply Hx in Hus. congruence.
  - eapply oht_weaken; [rewrite <- Hpath; apply (oht_reconcile_disk (set_pending_clear (Some captured) x3) o1); done|done| |done].
    intros x' o' Hx Hus. destruct (Hx Hus) as [[? _]|(-> & Hrec & Hp)]; [done|]. destruct Hfile as [Hsame|(s' & Hs' & Hnone)].
    + split_and!; [done..|]. apply Hp; [done|]. intros s' Hs'. destruct (Hgen _ eq_refl) as (s1 & Hs1 & <-). unfold stored_at in Hs', Hs1. rewrite Hsame, Hs1 in Hs'. by injection Hs' as ->.
    + destruct Hrec as (s1 & c1 & t & t' & Hs1 & Hc1 & _ & _ & _ & Ht' & _). rewrite Hs' in Hs1. injection Hs1 as <-. rewrite (Hnone _ Hc1) in Ht'. done.
Qed.

(** C32. Whatever calls fail, an answer about relay access for an attempt that
    is no longer current does nothing. An answer that grants access leaves a
    client that can dial the relay only with access the pairing file holds for
    this pairing, or as it was. After one that revokes access, provided a client
    without relay can be built, the client can dial the relay only if the
    clearing of the file was uncertain and the file is as it was: it then uses
    the access still in the file, and the clearing is kept to be retried. *)
Theorem relay_in_use_is_on_record validated token captured now now' still x o :
  in_place x → (∀ r, validated = Some r → from_utf8 (va_device_token r) = Some (va_device_token r)) →
  (validated = None → builds (clear_relay (ac_live x)) = true) →
  oht (λ o', o' = o) (apply_relay_access_outcome_owned has_path validated token captured now now' still x)
    (λ x' o', (stale token captured x → x' = x) ∧
       (¬ stale token captured x → usable x' →
          match validated with
          | Some _ => on_record (o_files o') (ac_live x') ∨ (usable x ∧ ac_live x' = ac_live x)
          | None => still_to_clear captured o x' o'
          end)) (λ _, True).
Proof.
  intros Hin Hu Hb. unfold apply_relay_access_outcome_owned.
  destruct (fence_retired (ac_fence x) || _ || _) eqn:Hst.
  { apply oht_ret. intros o' _. split; [done|]. intros Hn. destruct Hn. rewrite !orb_true_iff, !bool_decide_eq_true in Hst. unfold stale. tauto. }
  rewrite !orb_false_iff, !bool_decide_eq_false in Hst. destruct Hst as [[Hret Htok] Hcas]. apply dec_stable in Htok, Hcas.
  assert (Hns : ¬ stale token captured x) by (intros [?|[?|?]]; congruence).
  destruct validated as [ready|].
  2: { eapply oht_weaken; [exact (oht_revoked x captured o Hin Hret (Hb eq_refl))|done| |done]. intros x' o' Hx. split; [done|auto]. }
  assert (Hkeep : oht (λ o', o' = o) (mret x) (λ x' o', (stale token captured x → x' = x) ∧ (¬ stale token captured x → usable x' →
     on_record (o_files o') (ac_live x') ∨ (usable x ∧ ac_live x' = ac_live x))) (λ _, True)) by (apply oht_ret; auto).
  destruct (_ <=? _)%Z; [exact Hkeep|]. destruct (_ && _ && _); [exact Hkeep|]. destruct has_path eqn:Hpath; cbn [negb]; [|exact Hkeep].
  destruct Hin as [[Hr0 Hr] Hk]. specialize (Hk _ Hcas). specialize (Hu _ eq_refl).
  eapply oht_bind; [apply (oht_mutate_ready captured _ _ _ _ (ac_live x) o Hu Hk)|]. intros r. apply oht_at. intros o1 Hm.
  destruct r as [g|[]]; try (apply oht_ret; intros o' _; split; [done|by auto]).
  - specialize (Hm g eq_refl). apply oht_ret. intros o' ->. split; [done|]. intros _.
    set (c := set_relay _ _ _ (ac_live x)) in *. cbv zeta.
    destruct (slot_replace_spec c (mkCasKey (ck_pairing captured) g) x ltac:(lia)) as [[-> _]|(Hlive & _)]; cbn zeta in *.
    + case_bool_decide; auto.
    + intros _. left. assert (Hc : rebuild_from (ac_live x) c = c) by (unfold c; by destruct (ac_live x)). rewrite Hc in Hlive. case_bool_decide; cbn -[slot_replace]; by rewrite Hlive.
  - eapply oht_weaken; [rewrite <- Hpath; apply (oht_reconcile_disk x o1); lia|done| |done]. intros x' o' Hx. split; [done|]. intros _ Hus. destruct (Hx Hus) as [[? ?]|(_ & ? & _)]; auto.
Qed.

(** C33. A pairing that has no address on the local network: a client without
    relay cannot be built, so when the journal revokes relay access and the
    clearing of the pairing file succeeds, the client is left able to dial the
    relay, with the access that was revoked. *)
Theorem revoked_relay_comes_back token captured now now' still x w w' g :
  in_place x → ¬ stale token captured x → endpoints (ac_live x) = [] → relay_ready (ac_live x) = true → constructs (ac_live x) = true →
  fence_ineligible (ac_fence x) = 0%Z →
  mutate captured (λ c, Ok (clear_relay c)) w = (Some (Ok g), w') →
  ∃ x', apply_relay_access_outcome_owned true None token captured now now' still x w = (Some x', w') ∧ usable x' ∧ ac_live x' = ac_live x.
Proof.
  intros [[Hr0 Hr] _] Hns He Hrr Hc Hin Hm. unfold stale in Hns. apply Decidable.not_or in Hns as [Hret Hns]. apply Decidable.not_or in Hns as [Ht Hk].
  apply not_true_is_false in Hret. apply dec_stable in Ht, Hk.
  assert (Hb : builds (clear_relay (ac_live x)) = false) by (unfold builds; cbn; by rewrite He).
  assert (Hl : rebuild_from (ac_live x) (ac_live x) = ac_live x) by (by destruct (ac_live x)).
  assert (Hb' : builds (ac_live x) = true) by (unfold builds; by rewrite He, Hrr, Hc).
  assert (Hh : has_relay (ac_live x) = true) by (unfold relay_ready in Hrr; unfold has_relay; by destruct (relay_origin _), (device_token _)).
  unfold apply_relay_access_outcome_owned. rewrite Hret, Ht, Hk, !bool_decide_eq_false_2 by (intros ?; congruence). cbn [orb negb].
  assert (Hs : slot_replace (clear_relay (ac_live (disable_relay x))) captured FromCredential (disable_relay x) = disable_relay x).
  { unfold slot_replace, replace_from_incumbent. cbn -[builds]. rewrite Hret. rewrite (rebuild_clear (ac_live x)), Hb. done. }
  rewrite Hs. unfold mbind, oio_bind. rewrite Hm. eexists. split; [reflexivity|].
  unfold slot_replace, replace_from_incumbent. cbn -[builds rebuild_from has_relay]. rewrite Hret, Hl, Hb', Hh. cbn [negb]. unfold advance_from.
  cbn -[rebuild_from]. rewrite Z.eqb_refl. cbn. set (i := fence_incarnation (ac_fence x)) in *.
  rewrite (wrap_u64_id (i + 1)) by widths. rewrite (wrap_u64_id (i + 1 + 1)) by widths. rewrite (wrap_u64_id (i + 1 + 1 + 1)) by widths. split; [|done].
  apply allows_permit. unfold allows. cbn [ac_fence ac_incarnation fence_retired fence_disabled fence_incarnation fence_ineligible]. rewrite Hret, Hin, Z.eqb_refl. cbn [negb andb]. apply negb_true_iff, Z.eqb_neq. lia.
Qed.
End in_use.

(** ** At work *)

Section demo.
#[local] Existing Instance demo_lib.
#[local] Existing Instance demo_laws.
#[local] Instance demo_relay : RelayLib := {
  envelope_of := λ _, None; dial_url_ok := λ _, true; claims_exp := λ _ _ _, None; constructs := λ _, true }.

(** A pairing with relay access, and these addresses on the local network. *)
Definition demo_reach (eps : list EndpointAddr) (token : string) : Credential :=
  mkCredential "key" "cert" ["ca"] "abcd" "journal" "Home" eps (Some "wss://relay") (Some token) (Some 70%Z).
Definition demo_reached (eps : list EndpointAddr) : Owned :=
  demo_owned (mkPaired (Some (demo_reach eps "token")) 0 None None false ∅ false).
Definition demo_cas : CasKey := mkCasKey "cert" 0.
Definition demo_attempt : Burst.Token := (1, 1, "cert")%Z.
Definition demo_access (eps : list EndpointAddr) : Access :=
  mkAccess (new_fence true) (demo_reach eps "token") (Some demo_cas) 1 None demo_attempt.
Definition demo_ready : ValidatedReadyAccess := mkReady "wss://relay" "journal" "fresh" 90.
Definition demo_apply (validated : option ValidatedReadyAccess) (eps : list EndpointAddr) : option Access * OWorld :=
  apply_relay_access_outcome_owned true validated demo_attempt demo_cas 10 10 true (demo_access eps) (mkOWorld (demo_reached eps) [] []).

(** An address on the local network, and a run in which the move of the staged
    file fails and so does the look for it: the clearing is uncertain. *)
Definition demo_lan : list EndpointAddr := [mkEndpointAddr "10.0.0.2" 7443].
Definition demo_uncertain : option Access * OWorld :=
  apply_relay_access_outcome_owned true None demo_attempt demo_cas 10 10 true (demo_access demo_lan)
    (mkOWorld (demo_reached demo_lan) [Good; Good; Good; Good; Good; Good; Good; Bad; Bad] []).

(** [relay_in_use_is_on_record] where the journal grants new access and no call
    fails: the new access is then the one in use; and where it revokes access
    and the clearing is uncertain: the revoked access is in use again. *)
Lemma relay_in_use_is_on_record_witness :
  (∃ x', (demo_apply (Some demo_ready) []).1 = Some x' ∧ usable x' ∧ device_token (ac_live x') = Some "fresh") ∧
  oht (λ o', o' = demo_reached []) (apply_relay_access_outcome_owned true (Some demo_ready) demo_attempt demo_cas 10 10 true (demo_access []))
    (λ x' o', (stale demo_attempt demo_cas (demo_access []) → x' = demo_access []) ∧
       (¬ stale demo_attempt demo_cas (demo_access []) → usable x' → on_record (o_files o') (ac_live x') ∨
          (usable (demo_access []) ∧ ac_live x' = ac_live (demo_access [])))) (λ _, True) ∧
  (∃ x', demo_uncertain.1 = Some x' ∧ usable x' ∧ ac_live x' = demo_reach demo_lan "token" ∧ ac_pending_clear x' = Some demo_cas) ∧
  oht (λ o', o' = demo_reached demo_lan) (apply_relay_access_outcome_owned true None demo_attempt demo_cas 10 10 true (demo_access demo_lan))
    (λ x' o', (stale demo_attempt demo_cas (demo_access demo_lan) → x' = demo_access demo_lan) ∧
       (¬ stale demo_attempt demo_cas (demo_access demo_lan) → usable x' → still_to_clear demo_cas (demo_reached demo_lan) x' o')) (λ _, True).
Proof.
  split_and!.
  - eexists; split; [vm_compute; reflexivity|vm_compute; done].
  - apply (relay_in_use_is_on_record true (Some demo_ready) demo_attempt demo_cas 10 10 true (demo_access []) (demo_reached [])); [|by intros r [= <-]|done].
    split; [by vm_compute|]. intros k [= <-]. reflexivity.
  - eexists; split; [vm_compute; reflexivity|vm_compute; done].
  - apply (relay_in_use_is_on_record true None demo_attempt demo_cas 10 10 true (demo_access demo_lan) (demo_reached demo_lan)); [|done|done].
    split; [by vm_compute|]. intros k [= <-]. reflexivity.
Defined.

(** [revoked_relay_comes_back] where no call fails: the pairing file has no
    relay access left, and the client has. *)
Lemma revoked_relay_comes_back_witness :
  (∃ s c, stored_at PAIRED_STATE_FILE_NAME (o_files (ow_own (demo_apply None []).2)) = Some (Some s) ∧ credential s = Some c ∧
     device_token c = None ∧ relay_origin c = None) ∧
  ∃ x', demo_apply None [] = (Some x', (demo_apply None []).2) ∧ usable x' ∧ ac_live x' = demo_reach [] "token".
Proof.
  split; [do 2 eexists; split_and!; vm_compute; reflexivity|].
  assert (Hr : (mutate demo_cas (λ c, Ok (clear_relay c)) (mkOWorld (demo_reached []) [] [])).1 = Some (Ok 1%Z)) by (vm_compute; reflexivity).
  unfold demo_apply. revert Hr. generalize (mkOWorld (demo_reached []) [] []). intros w Hr.
  destruct (mutate demo_cas _ w) as [r w'] eqn:Hm. cbn in Hr. subst r.
  destruct (revoked_relay_comes_back demo_attempt demo_cas 10 10 true (demo_access []) w w' 1%Z) as (x' & -> & Hu & Hl); try done.
  - split; [by vm_compute|]. intros k [= <-]. reflexivity.
  - intros [Hx|[Hx|Hx]]; [done|by destruct Hx..].
  - by exists x'.
Defined.
End demo.
