(* ===== verification/Draft.v ===== *)
(** * Waiting pair links (crates/pl-transport-win/src/draft.rs)

    A pair link that is opened on the desktop waits in the draft file; one that
    arrives while another waits, or while the app is paired, waits in the
    deferred file. The files are those of [OwnerFs], under the lock of
    [Handoff]; the JSON codec and the link parser are parameters.

    Reading a file, or asking whether it is there, can fail like every other
    call when [fallible]; otherwise a look at a file answers or is the last
    the process makes. *)
From Stdlib Require Import Ascii String.
From S2P Require Import Prelude RustStr PauseStore Model Ingest Transport OwnerFs Paired PairedLogic Handoff HandoffLogic HandoffSteps.

Local Open Scope list_scope.

Definition DRAFT_SCHEMA : string := "solstone.pair-link-draft.v1".
Definition DRAFT_FILE_NAME : string := "pair-link-draft.json".
Definition DEFERRED_FILE_NAME : string := "pair-link-deferred.json".
Definition DEFERRED_REJECTED_FILE_NAME : string := "pair-link-deferred-rejected".
Definition DRAFT_MAX_BYTES : Z := 4096.

Record PairLinkDraft : Type := mkDraft { dr_schema : string; dr_pairing_link : string }.
Inductive DraftWriteOutcome : Type := DStored | DDeferred | DRejected | DBusy.

Class DraftLib := {
  draft_json : PairLinkDraft → option string;
  draft_of : string → option PairLinkDraft;
  (** What a link says, if it is one. *)
  link_says : string → option string
}.
Class DraftLaws `{DraftLib} : Prop := { draft_round d b : draft_json d = Some b → draft_of b = Some d }.

Section draft.
Context `{DraftLib}.
Context (fallible : bool).

Definition look {A} (f : gmap string string → result A io_error) : OIO (result A io_error) :=
  if fallible then ocall (λ d, (f d, d)) (λ _ d, d)
  else
    v ← next_verdict;
    match v return OIO (result A io_error) with
    | Halt | HaltDone | HaltTorn _ => λ w, (None, w)
    | _ => λ w, (Some (f (o_files (ow_own w))), w)
    end.
Definition look_exists (path : string) : OIO bool :=
  r ← look (λ f, Ok (bool_decide (is_Some (f !! path))));
  mret (match r with Ok b => b | Err _ => false end).

Definition read_link_at (path : string) : OIO (option string) :=
  r ← look (λ f, found_file (f !! path));
  mret (match r with
        | Err _ => None
        | Ok bytes =>
          if (DRAFT_MAX_BYTES <? str_len bytes)%Z then None
          else
            match draft_of bytes with
            | None => None
            | Some d => if String.eqb (dr_schema d) DRAFT_SCHEMA && negb (is_empty (dr_pairing_link d)) then Some (dr_pairing_link d) else None
            end
        end).
Definition read_draft : OIO (option string) := read_link_at DRAFT_FILE_NAME.
Definition read_deferred : OIO (option string) := read_link_at DEFERRED_FILE_NAME.
Definition deferred_rejected : OIO bool := look_exists DEFERRED_REJECTED_FILE_NAME.

(** [busy]: another process holds the lock; [tag]: the process and the clock. *)
Context (busy : bool) (tag : string).

Definition write_link_file (path link : string) : OIO (result unit io_error) :=
  write_atomic_json path tag (draft_json (mkDraft DRAFT_SCHEMA link)) DRAFT_MAX_BYTES.
Definition clear_rejected : OIO unit := oremove DEFERRED_REJECTED_FILE_NAME;; mret tt.

Definition write_draft_if_allowed (link : string) (is_paired ceremony_active : bool) : OIO (result DraftWriteOutcome io_error) :=
  held ←! acquire_handoff_lock busy;
  if negb held then oko DBusy
  else
    incumbent ← (if is_paired || ceremony_active then mret true else look_exists DRAFT_FILE_NAME);
    if negb incumbent then
      _ ←! write_link_file DRAFT_FILE_NAME link;
      clear_rejected;; oko DStored
    else
      there ← look_exists DEFERRED_FILE_NAME;
      if negb there then
        _ ←! write_link_file DEFERRED_FILE_NAME link;
        clear_rejected;; oko DDeferred
      else
        marked ← look_exists DEFERRED_REJECTED_FILE_NAME;
        _ ←! (if marked : bool then oko tt else ocreate DEFERRED_REJECTED_FILE_NAME);
        oko DRejected.

Definition take_deferred : OIO (result (option string) io_error) :=
  held ←! acquire_handoff_lock busy;
  if negb held then erro OtherError
  else
    link ← read_link_at DEFERRED_FILE_NAME;
    _ ←! match link with Some link => write_link_file DRAFT_FILE_NAME link | None => oko tt end;
    there ← look_exists DEFERRED_FILE_NAME;
    _ ←! (if there : bool then oremove DEFERRED_FILE_NAME else oko tt);
    oko link.

Definition same_link (a b : string) : bool :=
  let a := trim a in let b := trim b in
  if String.eqb a b then true
  else match link_says a, link_says b with Some x, Some y => String.eqb x y | _, _ => false end.

Definition clear_used_draft (used : string) : OIO (result bool io_error) :=
  held ←! acquire_handoff_lock busy;
  if negb held then erro OtherError
  else
    r ← read_draft;
    match r with
    | None => oko false
    | Some stored =>
      if negb (same_link stored used) then oko false
      else
        r ← oremove DRAFT_FILE_NAME;
        match r with Ok _ => oko true | Err NotFound => oko false | Err e => erro e end
    end.

Definition dismiss (path : string) : OIO (result unit io_error) :=
  held ←! acquire_handoff_lock busy;
  if negb held then erro OtherError
  else
    r ← oremove path;
    match r with Err NotFound => oko tt | r => mret r end.
Definition dismiss_deferred : OIO (result unit io_error) := dismiss DEFERRED_FILE_NAME.
Definition dismiss_rejected : OIO (result unit io_error) := dismiss DEFERRED_REJECTED_FILE_NAME.
End draft.

(** ** A waiting link is kept *)

Section kept.
Context `{DraftLib} `{!DraftLaws}.

(** The two files, and the links in them. *)
Definition Two : Type := option string * option string.
Definition two (o : Owned) : Two := (o_files o !! DRAFT_FILE_NAME, o_files o !! DEFERRED_FILE_NAME).
Definition link_in (file : option string) : option string :=
  match file with
  | None => None
  | Some bytes =>
    if (DRAFT_MAX_BYTES <? str_len bytes)%Z then None
    else
      match draft_of bytes with
      | None => None
      | Some d => if String.eqb (dr_schema d) DRAFT_SCHEMA && negb (is_empty (dr_pairing_link d)) then Some (dr_pairing_link d) else None
      end
  end.
Definition link_waits (t : Two) (link : string) : Prop := link_in t.1 = Some link ∨ link_in t.2 = Some link.
(** The draft file, or the deferred file, was written with [link]. *)
Definition holds (link : string) (file : option string) : Prop :=
  ∃ b, file = Some b ∧ draft_json (mkDraft DRAFT_SCHEMA link) = Some b ∧ (str_len b <= DRAFT_MAX_BYTES)%Z.

Lemma holds_link link file : link ≠ "" → holds link file → link_in file = Some link.
Proof.
  intros Hne (b & -> & Hj & Hl). unfold link_in. assert ((DRAFT_MAX_BYTES <? str_len b)%Z = false) as -> by (apply Z.ltb_ge; lia).
  rewrite (draft_round _ _ Hj). cbn. destruct link; done.
Qed.
Lemma link_in_nonempty file link : link_in file = Some link → link ≠ "".
Proof.
  unfold link_in. destruct file as [b|]; [|done]. destruct (_ <? _)%Z; [done|]. destruct (draft_of b) as [d|]; [|done].
  destruct (String.eqb _ _); [|done]. cbn. destruct (dr_pairing_link d); [done|]. cbn. intros [= <-]. done.
Qed.

(** A triple about the two files only. *)
Definition on_two {A} (t : Two) (m : OIO A) (Q : A → Two → Prop) (C : Two → Prop) : Prop :=
  oht (λ o, two o = t) m (λ r o, Q r (two o)) (λ o, C (two o)).

Lemma on_two_ret {A} t (a : A) (Q : A → Two → Prop) C : Q a t → on_two t (mret a) Q C.
Proof. intros HQ. apply oht_ret. by intros o ->. Qed.
Lemma on_two_bind {A B} t (m : OIO A) (k : A → OIO B) (R : A → Two → Prop) Q (C : Two → Prop) :
  on_two t m R C → (∀ a t', R a t' → on_two t' (k a) Q C) → on_two t (m ≫= k) Q C.
Proof. intros Hm Hk. eapply oht_bind; [exact Hm|]. intros a w Hw. by apply (Hk a _ Hw w). Qed.
Lemma on_two_try {A B E} t (m : OIO (result A E)) (k : A → OIO (result B E)) (R : result A E → Two → Prop) Q (C : Two → Prop) :
  on_two t m R C → (∀ a t', R (Ok a) t' → on_two t' (k a) Q C) → (∀ e t', R (Err e) t' → Q (Err e) t') → on_two t (tryo m k) Q C.
Proof. intros Hm Hk He. eapply on_two_bind; [exact Hm|]. intros [a|e] t' Ht; [by apply Hk|]. apply on_two_ret. by apply He. Qed.

(** A call that leaves both files alone. *)
Lemma on_two_idle {A} names t (m : OIO A) (Q : A → Two → Prop) (C : Two → Prop) :
  (∀ o, oht (λ o', o' = o) m (λ _ o', same_but names o o') (same_but names o)) →
  DRAFT_FILE_NAME ∉ names → DEFERRED_FILE_NAME ∉ names → (∀ a, Q a t) → C t → on_two t m Q C.
Proof.
  intros Hm Hd He HQ HC w Hw. specialize (Hm (ow_own w) w eq_refl).
  assert (Hs : ∀ o', same_but names (ow_own w) o' → two o' = t) by (intros o' [_ Hf]; unfold two in *; by rewrite !Hf).
  destruct (m w) as [[a|] w']; by rewrite (Hs _ Hm).
Qed.
Lemma on_two_lock busy t Q (C : Two → Prop) : (∀ r, Q r t) → C t → on_two t (acquire_handoff_lock busy) Q C.
Proof. intros HQ HC. apply (on_two_idle [LOCK_FILE_NAME]); [apply lock_only|set_solver|set_solver|done|done]. Qed.
Lemma on_two_clear t Q (C : Two → Prop) : Q tt t → C t → on_two t clear_rejected Q C.
Proof.
  intros HQ HC. eapply (on_two_bind _ _ _ (λ _ t', t' = t)).
  - apply (on_two_idle [DEFERRED_REJECTED_FILE_NAME]); [|set_solver|set_solver|done|done]. intros o.
    eapply oht_weaken; [apply (oht_remove _ o)|done|by intros ? ? [? _]|by intros ? [? _]].
  - intros r t' ->. by apply on_two_ret.
Qed.

(** A look that does not fail. *)
Lemma on_two_look {A} (f : gmap string string → result A io_error) (g : Two → result A io_error) t Q (C : Two → Prop) :
  (∀ o, f (o_files o) = g (two o)) → Q (g t) t → C t → on_two t (look false f) Q C.
Proof.
  intros Hf HQ HC w Hw. unfold look, mbind, oio_bind, next_verdict. cbn. destruct (default Good _); cbn; rewrite ?Hf, ?Hw; done.
Qed.
Definition file_of (path : string) (t : Two) : option string := if String.eqb path DRAFT_FILE_NAME then t.1 else t.2.
Definition of_two (path : string) : Prop := path = DRAFT_FILE_NAME ∨ path = DEFERRED_FILE_NAME.
Lemma file_of_two path o : of_two path → o_files o !! path = file_of path (two o).
Proof. intros [->| ->]; reflexivity. Qed.
Lemma on_two_exists path t Q (C : Two → Prop) :
  of_two path → Q (bool_decide (is_Some (file_of path t))) t → C t → on_two t (look_exists false path) Q C.
Proof.
  intros Hp HQ HC. eapply (on_two_bind _ _ _ (λ r t', r = Ok (bool_decide (is_Some (file_of path t))) ∧ t' = t)).
  - apply (on_two_look _ (λ t, Ok (bool_decide (is_Some (file_of path t))))); [|done|done]. intros o. by rewrite (file_of_two path o Hp).
  - intros r t' [-> ->]. by apply on_two_ret.
Qed.
Lemma on_two_read path t Q (C : Two → Prop) :
  of_two path → Q (link_in (file_of path t)) t → C t → on_two t (read_link_at false path) Q C.
Proof.
  intros Hp HQ HC. eapply (on_two_bind _ _ _ (λ r t', r = found_file (file_of path t) ∧ t' = t)).
  - apply (on_two_look _ (λ t, found_file (file_of path t))); [|done|done]. intros o. by rewrite (file_of_two path o Hp).
  - intros r t' [-> ->]. apply on_two_ret. by destruct (file_of path t).
Qed.

(** Writing and removing one of the files. *)
Definition put_file (path : string) (file : option string) (t : Two) : Two := if String.eqb path DRAFT_FILE_NAME then (file, t.2) else (t.1, file).
Lemma two_put path tag o o' file :
  of_two path → same_but (tmp_of path tag) o o' → o_files o' !! path = file → two o' = put_file path file (two o).
Proof.
  intros Hp [_ Hf] He. unfold two, put_file. destruct Hp as [->| ->]; cbn; rewrite He; f_equal; apply Hf; unfold tmp_of, staged_name; set_solver.
Qed.
Lemma on_two_write path tag link t Q (C : Two → Prop) :
  of_two path → (∀ file, holds link file → ∀ r, Q r (put_file path file t)) → (∀ e, Q (Err e) t) →
  (∀ file, holds link file → C (put_file path file t)) → C t → on_two t (write_link_file tag path link) Q C.
Proof.
  intros Hp HQ HQe HC HCt w Hw. pose proof (oht_write_json path tag (draft_json (mkDraft DRAFT_SCHEMA link)) DRAFT_MAX_BYTES (ow_own w) w eq_refl) as Hr.
  change (write_atomic_json _ _ _ _) with (write_link_file tag path link) in Hr.
  assert (Hwr : ∀ o', written path tag (draft_json (mkDraft DRAFT_SCHEMA link)) DRAFT_MAX_BYTES (ow_own w) o' →
    ∃ file, holds link file ∧ two o' = put_file path file t).
  { intros o' (b & Hj & Hl & Hs & Hd). exists (Some b). split; [by exists b|]. rewrite <- Hw. by eapply two_put. }
  assert (Hun : ∀ o', unwritten path tag (ow_own w) o' → two o' = t).
  { intros o' [Hs Hd]. rewrite (two_put path tag _ _ _ Hp Hs Hd), Hw. rewrite (file_of_two path _ Hp), Hw. unfold put_file, file_of. by destruct t, (String.eqb _ _). }
  destruct (write_link_file tag path link w) as [[r|] w'].
  - destruct Hr as [Hr|[Hr Hne]]; [destruct (Hwr _ Hr) as (file & Hh & ->); auto|rewrite (Hun _ Hr)]. by destruct r as [[]|e].
  - destruct Hr as [Hr|Hr]; [destruct (Hwr _ Hr) as (file & Hh & ->); auto|by rewrite (Hun _ Hr)].
Qed.
Lemma on_two_remove path t Q (C : Two → Prop) :
  of_two path → (∀ r, Q r t) → (∀ r, Q r (put_file path None t)) → C t → C (put_file path None t) → on_two t (oremove path) Q C.
Proof.
  intros Hp HQ HQ' HC HC' w Hw. pose proof (oht_remove path (ow_own w) w eq_refl) as Hr.
  assert (Hs : ∀ o', same_but [path] (ow_own w) o' ∧ (o_files o' !! path = o_files (ow_own w) !! path ∨ o_files o' !! path = None) →
    two o' = t ∨ two o' = put_file path None t).
  { intros o' [Hs He]. assert (Hb : same_but (tmp_of path "") (ow_own w) o') by (eapply same_but_subset; [exact Hs|unfold tmp_of; set_solver]).
    destruct He as [He|He]; rewrite (two_put path "" _ _ _ Hp Hb He), Hw; [left|by right].
    rewrite (file_of_two path _ Hp), Hw. unfold put_file, file_of. by destruct t, (String.eqb _ _). }
  destruct (oremove path w) as [[r|] w']; destruct (Hs _ Hr) as [->| ->]; auto.
Qed.

(** What the app does with the links; the answer is the link it is told is
    kept. *)
Inductive DraftOp : Type :=
  | OpWrite (link : string) (is_paired ceremony_active : bool)
  | OpTake | OpClearUsed (used : string) | OpDismissDeferred | OpDismissRejected.
Definition perform (fallible busy : bool) (tag : string) (op : DraftOp) : OIO (option string) :=
  match op with
  | OpWrite link is_paired ceremony_active =>
    r ← write_draft_if_allowed fallible busy tag link is_paired ceremony_active;
    mret (match r with Ok DStored | Ok DDeferred => Some link | _ => None end)
  | OpTake => take_deferred fallible busy tag;; mret None
  | OpClearUsed used => clear_used_draft fallible busy used;; mret None
  | OpDismissDeferred => dismiss_deferred busy;; mret None
  | OpDismissRejected => dismiss_rejected busy;; mret None
  end.

(** The operation is meant to drop the link: it was used, dismissed, or the
    owner chose the deferred link in place of it. *)
Definition releases (op : DraftOp) (link : string) (t : Two) : Prop :=
  match op with
  | OpWrite _ _ _ | OpDismissRejected => False
  | OpTake => link_in t.1 = Some link ∧ ∃ other, link_in t.2 = Some other ∧ other ≠ link
  | OpClearUsed used => link_in t.1 = Some link ∧ same_link link used = true
  | OpDismissDeferred => link_in t.2 = Some link
  end.

Lemma on_two_then {A B} t (m : OIO A) (b : B) (Q C : Two → Prop) : on_two t m (λ _, Q) C → on_two t (m;; mret b) (λ _, Q) C.
Proof. intros Hm. eapply on_two_bind; [exact Hm|]. intros a t' Ht. by apply on_two_ret. Qed.
Lemma on_two_locked {A} busy t (k : bool → OIO (result A io_error)) Q (C : Two → Prop) :
  on_two t (k true) Q C → on_two t (k false) Q C → (∀ e, Q (Err e) t) → C t → on_two t (tryo (acquire_handoff_lock busy) k) Q C.
Proof.
  intros Ht Hf He HC. eapply (on_two_try _ _ _ (λ _ t', t' = t)); [by apply on_two_lock|by intros [] t' ->|by intros e t' ->].
Qed.
Lemma on_two_dismiss busy path t (Q C : Two → Prop) :
  of_two path → Q t → Q (put_file path None t) → C t → C (put_file path None t) → on_two t (dismiss busy path) (λ _, Q) C.
Proof.
  intros Hp HQ HQ' HC HC'. apply on_two_locked; [|by apply on_two_ret|done|done]. cbn.
  eapply (on_two_bind _ _ _ (λ _, Q)); [by apply on_two_remove|]. intros [u|[]] t' Ht; by apply on_two_ret.
Qed.

Lemma on_two_any {A} t (m : OIO A) : on_two t m (λ _ _, True) (λ _, True).
Proof. intros w _. by destruct (m w) as [[a|] w']. Qed.

Section one.
Context (link : string) (t : Two) (Hw : link_waits t link).

Lemma put_other path file : of_two path → link_in (file_of path t) ≠ Some link → link_waits (put_file path file t) link.
Proof. destruct Hw as [Hd|Hd]; intros [->| ->] Hn; cbn in *; [done|by left|by right|done]. Qed.
Lemma write_keeps path tag l :
  of_two path → link_in (file_of path t) ≠ Some link ∨ l = link →
  on_two t (write_link_file tag path l) (λ _ t', link_waits t' link) (λ t', link_waits t' link).
Proof.
  assert (Hne : link ≠ "") by (destruct Hw; by eapply link_in_nonempty). intros Hp Hor.
  assert (Hput : ∀ file, holds l file → link_waits (put_file path file t) link).
  { intros file Hh. destruct Hor as [Hn| ->]; [by apply put_other|]. apply holds_link in Hh; [|done]. destruct Hp as [->| ->]; [by left|by right]. }
  apply on_two_write; auto.
Qed.
Lemma clear_keeps {A} (a : A) : on_two t (clear_rejected;; mret a) (λ _ t', link_waits t' link) (λ t', link_waits t' link).
Proof. eapply (on_two_bind _ _ _ (λ _, λ t', link_waits t' link)); [by apply on_two_clear|]. intros u t' Ht. by apply on_two_ret. Qed.
End one.

Lemma keeps_write busy tag l p c link t :
  link_waits t link → on_two t (write_draft_if_allowed false busy tag l p c) (λ _ t', link_waits t' link) (λ t', link_waits t' link).
Proof.
  intros Hw. apply on_two_locked; [|by apply on_two_ret|done|done]. cbn [negb].
  eapply (on_two_bind _ _ _ (λ b t', t' = t ∧ (b = false → t.1 = None))).
  { destruct (p || c); [by apply on_two_ret|]. apply on_two_exists; [by left| |done]. split; [done|]. intros Hb.
    apply bool_decide_eq_false, eq_None_not_Some in Hb. exact Hb. }
  intros inc t' [-> Hinc]. destruct inc; cbn [negb].
  2: { eapply on_two_try; [apply (write_keeps link); [done|by left|left; cbn; by rewrite Hinc]| |done]. intros u t' Ht. by apply clear_keeps. }
  eapply (on_two_bind _ _ _ (λ b t', t' = t ∧ (b = false → t.2 = None))).
  { apply on_two_exists; [by right| |done]. split; [done|]. intros Hb. apply bool_decide_eq_false, eq_None_not_Some in Hb. exact Hb. }
  intros there t' [-> Hth]. destruct there; cbn [negb].
  2: { eapply on_two_try; [apply (write_keeps link); [done|by right|left; cbn; by rewrite Hth]| |done]. intros u t' Ht. by apply clear_keeps. }
  eapply (on_two_bind _ _ _ (λ _ t', link_waits t' link)).
  { eapply (on_two_bind _ _ _ (λ _ t', link_waits t' link)); [|intros r t' Ht; by apply on_two_ret].
    intros w Hw'. unfold look, mbind, oio_bind, next_verdict. cbn. destruct (default Good _); cbn; by rewrite Hw'. }
  intros marked t' Ht. eapply (on_two_try _ _ _ (λ _ t', link_waits t' link)); [|intros u t'' Ht'; by apply on_two_ret|done].
  destruct marked; [by apply on_two_ret|]. apply (on_two_idle [DEFERRED_REJECTED_FILE_NAME]); [|set_solver|set_solver|done|done].
  intros o. unfold ocreate. apply oht_call. intros o' ->. cbn. pose proof (same_but_refl [DEFERRED_REJECTED_FILE_NAME] o).
  assert (same_but [DEFERRED_REJECTED_FILE_NAME] o (set_files (<[DEFERRED_REJECTED_FILE_NAME := EmptyString]> (o_files o)) o)) by (apply same_but_insert; [done|set_solver]).
  by split_and!.
Qed.
Lemma keeps_take busy tag link t :
  link_waits t link → ¬ releases OpTake link t → on_two t (take_deferred false busy tag) (λ _ t', link_waits t' link) (λ t', link_waits t' link).
Proof.
  intros Hw Hn. apply on_two_locked; [|by apply on_two_ret|done|done]. cbn [negb].
  eapply (on_two_bind _ _ _ (λ r t', r = link_in t.2 ∧ t' = t)); [by apply on_two_read; [right| |]|]. intros r t' [-> ->].
  (* once the deferred file can go, the link is in the draft *)
  eapply (on_two_try _ _ _ (λ r t', link_waits t' link ∧ (is_ok r = true → link_in t'.1 = Some link))); [| |by intros e t' [? _]].
  - destruct (link_in t.2) as [l|] eqn:Hl.
    + assert (l = link) as ->.
      { destruct (decide (l = link)) as [|Hne]; [done|]. destruct Hw as [Hd|Hd]; [|congruence]. destruct Hn. split; [done|]. exists l. by split. }
      assert (Hne : link ≠ "") by by eapply link_in_nonempty. apply on_two_write; [by left| |done| |done].
      * intros file Hh r. apply holds_link in Hh; [|done]. split; [by left|done].
      * intros file Hh. apply holds_link in Hh; [|done]. by left.
    + apply on_two_ret. destruct Hw as [Hd|Hd]; [|congruence]. split; [by left|done].
  - intros u t' [Hw' Hd]. specialize (Hd eq_refl). eapply (on_two_bind _ _ _ (λ _ t'', t'' = t')); [by apply on_two_exists; [right| |]|].
    intros there t'' ->. eapply (on_two_try _ _ _ (λ _ t'', link_waits t'' link)); [|intros v t'' Ht; by apply on_two_ret|done].
    destruct there; [|by apply on_two_ret]. apply on_two_remove; [by right| | | |]; intros; by left.
Qed.
Lemma keeps_clear_used busy used link t :
  link_waits t link → ¬ releases (OpClearUsed used) link t → on_two t (clear_used_draft false busy used) (λ _ t', link_waits t' link) (λ t', link_waits t' link).
Proof.
  intros Hw Hn. apply on_two_locked; [|by apply on_two_ret|done|done]. cbn [negb].
  eapply (on_two_bind _ _ _ (λ r t', r = link_in t.1 ∧ t' = t)); [by apply on_two_read; [left| |]|]. intros r t' [-> ->].
  destruct (link_in t.1) as [l|] eqn:Hl; [|by apply on_two_ret]. destruct (same_link l used) eqn:Hs; [|by apply on_two_ret]. cbn [negb].
  assert (Hp : link_waits (put_file DRAFT_FILE_NAME None t) link).
  { apply put_other; [done|by left|]. cbn. intros Hx. destruct Hn. split; [done|]. congruence. }
  eapply (on_two_bind _ _ _ (λ _ t', link_waits t' link)); [by apply on_two_remove; [left| | | |]|]. intros [u|[]] t' Ht; by apply on_two_ret.
Qed.

Lemma perform_keeps busy tag op link t :
  link_waits t link → ¬ releases op link t → on_two t (perform false busy tag op) (λ _ t', link_waits t' link) (λ t', link_waits t' link).
Proof.
  intros Hw Hn. destruct op as [l p c| |used| |]; cbn [perform].
  - eapply on_two_bind; [by apply keeps_write|]. intros r t' Ht. by apply on_two_ret.
  - apply on_two_then. by apply keeps_take.
  - apply on_two_then. by apply keeps_clear_used.
  - apply on_two_then, on_two_dismiss; [by right|done| |done|]; (apply put_other; [done|by right|exact Hn]).
  - apply on_two_then. apply on_two_locked; [|by apply on_two_ret|done|done]. cbn [negb].
    eapply (on_two_bind _ _ _ (λ _ t', link_waits t' link)); [|intros [u|[]] t' Ht; by apply on_two_ret].
    apply (on_two_idle [DEFERRED_REJECTED_FILE_NAME]); [|set_solver|set_solver|done|done]. intros o.
    eapply oht_weaken; [apply (oht_remove _ o)|done|by intros ? ? [? _]|by intros ? [? _]].
Qed.
Lemma perform_tells busy tag op link t :
  link ≠ "" → on_two t (perform false busy tag op) (λ r t', r = Some link → link_waits t' link) (λ _, True).
Proof.
  intros Hne. destruct op as [l p c| |used| |]; cbn [perform];
    try (eapply on_two_bind; [apply on_two_any|]; intros r t' _; by apply on_two_ret).
  eapply (on_two_bind _ _ _ (λ r t', r = Ok DStored ∨ r = Ok DDeferred → l = link → link_waits t' link)).
  2: { intros [[]|e] t' Ht; apply on_two_ret; try done; intros [= ->]; auto. }
  apply on_two_locked; [|by apply on_two_ret; intros [|]|by intros e [|]|done]. cbn [negb].
  eapply (on_two_bind _ _ _ (λ _ _, True)); [apply on_two_any|]. intros inc t' _.
  assert (Hwr : ∀ path (out : DraftWriteOutcome), of_two path →
    on_two t' (_ ←! write_link_file tag path l; clear_rejected;; oko out)
      (λ r t'', r = Ok DStored ∨ r = Ok DDeferred → l = link → link_waits t'' link) (λ _, True)).
  { intros path out Hp. eapply (on_two_try _ _ _ (λ r t'', r = Ok tt → l = link → link_waits t'' link)).
    - apply on_two_write; try done. intros file Hh r _ ->. apply holds_link in Hh; [|done]. destruct Hp as [->| ->]; [by left|by right].
    - intros [] t'' Ht. eapply (on_two_bind _ _ _ (λ _ t3, t3 = t'')); [by apply on_two_clear|]. intros v t3 ->. apply on_two_ret. auto.
    - by intros e t'' _ [|]. }
  destruct inc; cbn [negb]; [|by apply Hwr; left].
  eapply (on_two_bind _ _ _ (λ _ t'', t'' = t')); [by apply on_two_exists; [right| |]|]. intros there t'' ->. destruct there; cbn [negb]; [|by apply Hwr; right].
  eapply on_two_bind; [apply on_two_any|]. intros marked t'' _. eapply on_two_try; [apply on_two_any| |by intros e t3 _ [|]].
  intros u t3 _. by apply on_two_ret; intros [|].
Qed.

(** What can happen to the files short of dropping [link]: operations of the
    app that fail or stop anywhere, and changes to other files. *)
Inductive draft_step (link : string) : Owned → Owned → Prop :=
  | ds_perform busy tag op w r w' :
      perform false busy tag op w = (r, w') → ¬ releases op link (two (ow_own w)) → draft_step link (ow_own w) (ow_own w')
  | ds_other o o' : two o' = two o → draft_step link o o'.

Lemma draft_step_keeps link o o' : draft_step link o o' → link_waits (two o) link → link_waits (two o') link.
Proof.
  intros [busy tag op w r w' Hp Hn|o1 o2 He] Hw; [|by rewrite He].
  pose proof (perform_keeps busy tag op link _ Hw Hn w eq_refl) as Hk. rewrite Hp in Hk. by destruct r.
Qed.
Lemma read_link_calm path o : of_two path → (read_link_at false path (calm o)).1 = Some (link_in (file_of path (two o))).
Proof. intros Hp. unfold read_link_at, look, mbind, oio_bind, next_verdict. cbn. rewrite (file_of_two path o Hp). by destruct (file_of path (two o)). Qed.

(** C30. A pair link the app was told is kept stays in one of the two files, and
    is found there, until it is used, dismissed or replaced by the owner's
    choice of the deferred link, whatever calls fail and wherever the process
    stops in between, provided a look at a file that returns does not fail. *)
Theorem waiting_link_is_kept busy tag op link w w' o :
  link ≠ "" → perform false busy tag op w = (Some (Some link), w') → rtc (draft_step link) (ow_own w') o →
  (read_draft false (calm o)).1 = Some (Some link) ∨ (read_deferred false (calm o)).1 = Some (Some link).
Proof.
  intros Hne Hp Hr. assert (Hw : link_waits (two o) link).
  { assert (Hw : link_waits (two (ow_own w')) link) by (pose proof (perform_tells busy tag op link _ Hne w eq_refl) as Ht; rewrite Hp in Ht; by apply Ht).
    clear Hp. induction Hr as [|o1 o2 o3 Hs _ IH]; [done|]. apply IH. by eapply draft_step_keeps. }
  unfold read_draft, read_deferred. rewrite (read_link_calm DRAFT_FILE_NAME), (read_link_calm DEFERRED_FILE_NAME) by (by left) || (by right).
  destruct Hw as [Hw|Hw]; [left|right]; by f_equal.
Qed.

(** C31. If the deferred file cannot be read at the moment the owner chooses its
    link, the file is removed all the same: the choice fails and the link is
    gone. *)
Theorem failed_read_loses_the_link tag link o :
  (read_deferred true (calm o)).1 = Some (Some link) →
  let '(r, w) := take_deferred true false tag (mkOWorld o [Good; Good; Bad] []) in
  r = Some (Ok None) ∧ o_files (ow_own w) !! DEFERRED_FILE_NAME = None ∧ o_files (ow_own w) !! DRAFT_FILE_NAME = o_files o !! DRAFT_FILE_NAME.
Proof.
  intros Hl. assert (Hf : is_Some (o_files o !! DEFERRED_FILE_NAME)).
  { unfold read_deferred, read_link_at, look, ocall, mbind, oio_bind, next_verdict in Hl. cbn in Hl. by destruct (o_files o !! DEFERRED_FILE_NAME). }
  destruct Hf as [b Hf]. unfold take_deferred, acquire_handoff_lock, tryo, read_link_at, look_exists, look, ocreate_dir, oremove, ocall, mbind, oio_bind, next_verdict, oko. cbn.
  set (f := match o_files o !! LOCK_FILE_NAME with Some _ => _ | None => _ end).
  assert (Hfd : f !! DEFERRED_FILE_NAME = Some b ∧ f !! DRAFT_FILE_NAME = o_files o !! DRAFT_FILE_NAME).
  { unfold f. destruct (o_files o !! LOCK_FILE_NAME); [done|]. by rewrite !lookup_insert_ne by done. }
  clearbody f. destruct Hfd as [Hfb Hfd]. rewrite Hfb. cbn. rewrite Hfb. cbn. by rewrite lookup_delete_eq, lookup_delete_ne.
Qed.
End kept.

(** ** At work *)

Section demo.
#[local] Instance demo_draft_lib : DraftLib := {
  draft_json := λ d, if String.eqb (dr_schema d) DRAFT_SCHEMA then Some (dr_pairing_link d) else None;
  draft_of := λ b, Some (mkDraft DRAFT_SCHEMA b); link_says := λ _, None }.
#[local] Instance demo_draft_laws : DraftLaws.
Proof.
  split. intros [schema link] b. cbn. destruct (String.eqb_spec schema DRAFT_SCHEMA) as [->|]; [|done]. by intros [= <-].
Qed.
Definition demo_no_links : OWorld := calm (mkOwned ∅ []).
Definition demo_deferred_run := perform false false "1" (OpWrite "link" true false) demo_no_links.
Definition demo_taken_run := perform false false "2" OpTake (mkOWorld (ow_own demo_deferred_run.2) [Good; Good; Good; Good; Good; Good; Good; Good; HaltDone] []).

(** [waiting_link_is_kept] on a link that is deferred, and taken by a run that
    stops as it removes the deferred file. *)
Lemma waiting_link_is_kept_witness :
  demo_taken_run.1 = None ∧ o_files (ow_own demo_taken_run.2) !! DEFERRED_FILE_NAME = None ∧
  ((read_draft false (calm (ow_own demo_taken_run.2))).1 = Some (Some "link") ∨ (read_deferred false (calm (ow_own demo_taken_run.2))).1 = Some (Some "link")).
Proof.
  split; [vm_compute; reflexivity|]. split; [vm_compute; reflexivity|].
  assert (Hn : ¬ releases OpTake "link" (two (ow_own demo_deferred_run.2))) by (intros [Hx _]; vm_compute in Hx; discriminate).
  apply (waiting_link_is_kept false "1" (OpWrite "link" true false) "link" demo_no_links demo_deferred_run.2 (ow_own demo_taken_run.2)).
  - discriminate.
  - vm_compute. reflexivity.
  - apply rtc_once. unfold demo_taken_run. revert Hn. generalize (ow_own demo_deferred_run.2). intros o Hn.
    exact (ds_perform "link" false "2" OpTake (mkOWorld o _ []) _ _ (surjective_pairing _) Hn).
Defined.
(** [failed_read_loses_the_link] on the same deferred link. *)
Lemma failed_read_loses_the_link_witness :
  let '(r, w) := take_deferred true false "2" (mkOWorld (ow_own demo_deferred_run.2) [Good; Good; Bad] []) in
  r = Some (Ok None) ∧ o_files (ow_own w) !! DEFERRED_FILE_NAME = None ∧
  o_files (ow_own w) !! DRAFT_FILE_NAME = o_files (ow_own demo_deferred_run.2) !! DRAFT_FILE_NAME.
Proof.
  assert (Hl : (read_deferred true (calm (ow_own demo_deferred_run.2))).1 = Some (Some "link")) by (vm_compute; reflexivity).
  revert Hl. generalize (ow_own demo_deferred_run.2). intros o. exact (failed_read_loses_the_link "2" "link" o).
Defined.
End demo.
